(* ===== verification/_CoqProject ===== *)
-Q . S2P
Prelude.v
GoStrings.v
AppError.v
Base64.v
Prog.v
Authz.v
Shared.v
ConvEntity.v
Messages.v
ConvContracts.v
Queries.v
Ports.v
ConvBase.v
ConvMessaging.v
ConvLifecycle.v
ConvIsolation.v
ConvDiscipline.v
ConvMachine.v
ConvState.v
ConvMemory.v
ConvProps.v
Presence.v
Routing.v
RoutingProps.v
LockRace.v
RoutingRace.v
Rules.v
RuleEval.v
RuleProps.v
RuleResults.v
Webhooks.v
WebhookProps.v
Redis.v
RedisProps.v
RedisPresence.v
Calendar.v
BusinessHours.v
BusinessTime.v
BusinessProps.v
Sla.v
SlaProps.v
SlaClock.v
Contacts.v
Search.v
SearchProps.v
InboxProps.v
ContactDocs.v
ContactProps.v
ContactResults.v
Channels.v
ChannelProps.v
Inbound.v
InboundRace.v
InboundProps.v
InboundCases.v
Pipelines.v
PipelineStore.v
Money.v
Deals.v
DealProps.v
DealStory.v
DealCases.v
DealTasks.v
DealTaskProps.v
Iam.v
Roles.v
Auth.v
AuthProps.v
AuthSessions.v
AuthAccounts.v
AuthCases.v
Privacy.v
PrivacyProps.v
PrivacyCases.v
Csat.v
CsatProps.v
Notifications.v
NotificationProps.v
Attachments.v
AttachmentProps.v
