(* ===== verification/Prelude.v ===== *)
(** * chat-smsnet-omnichannel: the verification library

    The program is a multi-tenant customer-service backend: conversations with
    customers over messaging channels, assigned to agents by sector and queue. Its
    layers are domain/ (entities, services, interfaces), infra/ (their Mongo, Redis
    and HTTP implementations), presenter/ (HTTP and websocket) and app/ (wiring).
    This library models the core of the domain layer and proves what makes it
    correct.

    ** How a service is modelled

    A service method is a [prog] ([Prog.v]): the tree of the calls it makes to the
    interfaces the service was built with, each call given its context and the
    continuation over the answer. Go's [(T, error)] is [result T]; [try!] is the
    early return on an error, [let!] a call whose error the code ignores or
    inspects. Ports ([Ports.v], [ConvBase.v], [Presence.v], [Routing.v]) are inductive
    types with one constructor per interface method, indexed by the type of the
    answer. A program can then be read three ways:
    - [wp T m Q g]: under every answer the contract [T] allows, each call meets the
      contract's precondition and the result meets [Q]. The ghost state [g] records
      what was read, written or locked. This is how "whatever the dependencies
      answer" is stated.
    - [run h m s]: sequentially, against a world [h] with state [s].
    - [steps], [schedule]: many programs at once, their calls interleaved in any
      order; [steps_wp] is the thread-modular rule.
    Every program is a finite tree, so every operation terminates once its
    dependencies answer: loops run over lists already read.

    ** Files

    Ground:
    - [Prelude], [GoStrings]: shared lemmas and tactics; the Go string functions the
      code calls (trimming, runes, prefixes, numbers), over UTF-8 bytes. [Base64]: the
      encoding of tokens and cursors, with its round trip.
    - [AppError]: domain/apperror. [Authz]: domain/authz (permissions, roles, the
      authentication context). [Shared]: domain/shared (context, rooms, pages, rule
      origin). [Prog]: programs, their contracts and their interleavings.

    Conversations:
    - [ConvEntity], [Messages], [ConvContracts]: entity/ and contracts/ of
      domain/conversations. [Queries]: keyset pagination (cursor, filter, page, the walk
      of a client) and what the conversation repositories read with it.
    - [Ports]: the interfaces the services share, and [ConvStore], the promise of the
      conversation repository (tenant-scoped reads; [Update] sets the fields the
      Mongo implementation sets, and may fail after taking effect).
    - [ConvBase], [ConvMessaging], [ConvLifecycle]: domain/conversations/service, one
      definition per method, in the code's order of calls, the actions of the automation
      rules with them. [Service] records which optional dependencies are wired; the parsing
      of an interactive message's JSON is a parameter.
    - [ConvIsolation]: the gated operations as one type, and what they do to a
      conversation the actor may not see. [ConvDiscipline]: what every call of every
      operation obeys (tenant, scope, announce after store, automation origin).
    - [ConvMachine]: the abstract conversation machine. [ConvState]: the operations
      refine it over any store that keeps [ConvStore]. [ConvMemory]: an executable
      world that does. [ConvProps]: what a client may rely on.
    - [Search], [SearchProps]: domain/search and its index over Mongo, whose messages are
      documents, with or without the field deleted_at; walks through the results. [InboxProps]: the list of conversations, walked.
    - [Presence]: domain/presence and the user entity. [Routing], [RoutingProps]:
      domain/routing, its lock discipline, eligibility and choice of agent. [LockRace]: work
      under an exclusive lock, generic. [RoutingRace]: no double assignment.

    Automation, webhooks, time:
    - [Rules], [RuleEval]: domain/automationrules (rules and their management; the
      evaluator, the executor and the queue's payload). [RuleProps], [RuleResults]:
      what they guarantee.
    - [Webhooks], [WebhookProps]: domain/webhooks (subscriptions, the dispatcher, the
      attempts and retries of a delivery, the message adapter).
    - [Redis]: the locker, the deduper, the limiters and the presence store of infra/,
      over the commands they send. [RedisProps], [RedisPresence]: that they keep what
      the domain relies on, over [RedisWorld], the documented commands, errors included
      (the deduper keeps the contract of [RuleProps]; the sockets of a user are followed
      command by command).
    - [Calendar]: the civil calendar and the zones of Go's time package.
      [BusinessHours]: domain/businesshours. [BusinessTime], [BusinessProps]: the time
      between two instants during which a schedule is open, and its inverse.
    - [Sla], [SlaProps]: domain/sla, its policies, alerts and trackings. [SlaClock]: the
      class [BusinessClock] that its deadlines rely on, discharged by [BusinessHours].

    Contacts, channels, inbound messages:
    - [Contacts], [ContactDocs]: domain/contacts; the documents it normalizes.
      [ContactProps], [ContactResults]: one identity, one contact.
    - [Channels], [ChannelProps]: domain/channels, the connections, their tokens and secrets.
    - [Inbound]: the inbound service of domain/channels, which calls contacts and
      conversations through their own definitions. [InboundRace]: a world in memory, and
      deliveries that race in it. [InboundProps], [InboundCases]: what is filed.

    Sales:
    - [Pipelines], [PipelineStore]: domain/pipelines. [Money]: float64 amounts.
    - [Deals]: domain/deals. [DealProps]: coherence under interleaving. [DealStory]: what
      is announced. [DealCases]: automated moves, and a world in memory.
    - [DealTasks], [DealTaskProps]: domain/dealtasks, and who changes a task.

    Accounts, privacy and the rest:
    - [Iam], [Roles]: domain/iam. [Auth]: domain/auth (sessions, signup, verification,
      invitations, resets). [AuthProps], [AuthSessions], [AuthAccounts], [AuthCases]: what
      is redeemed, what a session rests on, how accounts change, a world in memory.
    - [Privacy], [PrivacyProps], [PrivacyCases]: domain/privacy with its repository.
    - [Csat], [CsatProps]: domain/csat. [Notifications], [NotificationProps]:
      domain/notifications. [Attachments], [AttachmentProps]: domain/attachments and the keys
      and tokens of the local store.

    ** Groups of theorems

    - Refinement and invariants: [service_refines_machine], [documents_stay_valid],
      [closing_times_stay_consistent], [identities_route_to_one_contact],
      [deals_stay_coherent], [one_default_pipeline], [answers_are_stored_whole].
    - Safety of every operation: [operations_stay_in_tenant],
      [operations_announce_stored], [hidden_conversation_untouched],
      [tasks_follow_their_deals], [notifications_reach_their_recipient],
      [files_follow_their_conversation].
    - Concurrency: [routing_holds_the_lock], [no_double_assignment],
      [inbound_message_accepted_once], [credentials_are_redeemed_once].
    - Inbound messages: [inbound_message_is_filed] (where a message ends up, on each
      branch, with the out-of-hours notice the conversations service stores),
      [out_of_hours_notice_is_for_new_conversations].
    - Accounts: [sessions_are_justified], [accounts_change_only_as_told],
      [failed_logins_say_nothing], [recovery_is_neutral].
    - Reading: [inbox_shows_what_is_visible], [searches_show_what_is_visible] (a walk page
      by page ends, and shows exactly what it should).
    - Privacy: [erasure_forgets_the_contact], [retention_respects_policy_and_holds].
    - Automation: [automation_never_feeds_itself], [retries_never_refire],
      [actions_are_justified], [every_delivery_ends], [emit_reaches_subscribers].
    - Choice and access: [AutoAssign_picks_least_loaded],
      [manual_routing_enforces_membership], [presence_published_is_effective].
    - Redis: [locks_are_exclusive], [sockets_live_as_long_as_heard] (any interleaving of the
      commands, lost answers included), [saved_presence_reads_back], [deduper_answers].
    - Time: [business_time_is_open_time], [adding_business_time_inverts],
      [business_hours_are_a_clock], [alerts_fire_once].
    - Round trips and bounds: [normalized_documents_are_canonical],
      [media_links_open_their_object], [tokens_keep_their_entropy].
    - Defects shown, each by a run of the definitions. Races and lost updates:
      [close_may_be_lost], [resolution_may_be_lost], [two_first_messages_split_a_contact],
      [outcome_overwritten_by_an_edit], [stage_removed_under_a_deal],
      [two_requests_leave_two_defaults], [an_edit_reopens_a_task],
      [a_token_rotated_twice_at_once], [a_disabled_account_comes_back],
      [two_signups_split_an_owner], [an_answer_is_lost],
      [confirmed_twice_a_recording_is_lost], [a_connect_is_swept]. Failures: [failed_ledger_stores_the_message_twice],
      [limiter_counts_but_may_stick], [a_failed_mail_tells_the_account],
      [media_outlives_a_failed_erasure], [an_unread_choice_is_overridden],
      [a_failed_confirmation_cannot_be_repeated]. Others: [midnight_gap_breaks_business_time],
      [updated_messages_are_lost],
      [group_kind_is_never_stored], [added_products_are_told_without_total],
      [sessions_outlive_a_password_change], [retention_takes_the_avatars],
      [surveys_outlive_their_conversation], [an_avatar_leaves_its_tenant],
      [a_bar_moves_the_upload].

    ** Modelling choices

    - An instant is its nanoseconds, in [Z]; the rounding of stored times to
      milliseconds is only modelled where a cursor depends on it. Identifiers are opaque
      strings from [NewID].
    - Integers of the domain (counters, limits) stay far below the machine's width
      and are in [Z]; nothing the code does depends on their overflow. Amounts are float64,
      the standard library's executable binary64.
    - A pointer read from a repository is a fresh value: the repositories decode a
      new document per call and the services keep no reference across calls.
    - Maps of free-form values are association lists where only their content is
      passed on, [gmap] where the code looks keys up.
    - A service that calls another is given the other's own program, its calls lifted to the
      ports of the caller ([lift]), not a port that stands for it.
    - Code outside src/ is a parameter or a port: the telephone library, the parsing of
      addresses and JSON, the tables of the unicode package, the zone database, the password
      hasher, SHA-256 and HMAC, the signing of access tokens, the matches of a text index.
    - Stores fail as Mongo does: a call that reports an error may have been applied, and a
      call on many documents may have been applied to some. Where a theorem relies on what a
      store does, that is a class ([ConvStore], [CsatStore], [TaskStore], [NoteStore], ...)
      with an executable instance in which the theorem is exercised. Where the code drops an
      error the classes let the call fail, and the theorem says what is lost: an update of a
      tracking after its alert ([alerts_fire_once]), a retry the queue refused
      ([every_delivery_ends]), a claim asked of a Redis that is down ([retries_never_refire]).
    - In [RoutingRace] and [InboundRace] the lock is taken not to expire while its holder runs; in
      [RedisProps] it expires, and exclusion is stated until it does.
    - Erasure and retention run alone, over a clock that is read between two moments.
    - [Queries] and [Search] keep a collection in the order of its sort; a walk has the number
      of documents and one more as its fuel, which is shown to be enough.
    - Payload builders read the system clock ([SystemNow]) where the code does.
    - A Redis command is answered by one server with one clock; the scores of sorted
      sets are whole milliseconds. JSON documents carry whole numbers.
    - A loop over a Go map visits its keys in an order that is a parameter ([order]), so
      what is proved holds for each. [sort.Slice], used on the intervals of a day, is a stable
      sort: intervals with the same start overlap in either order.
    - A time zone is what its lookup answers at an instant; theorems on open time need
      a zone without transitions in the period. Business durations are summed in [Z].
    - Walks over the days of a schedule have the code's own bound (4000 days for adding,
      the period for measuring) as their fuel.
    - Logging is left out; it changes nothing the services read.

    ** Not modelled

    Transport, presentation and wiring (I/O); the drivers of the database, the task queue, the
    mail, the object stores and the audio converter; the protocols of the channel adapters, the
    hub, the copilot and the tool server, which are clients of external services; the
    aggregations of reports and metrics, which the database executes; token signing and
    password hashing, which are parameters. The small catalogs (queues, sectors, groups,
    products, timeline, settings, custom attributes, conversation tools), audit, maintenance and
    platform services are seen by the modelled ones only through their ports. *)
From stdpp Require Export base gmap strings pretty list sorting.

(** ** Scope and notations *)

Declare Scope omni_scope.
Delimit Scope omni_scope with omni.

(** Boolean equality on any type with decidable equality: Go's [==]. *)
Notation "x =! y" := (bool_decide (x = y)) (at level 70) : omni_scope.
Notation "x <>! y" := (negb (bool_decide (x = y))) (at level 70) : omni_scope.
#[global] Open Scope omni_scope.
#[global] Open Scope string_scope.
#[global] Open Scope list_scope.
#[global] Open Scope Z_scope.

(** ** Free-form values: Go's [any] as it travels in maps and JSON documents *)

Inductive value : Type :=
| VNil
| VBool (b : bool)
| VInt (z : Z)
| VStr (s : string)
| VTime (t : option Z)
| VStrs (l : list string)
| VList (l : list value)
| VMap (m : list (string * value)).

(** ** Automation *)

Create HintDb omni.

(** Destructs every [match]/[if]/[decide] of the goal or of a hypothesis, then
    simplifies equations. *)
Ltac split_step :=
  first
    [ progress simplify_eq/=
    | progress destruct_and?
    | match goal with
      | H : context [ match ?x with _ => _ end ] |- _ =>
          destruct x eqn:?
      | |- context [ match ?x with _ => _ end ] =>
          destruct x eqn:?
      end ].

Ltac split_all := repeat split_step.

(** Turns boolean tests of the context into propositions. *)
Ltac prop_bools :=
  repeat match goal with
  | H : bool_decide _ = true |- _ => apply bool_decide_eq_true_1 in H
  | H : bool_decide _ = false |- _ => apply bool_decide_eq_false_1 in H
  | H : negb _ = true |- _ => apply negb_true_iff in H
  | H : negb _ = false |- _ => apply negb_false_iff in H
  | H : _ && _ = true |- _ => apply andb_true_iff in H; destruct H
  | H : _ || _ = false |- _ => apply orb_false_iff in H; destruct H
  | H : (_ <? _) = true |- _ => apply Z.ltb_lt in H
  | H : (_ <? _) = false |- _ => apply Z.ltb_ge in H
  | H : (_ <=? _) = true |- _ => apply Z.leb_le in H
  | H : (_ <=? _) = false |- _ => apply Z.leb_gt in H
  | H : (_ =? _) = true |- _ => apply Z.eqb_eq in H
  | H : (_ =? _) = false |- _ => apply Z.eqb_neq in H
  end.

(** ** Machine integers: Go's [int] is 64 bits wide on the deployed platforms *)

Definition wrap64 (z : Z) : Z := (z + 2 ^ 63) mod 2 ^ 64 - 2 ^ 63.

Definition in_int64 (z : Z) : Prop := - 2 ^ 63 <= z < 2 ^ 63.

Lemma wrap64_id z : in_int64 z -> wrap64 z = z.
Proof. unfold in_int64, wrap64. intros. rewrite Z.mod_small; lia. Qed.

Lemma wrap64_range z : in_int64 (wrap64 z).
Proof.
  unfold in_int64, wrap64.
  pose proof (Z.mod_pos_bound (z + 2 ^ 63) (2 ^ 64) ltac:(lia)). lia.
Qed.

#[export] Hint Resolve wrap64_range : omni.

(** ** Stable sorting: [sort.SliceStable] with a [less] function

    The result of a stable sort with a strict weak order is unique; insertion
    after every element that is not greater computes it. *)

Section StableSort.
Context {A : Type} (less : A -> A -> bool).

Fixpoint insert_stable (x : A) (l : list A) : list A :=
  match l with
  | [] => [x]
  | y :: ys => if less x y then x :: y :: ys else y :: insert_stable x ys
  end.

Definition stable_sort (l : list A) : list A :=
  fold_left (fun acc x => insert_stable x acc) l [].

(** [y] may precede nothing that is strictly smaller than it. *)
Definition not_greater (x y : A) : Prop := less y x = false.

Lemma insert_stable_perm x l : insert_stable x l ≡ₚ x :: l.
Proof.
  induction l as [|y ys IH]; cbn; [done|].
  destruct (less x y); [done|].
  rewrite IH. apply Permutation_swap.
Qed.

Lemma fold_insert_perm l acc :
  fold_left (fun acc x => insert_stable x acc) l acc ≡ₚ acc ++ l.
Proof.
  revert acc. induction l as [|x l IH]; intros acc; cbn.
  - by rewrite app_nil_r.
  - rewrite IH, insert_stable_perm. cbn. apply Permutation_middle.
Qed.

Lemma stable_sort_perm l : stable_sort l ≡ₚ l.
Proof. unfold stable_sort. by rewrite fold_insert_perm. Qed.

Hypothesis less_asym : forall x y, less x y = true -> less y x = false.
Hypothesis less_negtrans : forall x y z,
  less x y = false -> less y z = false -> less x z = false.

Lemma insert_stable_sorted x l :
  StronglySorted not_greater l -> StronglySorted not_greater (insert_stable x l).
Proof.
  induction 1 as [|y ys Hs IH Hall]; cbn.
  - repeat constructor.
  - destruct (less x y) eqn:E.
    + constructor; [by constructor|].
      constructor; [by apply less_asym|].
      eapply Forall_impl; [exact Hall|]. intros z Hz. unfold not_greater in *.
      eapply less_negtrans; [exact Hz|]. by apply less_asym.
    + constructor; [exact IH|].
      rewrite insert_stable_perm. constructor; [exact E|exact Hall].
Qed.

Lemma stable_sort_sorted l : StronglySorted not_greater (stable_sort l).
Proof.
  unfold stable_sort.
  assert (forall acc, StronglySorted not_greater acc ->
    StronglySorted not_greater
      (fold_left (fun acc x => insert_stable x acc) l acc)) as H.
  { induction l as [|x l IH]; intros acc Hacc; cbn; [done|].
    by apply IH, insert_stable_sorted. }
  apply H. constructor.
Qed.

(** The head of the sorted list is a minimum of the input. *)
Lemma stable_sort_head l x rest :
  stable_sort l = x :: rest ->
  x ∈ l /\ Forall (fun y => less y x = false) l.
Proof.
  intros Heq. pose proof (stable_sort_perm l) as Hp.
  pose proof (stable_sort_sorted l) as Hs. rewrite Heq in Hp, Hs.
  split; [rewrite <- Hp; left|].
  rewrite <- Hp. apply StronglySorted_inv in Hs as [_ Hall].
  constructor; [|exact Hall].
  destruct (less x x) eqn:E; [|done]. pose proof (less_asym _ _ E). congruence.
Qed.

(** Stability: equivalent elements keep their input order. *)
Definition equiv_to (x y : A) : bool := negb (less x y) && negb (less y x).

End StableSort.

(** ** De-duplication loops: the [seen]-map pattern the services use *)

Section Dedupe.
Context {A : Type} `{EqDecision A, Countable A}.

(** [keep] of a [seen] set: the elements satisfying [ok] not seen before. *)
Fixpoint dedupe_from (ok : A -> bool) (seen : gset A) (l : list A) : list A :=
  match l with
  | [] => []
  | x :: xs =>
      if negb (ok x) then dedupe_from ok seen xs
      else if decide (x ∈ seen) then dedupe_from ok seen xs
      else x :: dedupe_from ok ({[x]} ∪ seen) xs
  end.

Lemma dedupe_from_elem ok seen l x :
  x ∈ dedupe_from ok seen l <-> x ∈ l /\ ok x = true /\ x ∉ seen.
Proof.
  revert seen. induction l as [|y l IH]; intros seen; cbn; [set_solver|].
  destruct (ok y) eqn:Ey; cbn.
  - case_decide.
    + rewrite IH, elem_of_cons. split; [set_solver|]. intros [[->|] ?]; set_solver.
    + rewrite elem_of_cons, IH, elem_of_cons. split.
      * intros [->|?]; set_solver.
      * intros [[->|?] ?]; [by left|].
        destruct (decide (x = y)); [by left|right]; set_solver.
  - rewrite IH, elem_of_cons. split; [set_solver|].
    intros [[->|] [? ?]]; [congruence|done].
Qed.

Lemma dedupe_from_NoDup ok seen l : NoDup (dedupe_from ok seen l).
Proof.
  revert seen. induction l as [|y l IH]; intros seen; cbn; [constructor|].
  destruct (ok y); cbn; [|apply IH].
  case_decide; [apply IH|]. constructor; [|apply IH].
  rewrite dedupe_from_elem. set_solver.
Qed.

Lemma dedupe_from_sublist ok seen l : dedupe_from ok seen l `sublist_of` l.
Proof.
  revert seen. induction l as [|y l IH]; intros seen; cbn; [done|].
  destruct (ok y); cbn; [case_decide|]; try (by constructor).
Qed.

(** Nothing to drop: the list is returned as it is. *)
Lemma dedupe_from_id ok seen l :
  NoDup l -> Forall (fun x => ok x = true) l -> (forall x, x ∈ l -> x ∉ seen) ->
  dedupe_from ok seen l = l.
Proof.
  intros Hnd Hok. revert seen.
  induction Hnd as [|y l Hy Hnd IH]; intros seen Hs; cbn; [done|].
  apply Forall_cons in Hok as [Hoky Hok]. rewrite Hoky. cbn.
  rewrite decide_False by (apply Hs; left). f_equal.
  apply IH; [done|]. intros x Hx. specialize (Hs x). set_solver.
Qed.

(** Once a first part is kept whole, the rest is deduplicated against it. *)
Lemma dedupe_from_app ok seen l1 l2 :
  NoDup l1 -> Forall (fun x => ok x = true) l1 -> (forall x, x ∈ l1 -> x ∉ seen) ->
  dedupe_from ok seen (l1 ++ l2) = l1 ++ dedupe_from ok (list_to_set l1 ∪ seen) l2.
Proof.
  intros Hnd. revert seen. induction Hnd as [|y l Hy Hnd IH]; intros seen Hok Hs; cbn.
  { f_equal. set_solver. }
  apply Forall_cons in Hok as [-> Hok]. cbn. rewrite decide_False by (apply Hs; left). f_equal.
  rewrite IH; [|done|].
  - do 2 f_equal. set_solver.
  - intros x Hx. specialize (Hs x). set_solver.
Qed.

Lemma dedupe_from_nil ok seen l :
  (forall x, x ∈ l -> ok x = false \/ x ∈ seen) -> dedupe_from ok seen l = [].
Proof.
  induction l as [|y l IH]; intros Hl; cbn; [done|].
  destruct (ok y) eqn:Hy; cbn; [rewrite decide_True|]; [apply IH; set_solver| |apply IH; set_solver].
  destruct (Hl y) as [?|?]; [left|congruence|done].
Qed.
End Dedupe.

#[export] Hint Resolve dedupe_from_NoDup dedupe_from_sublist : omni.

(** Elements whose key avoids a set of keys already seen. *)
Section AvoidingKeys.
Context {A K : Type} `{Countable K} (f : A -> K).
Implicit Types (l : list A) (X Y : gset K).

Lemma Forall_notin_union l X Y :
  Forall (fun x => f x ∉ X ∪ Y) l <->
  Forall (fun x => f x ∉ X) l /\ Forall (fun x => f x ∉ Y) l.
Proof. rewrite <- Forall_and, !Forall_forall. setoid_rewrite not_elem_of_union. done. Qed.

Lemma Forall_notin_singleton l k :
  Forall (fun x => f x ∉ ({[k]} : gset K)) l <-> k ∉ map f l.
Proof.
  rewrite Forall_forall. setoid_rewrite not_elem_of_singleton.
  rewrite list_elem_of_fmap. naive_solver.
Qed.

Lemma Forall_notin_list l (ks : list K) :
  Forall (fun x => f x ∉ (list_to_set ks : gset K)) l <->
  (forall k, k ∈ ks -> k ∉ map f l).
Proof.
  rewrite Forall_forall. setoid_rewrite not_elem_of_list_to_set.
  setoid_rewrite list_elem_of_fmap. naive_solver.
Qed.
End AvoidingKeys.

(** Closed decidable propositions, by evaluation of their decision procedure. *)
Ltac decide_closed :=
  match goal with
  | |- ?P =>
      let H := fresh in
      assert (bool_decide P = true) as H by (vm_compute; reflexivity);
      exact (bool_decide_eq_true_1 P H)
  end.
