(* ===== verification/GoStrings.v ===== *)
(** * Go strings

    The part of Go's [strings], [strconv], [unicode/utf8] and [unicode] packages
    that the modelled services use. A Go string is a byte sequence, here
    [String.string]; a rune is its code point in [Z]. Decoding follows
    [utf8.DecodeRune]: an invalid byte is one rune U+FFFD of width 1. *)
From Stdlib Require OrderedTypeEx.
From S2P Require Import Prelude.

Definition bytes_of (s : string) : list Ascii.ascii := String.list_ascii_of_string s.
Definition of_bytes (l : list Ascii.ascii) : string := String.string_of_list_ascii l.

Definition byte_val (a : Ascii.ascii) : Z := Z.of_N (Ascii.N_of_ascii a).
Definition byte_of (z : Z) : Ascii.ascii := Ascii.ascii_of_N (Z.to_N z).

Definition rune_error : Z := 65533.

Definition in_range (lo hi z : Z) : bool := (lo <=? z) && (z <=? hi).

(** [utf8.DecodeRune]: the first rune and its width in bytes. *)
Definition decode_rune (l : list Ascii.ascii) : Z * nat :=
  match map byte_val (take 4 l) with
  | [] => (rune_error, 0%nat)
  | b0 :: t =>
      let bad := (rune_error, 1%nat) in
      if b0 <? 128 then (b0, 1%nat)
      else if in_range 194 223 b0 then
        match t with
        | b1 :: _ =>
            if in_range 128 191 b1
            then ((b0 - 192) * 64 + (b1 - 128), 2%nat) else bad
        | _ => bad
        end
      else if in_range 224 239 b0 then
        match t with
        | b1 :: b2 :: _ =>
            let lo := if b0 =? 224 then 160 else 128 in
            let hi := if b0 =? 237 then 159 else 191 in
            if in_range lo hi b1 && in_range 128 191 b2
            then ((b0 - 224) * 4096 + (b1 - 128) * 64 + (b2 - 128), 3%nat) else bad
        | _ => bad
        end
      else if in_range 240 244 b0 then
        match t with
        | b1 :: b2 :: b3 :: _ =>
            let lo := if b0 =? 240 then 144 else 128 in
            let hi := if b0 =? 244 then 143 else 191 in
            if in_range lo hi b1 && in_range 128 191 b2 && in_range 128 191 b3
            then ((b0 - 240) * 262144 + (b1 - 128) * 4096 + (b2 - 128) * 64
                  + (b3 - 128), 4%nat) else bad
        | _ => bad
        end
      else bad
  end.

(** [range s]: the runes of a string, each with the bytes it was read from. The
    fuel is the length, which suffices because every rune is at least a byte. *)
Fixpoint chunks_fuel (n : nat) (l : list Ascii.ascii) : list (Z * list Ascii.ascii) :=
  match n, l with
  | S n', _ :: _ =>
      let '(r, w) := decode_rune l in
      (r, take w l) :: chunks_fuel n' (drop w l)
  | _, _ => []
  end.

Definition chunks (s : string) : list (Z * list Ascii.ascii) :=
  chunks_fuel (length (bytes_of s)) (bytes_of s).

(** [[]rune(s)] and [utf8.RuneCountInString]. *)
Definition runes (s : string) : list Z := map fst (chunks s).
Definition rune_count (s : string) : Z := Z.of_nat (length (chunks s)).

(** [utf8.AppendRune] on one rune; [string(rs)] for a rune slice. *)
Definition encode_rune (r : Z) : list Ascii.ascii :=
  let r := if (r <? 0) || (1114111 <? r) || in_range 55296 57343 r
           then rune_error else r in
  if r <? 128 then [byte_of r]
  else if r <? 2048 then [byte_of (192 + r / 64); byte_of (128 + r mod 64)]
  else if r <? 65536 then
    [byte_of (224 + r / 4096); byte_of (128 + (r / 64) mod 64); byte_of (128 + r mod 64)]
  else
    [byte_of (240 + r / 262144); byte_of (128 + (r / 4096) mod 64);
     byte_of (128 + (r / 64) mod 64); byte_of (128 + r mod 64)].

Definition string_of_runes (rs : list Z) : string := of_bytes (mjoin (map encode_rune rs)).

(** [unicode.IsSpace]. *)
Definition is_space (r : Z) : bool :=
  in_range 9 13 r || (r =? 32) || (r =? 133) || (r =? 160) || (r =? 5760)
  || in_range 8192 8202 r || (r =? 8232) || (r =? 8233) || (r =? 8239)
  || (r =? 8287) || (r =? 12288).

Fixpoint drop_while {A} (p : A -> bool) (l : list A) : list A :=
  match l with
  | [] => []
  | x :: xs => if p x then drop_while p xs else l
  end.

(** [strings.TrimSpace]. UTF-8 is self-synchronizing, so trimming the decoded
    runes at both ends removes the same bytes as Go's forward and backward scans. *)
Definition trim_space (s : string) : string :=
  let sp := fun c : Z * list Ascii.ascii => is_space c.1 in
  of_bytes (mjoin (map snd (rev (drop_while sp (rev (drop_while sp (chunks s))))))).

(** [strings.TrimSpace(s) == ""]: the test the validations make. *)
Definition blank (s : string) : bool := trim_space s =! "".

Fixpoint has_prefix_bytes (p l : list Ascii.ascii) : bool :=
  match p, l with
  | [], _ => true
  | a :: p', b :: l' => Ascii.eqb a b && has_prefix_bytes p' l'
  | _ :: _, [] => false
  end.

(** [strings.HasPrefix]. *)
Definition has_prefix (s p : string) : bool := has_prefix_bytes (bytes_of p) (bytes_of s).

(** [strings.Contains]. *)
Fixpoint contains_bytes (sub l : list Ascii.ascii) : bool :=
  has_prefix_bytes sub l ||
  match l with
  | [] => false
  | _ :: l' => contains_bytes sub l'
  end.

Definition str_contains (s sub : string) : bool := contains_bytes (bytes_of sub) (bytes_of s).

(** [strings.ReplaceAll] for a non-empty [old]: leftmost, non-overlapping. *)
Fixpoint replace_fuel (n : nat) (old new l : list Ascii.ascii) : list Ascii.ascii :=
  match n, l with
  | S n', a :: l' =>
      if has_prefix_bytes old l
      then new ++ replace_fuel n' old new (drop (length old) l)
      else a :: replace_fuel n' old new l'
  | _, _ => l
  end.

Definition replace_all (s old new : string) : string :=
  of_bytes (replace_fuel (length (bytes_of s)) (bytes_of old) (bytes_of new) (bytes_of s)).

(** [strings.Split] on a one-byte separator; [strings.SplitN(s, sep, 2)]. *)
Fixpoint split_bytes (sep : Ascii.ascii) (l acc : list Ascii.ascii) : list (list Ascii.ascii) :=
  match l with
  | [] => [rev acc]
  | a :: l' =>
      if Ascii.eqb a sep then rev acc :: split_bytes sep l' [] else split_bytes sep l' (a :: acc)
  end.

Definition split_on (sep : Ascii.ascii) (s : string) : list string :=
  map of_bytes (split_bytes sep (bytes_of s) []).

Fixpoint split2_bytes (sep : Ascii.ascii) (l acc : list Ascii.ascii)
  : option (list Ascii.ascii * list Ascii.ascii) :=
  match l with
  | [] => None
  | a :: l' =>
      if Ascii.eqb a sep then Some (rev acc, l') else split2_bytes sep l' (a :: acc)
  end.

Definition split2_on (sep : Ascii.ascii) (s : string) : list string :=
  match split2_bytes sep (bytes_of s) [] with
  | None => [s]
  | Some (a, b) => [of_bytes a; of_bytes b]
  end.

(** [strings.ToLower], over the case mapping [lower] of the non-ASCII runes, which
    is a table of the [unicode] package. *)
Definition to_lower (lower : Z -> Z) (s : string) : string :=
  string_of_runes
    (map (fun r => if in_range 65 90 r then r + 32 else if r <? 128 then r else lower r)
       (runes s)).

(** [strconv.Atoi]: optional sign, at least one digit, 64-bit range. *)
Fixpoint digits_val (l : list Ascii.ascii) (acc : Z) : option Z :=
  match l with
  | [] => Some acc
  | a :: l' =>
      if in_range 48 57 (byte_val a) then digits_val l' (acc * 10 + (byte_val a - 48)) else None
  end.

Definition atoi (s : string) : option Z :=
  let of_digits neg ds :=
    match ds with
    | [] => None
    | _ =>
        match digits_val ds 0 with
        | Some v =>
            let v := if neg : bool then - v else v in
            if in_range (- 2 ^ 63) (2 ^ 63 - 1) v then Some v else None
        | None => None
        end
    end in
  match bytes_of s with
  | a :: l =>
      if byte_val a =? 45 then of_digits true l
      else if byte_val a =? 43 then of_digits false l
      else of_digits false (a :: l)
  | [] => None
  end.

(** Decimal printing of a natural number ([fmt]'s [%d]). *)
Definition show_nat (n : nat) : string := pretty n.

(** ** Lemmas *)

Lemma of_bytes_of s : of_bytes (bytes_of s) = s.
Proof. apply String.string_of_list_ascii_of_string. Qed.

Lemma bytes_of_of l : bytes_of (of_bytes l) = l.
Proof. apply String.list_ascii_of_string_of_list_ascii. Qed.

Lemma byte_val_range a : 0 <= byte_val a < 256.
Proof.
  unfold byte_val. pose proof (Ascii.N_ascii_bounded a). lia.
Qed.

Lemma byte_of_val a : byte_of (byte_val a) = a.
Proof. unfold byte_of, byte_val. by rewrite N2Z.id, Ascii.ascii_N_embedding. Qed.

(** A byte that has a value. *)
Lemma byte_of_is z a : z = byte_val a -> byte_of z = a.
Proof. intros ->. apply byte_of_val. Qed.

Lemma byte_val_of z : 0 <= z < 256 -> byte_val (byte_of z) = z.
Proof. intros Hz. unfold byte_of, byte_val. rewrite Ascii.N_ascii_embedding; lia. Qed.

Lemma decode_rune_width l : l <> [] ->
  (1 <= (decode_rune l).2 <= 4)%nat /\ ((decode_rune l).2 <= length l)%nat.
Proof.
  intros Hne. unfold decode_rune.
  destruct l as [|a0 [|a1 [|a2 [|a3 l]]]]; [done|..];
    cbn [map take length];
    repeat match goal with
    | |- context [if ?b then _ else _] => destruct b
    end; cbn; lia.
Qed.

(** The chunks of a string partition its bytes. *)
Lemma chunks_fuel_concat n l : (length l <= n)%nat ->
  mjoin (map snd (chunks_fuel n l)) = l.
Proof.
  revert l. induction n as [|n IH]; intros l Hn.
  - by destruct l; cbn in *; [|lia].
  - destruct l as [|a l]; [done|]. cbn [chunks_fuel].
    pose proof (decode_rune_width (a :: l) ltac:(done)) as [? ?].
    destruct (decode_rune (a :: l)) as [r w] eqn:E. cbn in *.
    rewrite IH; [apply take_drop|]. rewrite length_drop. cbn. lia.
Qed.

Lemma chunks_concat s : of_bytes (mjoin (map snd (chunks s))) = s.
Proof. unfold chunks. rewrite chunks_fuel_concat by done. apply of_bytes_of. Qed.

Lemma chunks_fuel_nonempty n l :
  Forall (fun c : Z * list Ascii.ascii => c.2 <> []) (chunks_fuel n l).
Proof.
  revert l. induction n as [|n IH]; intros [|a l]; cbn [chunks_fuel]; try constructor.
  pose proof (decode_rune_width (a :: l) ltac:(done)) as [? ?].
  destruct (decode_rune (a :: l)) as [r w]. cbn in *.
  constructor; [|apply IH]. destruct w; [lia|]. done.
Qed.

Lemma drop_while_nil {A} (p : A -> bool) l : drop_while p l = [] <-> Forall (fun x => p x = true) l.
Proof.
  induction l as [|x l IH]; cbn; [done|].
  destruct (p x) eqn:E; [rewrite IH, Forall_cons; naive_solver|].
  rewrite Forall_cons. split; [done|]. intros [? _]. congruence.
Qed.

Lemma drop_while_Forall {A} (P : A -> Prop) p l : Forall P l -> Forall P (drop_while p l).
Proof. induction 1 as [|x l Hx Hl IH]; cbn; [done|]. destruct (p x); [done|by constructor]. Qed.

Lemma trim_not_blank s : blank s = false -> trim_space s <> "".
Proof. unfold blank. by case_bool_decide. Qed.

(** A string is blank exactly when every rune of it is a space. *)
Lemma blank_spec s : blank s = true <-> Forall (fun r => is_space r = true) (runes s).
Proof.
  unfold blank, trim_space. rewrite bool_decide_eq_true.
  set (sp := fun c : Z * list Ascii.ascii => is_space c.1).
  assert (Forall (fun c : Z * list Ascii.ascii => c.2 <> []) (chunks s)) as Hne
    by apply chunks_fuel_nonempty.
  set (l := rev (drop_while sp (rev (drop_while sp (chunks s))))).
  assert (of_bytes (mjoin (map snd l)) = "" <-> l = []) as ->.
  { assert (Forall (fun c : Z * list Ascii.ascii => c.2 <> []) l) as Hl.
    { unfold l. apply Forall_rev, drop_while_Forall, Forall_rev.
      by apply drop_while_Forall. }
    destruct l as [|[r b] l]; [done|].
    apply Forall_cons in Hl as [Hb _]. destruct b; [done|]. by split. }
  unfold l.
  unfold runes. rewrite Forall_fmap. fold sp.
  split.
  - intros H. apply (f_equal (@rev _)) in H. rewrite rev_involutive in H. cbn in H.
    apply drop_while_nil in H. apply Forall_rev in H.
    rewrite rev_involutive in H.
    destruct (drop_while sp (chunks s)) as [|c rest] eqn:E.
    + by apply drop_while_nil.
    + exfalso. apply Forall_cons in H as [Hc _].
      clear -E Hc. induction (chunks s) as [|x xs IH]; [done|]. cbn in E.
      destruct (sp x) eqn:Ex; [by apply IH|]. injection E as -> ->. congruence.
  - intros H. assert (drop_while sp (chunks s) = []) as -> by by apply drop_while_nil. done.
Qed.

Lemma rune_count_nonneg s : 0 <= rune_count s.
Proof. unfold rune_count. lia. Qed.

(** ** Order: Go's [<] on strings, bytewise *)

Definition string_less (a b : string) : bool := String.ltb a b.

Lemma string_less_spec a b : string_less a b = true <-> OrderedTypeEx.String_as_OT.lt a b.
Proof.
  unfold string_less, String.ltb. rewrite <- OrderedTypeEx.String_as_OT.cmp_lt.
  change (OrderedTypeEx.String_as_OT.cmp a b) with (String.compare a b).
  by destruct (String.compare a b).
Qed.

Lemma string_less_trans a b c :
  string_less a b = true -> string_less b c = true -> string_less a c = true.
Proof. rewrite !string_less_spec. apply OrderedTypeEx.String_as_OT.lt_trans. Qed.

Lemma string_less_irrefl a : string_less a a = false.
Proof.
  apply not_true_iff_false. rewrite string_less_spec. intros H.
  by apply OrderedTypeEx.String_as_OT.lt_not_eq in H.
Qed.

Lemma string_less_total a b : string_less a b = false -> string_less b a = false -> a = b.
Proof.
  unfold string_less, String.ltb. rewrite (String.compare_antisym b a).
  destruct (String.compare a b) eqn:E; cbn; try done.
  intros _ _. by apply String.compare_eq_iff.
Qed.

Lemma string_less_asym a b : string_less a b = true -> string_less b a = false.
Proof.
  intros Hab. destruct (string_less b a) eqn:Hba; [|done].
  pose proof (string_less_trans _ _ _ Hab Hba) as H. by rewrite string_less_irrefl in H.
Qed.

Lemma string_less_negtrans a b c :
  string_less a b = false -> string_less b c = false -> string_less a c = false.
Proof.
  intros Hab Hbc. destruct (string_less a c) eqn:Hac; [|done].
  destruct (string_less b a) eqn:Hba.
  - by rewrite (string_less_trans _ _ _ Hba Hac) in Hbc.
  - pose proof (string_less_total _ _ Hab Hba) as ->. congruence.
Qed.

(** ** Substrings *)

Lemma has_prefix_bytes_spec p l : has_prefix_bytes p l = true <-> exists b, l = p ++ b.
Proof.
  revert l. induction p as [|a p IH]; intros l; cbn.
  - split; [by exists l|done].
  - destruct l as [|b l]; [split; [done|by intros [? ?]]|].
    rewrite andb_true_iff, Ascii.eqb_eq, IH. split.
    + intros [-> [r ->]]. by exists r.
    + intros [r Hr]. injection Hr as -> ->. split; [done|by exists r].
Qed.

Lemma contains_bytes_spec sub l : contains_bytes sub l = true <-> exists a b, l = a ++ sub ++ b.
Proof.
  induction l as [|x l IH]; cbn; rewrite orb_true_iff, has_prefix_bytes_spec.
  - split; [intros [[b Hb]|?]; [by exists [], b|done]|].
    intros (a & b & Hab). left. exists b. destruct a; [done|]. by destruct sub.
  - rewrite IH. split.
    + intros [[b Hb]|(a & b & ->)]; [by exists [], b|by exists (x :: a), b].
    + intros ([|y a] & b & Hab); [left; by exists b|right].
      injection Hab as -> ->. by exists a, b.
Qed.

Lemma bytes_of_app a b : bytes_of (a +:+ b) = bytes_of a ++ bytes_of b.
Proof. induction a as [|ch a IH]; [done|]. change (ch :: bytes_of (a +:+ b) = ch :: bytes_of a ++ bytes_of b). by rewrite IH. Qed.

Lemma bytes_of_inj a b : bytes_of a = bytes_of b -> a = b.
Proof. intros H. by rewrite <- (of_bytes_of a), H, of_bytes_of. Qed.

Lemma str_contains_spec s sub :
  str_contains s sub = true <-> exists a b, s = a +:+ (sub +:+ b).
Proof.
  unfold str_contains. rewrite contains_bytes_spec. split.
  - intros (a & b & Hs). exists (of_bytes a), (of_bytes b). apply bytes_of_inj.
    by rewrite !bytes_of_app, !bytes_of_of.
  - intros (a & b & ->). exists (bytes_of a), (bytes_of b). by rewrite !bytes_of_app.
Qed.

(** ** Numbers in decimal *)

Definition digit (a : Ascii.ascii) : Prop := in_range 48 57 (byte_val a) = true.

Lemma pretty_N_char_digit d : (d < 10)%N -> byte_val (pretty_N_char d) = 48 + Z.of_N d.
Proof.
  intros Hd. assert (d = 0 \/ d = 1 \/ d = 2 \/ d = 3 \/ d = 4 \/ d = 5 \/ d = 6 \/ d = 7 \/ d = 8 \/ d = 9)%N
    as Hc by lia.
  by repeat destruct Hc as [->|Hc]; [..|subst].
Qed.

Lemma digit_pretty d : (d < 10)%N -> digit (pretty_N_char d).
Proof.
  intros Hd. unfold digit. rewrite pretty_N_char_digit by done.
  unfold in_range. apply andb_true_iff. split; apply Z.leb_le; lia.
Qed.

Lemma digits_val_cons d s acc :
  (d < 10)%N ->
  digits_val (pretty_N_char d :: s) acc = digits_val s (acc * 10 + Z.of_N d).
Proof.
  intros Hd. cbn [digits_val]. rewrite (digit_pretty d Hd), (pretty_N_char_digit d Hd).
  f_equal. lia.
Qed.

Lemma pretty_N_go_digits x s :
  Forall digit (bytes_of s) -> Forall digit (bytes_of (pretty_N_go x s)) /\
  digits_val (bytes_of (pretty_N_go x s)) 0 = digits_val (bytes_of s) (Z.of_N x).
Proof.
  revert s. induction (N.lt_wf_0 x) as [x _ IH]; intros s Hs.
  destruct (decide (x = 0)%N) as [->|Hx]; [by rewrite pretty_N_go_0|].
  rewrite pretty_N_go_step by lia.
  assert ((x mod 10 < 10)%N) as Hmod by (apply N.mod_lt; lia).
  edestruct (IH (x `div` 10)%N) as [Hd Hv]; [apply N.div_lt; lia| |split; [exact Hd|rewrite Hv]].
  - constructor; [by apply digit_pretty|done].
  - change (bytes_of (String ?a ?t)) with (a :: bytes_of t). rewrite digits_val_cons by done.
    f_equal. rewrite (N.div_mod x 10) at 3 by lia. lia.
Qed.

Lemma pretty_N_nonempty x s : bytes_of s <> [] -> bytes_of (pretty_N_go x s) <> [].
Proof.
  revert s. induction (N.lt_wf_0 x) as [x _ IH]; intros s Hs.
  destruct (decide (x = 0)%N) as [->|Hx]; [by rewrite pretty_N_go_0|].
  rewrite pretty_N_go_step by lia. apply IH; [apply N.div_lt; lia|done].
Qed.

(** A number in decimal: a digit, then digits, that read back. *)
Lemma pretty_N_spec (x : N) :
  exists a l, bytes_of (pretty x) = a :: l /\ digit a /\ digits_val (a :: l) 0 = Some (Z.of_N x).
Proof.
  destruct (decide (x = 0)%N) as [->|Hx]; [by eexists _, _|].
  assert (pretty x = pretty_N_go x "") as ->.
  { unfold pretty, pretty_N. by rewrite decide_False. }
  destruct (pretty_N_go_digits x "") as [Hd Hv]; [constructor|].
  assert (bytes_of (pretty_N_go x "") <> []) as Hne.
  { rewrite pretty_N_go_step by lia. by apply pretty_N_nonempty. }
  destruct (bytes_of (pretty_N_go x "")) as [|a l]; [done|]. exists a, l.
  by apply Forall_cons in Hd as [? _].
Qed.

Lemma in_range_int64 z : in_int64 z -> in_range (- 2 ^ 63) (2 ^ 63 - 1) z = true.
Proof. unfold in_int64, in_range. intros Hz. apply andb_true_iff. split; apply Z.leb_le; lia. Qed.

Lemma atoi_pretty z : in_int64 z -> atoi (pretty z) = Some z.
Proof.
  intros Hz. destruct z as [|p|p]; [done| |].
  - change (pretty (Z.pos p)) with (pretty (N.pos p)). unfold atoi.
    destruct (pretty_N_spec (N.pos p)) as (a & l & -> & Ha & Hv). unfold digit, in_range in Ha.
    prop_bools. destruct (Z.eqb_spec (byte_val a) 45); [lia|]. destruct (Z.eqb_spec (byte_val a) 43); [lia|].
    rewrite Hv. cbn [Z.of_N]. by rewrite in_range_int64.
  - change (pretty (Z.neg p)) with ("-" +:+ pretty (N.pos p)). unfold atoi. rewrite bytes_of_app.
    destruct (pretty_N_spec (N.pos p)) as (a & l & Heq & Ha & Hv). rewrite Heq. cbn [bytes_of].
    change (bytes_of "-" ++ a :: l) with (Ascii.ascii_of_nat 45 :: a :: l). cbv beta iota.
    change (byte_val (Ascii.ascii_of_nat 45) =? 45) with true. cbv iota.
    rewrite Hv. cbn [Z.of_N]. by rewrite in_range_int64.
Qed.

Lemma pretty_N_digits (x : N) : Forall digit (bytes_of (pretty x)).
Proof.
  unfold pretty, pretty_N. case_decide; [by repeat constructor|]. by apply pretty_N_go_digits; constructor.
Qed.
