(* ===== verification/AppError.v ===== *)
(** * The application error (domain/apperror)

    Go's [error] interface is the inductive [error]: an [*AppError], or any other
    error value with what its [Unwrap] returns. [result] is Go's [(T, error)]
    return convention: a non-nil error makes the value irrelevant. *)
From S2P Require Import Prelude.

(** ** Codes *)

Definition Code := string.
Definition CodeValidation : Code := "validation_error".
Definition CodeUnauthorized : Code := "unauthorized".
Definition CodeForbidden : Code := "forbidden".
Definition CodeNotFound : Code := "not_found".
Definition CodeConflict : Code := "conflict".
Definition CodeRateLimited : Code := "rate_limited".
Definition CodeIntegrationUnavailable : Code := "integration_unavailable".
Definition CodeInternal : Code := "internal_error".

Definition all_codes : list Code :=
  [CodeValidation; CodeUnauthorized; CodeForbidden; CodeNotFound; CodeConflict;
   CodeRateLimited; CodeIntegrationUnavailable; CodeInternal].

(** The [httpStatus] table, with the values of the [net/http] constants. *)
Definition httpStatus : list (Code * Z) :=
  [(CodeValidation, 400); (CodeUnauthorized, 401); (CodeForbidden, 403);
   (CodeNotFound, 404); (CodeConflict, 409); (CodeRateLimited, 429);
   (CodeIntegrationUnavailable, 502); (CodeInternal, 500)].

(** ** Errors *)

(** [details] is [None] for a nil map. [ErrSentinel] is a package-level
    [errors.New] value, compared by identity: its name. *)
Inductive error : Type :=
| AppErr (code : Code) (message : string) (details : option (gmap string value))
    (cause : option error)
| PlainErr (msg : string) (unwrap : option error)
| ErrSentinel (name : string) (msg : string).

Definition err_code (e : error) : option Code :=
  match e with AppErr c _ _ _ => Some c | _ => None end.

Definition err_details (e : error) : option (gmap string value) :=
  match e with AppErr _ _ d _ => d | _ => None end.

Definition err_cause (e : error) : option error :=
  match e with AppErr _ _ _ c => c | PlainErr _ u => u | ErrSentinel _ _ => None end.

(** [e.Error()]. *)
Fixpoint Error (e : error) : string :=
  match e with
  | AppErr c m _ (Some cause) => c +:+ ": " +:+ m +:+ ": " +:+ Error cause
  | AppErr c m _ None => c +:+ ": " +:+ m
  | PlainErr m _ => m
  | ErrSentinel _ m => m
  end.

(** [(e *AppError) HTTPStatus()]: an unknown code is a 500. *)
Definition HTTPStatus (c : Code) : Z :=
  match list_find (fun p : Code * Z => p.1 = c) httpStatus with
  | Some (_, (_, s)) => s
  | None => 500
  end.

(** [WithDetails]: merges into a copy; the new keys win. *)
Definition WithDetails (details : gmap string value) (e : error) : error :=
  match e with
  | AppErr c m d cause =>
      AppErr c m (Some (details ∪ default ∅ d)) cause
  | _ => e
  end.

(** [Wrap]: replaces the cause of a copy. *)
Definition Wrap (cause : error) (e : error) : error :=
  match e with
  | AppErr c m d _ => AppErr c m d (Some cause)
  | _ => e
  end.

Definition New (c : Code) (m : string) : error := AppErr c m None None.

Definition Validation (m : string) : error := New CodeValidation m.
Definition Unauthorized (m : string) : error := New CodeUnauthorized m.
Definition Forbidden (m : string) : error := New CodeForbidden m.
Definition NotFound (m : string) : error := New CodeNotFound m.
Definition Conflict (m : string) : error := New CodeConflict m.
Definition RateLimited (m : string) : error := New CodeRateLimited m.
Definition Internal (m : string) : error := New CodeInternal m.
Definition Integration (m : string) : error := New CodeIntegrationUnavailable m.

(** [errors.As(err, &appErr)]: the first [*AppError] of the unwrap chain. *)
Fixpoint errors_As (e : error) : option error :=
  match e with
  | AppErr _ _ _ _ => Some e
  | PlainErr _ (Some u) => errors_As u
  | PlainErr _ None => None
  | ErrSentinel _ _ => None
  end.

(** [errors.Is(err, sentinel)] for a package-level sentinel. *)
Fixpoint errors_Is (e : error) (name : string) : bool :=
  match e with
  | AppErr _ _ _ (Some c) => errors_Is c name
  | AppErr _ _ _ None => false
  | PlainErr _ (Some u) => errors_Is u name
  | PlainErr _ None => false
  | ErrSentinel n _ => n =! name
  end.

(** [From]: normalizes any error into an [*AppError]. *)
Definition From (e : error) : error :=
  match errors_As e with
  | Some a => a
  | None => Wrap e (Internal "internal server error")
  end.

(** [apperror.From(err).Code] and [.Message]. *)
Definition CodeOf (e : error) : Code :=
  match From e with AppErr c _ _ _ => c | _ => CodeInternal end.

Definition MessageOf (e : error) : string :=
  match From e with AppErr _ m _ _ => m | _ => "" end.

(** [apperror.From(err).Code == apperror.CodeNotFound]. *)
Definition is_not_found (e : error) : bool := CodeOf e =! CodeNotFound.

(** A one-entry [map[string]any{k: v}]. *)
Definition detail (k v : string) : gmap string value := {[ k := VStr v ]}.

(** ** The result of a fallible call *)

Inductive result (A : Type) : Type :=
| Ok (a : A)
| Err (e : error).
Arguments Ok {A} a.
Arguments Err {A} e.

Definition is_ok {A} (r : result A) : bool := match r with Ok _ => true | Err _ => false end.

Definition res_map {A B} (f : A -> B) (r : result A) : result B :=
  match r with Ok a => Ok (f a) | Err e => Err e end.

(** ** Lemmas *)

(** [From] of anything is an [*AppError], and [From] is idempotent. *)
Lemma errors_As_app e a : errors_As e = Some a -> is_Some (err_code a).
Proof.
  revert e a. fix IH 1. intros [c m d k|m [u|]|n m] a; cbn; intros H; simplify_eq; eauto.
Qed.

Lemma From_is_app e : exists c m d k, From e = AppErr c m d k.
Proof.
  unfold From. destruct (errors_As e) as [a|] eqn:E; [|cbn; eauto].
  apply errors_As_app in E as [c Hc]. destruct a; cbn in Hc; simplify_eq; eauto.
Qed.

Lemma From_idem e : From (From e) = From e.
Proof. destruct (From_is_app e) as (c & m & d & k & ->). done. Qed.

Lemma CodeOf_New c m : CodeOf (New c m) = c.
Proof. done. Qed.

Lemma CodeOf_WithDetails d e : CodeOf (WithDetails d e) = CodeOf e.
Proof. by destruct e. Qed.

(** ** Properties *)

(** Every error, of whatever shape, is rendered with the status of a code: an
    [*AppError] anywhere in the unwrap chain keeps its own code and message, and
    any other error becomes a 500 whose original is kept as the cause. *)
Theorem From_normalizes (e : error) :
  From (From e) = From e
  /\ (forall a, errors_As e = Some a -> From e = a)
  /\ (errors_As e = None ->
       HTTPStatus (CodeOf e) = 500 /\ err_cause (From e) = Some e
       /\ MessageOf e = "internal server error").
Proof.
  split; [apply From_idem|]. unfold CodeOf, MessageOf, From.
  split; [by intros a ->|]. intros ->. done.
Qed.
