(* ===== verification/Base64.v ===== *)
(** * [base64.RawURLEncoding]

    The encoding of random tokens and of page cursors: six bits a character, no padding. The
    decoder is the standard library's: it skips line ends and ignores the bits left over in the
    last character. *)
From S2P Require Import Prelude GoStrings AppError.

Definition base64_char (n : Z) : Ascii.ascii :=
  if n <? 26 then byte_of (n + 65)
  else if n <? 52 then byte_of (n + 71)
  else if n <? 62 then byte_of (n - 4)
  else if n =? 62 then byte_of 45
  else byte_of 95.

(** Three bytes are four characters; one or two left over, two or three. *)
Fixpoint base64_url (l : list Ascii.ascii) : list Ascii.ascii :=
  match l with
  | a :: b :: c :: l =>
      let n := byte_val a * 65536 + byte_val b * 256 + byte_val c in
      base64_char (n / 262144) :: base64_char (n / 4096 mod 64) :: base64_char (n / 64 mod 64)
        :: base64_char (n mod 64) :: base64_url l
  | [a; b] =>
      let n := byte_val a * 1024 + byte_val b * 4 in
      [base64_char (n / 4096); base64_char (n / 64 mod 64); base64_char (n mod 64)]
  | [a] => let n := byte_val a * 16 in [base64_char (n / 64); base64_char (n mod 64)]
  | [] => []
  end.

Definition base64_val (a : Ascii.ascii) : option Z :=
  let z := byte_val a in
  if (65 <=? z) && (z <=? 90) then Some (z - 65)
  else if (97 <=? z) && (z <=? 122) then Some (z - 71)
  else if (48 <=? z) && (z <=? 57) then Some (z + 4)
  else if z =? 45 then Some 62
  else if z =? 95 then Some 63
  else None.

Definition line_end (a : Ascii.ascii) : bool := (byte_val a =? 10) || (byte_val a =? 13).

(** The bytes of the digits; a single digit left over is an error. *)
Fixpoint base64_bytes (l : list Z) : option (list Ascii.ascii) :=
  match l with
  | p :: q :: r :: s :: l =>
      let n := p * 262144 + q * 4096 + r * 64 + s in
      match base64_bytes l with
      | Some rest => Some (byte_of (n / 65536) :: byte_of (n / 256 mod 256) :: byte_of (n mod 256) :: rest)
      | None => None
      end
  | [p; q; r] => let n := p * 4096 + q * 64 + r in Some [byte_of (n / 1024); byte_of (n / 4 mod 256)]
  | [p; q] => let n := p * 64 + q in Some [byte_of (n / 16)]
  | [_] => None
  | [] => Some []
  end.

Definition base64_decode (l : list Ascii.ascii) : option (list Ascii.ascii) :=
  match mapM base64_val (filter (fun a => line_end a = false) l) with
  | Some digits => base64_bytes digits
  | None => None
  end.

(** ** Lemmas *)

Lemma base64_digit n : 0 <= n < 64 -> base64_val (base64_char n) = Some n /\ line_end (base64_char n) = false.
Proof.
  intros Hn.
  assert (Hall : forallb (fun n => bool_decide (base64_val (base64_char n) = Some n) && negb (line_end (base64_char n)))
            (map Z.of_nat (seq 0 64)) = true) by (vm_compute; reflexivity).
  rewrite forallb_forall in Hall. specialize (Hall n). rewrite andb_true_iff, bool_decide_eq_true, negb_true_iff in Hall.
  apply Hall, in_map_iff. exists (Z.to_nat n). split; [lia|]. apply in_seq. lia.
Qed.

(** The digits of an encoding. *)
Fixpoint base64_digits (l : list Ascii.ascii) : list Z :=
  match l with
  | a :: b :: c :: l =>
      let n := byte_val a * 65536 + byte_val b * 256 + byte_val c in
      n / 262144 :: n / 4096 mod 64 :: n / 64 mod 64 :: n mod 64 :: base64_digits l
  | [a; b] => let n := byte_val a * 1024 + byte_val b * 4 in [n / 4096; n / 64 mod 64; n mod 64]
  | [a] => let n := byte_val a * 16 in [n / 64; n mod 64]
  | [] => []
  end.

(** Induction three bytes at a time. *)
Lemma triples_ind (P : list Ascii.ascii -> Prop) :
  P [] -> (forall a, P [a]) -> (forall a b, P [a; b]) -> (forall a b c l, P l -> P (a :: b :: c :: l)) ->
  forall l, P l.
Proof.
  intros H0 H1 H2 H3 l. remember (length l) as n eqn:Hn. revert l Hn.
  induction n as [n IH] using lt_wf_ind. intros [|a [|b [|c l]]] ->; auto.
  apply H3. eapply IH; [|reflexivity]. cbn. lia.
Qed.

Lemma base64_url_digits l :
  base64_url l = map base64_char (base64_digits l) /\ Forall (fun n => 0 <= n < 64) (base64_digits l).
Proof.
  induction l as [|a|a b|a b c l [IH IH']] using triples_ind; cbn [base64_url base64_digits map].
  - done.
  - split; [done|]. pose proof (byte_val_range a). repeat constructor;
      Z.to_euclidean_division_equations; lia.
  - split; [done|]. pose proof (byte_val_range a). pose proof (byte_val_range b). repeat constructor;
      Z.to_euclidean_division_equations; lia.
  - split; [by rewrite IH|]. pose proof (byte_val_range a). pose proof (byte_val_range b).
    pose proof (byte_val_range c). repeat constructor; try done; Z.to_euclidean_division_equations; lia.
Qed.

Lemma base64_bytes_digits l : base64_bytes (base64_digits l) = Some l.
Proof.
  induction l as [|a|a b|a b c l IH] using triples_ind; cbn [base64_bytes base64_digits].
  - done.
  - pose proof (byte_val_range a). do 2 f_equal. apply byte_of_is.
    Z.to_euclidean_division_equations; lia.
  - pose proof (byte_val_range a). pose proof (byte_val_range b).
    set (n := byte_val a * 1024 + byte_val b * 4).
    assert (Hn : n / 4096 * 4096 + n / 64 mod 64 * 64 + n mod 64 = n).
    { unfold n. Z.to_euclidean_division_equations; lia. }
    rewrite Hn. repeat first [apply byte_of_is; unfold n; Z.to_euclidean_division_equations; lia | f_equal].
  - rewrite IH. pose proof (byte_val_range a). pose proof (byte_val_range b). pose proof (byte_val_range c).
    set (n := byte_val a * 65536 + byte_val b * 256 + byte_val c).
    assert (Hn : n / 262144 * 262144 + n / 4096 mod 64 * 4096 + n / 64 mod 64 * 64 + n mod 64 = n).
    { unfold n. Z.to_euclidean_division_equations; lia. }
    rewrite Hn. repeat first [apply byte_of_is; unfold n; Z.to_euclidean_division_equations; lia | f_equal].
Qed.

Lemma base64_chars_decode ds :
  Forall (fun n => 0 <= n < 64) ds ->
  mapM base64_val (filter (fun a => line_end a = false) (map base64_char ds)) = Some ds.
Proof.
  induction 1 as [|n ds Hn _ IH]; [done|]. cbn [map]. destruct (base64_digit n Hn) as [Hv Hl].
  rewrite filter_cons_True by done. cbn. by rewrite Hv, IH.
Qed.

(** Decoding gives the bytes back. *)
Lemma base64_roundtrip l : base64_decode (base64_url l) = Some l.
Proof.
  unfold base64_decode. destruct (base64_url_digits l) as [-> Hd].
  rewrite base64_chars_decode by done. apply base64_bytes_digits.
Qed.

Lemma base64_inj l l' : base64_url l = base64_url l' -> l = l'.
Proof. intros H. apply (f_equal base64_decode) in H. rewrite !base64_roundtrip in H. by injection H. Qed.

(** Four characters for three bytes, no padding. *)
Lemma base64_length l : length (base64_url l) = ((4 * length l + 2) / 3)%nat.
Proof.
  induction l as [|a|a b|a b c l IH] using triples_ind; [done..|].
  cbn [base64_url length]. rewrite IH.
  replace (4 * S (S (S (length l))) + 2)%nat with (4 * length l + 2 + 4 * 3)%nat by lia.
  rewrite Nat.div_add by lia. lia.
Qed.
