(* ===== verification/Prog.v ===== *)
(** * Programs over ports

    A service method is a [prog]: a finite tree of calls to the interfaces it was
    wired with (repositories, publisher, clock, ...), each call under the Go
    context it is made with. A call is data, so the same definition is
    - run against a handler, a function giving every call its answer ([run]);
    - analysed over every possible answer ([calls], [never]);
    - interleaved with other programs, a call at a time ([step]). *)
From S2P Require Import Prelude AppError.

Section Prog.
Context {C : Type} {E : Type -> Type}.

Inductive prog (A : Type) : Type :=
| Ret (a : A)
| Call {R : Type} (c : C) (e : E R) (k : R -> prog A).
Arguments Ret {A} a.
Arguments Call {A R} c e k.

Fixpoint bind {A B} (m : prog A) (f : A -> prog B) : prog B :=
  match m with
  | Ret a => f a
  | Call c e k => Call c e (fun r => bind (k r) f)
  end.

Definition call {R} (c : C) (e : E R) : prog R := Call c e Ret.

(** [x, err := m; if err != nil { return err }; f x]. *)
Definition bind_ok {A B} (m : prog (result A)) (f : A -> prog (result B)) : prog (result B) :=
  bind m (fun r => match r with Ok a => f a | Err e => Ret (Err e) end).

(** A [for range] loop, and one whose body may return an error early. *)
Fixpoint for_each {A} (l : list A) (body : A -> prog unit) : prog unit :=
  match l with
  | [] => Ret tt
  | x :: xs => bind (body x) (fun _ => for_each xs body)
  end.

Fixpoint fold_prog {A S} (l : list A) (s : S) (body : S -> A -> prog S) : prog S :=
  match l with
  | [] => Ret s
  | x :: xs => bind (body s x) (fun s' => fold_prog xs s' body)
  end.

(** ** Running against a handler *)

Definition handler (S : Type) := forall R, C -> E R -> S -> R * S.

Section Run.
Context {S : Type} (h : handler S).

Fixpoint run {A} (m : prog A) (s : S) : A * S :=
  match m with
  | Ret a => (a, s)
  | Call c e k => let '(r, s') := h _ c e s in run (k r) s'
  end.

Lemma run_bind {A B} (m : prog A) (f : A -> prog B) s :
  run (bind m f) s = let '(a, s') := run m s in run (f a) s'.
Proof.
  revert s. induction m as [a|R c e k IH]; intros s; cbn; [done|].
  destruct (h R c e s) as [r s']. apply IH.
Qed.

Lemma run_call {R} c (e : E R) s : run (call c e) s = h R c e s.
Proof. cbn. by destruct (h R c e s). Qed.

Lemma run_bind_ok {A B} (m : prog (result A)) (f : A -> prog (result B)) s :
  run (bind_ok m f) s =
    match run m s with
    | (Ok a, s') => run (f a) s'
    | (Err e, s') => (Err e, s')
    end.
Proof. unfold bind_ok. rewrite run_bind. by destruct (run m s) as [[a|e] s']. Qed.

(** A relation every call respects is respected by the whole program. *)
Lemma run_preserves (P : S -> S -> Prop) {A} (m : prog A) s :
  Reflexive P -> Transitive P ->
  (forall R c (e : E R) s, P s (h R c e s).2) ->
  P s (run m s).2.
Proof.
  intros HR HT Hc. revert s. induction m as [a|R c e k IH]; intros s; cbn.
  - apply HR.
  - specialize (Hc R c e s). destruct (h R c e s) as [r s']. cbn in Hc.
    etransitivity; [exact Hc|]. apply IH.
Qed.
End Run.

(** ** Every call, over every possible answer *)

(** [calls P m]: whatever the answers, every call [m] makes satisfies [P]. *)
Fixpoint calls (P : forall R, C -> E R -> Prop) {A} (m : prog A) : Prop :=
  match m with
  | Ret _ => True
  | Call c e k => P _ c e /\ forall r, calls P (k r)
  end.

Lemma calls_bind P {A B} (m : prog A) (f : A -> prog B) :
  calls P m -> (forall a, calls P (f a)) -> calls P (bind m f).
Proof. induction m as [a|R c e k IH]; cbn; [auto|]. intros [? ?] ?. split; auto. Qed.

Lemma calls_bind_ok P {A B} (m : prog (result A)) (f : A -> prog (result B)) :
  calls P m -> (forall a, calls P (f a)) -> calls P (bind_ok m f).
Proof. intros Hm Hf. apply calls_bind; [done|]. by intros [a|e]. Qed.

Lemma calls_for_each P {A} (l : list A) body :
  (forall x, x ∈ l -> calls P (body x)) -> calls P (for_each l body).
Proof.
  induction l as [|x l IH]; cbn; [done|]. intros H.
  apply calls_bind; [apply H; left|]. intros _. apply IH. intros y Hy. apply H. by right.
Qed.

Lemma calls_fold P {A T} (l : list A) (s : T) body :
  (forall s x, x ∈ l -> calls P (body s x)) -> calls P (fold_prog l s body).
Proof.
  revert s. induction l as [|x l IH]; intros s; cbn; [done|]. intros H.
  apply calls_bind; [apply H; left|]. intros s'. apply IH. intros ? y Hy. apply H. by right.
Qed.

Lemma calls_impl (P Q : forall R, C -> E R -> Prop) {A} (m : prog A) :
  (forall R c (e : E R), P R c e -> Q R c e) -> calls P m -> calls Q m.
Proof. intros HPQ. induction m as [a|R c e k IH]; cbn; [done|]. intros [? ?]. split; auto. Qed.

(** [returns P m]: whatever the answers, the result satisfies [P]. *)
Fixpoint returns {A} (P : A -> Prop) (m : prog A) : Prop :=
  match m with
  | Ret a => P a
  | Call c e k => forall r, returns P (k r)
  end.

Lemma returns_all {A} (P : A -> Prop) (m : prog A) : (forall a, P a) -> returns P m.
Proof. intros HP. induction m as [a|R c e k IH]; cbn; auto. Qed.

Lemma returns_bind {A B} (P : A -> Prop) (Q : B -> Prop) (m : prog A) (f : A -> prog B) :
  returns P m -> (forall a, P a -> returns Q (f a)) -> returns Q (bind m f).
Proof. induction m as [a|R c e k IH]; cbn; auto. Qed.

(** What is true of every result may be used by the calls that follow. *)
Lemma calls_bind_returns P {A B} (V : A -> Prop) (m : prog A) (f : A -> prog B) :
  calls P m -> returns V m -> (forall a, V a -> calls P (f a)) -> calls P (bind m f).
Proof. induction m as [a|R c e k IH]; cbn; [auto|]. intros [? ?] ? ?. split; auto. Qed.

Lemma returns_bind_any {A B} (Q : B -> Prop) (m : prog A) (f : A -> prog B) :
  (forall a, returns Q (f a)) -> returns Q (bind m f).
Proof. intros Hf. induction m as [a|R c e k IH]; cbn; auto. Qed.

Lemma returns_bind_ok {A B} (Q : result B -> Prop) (m : prog (result A)) (f : A -> prog (result B)) :
  (forall e, Q (Err e)) -> (forall a, returns Q (f a)) -> returns Q (bind_ok m f).
Proof. intros He Hf. apply returns_bind_any. intros [a|e]; [apply Hf|apply He]. Qed.

(** What [calls P] says of a run: an observer that only notices calls violating
    [P] sees nothing. *)
Lemma calls_run {S} (h : handler S) (P : forall R, C -> E R -> Prop)
    (I : S -> S -> Prop) {A} (m : prog A) s :
  Reflexive I -> Transitive I ->
  (forall R c (e : E R) s, P R c e -> I s (h R c e s).2) ->
  calls P m -> I s (run h m s).2.
Proof.
  intros HR HT Hh. revert s. induction m as [a|R c e k IH]; cbn; intros s.
  - intros _. apply HR.
  - intros [Hp Hk]. specialize (Hh R c e s Hp).
    destruct (h R c e s) as [r s']. cbn in Hh. etransitivity; [exact Hh|]. by apply IH.
Qed.

(** ** Weakest precondition over a contract

    A contract says which answers each call may get: a predicate transformer
    over a ghost state. [wp] then quantifies over every handler meeting it. *)

Definition contract (G : Type) :=
  forall R, C -> E R -> (R -> G -> Prop) -> G -> Prop.

Fixpoint wp {G} (T : contract G) {A} (m : prog A) (Q : A -> G -> Prop) (g : G) : Prop :=
  match m with
  | Ret a => Q a g
  | Call c e k => T _ c e (fun r g' => wp T (k r) Q g') g
  end.

Class Monotone {G} (T : contract G) : Prop :=
  contract_mono : forall R c (e : E R) (P Q : R -> G -> Prop) g,
    (forall r g', P r g' -> Q r g') -> T R c e P g -> T R c e Q g.

(** The contracts used: a call is allowed when [pre] holds, and is answered by
    any [r], with any new ghost state, that [post] allows. *)
Definition pre_post {G} (pre : forall R, C -> E R -> G -> Prop)
    (post : forall R, C -> E R -> G -> R -> G -> Prop) : contract G :=
  fun R c e Q g => pre R c e g /\ forall r g', post R c e g r g' -> Q r g'.

#[global] Instance pre_post_mono {G} pre post : Monotone (@pre_post G pre post).
Proof. intros R c e P Q g HPQ [Hpre Hpost]. split; [done|]. intros. by apply HPQ, Hpost. Qed.

Section Wp.
Context {G : Type} (T : contract G) {HT : Monotone T}.

Lemma wp_mono {A} (m : prog A) (P Q : A -> G -> Prop) g :
  (forall a g', P a g' -> Q a g') -> wp T m P g -> wp T m Q g.
Proof.
  intros HPQ. revert g. induction m as [a|R c e k IH]; cbn; intros g; [auto|].
  apply HT. intros r g'. apply IH.
Qed.

(** What is true of every result may be added to a postcondition. *)
Lemma wp_returns {A} (m : prog A) (Q : A -> G -> Prop) (P : A -> Prop) g :
  wp T m Q g -> returns P m -> wp T m (fun a g' => Q a g' /\ P a) g.
Proof.
  revert g. induction m as [a|R c e k IH]; cbn; intros g Hw Hr; [done|].
  eapply HT; [|exact Hw]. intros r g' Hk. by apply IH.
Qed.

Lemma wp_bind {A B} (m : prog A) (f : A -> prog B) (Q : B -> G -> Prop) g :
  wp T m (fun a g' => wp T (f a) Q g') g -> wp T (bind m f) Q g.
Proof.
  revert g. induction m as [a|R c e k IH]; cbn; intros g; [done|].
  apply HT. intros r g'. apply IH.
Qed.

Lemma wp_bind_ok {A B} (m : prog (result A)) (f : A -> prog (result B)) Q g :
  wp T m (fun r g' => match r with Ok a => wp T (f a) Q g' | Err e => Q (Err e) g' end) g ->
  wp T (bind_ok m f) Q g.
Proof.
  intros H. apply wp_bind. eapply wp_mono; [|exact H]. by intros [a|e].
Qed.

Lemma wp_for_each {A} (l : list A) body (I : G -> Prop) (Q : unit -> G -> Prop) g :
  (forall x g, x ∈ l -> I g -> wp T (body x) (fun _ => I) g) ->
  (forall g, I g -> Q tt g) ->
  I g -> wp T (for_each l body) Q g.
Proof.
  revert g. induction l as [|x l IH]; cbn; intros g Hb HQ HI; [auto|].
  apply wp_bind. eapply wp_mono; [|apply Hb; [left|done]].
  intros [] g' HI'. apply IH; [|done|done]. intros y ? Hy. apply Hb. by right.
Qed.

Lemma wp_fold {A S} (l : list A) (s : S) body (I : S -> G -> Prop) (Q : S -> G -> Prop) g :
  (forall s x g, x ∈ l -> I s g -> wp T (body s x) I g) ->
  (forall s g, I s g -> Q s g) ->
  I s g -> wp T (fold_prog l s body) Q g.
Proof.
  revert s g. induction l as [|x l IH]; cbn; intros s g Hb HQ HI; [auto|].
  apply wp_bind. eapply wp_mono; [|apply Hb; [left|done]].
  intros s' g' HI'. apply IH; [|done|done]. intros ? y ? Hy. apply Hb. by right.
Qed.

(** Adequacy: a handler whose answers the contract allows, seen through an
    abstraction of its state. *)
Lemma wp_run {S A} (h : handler S) (abs : S -> G) (m : prog A) Q s :
  (forall R c (e : E R) P s,
     T R c e P (abs s) -> let '(r, s') := h R c e s in P r (abs s')) ->
  wp T m Q (abs s) -> let '(a, s') := run h m s in Q a (abs s').
Proof.
  intros Hh. revert s. induction m as [a|R c e k IH]; cbn; intros s Hw; [done|].
  specialize (Hh R c e _ s Hw). destruct (h R c e s) as [r s']. by apply IH.
Qed.
End Wp.

(** A contract whose demands are weaker is met by what meets the stronger one. *)
Lemma wp_weaken {G} (T T' : contract G) `{HT' : Monotone G T'} {A} (m : prog A) Q g :
  (forall R c (e : E R) P g, T R c e P g -> T' R c e P g) -> wp T m Q g -> wp T' m Q g.
Proof.
  intros HTT. revert g. induction m as [a|R c e k IH]; cbn; intros g; [done|].
  intros Hw. eapply HT'; [|by apply HTT]. intros r g'. apply IH.
Qed.

Lemma wp_pre_weaken {G} (pre pre' : forall R, C -> E R -> G -> Prop) post {A} (m : prog A) Q g :
  (forall R c (e : E R) g, pre R c e g -> pre' R c e g) ->
  wp (pre_post pre post) m Q g -> wp (pre_post pre' post) m Q g.
Proof.
  intros Hpre. apply wp_weaken; [apply pre_post_mono|].
  intros R c e P g' [? ?]. split; auto.
Qed.

(** Calls a contract always allows and that leave its ghost state as it is. *)
Definition inert_in {G} (pre : forall R, C -> E R -> G -> Prop)
    (post : forall R, C -> E R -> G -> R -> G -> Prop) (P : forall R, C -> E R -> Prop) : Prop :=
  (forall R c (e : E R) g, P R c e -> pre R c e g) /\
  (forall R c (e : E R) g r g', P R c e -> post R c e g r g' -> g' = g).

Lemma wp_inert {G} (pre : forall R, C -> E R -> G -> Prop) post P {A} (m : prog A) Q g :
  inert_in pre post P -> calls P m -> (forall a, Q a g) -> wp (pre_post pre post) m Q g.
Proof.
  intros [Hpre Hpost] Hm HQ. induction m as [a|R c e k IH]; cbn; [done|].
  destruct Hm as [He Hk]. split; [by apply Hpre|]. intros r g' Hr.
  apply Hpost in Hr as ->; [|done]. apply IH, Hk.
Qed.

Lemma wp_inert_returns {G} (pre : forall R, C -> E R -> G -> Prop) post P {A} (m : prog A)
    (V : A -> Prop) Q g :
  inert_in pre post P -> calls P m -> returns V m -> (forall a, V a -> Q a g) ->
  wp (pre_post pre post) m Q g.
Proof.
  intros [Hpre Hpost] Hm HV HQ. induction m as [a|R c e k IH]; cbn; [by apply HQ|].
  destruct Hm as [He Hk]. split; [by apply Hpre|]. intros r g' Hr.
  apply Hpost in Hr as ->; [|done]. apply IH; [apply Hk|apply HV].
Qed.

Lemma wp_inert_bind {G} (pre : forall R, C -> E R -> G -> Prop) post P {A B}
    (m : prog A) (f : A -> prog B) Q g :
  inert_in pre post P -> calls P m -> (forall a, wp (pre_post pre post) (f a) Q g) ->
  wp (pre_post pre post) (bind m f) Q g.
Proof. intros Hi Hm Hf. apply wp_bind; [apply _|]. by eapply wp_inert. Qed.

Lemma wp_inert_bind_ok {G} (pre : forall R, C -> E R -> G -> Prop) post P {A B}
    (m : prog (result A)) (f : A -> prog (result B)) Q g :
  inert_in pre post P -> calls P m -> (forall e, Q (Err e) g) ->
  (forall a, wp (pre_post pre post) (f a) Q g) ->
  wp (pre_post pre post) (bind_ok m f) Q g.
Proof. intros Hi Hm He Hf. eapply wp_inert_bind; [done..|]. intros [a|e]; [apply Hf|apply He]. Qed.

(** A call, by its precondition and its answers. *)
Lemma wp_call {G} (pre : forall R, C -> E R -> G -> Prop) post {R} c (e : E R) Q g :
  pre R c e g -> (forall r g', post R c e g r g' -> Q r g') ->
  wp (pre_post pre post) (call c e) Q g.
Proof. intros Hpre Hpost. by split. Qed.

(** ** Interleaving

    A pool of programs over one shared state; a step answers the pending call
    of one of them. *)
Section Interleaving.
Context {S A : Type} (h : handler S).

Definition pool := list (prog A).

Inductive step : pool * S -> pool * S -> Prop :=
| step_call (i : nat) (p : pool) {R} c (e : E R) k s r s' :
    p !! i = Some (Call c e k) -> h R c e s = (r, s') ->
    step (p, s) (<[i := k r]> p, s').

Definition steps := rtc step.

(** The pool run along a schedule: each entry is the program whose pending call is
    answered next. *)
Fixpoint schedule (turns : list nat) (p : pool) (s : S) : pool * S :=
  match turns with
  | [] => (p, s)
  | i :: turns =>
      match p !! i with
      | Some (Call c e k) => let '(r, s') := h _ c e s in schedule turns (<[i := k r]> p) s'
      | _ => schedule turns p s
      end
  end.

Lemma schedule_steps turns p s : steps (p, s) (schedule turns p s).
Proof.
  revert p s. induction turns as [|i turns IH]; intros p s; cbn; [apply rtc_refl|].
  destruct (p !! i) as [[a|R c e k]|] eqn:Hi; [apply IH| |apply IH].
  destruct (h R c e s) as [r s'] eqn:Hh. eapply rtc_l; [by econstructor|apply IH].
Qed.

Lemma schedule_reaches turns p s : steps (p, s) ((schedule turns p s).1, (schedule turns p s).2).
Proof. rewrite <- surjective_pairing. apply schedule_steps. Qed.

(** A program that gets no turn stays where it is. *)
Lemma schedule_untouched turns p s j : j ∉ turns -> (schedule turns p s).1 !! j = p !! j.
Proof.
  revert p s. induction turns as [|i turns IH]; intros p s Hj; cbn; [done|].
  apply not_elem_of_cons in Hj as [Hne Hj].
  destruct (p !! i) as [[a|R c e k]|]; [by apply IH| |by apply IH].
  destruct (h R c e s) as [r s']. cbn. etransitivity; [by apply IH|]. apply list_lookup_insert_ne. congruence.
Qed.

(** An invariant of pool and state that every step preserves is reached. *)
Lemma steps_invariant (I : pool * S -> Prop) c c' :
  (forall a b, I a -> step a b -> I b) -> I c -> steps c c' -> I c'.
Proof. intros Hs HI Hst. induction Hst; eauto. Qed.
(** Thread-modular reasoning: each program of the pool meets a contract over a
    ghost state of its own, an invariant ties the ghost states to the shared state,
    and the step of any program keeps it. Then every pool reached still does. *)
Lemma steps_wp {G} (T : contract G) (Q : A -> G -> Prop) (I : list G -> S -> Prop) p s p' s' gs :
  (forall gs s i g R c (e : E R) P, gs !! i = Some g -> I gs s -> T R c e P g ->
     let '(r, s') := h R c e s in exists g', P r g' /\ I (<[i := g']> gs) s') ->
  steps (p, s) (p', s') ->
  Forall2 (fun m g => wp T m Q g) p gs -> I gs s ->
  exists gs', Forall2 (fun m g => wp T m Q g) p' gs' /\ I gs' s'.
Proof.
  intros Hstep Hsteps. remember (p, s) as x eqn:Hx. remember (p', s') as y eqn:Hy.
  revert p s Hx gs. induction Hsteps as [x|x y z Hxy _ IH]; intros p s -> gs Hw HI.
  { injection Hy as <- <-. eauto. }
  inversion Hxy as [i p0 R c e k s0 r s1 Hi Hh]; subst.
  pose proof (Forall2_lookup_l _ _ _ _ _ Hw Hi) as (g & Hg & Hwp). cbn in Hwp.
  specialize (Hstep gs s i g R c e _ Hg HI Hwp). rewrite Hh in Hstep.
  destruct Hstep as (g' & Hk & HI').
  eapply IH; [done|done| |exact HI']. by apply Forall2_insert.
Qed.
End Interleaving.
End Prog.

Arguments prog C E A : clear implicits.
Arguments Ret {C E A} a.
Arguments Call {C E A R} c e k.
Arguments handler C E S : clear implicits.
Arguments contract C E G : clear implicits.

(** ** A component inside another

    The program of a component, its calls made through the ports of the one that
    holds it; what is proved of it there holds here. *)
Section Lift.
Context {C : Type} {E E' : Type -> Type} (f : forall R, E R -> E' R).

Fixpoint lift {A} (m : prog C E A) : prog C E' A :=
  match m with
  | Ret a => Ret a
  | Call c e k => Call c (f _ e) (fun r => lift (k r))
  end.

Lemma wp_lift {G} (T : contract C E' G) `{!Monotone T} {A} (m : prog C E A) Q g :
  wp (fun R c e => T R c (f R e)) m Q g -> wp T (lift m) Q g.
Proof.
  revert g. induction m as [a|R c e k IH]; cbn; intros g; [done|].
  apply contract_mono. intros r g'. apply IH.
Qed.

Lemma calls_lift (P : forall R, C -> E' R -> Prop) {A} (m : prog C E A) :
  calls (fun R c e => P R c (f R e)) m -> calls P (lift m).
Proof. induction m as [a|R c e k IH]; cbn; [done|]. intros [? ?]. split; auto. Qed.

Lemma returns_lift {A} (P : A -> Prop) (m : prog C E A) : returns P m -> returns P (lift m).
Proof. induction m as [a|R c e k IH]; cbn; auto. Qed.

Lemma run_lift {S} (h : handler C E' S) {A} (m : prog C E A) s :
  run h (lift m) s = run (fun R c e => h R c (f R e)) m s.
Proof.
  revert s. induction m as [a|R c e k IH]; cbn; intros s; [done|].
  destruct (h R c (f R e) s). apply IH.
Qed.
End Lift.

Declare Scope prog_scope.
Delimit Scope prog_scope with prog.

Notation "'let!' x ':=' m 'in' k" := (bind m (fun x => k))
  (at level 200, x binder, m at level 100, k at level 200, right associativity) : prog_scope.
Notation "'try!' x ':=' m 'in' k" := (bind_ok m (fun x => k))
  (at level 200, x binder, m at level 100, k at level 200, right associativity) : prog_scope.
Notation "'do!' m 'in' k" := (bind m (fun _ => k))
  (at level 200, m at level 100, k at level 200, right associativity) : prog_scope.
Notation "'when!' b 'do' m" := (if b then m else Ret tt)
  (at level 200, b at level 100, m at level 100) : prog_scope.
#[global] Open Scope prog_scope.

#[export] Hint Resolve calls_bind calls_bind_ok calls_for_each calls_fold : omni.

Create HintDb calls.

(** One step of a proof of [calls P m]; [tac] proves [P] of a single call. *)
Ltac calls_step tac :=
  cbn zeta;
  lazymatch goal with
  | |- calls _ (Ret _) => exact I
  | |- calls _ (call _ _) => split; [tac|intros; exact I]
  | |- calls _ (bind_ok _ _) => apply calls_bind_ok; [|intros]
  | |- calls _ (bind _ _) => apply calls_bind; [|intros]
  | |- calls _ (for_each _ _) => apply calls_for_each; intros
  | |- calls _ (fold_prog _ _ _) => apply calls_fold; intros
  | |- calls _ (let '(_, _) := ?x in _) => destruct x
  | |- calls _ (if _ then _ else _) => case_match
  | |- calls _ (match _ with _ => _ end) => case_match
  | |- calls _ ?m =>
      first [ solve [eauto with calls]
            | let m' := eval hnf in m in
              lazymatch m' with
              | Ret _ => exact I
              | Call _ _ Ret => split; [tac|intros; exact I]
              end ]
  end.
