(* ===== verification/Authz.v ===== *)
(** * Permissions and authorization state (domain/authz)

    The permission catalog, the [AuthContext] a request carries and the default
    roles a tenant is seeded with. *)
From S2P Require Import Prelude.

(** ** The permission catalog (permission.go) *)

Definition Permission := string.

Definition ConversationRead : Permission := "conversation.read".
Definition ConversationAssign : Permission := "conversation.assign".
Definition ConversationTransfer : Permission := "conversation.transfer".
Definition ConversationClose : Permission := "conversation.close".
Definition MessageSend : Permission := "message.send".
Definition MessageInternalNote : Permission := "message.internal_note".
Definition MessageDelete : Permission := "message.delete".
Definition ContactRead : Permission := "contact.read".
Definition ContactWrite : Permission := "contact.write".
Definition ContactViewFinancial : Permission := "contact.view_financial".
Definition ContactViewConnectionStatus : Permission := "contact.view_connection_status".
Definition SectorManage : Permission := "sector.manage".
Definition QueueManage : Permission := "queue.manage".
Definition UserManage : Permission := "user.manage".
Definition AutomationManage : Permission := "automation.manage".
Definition CopilotUse : Permission := "copilot.use".
Definition CopilotConfigure : Permission := "copilot.configure".
Definition IntegrationRead : Permission := "integration.read".
Definition IntegrationConfigure : Permission := "integration.configure".
Definition IntegrationExecuteAction : Permission := "integration.execute_action".
Definition ChannelManage : Permission := "channel.manage".
Definition WebhookManage : Permission := "webhook.manage".
Definition GroupView : Permission := "group.view".
Definition GroupManage : Permission := "group.manage".
Definition PipelineView : Permission := "pipeline.view".
Definition PipelineManage : Permission := "pipeline.manage".
Definition DealView : Permission := "deal.view".
Definition DealManage : Permission := "deal.manage".
Definition CRMManage : Permission := "crm.manage".
Definition ReportView : Permission := "report.view".
Definition ReportExport : Permission := "report.export".
Definition AuditView : Permission := "audit.view".
Definition PrivacyManage : Permission := "privacy.manage".
Definition CustomAttributeManage : Permission := "customattribute.manage".

Definition AllPermissions : list Permission :=
  [ConversationRead; ConversationAssign; ConversationTransfer; ConversationClose;
   MessageSend; MessageInternalNote; MessageDelete;
   ContactRead; ContactWrite; ContactViewFinancial; ContactViewConnectionStatus;
   SectorManage; QueueManage; UserManage;
   AutomationManage;
   CopilotUse; CopilotConfigure;
   IntegrationRead; IntegrationConfigure; IntegrationExecuteAction;
   ChannelManage; WebhookManage;
   GroupView; GroupManage;
   PipelineView; PipelineManage;
   DealView; DealManage;
   CRMManage;
   ReportView; ReportExport;
   AuditView; PrivacyManage;
   CustomAttributeManage].

(** [validPermissions], the lookup set, and [IsValid]. *)
Definition validPermissions : gset Permission := list_to_set AllPermissions.
Definition IsValid (p : Permission) : bool := bool_decide (p ∈ validPermissions).

(** [SanitizePermissions]: the [seen] set of the valid ones, read in catalog order. *)
Definition SanitizePermissions (perms : list Permission) : list Permission :=
  let seen : gset Permission :=
    fold_left (fun seen p => if IsValid p then {[p]} ∪ seen else seen) perms ∅ in
  filter (fun p => p ∈ seen) AllPermissions.

(** ** The authorization state (context.go) *)

Definition SectorScope := string.
Definition ScopeAll : SectorScope := "all".
Definition ScopeOwn : SectorScope := "own".
Definition SectorScope_Valid (s : SectorScope) : bool := (s =! ScopeAll) || (s =! ScopeOwn).

Record AuthContext := mkAuthContext {
  ac_TenantID : string;
  ac_UserID : string;
  ac_Permissions : gset Permission;
  ac_SectorIDs : list string;
  ac_SectorScope : SectorScope;
}.

Definition NewAuthContext (tenantID userID : string) (perms : list Permission)
    (sectorIDs : list string) (scope : SectorScope) : AuthContext :=
  {| ac_TenantID := tenantID;
     ac_UserID := userID;
     ac_Permissions := list_to_set perms;
     ac_SectorIDs := sectorIDs;
     ac_SectorScope := if SectorScope_Valid scope then scope else ScopeOwn |}.

Definition SystemActor (tenantID : string) : AuthContext :=
  NewAuthContext tenantID "system" AllPermissions [] ScopeAll.

Definition Has (a : AuthContext) (p : Permission) : bool :=
  bool_decide (p ∈ ac_Permissions a).

Definition PermissionList (a : AuthContext) : list Permission :=
  filter (fun p => p ∈ ac_Permissions a) AllPermissions.

Definition CanAccessSector (a : AuthContext) (sectorID : string) : bool :=
  (ac_SectorScope a =! ScopeAll) || existsb (fun s => s =! sectorID) (ac_SectorIDs a).

(** ** The default roles (roles.go) *)

Definition DefaultRoleOwner := "owner".
Definition DefaultRoleAdmin := "admin".
Definition DefaultRoleAgent := "agent".

Record DefaultRoleDefinition := mkRole {
  role_Name : string;
  role_Permissions : list Permission;
  role_SectorScope : SectorScope;
}.

Definition DefaultRoles : list DefaultRoleDefinition :=
  [ {| role_Name := DefaultRoleOwner;
       role_Permissions := AllPermissions;
       role_SectorScope := ScopeAll |};
    {| role_Name := DefaultRoleAdmin;
       role_Permissions :=
         [ConversationRead; ConversationAssign; ConversationTransfer; ConversationClose;
          MessageSend; MessageInternalNote; MessageDelete;
          ContactRead; ContactWrite; ContactViewConnectionStatus;
          SectorManage; QueueManage; UserManage;
          AutomationManage; CopilotUse; CopilotConfigure;
          IntegrationRead; IntegrationConfigure;
          ChannelManage; WebhookManage;
          PipelineView; PipelineManage;
          DealView; DealManage;
          CustomAttributeManage;
          ReportView; ReportExport; AuditView];
       role_SectorScope := ScopeAll |};
    {| role_Name := DefaultRoleAgent;
       role_Permissions :=
         [ConversationRead; ConversationAssign; ConversationClose;
          MessageSend; MessageInternalNote;
          ContactRead; ContactWrite;
          CopilotUse];
       role_SectorScope := ScopeOwn |} ].

(** ** Lemmas *)

Lemma IsValid_spec p : IsValid p = true <-> p ∈ AllPermissions.
Proof. unfold IsValid, validPermissions. rewrite bool_decide_eq_true. set_solver. Qed.

Lemma AllPermissions_NoDup : NoDup AllPermissions.
Proof. decide_closed. Qed.

(** What the [seen] loop of [SanitizePermissions] collects. *)
Lemma sanitize_seen perms (acc : gset Permission) p :
  p ∈ fold_left (fun seen p => if IsValid p then {[p]} ∪ seen else seen) perms acc
  <-> p ∈ acc \/ (p ∈ perms /\ IsValid p = true).
Proof.
  generalize IsValid as valid. intros valid. revert acc.
  induction perms as [|q perms IH]; intros acc; cbn; [set_solver|].
  rewrite IH. rewrite elem_of_cons.
  destruct (valid q) eqn:E; rewrite ?elem_of_union, ?elem_of_singleton; clear IH;
    intuition congruence.
Qed.

Lemma SanitizePermissions_elem p perms :
  p ∈ SanitizePermissions perms <-> p ∈ perms /\ p ∈ AllPermissions.
Proof.
  unfold SanitizePermissions. rewrite list_elem_of_filter, sanitize_seen, elem_of_empty, <- IsValid_spec.
  tauto.
Qed.

Lemma SanitizePermissions_canonical perms perms' :
  (forall p, p ∈ AllPermissions -> p ∈ perms <-> p ∈ perms') ->
  SanitizePermissions perms = SanitizePermissions perms'.
Proof.
  intros H. unfold SanitizePermissions.
  apply list_filter_iff. intros p. rewrite !sanitize_seen, !IsValid_spec. naive_solver.
Qed.

(** ** Properties *)

(** Sanitizing keeps exactly the known permissions of its input, each once, in
    catalog order; it is idempotent, and depends on the input only as a set. *)
Theorem SanitizePermissions_spec (perms : list Permission) :
  (forall p, p ∈ SanitizePermissions perms <-> p ∈ perms /\ IsValid p = true)
  /\ SanitizePermissions perms `sublist_of` AllPermissions
  /\ NoDup (SanitizePermissions perms)
  /\ SanitizePermissions (SanitizePermissions perms) = SanitizePermissions perms
  /\ (forall perms', perms ≡ₚ perms' -> SanitizePermissions perms' = SanitizePermissions perms).
Proof.
  split_and!.
  - intros p. by rewrite SanitizePermissions_elem, IsValid_spec.
  - apply sublist_filter.
  - apply NoDup_filter, AllPermissions_NoDup.
  - apply SanitizePermissions_canonical. intros p Hp. rewrite SanitizePermissions_elem. tauto.
  - intros perms' Hp. apply SanitizePermissions_canonical. intros p _. by rewrite Hp.
Qed.

(** The seeded roles are ordered by privilege, and every permission they grant is
    in the catalog: what an agent may do an admin may, what an admin may do the
    owner may; only the agent's role is confined to its own sectors, and an
    administrator cannot manage privacy, CRM modules or groups, see financial
    data or execute integration actions. *)
Theorem DefaultRoles_ordered :
  match DefaultRoles with
  | [owner; admin; agent] =>
      role_Permissions agent ⊆ role_Permissions admin
      /\ role_Permissions admin ⊆ role_Permissions owner
      /\ filter (fun p => p ∉ role_Permissions admin) (role_Permissions owner)
         = [ContactViewFinancial; IntegrationExecuteAction; GroupView; GroupManage;
            CRMManage; PrivacyManage]
  | _ => False
  end
  /\ Forall (fun r => Forall (fun p => IsValid p = true) (role_Permissions r)) DefaultRoles
  /\ map role_SectorScope DefaultRoles = [ScopeAll; ScopeAll; ScopeOwn].
Proof.
  unfold DefaultRoles. split_and!; try (by vm_compute);
    decide_closed.
Qed.
