(* ===== verification/Shared.v ===== *)
(** * Cross-cutting vocabulary (domain/shared)

    The request context, tenancy, rule origin and depth, realtime topics and
    keyset pagination. *)
From S2P Require Import Prelude AppError Authz.

(** ** The Go context: the values the services read from it *)

Definition RuleOrigin := string.
Definition OriginExternal : RuleOrigin := "external".
Definition OriginAutomation : RuleOrigin := "automation".

(** [None] for a key that was never stored. *)
Record Ctx := mkCtx {
  ctx_tenant : option string;
  ctx_auth : option AuthContext;
  ctx_origin : option RuleOrigin;
  ctx_depth : option Z;
}.

Definition Background : Ctx := mkCtx None None None None.

Definition WithTenant (c : Ctx) (t : string) : Ctx :=
  mkCtx (Some t) (ctx_auth c) (ctx_origin c) (ctx_depth c).
Definition WithAuthContext (c : Ctx) (a : AuthContext) : Ctx :=
  mkCtx (ctx_tenant c) (Some a) (ctx_origin c) (ctx_depth c).
Definition WithRuleOrigin (c : Ctx) (o : RuleOrigin) : Ctx :=
  mkCtx (ctx_tenant c) (ctx_auth c) (Some o) (ctx_depth c).
Definition WithRuleDepth (c : Ctx) (d : Z) : Ctx :=
  mkCtx (ctx_tenant c) (ctx_auth c) (ctx_origin c) (Some d).

Definition FromContext (c : Ctx) : option AuthContext := ctx_auth c.

Definition RequireTenant (c : Ctx) : result string :=
  match ctx_tenant c with
  | Some t => if t <>! "" then Ok t else Err (Forbidden "missing tenant scope")
  | None => Err (Forbidden "missing tenant scope")
  end.

Definition RuleOriginFromContext (c : Ctx) : RuleOrigin :=
  match ctx_origin c with
  | Some o => if o <>! "" then o else OriginExternal
  | None => OriginExternal
  end.

Definition RuleDepthFromContext (c : Ctx) : Z := default 0 (ctx_depth c).

(** ** Realtime topics (topics.go) *)

Definition TopicTenant (tenantID : string) : string := "t:" +:+ tenantID +:+ ":tenant".
Definition TopicPresence (tenantID : string) : string := "t:" +:+ tenantID +:+ ":presence".
Definition TopicUser (tenantID userID : string) : string :=
  "t:" +:+ tenantID +:+ ":user:" +:+ userID.
Definition TopicConversation (tenantID conversationID : string) : string :=
  "t:" +:+ tenantID +:+ ":conversation:" +:+ conversationID.
Definition TopicInbox (tenantID sectorID : string) : string :=
  "t:" +:+ tenantID +:+ ":inbox:" +:+ sectorID.
Definition TopicUnassigned (tenantID : string) : string :=
  "t:" +:+ tenantID +:+ ":unassigned".

Definition InboxTopicsFor (tenantID sectorID assignedTo : string) : list string :=
  if sectorID <>! "" then [TopicInbox tenantID sectorID]
  else TopicUnassigned tenantID ::
       (if assignedTo <>! "" then [TopicUser tenantID assignedTo] else []).

Definition DealTopicsFor (tenantID sectorID assignedTo : string) : list string :=
  TopicUnassigned tenantID ::
  (if sectorID <>! "" then [TopicInbox tenantID sectorID] else []) ++
  (if assignedTo <>! "" then [TopicUser tenantID assignedTo] else []).

(** The rooms of a tenant. *)
Inductive tenant_topic (t : string) : string -> Prop :=
| tt_tenant : tenant_topic t (TopicTenant t)
| tt_presence : tenant_topic t (TopicPresence t)
| tt_user u : tenant_topic t (TopicUser t u)
| tt_conversation c : tenant_topic t (TopicConversation t c)
| tt_inbox s : tenant_topic t (TopicInbox t s)
| tt_unassigned : tenant_topic t (TopicUnassigned t).

#[export] Hint Constructors tenant_topic : omni.

(** ** Pagination (pagination.go) *)

Definition DefaultPageSize : Z := 25.
Definition MaxPageSize : Z := 100.

Record PageRequest := mkPage { pr_Cursor : string; pr_Limit : Z }.

Definition Normalize (p : PageRequest) : PageRequest :=
  let p := if pr_Limit p <=? 0 then mkPage (pr_Cursor p) DefaultPageSize else p in
  if MaxPageSize <? pr_Limit p then mkPage (pr_Cursor p) MaxPageSize else p.

Record Cursor := mkCursor { cur_CreatedAt : Z; cur_ID : string }.

Record PageInfo := mkPageInfo { pi_NextCursor : string; pi_HasMore : bool }.
Record Page (T : Type) := mkPageOf { pg_Data : list T; pg_Page : PageInfo }.
Arguments mkPageOf {T} _ _.
Arguments pg_Data {T} _.
Arguments pg_Page {T} _.

(** [Encode] is base64 of JSON: an argument here. [items[:limit]] panics on a
    negative limit; the callers pass a normalized one. *)
Definition NewPage {T} (Encode : Cursor -> string) (items : list T) (limit : Z)
    (cursorOf : T -> Cursor) : Page T :=
  let hasMore := limit <? Z.of_nat (length items) in
  let items := if hasMore then take (Z.to_nat limit) items else items in
  let next := match hasMore, last items with
              | true, Some x => Encode (cursorOf x)
              | _, _ => ""
              end in
  mkPageOf items (mkPageInfo next hasMore).

(** ** Lemmas *)

Lemma RequireTenant_ok c t : RequireTenant c = Ok t -> ctx_tenant c = Some t /\ t <> "".
Proof.
  unfold RequireTenant. destruct (ctx_tenant c) as [u|]; [|done].
  case_bool_decide; cbn; intros; simplify_eq; done.
Qed.

Lemma Normalize_range p : 1 <= pr_Limit (Normalize p) <= MaxPageSize.
Proof.
  unfold Normalize, MaxPageSize, DefaultPageSize.
  destruct (Z.leb_spec (pr_Limit p) 0); cbn [pr_Limit pr_Cursor];
    destruct (Z.ltb_spec 100 (pr_Limit p)); cbn; try lia.
Qed.

Lemma InboxTopicsFor_tenant t s a : Forall (tenant_topic t) (InboxTopicsFor t s a).
Proof.
  unfold InboxTopicsFor. repeat case_bool_decide; cbn; repeat constructor.
Qed.

#[export] Hint Resolve InboxTopicsFor_tenant : omni.

(** ** Properties *)

(** Pagination: a listing is asked for with a limit in [1, 100] whatever the
    client sent, an in-range limit is left alone, and normalizing again changes
    nothing. *)
Theorem Normalize_spec (p : PageRequest) :
  1 <= pr_Limit (Normalize p) <= MaxPageSize
  /\ pr_Cursor (Normalize p) = pr_Cursor p
  /\ (1 <= pr_Limit p <= MaxPageSize -> Normalize p = p)
  /\ (pr_Limit p <= 0 -> pr_Limit (Normalize p) = DefaultPageSize)
  /\ Normalize (Normalize p) = Normalize p.
Proof.
  pose proof (Normalize_range p) as Hr.
  assert (forall q, 1 <= pr_Limit q <= MaxPageSize -> Normalize q = q) as Hid.
  { intros [c l] [H1 H2]. unfold Normalize, MaxPageSize in *. cbn in *.
    destruct (Z.leb_spec l 0); [lia|]. cbn. destruct (Z.ltb_spec 100 l); [lia|done]. }
  split_and!; [apply Hr|apply Hr| |apply Hid| |by apply Hid].
  - unfold Normalize. by repeat case_match.
  - intros H. unfold Normalize, MaxPageSize, DefaultPageSize.
    destruct (Z.leb_spec (pr_Limit p) 0); [|lia]. done.
Qed.

(** A page built from an over-fetched listing holds at most [limit] items, a
    prefix of what was fetched; it announces more exactly when items were left
    out, and then its cursor is that of its last item, so the next page starts
    right after it. *)
Theorem NewPage_spec {T} (Encode : Cursor -> string) (items : list T) (limit : Z)
    (cursorOf : T -> Cursor) :
  1 <= limit ->
  let p := NewPage Encode items limit cursorOf in
  Z.of_nat (length (pg_Data p)) <= limit
  /\ (exists rest, items = pg_Data p ++ rest /\ (pi_HasMore (pg_Page p) = true <-> rest <> []))
  /\ (pi_HasMore (pg_Page p) = true ->
        exists x, last (pg_Data p) = Some x /\ pi_NextCursor (pg_Page p) = Encode (cursorOf x))
  /\ (pi_HasMore (pg_Page p) = false -> pi_NextCursor (pg_Page p) = "" /\ pg_Data p = items).
Proof.
  intros Hl. unfold NewPage. cbn -[take].
  destruct (Z.ltb_spec limit (Z.of_nat (length items))) as [Hlt|Hge]; cbn -[take].
  - assert (exists x, last (take (Z.to_nat limit) items) = Some x) as [x Hx].
    { apply last_is_Some. intros E. apply (f_equal length) in E.
      rewrite length_take in E. cbn in E. lia. }
    rewrite Hx. split_and!; [rewrite length_take; lia| |by eauto|done].
    exists (drop (Z.to_nat limit) items). rewrite take_drop. split; [done|].
    split; [|done]. intros _ E. apply (f_equal length) in E.
    rewrite length_drop in E. cbn in E. lia.
  - split_and!; [lia| |done|done]. exists []. by rewrite app_nil_r.
Qed.

Lemma NewPage_spec_witness :
  let p := NewPage (fun k => cur_ID k) ["a"; "b"; "c"] 2 (fun x => mkCursor 0 x) in
  pg_Data p = ["a"; "b"] /\ pi_NextCursor (pg_Page p) = "b" /\
  Z.of_nat (length (pg_Data p)) <= 2.
Proof.
  split_and!; [reflexivity..|].
  apply (NewPage_spec (fun k => cur_ID k) ["a"; "b"; "c"] 2 (fun x => mkCursor 0 x)). lia.
Defined.

Definition colon : Ascii.ascii := Ascii.ascii_of_nat 58.

(** Whether a text holds no colon. *)
Fixpoint colon_free (s : string) : bool :=
  match s with
  | EmptyString => true
  | String ch s => negb (Ascii.eqb ch colon) && colon_free s
  end.

Lemma colon_split a b x y :
  colon_free a = true -> colon_free b = true ->
  a +:+ String colon x = b +:+ String colon y -> a = b.
Proof.
  revert b. induction a as [|ch a IH]; intros [|ch' b] Ha Hb; cbn in *; intros Heq.
  - done.
  - by injection Heq as <- _.
  - by injection Heq as -> _.
  - injection Heq as -> Heq. apply andb_true_iff in Ha as [_ Ha], Hb as [_ Hb].
    f_equal. by apply IH.
Qed.

Lemma tenant_topic_prefix t x : tenant_topic t x -> exists rest, x = "t:" +:+ (t +:+ String colon rest).
Proof. destruct 1; eexists; reflexivity. Qed.

(** Tenant isolation of the realtime rooms: every room an inbox or deal update goes
    to is a room of its tenant, and two tenants (whose ids hold no colon, as the
    generated ids) have no room in common. *)
Theorem topics_stay_in_tenant (t : string) :
  (forall s a, Forall (tenant_topic t) (InboxTopicsFor t s a)
               /\ Forall (tenant_topic t) (DealTopicsFor t s a))
  /\ (forall t' x, colon_free t = true -> colon_free t' = true ->
        tenant_topic t x -> tenant_topic t' x -> t = t').
Proof.
  split.
  - intros s a. split; [apply InboxTopicsFor_tenant|].
    unfold DealTopicsFor. repeat case_bool_decide; cbn; repeat constructor.
  - intros t' x Ht Ht' (r & Hx)%tenant_topic_prefix (r' & Hx')%tenant_topic_prefix.
    rewrite Hx in Hx'. injection Hx' as Hx'. by eapply colon_split.
Qed.
