(* ===== verification/ConvEntity.v ===== *)
(** * Conversation aggregate (domain/conversations/entity/conversation.go, event.go)

    Instants ([time.Time]) are integers counting nanoseconds; a [*time.Time] is an
    option. Go's string-typed enums keep arbitrary strings, so they are strings
    here too, with their constants and [Valid] tests. *)
From S2P Require Import Prelude GoStrings.

Definition Time := Z.

(** [time.Time.UnixMilli]. *)
Definition Millisecond : Z := 1000000.
Definition UnixMilli (t : Time) : Z := t / Millisecond.
Definition Second : Z := 1000000000.
Definition Minute : Z := 60 * Second.
Definition Hour : Z := 60 * Minute.

(** ** Status and priority *)

Definition Status := string.
Definition StatusNew : Status := "new".
Definition StatusQueued : Status := "queued".
Definition StatusAssigned : Status := "assigned".
Definition StatusWaitingCustomer : Status := "waiting_customer".
Definition StatusWaitingAgent : Status := "waiting_agent".
Definition StatusTransferred : Status := "transferred".
Definition StatusResolved : Status := "resolved".
Definition StatusClosed : Status := "closed".
Definition StatusArchived : Status := "archived".

Definition Status_Valid (s : Status) : bool :=
  bool_decide (s ∈ [StatusNew; StatusQueued; StatusAssigned;
                    StatusWaitingCustomer; StatusWaitingAgent; StatusTransferred;
                    StatusResolved; StatusClosed; StatusArchived]).

Definition IsClosed (s : Status) : bool :=
  (s =! StatusResolved) || (s =! StatusClosed) || (s =! StatusArchived).

Definition Priority := string.
Definition PriorityLow : Priority := "low".
Definition PriorityNormal : Priority := "normal".
Definition PriorityHigh : Priority := "high".
Definition PriorityUrgent : Priority := "urgent".

Definition Priority_Valid (p : Priority) : bool :=
  bool_decide (p ∈ [PriorityLow; PriorityNormal; PriorityHigh; PriorityUrgent]).

(** ** Sender and message kinds (message.go) *)

Definition SenderType := string.
Definition SenderCustomer : SenderType := "customer".
Definition SenderAgent : SenderType := "agent".
Definition SenderSystem : SenderType := "system".
Definition SenderCopilot : SenderType := "copilot".
Definition SenderAutomation : SenderType := "automation".

Definition Direction := string.
Definition DirectionInbound : Direction := "inbound".
Definition DirectionOutbound : Direction := "outbound".
Definition DirectionInternal : Direction := "internal".

Definition MessageType := string.
Definition MessageText : MessageType := "text".
Definition MessageImage : MessageType := "image".
Definition MessageFile : MessageType := "file".
Definition MessageAudio : MessageType := "audio".
Definition MessageVideo : MessageType := "video".
Definition MessageContact : MessageType := "contact".
Definition MessageLocation : MessageType := "location".
Definition MessageInteractive : MessageType := "interactive".
Definition MessageInteractiveReply : MessageType := "interactive_reply".
Definition MessageTemplate : MessageType := "template".
Definition MessageSystem : MessageType := "system".

Definition MessageType_Valid (t : MessageType) : bool :=
  bool_decide (t ∈ [MessageText; MessageImage; MessageFile; MessageAudio; MessageVideo;
                    MessageContact; MessageLocation; MessageInteractive;
                    MessageInteractiveReply; MessageTemplate; MessageSystem]).

(** ** The conversation *)

Record LastMessageSnapshot := mkSnapshot {
  lm_MessageID : string;
  lm_Preview : string;
  lm_SenderType : SenderType;
  lm_MessageType : MessageType;
  lm_CreatedAt : Time;
}.

Record Conversation := mkConversation {
  cv_ID : string;
  cv_TenantID : string;
  cv_ContactID : string;
  cv_Channel : string;
  cv_ChannelID : string;
  cv_SectorID : string;
  cv_QueueID : string;
  cv_Status : Status;
  cv_AssignedTo : string;
  cv_Priority : Priority;
  cv_Protocol : string;
  cv_Tags : list string;
  cv_CustomAttributes : list (string * value);
  cv_LastMessageAt : Time;
  cv_LastMessage : option LastMessageSnapshot;
  cv_LastCustomerMessageAt : option Time;
  cv_UnreadCount : Z;
  cv_LastReadAt : option Time;
  cv_CreatedAt : Time;
  cv_UpdatedAt : Time;
  cv_ClosedAt : option Time;
}.

(** Field assignments [conv.F = v]. *)

Definition set_SectorID (v : string) (c : Conversation) : Conversation :=
  mkConversation (cv_ID c) (cv_TenantID c) (cv_ContactID c) (cv_Channel c)
    (cv_ChannelID c) v (cv_QueueID c) (cv_Status c) (cv_AssignedTo c)
    (cv_Priority c) (cv_Protocol c) (cv_Tags c) (cv_CustomAttributes c)
    (cv_LastMessageAt c) (cv_LastMessage c) (cv_LastCustomerMessageAt c)
    (cv_UnreadCount c) (cv_LastReadAt c) (cv_CreatedAt c) (cv_UpdatedAt c)
    (cv_ClosedAt c).

Definition set_QueueID (v : string) (c : Conversation) : Conversation :=
  mkConversation (cv_ID c) (cv_TenantID c) (cv_ContactID c) (cv_Channel c)
    (cv_ChannelID c) (cv_SectorID c) v (cv_Status c) (cv_AssignedTo c)
    (cv_Priority c) (cv_Protocol c) (cv_Tags c) (cv_CustomAttributes c)
    (cv_LastMessageAt c) (cv_LastMessage c) (cv_LastCustomerMessageAt c)
    (cv_UnreadCount c) (cv_LastReadAt c) (cv_CreatedAt c) (cv_UpdatedAt c)
    (cv_ClosedAt c).

Definition set_Status (v : Status) (c : Conversation) : Conversation :=
  mkConversation (cv_ID c) (cv_TenantID c) (cv_ContactID c) (cv_Channel c)
    (cv_ChannelID c) (cv_SectorID c) (cv_QueueID c) v (cv_AssignedTo c)
    (cv_Priority c) (cv_Protocol c) (cv_Tags c) (cv_CustomAttributes c)
    (cv_LastMessageAt c) (cv_LastMessage c) (cv_LastCustomerMessageAt c)
    (cv_UnreadCount c) (cv_LastReadAt c) (cv_CreatedAt c) (cv_UpdatedAt c)
    (cv_ClosedAt c).

Definition set_AssignedTo (v : string) (c : Conversation) : Conversation :=
  mkConversation (cv_ID c) (cv_TenantID c) (cv_ContactID c) (cv_Channel c)
    (cv_ChannelID c) (cv_SectorID c) (cv_QueueID c) (cv_Status c) v
    (cv_Priority c) (cv_Protocol c) (cv_Tags c) (cv_CustomAttributes c)
    (cv_LastMessageAt c) (cv_LastMessage c) (cv_LastCustomerMessageAt c)
    (cv_UnreadCount c) (cv_LastReadAt c) (cv_CreatedAt c) (cv_UpdatedAt c)
    (cv_ClosedAt c).

Definition set_Priority (v : Priority) (c : Conversation) : Conversation :=
  mkConversation (cv_ID c) (cv_TenantID c) (cv_ContactID c) (cv_Channel c)
    (cv_ChannelID c) (cv_SectorID c) (cv_QueueID c) (cv_Status c)
    (cv_AssignedTo c) v (cv_Protocol c) (cv_Tags c) (cv_CustomAttributes c)
    (cv_LastMessageAt c) (cv_LastMessage c) (cv_LastCustomerMessageAt c)
    (cv_UnreadCount c) (cv_LastReadAt c) (cv_CreatedAt c) (cv_UpdatedAt c)
    (cv_ClosedAt c).

Definition set_Tags (v : list string) (c : Conversation) : Conversation :=
  mkConversation (cv_ID c) (cv_TenantID c) (cv_ContactID c) (cv_Channel c)
    (cv_ChannelID c) (cv_SectorID c) (cv_QueueID c) (cv_Status c)
    (cv_AssignedTo c) (cv_Priority c) (cv_Protocol c) v
    (cv_CustomAttributes c) (cv_LastMessageAt c) (cv_LastMessage c)
    (cv_LastCustomerMessageAt c) (cv_UnreadCount c) (cv_LastReadAt c)
    (cv_CreatedAt c) (cv_UpdatedAt c) (cv_ClosedAt c).

Definition set_CustomAttributes (v : list (string * value)) (c : Conversation) : Conversation :=
  mkConversation (cv_ID c) (cv_TenantID c) (cv_ContactID c) (cv_Channel c)
    (cv_ChannelID c) (cv_SectorID c) (cv_QueueID c) (cv_Status c)
    (cv_AssignedTo c) (cv_Priority c) (cv_Protocol c) (cv_Tags c) v
    (cv_LastMessageAt c) (cv_LastMessage c) (cv_LastCustomerMessageAt c)
    (cv_UnreadCount c) (cv_LastReadAt c) (cv_CreatedAt c) (cv_UpdatedAt c)
    (cv_ClosedAt c).

Definition set_LastMessageAt (v : Time) (c : Conversation) : Conversation :=
  mkConversation (cv_ID c) (cv_TenantID c) (cv_ContactID c) (cv_Channel c)
    (cv_ChannelID c) (cv_SectorID c) (cv_QueueID c) (cv_Status c)
    (cv_AssignedTo c) (cv_Priority c) (cv_Protocol c) (cv_Tags c)
    (cv_CustomAttributes c) v (cv_LastMessage c) (cv_LastCustomerMessageAt c)
    (cv_UnreadCount c) (cv_LastReadAt c) (cv_CreatedAt c) (cv_UpdatedAt c)
    (cv_ClosedAt c).

Definition set_LastMessage (v : option LastMessageSnapshot) (c : Conversation) : Conversation :=
  mkConversation (cv_ID c) (cv_TenantID c) (cv_ContactID c) (cv_Channel c)
    (cv_ChannelID c) (cv_SectorID c) (cv_QueueID c) (cv_Status c)
    (cv_AssignedTo c) (cv_Priority c) (cv_Protocol c) (cv_Tags c)
    (cv_CustomAttributes c) (cv_LastMessageAt c) v
    (cv_LastCustomerMessageAt c) (cv_UnreadCount c) (cv_LastReadAt c)
    (cv_CreatedAt c) (cv_UpdatedAt c) (cv_ClosedAt c).

Definition set_LastCustomerMessageAt (v : option Time) (c : Conversation) : Conversation :=
  mkConversation (cv_ID c) (cv_TenantID c) (cv_ContactID c) (cv_Channel c)
    (cv_ChannelID c) (cv_SectorID c) (cv_QueueID c) (cv_Status c)
    (cv_AssignedTo c) (cv_Priority c) (cv_Protocol c) (cv_Tags c)
    (cv_CustomAttributes c) (cv_LastMessageAt c) (cv_LastMessage c) v
    (cv_UnreadCount c) (cv_LastReadAt c) (cv_CreatedAt c) (cv_UpdatedAt c)
    (cv_ClosedAt c).

Definition set_UnreadCount (v : Z) (c : Conversation) : Conversation :=
  mkConversation (cv_ID c) (cv_TenantID c) (cv_ContactID c) (cv_Channel c)
    (cv_ChannelID c) (cv_SectorID c) (cv_QueueID c) (cv_Status c)
    (cv_AssignedTo c) (cv_Priority c) (cv_Protocol c) (cv_Tags c)
    (cv_CustomAttributes c) (cv_LastMessageAt c) (cv_LastMessage c)
    (cv_LastCustomerMessageAt c) v (cv_LastReadAt c) (cv_CreatedAt c)
    (cv_UpdatedAt c) (cv_ClosedAt c).

Definition set_LastReadAt (v : option Time) (c : Conversation) : Conversation :=
  mkConversation (cv_ID c) (cv_TenantID c) (cv_ContactID c) (cv_Channel c)
    (cv_ChannelID c) (cv_SectorID c) (cv_QueueID c) (cv_Status c)
    (cv_AssignedTo c) (cv_Priority c) (cv_Protocol c) (cv_Tags c)
    (cv_CustomAttributes c) (cv_LastMessageAt c) (cv_LastMessage c)
    (cv_LastCustomerMessageAt c) (cv_UnreadCount c) v (cv_CreatedAt c)
    (cv_UpdatedAt c) (cv_ClosedAt c).

Definition set_UpdatedAt (v : Time) (c : Conversation) : Conversation :=
  mkConversation (cv_ID c) (cv_TenantID c) (cv_ContactID c) (cv_Channel c)
    (cv_ChannelID c) (cv_SectorID c) (cv_QueueID c) (cv_Status c)
    (cv_AssignedTo c) (cv_Priority c) (cv_Protocol c) (cv_Tags c)
    (cv_CustomAttributes c) (cv_LastMessageAt c) (cv_LastMessage c)
    (cv_LastCustomerMessageAt c) (cv_UnreadCount c) (cv_LastReadAt c)
    (cv_CreatedAt c) v (cv_ClosedAt c).

Definition set_ClosedAt (v : option Time) (c : Conversation) : Conversation :=
  mkConversation (cv_ID c) (cv_TenantID c) (cv_ContactID c) (cv_Channel c)
    (cv_ChannelID c) (cv_SectorID c) (cv_QueueID c) (cv_Status c)
    (cv_AssignedTo c) (cv_Priority c) (cv_Protocol c) (cv_Tags c)
    (cv_CustomAttributes c) (cv_LastMessageAt c) (cv_LastMessage c)
    (cv_LastCustomerMessageAt c) (cv_UnreadCount c) (cv_LastReadAt c)
    (cv_CreatedAt c) (cv_UpdatedAt c) v.

(** Go's zero [Conversation] with the identity of the conversation set: what a
    composite literal starts from. *)
Definition zero_Conversation : Conversation :=
  mkConversation "" "" "" "" "" "" "" "" "" "" "" [] [] 0 None None 0 None 0 0 None.

(** ** The WhatsApp service window *)

Definition ChannelTypeWhatsApp : string := "whatsapp".
Definition WhatsAppWindowDuration : Z := 24 * Hour.

Record WhatsAppWindow := mkWindow { ww_Open : bool; ww_ExpiresAt : option Time }.

Definition WhatsAppWindowState (c : Conversation) (now : Time) : option WhatsAppWindow :=
  if cv_Channel c <>! ChannelTypeWhatsApp then None
  else match cv_LastCustomerMessageAt c with
       | None => Some (mkWindow false None)
       | Some t =>
           let exp := t + WhatsAppWindowDuration in
           Some (mkWindow (now <? exp) (Some exp))
       end.

(** ** The inbox preview *)

Definition lastMessagePreviewLen : nat := 280.

Definition ellipsis : string := "…".

Definition truncateRunes (s : string) (n : nat) : string :=
  let r := runes s in
  if (Z.of_nat (length r) <=? Z.of_nat n) then s
  else string_of_runes (take n r) +:+ ellipsis.

(** ** Timeline events (event.go) *)

Definition EventConversationCreated := "conversation.created".
Definition EventMessageCreated := "message.created".
Definition EventMessageEdited := "message.edited".
Definition EventMessageDeleted := "message.deleted".
Definition EventInternalNoteAdded := "internal_note.added".
Definition EventConversationUpdated := "conversation.updated".
Definition EventConversationClosed := "conversation.closed".
Definition EventConversationReopened := "conversation.reopened".
Definition EventConversationAssigned := "conversation.assigned".
Definition EventConversationTransferred := "conversation.transferred".
Definition EventConversationEnqueued := "conversation.enqueued".
Definition EventConversationTagged := "conversation.tagged".

Definition ActorType := string.
Definition ActorAgent : ActorType := "agent".
Definition ActorCustomer : ActorType := "customer".
Definition ActorSystem : ActorType := "system".
Definition ActorCopilot : ActorType := "copilot".

Record ConversationEvent := mkEvent {
  ev_ID : string;
  ev_TenantID : string;
  ev_ConversationID : string;
  ev_Type : string;
  ev_ActorType : ActorType;
  ev_ActorID : string;
  ev_Data : list (string * value);
  ev_CreatedAt : Time;
}.

(** ** Lemmas *)

Lemma IsClosed_spec s :
  IsClosed s = true <-> s = StatusResolved \/ s = StatusClosed \/ s = StatusArchived.
Proof. unfold IsClosed. rewrite !orb_true_iff, !bool_decide_eq_true. tauto. Qed.

Lemma IsClosed_false s :
  IsClosed s = false <-> s <> StatusResolved /\ s <> StatusClosed /\ s <> StatusArchived.
Proof. unfold IsClosed. rewrite !orb_false_iff, !bool_decide_eq_false. tauto. Qed.

(** ** Properties *)

(** The service window of a conversation exists exactly on WhatsApp channels; it
    is open exactly for the 24 hours following the customer's last message (the
    end excluded), and never before the customer wrote. *)
Theorem WhatsAppWindowState_spec (c : Conversation) (now : Time) :
  (WhatsAppWindowState c now = None <-> cv_Channel c <> ChannelTypeWhatsApp)
  /\ (forall w, WhatsAppWindowState c now = Some w ->
        (ww_Open w = true <->
           exists t, cv_LastCustomerMessageAt c = Some t
                     /\ now < t + 24 * 60 * 60 * 1000000000)
        /\ (forall e, ww_ExpiresAt w = Some e -> (ww_Open w = true <-> now < e))
        /\ (ww_ExpiresAt w = None <-> cv_LastCustomerMessageAt c = None)).
Proof.
  unfold WhatsAppWindowState, WhatsAppWindowDuration, Hour, Minute, Second.
  case_bool_decide as Hc; cbn; [|by split].
  split; [destruct (cv_LastCustomerMessageAt c); naive_solver|].
  intros w Hw. destruct (cv_LastCustomerMessageAt c) as [t|]; simplify_eq; cbn.
  - rewrite Z.ltb_lt. split_and!.
    + split; [intros ?; exists t; split; [done|lia]|].
      intros (u & Hu & ?). injection Hu as ->. lia.
    + intros e He. injection He as <-. apply Z.ltb_lt.
    + done.
  - split_and!; try done. split; [done|]. by intros (? & ? & ?).
Qed.

(** The inbox preview never exceeds 280 runes plus the ellipsis, and a text that
    fits is kept byte for byte. *)
Theorem truncateRunes_bound (s : string) (n : nat) :
  (rune_count s <= Z.of_nat n -> truncateRunes s n = s)
  /\ (Z.of_nat n < rune_count s ->
        exists r, truncateRunes s n = string_of_runes r +:+ ellipsis
                  /\ r = take n (runes s) /\ length r = n).
Proof.
  unfold truncateRunes, rune_count, runes. rewrite length_map.
  destruct (Z.leb_spec (Z.of_nat (length (chunks s))) (Z.of_nat n)); split; intros; try lia; try done.
  eexists. split_and!; [done|done|]. rewrite length_take, length_map. lia.
Qed.
