(* ===== verification/Messages.v ===== *)
(** * Messages (domain/conversations/entity/message.go)

    The message aggregate, the payload validations shared by the outbound, inbound
    and automation rails, and the forward-only delivery lifecycle. *)
From Stdlib Require Import SpecFloat.
From S2P Require Import Prelude GoStrings ConvEntity.

(** ** Structured payloads *)

Definition MaxContactsPerMessage : Z := 10.

Record ContactName := mkContactName { cn_Formatted : string; cn_First : string; cn_Last : string }.
Record ContactPhone := mkContactPhone { cp_Phone : string; cp_Type : string; cp_WaID : string }.
Record ContactEmail := mkContactEmail { ce_Email : string; ce_Type : string }.
Record ContactOrg := mkContactOrg { co_Company : string; co_Title : string }.
Record ContactCard := mkContactCard {
  cc_Name : ContactName;
  cc_Phones : list ContactPhone;
  cc_Emails : list ContactEmail;
  cc_Organization : option ContactOrg;
}.

(** [float64] is IEEE binary64, as the Standard Library's [spec_float]. *)
Definition float64 := spec_float.
Definition f64 (z : Z) : float64 := binary_normalize 53 1024 z 0 false.

Record Location := mkLocation {
  loc_Latitude : float64;
  loc_Longitude : float64;
  loc_Name : string;
  loc_Address : string;
}.

Record InteractiveButton := mkButton { ib_ID : string; ib_Title : string }.
Record InteractiveRow := mkRow { ir_ID : string; ir_Title : string; ir_Description : string }.
Record InteractiveSection := mkSection { is_Title : string; is_Rows : list InteractiveRow }.
Record Interactive := mkInteractive {
  iv_Kind : string;
  iv_Header : string;
  iv_Body : string;
  iv_Footer : string;
  iv_Buttons : list InteractiveButton;
  iv_Button : string;
  iv_Sections : list InteractiveSection;
}.
Record InteractiveReply := mkReply {
  rp_Type : string;
  rp_ID : string;
  rp_Title : string;
  rp_Description : string;
  rp_ContextMessageID : string;
}.

(** ** [ValidateContacts]: "" when valid, else the reason *)

Fixpoint validate_phones (ps : list ContactPhone) : string :=
  match ps with
  | [] => ""
  | p :: ps => if blank (cp_Phone p) then "contact phone must not be empty" else validate_phones ps
  end.

Fixpoint validate_cards (cs : list ContactCard) : string :=
  match cs with
  | [] => ""
  | c :: cs =>
      let n := cc_Name c in
      if blank (cn_Formatted n) && blank (cn_First n) && blank (cn_Last n)
      then "each contact requires a name"
      else if (length (cc_Phones c) =? 0)%nat then "each contact requires at least one phone"
      else
        let r := validate_phones (cc_Phones c) in
        if r <>! "" then r else validate_cards cs
  end.

Definition ValidateContacts (cs : list ContactCard) : string :=
  if (length cs =? 0)%nat then "contacts are required for message_type=contact"
  else if MaxContactsPerMessage <? Z.of_nat (length cs) then "at most 10 contacts per message"
  else validate_cards cs.

(** ** [(l *Location) Validate] *)

Definition Location_Validate (l : option Location) : string :=
  match l with
  | None => "location is required for message_type=location"
  | Some l =>
      if SFltb (loc_Latitude l) (f64 (-90)) || SFltb (f64 90) (loc_Latitude l)
      then "latitude must be between -90 and 90"
      else if SFltb (loc_Longitude l) (f64 (-180)) || SFltb (f64 180) (loc_Longitude l)
      then "longitude must be between -180 and 180"
      else ""
  end.

(** ** [(iv *Interactive) Validate] *)

Definition InteractiveButtons := "buttons".
Definition InteractiveList := "list".

Definition maxReplyButtons : Z := 3.
Definition maxButtonTitle : Z := 20.
Definition maxButtonID : Z := 256.
Definition maxButtonsBody : Z := 1024.
Definition maxInteractiveHeader : Z := 60.
Definition maxInteractiveFooter : Z := 60.
Definition maxListButton : Z := 20.
Definition maxListSections : Z := 10.
Definition maxListRows : Z := 10.
Definition maxSectionTitle : Z := 24.
Definition maxRowTitle : Z := 24.
Definition maxRowDescription : Z := 72.
Definition maxRowID : Z := 200.
Definition maxListBody : Z := 4096.

Definition tooLong (s : string) (max : Z) : bool := max <? rune_count s.

(** The buttons loop, with its [seen] map. *)
Fixpoint validate_buttons (seen : gset string) (bs : list InteractiveButton) : string :=
  match bs with
  | [] => ""
  | b :: bs =>
      if blank (ib_ID b) then "button id is required"
      else if tooLong (ib_ID b) maxButtonID then "button id must be at most 256 characters"
      else if blank (ib_Title b) then "button title is required"
      else if tooLong (ib_Title b) maxButtonTitle
      then "button title must be at most 20 characters"
      else if bool_decide (ib_ID b ∈ seen) then "button ids must be unique within the message"
      else validate_buttons ({[ib_ID b]} ∪ seen) bs
  end.

(** The rows of a section, with the [seen] map and the row counter the sections
    loop threads; [inl] is the early return. *)
Fixpoint validate_rows (seen : gset string) (total : Z) (rs : list InteractiveRow)
  : string + (gset string * Z) :=
  match rs with
  | [] => inr (seen, total)
  | r :: rs =>
      let total := total + 1 in
      if blank (ir_ID r) then inl "row id is required"
      else if tooLong (ir_ID r) maxRowID then inl "row id must be at most 200 characters"
      else if blank (ir_Title r) then inl "row title is required"
      else if tooLong (ir_Title r) maxRowTitle then inl "row title must be at most 24 characters"
      else if tooLong (ir_Description r) maxRowDescription
      then inl "row description must be at most 72 characters"
      else if bool_decide (ir_ID r ∈ seen) then inl "row ids must be unique within the message"
      else validate_rows ({[ir_ID r]} ∪ seen) total rs
  end.

Fixpoint validate_sections (seen : gset string) (total : Z) (ss : list InteractiveSection)
  : string + (gset string * Z) :=
  match ss with
  | [] => inr (seen, total)
  | sec :: ss =>
      if tooLong (is_Title sec) maxSectionTitle
      then inl "section title must be at most 24 characters"
      else if (length (is_Rows sec) =? 0)%nat
      then inl "each list section requires at least one row"
      else match validate_rows seen total (is_Rows sec) with
           | inl e => inl e
           | inr (seen, total) => validate_sections seen total ss
           end
  end.

Definition Interactive_Validate (iv : option Interactive) : string :=
  match iv with
  | None => "interactive is required for message_type=interactive"
  | Some iv =>
      if tooLong (iv_Header iv) maxInteractiveHeader
      then "interactive header must be at most 60 characters"
      else if tooLong (iv_Footer iv) maxInteractiveFooter
      then "interactive footer must be at most 60 characters"
      else if blank (iv_Body iv) then "interactive body is required"
      else if iv_Kind iv =! InteractiveButtons then
        if tooLong (iv_Body iv) maxButtonsBody
        then "interactive body must be at most 1024 characters"
        else if (length (iv_Buttons iv) =? 0)%nat then "interactive requires at least one button"
        else if maxReplyButtons <? Z.of_nat (length (iv_Buttons iv))
        then "interactive supports at most 3 buttons"
        else validate_buttons ∅ (iv_Buttons iv)
      else if iv_Kind iv =! InteractiveList then
        if tooLong (iv_Body iv) maxListBody
        then "interactive body must be at most 4096 characters"
        else if blank (iv_Button iv) then "list button label is required"
        else if tooLong (iv_Button iv) maxListButton
        then "list button label must be at most 20 characters"
        else if (length (iv_Sections iv) =? 0)%nat then "list requires at least one section"
        else if maxListSections <? Z.of_nat (length (iv_Sections iv))
        then "list supports at most 10 sections"
        else match validate_sections ∅ 0 (iv_Sections iv) with
             | inl e => e
             | inr (_, total) =>
                 if maxListRows <? total then "list supports at most 10 rows in total" else ""
             end
      else "interactive.kind must be 'buttons' or 'list'"
  end.

(** ** Media type of an attachment *)

Definition MessageTypeForContentType (contentType : string) : MessageType :=
  if has_prefix contentType "image/" then MessageImage
  else if has_prefix contentType "audio/" then MessageAudio
  else if has_prefix contentType "video/" then MessageVideo
  else MessageFile.

(** ** Delivery lifecycle *)

Definition DeliveryStatus := string.
Definition DeliveryNone : DeliveryStatus := "".
Definition DeliveryPending : DeliveryStatus := "pending".
Definition DeliverySent : DeliveryStatus := "sent".
Definition DeliveryDelivered : DeliveryStatus := "delivered".
Definition DeliveryRead : DeliveryStatus := "read".
Definition DeliveryFailed : DeliveryStatus := "failed".

Definition deliveryRank (d : DeliveryStatus) : Z :=
  if d =! DeliveryNone then 0
  else if d =! DeliveryPending then 1
  else if d =! DeliverySent then 2
  else if d =! DeliveryDelivered then 3
  else if d =! DeliveryRead then 4
  else if d =! DeliveryFailed then -1
  else 0.

Definition DeliveryAdvances (from to : DeliveryStatus) : bool :=
  if to =! DeliveryFailed then (from <>! DeliveryRead) && (from <>! DeliveryFailed)
  else if from =! DeliveryFailed then false
  else deliveryRank from <? deliveryRank to.

(** ** The message *)

Record GroupSender := mkGroupSender { gs_JID : string; gs_Name : string; gs_Phone : string }.

Record Attachment := mkAttachment {
  att_ID : string;
  att_URL : string;
  att_ContentType : string;
  att_Filename : string;
  att_Size : Z;
}.

Record TemplatePayload := mkTemplatePayload {
  tp_TemplateID : string;
  tp_Params : gmap string string;
}.

Record Message := mkMessage {
  ms_ID : string;
  ms_TenantID : string;
  ms_ConversationID : string;
  ms_SenderType : SenderType;
  ms_SenderID : string;
  ms_Direction : Direction;
  ms_MessageType : MessageType;
  ms_Text : string;
  ms_Attachments : list Attachment;
  ms_Template : option TemplatePayload;
  ms_Contacts : list ContactCard;
  ms_Location : option Location;
  ms_Interactive : option Interactive;
  ms_InteractiveReply : option InteractiveReply;
  ms_GroupSender : option GroupSender;
  ms_Metadata : list (string * value);
  ms_CreatedAt : Time;
  ms_DeliveryStatus : DeliveryStatus;
  ms_DeliveryError : string;
  ms_ExternalMessageID : string;
  ms_DeliveredAt : option Time;
  ms_ReadAt : option Time;
  ms_EditedAt : option Time;
  ms_DeletedAt : option Time;
}.

(** Field assignments [msg.F = v]. *)

Definition set_msg_MessageType (v : MessageType) (m : Message) : Message :=
  mkMessage (ms_ID m) (ms_TenantID m) (ms_ConversationID m) (ms_SenderType m)
    (ms_SenderID m) (ms_Direction m) v (ms_Text m) (ms_Attachments m)
    (ms_Template m) (ms_Contacts m) (ms_Location m) (ms_Interactive m)
    (ms_InteractiveReply m) (ms_GroupSender m) (ms_Metadata m)
    (ms_CreatedAt m) (ms_DeliveryStatus m) (ms_DeliveryError m)
    (ms_ExternalMessageID m) (ms_DeliveredAt m) (ms_ReadAt m) (ms_EditedAt m)
    (ms_DeletedAt m).

Definition set_msg_Text (v : string) (m : Message) : Message :=
  mkMessage (ms_ID m) (ms_TenantID m) (ms_ConversationID m) (ms_SenderType m)
    (ms_SenderID m) (ms_Direction m) (ms_MessageType m) v (ms_Attachments m)
    (ms_Template m) (ms_Contacts m) (ms_Location m) (ms_Interactive m)
    (ms_InteractiveReply m) (ms_GroupSender m) (ms_Metadata m)
    (ms_CreatedAt m) (ms_DeliveryStatus m) (ms_DeliveryError m)
    (ms_ExternalMessageID m) (ms_DeliveredAt m) (ms_ReadAt m) (ms_EditedAt m)
    (ms_DeletedAt m).

Definition set_msg_Attachments (v : list Attachment) (m : Message) : Message :=
  mkMessage (ms_ID m) (ms_TenantID m) (ms_ConversationID m) (ms_SenderType m)
    (ms_SenderID m) (ms_Direction m) (ms_MessageType m) (ms_Text m) v
    (ms_Template m) (ms_Contacts m) (ms_Location m) (ms_Interactive m)
    (ms_InteractiveReply m) (ms_GroupSender m) (ms_Metadata m)
    (ms_CreatedAt m) (ms_DeliveryStatus m) (ms_DeliveryError m)
    (ms_ExternalMessageID m) (ms_DeliveredAt m) (ms_ReadAt m) (ms_EditedAt m)
    (ms_DeletedAt m).

Definition set_msg_DeliveryStatus (v : DeliveryStatus) (m : Message) : Message :=
  mkMessage (ms_ID m) (ms_TenantID m) (ms_ConversationID m) (ms_SenderType m)
    (ms_SenderID m) (ms_Direction m) (ms_MessageType m) (ms_Text m)
    (ms_Attachments m) (ms_Template m) (ms_Contacts m) (ms_Location m)
    (ms_Interactive m) (ms_InteractiveReply m) (ms_GroupSender m)
    (ms_Metadata m) (ms_CreatedAt m) v (ms_DeliveryError m)
    (ms_ExternalMessageID m) (ms_DeliveredAt m) (ms_ReadAt m) (ms_EditedAt m)
    (ms_DeletedAt m).

Definition set_msg_DeliveredAt (v : option Time) (m : Message) : Message :=
  mkMessage (ms_ID m) (ms_TenantID m) (ms_ConversationID m) (ms_SenderType m)
    (ms_SenderID m) (ms_Direction m) (ms_MessageType m) (ms_Text m)
    (ms_Attachments m) (ms_Template m) (ms_Contacts m) (ms_Location m)
    (ms_Interactive m) (ms_InteractiveReply m) (ms_GroupSender m)
    (ms_Metadata m) (ms_CreatedAt m) (ms_DeliveryStatus m)
    (ms_DeliveryError m) (ms_ExternalMessageID m) v (ms_ReadAt m)
    (ms_EditedAt m) (ms_DeletedAt m).

Definition set_msg_ReadAt (v : option Time) (m : Message) : Message :=
  mkMessage (ms_ID m) (ms_TenantID m) (ms_ConversationID m) (ms_SenderType m)
    (ms_SenderID m) (ms_Direction m) (ms_MessageType m) (ms_Text m)
    (ms_Attachments m) (ms_Template m) (ms_Contacts m) (ms_Location m)
    (ms_Interactive m) (ms_InteractiveReply m) (ms_GroupSender m)
    (ms_Metadata m) (ms_CreatedAt m) (ms_DeliveryStatus m)
    (ms_DeliveryError m) (ms_ExternalMessageID m) (ms_DeliveredAt m) v
    (ms_EditedAt m) (ms_DeletedAt m).

Definition set_msg_EditedAt (v : option Time) (m : Message) : Message :=
  mkMessage (ms_ID m) (ms_TenantID m) (ms_ConversationID m) (ms_SenderType m)
    (ms_SenderID m) (ms_Direction m) (ms_MessageType m) (ms_Text m)
    (ms_Attachments m) (ms_Template m) (ms_Contacts m) (ms_Location m)
    (ms_Interactive m) (ms_InteractiveReply m) (ms_GroupSender m)
    (ms_Metadata m) (ms_CreatedAt m) (ms_DeliveryStatus m)
    (ms_DeliveryError m) (ms_ExternalMessageID m) (ms_DeliveredAt m)
    (ms_ReadAt m) v (ms_DeletedAt m).

Definition set_msg_DeletedAt (v : option Time) (m : Message) : Message :=
  mkMessage (ms_ID m) (ms_TenantID m) (ms_ConversationID m) (ms_SenderType m)
    (ms_SenderID m) (ms_Direction m) (ms_MessageType m) (ms_Text m)
    (ms_Attachments m) (ms_Template m) (ms_Contacts m) (ms_Location m)
    (ms_Interactive m) (ms_InteractiveReply m) (ms_GroupSender m)
    (ms_Metadata m) (ms_CreatedAt m) (ms_DeliveryStatus m)
    (ms_DeliveryError m) (ms_ExternalMessageID m) (ms_DeliveredAt m)
    (ms_ReadAt m) (ms_EditedAt m) v.

Definition IsDeleted (m : Message) : bool :=
  match ms_DeletedAt m with Some _ => true | None => false end.

(** The message literal the send paths build: every field they leave out is its
    zero value. *)
Definition newMessage (id tenantID conversationID : string) (senderType : SenderType)
    (senderID : string) (direction : Direction) (messageType : MessageType) (text : string)
    (attachments : list Attachment) (createdAt : Time) (status : DeliveryStatus) : Message :=
  mkMessage id tenantID conversationID senderType senderID direction messageType text
    attachments None [] None None None None [] createdAt status "" "" None None None None.

(** [NewLastMessageSnapshot] (conversation.go). *)
Definition NewLastMessageSnapshot (m : option Message) : option LastMessageSnapshot :=
  match m with
  | None => None
  | Some m =>
      Some (mkSnapshot (ms_ID m) (truncateRunes (ms_Text m) lastMessagePreviewLen)
              (ms_SenderType m) (ms_MessageType m) (ms_CreatedAt m))
  end.

(** ** What the validations accept *)

Definition fits (s : string) (max : Z) : Prop := rune_count s <= max.
Definition given (s : string) : Prop := blank s = false.

Definition valid_button (b : InteractiveButton) : Prop :=
  given (ib_ID b) /\ fits (ib_ID b) 256 /\ given (ib_Title b) /\ fits (ib_Title b) 20.

Definition valid_row (r : InteractiveRow) : Prop :=
  given (ir_ID r) /\ fits (ir_ID r) 200 /\ given (ir_Title r) /\ fits (ir_Title r) 24
  /\ fits (ir_Description r) 72.

Definition valid_section (s : InteractiveSection) : Prop :=
  fits (is_Title s) 24 /\ is_Rows s <> [] /\ Forall valid_row (is_Rows s).

Definition all_rows (ss : list InteractiveSection) : list InteractiveRow :=
  mjoin (map is_Rows ss).

(** The WhatsApp limits, as one proposition. *)
Definition valid_interactive (iv : Interactive) : Prop :=
  fits (iv_Header iv) 60 /\ fits (iv_Footer iv) 60 /\ given (iv_Body iv) /\
  ( (iv_Kind iv = "buttons" /\ fits (iv_Body iv) 1024
     /\ 1 <= Z.of_nat (length (iv_Buttons iv)) <= 3
     /\ Forall valid_button (iv_Buttons iv) /\ NoDup (map ib_ID (iv_Buttons iv)))
  \/ (iv_Kind iv = "list" /\ fits (iv_Body iv) 4096
      /\ given (iv_Button iv) /\ fits (iv_Button iv) 20
      /\ 1 <= Z.of_nat (length (iv_Sections iv)) <= 10
      /\ Forall valid_section (iv_Sections iv)
      /\ NoDup (map ir_ID (all_rows (iv_Sections iv)))
      /\ Z.of_nat (length (all_rows (iv_Sections iv))) <= 10)).

(** ** Lemmas *)

Lemma tooLong_false s n : tooLong s n = false <-> fits s n.
Proof. unfold tooLong, fits. rewrite Z.ltb_ge. done. Qed.

(** One guard of a validation: it must not fire. *)
Lemma guard_spec (b : bool) (e r : string) :
  e <> "" -> (if b then e else r) = "" <-> b = false /\ r = "".
Proof. intros He. destruct b; naive_solver. Qed.

Lemma guard_inr {A} (b : bool) (e : string) (r : string + A) x :
  (if b then inl e else r) = inr x <-> b = false /\ r = inr x.
Proof. destruct b; naive_solver. Qed.

Ltac guards :=
  repeat first [rewrite guard_spec by done | rewrite guard_inr];
  rewrite ?tooLong_false, ?bool_decide_eq_false.

Lemma validate_buttons_spec seen bs :
  validate_buttons seen bs = "" <->
  Forall valid_button bs /\ NoDup (map ib_ID bs) /\ Forall (fun b => ib_ID b ∉ seen) bs.
Proof.
  revert seen. induction bs as [|b bs IH]; intros seen; cbn.
  { repeat split; constructor. }
  guards. rewrite IH, Forall_notin_union, Forall_notin_singleton, !Forall_cons, NoDup_cons.
  unfold valid_button at 2, given. tauto.
Qed.

Lemma validate_rows_spec seen total rs st :
  validate_rows seen total rs = inr st <->
  Forall valid_row rs /\ NoDup (map ir_ID rs) /\ Forall (fun r => ir_ID r ∉ seen) rs
  /\ st = (seen ∪ list_to_set (map ir_ID rs), total + Z.of_nat (length rs)).
Proof.
  revert seen total. induction rs as [|r rs IH]; intros seen total; cbn [validate_rows].
  { cbn. rewrite Z.add_0_r, union_empty_r_L. split; [intros [=]|intros (_ & _ & _ & ->)];
      repeat split; try constructor; done. }
  guards. rewrite IH, Forall_notin_union, Forall_notin_singleton, !Forall_cons.
  cbn [map length]. rewrite NoDup_cons. unfold valid_row at 2, given.
  assert ({[ir_ID r]} ∪ seen ∪ list_to_set (map ir_ID rs)
          = seen ∪ list_to_set (ir_ID r :: map ir_ID rs)) as -> by set_solver.
  replace (total + 1 + Z.of_nat (length rs)) with (total + Z.of_nat (S (length rs))) by lia.
  tauto.
Qed.

Lemma all_rows_cons s ss : all_rows (s :: ss) = is_Rows s ++ all_rows ss.
Proof. done. Qed.

Lemma validate_sections_spec seen total ss st :
  validate_sections seen total ss = inr st <->
  Forall valid_section ss /\ NoDup (map ir_ID (all_rows ss))
  /\ Forall (fun r => ir_ID r ∉ seen) (all_rows ss)
  /\ st = (seen ∪ list_to_set (map ir_ID (all_rows ss)), total + Z.of_nat (length (all_rows ss))).
Proof.
  revert seen total. induction ss as [|s ss IH]; intros seen total; cbn [validate_sections].
  { cbn. rewrite Z.add_0_r, union_empty_r_L. split; [intros [=]|intros (_ & _ & _ & ->)];
      repeat split; try constructor; done. }
  guards. rewrite all_rows_cons.
  rewrite map_app, NoDup_app, Forall_app, Forall_cons, length_app, Nat2Z.inj_add.
  rewrite Nat.eqb_neq, length_zero_iff_nil. unfold valid_section at 1.
  destruct (validate_rows seen total (is_Rows s)) as [e|[seen' total']] eqn:E.
  - split; [naive_solver|]. intros (((Ht & Hne & Hv) & _) & (Hnd & _ & _) & (Hs & _) & _).
    exfalso. assert (Hr : validate_rows seen total (is_Rows s) = inr
      (seen ∪ list_to_set (map ir_ID (is_Rows s)), total + Z.of_nat (length (is_Rows s)))).
    { by apply validate_rows_spec. } congruence.
  - apply validate_rows_spec in E as (Hv & Hnd & Hs & [= -> ->]). rewrite IH.
    rewrite Forall_notin_union, Forall_notin_list, list_to_set_app_L, union_assoc_L, Z.add_assoc.
    tauto.
Qed.

(** What a sequence of receipts leaves: the fold of the guarded overwrite that
    [ApplyDeliveryReceipt] performs for each of them. *)
Definition receive (from to : DeliveryStatus) : DeliveryStatus :=
  if DeliveryAdvances from to then to else from.

Lemma receive_not_failed from to :
  from <> DeliveryFailed -> to <> DeliveryFailed ->
  deliveryRank (receive from to) = Z.max (deliveryRank from) (deliveryRank to).
Proof.
  intros Hf Ht. unfold receive, DeliveryAdvances.
  rewrite !bool_decide_eq_false_2 by done.
  destruct (Z.ltb_spec (deliveryRank from) (deliveryRank to)); lia.
Qed.

Lemma receive_ne_failed from to :
  from <> DeliveryFailed -> to <> DeliveryFailed -> receive from to <> DeliveryFailed.
Proof. intros. unfold receive. by case_match. Qed.

Lemma fold_receive_rank rs from :
  from <> DeliveryFailed -> Forall (fun r => r <> DeliveryFailed) rs ->
  deliveryRank (fold_left receive rs from)
  = fold_left Z.max (map deliveryRank rs) (deliveryRank from).
Proof.
  intros Hf Hrs. revert from Hf. induction Hrs as [|r rs Hr Hrs IH]; intros from Hf; cbn; [done|].
  rewrite IH by (by apply receive_ne_failed). by rewrite receive_not_failed.
Qed.

(** The receipts the integrator may report. *)
Definition receipt_status (d : DeliveryStatus) : Prop :=
  d = DeliveryDelivered \/ d = DeliveryRead.

Lemma receipt_rank_inj d d' :
  receipt_status d -> receipt_status d' -> deliveryRank d = deliveryRank d' -> d = d'.
Proof. by intros [->| ->] [->| ->]. Qed.

Lemma fold_max_perm l l' z : l ≡ₚ l' -> fold_left Z.max l z = fold_left Z.max l' z.
Proof.
  intros Hp. revert z. induction Hp as [|x l l' _ IH|x y l|l1 l2 l3 _ IH1 _ IH2]; intros z; cbn.
  - done.
  - apply IH.
  - f_equal. lia.
  - by rewrite IH1.
Qed.

Lemma deliveryRank_max d : deliveryRank d <= deliveryRank DeliveryRead.
Proof. change (deliveryRank DeliveryRead) with 4. unfold deliveryRank. repeat case_bool_decide; lia. Qed.

Lemma receive_final to :
  receive DeliveryRead to = DeliveryRead /\ receive DeliveryFailed to = DeliveryFailed.
Proof.
  unfold receive, DeliveryAdvances. split.
  - case_bool_decide; [done|]. rewrite bool_decide_eq_false_2 by done.
    pose proof (deliveryRank_max to). by rewrite (proj2 (Z.ltb_ge _ _)).
  - by repeat case_bool_decide.
Qed.

Lemma fold_receive_failed rs : fold_left receive rs DeliveryFailed = DeliveryFailed.
Proof. induction rs as [|r rs IH]; cbn; [done|]. by rewrite (proj2 (receive_final r)). Qed.

(** Receipts either leave the status alone or leave one of them, strictly above. *)
Lemma fold_receive_up rs from :
  from <> DeliveryFailed -> Forall (fun r => r <> DeliveryFailed) rs ->
  fold_left receive rs from = from
  \/ (fold_left receive rs from ∈ rs
      /\ deliveryRank from < deliveryRank (fold_left receive rs from)).
Proof.
  intros Hf Hrs. revert from Hf. induction Hrs as [|r rs Hr Hrs IH]; intros from Hf; cbn; [by left|].
  destruct (DeliveryAdvances from r) eqn:E; unfold receive at 2 4 6; rewrite E.
  - right. unfold DeliveryAdvances in E. rewrite !bool_decide_eq_false_2 in E by done.
    apply Z.ltb_lt in E.
    destruct (IH r Hr) as [->|[? ?]]; [split; [left|done]|split; [by right|lia]].
  - destruct (IH from Hf) as [->|[? ?]]; [by left|right; split; [by right|done]].
Qed.

Lemma receipts_commute from rs rs' :
  rs ≡ₚ rs' -> Forall receipt_status rs -> fold_left receive rs from = fold_left receive rs' from.
Proof.
  intros Hp Hrs. destruct (decide (from = DeliveryFailed)) as [->|Hf].
  { by rewrite !fold_receive_failed. }
  assert (Forall receipt_status rs') as Hrs' by by rewrite <- Hp.
  assert (forall l, Forall receipt_status l -> Forall (fun r => r <> DeliveryFailed) l) as Hnf.
  { intros l. apply Forall_impl || (intros Hl; eapply Forall_impl; [exact Hl|]).
    by intros x [-> | ->]. }
  assert (deliveryRank (fold_left receive rs from) = deliveryRank (fold_left receive rs' from)) as Hr.
  { rewrite !fold_receive_rank by auto. apply fold_max_perm. by rewrite Hp. }
  rewrite !Forall_forall in Hrs, Hrs'.
  destruct (fold_receive_up rs from Hf) as [E|[Hi Hlt]];
    [apply Hnf, Forall_forall, Hrs| |];
    (destruct (fold_receive_up rs' from Hf) as [E'|[Hi' Hlt']];
      [apply Hnf, Forall_forall, Hrs'| |]).
  - congruence.
  - rewrite E in Hr. lia.
  - rewrite E' in Hr. lia.
  - apply receipt_rank_inj; auto.
Qed.

Lemma validate_sections_ok ss :
  Forall valid_section ss -> NoDup (map ir_ID (all_rows ss)) ->
  exists st, validate_sections ∅ 0 ss = inr st.
Proof.
  intros. eexists. apply validate_sections_spec. split_and!; try done.
  apply Forall_forall. set_solver.
Qed.

(** An error of the sections loop is a non-empty reason. *)
Lemma validate_rows_error seen total rs : validate_rows seen total rs <> inl "".
Proof.
  revert seen total. induction rs as [|r rs IH]; intros seen total; cbn; [done|].
  repeat case_match; done || apply IH.
Qed.

Lemma validate_sections_error seen total ss : validate_sections seen total ss <> inl "".
Proof.
  revert seen total. induction ss as [|s ss IH]; intros seen total; cbn; [done|].
  repeat case_match; simplify_eq; try done; try apply IH.
  all: intros [= ->]; by eapply validate_rows_error.
Qed.

(** ** Properties *)

(** An outbound interactive message is accepted exactly when it respects the
    WhatsApp limits: one to three uniquely identified buttons, or up to ten
    sections of in all at most ten uniquely identified rows, with every text
    within its length. *)
Theorem Interactive_Validate_spec (iv : Interactive) :
  Interactive_Validate (Some iv) = "" <-> valid_interactive iv.
Proof.
  unfold Interactive_Validate, valid_interactive. guards. unfold given.
  assert (forall A B C D D', (D <-> D') -> (A /\ B /\ C /\ D) <-> (A /\ B /\ C /\ D'))
    as Hand by tauto.
  apply Hand. clear Hand.
  case_bool_decide as Hb; [|case_bool_decide as Hl].
  - guards. rewrite validate_buttons_spec, Nat.eqb_neq, Z.ltb_ge. rewrite Hb.
    unfold maxReplyButtons, maxButtonsBody.
    assert (Forall (fun b => ib_ID b ∉ (∅ : gset string)) (iv_Buttons iv)) by
      (apply Forall_forall; set_solver).
    split; [intros; left|intros [Hv|[Hv _]]; [|done]]; destruct_and?; split_and!; try done; lia.
  - guards. rewrite Nat.eqb_neq, Z.ltb_ge, Hl.
    unfold maxListBody, maxListButton, maxListSections.
    assert (Forall (fun r => ir_ID r ∉ (∅ : gset string)) (all_rows (iv_Sections iv))) by
      (apply Forall_forall; set_solver).
    destruct (validate_sections ∅ 0 (iv_Sections iv)) as [e|[seen total]] eqn:E.
    + split; [intros; destruct_and?|intros [[? _]|?]; [done|]].
      * exfalso. subst e. by eapply validate_sections_error.
      * exfalso. destruct_and?. edestruct validate_sections_ok; [eassumption..|]. congruence.
    + apply validate_sections_spec in E as (? & ? & ? & [= -> ->]).
      guards. unfold maxListRows. rewrite Z.ltb_ge.
      split; [intros; right|intros [[? _]|?]; [done|]]; destruct_and?; split_and!; try done; lia.
  - split; [done|]. intros [[? _]|[? _]]; done.
Qed.

(** Delivery receipts: the status only moves forward, a repeated receipt changes
    nothing, "read" and "failed" are final, and whatever the order in which the
    delivered/read receipts of a message arrive they leave the same status. *)
Theorem delivery_receipts (from : DeliveryStatus) :
  (forall to, DeliveryAdvances from to = true -> to <> DeliveryFailed ->
     deliveryRank from < deliveryRank to)
  /\ (forall to, receive (receive from to) to = receive from to)
  /\ (forall to, receive DeliveryRead to = DeliveryRead
                 /\ receive DeliveryFailed to = DeliveryFailed)
  /\ (forall rs rs', rs ≡ₚ rs' -> Forall receipt_status rs ->
        fold_left receive rs from = fold_left receive rs' from).
Proof.
  split_and!.
  - intros to H Hf. unfold DeliveryAdvances in H. rewrite bool_decide_eq_false_2 in H by done.
    case_bool_decide; [done|]. by apply Z.ltb_lt.
  - intros to. unfold receive at 2 3. destruct (DeliveryAdvances from to) eqn:E.
    + unfold receive. by case_match.
    + unfold receive. by rewrite E.
  - intros to. apply receive_final.
  - intros rs rs' Hp Hrs. by apply receipts_commute.
Qed.
