(* ===== verification/ConvContracts.v ===== *)
(** * Conversation contracts (domain/conversations/contracts)

    Commands, listing filters and the realtime and webhook payloads. *)
From S2P Require Import Prelude GoStrings ConvEntity Messages.

(** ** Realtime event names (events.go) *)

Definition RealtimeMessageCreated := "message.created".
Definition RealtimeMessageUpdated := "message.updated".
Definition RealtimeMessageDeleted := "message.deleted".
Definition RealtimeConversationCreated := "conversation.created".
Definition RealtimeConversationUpdated := "conversation.updated".
Definition RealtimeConversationClosed := "conversation.closed".
Definition RealtimeConversationResolved := "conversation.resolved".
Definition RealtimeConversationReopened := "conversation.reopened".
Definition RealtimeConversationAssigned := "conversation.assigned".
Definition RealtimeConversationTransferred := "conversation.transferred".
Definition RealtimeConversationTagged := "conversation.tagged".
Definition RealtimeTypingStarted := "typing.started".
Definition RealtimeTypingStopped := "typing.stopped".
Definition RealtimeMessageRead := "message.read".
Definition RealtimeMessageSent := "message.sent".
Definition RealtimeMessageDelivered := "message.delivered".
Definition RealtimeMessageFailed := "message.failed".

(** ** Payloads *)

Record MessageStatusPayload := mkStatusPayload {
  sp_MessageID : string; sp_ConversationID : string; sp_DeliveryStatus : string; sp_Error : string }.
Record TypingPayload := mkTypingPayload { ty_ConversationID : string; ty_UserID : string }.
Record ReadPayload := mkReadPayload {
  rd_ConversationID : string; rd_UserID : string; rd_ReadAt : Time }.
Record MessageRefPayload := mkRefPayload { rf_MessageID : string; rf_ConversationID : string }.

Record LastMessagePayload := mkLastMessagePayload {
  lp_Preview : string; lp_SenderType : string; lp_MessageType : string; lp_CreatedAt : Time }.

Record ConversationPayload := mkConversationPayload {
  cvp_ID : string;
  cvp_TenantID : string;
  cvp_ContactID : string;
  cvp_Channel : string;
  cvp_ChannelID : string;
  cvp_SectorID : string;
  cvp_QueueID : string;
  cvp_Status : string;
  cvp_AssignedTo : string;
  cvp_Priority : string;
  cvp_Protocol : string;
  cvp_Tags : list string;
  cvp_LastMessageAt : Time;
  cvp_LastMessage : option LastMessagePayload;
  cvp_UnreadCount : Z;
  cvp_LastReadAt : option Time;
  cvp_UpdatedAt : Time;
  cvp_WhatsAppWindow : option WhatsAppWindow;
}.

Definition newLastMessagePayload (s : option LastMessageSnapshot) : option LastMessagePayload :=
  (fun s => mkLastMessagePayload (lm_Preview s) (lm_SenderType s) (lm_MessageType s)
              (lm_CreatedAt s)) <$> s.

(** [now] is the [time.Now()] the constructor reads. *)
Definition NewConversationPayload (c : Conversation) (now : Time) : ConversationPayload :=
  {| cvp_ID := cv_ID c;
     cvp_TenantID := cv_TenantID c;
     cvp_ContactID := cv_ContactID c;
     cvp_Channel := cv_Channel c;
     cvp_ChannelID := cv_ChannelID c;
     cvp_SectorID := cv_SectorID c;
     cvp_QueueID := cv_QueueID c;
     cvp_Status := cv_Status c;
     cvp_AssignedTo := cv_AssignedTo c;
     cvp_Priority := cv_Priority c;
     cvp_Protocol := cv_Protocol c;
     cvp_Tags := cv_Tags c;
     cvp_LastMessageAt := cv_LastMessageAt c;
     cvp_LastMessage := newLastMessagePayload (cv_LastMessage c);
     cvp_UnreadCount := cv_UnreadCount c;
     cvp_LastReadAt := cv_LastReadAt c;
     cvp_UpdatedAt := cv_UpdatedAt c;
     cvp_WhatsAppWindow := WhatsAppWindowState c now |}.

(** *** The outbound-webhook enrichment blocks *)

Record WebhookIdentity := mkIdentity { wi_Channel : string; wi_ExternalID : string }.
Record WebhookContact := mkWebhookContact {
  wc_ID : string; wc_Name : string; wc_Phone : string; wc_IsGroup : bool;
  wc_Identities : list WebhookIdentity; wc_CustomAttributes : list (string * value) }.
Record WebhookAgent := mkWebhookAgent { wa_ID : string; wa_Name : string }.
Record WebhookConversationRef := mkConversationRef { wr_CustomAttributes : list (string * value) }.

Record MessageTemplatePayload := mkMessageTemplatePayload {
  mtp_ID : string; mtp_Params : gmap string string }.

Record MessagePayload := mkMessagePayload {
  mp_ID : string;
  mp_ConversationID : string;
  mp_SenderType : string;
  mp_SenderID : string;
  mp_Direction : string;
  mp_MessageType : string;
  mp_Text : string;
  mp_Attachments : list Attachment;
  mp_Contacts : list ContactCard;
  mp_Location : option Location;
  mp_Interactive : option Interactive;
  mp_InteractiveReply : option InteractiveReply;
  mp_GroupSender : option GroupSender;
  mp_Template : option MessageTemplatePayload;
  mp_Internal : bool;
  mp_DeliveryStatus : string;
  mp_CreatedAt : Time;
  mp_EditedAt : option Time;
  mp_Contact : option WebhookContact;
  mp_Agent : option WebhookAgent;
  mp_Conversation : option WebhookConversationRef;
}.

Definition NewMessagePayload (m : Message) : MessagePayload :=
  {| mp_ID := ms_ID m;
     mp_ConversationID := ms_ConversationID m;
     mp_SenderType := ms_SenderType m;
     mp_SenderID := ms_SenderID m;
     mp_Direction := ms_Direction m;
     mp_MessageType := ms_MessageType m;
     mp_Text := ms_Text m;
     mp_Attachments := ms_Attachments m;
     mp_Contacts := ms_Contacts m;
     mp_Location := ms_Location m;
     mp_Interactive := ms_Interactive m;
     mp_InteractiveReply := ms_InteractiveReply m;
     mp_GroupSender := ms_GroupSender m;
     mp_Template :=
       (fun t => mkMessageTemplatePayload (tp_TemplateID t) (tp_Params t)) <$> ms_Template m;
     mp_Internal := ms_Direction m =! DirectionInternal;
     mp_DeliveryStatus := ms_DeliveryStatus m;
     mp_CreatedAt := ms_CreatedAt m;
     mp_EditedAt := ms_EditedAt m;
     mp_Contact := None;
     mp_Agent := None;
     mp_Conversation := None |}.

Definition set_mp_Attachments (v : list Attachment) (p : MessagePayload) : MessagePayload :=
  mkMessagePayload (mp_ID p) (mp_ConversationID p) (mp_SenderType p) (mp_SenderID p)
    (mp_Direction p) (mp_MessageType p) (mp_Text p) v (mp_Contacts p) (mp_Location p)
    (mp_Interactive p) (mp_InteractiveReply p) (mp_GroupSender p) (mp_Template p)
    (mp_Internal p) (mp_DeliveryStatus p) (mp_CreatedAt p) (mp_EditedAt p)
    (mp_Contact p) (mp_Agent p) (mp_Conversation p).

(** The enrichment assignments [p.Contact], [p.Agent], [p.Conversation]. *)
Definition enrich (p : MessagePayload) (contact : option WebhookContact)
    (agent : option WebhookAgent) (conv : option WebhookConversationRef) : MessagePayload :=
  mkMessagePayload (mp_ID p) (mp_ConversationID p) (mp_SenderType p) (mp_SenderID p)
    (mp_Direction p) (mp_MessageType p) (mp_Text p) (mp_Attachments p) (mp_Contacts p)
    (mp_Location p) (mp_Interactive p) (mp_InteractiveReply p) (mp_GroupSender p)
    (mp_Template p) (mp_Internal p) (mp_DeliveryStatus p) (mp_CreatedAt p) (mp_EditedAt p)
    contact agent conv.

Definition NewIntegrationMessagePayload (m : Message) (mediaURLs : gmap string string)
  : MessagePayload :=
  let p := NewMessagePayload m in
  if (length (mp_Attachments p) =? 0)%nat || bool_decide (mediaURLs = ∅) then p
  else
    set_mp_Attachments
      (map (fun a =>
              match mediaURLs !! att_ID a with
              | Some u =>
                  if u <>! "" then
                    mkAttachment (att_ID a) u (att_ContentType a) (att_Filename a) (att_Size a)
                  else a
              | None => a
              end) (mp_Attachments p)) p.

Record IntegrationConversationPayload := mkIntegrationConversationPayload {
  icp_Conversation : ConversationPayload;
  icp_CustomAttributes : list (string * value);
  icp_Contact : option WebhookContact;
  icp_AssignedAgent : option WebhookAgent;
}.

Definition NewIntegrationConversationPayload (c : Conversation) (contact : option WebhookContact)
    (agent : option WebhookAgent) (now : Time) : IntegrationConversationPayload :=
  mkIntegrationConversationPayload (NewConversationPayload c now) (cv_CustomAttributes c)
    contact agent.

(** What travels to a publisher, a webhook or the rule sink. *)
Inductive Payload : Type :=
| PConversation (p : ConversationPayload)
| PMessage (p : MessagePayload)
| PMessageRef (p : MessageRefPayload)
| PMessageStatus (p : MessageStatusPayload)
| PTyping (p : TypingPayload)
| PRead (p : ReadPayload)
| PIntegrationConversation (p : IntegrationConversationPayload)
| PData (d : list (string * value))
| PRaw (json : string).

(** ** Commands (commands.go) and queries (queries.go) *)

Record CreateConversation := mkCreate {
  cr_ContactID : string; cr_ChannelID : string; cr_SectorID : string; cr_QueueID : string;
  cr_AssignedTo : string; cr_Priority : Priority; cr_Tags : list string }.

Record UpdateConversation := mkUpdate {
  up_SectorID : option string; up_QueueID : option string; up_Status : option Status;
  up_AssignedTo : option string; up_Priority : option Priority; up_Tags : option (list string);
  up_CustomAttributes : option (list (string * value)) }.

Record SendTemplate := mkSendTemplate {
  st_TemplateID : string; st_Params : gmap string string }.

Record SendMessage := mkSendMessage {
  sm_MessageType : MessageType; sm_Text : string; sm_Attachments : list Attachment;
  sm_Template : option SendTemplate; sm_Contacts : list ContactCard;
  sm_Location : option Location; sm_Interactive : option Interactive;
  sm_Metadata : list (string * value) }.

Record AddInternalNote := mkNote { an_Text : string; an_MentionUserIDs : list string }.
Record CloseConversation := mkClose { cl_CloseReasonID : string; cl_Note : string }.

Record ListFilter := mkListFilter {
  lf_Status : string; lf_SectorID : string; lf_QueueID : string; lf_AssignedTo : string;
  lf_ContactID : string; lf_Protocol : string; lf_Tag : string }.
Record Visibility := mkVisibility { vis_All : bool; vis_SectorIDs : list string; vis_UserID : string }.
Record UnreadCounts := mkUnread { un_Mine : Z; un_Sector : Z; un_Queue : Z }.

(** ** Properties *)

(** Building the webhook form of a message only swaps attachment URLs: every
    attachment keeps its identity and metadata, one whose media URL is unknown or
    empty keeps its URL, and no other field changes. *)
Theorem NewIntegrationMessagePayload_spec (m : Message) (urls : gmap string string) :
  let p := NewIntegrationMessagePayload m urls in
  set_mp_Attachments (ms_Attachments m) p = NewMessagePayload m
  /\ Forall2 (fun a b =>
       att_ID b = att_ID a /\ att_ContentType b = att_ContentType a
       /\ att_Filename b = att_Filename a /\ att_Size b = att_Size a
       /\ att_URL b = match urls !! att_ID a with
                      | Some u => if u <>! "" then u else att_URL a
                      | None => att_URL a
                      end)
     (ms_Attachments m) (mp_Attachments p).
Proof.
  unfold NewIntegrationMessagePayload.
  destruct (_ || _) eqn:E; (split; [done|]); cbn in *.
  - apply orb_true_iff in E as [E|E]; prop_bools.
    + apply Nat.eqb_eq, length_zero_iff_nil in E. rewrite E. constructor.
    + rewrite E. induction (ms_Attachments m) as [|a l IH]; constructor; [|exact IH].
      by rewrite lookup_empty.
  - clear E. induction (ms_Attachments m) as [|a l IH]; cbn; constructor; [|exact IH].
    destruct (urls !! att_ID a) as [u|]; [|done]. by case_bool_decide.
Qed.
