(* ===== verification/Queries.v ===== *)
(** * Keyset pagination, and the queries of the conversation repositories

    The opaque cursor of a page (domain/shared/pagination.go), the filter and the order the
    repositories share (infra/database/mongodb/helpers.go), the listing a repository makes of
    them, and the walk a client makes from page to page. *)
From S2P Require Import Prelude GoStrings AppError Base64 Authz Shared ConvEntity Messages ConvContracts.

(** ** The cursor token *)

(** [json.Marshal] of the cursor. Of a string: the ASCII escapes; identifiers are plain. *)
Definition json_char (a : Ascii.ascii) : list Ascii.ascii :=
  let z := byte_val a in
  let hex n := byte_of (if n <? 10 then n + 48 else n + 87) in
  let u := bytes_of "\u00" ++ [hex (z / 16); hex (z mod 16)] in
  if z =? 34 then bytes_of "\" ++ [a]
  else if z =? 92 then bytes_of "\\"
  else if z =? 8 then bytes_of "\b"
  else if z =? 12 then bytes_of "\f"
  else if z =? 10 then bytes_of "\n"
  else if z =? 13 then bytes_of "\r"
  else if z =? 9 then bytes_of "\t"
  else if (z <? 32) || (z =? 60) || (z =? 62) || (z =? 38) then u
  else [a].

Definition quote : string := of_bytes [byte_of 34].
Definition json_string (s : string) : string := quote +:+ of_bytes (concat (map json_char (bytes_of s))) +:+ quote.

Definition marshal (c : Cursor) : string :=
  "{" +:+ quote +:+ "t" +:+ quote +:+ ":" +:+ pretty (cur_CreatedAt c) +:+
  "," +:+ quote +:+ "i" +:+ quote +:+ ":" +:+ json_string (cur_ID c) +:+ "}".

Definition Encode (c : Cursor) : string := of_bytes (base64_url (bytes_of (marshal c))).

Definition zero_cursor : Cursor := mkCursor 0 "".
Definition CorruptInputError : error := PlainErr "illegal base64 data" None.

Section Decoding.
(** [json.Unmarshal] into a cursor. *)
Context (unmarshal : string -> result Cursor).

Definition invalid_cursor {A} (cause : error) : result A := Err (Wrap cause (Validation "invalid cursor")).

Definition DecodeCursor (token : string) : result Cursor :=
  if token =! "" then Ok zero_cursor
  else match base64_decode (bytes_of token) with
       | None => invalid_cursor CorruptInputError
       | Some raw =>
           match unmarshal (of_bytes raw) with
           | Ok c => Ok c
           | Err e => invalid_cursor e
           end
       end.

Lemma Encode_not_empty c : Encode c <> "".
Proof.
  unfold Encode, marshal. intros H. apply (f_equal bytes_of) in H. rewrite bytes_of_of in H.
  apply (f_equal (@length _)) in H. rewrite base64_length, bytes_of_app, length_app in H. cbn [length bytes_of] in H.
  change (length (bytes_of "{")) with 1%nat in H. change (length (bytes_of "")) with 0%nat in H.
  pose proof (Nat.div_le_mono 6 (4 * (1 + length (bytes_of (quote +:+ "t" +:+ quote +:+ ":" +:+ pretty (cur_CreatedAt c) +:+
  "," +:+ quote +:+ "i" +:+ quote +:+ ":" +:+ json_string (cur_ID c) +:+ "}"))) + 2) 3 ltac:(lia) ltac:(lia)). cbn in *. lia.
Qed.

(** The token of a cursor gives it back, when its JSON does. *)
Lemma DecodeCursor_Encode c : unmarshal (marshal c) = Ok c -> DecodeCursor (Encode c) = Ok c.
Proof.
  intros Hj. unfold DecodeCursor. rewrite bool_decide_false by apply Encode_not_empty.
  unfold Encode. by rewrite bytes_of_of, base64_roundtrip, of_bytes_of, Hj.
Qed.
End Decoding.

(** ** Filter, order and page *)

Section Keyset.
Context {T : Type} (stamp : T -> Time) (ident : T -> string).

Definition CursorOf (createdAt : Time) (id : string) : Cursor := mkCursor (UnixMilli createdAt) id.
Definition cursorOf (x : T) : Cursor := CursorOf (stamp x) (ident x).

(** [ApplyKeysetField]: what is older than the cursor, ties by id. Documents keep their times in
    milliseconds. *)
Definition keyset (cur : Cursor) (x : T) : bool :=
  let from := cur_CreatedAt cur * Millisecond in
  (stamp x <? from) || ((stamp x =? from) && String.ltb (ident x) (cur_ID cur)).

Definition ApplyKeysetField (base : T -> bool) (cur : Cursor) (x : T) : bool :=
  if cur_ID cur =! "" then base x else base x && keyset cur x.

(** [KeysetSortField]: newest first, then by id, the greatest first. *)
Definition before (x y : T) : Prop :=
  stamp y < stamp x \/ stamp y = stamp x /\ String.ltb (ident y) (ident x) = true.

(** [Find] with that filter, that order and a limit, over documents kept in that order. *)
Definition find (docs : list T) (base : T -> bool) (cur : Cursor) (limit : Z) : list T :=
  take (Z.to_nat limit) (filter (fun x => ApplyKeysetField base cur x = true) docs).

Context (unmarshal : string -> result Cursor).

(** A listing: the repository fetches one document more than the page, the controller cuts it. *)
Definition list_page (docs : list T) (base : T -> bool) (q : PageRequest) : result (Page T) :=
  let page := Normalize q in
  match DecodeCursor unmarshal (pr_Cursor page) with
  | Ok cur => Ok (NewPage Encode (find docs base cur (pr_Limit page + 1)) (pr_Limit page) cursorOf)
  | Err e => Err e
  end.

(** ** The client's walk *)

(** One page and the token of the next; an empty token ends the walk. *)
Fixpoint walk (next : string -> result (list T * string)) (fuel : nat) (token : string) : option (list (list T)) :=
  match fuel with
  | O => None
  | S fuel =>
      match next token with
      | Ok (items, token') => if token' =! "" then Some [items] else cons items <$> walk next fuel token'
      | Err _ => None
      end
  end.

Definition list_next (docs : list T) (base : T -> bool) (limit : Z) (token : string) : result (list T * string) :=
  match list_page docs base (mkPage token limit) with
  | Ok p => Ok (pg_Data p, pi_NextCursor (pg_Page p))
  | Err e => Err e
  end.

Lemma walk_ext (next next' : string -> result (list T * string)) n tok :
  (forall tok, next tok = next' tok) -> walk next n tok = walk next' n tok.
Proof.
  intros He. revert tok. induction n as [|n IH]; intros tok; [done|]. cbn. rewrite He.
  destruct (next' tok) as [[items tok']|e]; [|done]. by rewrite IH.
Qed.

Lemma walk_covers (next : string -> result (list T * string)) (good : string -> Prop) (rest : string -> list T)
    (size : string -> nat) (P : list T -> Prop) :
  (forall tok, good tok -> exists items tok', next tok = Ok (items, tok') /\ P items /\
     (tok' = "" /\ items = rest tok \/
      tok' <> "" /\ good tok' /\ rest tok = items ++ rest tok' /\ (size tok' < size tok)%nat)) ->
  forall n tok, good tok -> (size tok < n)%nat ->
  exists pages, walk next n tok = Some pages /\ concat pages = rest tok /\ Forall P pages.
Proof.
  intros Hnext. induction n as [|n IH]; intros tok Hg Hs; [lia|]. cbn [walk].
  destruct (Hnext tok Hg) as (items & tok' & -> & HP & [[-> Hr]|(Hne & Hg' & Hr & Hlt)]).
  - exists [items]. cbn. rewrite app_nil_r. auto.
  - rewrite bool_decide_false by done. destruct (IH tok' Hg' ltac:(lia)) as (pages & -> & Hc & HF).
    exists (items :: pages). cbn. rewrite Hc. auto.
Qed.
End Keyset.

(** ** The order *)

Lemma ltb_irrefl s : String.ltb s s = false.
Proof.
  unfold String.ltb. pose proof (String.compare_antisym s s) as H. by destruct (String.compare s s).
Qed.

Lemma ltb_asym s t : String.ltb s t = true -> String.ltb t s = false.
Proof.
  unfold String.ltb. rewrite (String.compare_antisym t s). by destruct (String.compare s t).
Qed.

Section Order.
Context {T : Type} (stamp : T -> Time) (ident : T -> string).

Definition stored_time (x : T) : Prop := stamp x mod Millisecond = 0.

Lemma from_stored x : stored_time x -> UnixMilli (stamp x) * Millisecond = stamp x.
Proof. unfold stored_time, UnixMilli. intros H. rewrite (Z.div_mod (stamp x) Millisecond) at 2 by done. lia. Qed.

(** What comes after a document is what its cursor keeps. *)
Lemma keyset_spec x y :
  stored_time x -> keyset stamp ident (cursorOf stamp ident x) y = true <-> before stamp ident x y.
Proof.
  intros Hx. unfold keyset, cursorOf, CursorOf, before; cbn [cur_CreatedAt cur_ID]. rewrite from_stored by done.
  rewrite orb_true_iff, andb_true_iff, Z.ltb_lt, Z.eqb_eq. done.
Qed.

Lemma before_irrefl x : ~ before stamp ident x x.
Proof. intros [H|[_ H]]; [lia|]. by rewrite ltb_irrefl in H. Qed.

Lemma before_asym x y : before stamp ident x y -> ~ before stamp ident y x.
Proof. intros [H|[H1 H2]] [H'|[H1' H2']]; try lia. apply ltb_asym in H2. congruence. Qed.

(** The documents of a collection, as they are sorted. *)
Record listed (docs : list T) : Prop := {
  li_sorted : StronglySorted (before stamp ident) docs;
  li_times : Forall stored_time docs;
  li_idents : Forall (fun x => ident x <> "") docs;
}.

Lemma listed_filter (P : T -> Prop) `{!forall x, Decision (P x)} docs : listed docs -> listed (filter P docs).
Proof.
  intros [Hs Ht Hi]. split.
  - induction Hs as [|x l Hs IH Hx]; [constructor|]. inversion Ht; inversion Hi; subst.
    rewrite filter_cons. destruct (decide (P x)); [|by apply IH]. constructor; [by apply IH|].
    apply Forall_forall. intros y [_ Hy]%list_elem_of_filter. rewrite Forall_forall in Hx. by apply Hx.
  - apply Forall_forall. intros y [_ Hy]%list_elem_of_filter. rewrite Forall_forall in Ht. by apply Ht.
  - apply Forall_forall. intros y [_ Hy]%list_elem_of_filter. rewrite Forall_forall in Hi. by apply Hi.
Qed.

Lemma filter_everything (P : T -> Prop) `{!forall x, Decision (P x)} l : Forall P l -> filter P l = l.
Proof. induction 1 as [|x l Hx _ IH]; [done|]. by rewrite filter_cons_True, IH. Qed.

Lemma filter_after l1 x l2 :
  listed (l1 ++ x :: l2) ->
  filter (fun y => keyset stamp ident (cursorOf stamp ident x) y = true) (l1 ++ x :: l2) = l2.
Proof.
  intros [Hs Ht _]. apply Forall_app in Ht as [_ Ht]. inversion_clear Ht as [|? ? Hx _].
  rewrite filter_app, filter_cons_False by (rewrite keyset_spec by done; apply before_irrefl).
  induction l1 as [|a l1 IH]; cbn [app] in Hs; inversion_clear Hs as [|? ? Hs' Ha].
  - cbn. apply filter_everything. eapply Forall_impl; [exact Ha|]. intros y Hy. by rewrite keyset_spec.
  - rewrite filter_cons_False; [by apply IH|]. rewrite keyset_spec by done. apply before_asym.
    rewrite Forall_forall in Ha. apply Ha, elem_of_app. right. left.
Qed.

(** Resuming after a document of the listing gives the documents after it. *)
Lemma resume docs base l1 x l2 :
  listed docs -> filter (fun y => base y = true) docs = l1 ++ x :: l2 ->
  filter (fun y => ApplyKeysetField stamp ident base (cursorOf stamp ident x) y = true) docs = l2.
Proof.
  intros Hd Hl. pose proof (listed_filter (fun y => base y = true) docs Hd) as Hl'. rewrite Hl in Hl'.
  rewrite <- (filter_after l1 x l2 Hl'), <- Hl, list_filter_filter. apply list_filter_iff. intros y.
  unfold ApplyKeysetField. cbn [cursorOf CursorOf cur_ID]. rewrite bool_decide_false.
  - rewrite andb_true_iff. tauto.
  - pose proof (li_idents _ Hl') as Hi. apply Forall_app in Hi as [_ Hi]. by inversion Hi.
Qed.
End Order.

(** ** A listing, walked page by page *)

Section Listing.
Context {T : Type} (stamp : T -> Time) (ident : T -> string) (unmarshal : string -> result Cursor).
Context (docs : list T) (base : T -> bool).

Abbreviation cursor_of := (cursorOf stamp ident).
Abbreviation kept cur := (filter (fun y => ApplyKeysetField stamp ident base cur y = true) docs).

(** What remains to be shown after a token. *)
Definition remaining (tok : string) : list T :=
  match DecodeCursor unmarshal tok with Ok cur => kept cur | Err _ => [] end.

(** The tokens of the walk: what remains is an end of the listing. *)
Definition on_the_way (tok : string) : Prop :=
  is_ok (DecodeCursor unmarshal tok) = true /\
  exists shown, filter (fun y => base y = true) docs = shown ++ remaining tok.

Lemma remaining_first : remaining "" = filter (fun y => base y = true) docs.
Proof. reflexivity. Qed.

(** The documents' cursors are plain enough for their JSON to be read back. *)
Definition readable : Prop := forall x, x ∈ docs -> unmarshal (marshal (cursor_of x)) = Ok (cursor_of x).

Lemma remaining_after l1 x l2 :
  listed stamp ident docs -> readable -> filter (fun y => base y = true) docs = l1 ++ x :: l2 ->
  DecodeCursor unmarshal (Encode (cursor_of x)) = Ok (cursor_of x) /\ remaining (Encode (cursor_of x)) = l2.
Proof.
  intros Hd Hj Hl. assert (x ∈ docs) as Hx.
  { assert (x ∈ filter (fun y => base y = true) docs) as Hin by (rewrite Hl; apply elem_of_app; right; left).
    by apply list_elem_of_filter in Hin as [_ ?]. }
  pose proof (DecodeCursor_Encode unmarshal _ (Hj x Hx)) as He. split; [exact He|].
  unfold remaining. rewrite He. by eapply resume.
Qed.

Lemma take_last {A} n (l : list A) :
  (0 < n)%nat -> (n < length l)%nat -> exists l1 x, take n l = l1 ++ [x] /\ l = l1 ++ x :: drop n l.
Proof.
  intros Hn Hl. destruct (lookup_lt_is_Some_2 l (n - 1) ltac:(lia)) as [x Hx].
  exists (take (n - 1) l), x. split.
  - rewrite <- take_S_r by done. f_equal. lia.
  - rewrite <- (take_drop_middle l (n - 1) x Hx) at 1. do 2 f_equal. f_equal. lia.
Qed.

(** One page of the walk. *)
Lemma list_next_spec limit tok :
  listed stamp ident docs -> readable -> on_the_way tok ->
  exists items tok', list_next stamp ident unmarshal docs base limit tok = Ok (items, tok') /\
    (Z.of_nat (length items) <= pr_Limit (Normalize (mkPage tok limit))) /\
    (tok' = "" /\ items = remaining tok \/
     tok' <> "" /\ on_the_way tok' /\ remaining tok = items ++ remaining tok' /\
     (length (remaining tok') < length (remaining tok))%nat).
Proof.
  intros Hd Hj [Hdec [shown Hshown]]. unfold list_next, list_page.
  pose proof (Normalize_range (mkPage tok limit)) as Hlim.
  replace (pr_Cursor (Normalize (mkPage tok limit))) with tok by (unfold Normalize; by repeat case_match).
  set (L := pr_Limit (Normalize (mkPage tok limit))) in *.
  destruct (DecodeCursor unmarshal tok) as [cur|e] eqn:Hcur; [|done].
  assert (remaining tok = kept cur) as Hrem by (unfold remaining; by rewrite Hcur). rewrite Hrem in Hshown |- *. unfold find, NewPage. cbn [pg_Data pg_Page pi_NextCursor].
  set (l := kept cur) in *. rewrite length_take.
  destruct (Z.ltb_spec L (Z.of_nat (Z.to_nat (L + 1) `min` length l))) as [Hmore|Hend].
  - rewrite take_take, Nat.min_l by lia.
    destruct (take_last (Z.to_nat L) l ltac:(lia) ltac:(lia)) as (l1 & x & Ht & Hl).
    rewrite Ht, last_snoc. eexists _, _. split; [reflexivity|]. rewrite <- Ht, length_take.
    split; [lia|]. right. rewrite Hl, app_assoc in Hshown.
    destruct (remaining_after _ _ _ Hd Hj Hshown) as [Hdec' Hrest].
    split; [apply Encode_not_empty|]. split; [|split].
    + split; [by rewrite Hdec'|]. exists ((shown ++ l1) ++ [x]). rewrite Hrest, <- app_assoc. exact Hshown.
    + by rewrite Hrest, take_drop.
    + rewrite Hrest, length_drop. lia.
  - rewrite take_ge by lia. eexists _, _. split; [reflexivity|]. split; [lia|]. by left.
Qed.
End Listing.

(** What a walk shows: the whole of a list, in pages no longer than the limit in force. *)
Definition page_size (limit : Z) : Z := pr_Limit (Normalize (mkPage "" limit)).

Definition shows {T} (n : nat) (limit : Z) (next : string -> result (list T * string)) (items : list T) : Prop :=
  exists pages, walk next n "" = Some pages /\ concat pages = items /\
    Forall (fun p => Z.of_nat (length p) <= page_size limit) pages.

Lemma Normalize_page tok limit : Normalize (mkPage tok limit) = mkPage tok (page_size limit).
Proof.
  unfold page_size, Normalize; cbn [pr_Limit pr_Cursor].
  destruct (limit <=? 0); cbn [pr_Limit pr_Cursor]; by destruct (MaxPageSize <? _).
Qed.

Lemma page_size_positive limit : 1 <= page_size limit.
Proof. apply Normalize_range. Qed.

(** A listing walked from its first page, whatever the size of the pages asked for. *)
Lemma listing_walk {T} (stamp : T -> Time) (ident : T -> string)
    (unmarshal : string -> result Cursor) (docs : list T) (base : T -> bool) (limit : Z) n :
  listed stamp ident docs -> readable stamp ident unmarshal docs -> (length docs < n)%nat ->
  shows n limit (list_next stamp ident unmarshal docs base limit) (filter (fun x => base x = true) docs).
Proof.
  intros Hd Hj Hn. unfold shows. rewrite <- (remaining_first stamp ident unmarshal docs base).
  apply (walk_covers _ (on_the_way stamp ident unmarshal docs base)
           _ (fun tok => length (remaining stamp ident unmarshal docs base tok))).
  - intros tok Hg. destruct (list_next_spec stamp ident unmarshal docs base limit tok Hd Hj Hg)
      as (items & tok' & Hnext & Hl & Hr). exists items, tok'. split; [exact Hnext|]. split; [|exact Hr].
    by rewrite Normalize_page in Hl.
  - split; [done|]. by exists [].
  - rewrite remaining_first. pose proof (length_filter (fun x => base x = true) docs). lia.
Qed.

(** ** What the conversation repositories read

    The queries of infra/database/mongodb/repositories/conversations over the documents of a
    collection, kept in the order of their sort: the inbox list and its badges, the open or last
    conversation of a contact, the idle ones, messages and events. *)

(** A clause of the filter that is only there when the value is given. *)
Definition clause (v : string) (field : string) : bool := (v =! "") || (field =! v).
Definition within (field : string) (l : list string) : bool := existsb (fun x => x =! field) l.

(** The documents of a tenant. *)
Definition tenant_clause (c : Ctx) (tenantID : string) : bool :=
  match RequireTenant c with Ok t => tenantID =! t | Err _ => false end.

Definition not_found {A} : result A := Err (NotFound "resource not found").
Definition find_one {T} (p : T -> bool) (docs : list T) : result T :=
  match List.find p docs with Some x => Ok x | None => not_found end.
Definition scoped {A} (c : Ctx) (r : result A) : result A :=
  match RequireTenant c with Ok _ => r | Err e => Err e end.

Section Queries.
Context (unmarshal : string -> result Cursor).

(** A page of a repository: tenant, cursor, then the query for one document more. *)
Definition query_page {T} (stamp : T -> Time) (ident : T -> string) (docs : list T) (c : Ctx)
    (base : T -> bool) (page : PageRequest) : result (list T) :=
  scoped c (match DecodeCursor unmarshal (pr_Cursor page) with
            | Ok cur => Ok (find stamp ident docs base cur (pr_Limit page + 1))
            | Err e => Err e
            end).

(** ** Conversations, by their last update *)

Definition closedStatuses : list Status := [StatusResolved; StatusClosed; StatusArchived].

(** Assigned to the actor, or of one of its sectors. *)
Definition visible_clause (vis : Visibility) (conv : Conversation) : bool :=
  vis_All vis || (cv_AssignedTo conv =! vis_UserID vis) || within (cv_SectorID conv) (vis_SectorIDs vis).

Definition inbox_base (c : Ctx) (f : ListFilter) (vis : Visibility) (conv : Conversation) : bool :=
  tenant_clause c (cv_TenantID conv) && clause (lf_Status f) (cv_Status conv)
  && clause (lf_SectorID f) (cv_SectorID conv) && clause (lf_QueueID f) (cv_QueueID conv)
  && clause (lf_AssignedTo f) (cv_AssignedTo conv) && clause (lf_ContactID f) (cv_ContactID conv)
  && clause (lf_Protocol f) (cv_Protocol conv) && ((lf_Tag f =! "") || within (lf_Tag f) (cv_Tags conv))
  && visible_clause vis conv.

Definition List_ (docs : list Conversation) (c : Ctx) (f : ListFilter) (vis : Visibility) (page : PageRequest)
  : result (list Conversation) :=
  query_page cv_UpdatedAt cv_ID docs c (inbox_base c f vis) page.

(** The unread badges. *)
Definition unread_of (c : Ctx) (conv : Conversation) : bool :=
  tenant_clause c (cv_TenantID conv) && (0 <? cv_UnreadCount conv).
Definition in_sectors (vis : Visibility) (conv : Conversation) : bool :=
  vis_All vis || within (cv_SectorID conv) (vis_SectorIDs vis).
Definition unread_mine (c : Ctx) (vis : Visibility) (conv : Conversation) : bool :=
  unread_of c conv && (cv_AssignedTo conv =! vis_UserID vis).
Definition unread_sector (c : Ctx) (vis : Visibility) (conv : Conversation) : bool :=
  unread_of c conv && in_sectors vis conv.
Definition unread_queue (c : Ctx) (vis : Visibility) (conv : Conversation) : bool :=
  unread_of c conv && (cv_AssignedTo conv =! "") && in_sectors vis conv.

Definition count {T} (p : T -> bool) (docs : list T) : Z := Z.of_nat (length (filter (fun x => p x = true) docs)).

Definition UnreadCounts (docs : list Conversation) (c : Ctx) (vis : Visibility) : result UnreadCounts :=
  scoped c (Ok (mkUnread (count (unread_mine c vis) docs) (count (unread_sector c vis) docs)
                  (count (unread_queue c vis) docs))).

Definition is_open (conv : Conversation) : bool := negb (within (cv_Status conv) closedStatuses).

(** The most recently updated conversation of a contact. *)
Definition FindOpenByContactChannelID (docs : list Conversation) (c : Ctx) (contactID channelID : string)
  : result Conversation :=
  scoped c (find_one (fun conv => tenant_clause c (cv_TenantID conv) && (cv_ContactID conv =! contactID)
                                  && (cv_ChannelID conv =! channelID) && is_open conv) docs).
Definition FindLastByContactChannelID (docs : list Conversation) (c : Ctx) (contactID channelID : string)
  : result Conversation :=
  scoped c (find_one (fun conv => tenant_clause c (cv_TenantID conv) && (cv_ContactID conv =! contactID)
                                  && (cv_ChannelID conv =! channelID)) docs).
Definition FindOpenByContact (docs : list Conversation) (c : Ctx) (contactID : string) : result Conversation :=
  scoped c (find_one (fun conv => tenant_clause c (cv_TenantID conv) && (cv_ContactID conv =! contactID)
                                  && is_open conv) docs).
Definition FindLastByContact (docs : list Conversation) (c : Ctx) (contactID : string) : result Conversation :=
  scoped c (find_one (fun conv => tenant_clause c (cv_TenantID conv) && (cv_ContactID conv =! contactID)) docs).

(** The idle ones, over the documents by their last message, the oldest first. *)
Definition ListInactiveOpen (by_message : list Conversation) (c : Ctx) (idleBefore : Time) (limit : Z)
  : result (list Conversation) :=
  let limit := if limit <=? 0 then 500 else limit in
  scoped c (Ok (take (Z.to_nat limit)
    (filter (fun conv => tenant_clause c (cv_TenantID conv) && is_open conv
                         && (cv_LastMessageAt conv <=? idleBefore) = true) by_message))).

(** ** Messages and events, the newest first *)

Definition message_base (c : Ctx) (conversationID : string) (m : Message) : bool :=
  tenant_clause c (ms_TenantID m) && (ms_ConversationID m =! conversationID)
  && match ms_DeletedAt m with None => true | Some _ => false end.

Definition ListByConversation (docs : list Message) (c : Ctx) (conversationID : string) (page : PageRequest)
  : result (list Message) :=
  query_page ms_CreatedAt ms_ID docs c (message_base c conversationID) page.
Definition LatestByConversation (docs : list Message) (c : Ctx) (conversationID : string) : result Message :=
  scoped c (find_one (message_base c conversationID) docs).
Definition FindByExternalMessageID (docs : list Message) (c : Ctx) (conversationID externalID : string) : result Message :=
  scoped c (find_one (fun m => message_base c conversationID m && (ms_ExternalMessageID m =! externalID)) docs).

Definition EventsByConversation (docs : list ConversationEvent) (c : Ctx) (conversationID : string) (page : PageRequest)
  : result (list ConversationEvent) :=
  query_page ev_CreatedAt ev_ID docs c
    (fun e => tenant_clause c (ev_TenantID e) && (ev_ConversationID e =! conversationID)) page.

(** The counter of protocols: one document for a tenant and a year. *)
Definition NextSequence (counters : gmap string Z) (tenantID : string) (year : Z) : Z * gmap string Z :=
  let id := tenantID +:+ ":" +:+ pretty year in
  let seq := default 0 (counters !! id) + 1 in
  (seq, <[id := seq]> counters).
End Queries.
