(* ===== verification/Ports.v ===== *)
(** * Ports shared by the services

    The interfaces of domain/shared and of domain/conversations/repository, one
    constructor per method: what a service can do to the world. A component's own
    signature (its [Service] struct) embeds these. [ConvStore] is the contract the
    conversations repository offers its clients. *)
From S2P Require Import Prelude AppError Shared ConvEntity Messages ConvContracts Prog.

Record NotifyInput := mkNotify {
  nt_TenantID : string; nt_UserID : string; nt_Type : string; nt_Title : string;
  nt_Body : string; nt_Link : string }.

Record AuditEntry := mkAudit {
  au_Action : string; au_ResourceType : string; au_ResourceID : string;
  au_Data : list (string * value) }.

Record PublishEvent := mkPublishEvent {
  pe_Topic : string; pe_Event : string; pe_Data : Payload }.

(** The handle [Acquire] returns as its [release] closure. *)
Definition Lease := string.

(** Clock, identifiers and the side-effect ports. [SystemNow] is a direct
    [time.Now()]. [EmitLazy] is two calls: the dispatcher's decision that a
    subscription matches, and, only then, the delivery of the built payload. *)
Inductive Infra : Type -> Type :=
| Now : Infra Time
| SystemNow : Infra Time
| NewID : Infra string
| Publish (topic event : string) (data : Payload) : Infra (result unit)
| PublishBatch (events : list PublishEvent) : Infra (result unit)
| WebhookMatches (tenantID event sectorID : string) : Infra bool
| WebhookDeliver (tenantID event sectorID : string) (payload : Payload) : Infra unit
| EmitRuleEvent (tenantID event conversationID : string) (payload : Payload) : Infra unit
| Notify (n : NotifyInput) : Infra unit
| AuditRecord (e : AuditEntry) : Infra (result unit)
| QueueChanged (sectorID queueID : string) : Infra unit
| Acquire (key : string) (ttl : Z) : Infra (result (Lease * bool))
| Release (l : Lease) : Infra unit.

(** [repository.ConversationRepository]. *)
Inductive ConvRepo : Type -> Type :=
| ConvCreate (c : Conversation) : ConvRepo (result unit)
| ConvUpdate (c : Conversation) : ConvRepo (result unit)
| ConvFindByID (id : string) : ConvRepo (result Conversation)
| ConvFindByIDs (ids : list string) : ConvRepo (result (list Conversation))
| ConvList (f : ListFilter) (v : Visibility) (p : PageRequest) : ConvRepo (result (list Conversation))
| ConvUnreadCounts (v : Visibility) : ConvRepo (result UnreadCounts)
| ConvListInactiveOpen (idleBefore : Time) (limit : Z) : ConvRepo (result (list Conversation)).

(** [repository.EventRepository]. *)
Inductive EventRepo : Type -> Type :=
| EventCreate (e : ConversationEvent) : EventRepo (result unit)
| EventListByConversation (conversationID : string) (p : PageRequest)
    : EventRepo (result (list ConversationEvent)).

(** How a component's signature embeds a shared one. *)
Class Embed (P E : Type -> Type) := embed : forall R, P R -> E R.
Arguments embed {P E _} {R} _.

Definition ask {P E R} `{Embed P E} (c : Ctx) (p : P R) : prog Ctx E R := call c (embed p).

(** ** The writes of the conversations repository *)

(** What [Update] stores: the [$set] fields of the new value over the stored
    document, whose identity, contact, channel and protocol never change. *)
Definition stored_update (old new : Conversation) : Conversation :=
  mkConversation (cv_ID old) (cv_TenantID old) (cv_ContactID old) (cv_Channel old)
    (cv_ChannelID old) (cv_SectorID new) (cv_QueueID new) (cv_Status new) (cv_AssignedTo new)
    (cv_Priority new) (cv_Protocol old) (cv_Tags new) (cv_CustomAttributes new)
    (cv_LastMessageAt new) (cv_LastMessage new) (cv_LastCustomerMessageAt new)
    (cv_UnreadCount new) (cv_LastReadAt new) (cv_CreatedAt old) (cv_UpdatedAt new)
    (cv_ClosedAt new).

Lemma stored_update_id c : stored_update c c = c.
Proof. by destruct c. Qed.

Lemma stored_update_twice a b c : stored_update (stored_update a b) c = stored_update a c.
Proof. done. Qed.

Definition is_conv_write {R} (e : ConvRepo R) : bool :=
  match e with ConvCreate _ | ConvUpdate _ => true | _ => false end.

(** ** The contract of the conversations repository

    Documents are kept per (tenant, id). A read answers from the tenant of its
    context; it fails with not_found only for an absent document, and may fail
    otherwise. A write that reports success is applied; one that reports an error
    may or may not have been. *)
Abbreviation convs_view :=
  (@gmap (string * string) (prod_eq_dec : EqDecision (string * string)) prod_countable Conversation).

Class ConvStore {S} (h : handler Ctx ConvRepo S) (view : S -> convs_view) : Prop := {
  store_keys : forall s t id c, view s !! (t, id) = Some c -> cv_ID c = id /\ cv_TenantID c = t;
  store_read : forall R c (e : ConvRepo R) s, is_conv_write e = false -> view (h R c e s).2 = view s;
  store_find : forall c id s,
    match (h _ c (ConvFindByID id) s).1 with
    | Ok conv => exists t, RequireTenant c = Ok t /\ view s !! (t, id) = Some conv
    | Err e => is_not_found e = true -> forall t, RequireTenant c = Ok t -> view s !! (t, id) = None
    end;
  store_idle : forall c before limit s,
    match (h _ c (ConvListInactiveOpen before limit) s).1 with
    | Ok l => exists t, RequireTenant c = Ok t /\ NoDup (map cv_ID l) /\
        Forall (fun conv => view s !! (t, cv_ID conv) = Some conv /\
                            IsClosed (cv_Status conv) = false) l
    | Err _ => True
    end;
  store_update : forall c conv s,
    match h _ c (ConvUpdate conv) s with
    | (Ok _, s') => exists t old, RequireTenant c = Ok t /\ view s !! (t, cv_ID conv) = Some old
        /\ view s' = <[(t, cv_ID conv) := stored_update old conv]> (view s)
    | (Err _, s') => view s' = view s \/
        exists t old, RequireTenant c = Ok t /\ view s !! (t, cv_ID conv) = Some old
        /\ view s' = <[(t, cv_ID conv) := stored_update old conv]> (view s)
    end;
  store_create : forall c conv s,
    match h _ c (ConvCreate conv) s with
    | (Ok _, s') => (exists t, RequireTenant c = Ok t)
        /\ view s !! (cv_TenantID conv, cv_ID conv) = None
        /\ view s' = <[(cv_TenantID conv, cv_ID conv) := conv]> (view s)
    | (Err _, s') => view s' = view s \/
        view s !! (cv_TenantID conv, cv_ID conv) = None
        /\ view s' = <[(cv_TenantID conv, cv_ID conv) := conv]> (view s)
    end;
}.
