(* ===== verification/ConvBase.v ===== *)
(** * Conversations service: wiring and internals
    (domain/conversations/service/conversation_service.go)

    The ports of the service's struct, and the internals its operations share:
    visibility, timeline events, realtime fan-out, webhook emission, attachment
    hydration and [persistMessage]. *)
From S2P Require Import Prelude GoStrings AppError Authz Shared ConvEntity Messages ConvContracts.
From S2P Require Import Prog Ports.

(** ** Ports *)

Record Sector := mkSector {
  sec_ID : string; sec_TenantID : string; sec_Name : string; sec_Description : string;
  sec_Enabled : bool; sec_CreatedAt : Time; sec_UpdatedAt : Time }.

(** The WhatsApp template mirror of a channel connection. *)
Record WhatsAppTemplateVariable := mkVariable {
  tv_Key : string; tv_Label : string; tv_Example : string }.
Record WhatsAppTemplateBody := mkBody {
  tb_Text : string; tb_Variables : list WhatsAppTemplateVariable }.
Record WhatsAppTemplate := mkTemplate {
  wt_ID : string; wt_Name : string; wt_Language : string; wt_Category : string;
  wt_Body : WhatsAppTemplateBody }.

Fixpoint FindTemplate (templates : list WhatsAppTemplate) (id : string)
  : option WhatsAppTemplate :=
  match templates with
  | [] => None
  | t :: ts => if wt_ID t =! id then Some t else FindTemplate ts id
  end.

(** The fields of [ChannelConnection] the service reads. *)
Record ChannelConnection := mkChannel {
  ch_ID : string; ch_TenantID : string; ch_Type : string;
  ch_WhatsAppTemplates : list WhatsAppTemplate }.

Record DisplayCard := mkCard { dc_Name : string; dc_AvatarURL : string }.

(** [repository.MessageRepository]. *)
Inductive MsgRepo : Type -> Type :=
| MsgCreate (m : Message) : MsgRepo (result unit)
| MsgUpdate (m : Message) : MsgRepo (result unit)
| MsgFindByID (id : string) : MsgRepo (result Message)
| MsgListByConversation (conversationID : string) (p : PageRequest) : MsgRepo (result (list Message))
| MsgLatestByConversation (conversationID : string) : MsgRepo (result Message).

(** [contracts.SLAHook] and [contracts.CSATTrigger]. *)
Inductive Hook : Type -> Type :=
| OnConversationCreated (c : Conversation) : Hook unit
| OnFirstResponse (c : Conversation) (at_ : Time) : Hook unit
| OnResolved (c : Conversation) (at_ : Time) : Hook unit
| OnConversationClosed (c : Conversation) : Hook unit.

Inductive ConvPort : Type -> Type :=
| PInfra {R} (e : Infra R) : ConvPort R
| PConvs {R} (e : ConvRepo R) : ConvPort R
| PEvents {R} (e : EventRepo R) : ConvPort R
| PMsgs {R} (e : MsgRepo R) : ConvPort R
| PHook {R} (e : Hook R) : ConvPort R
| SectorFindByID (id : string) : ConvPort (result Sector)
| ChannelFindByID (id : string) : ConvPort (result ChannelConnection)
| IntegrationMediaURL (attachmentID : string) : ConvPort (result string)
| ResolveTags (refs : list string) (strict : bool) : ConvPort (result (list string))
| RequiresNote (reasonID : string) : ConvPort (result bool)
| HydrateAttachments (ids : list string) : ConvPort (result (gmap string Attachment))
| ValidateMessageAttachments (ids : list string) : ConvPort (result unit)
| ContactCardsOf (ids : list string) : ConvPort (result (gmap string DisplayCard))
| AgentCardsOf (ids : list string) : ConvPort (result (gmap string DisplayCard))
| ValidateCustomAttributes (appliesTo : string) (attrs : list (string * value))
    : ConvPort (result unit)
| EnrichContact (contactID : string) : ConvPort (option WebhookContact)
| EnrichAgent (userID : string) : ConvPort (option WebhookAgent).

#[export] Instance embed_infra : Embed Infra ConvPort := @PInfra.
#[export] Instance embed_convs : Embed ConvRepo ConvPort := @PConvs.
#[export] Instance embed_events : Embed EventRepo ConvPort := @PEvents.
#[export] Instance embed_msgs : Embed MsgRepo ConvPort := @PMsgs.
#[export] Instance embed_hook : Embed Hook ConvPort := @PHook.
#[export] Instance embed_self : Embed ConvPort ConvPort := fun R e => e.

Abbreviation M := (prog Ctx ConvPort).

(** Which optional dependencies are wired ([nil] otherwise), whether the publisher
    batches, and the JSON decoding of an interactive menu. The dependencies that
    default to a no-op are always called. *)
Record Service := mkService {
  has_media : bool;
  has_ruleSink : bool;
  has_tags : bool;
  has_closeReasons : bool;
  has_attachments : bool;
  has_contacts : bool;
  has_agents : bool;
  has_enricher : bool;
  batch_publisher : bool;
  json_Interactive : string -> option Interactive;
}.

(** ** Pure helpers *)

(** [dedupeField]: the non-empty values of a field, in order, once each. *)
Definition dedupeField (conversations : list Conversation) (field : Conversation -> string)
  : list string :=
  dedupe_from (fun v => v <>! "") ∅ (map field conversations).

Definition applyTagChanges (current add remove : list string) : list string :=
  let removeSet : gset string := list_to_set remove in
  dedupe_from (fun t => (t <>! "") && negb (bool_decide (t ∈ removeSet))) ∅ (current ++ add).

Definition dedupe (l : list string) : list string := dedupe_from (fun s => s <>! "") ∅ l.

Definition attachmentIDs (atts : list Attachment) : list string :=
  filter (fun i => i <> "") (map att_ID atts).

Definition attachmentIDsOnly (atts : list Attachment) : list Attachment :=
  map (fun a => mkAttachment (att_ID a) "" "" "" 0) atts.

Definition deriveMessageType (m : Message) : MessageType :=
  match ms_Attachments m with
  | [] => ms_MessageType m
  | a :: _ =>
      if negb (blank (ms_Text m)) then ms_MessageType m
      else if (ms_MessageType m =! MessageTemplate) || (ms_MessageType m =! MessageSystem)
      then ms_MessageType m
      else MessageTypeForContentType (att_ContentType a)
  end.

Definition lifecycleEventFor (status : Status) : string :=
  if status =! StatusResolved then RealtimeConversationResolved
  else if (status =! StatusClosed) || (status =! StatusArchived)
  then RealtimeConversationClosed
  else "".

Definition visibleTo (conv : Conversation) (ac : AuthContext) : bool :=
  if ac_SectorScope ac =! ScopeAll then true
  else if (cv_AssignedTo conv <>! "") && (cv_AssignedTo conv =! ac_UserID ac) then true
  else existsb (fun sid => (sid =! cv_SectorID conv) && (sid <>! "")) (ac_SectorIDs ac).

Definition canManageMessage (ac : AuthContext) (msg : Message) : bool :=
  if (ms_SenderID msg <>! "") && (ms_SenderID msg =! ac_UserID ac) then true
  else Has ac MessageDelete.

Section Internals.
Context (s : Service).

Definition fail {A} (e : error) : M (result A) := Ret (Err e).
Definition ok {A} (a : A) : M (result A) := Ret (Ok a).

Definition requireTenant (c : Ctx) : M (result string) := Ret (RequireTenant c).

(** [visibility]. *)
Definition visibility (c : Ctx) : result Visibility :=
  match FromContext c with
  | None => Err (Unauthorized "authentication required")
  | Some ac =>
      Ok (mkVisibility (ac_SectorScope ac =! ScopeAll) (ac_SectorIDs ac) (ac_UserID ac))
  end.

(** [loadVisible]. *)
Definition loadVisible (c : Ctx) (id : string) : M (result (Conversation * AuthContext)) :=
  try! _ := requireTenant c in
  match FromContext c with
  | None => fail (Unauthorized "authentication required")
  | Some ac =>
      try! conv := ask c (ConvFindByID id) in
      if visibleTo conv ac then ok (conv, ac)
      else fail (NotFound "conversation not found")
  end.

(** [recordEvent]: a failure of the timeline is swallowed. *)
Definition recordEvent (c : Ctx) (conv : Conversation) (eventType : string)
    (data : list (string * value)) : M unit :=
  let '(actorType, actorID) :=
    match FromContext c with
    | Some ac => if ac_UserID ac <>! "" then (ActorAgent, ac_UserID ac) else (ActorSystem, "")
    | None => (ActorSystem, "")
    end in
  let! id := ask c NewID in
  let! now := ask c Now in
  do! ask c (EventCreate
        (mkEvent id (cv_TenantID conv) (cv_ID conv) eventType actorType actorID data now)) in
  Ret tt.

Definition conversationPayload (c : Ctx) (conv : Conversation) : M Payload :=
  let! now := ask c SystemNow in
  Ret (PConversation (NewConversationPayload conv now)).

(** Publishes [event] to the conversation room and then to its inbox rooms. *)
Definition publishRooms (c : Ctx) (conv : Conversation) (event : string) (payload : Payload)
  : M unit :=
  do! ask c (Publish (TopicConversation (cv_TenantID conv) (cv_ID conv)) event payload) in
  for_each (InboxTopicsFor (cv_TenantID conv) (cv_SectorID conv) (cv_AssignedTo conv))
    (fun topic => do! ask c (Publish topic event payload) in Ret tt).

(** [publishConversation]. *)
Definition publishConversation (c : Ctx) (conv : Conversation) : M unit :=
  let! payload := conversationPayload c conv in
  publishRooms c conv RealtimeConversationUpdated payload.

(** [emitRuleEvent]. *)
Definition emitRuleEvent (c : Ctx) (conv : Conversation) (event : string) (payload : Payload)
  : M unit :=
  when! has_ruleSink s do ask c (EmitRuleEvent (cv_TenantID conv) event (cv_ID conv) payload).

(** [publishLifecycle]. *)
Definition publishLifecycle (c : Ctx) (conv : Conversation) (event : string) : M unit :=
  if event =! "" then Ret tt
  else
    let! payload := conversationPayload c conv in
    do! publishRooms c conv event payload in
    emitRuleEvent c conv event payload.

(** [integrationContact], [integrationAgent]. *)
Definition integrationContact (c : Ctx) (contactID : string) : M (option WebhookContact) :=
  if negb (has_enricher s) || (contactID =! "") then Ret None
  else ask c (EnrichContact contactID).

Definition integrationAgent (c : Ctx) (userID : string) : M (option WebhookAgent) :=
  if negb (has_enricher s) || (userID =! "") then Ret None
  else ask c (EnrichAgent userID).

(** [s.webhooks.EmitLazy]: [build] runs only when a subscription matches. *)
Definition EmitLazy (c : Ctx) (tenantID event sectorID : string) (build : M Payload) : M unit :=
  let! matches := ask c (WebhookMatches tenantID event sectorID) in
  if matches : bool then
    let! payload := build in
    ask c (WebhookDeliver tenantID event sectorID payload)
  else Ret tt.

(** [resolveIntegrationMedia]. *)
Definition resolveIntegrationMedia (c : Ctx) (msg : Message) : M (gmap string string) :=
  if negb (has_media s) || (length (ms_Attachments msg) =? 0)%nat then Ret ∅
  else
    fold_prog (ms_Attachments msg) ∅ (fun out a =>
      if att_ID a =! "" then Ret out
      else
        let! r := ask c (IntegrationMediaURL (att_ID a)) in
        match r with
        | Ok u => if u <>! "" then Ret (<[att_ID a := u]> out) else Ret out
        | Err _ => Ret out
        end).

(** [emitMessageWebhook]. *)
Definition emitMessageWebhook (c : Ctx) (conv : Conversation) (msg : Message) (event : string)
  : M unit :=
  EmitLazy c (cv_TenantID conv) event (cv_SectorID conv)
    (let! urls := resolveIntegrationMedia c msg in
     let! contact := integrationContact c (cv_ContactID conv) in
     let! agent := if ms_SenderType msg =! SenderAgent
                   then integrationAgent c (ms_SenderID msg) else Ret None in
     Ret (PMessage (enrich (NewIntegrationMessagePayload msg urls) contact agent
                      (Some (mkConversationRef (cv_CustomAttributes conv)))))).

(** [emitConversationWebhook]. *)
Definition emitConversationWebhook (c : Ctx) (conv : Conversation) (event : string) : M unit :=
  EmitLazy c (cv_TenantID conv) event (cv_SectorID conv)
    (let! contact := integrationContact c (cv_ContactID conv) in
     let! agent := integrationAgent c (cv_AssignedTo conv) in
     let! now := ask c SystemNow in
     Ret (PIntegrationConversation
            (NewIntegrationConversationPayload conv contact agent now))).

(** One message of [hydrateMessages]: known attachments are replaced, then the
    message type is derived. *)
Definition hydrateOne (resolved : gmap string Attachment) (m : Message) : Message :=
  let m := set_msg_Attachments
             (map (fun a => default a (resolved !! att_ID a)) (ms_Attachments m)) m in
  set_msg_MessageType (deriveMessageType m) m.

(** [hydrateMessages]: in place there, returned here. *)
Definition hydrateMessages (c : Ctx) (msgs : list Message) : M (list Message) :=
  if negb (has_attachments s) || (length msgs =? 0)%nat then Ret msgs
  else
    let ids := attachmentIDs (mjoin (map ms_Attachments msgs)) in
    if (length ids =? 0)%nat then Ret msgs
    else
      let! r := ask c (HydrateAttachments ids) in
      match r with
      | Err _ => Ret msgs
      | Ok resolved =>
          if bool_decide (resolved = ∅) then Ret msgs
          else Ret (map (hydrateOne resolved) msgs)
      end.

Definition hydrateMessage (c : Ctx) (m : Message) : M Message :=
  let! l := hydrateMessages c [m] in
  Ret (match l with m' :: _ => m' | [] => m end).

(** [shared.PublishAll]. *)
Definition PublishAll (c : Ctx) (events : list PublishEvent) : M unit :=
  if (length events =? 0)%nat then Ret tt
  else if batch_publisher s then do! ask c (PublishBatch events) in Ret tt
  else for_each events (fun e =>
         do! ask c (Publish (pe_Topic e) (pe_Event e) (pe_Data e)) in Ret tt).

(** The activity bump of [persistMessage] on the conversation. *)
Definition bumpActivity (msg : Message) (conv : Conversation) : Conversation :=
  set_UpdatedAt (ms_CreatedAt msg)
    (set_LastMessage (NewLastMessageSnapshot (Some msg))
       (set_LastMessageAt (ms_CreatedAt msg) conv)).

(** [persistMessage]. The stored message carries attachment ids only; the
    returned one, and the payloads, the hydrated attachments. *)
Definition persistMessage (c : Ctx) (conv : Conversation) (msg : Message) (eventType : string)
  : M (result (Message * Conversation)) :=
  let! msg := hydrateMessage c msg in
  let stored := set_msg_Attachments (attachmentIDsOnly (ms_Attachments msg)) msg in
  try! _ := ask c (MsgCreate stored) in
  let conv := bumpActivity msg conv in
  try! _ := ask c (ConvUpdate conv) in
  do! recordEvent c conv eventType [("message_id", VStr (ms_ID msg))] in
  let! convPayload := conversationPayload c conv in
  let room := TopicConversation (cv_TenantID conv) (cv_ID conv) in
  do! PublishAll c
    ([mkPublishEvent room RealtimeMessageCreated (PMessage (NewMessagePayload msg));
      mkPublishEvent room RealtimeConversationUpdated convPayload] ++
     map (fun topic => mkPublishEvent topic RealtimeConversationUpdated convPayload)
       (InboxTopicsFor (cv_TenantID conv) (cv_SectorID conv) (cv_AssignedTo conv))) in
  do! (if eventType =! EventMessageCreated then
         do! emitMessageWebhook c conv msg EventMessageCreated in
         let ruleCtx := if ms_SenderType msg =! SenderAutomation
                        then WithRuleOrigin c OriginAutomation else c in
         emitRuleEvent ruleCtx conv EventMessageCreated (PMessage (NewMessagePayload msg))
       else Ret tt) in
  ok (msg, conv).
End Internals.

(** ** Hydration *)

(** Hydration only touches attachments and the derived type. *)
Definition same_message (m m' : Message) : Prop :=
  exists atts mt, m' = set_msg_MessageType mt (set_msg_Attachments atts m).

Lemma same_message_refl m : same_message m m.
Proof. exists (ms_Attachments m), (ms_MessageType m). by destruct m. Qed.

Lemma hydrateMessages_returns s c l :
  returns (Forall2 same_message l) (hydrateMessages s c l).
Proof.
  assert (Forall2 same_message l l) as Hsame
    by (apply Forall_Forall2_diag, Forall_true; intros m; apply same_message_refl).
  unfold hydrateMessages. do 2 (case_match; [done|]). cbn. intros r. do 2 (case_match; try done).
  cbn. apply Forall2_fmap_r, Forall_Forall2_diag, Forall_true. intros m. eexists _, _. done.
Qed.

Lemma hydrateMessage_returns s c m : returns (same_message m) (hydrateMessage s c m).
Proof.
  eapply returns_bind; [apply hydrateMessages_returns|]. intros l Hl. cbn.
  by apply Forall2_cons_inv_l in Hl as (m' & l' & Hm & _ & ->).
Qed.

(** Tag changes: a tag is on the conversation afterwards iff it is not removed and was
    there or is added; the order is kept, no tag is repeated, and the same change
    applied again changes nothing. *)
Theorem applyTagChanges_spec (current add remove : list string) :
  let out := applyTagChanges current add remove in
  (forall x, x ∈ out <-> x <> "" /\ x ∉ remove /\ (x ∈ current \/ x ∈ add))
  /\ NoDup out
  /\ out `sublist_of` current ++ add
  /\ applyTagChanges out add remove = out.
Proof.
  cbn zeta.
  assert (forall x, x ∈ applyTagChanges current add remove <->
            x <> "" /\ x ∉ remove /\ (x ∈ current \/ x ∈ add)) as Hin.
  { intros x. unfold applyTagChanges. rewrite dedupe_from_elem, elem_of_app, andb_true_iff.
    rewrite !negb_true_iff, !bool_decide_eq_false, elem_of_list_to_set. set_solver. }
  assert (NoDup (applyTagChanges current add remove)) as Hnd by apply dedupe_from_NoDup.
  split_and!; [exact Hin|exact Hnd|apply dedupe_from_sublist|].
  set (out := applyTagChanges current add remove) in *.
  unfold applyTagChanges at 1. rewrite dedupe_from_app.
  - rewrite dedupe_from_nil; [by rewrite app_nil_r|]. intros x Hx.
    destruct (decide (x = "" \/ x ∈ remove)) as [Hd|Hd]; [left|right].
    + apply andb_false_iff. rewrite !negb_false_iff, !bool_decide_eq_true, elem_of_list_to_set.
      set_solver.
    + apply elem_of_union_l, elem_of_list_to_set, Hin. set_solver.
  - exact Hnd.
  - apply Forall_forall. intros x (? & ? & _)%Hin. apply andb_true_iff.
    rewrite !negb_true_iff, !bool_decide_eq_false, elem_of_list_to_set. done.
  - set_solver.
Qed.
