(* ===== verification/ConvMessaging.v ===== *)
(** * Conversations service: messages
    (domain/conversations/service/conversation_service.go, automation_actions.go)

    Sending, notes, edits, deletions, delivery receipts and listings. *)
From S2P Require Import Prelude GoStrings AppError Authz Shared ConvEntity Messages ConvContracts.
From S2P Require Import Prog Ports ConvBase.

Section Messaging.
Context (s : Service).

(** ** Templates *)

(** The declared variables left unfilled, and the params that are not declared. *)
Definition template_param_errors (vars : list WhatsAppTemplateVariable)
    (params : gmap string string) : gmap string value :=
  let missing :=
    fold_left (fun v va =>
        if (match params !! tv_Key va with None => true | Some p => blank p end)
        then <["template.params." +:+ tv_Key va := VStr "is required"]> v else v)
      vars ∅ in
  let declared : gset string := list_to_set (map tv_Key vars) in
  map_fold (fun k _ v =>
      if bool_decide (k ∈ declared) then v
      else <["template.params." +:+ k := VStr "is not a variable of this template"]> v)
    missing params.

(** The display text: each placeholder replaced, in the declared order. *)
Definition template_display (body : WhatsAppTemplateBody) (params : gmap string string)
  : string :=
  fold_left (fun display va =>
      replace_all display ("{{" +:+ tv_Key va +:+ "}}") (default "" (params !! tv_Key va)))
    (tb_Variables body) (tb_Text body).

(** [resolveTemplate]. *)
Definition resolveTemplate (c : Ctx) (conv : Conversation) (sel : option SendTemplate)
  : M (result (string * TemplatePayload)) :=
  let required := WithDetails (detail "template.template_id" "is required")
                    (Validation "template is required for a template message") in
  match sel with
  | None => fail required
  | Some sel =>
      if blank (st_TemplateID sel) then fail required
      else if cv_ChannelID conv =! "" then
        fail (Validation "conversation has no channel to resolve the template against")
      else
        try! conn := ask c (ChannelFindByID (cv_ChannelID conv)) in
        match FindTemplate (ch_WhatsAppTemplates conn) (st_TemplateID sel) with
        | None =>
            fail (WithDetails (detail "template.template_id" "not found on this channel")
                    (Validation "template not available on this channel"))
        | Some tmpl =>
            let v := template_param_errors (tb_Variables (wt_Body tmpl)) (st_Params sel) in
            if bool_decide (v <> ∅) then
              fail (WithDetails v (Validation "invalid template params"))
            else
              ok (template_display (wt_Body tmpl) (st_Params sel),
                  mkTemplatePayload (wt_ID tmpl) (st_Params sel))
        end
  end.

(** ** SendMessage *)

(** The payload an outbound message needs, per kind: the text to store and the
    template payload, or the refusal. *)
Definition sendPayload (c : Ctx) (conv : Conversation) (mtype : MessageType) (cmd : SendMessage)
  : M (result (string * option TemplatePayload)) :=
  let text := sm_Text cmd in
  if mtype =! MessageTemplate then
    try! r := resolveTemplate c conv (sm_Template cmd) in
    ok (r.1, Some r.2)
  else if mtype =! MessageContact then
    let msg := ValidateContacts (sm_Contacts cmd) in
    if msg <>! "" then fail (WithDetails (detail "contacts" msg) (Validation msg))
    else ok (text, None)
  else if mtype =! MessageLocation then
    let msg := Location_Validate (sm_Location cmd) in
    if msg <>! "" then fail (WithDetails (detail "location" msg) (Validation msg))
    else ok (text, None)
  else if mtype =! MessageInteractive then
    let msg := Interactive_Validate (sm_Interactive cmd) in
    if msg <>! "" then fail (WithDetails (detail "interactive" msg) (Validation msg))
    else
      ok (if blank text then
            match sm_Interactive cmd with Some iv => iv_Body iv | None => text end
          else text, None)
  else if blank text && (length (sm_Attachments cmd) =? 0)%nat then
    fail (Validation "message text or attachments required")
  else if has_attachments s && negb (length (sm_Attachments cmd) =? 0)%nat then
    try! _ := ask c (ValidateMessageAttachments (attachmentIDs (sm_Attachments cmd))) in
    ok (text, None)
  else ok (text, None).

Definition SendMessage_ (c : Ctx) (conversationID : string) (cmd : SendMessage)
  : M (result Message) :=
  try! ca := loadVisible c conversationID in
  let '(conv, ac) := ca in
  if IsClosed (cv_Status conv) then fail (Conflict "conversation is closed")
  else
    let mtype := if sm_MessageType cmd =! "" then MessageText else sm_MessageType cmd in
    if negb (MessageType_Valid mtype) then fail (Validation "invalid message_type")
    else if (cv_Channel conv <>! ChannelTypeWhatsApp) && (mtype =! MessageInteractive) then
      fail (Validation "interactive messages are only supported on WhatsApp channels")
    else if (cv_Channel conv <>! ChannelTypeWhatsApp) && (mtype =! MessageTemplate) then
      fail (Validation "templates are only supported on WhatsApp channels")
    else
      try! p := sendPayload c conv mtype cmd in
      let '(text, templatePayload) := p in
      let! now := ask c Now in
      let! id := ask c NewID in
      let msg :=
        mkMessage id (cv_TenantID conv) (cv_ID conv) SenderAgent (ac_UserID ac)
          DirectionOutbound mtype text (sm_Attachments cmd) templatePayload
          (sm_Contacts cmd) (sm_Location cmd) (sm_Interactive cmd) None None
          (sm_Metadata cmd) now DeliveryPending "" "" None None None None in
      try! sc := persistMessage s c conv msg EventMessageCreated in
      let '(saved, conv) := sc in
      do! ask c (OnFirstResponse conv (ms_CreatedAt saved)) in
      ok saved.

(** ** AddInternalNote *)

Definition AddInternalNote_ (c : Ctx) (conversationID : string) (cmd : AddInternalNote)
  : M (result Message) :=
  try! ca := loadVisible c conversationID in
  let '(conv, ac) := ca in
  if blank (an_Text cmd) then fail (Validation "note text is required")
  else
    let! now := ask c Now in
    let! id := ask c NewID in
    let msg := newMessage id (cv_TenantID conv) (cv_ID conv) SenderAgent (ac_UserID ac)
                 DirectionInternal MessageText (an_Text cmd) [] now DeliveryNone in
    try! sc := persistMessage s c conv msg EventInternalNoteAdded in
    let '(saved, conv) := sc in
    do! for_each (an_MentionUserIDs cmd) (fun uid =>
          if (uid =! "") || (uid =! ac_UserID ac) then Ret tt
          else ask c (Notify (mkNotify (cv_TenantID conv) uid "mention.internal_note"
                  "You were mentioned in an internal note" ""
                  ("/conversations/" +:+ cv_ID conv)))) in
    ok saved.

(** ** System and automation messages *)

Definition SendSystemMessage (c : Ctx) (conversationID text : string) : M (result Message) :=
  try! _ := requireTenant c in
  try! conv := ask c (ConvFindByID conversationID) in
  if blank text then fail (Validation "message text is required")
  else
    let! now := ask c Now in
    let! id := ask c NewID in
    let msg := newMessage id (cv_TenantID conv) (cv_ID conv) SenderSystem ""
                 DirectionOutbound MessageText text [] now DeliveryPending in
    try! sc := persistMessage s c conv msg EventMessageCreated in
    ok sc.1.

Definition SendAutomationMessage (c : Ctx) (conversationID ruleID text : string)
  : M (result unit) :=
  try! _ := requireTenant c in
  try! conv := ask c (ConvFindByID conversationID) in
  if blank text then fail (Validation "message text is required")
  else
    let! now := ask c Now in
    let! id := ask c NewID in
    let msg := newMessage id (cv_TenantID conv) (cv_ID conv) SenderAutomation ruleID
                 DirectionOutbound MessageText text [] now DeliveryPending in
    try! _ := persistMessage s c conv msg EventMessageCreated in
    ok tt.

Definition SendAutomationAttachment (c : Ctx) (conversationID ruleID attachmentID : string)
  : M (result unit) :=
  try! _ := requireTenant c in
  if blank attachmentID then fail (Validation "attachment_id is required")
  else
    try! conv := ask c (ConvFindByID conversationID) in
    try! _ :=
      (if has_attachments s then
         let! r := ask c (HydrateAttachments [attachmentID]) in
         match r with
         | Ok resolved =>
             if bool_decide (resolved = ∅) then fail (NotFound "attachment not found") else ok tt
         | Err _ => fail (NotFound "attachment not found")
         end
       else ok tt) in
    let! now := ask c Now in
    let! id := ask c NewID in
    let msg := newMessage id (cv_TenantID conv) (cv_ID conv) SenderAutomation ruleID
                 DirectionOutbound MessageFile "" [mkAttachment attachmentID "" "" "" 0]
                 now DeliveryPending in
    try! _ := persistMessage s c conv msg EventMessageCreated in
    ok tt.

Definition SendAutomationInteractive (c : Ctx) (conversationID ruleID interactiveJSON : string)
  : M (result unit) :=
  try! _ := requireTenant c in
  if blank interactiveJSON then fail (Validation "interactive is required")
  else
    match json_Interactive s interactiveJSON with
    | None => fail (Validation "interactive must be a valid JSON object")
    | Some iv =>
        let msg := Interactive_Validate (Some iv) in
        if msg <>! "" then fail (WithDetails (detail "interactive" msg) (Validation msg))
        else
          try! conv := ask c (ConvFindByID conversationID) in
          let! now := ask c Now in
          let! id := ask c NewID in
          let msg :=
            mkMessage id (cv_TenantID conv) (cv_ID conv) SenderAutomation ruleID
              DirectionOutbound MessageInteractive (iv_Body iv) [] None [] None (Some iv)
              None None [] now DeliveryPending "" "" None None None None in
          try! _ := persistMessage s c conv msg EventMessageCreated in
          ok tt
    end.

(** ** Edits and deletions *)

(** [loadMessage]. *)
Definition loadMessage (c : Ctx) (conv : Conversation) (messageID : string)
  : M (result Message) :=
  try! msg := ask c (MsgFindByID messageID) in
  if ms_ConversationID msg <>! cv_ID conv then fail (NotFound "message not found")
  else if IsDeleted msg then fail (Conflict "message is already deleted")
  else ok msg.

(** [refreshLastMessageSnapshot]. *)
Definition refreshLastMessageSnapshot (c : Ctx) (conv : Conversation) (affected : Message)
    (deleted : bool) : M (result Conversation) :=
  let store conv :=
    let! now := ask c Now in
    let conv := set_UpdatedAt now conv in
    try! _ := ask c (ConvUpdate conv) in
    do! publishConversation c conv in
    ok conv in
  match cv_LastMessage conv with
  | None => ok conv
  | Some lm =>
      if lm_MessageID lm <>! ms_ID affected then ok conv
      else if negb deleted then
        store (set_LastMessage (NewLastMessageSnapshot (Some affected)) conv)
      else
        let! r := ask c (MsgLatestByConversation (cv_ID conv)) in
        match r with
        | Ok latest =>
            store (set_LastMessageAt (ms_CreatedAt latest)
                     (set_LastMessage (NewLastMessageSnapshot (Some latest)) conv))
        | Err e =>
            if is_not_found e then store (set_LastMessage None conv) else fail e
        end
  end.

Definition EditMessage (c : Ctx) (conversationID messageID text : string)
  : M (result Message) :=
  try! ca := loadVisible c conversationID in
  let '(conv, ac) := ca in
  let text := trim_space text in
  if text =! "" then fail (Validation "message text is required")
  else
    try! msg := loadMessage c conv messageID in
    if ms_SenderType msg <>! SenderAgent then
      fail (Validation "only agent messages can be edited")
    else if negb (canManageMessage ac msg) then
      fail (Forbidden "you can only edit your own messages")
    else
      let! now := ask c Now in
      let msg := set_msg_EditedAt (Some now) (set_msg_Text text msg) in
      try! _ := ask c (MsgUpdate msg) in
      let! msg := hydrateMessage s c msg in
      try! conv := refreshLastMessageSnapshot c conv msg false in
      do! recordEvent c conv EventMessageEdited [("message_id", VStr (ms_ID msg))] in
      do! ask c (Publish (TopicConversation (cv_TenantID conv) (cv_ID conv))
                   RealtimeMessageUpdated (PMessage (NewMessagePayload msg))) in
      do! (if ms_Direction msg <>! DirectionInternal then
             emitMessageWebhook s c conv msg RealtimeMessageUpdated
           else Ret tt) in
      ok msg.

Definition DeleteMessage (c : Ctx) (conversationID messageID : string) : M (result unit) :=
  try! ca := loadVisible c conversationID in
  let '(conv, ac) := ca in
  let! r := loadMessage c conv messageID in
  match r with
  | Err e => if CodeOf e =! CodeConflict then ok tt else fail e
  | Ok msg =>
      if negb (canManageMessage ac msg) then
        fail (Forbidden "not allowed to delete this message")
      else
        let! now := ask c Now in
        let msg := set_msg_DeletedAt (Some now) msg in
        try! _ := ask c (MsgUpdate msg) in
        try! conv := refreshLastMessageSnapshot c conv msg true in
        do! recordEvent c conv EventMessageDeleted [("message_id", VStr (ms_ID msg))] in
        do! ask c (Publish (TopicConversation (cv_TenantID conv) (cv_ID conv))
                     RealtimeMessageDeleted
                     (PMessageRef (mkRefPayload (ms_ID msg) (cv_ID conv)))) in
        do! ask c (AuditRecord (mkAudit "message.deleted" "message" (ms_ID msg)
                     [("sender_type", VStr (ms_SenderType msg));
                      ("conversation_id", VStr (cv_ID conv))])) in
        ok tt
  end.

(** ** Delivery receipts *)

Definition receipt_of (status : string) : option DeliveryStatus :=
  let st := trim_space status in
  if st =! "delivered" then Some DeliveryDelivered
  else if st =! "read" then Some DeliveryRead
  else if st =! "failed" then Some DeliveryFailed
  else None.

(** The message a receipt leaves. *)
Definition received (to : DeliveryStatus) (now : Time) (msg : Message) : Message :=
  let msg := set_msg_DeliveryStatus to msg in
  if to =! DeliveryDelivered then set_msg_DeliveredAt (Some now) msg
  else if to =! DeliveryRead then set_msg_ReadAt (Some now) msg
  else msg.

Definition receipt_event (to : DeliveryStatus) : string :=
  if to =! DeliveryDelivered then RealtimeMessageDelivered
  else if to =! DeliveryRead then RealtimeMessageRead
  else if to =! DeliveryFailed then RealtimeMessageFailed
  else "".

Definition ApplyDeliveryReceipt (c : Ctx) (messageID status : string) : M (result unit) :=
  try! _ := requireTenant c in
  match receipt_of status with
  | None =>
      fail (WithDetails (detail "status" "must be delivered|read|failed")
              (Validation "status must be one of: delivered, read, failed"))
  | Some to =>
      try! msg := ask c (MsgFindByID messageID) in
      if negb (DeliveryAdvances (ms_DeliveryStatus msg) to) then ok tt
      else
        let! now := ask c Now in
        let msg := received to now msg in
        try! _ := ask c (MsgUpdate msg) in
        do! ask c (Publish (TopicConversation (ms_TenantID msg) (ms_ConversationID msg))
                     (receipt_event to)
                     (PMessageStatus
                        (mkStatusPayload (ms_ID msg) (ms_ConversationID msg) to ""))) in
        ok tt
  end.

(** ** Listings and typing *)

Definition ListMessages (c : Ctx) (conversationID : string) (page : PageRequest)
  : M (result (list Message)) :=
  try! _ := loadVisible c conversationID in
  try! msgs := ask c (MsgListByConversation conversationID (Normalize page)) in
  let! msgs := hydrateMessages s c msgs in
  ok msgs.

Definition ListEvents (c : Ctx) (conversationID : string) (page : PageRequest)
  : M (result (list ConversationEvent)) :=
  try! _ := loadVisible c conversationID in
  ask c (EventListByConversation conversationID (Normalize page)).

Definition SetTyping (c : Ctx) (conversationID : string) (on : bool) : M (result unit) :=
  try! ca := loadVisible c conversationID in
  let '(conv, ac) := ca in
  ask c (Publish (TopicConversation (cv_TenantID conv) (cv_ID conv))
           (if on then RealtimeTypingStarted else RealtimeTypingStopped)
           (PTyping (mkTypingPayload (cv_ID conv) (ac_UserID ac)))).
End Messaging.
