(* ===== verification/ConvLifecycle.v ===== *)
(** * Conversations service: the conversation lifecycle
    (domain/conversations/service/conversation_service.go)

    Opening, reading, updating, closing, reopening, tagging and read state; and the actions of
    the automation rules (automation_actions.go). *)
From S2P Require Import Prelude GoStrings AppError Prog Authz Shared ConvEntity Messages ConvContracts Ports ConvBase ConvMessaging.

Section Lifecycle.
Context (s : Service).

(** ** Create *)

(** The status a conversation is opened (or reopened) in. *)
Definition initialStatus (assignedTo queueID : string) : Status :=
  if assignedTo <>! "" then StatusAssigned
  else if queueID <>! "" then StatusQueued
  else StatusNew.

Definition create_errors (contactID channelID : string) (priority : Priority)
  : gmap string value :=
  (if contactID =! "" then <["contact_id" := VStr "is required"]> else id)
    ((if channelID =! "" then <["channel_id" := VStr "is required"]> else id)
       (if Priority_Valid priority then ∅
        else {["priority" := VStr "must be one of low|normal|high|urgent"]})).

(** A foreign reference that must exist: [not_found] becomes a validation error. *)
Definition mustExist {A} (m : M (result A)) (message key : string) : M (result A) :=
  let! r := m in
  match r with
  | Ok a => ok a
  | Err e =>
      if is_not_found e then fail (WithDetails (detail key "not found") (Validation message))
      else fail e
  end.

(** The conversation [Create] stores. *)
Definition newConversation (id tenantID contactID channelID : string)
    (conn : ChannelConnection) (status : Status) (priority : Priority) (now : Time)
    (cmd : CreateConversation) : Conversation :=
  {| cv_ID := id;
     cv_TenantID := tenantID;
     cv_ContactID := contactID;
     cv_Channel := ch_Type conn;
     cv_ChannelID := channelID;
     cv_SectorID := cr_SectorID cmd;
     cv_QueueID := cr_QueueID cmd;
     cv_Status := status;
     cv_AssignedTo := cr_AssignedTo cmd;
     cv_Priority := priority;
     cv_Protocol := "";
     cv_Tags := cr_Tags cmd;
     cv_CustomAttributes := [];
     cv_LastMessageAt := now;
     cv_LastMessage := None;
     cv_LastCustomerMessageAt := None;
     cv_UnreadCount := 0;
     cv_LastReadAt := None;
     cv_CreatedAt := now;
     cv_UpdatedAt := now;
     cv_ClosedAt := None |}.

Definition Create (c : Ctx) (cmd : CreateConversation) : M (result Conversation) :=
  try! tenantID := requireTenant c in
  let contactID := trim_space (cr_ContactID cmd) in
  let channelID := trim_space (cr_ChannelID cmd) in
  let priority := if cr_Priority cmd =! "" then PriorityNormal else cr_Priority cmd in
  let v := create_errors contactID channelID priority in
  if bool_decide (v <> ∅) then fail (WithDetails v (Validation "validation failed"))
  else
    try! conn := mustExist (ask c (ChannelFindByID channelID))
                   "channel does not exist" "channel_id" in
    try! _ :=
      (if cr_SectorID cmd <>! "" then
         try! _ := mustExist (ask c (SectorFindByID (cr_SectorID cmd)))
                     "sector does not exist" "sector_id" in
         ok tt
       else ok tt) in
    let! now := ask c Now in
    let status := initialStatus (cr_AssignedTo cmd) (cr_QueueID cmd) in
    let! id := ask c NewID in
    let conv := newConversation id tenantID contactID channelID conn status priority now cmd in
    try! _ := ask c (ConvCreate conv) in
    do! recordEvent c conv EventConversationCreated [] in
    do! publishConversation c conv in
    do! publishLifecycle s c conv RealtimeConversationCreated in
    do! emitConversationWebhook s c conv EventConversationCreated in
    do! ask c (OnConversationCreated conv) in
    do! (if (cv_Status conv =! StatusQueued) && (cv_QueueID conv <>! "") then
           ask c (QueueChanged (cv_SectorID conv) (cv_QueueID conv))
         else Ret tt) in
    ok conv.

(** ** Reads *)

Definition Get (c : Ctx) (id : string) : M (result Conversation) :=
  try! ca := loadVisible c id in ok ca.1.

Definition List_ (c : Ctx) (filter : ListFilter) (page : PageRequest)
  : M (result (list Conversation)) :=
  try! _ := requireTenant c in
  try! vis := Ret (visibility c) in
  ask c (ConvList filter vis (Normalize page)).

Definition UnreadCounts_ (c : Ctx) : M (result UnreadCounts) :=
  try! _ := requireTenant c in
  try! vis := Ret (visibility c) in
  ask c (ConvUnreadCounts vis).

Definition ContactCards (c : Ctx) (conversations : list Conversation)
  : M (result (gmap string DisplayCard)) :=
  if negb (has_contacts s) then ok ∅
  else
    let ids := dedupeField conversations cv_ContactID in
    if (length ids =? 0)%nat then ok ∅ else ask c (ContactCardsOf ids).

Definition AgentCards (c : Ctx) (conversations : list Conversation)
  : M (result (gmap string DisplayCard)) :=
  if negb (has_agents s) then ok ∅
  else
    let ids := dedupeField conversations cv_AssignedTo in
    if (length ids =? 0)%nat then ok ∅ else ask c (AgentCardsOf ids).

(** ** Update *)

(** The non-nil fields of [cmd], in the order of the code, up to the status; the
    flag is [statusChanged]. *)
Definition applyUpdate (cmd : UpdateConversation) (conv : Conversation)
  : result (Conversation * bool) :=
  let conv := match up_SectorID cmd with Some v => set_SectorID v conv | None => conv end in
  let conv := match up_QueueID cmd with Some v => set_QueueID v conv | None => conv end in
  let conv := match up_AssignedTo cmd with Some v => set_AssignedTo v conv | None => conv end in
  let withPriority :=
    match up_Priority cmd with
    | Some p => if Priority_Valid p then Ok (set_Priority p conv)
                else Err (Validation "invalid priority")
    | None => Ok conv
    end in
  match withPriority with
  | Err e => Err e
  | Ok conv =>
      match up_Status cmd with
      | Some st =>
          if Status_Valid st then Ok (set_Status st conv, cv_Status conv <>! st)
          else Err (Validation "invalid status")
      | None => Ok (conv, false)
      end
  end.

Definition Update (c : Ctx) (id : string) (cmd : UpdateConversation)
  : M (result Conversation) :=
  try! ca := loadVisible c id in
  try! cs := Ret (applyUpdate cmd ca.1) in
  let '(conv, statusChanged) := cs in
  let conv := match up_Tags cmd with Some v => set_Tags v conv | None => conv end in
  try! conv :=
    match up_CustomAttributes cmd with
    | Some attrs =>
        try! _ := ask c (ValidateCustomAttributes "conversation" attrs) in
        ok (set_CustomAttributes attrs conv)
    | None => ok conv
    end in
  let! now := ask c Now in
  let conv := set_UpdatedAt now conv in
  try! _ := ask c (ConvUpdate conv) in
  do! recordEvent c conv EventConversationUpdated [] in
  do! publishConversation c conv in
  do! emitConversationWebhook s c conv RealtimeConversationUpdated in
  let! payload := conversationPayload c conv in
  do! emitRuleEvent s c conv RealtimeConversationUpdated payload in
  do! (if statusChanged then publishLifecycle s c conv (lifecycleEventFor (cv_Status conv))
       else Ret tt) in
  ok conv.

(** ** Close and CloseInactive *)

Definition wasQueued (conv : Conversation) : bool :=
  (cv_Status conv =! StatusQueued) && (cv_QueueID conv <>! "").

Definition closed (now : Time) (conv : Conversation) : Conversation :=
  set_UpdatedAt now (set_ClosedAt (Some now) (set_Status StatusClosed conv)).

(** The effects both closing paths run once the conversation is stored. *)
Definition closeEffects (c : Ctx) (conv : Conversation) (data : list (string * value))
    (now : Time) (queued : bool) : M unit :=
  do! recordEvent c conv EventConversationClosed data in
  do! publishConversation c conv in
  do! publishLifecycle s c conv RealtimeConversationClosed in
  do! emitConversationWebhook s c conv EventConversationClosed in
  do! ask c (OnResolved conv now) in
  do! ask c (OnConversationClosed conv) in
  if queued then ask c (QueueChanged (cv_SectorID conv) (cv_QueueID conv)) else Ret tt.

Definition Close (c : Ctx) (conversationID : string) (cmd : CloseConversation)
  : M (result Conversation) :=
  try! ca := loadVisible c conversationID in
  let conv := ca.1 in
  if (cv_Status conv =! StatusClosed) || (cv_Status conv =! StatusArchived) then
    fail (Conflict "conversation is already closed")
  else
    try! _ :=
      (if (cl_CloseReasonID cmd <>! "") && has_closeReasons s then
         try! requiresNote := ask c (RequiresNote (cl_CloseReasonID cmd)) in
         if (requiresNote : bool) && blank (cl_Note cmd) then
           fail (WithDetails (detail "note" "is required for this close reason")
                   (Validation "this close reason requires a note"))
         else ok tt
       else ok tt) in
    let queued := wasQueued conv in
    let! now := ask c Now in
    let conv := closed now conv in
    try! _ := ask c (ConvUpdate conv) in
    try! _ :=
      (if negb (blank (cl_Note cmd)) then
         try! _ := AddInternalNote_ s c (cv_ID conv) (mkNote (cl_Note cmd) []) in ok tt
       else ok tt) in
    do! closeEffects c conv
          [("close_reason_id", VStr (cl_CloseReasonID cmd)); ("note", VStr (cl_Note cmd))]
          now queued in
    do! ask c (AuditRecord (mkAudit "conversation.closed" "conversation" (cv_ID conv)
                 [("close_reason_id", VStr (cl_CloseReasonID cmd))])) in
    ok conv.

Definition CloseInactive (c : Ctx) (idleFor : Z) : M (result Z) :=
  try! _ := requireTenant c in
  let! now := ask c Now in
  try! convs := ask c (ConvListInactiveOpen (now - idleFor) 500) in
  let! closed_ :=
    fold_prog convs 0 (fun n conv =>
      let queued := wasQueued conv in
      let conv := closed now conv in
      let! r := ask c (ConvUpdate conv) in
      match r with
      | Err _ => Ret n
      | Ok _ =>
          do! closeEffects c conv [("reason", VStr "inactivity")] now queued in
          Ret (n + 1)
      end) in
  ok closed_.

(** ** Tags *)

Definition ApplyTags (c : Ctx) (conversationID : string) (add remove : list string)
  : M (result Conversation) :=
  try! ca := loadVisible c conversationID in
  let conv := ca.1 in
  let add := dedupe add in
  let remove := dedupe remove in
  if (length add =? 0)%nat && (length remove =? 0)%nat then
    fail (Validation "provide at least one tag to add or remove")
  else
    try! add := (if has_tags s && negb (length add =? 0)%nat
                 then ask c (ResolveTags add true) else ok add) in
    try! remove := (if has_tags s && negb (length remove =? 0)%nat
                    then ask c (ResolveTags remove false) else ok remove) in
    let conv := set_Tags (applyTagChanges (cv_Tags conv) add remove) conv in
    let! now := ask c Now in
    let conv := set_UpdatedAt now conv in
    try! _ := ask c (ConvUpdate conv) in
    do! recordEvent c conv EventConversationTagged
          [("added", VStrs add); ("removed", VStrs remove)] in
    let! payload := conversationPayload c conv in
    do! ask c (Publish (TopicConversation (cv_TenantID conv) (cv_ID conv))
                 RealtimeConversationTagged payload) in
    do! publishConversation c conv in
    ok conv.

(** ** Reopen *)

Definition reopened (now : Time) (conv : Conversation) : Conversation :=
  set_UpdatedAt now
    (set_ClosedAt None
       (set_Status (initialStatus (cv_AssignedTo conv) (cv_QueueID conv)) conv)).

Definition Reopen (c : Ctx) (conversationID : string) : M (result Conversation) :=
  try! ca := loadVisible c conversationID in
  let conv := ca.1 in
  if negb (IsClosed (cv_Status conv)) then fail (Conflict "conversation is not closed")
  else
    let! now := ask c Now in
    let conv := reopened now conv in
    try! _ := ask c (ConvUpdate conv) in
    do! recordEvent c conv EventConversationReopened [] in
    do! publishConversation c conv in
    do! publishLifecycle s c conv RealtimeConversationReopened in
    ok conv.

(** ** Read state *)

Definition MarkRead (c : Ctx) (conversationID : string) : M (result unit) :=
  try! ca := loadVisible c conversationID in
  let '(conv, ac) := ca in
  let! now := ask c Now in
  let stale := negb (cv_UnreadCount conv =? 0) ||
               (match cv_LastReadAt conv with None => true | Some _ => false end) in
  try! _ :=
    (if stale then
       let conv := set_UpdatedAt now (set_LastReadAt (Some now) (set_UnreadCount 0 conv)) in
       try! _ := ask c (ConvUpdate conv) in
       do! publishConversation c conv in
       ok tt
     else ok tt) in
  ask c (Publish (TopicConversation (cv_TenantID conv) (cv_ID conv)) RealtimeMessageRead
           (PRead (mkReadPayload (cv_ID conv) (ac_UserID ac) now))).

Definition MarkUnread (c : Ctx) (conversationID : string) : M (result unit) :=
  try! ca := loadVisible c conversationID in
  let conv := ca.1 in
  if negb (cv_UnreadCount conv =? 0) then ok tt
  else
    let! now := ask c Now in
    let conv := set_UpdatedAt now (set_UnreadCount 1 conv) in
    try! _ := ask c (ConvUpdate conv) in
    do! publishConversation c conv in
    ok tt.
End Lifecycle.

(** ** Conversations service: automation-facing mutations
    (domain/conversations/service/automation_actions.go)

    Tenant-scoped, without agent visibility: the caller is the rule executor. *)

Section Automation.
Context (s : Service).

(** [automationMutate]: an empty event from [mutate] is a no-op. *)
Definition automationMutate (c : Ctx) (conversationID : string)
    (mutate : Conversation -> M (result (string * Conversation))) : M (result unit) :=
  try! _ := requireTenant c in
  try! conv := ask c (ConvFindByID conversationID) in
  try! ec := mutate conv in
  let '(event, conv) := ec in
  if event =! "" then ok tt
  else
    let! now := ask c Now in
    let conv := set_UpdatedAt now conv in
    try! _ := ask c (ConvUpdate conv) in
    do! recordEvent c conv event [] in
    do! publishConversation c conv in
    do! emitConversationWebhook s c conv event in
    let! payload := conversationPayload c conv in
    do! emitRuleEvent s c conv event payload in
    ok tt.

(** [ensureAgentExists]. *)
Definition ensureAgentExists (c : Ctx) (agentID : string) : M (result unit) :=
  if negb (has_agents s) then ok tt
  else
    try! cards := ask c (AgentCardsOf [agentID]) in
    match cards !! agentID with
    | Some _ => ok tt
    | None => fail (NotFound "agent not found")
    end.

(** [missingRef]. *)
Definition missingRef (e : error) (what : string) : error :=
  if is_not_found e then NotFound (what +:+ " not found") else e.

Definition noop (conv : Conversation) : M (result (string * Conversation)) := ok ("", conv).

Definition AutomationAssignAgent (c : Ctx) (conversationID agentID : string) : M (result unit) :=
  automationMutate c conversationID (fun conv =>
    try! _ := ensureAgentExists c agentID in
    ok (EventConversationAssigned, set_Status StatusAssigned (set_AssignedTo agentID conv))).

Definition AutomationAssignTeam (c : Ctx) (conversationID sectorID : string) : M (result unit) :=
  automationMutate c conversationID (fun conv =>
    let! r := ask c (SectorFindByID sectorID) in
    match r with
    | Err e => fail (missingRef e "sector")
    | Ok _ =>
        let conv := set_SectorID sectorID conv in
        let conv := if cv_AssignedTo conv =! "" then set_Status StatusQueued conv else conv in
        ok (EventConversationUpdated, conv)
    end).

Definition AutomationRemoveAgent (c : Ctx) (conversationID : string) : M (result unit) :=
  automationMutate c conversationID (fun conv =>
    let conv := set_AssignedTo "" conv in
    let conv := if cv_SectorID conv <>! "" then set_Status StatusQueued conv else conv in
    ok (EventConversationUpdated, conv)).

Definition AutomationRemoveTeam (c : Ctx) (conversationID : string) : M (result unit) :=
  automationMutate c conversationID (fun conv =>
    ok (EventConversationUpdated, set_SectorID "" conv)).

Definition AutomationAddTag (c : Ctx) (conversationID tagID : string) : M (result unit) :=
  automationMutate c conversationID (fun conv =>
    try! id :=
      (if has_tags s then
         let! r := ask c (ResolveTags [tagID] true) in
         match r with
         | Ok (i :: _) => ok i
         | _ => fail (NotFound "tag not found")
         end
       else ok tagID) in
    if bool_decide (id ∈ cv_Tags conv) then noop conv
    else ok (EventConversationUpdated, set_Tags (cv_Tags conv ++ [id]) conv)).

Definition AutomationRemoveTag (c : Ctx) (conversationID tagID : string) : M (result unit) :=
  automationMutate c conversationID (fun conv =>
    let! id :=
      (if has_tags s then
         let! r := ask c (ResolveTags [tagID] false) in
         match r with
         | Ok (i :: _) => Ret i
         | _ => Ret tagID
         end
       else Ret tagID) in
    let out := filter (fun t => t <> id) (cv_Tags conv) in
    if bool_decide (id ∈ cv_Tags conv)
    then ok (EventConversationUpdated, set_Tags out conv)
    else noop (set_Tags out conv)).

Definition AutomationChangePriority (c : Ctx) (conversationID priority : string)
  : M (result unit) :=
  automationMutate c conversationID (fun conv =>
    if Priority_Valid priority
    then ok (EventConversationUpdated, set_Priority priority conv)
    else fail (Validation "invalid priority")).

Definition AutomationResolve (c : Ctx) (conversationID : string) : M (result unit) :=
  automationMutate c conversationID (fun conv =>
    if IsClosed (cv_Status conv) then noop conv
    else
      let! now := ask c Now in
      ok (EventConversationClosed,
          set_ClosedAt (Some now) (set_Status StatusResolved conv))).

Definition AutomationOpen (c : Ctx) (conversationID : string) : M (result unit) :=
  automationMutate c conversationID (fun conv =>
    if negb (IsClosed (cv_Status conv)) then noop conv
    else
      let st := if cv_AssignedTo conv <>! "" then StatusAssigned
                else if cv_SectorID conv <>! "" then StatusQueued
                else StatusNew in
      ok (EventConversationReopened, set_ClosedAt None (set_Status st conv))).

Definition AutomationMarkPending (c : Ctx) (conversationID : string) : M (result unit) :=
  automationMutate c conversationID (fun conv =>
    if cv_Status conv =! StatusQueued then noop conv
    else ok (EventConversationUpdated, set_Status StatusQueued conv)).
End Automation.
