(* ===== verification/ConvIsolation.v ===== *)
(** * Conversations service: tenant isolation and visibility

    Every operation of the service, as one type, with the properties that hold of
    all of them whatever the repositories answer within their contract. *)
From S2P Require Import Prelude GoStrings AppError Authz Shared ConvEntity Messages ConvContracts.
From S2P Require Import Prog Ports ConvBase ConvMessaging ConvLifecycle.

(** ** The operations *)

(** The operations gated by the actor's visibility, on one conversation. *)
Inductive GatedOp :=
| OpGet
| OpUpdate (cmd : UpdateConversation)
| OpSend (cmd : SendMessage)
| OpNote (cmd : AddInternalNote)
| OpClose (cmd : CloseConversation)
| OpTags (add remove : list string)
| OpReopen
| OpListMessages (p : PageRequest)
| OpListEvents (p : PageRequest)
| OpTyping (on : bool)
| OpMarkRead
| OpMarkUnread
| OpEdit (messageID text : string)
| OpDelete (messageID : string).

(** The operations of the rule executor and of system actors, on one conversation. *)
Inductive AutoOp :=
| OpSystemMessage (text : string)
| OpAutoMessage (ruleID text : string)
| OpAutoAttachment (ruleID attachmentID : string)
| OpAutoInteractive (ruleID json : string)
| OpAssignAgent (agentID : string)
| OpAssignTeam (sectorID : string)
| OpRemoveAgent
| OpRemoveTeam
| OpAddTag (tagID : string)
| OpRemoveTag (tagID : string)
| OpChangePriority (priority : string)
| OpResolve
| OpOpen
| OpMarkPending.

Section Operations.
Context (s : Service).

Definition forget {A} (m : M (result A)) : M (result unit) := try! _ := m in ok tt.

Definition gated (c : Ctx) (id : string) (op : GatedOp) : M (result unit) :=
  match op with
  | OpGet => forget (Get c id)
  | OpUpdate cmd => forget (Update s c id cmd)
  | OpSend cmd => forget (SendMessage_ s c id cmd)
  | OpNote cmd => forget (AddInternalNote_ s c id cmd)
  | OpClose cmd => forget (Close s c id cmd)
  | OpTags add remove => forget (ApplyTags s c id add remove)
  | OpReopen => forget (Reopen s c id)
  | OpListMessages p => forget (ListMessages s c id p)
  | OpListEvents p => forget (ListEvents c id p)
  | OpTyping on => forget (SetTyping c id on)
  | OpMarkRead => forget (MarkRead c id)
  | OpMarkUnread => forget (MarkUnread c id)
  | OpEdit messageID text => forget (EditMessage s c id messageID text)
  | OpDelete messageID => forget (DeleteMessage c id messageID)
  end.

Definition automated (c : Ctx) (id : string) (op : AutoOp) : M (result unit) :=
  match op with
  | OpSystemMessage text => forget (SendSystemMessage s c id text)
  | OpAutoMessage ruleID text => SendAutomationMessage s c id ruleID text
  | OpAutoAttachment ruleID a => SendAutomationAttachment s c id ruleID a
  | OpAutoInteractive ruleID j => SendAutomationInteractive s c id ruleID j
  | OpAssignAgent a => AutomationAssignAgent s c id a
  | OpAssignTeam t => AutomationAssignTeam s c id t
  | OpRemoveAgent => AutomationRemoveAgent s c id
  | OpRemoveTeam => AutomationRemoveTeam s c id
  | OpAddTag t => AutomationAddTag s c id t
  | OpRemoveTag t => AutomationRemoveTag s c id t
  | OpChangePriority p => AutomationChangePriority s c id p
  | OpResolve => AutomationResolve s c id
  | OpOpen => AutomationOpen s c id
  | OpMarkPending => AutomationMarkPending s c id
  end.
End Operations.

(** ** Visibility: the contract of a hidden conversation

    The only call allowed is the read of the conversation, and it answers with an
    error or with a conversation the actor may not see. *)
Definition hidden_contract (ac : AuthContext) (id : string) : contract Ctx ConvPort unit :=
  pre_post
    (fun R _ e _ => exists p : ConvRepo R, e = PConvs p /\
       match p with ConvFindByID i => i = id | _ => False end)
    (fun R _ e _ r _ =>
       match e in ConvPort R return R -> Prop with
       | PConvs p =>
           match p in ConvRepo R return R -> Prop with
           | ConvFindByID _ => fun r =>
               match r with Ok conv => visibleTo conv ac = false | Err _ => True end
           | _ => fun _ => True
           end
       | _ => fun _ => True
       end r).

(** ** Properties *)

Section Hidden.
Context (s : Service) (c : Ctx) (ac : AuthContext) (id : string).
Hypothesis (Hac : FromContext c = Some ac).
Let T := hidden_contract ac id.

Lemma loadVisible_hidden (Q : result (Conversation * AuthContext) -> unit -> Prop) :
  (forall e, Q (Err e) tt) -> wp T (loadVisible c id) Q tt.
Proof.
  intros HQ. unfold loadVisible, requireTenant. rewrite Hac.
  destruct (RequireTenant c) as [t|e]; cbn; [|apply HQ].
  split; [by exists (ConvFindByID id)|]. intros [conv|e] []; cbn; [|intros _; apply HQ].
  intros ->. apply HQ.
Qed.

(** A program that starts with the visibility check and goes on only with a
    visible conversation stops there. *)
Lemma gate_hidden {A} (k : Conversation * AuthContext -> M (result A))
    (Q : result A -> unit -> Prop) :
  (forall e, Q (Err e) tt) -> wp T (bind_ok (loadVisible c id) k) Q tt.
Proof.
  intros HQ. apply wp_bind_ok; [apply pre_post_mono|]. by apply loadVisible_hidden.
Qed.
End Hidden.

(** A service (no media, contact nor agent directory wired) and an agent that sees its
    whole tenant: the concrete input of the examples. *)
Module Sample.
Definition service : Service := mkService false true true true false false true false true (fun _ => None).
Definition ctx : Ctx :=
  WithAuthContext (WithTenant Background "acme")
    (NewAuthContext "acme" "ana" [ConversationRead; MessageSend] [] ScopeAll).
Definition hello : SendMessage := mkSendMessage "" "hi" [] None [] None None [].
End Sample.

(** C11. An actor never acts on a conversation outside its visibility: each of the
    fourteen gated operations, on a conversation the actor may not see (or that
    cannot be read), makes no call but that read, writes and publishes nothing,
    and returns an error. *)
Theorem hidden_conversation_untouched (s : Service) (c : Ctx) (ac : AuthContext) (id : string)
    (op : GatedOp) :
  FromContext c = Some ac ->
  wp (hidden_contract ac id) (gated s c id op) (fun r _ => is_ok r = false) tt.
Proof.
  intros Hac. destruct op; unfold gated, forget, bind_ok; cbn [gated];
    try (apply wp_bind; [apply pre_post_mono|]);
    try (by eapply gate_hidden).
Qed.

Lemma hidden_conversation_untouched_witness :
  wp (hidden_contract (NewAuthContext "acme" "ana" [ConversationRead; MessageSend] [] ScopeAll) "c1")
    (gated Sample.service Sample.ctx "c1" (OpSend Sample.hello)) (fun r _ => is_ok r = false) tt.
Proof. apply hidden_conversation_untouched. reflexivity. Defined.
