(* ===== verification/ConvDiscipline.v ===== *)
(** * Conversations service: the call discipline

    What every operation of the service obeys, whatever its dependencies answer:
    it stays inside the tenant and the conversation it was asked about, it
    announces a change only after storing it, and only the rule event of an
    automation message carries the automation origin. One contract states the
    three; its ghost state records the writes made so far. *)
From S2P Require Import Prelude GoStrings AppError Authz Shared ConvEntity Messages ConvContracts.
From S2P Require Import Prog Ports ConvBase ConvMessaging ConvLifecycle ConvIsolation.

(** ** The ghost state: the writes of the operation *)

Record Writes := mkWrites {
  w_stored : list Conversation;   (* versions stored, latest first *)
  w_last : option bool            (* whether the last write succeeded *)
}.

Definition no_writes : Writes := mkWrites [] None.
Definition wrote_conv (conv : Conversation) (g : Writes) : Writes :=
  mkWrites (conv :: w_stored g) (Some true).
Definition wrote_msg (g : Writes) : Writes := mkWrites (w_stored g) (Some true).
Definition write_failed (g : Writes) : Writes := mkWrites (w_stored g) (Some false).

Definition swallowed_failure (g : Writes) : Prop := w_last g = Some false.

(** ** The clauses *)

Section Clauses.
Context (t : string) (scope : string -> Prop) (c0 : Ctx).

(** A conversation of the tenant within the scope of the operation. *)
Definition in_scope (conv : Conversation) : Prop := cv_TenantID conv = t /\ scope (cv_ID conv).

(** Tenant isolation, call by call. *)
Definition infra_in_tenant {R} (e : Infra R) : Prop :=
  match e with
  | Publish topic _ _ => tenant_topic t topic
  | PublishBatch events => Forall (fun e => tenant_topic t (pe_Topic e)) events
  | WebhookMatches t' _ _ | WebhookDeliver t' _ _ _ => t' = t
  | EmitRuleEvent t' _ conversationID _ => t' = t /\ scope conversationID
  | Notify n => nt_TenantID n = t
  | _ => True
  end.

Definition tenant_pre (R : Type) (c : Ctx) (e : ConvPort R) (g : Writes) : Prop :=
  RequireTenant c = Ok t /\
  match e with
  | PInfra e => infra_in_tenant e
  | PConvs (ConvCreate conv) => cv_TenantID conv = t
  | PConvs (ConvUpdate conv) => in_scope conv
  | PEvents (EventCreate ev) => ev_TenantID ev = t /\ scope (ev_ConversationID ev)
  | PMsgs (MsgCreate m) => ms_TenantID m = t /\ scope (ms_ConversationID m)
  | PMsgs (MsgUpdate m) => ms_TenantID m = t
  | _ => True
  end.

(** Announcing only what is stored. Typing and read receipts announce no change. *)
Definition ephemeral (event : string) : bool :=
  (event =! RealtimeMessageRead) || (event =! RealtimeTypingStarted) ||
  (event =! RealtimeTypingStopped).

Definition payload_stored (g : Writes) (p : Payload) : Prop :=
  match p with
  | PConversation p => exists conv now, conv ∈ w_stored g /\ p = NewConversationPayload conv now
  | PIntegrationConversation p => exists conv contact agent now,
      conv ∈ w_stored g /\ p = NewIntegrationConversationPayload conv contact agent now
  | _ => True
  end.

Definition announced (g : Writes) (event : string) (p : Payload) : Prop :=
  (ephemeral event = true \/ w_last g = Some true) /\ payload_stored g p.

Definition hook_conv {R} (e : Hook R) : Conversation :=
  match e with
  | OnConversationCreated conv | OnFirstResponse conv _ | OnResolved conv _
  | OnConversationClosed conv => conv
  end.

Definition announce_pre (R : Type) (c : Ctx) (e : ConvPort R) (g : Writes) : Prop :=
  match e with
  | PInfra (Publish _ event p) => announced g event p
  | PInfra (PublishBatch events) => Forall (fun e => announced g (pe_Event e) (pe_Data e)) events
  | PInfra (WebhookDeliver _ event _ p) | PInfra (EmitRuleEvent _ event _ p) =>
      announced g event p
  | PInfra (Notify _) | PInfra (AuditRecord _) | PInfra (QueueChanged _ _)
  | PEvents (EventCreate _) => w_last g = Some true
  | PHook h => w_last g = Some true /\ hook_conv h ∈ w_stored g
  | _ => True
  end.

(** The context of every call is the caller's; only a rule event may carry the
    automation origin, and then for a message automation sent. *)
Definition origin_pre (R : Type) (c : Ctx) (e : ConvPort R) (g : Writes) : Prop :=
  c = c0 \/
  c = WithRuleOrigin c0 OriginAutomation /\
  match e with
  | PInfra (EmitRuleEvent _ event _ (PMessage m)) =>
      event = EventMessageCreated /\ mp_SenderType m = SenderAutomation
  | _ => False
  end.

(** Automation messages are only announced to the rules under the automation
    origin. *)
Definition marked_pre (R : Type) (c : Ctx) (e : ConvPort R) (g : Writes) : Prop :=
  match e with
  | PInfra (EmitRuleEvent _ _ _ (PMessage m)) =>
      mp_SenderType m = SenderAutomation -> RuleOriginFromContext c = OriginAutomation
  | _ => True
  end.

(** What the dependencies may answer: the repositories answer within the tenant,
    and the ghost state records what was written. *)
Definition repo_post (R : Type) (c : Ctx) (e : ConvPort R) (g : Writes) (r : R) (g' : Writes)
  : Prop :=
  match e in ConvPort R return R -> Prop with
  | PConvs e =>
      match e in ConvRepo R return R -> Prop with
      | ConvCreate conv => fun r =>
          g' = match r with Ok _ => wrote_conv conv g | Err _ => write_failed g end
      | ConvUpdate conv => fun r =>
          g' = match r with Ok _ => wrote_conv conv g | Err _ => write_failed g end
      | ConvFindByID id => fun r => g' = g /\
          match r with Ok conv => cv_ID conv = id /\ cv_TenantID conv = t | Err _ => True end
      | ConvListInactiveOpen _ _ => fun r => g' = g /\
          match r with Ok l => Forall (fun conv => cv_TenantID conv = t) l | Err _ => True end
      | _ => fun _ => g' = g
      end
  | PMsgs e =>
      match e in MsgRepo R return R -> Prop with
      | MsgCreate _ => fun r =>
          g' = match r with Ok _ => wrote_msg g | Err _ => write_failed g end
      | MsgUpdate _ => fun r =>
          g' = match r with Ok _ => wrote_msg g | Err _ => write_failed g end
      | MsgFindByID id => fun r => g' = g /\
          match r with Ok m => ms_ID m = id /\ ms_TenantID m = t | Err _ => True end
      | _ => fun _ => g' = g
      end
  | _ => fun _ => g' = g
  end r.

Definition discipline : contract Ctx ConvPort Writes :=
  pre_post (fun R c e g => tenant_pre R c e g /\ announce_pre R c e g /\
                           origin_pre R c e g /\ marked_pre R c e g) repo_post.
End Clauses.

(** ** The internals obey it *)

Section Discipline.
Context (s : Service) (t : string) (scope : string -> Prop) (c : Ctx).
Hypothesis (Hc : RequireTenant c = Ok t).
Let D : contract Ctx ConvPort Writes := discipline t scope c.

(** After a successful write, changes to a conversation may be announced; the
    conversation itself, once it is stored. *)
Definition changed (g : Writes) (conv : Conversation) : Prop :=
  in_scope t scope conv /\ w_last g = Some true.
Definition ready (g : Writes) (conv : Conversation) : Prop :=
  changed g conv /\ conv ∈ w_stored g.

#[local] Instance D_mono : Monotone D.
Proof. apply pre_post_mono. Qed.

(** A call under the caller's context. *)
Lemma disciplined_call {R} (e : ConvPort R) (Q : R -> Writes -> Prop) g :
  tenant_pre t scope R c e g -> announce_pre R c e g -> marked_pre R c e g ->
  (forall r g', repo_post t R c e g r g' -> Q r g') ->
  wp D (call c e) Q g.
Proof. intros ????. apply wp_call; [|done]. split_and!; try done. by left. Qed.

(** A read, the clock, an id: no demand, no trace. *)
Definition silent {R} (e : ConvPort R) : bool :=
  match e with
  | PInfra (Now | SystemNow | NewID | WebhookMatches _ _ _ | Acquire _ _ | Release _) => true
  | PInfra _ => false
  | PConvs (ConvCreate _ | ConvUpdate _) => false
  | PConvs _ => true
  | PEvents (EventCreate _) => false
  | PEvents _ => true
  | PMsgs (MsgCreate _ | MsgUpdate _) => false
  | PMsgs _ => true
  | PHook _ => false
  | _ => true
  end.

Lemma silent_call {R} (e : ConvPort R) (Q : R -> Writes -> Prop) g :
  silent e = true ->
  match e with PInfra (WebhookMatches t' _ _) => t' = t | _ => True end ->
  (forall r, repo_post t R c e g r g -> Q r g) ->
  wp D (call c e) Q g.
Proof.
  intros Hs Ht HQ. apply disciplined_call.
  - split; [done|]. destruct e as [? e|? e|? e|? e|? e| | | | | | | | | | | |]; try done; destruct e; done.
  - destruct e as [? e|? e|? e|? e|? e| | | | | | | | | | | |]; try done; destruct e; done.
  - destruct e as [? e|? e|? e|? e|? e| | | | | | | | | | | |]; try done; destruct e; done.
  - intros r g' Hp. assert (g' = g) as ->; [|by apply HQ].
    destruct e as [? e|? e|? e|? e|? e| | | | | | | | | | | |]; try done; destruct e; try done;
      by destruct Hp.
Qed.

(** A program that announces the state reached and leaves no write. *)
Definition keeps {A} (m : M A) (g : Writes) : Prop := wp D m (fun _ g' => g' = g) g.

Ltac silent := unfold ask; apply silent_call; [reflexivity | try done | intros ? ?].
Ltac noisy :=
  unfold ask; apply disciplined_call;
  [split; [done|cbn] | cbn | try done | let E := fresh in intros ? ? E; cbn in E; try subst].

Lemma keeps_bind {A B} (m : M A) (f : A -> M B) g Q :
  keeps m g -> (forall a, wp D (f a) Q g) -> wp D (bind m f) Q g.
Proof.
  intros Hm Hf. apply wp_bind; [apply _|]. eapply wp_mono; [apply _| |exact Hm].
  intros a g' ->. apply Hf.
Qed.

Lemma keeps_for_each {A} (l : list A) (body : A -> M unit) g :
  (forall x, x ∈ l -> keeps (body x) g) -> keeps (for_each l body) g.
Proof.
  intros Hb. unfold keeps. apply wp_for_each with (I := fun g' => g' = g); try done; [apply _|].
  intros x g' Hx ->. by apply Hb.
Qed.

Lemma changed_tenant g conv : changed g conv -> cv_TenantID conv = t.
Proof. by intros [[? ?] ?]. Qed.
Lemma changed_scope g conv : changed g conv -> scope (cv_ID conv).
Proof. by intros [[? ?] ?]. Qed.
Lemma changed_last g conv : changed g conv -> w_last g = Some true.
Proof. by intros [? ?]. Qed.
Lemma ready_changed g conv : ready g conv -> changed g conv.
Proof. by intros [? ?]. Qed.
Lemma ready_stored g conv : ready g conv -> conv ∈ w_stored g.
Proof. by intros [? ?]. Qed.
#[local] Hint Resolve changed_tenant changed_scope changed_last ready_changed ready_stored : core.

Lemma changed_announced g conv event p :
  changed g conv -> payload_stored g p -> announced g event p.
Proof. intros [? ?] ?. split; [by right|done]. Qed.
#[local] Hint Resolve changed_announced : core.

Lemma inbox_topics_in_tenant t' sector assigned :
  Forall (tenant_topic t') (InboxTopicsFor t' sector assigned).
Proof. unfold InboxTopicsFor. repeat case_match; repeat constructor. Qed.

Lemma recordEvent_keeps g conv ty data :
  changed g conv -> keeps (recordEvent c conv ty data) g.
Proof.
  intros Hr. unfold keeps, recordEvent.
  match goal with |- context [match ?x with (_, _) => _ end] => destruct x as [a b] end.
  apply wp_bind; [apply _|]. silent. apply wp_bind; [apply _|]. silent.
  apply wp_bind; [apply _|]. noisy; eauto.
Qed.

(** Not a message sent by automation. *)
Definition not_automated (p : Payload) : Prop :=
  match p with PMessage m => mp_SenderType m <> SenderAutomation | _ => True end.

Lemma conversationPayload_wp g conv (Q : Payload -> Writes -> Prop) :
  ready g conv -> (forall p, payload_stored g p -> not_automated p -> Q p g) ->
  wp D (conversationPayload c conv) Q g.
Proof.
  intros Hr HQ. unfold conversationPayload. apply wp_bind; [apply _|]. silent.
  apply HQ; cbn; eauto.
Qed.

Lemma publish_keeps g conv topic event p :
  changed g conv -> tenant_topic t topic -> payload_stored g p ->
  keeps (ask c (Publish topic event p)) g.
Proof. intros Hr Ht Hp. unfold keeps. noisy; eauto. Qed.

Lemma publishRooms_keeps g conv event p :
  changed g conv -> payload_stored g p -> keeps (publishRooms c conv event p) g.
Proof.
  intros Hr Hp. unfold publishRooms. rewrite (changed_tenant _ _ Hr).
  apply keeps_bind; [by apply (publish_keeps g conv); [| constructor|]|]. intros _.
  apply keeps_for_each. intros topic Htopic.
  apply keeps_bind; [|done]. apply (publish_keeps g conv); [done| |done].
  by apply (proj1 (Forall_forall _ _) (inbox_topics_in_tenant _ _ _)) in Htopic.
Qed.

Lemma publishConversation_keeps g conv :
  ready g conv -> keeps (publishConversation c conv) g.
Proof.
  intros Hr. unfold publishConversation. apply wp_bind; [apply _|].
  apply (conversationPayload_wp g conv); [done|]. intros p Hp _. apply publishRooms_keeps; auto.
Qed.


Lemma emitRuleEvent_keeps g conv event p :
  changed g conv -> payload_stored g p -> not_automated p ->
  keeps (emitRuleEvent s c conv event p) g.
Proof.
  intros Hr Hp Hm. unfold keeps, emitRuleEvent. case_match; [|done]. noisy; eauto.
  destruct p; cbn in *; intuition congruence.
Qed.

Lemma publishLifecycle_keeps g conv event :
  ready g conv -> keeps (publishLifecycle s c conv event) g.
Proof.
  intros Hr. unfold keeps, publishLifecycle. case_match; [done|].
  apply wp_bind; [apply _|]. apply (conversationPayload_wp g conv); [done|]. intros p Hp Hm.
  apply keeps_bind; [apply publishRooms_keeps; auto|]. intros _. apply emitRuleEvent_keeps; auto.
Qed.

Lemma enrich_keeps g a :
  keeps (integrationContact s c a) g /\ keeps (integrationAgent s c a) g.
Proof.
  unfold keeps, integrationContact, integrationAgent.
  split; (case_match; [done|]); by silent.
Qed.

Lemma resolveIntegrationMedia_keeps g msg : keeps (resolveIntegrationMedia s c msg) g.
Proof.
  unfold keeps, resolveIntegrationMedia. case_match; [done|].
  apply wp_fold with (I := fun _ g' => g' = g); try done; [apply _|].
  intros out a g' _ ->. case_match; [done|]. apply wp_bind; [apply _|]. silent.
  by repeat case_match.
Qed.

Lemma EmitLazy_keeps g conv event sector build :
  changed g conv ->
  wp D build (fun p g' => g' = g /\ payload_stored g p) g ->
  keeps (EmitLazy c t event sector build) g.
Proof.
  intros Hr Hb. unfold keeps, EmitLazy. apply wp_bind; [apply _|]. silent. case_match; [|done].
  apply wp_bind; [apply _|]. eapply wp_mono; [apply _| |exact Hb].
  intros p g' [-> Hp]. noisy; eauto.
Qed.

Lemma emitMessageWebhook_keeps g conv msg event :
  changed g conv -> keeps (emitMessageWebhook s c conv msg event) g.
Proof.
  intros Hr. unfold emitMessageWebhook. rewrite (changed_tenant _ _ Hr).
  apply (EmitLazy_keeps g conv); [done|].
  apply keeps_bind; [apply resolveIntegrationMedia_keeps|]. intros urls.
  apply keeps_bind; [apply enrich_keeps|]. intros contact.
  apply keeps_bind; [|done]. case_match; [apply enrich_keeps|done].
Qed.

Lemma emitConversationWebhook_keeps g conv event :
  ready g conv -> keeps (emitConversationWebhook s c conv event) g.
Proof.
  intros Hr. unfold emitConversationWebhook. rewrite (changed_tenant _ _ (ready_changed _ _ Hr)).
  apply (EmitLazy_keeps g conv); [by auto|].
  apply keeps_bind; [apply enrich_keeps|]. intros contact.
  apply keeps_bind; [apply enrich_keeps|]. intros agent.
  apply wp_bind; [apply _|]. silent. cbn. eauto 9.
Qed.

Lemma hydrateMessages_keeps g l : keeps (hydrateMessages s c l) g.
Proof.
  unfold keeps, hydrateMessages. do 2 (case_match; [done|]).
  apply wp_bind; [apply _|]. silent. by repeat case_match.
Qed.

Lemma hydrateMessage_wp g m (Q : Message -> Writes -> Prop) :
  (forall m', same_message m m' -> Q m' g) -> wp D (hydrateMessage s c m) Q g.
Proof.
  intros HQ.
  eapply wp_mono; [apply _| |apply (wp_returns D _ (fun _ g' => g' = g) (same_message m))];
    [by intros a g' [-> Ha]; apply HQ| |apply hydrateMessage_returns].
  apply keeps_bind; [apply hydrateMessages_keeps|done].
Qed.

Lemma PublishAll_keeps g events :
  Forall (fun e => tenant_topic t (pe_Topic e) /\ announced g (pe_Event e) (pe_Data e)) events ->
  keeps (PublishAll s c events) g.
Proof.
  intros He. unfold keeps, PublishAll. case_match; [done|]. case_match.
  - apply wp_bind; [apply _|]. noisy; [| |done].
    + eapply Forall_impl; [exact He|]. by intros ? [? ?].
    + eapply Forall_impl; [exact He|]. by intros ? [? ?].
  - apply keeps_for_each. intros e Hin. rewrite Forall_forall in He.
    destruct (He e Hin) as [? ?]. apply keeps_bind; [|done]. unfold keeps. by noisy.
Qed.

(** The rule event of a message, under the origin its sender gives it. *)
Lemma emitMessageRule_keeps g conv m :
  changed g conv ->
  keeps (emitRuleEvent s (if ms_SenderType m =! SenderAutomation
                          then WithRuleOrigin c OriginAutomation else c)
           conv EventMessageCreated (PMessage (NewMessagePayload m))) g.
Proof.
  intros Hr. unfold keeps, emitRuleEvent. case_match; [|done]. unfold ask. apply wp_call; [|done].
  set (c' := if ms_SenderType m =! SenderAutomation then _ else c).
  split_and!.
  - split; [by unfold c'; case_match|]. cbn. eauto.
  - by apply (changed_announced g conv).
  - unfold origin_pre, c'. case_match eqn:Es; [|by left]. right. prop_bools. by cbn.
  - cbn. intros Hs. unfold c'. rewrite bool_decide_true by done. done.
Qed.

(** [persistMessage] stores the message, then the bumped conversation. *)
Definition bumped_from (conv conv' : Conversation) : Prop :=
  exists at_ lm, conv' = set_UpdatedAt at_ (set_LastMessage lm (set_LastMessageAt at_ conv)).

Lemma persistMessage_wp g conv msg ty (Q : result (Message * Conversation) -> Writes -> Prop) :
  in_scope t scope conv -> ms_TenantID msg = t -> scope (ms_ConversationID msg) ->
  (forall m conv', same_message msg m -> bumped_from conv conv' ->
     ready (wrote_conv conv' g) conv' -> Q (Ok (m, conv')) (wrote_conv conv' g)) ->
  (forall e g', Q (Err e) g') ->
  wp D (persistMessage s c conv msg ty) Q g.
Proof.
  intros Hconv Ht Hs HQ Herr. unfold persistMessage.
  apply wp_bind; [apply _|]. apply hydrateMessage_wp. intros m Hm. cbn zeta.
  assert (ms_TenantID m = t /\ ms_ConversationID m = ms_ConversationID msg) as [Hmt Hmc].
  { by destruct Hm as (? & ? & ->). }
  apply wp_bind_ok; [apply _|]. noisy; [by rewrite Hmc|done|]. destruct r as [[]|e]; [|done].
  apply wp_bind_ok; [apply _|]. noisy; [done|done|]. destruct r as [[]|e]; [|done].
  set (conv' := bumpActivity m conv).
  assert (ready (wrote_conv conv' g) conv') as Hr by (split; [done|by left]).
  change (wrote_conv (bumpActivity m conv) (wrote_msg g)) with (wrote_conv conv' g).
  apply keeps_bind; [apply recordEvent_keeps; auto|]. intros _.
  apply wp_bind; [apply _|]. apply (conversationPayload_wp _ conv'); [done|]. intros p Hp _.
  apply keeps_bind.
  { apply PublishAll_keeps. rewrite (changed_tenant _ _ (ready_changed _ _ Hr)).
    apply Forall_cons; split; [split; [constructor|by apply (changed_announced _ conv'); auto]|].
    apply Forall_cons; split; [split; [constructor|by apply (changed_announced _ conv'); auto]|].
    apply Forall_fmap. eapply Forall_impl; [apply inbox_topics_in_tenant|].
    intros topic Htopic. split; [done|by apply (changed_announced _ conv'); auto]. }
  intros _. apply keeps_bind.
  { case_match; [|done]. apply keeps_bind; [apply emitMessageWebhook_keeps; auto|]. intros _.
    apply emitMessageRule_keeps; auto. }
  intros _. apply HQ; [done| |done]. by exists (ms_CreatedAt m), (NewLastMessageSnapshot (Some m)).
Qed.


(** ** The operations obey it *)

(** An operation that reports success swallowed no failed write. *)
Definition settled {A} (r : result A) (g : Writes) : Prop :=
  is_ok r = true -> ~ swallowed_failure g.

Lemma ready_wrote g conv : in_scope t scope conv -> ready (wrote_conv conv g) conv.
Proof. intros ?. split; [done|by left]. Qed.

Lemma changed_settled {A} g conv (r : result A) : changed g conv -> settled r g.
Proof. intros [? H] _. unfold swallowed_failure. by rewrite H. Qed.

Lemma no_writes_settled {A} (r : result A) : settled r no_writes.
Proof. done. Qed.

Lemma err_settled {A} e g : settled (@Err A e) g.
Proof. done. Qed.
#[local] Hint Resolve ready_wrote changed_settled no_writes_settled err_settled : core.

Lemma keeps_end {A} (m : M A) g (Q : A -> Writes -> Prop) :
  keeps m g -> (forall a, Q a g) -> wp D m Q g.
Proof. intros Hm HQ. eapply wp_mono; [apply _| |exact Hm]. by intros a ? ->. Qed.

Lemma loadVisible_wp g id (Q : result (Conversation * AuthContext) -> Writes -> Prop) :
  scope id -> (forall e, Q (Err e) g) ->
  (forall conv ac, in_scope t scope conv -> cv_ID conv = id -> Q (Ok (conv, ac)) g) ->
  wp D (loadVisible c id) Q g.
Proof.
  intros Hid Herr Hok. unfold loadVisible, requireTenant. rewrite Hc. cbn [bind_ok bind].
  destruct (FromContext c) as [ac|]; [|apply Herr].
  apply wp_bind_ok; [apply _|]. unfold ask. apply silent_call; [done|done|].
  intros [conv|e] Hr; [|apply Herr]. destruct Hr as [_ [Hid' Ht]]. case_match; [|apply Herr].
  apply Hok; [by split; [|rewrite Hid']|done].
Qed.

(** The reply of a repository read within the tenant. *)
Lemma find_wp g id (Q : result Conversation -> Writes -> Prop) :
  scope id -> (forall e, Q (Err e) g) ->
  (forall conv, in_scope t scope conv -> cv_ID conv = id -> Q (Ok conv) g) ->
  wp D (ask c (ConvFindByID id)) Q g.
Proof.
  intros Hid Herr Hok. unfold ask. apply silent_call; [done|done|].
  intros [conv|e] Hr; [|apply Herr]. destruct Hr as [_ [Hid' Ht]].
  apply Hok; [by split; [|rewrite Hid']|done].
Qed.

Lemma update_wp g conv (Q : result unit -> Writes -> Prop) :
  in_scope t scope conv -> (forall e, Q (Err e) (write_failed g)) ->
  (ready (wrote_conv conv g) conv -> Q (Ok tt) (wrote_conv conv g)) ->
  wp D (ask c (ConvUpdate conv)) Q g.
Proof. intros Hs Herr Hok. noisy; [done|done|]. destruct r as [[]|e]; auto. Qed.

Lemma find_msg_wp g id (Q : result Message -> Writes -> Prop) :
  (forall e, Q (Err e) g) -> (forall m, ms_ID m = id -> ms_TenantID m = t -> Q (Ok m) g) ->
  wp D (ask c (MsgFindByID id)) Q g.
Proof.
  intros Herr Hok. apply (silent_call (embed (MsgFindByID id))); [done|done|].
  intros [m|e] Hr; [|apply Herr]. destruct Hr as [_ [? ?]]. by apply Hok.
Qed.

Lemma msg_update_wp g m (Q : result unit -> Writes -> Prop) :
  ms_TenantID m = t -> (forall e, Q (Err e) (write_failed g)) -> Q (Ok tt) (wrote_msg g) ->
  wp D (ask c (MsgUpdate m)) Q g.
Proof. intros Hs Herr Hok. noisy; [done|done|]. destruct r as [[]|e]; auto. Qed.


Lemma hook_keeps g conv (h : Hook unit) :
  ready g conv -> hook_conv h = conv -> keeps (ask c h) g.
Proof. intros Hr <-. unfold keeps. noisy; eauto. Qed.

Lemma queue_keeps g conv sector queue :
  changed g conv -> keeps (ask c (QueueChanged sector queue)) g.
Proof. intros Hr. unfold keeps. noisy; eauto. Qed.

Lemma audit_keeps g conv e : changed g conv -> keeps (ask c (AuditRecord e)) g.
Proof. intros Hr. unfold keeps. noisy; eauto. Qed.

Lemma notify_keeps g conv n : changed g conv -> nt_TenantID n = t -> keeps (ask c (Notify n)) g.
Proof. intros Hr Hn. unfold keeps. noisy; eauto. Qed.

Lemma ephemeral_keeps g conv event p :
  in_scope t scope conv -> ephemeral event = true -> payload_stored g p ->
  keeps (ask c (Publish (TopicConversation (cv_TenantID conv) (cv_ID conv)) event p)) g.
Proof.
  intros [Ht _] He Hp. unfold keeps. noisy; [|split; [by left|done]|done]. rewrite Ht. constructor.
Qed.

Lemma room_keeps g conv event p :
  changed g conv -> payload_stored g p ->
  keeps (ask c (Publish (TopicConversation (cv_TenantID conv) (cv_ID conv)) event p)) g.
Proof.
  intros Hr Hp. apply (publish_keeps g conv); [done| |done].
  rewrite (changed_tenant _ _ Hr). constructor.
Qed.

#[local] Hint Extern 1 (payload_stored _ _) => exact I : disc.
#[local] Hint Extern 1 (not_automated _) => exact I : disc.
#[local] Hint Extern 1 (ephemeral _ = true) => reflexivity : disc.
#[local] Hint Extern 1 (hook_conv _ = _) => reflexivity : disc.
#[local] Hint Resolve recordEvent_keeps publishConversation_keeps publishLifecycle_keeps
  emitConversationWebhook_keeps emitMessageWebhook_keeps emitRuleEvent_keeps hook_keeps
  queue_keeps audit_keeps room_keeps ephemeral_keeps : disc.

Ltac scoped := match goal with H : in_scope _ _ _ |- _ => by apply H end.

(** One step of an operation. *)
Ltac op_step :=
  lazymatch goal with
  | |- wp _ (let '(_, _) := ?x in _) _ _ => destruct x
  | |- wp _ (Ret _) _ _ => cbn [wp]
  | |- wp _ (ok _) _ _ => unfold ok; cbn [wp]
  | |- wp _ (fail _) _ _ => unfold fail; cbn [wp]; auto
  | |- wp _ (forget _) _ _ => unfold forget
  | |- wp _ (bind_ok (requireTenant _) _) _ _ => unfold requireTenant; rewrite Hc; cbn [bind_ok bind]
  | |- wp _ (bind_ok _ _) _ _ => apply wp_bind_ok; [apply _|]
  | |- wp _ (bind _ _) _ _ =>
      first [ apply keeps_bind; [solve [eauto with disc]|intros ?]
            | apply wp_bind; [apply _|] ]
  | |- wp _ (loadVisible _ _) _ _ =>
      apply loadVisible_wp; [done|by auto|intros conv ac Hs Hid; cbn beta iota delta [fst snd]]
  | |- wp _ (ask _ (ConvFindByID _)) _ _ => apply find_wp; [done|by auto|intros conv Hs Hid]
  | |- wp _ (ask _ (MsgFindByID _)) _ _ => apply find_msg_wp; [by auto|intros ? ? ?]
  | |- wp _ (ask _ (MsgUpdate _)) _ _ => apply msg_update_wp; [done|by auto|]
  | |- wp _ (ask _ (ConvUpdate _)) _ _ => apply update_wp; [done|by auto|let H := fresh "Hr" in intros H]
  | |- wp _ (persistMessage _ _ _ _ _) _ _ =>
      apply persistMessage_wp;
      [done|scoped|scoped|let H := fresh "Hr" in intros ? ? ? ? H|by auto]
  | |- wp _ (hydrateMessage _ _ _) _ _ => apply hydrateMessage_wp; intros ? ?
  | |- wp _ (conversationPayload _ _) _ _ =>
      eapply conversationPayload_wp; [eassumption|let p := fresh "p" in intros p ? ?]
  | |- wp _ (ask _ ?e) _ _ =>
      first [ apply (silent_call (embed e)); [reflexivity|done|let r := fresh "r" in intros r _]
            | apply keeps_end; [solve [eauto with disc]|intros ?] ]
  | |- wp _ (if ?b then _ else _) _ _ => case_match
  | |- wp _ (match ?x with _ => _ end) _ _ => case_match
  | |- wp _ _ _ _ => apply keeps_end; [solve [eauto with disc]|intros ?]
  | |- match ?r with Ok _ => _ | Err _ => _ end => case_match
  | _ => progress eauto
  end.

Definition obeys {A} (m : M (result A)) : Prop := wp D m settled no_writes.

Lemma Get_obeys id : scope id -> obeys (Get c id).
Proof. intros ?. unfold obeys, Get. repeat op_step. Qed.

Lemma List_obeys filter page : obeys (List_ c filter page).
Proof. unfold obeys, List_. repeat op_step. Qed.

Lemma UnreadCounts_obeys : obeys (UnreadCounts_ c).
Proof. unfold obeys, UnreadCounts_. repeat op_step. Qed.

Lemma Reopen_obeys id : scope id -> obeys (Reopen s c id).
Proof. intros ?. unfold obeys, Reopen. repeat op_step. Qed.

Lemma ApplyTags_obeys id add remove : scope id -> obeys (ApplyTags s c id add remove).
Proof. intros ?. unfold obeys, ApplyTags. repeat op_step. Qed.

Lemma MarkUnread_obeys id : scope id -> obeys (MarkUnread c id).
Proof. intros ?. unfold obeys, MarkUnread. repeat op_step. Qed.

Lemma MarkRead_obeys id : scope id -> obeys (MarkRead c id).
Proof. intros ?. unfold obeys, MarkRead. repeat op_step. Qed.

Lemma SetTyping_obeys id on : scope id -> obeys (SetTyping c id on).
Proof. intros ?. unfold obeys, SetTyping. destruct on; repeat op_step. Qed.

#[local] Hint Resolve hydrateMessages_keeps : disc.

Lemma ListMessages_obeys id page : scope id -> obeys (ListMessages s c id page).
Proof. intros ?. unfold obeys, ListMessages. repeat op_step. Qed.

Lemma ListEvents_obeys id page : scope id -> obeys (ListEvents c id page).
Proof. intros ?. unfold obeys, ListEvents. repeat op_step. Qed.

Lemma sendPayload_keeps g conv mtype cmd : keeps (sendPayload s c conv mtype cmd) g.
Proof. unfold keeps, sendPayload, resolveTemplate. repeat op_step. Qed.
#[local] Hint Resolve sendPayload_keeps : disc.

Lemma SendMessage_obeys id cmd : scope id -> obeys (SendMessage_ s c id cmd).
Proof. intros ?. unfold obeys, SendMessage_. repeat op_step. Qed.

Lemma mentions_keep g conv uids self :
  changed g conv ->
  keeps (for_each uids (fun uid =>
     if (uid =! "") || (uid =! self) then Ret tt
     else ask c (Notify (mkNotify (cv_TenantID conv) uid "mention.internal_note"
             "You were mentioned in an internal note" ""
             ("/conversations/" +:+ cv_ID conv))))) g.
Proof.
  intros Hr. apply keeps_for_each. intros uid _. unfold keeps. case_match; [done|].
  apply (notify_keeps g conv); [done|]. by apply (changed_tenant g).
Qed.
#[local] Hint Resolve mentions_keep : disc.

(** The note a closing writes comes after the closing itself. *)
Lemma AddInternalNote_wp g id cmd (Q : result Message -> Writes -> Prop) :
  scope id -> (forall e g', Q (Err e) g') ->
  (forall m conv, ready (wrote_conv conv g) conv -> Q (Ok m) (wrote_conv conv g)) ->
  wp D (AddInternalNote_ s c id cmd) Q g.
Proof. intros ? Herr HQ. unfold AddInternalNote_. repeat op_step. Qed.

Lemma closeEffects_keeps g conv data now queued :
  ready g conv -> keeps (closeEffects s c conv data now queued) g.
Proof. intros Hr. unfold keeps, closeEffects. repeat op_step. Qed.
#[local] Hint Resolve closeEffects_keeps : disc.

Lemma ready_wrote_more g conv conv' :
  ready g conv -> ready (wrote_conv conv' g) conv' -> ready (wrote_conv conv' g) conv.
Proof. intros [[Hs _] Hin] _. split; [done|by right]. Qed.

Lemma AddInternalNote_obeys id cmd : scope id -> obeys (AddInternalNote_ s c id cmd).
Proof. intros ?. apply AddInternalNote_wp; [done|auto|]. intros m conv Hr. eauto. Qed.

Lemma applyUpdate_scope cmd conv conv' b :
  in_scope t scope conv -> applyUpdate cmd conv = Ok (conv', b) -> in_scope t scope conv'.
Proof.
  intros Hs. unfold applyUpdate. intros H. repeat case_match; simplify_eq; by apply Hs.
Qed.

Lemma Update_obeys id cmd : scope id -> obeys (Update s c id cmd).
Proof.
  intros ?. unfold obeys, Update. repeat op_step.
  all: match goal with H : applyUpdate _ _ = _ |- _ => apply applyUpdate_scope in H; [|done] end;
    destruct (up_Tags cmd); repeat op_step.
Qed.

Lemma Close_obeys id cmd : scope id -> obeys (Close s c id cmd).
Proof.
  intros ?. unfold obeys, Close. repeat op_step.
  all: apply AddInternalNote_wp; [by apply Hs|auto|intros m conv' Hr'];
    pose proof (ready_wrote_more _ _ _ Hr Hr'); repeat op_step.
Qed.

(** The sweep of idle conversations goes on past a failed store, and counts what it
    closed. *)
Definition swept (r : result Z) (g : Writes) : Prop :=
  match r with
  | Ok n => n = Z.of_nat (length (w_stored g)) /\
            Forall (fun conv => cv_Status conv = StatusClosed /\ is_Some (cv_ClosedAt conv))
              (w_stored g)
  | Err _ => w_stored g = []
  end.

Lemma CloseInactive_obeys idleFor :
  (forall id, scope id) -> wp D (CloseInactive s c idleFor) swept no_writes.
Proof.
  intros Hall. unfold CloseInactive. do 3 op_step. apply wp_bind_ok; [apply _|].
  apply (silent_call (embed (ConvListInactiveOpen (r - idleFor) 500))); [done|done|].
  intros [convs|e] Hl; [|done]. destruct Hl as [_ Hl]. rewrite Forall_forall in Hl.
  apply wp_bind; [apply _|].
  apply wp_fold with (I := fun n => swept (Ok n)); [apply _| | |by repeat constructor].
  - intros n conv g Hin [Hn Hg]. apply wp_bind; [apply _|]. apply update_wp.
    + split; [exact (Hl conv Hin)|apply Hall].
    + intros e. by split.
    + intros Hr. repeat op_step. split; cbn; [lia|]. constructor; [by cbn; eauto|done].
  - intros n g Hg. repeat op_step.
Qed.

Lemma mustExist_keeps g {A} (m : M (result A)) msg key : keeps m g -> keeps (mustExist m msg key) g.
Proof.
  intros Hm. unfold keeps, mustExist. apply keeps_bind; [done|]. intros r. repeat op_step.
Qed.

Lemma channel_keeps g id : keeps (ask c (ChannelFindByID id)) g.
Proof. by apply (silent_call (embed _)). Qed.
Lemma sector_keeps g id : keeps (ask c (SectorFindByID id)) g.
Proof. by apply (silent_call (embed _)). Qed.

Lemma create_wp g conv (Q : result unit -> Writes -> Prop) :
  in_scope t scope conv -> (forall e, Q (Err e) (write_failed g)) ->
  (ready (wrote_conv conv g) conv -> Q (Ok tt) (wrote_conv conv g)) ->
  wp D (ask c (ConvCreate conv)) Q g.
Proof. intros Hs Herr Hok. noisy; [by destruct Hs|done|]. destruct r as [[]|e]; auto. Qed.

#[local] Hint Resolve mustExist_keeps channel_keeps sector_keeps : disc.

Lemma Create_obeys cmd : (forall id, scope id) -> obeys (Create s c cmd).
Proof.
  intros Hall. unfold obeys, Create. repeat op_step.
  all: apply create_wp; [by split|auto|intros Hr]; repeat op_step.
Qed.

Lemma ensureAgentExists_keeps g id : keeps (ensureAgentExists s c id) g.
Proof. unfold keeps, ensureAgentExists. repeat op_step. Qed.

(** What a mutation of the rule executor may do before the store: nothing but reads. *)
Definition tame (mutate : Conversation -> M (result (string * Conversation))) : Prop :=
  forall conv, in_scope t scope conv ->
    wp D (mutate conv) (fun r g => g = no_writes /\
      match r with Ok (_, conv') => in_scope t scope conv' | Err _ => True end) no_writes.

Lemma automationMutate_obeys id mutate :
  scope id -> tame mutate -> obeys (automationMutate s c id mutate).
Proof.
  intros ? Ht. unfold obeys, automationMutate. do 3 op_step. apply wp_bind_ok; [apply _|].
  eapply wp_mono; [apply _| |by apply Ht].
  intros [[event conv']|e] g [-> Hs']; [|auto]. repeat op_step.
Qed.
#[local] Hint Resolve ensureAgentExists_keeps : disc.

Ltac tame_mutation :=
  intros ?; apply automationMutate_obeys; [done|]; intros conv Hs; repeat op_step;
  try (split; [done|]); repeat case_match; try apply Hs.

Lemma AutomationAssignAgent_obeys id a : scope id -> obeys (AutomationAssignAgent s c id a).
Proof. tame_mutation. Qed.
Lemma AutomationAssignTeam_obeys id a : scope id -> obeys (AutomationAssignTeam s c id a).
Proof. tame_mutation. Qed.
Lemma AutomationRemoveAgent_obeys id : scope id -> obeys (AutomationRemoveAgent s c id).
Proof. tame_mutation. Qed.
Lemma AutomationRemoveTeam_obeys id : scope id -> obeys (AutomationRemoveTeam s c id).
Proof. tame_mutation. Qed.
Lemma AutomationAddTag_obeys id a : scope id -> obeys (AutomationAddTag s c id a).
Proof. tame_mutation. Qed.
Lemma AutomationRemoveTag_obeys id a : scope id -> obeys (AutomationRemoveTag s c id a).
Proof. tame_mutation. Qed.
Lemma AutomationChangePriority_obeys id a : scope id -> obeys (AutomationChangePriority s c id a).
Proof. tame_mutation. Qed.
Lemma AutomationResolve_obeys id : scope id -> obeys (AutomationResolve s c id).
Proof. tame_mutation. Qed.
Lemma AutomationOpen_obeys id : scope id -> obeys (AutomationOpen s c id).
Proof. tame_mutation. Qed.
Lemma AutomationMarkPending_obeys id : scope id -> obeys (AutomationMarkPending s c id).
Proof. tame_mutation. Qed.

Lemma SendSystemMessage_obeys id text : scope id -> obeys (SendSystemMessage s c id text).
Proof. intros ?. unfold obeys, SendSystemMessage. repeat op_step. Qed.
Lemma SendAutomationMessage_obeys id rule text :
  scope id -> obeys (SendAutomationMessage s c id rule text).
Proof. intros ?. unfold obeys, SendAutomationMessage. repeat op_step. Qed.
Lemma SendAutomationAttachment_obeys id rule a :
  scope id -> obeys (SendAutomationAttachment s c id rule a).
Proof. intros ?. unfold obeys, SendAutomationAttachment. repeat op_step. Qed.
Lemma SendAutomationInteractive_obeys id rule json :
  scope id -> obeys (SendAutomationInteractive s c id rule json).
Proof. intros ?. unfold obeys, SendAutomationInteractive. repeat op_step. Qed.

Lemma loadMessage_wp g conv id (Q : result Message -> Writes -> Prop) :
  (forall e, Q (Err e) g) -> (forall m, ms_TenantID m = t -> Q (Ok m) g) ->
  wp D (loadMessage c conv id) Q g.
Proof. intros Herr Hok. unfold loadMessage. repeat op_step. Qed.

(** After a message write: the snapshot is refreshed, or nothing more is written. *)
Definition after_edit (conv : Conversation) (g : Writes) (conv' : Conversation) (g' : Writes)
  : Prop :=
  in_scope t scope conv' /\
  (g' = g \/ g' = wrote_conv conv' g).

Lemma refresh_wp g conv m deleted (Q : result Conversation -> Writes -> Prop) :
  in_scope t scope conv -> (forall e g', Q (Err e) g') ->
  (forall conv' g', after_edit conv g conv' g' -> Q (Ok conv') g') ->
  wp D (refreshLastMessageSnapshot c conv m deleted) Q g.
Proof.
  intros Hs Herr HQ. unfold refreshLastMessageSnapshot.
  repeat op_step; apply HQ; split; auto.
Qed.

Lemma received_tenant to now m : ms_TenantID (received to now m) = ms_TenantID m.
Proof. unfold received. by repeat case_match. Qed.

Lemma ApplyDeliveryReceipt_obeys id status : obeys (ApplyDeliveryReceipt c id status).
Proof.
  unfold obeys, ApplyDeliveryReceipt. repeat op_step.
  apply msg_update_wp; [by rewrite received_tenant|auto|]. apply wp_bind; [apply _|].
  noisy; [rewrite received_tenant; subst; constructor|split; [by right|done]|done].
Qed.

Lemma edited_changed g conv conv' g' :
  after_edit conv (wrote_msg g) conv' g' -> changed g' conv'.
Proof. by intros [Hs [->| ->]]. Qed.

Lemma EditMessage_obeys id messageID text : scope id -> obeys (EditMessage s c id messageID text).
Proof.
  intros ?. unfold obeys, EditMessage. repeat op_step. 
  apply loadMessage_wp; [auto|intros m Hm]. repeat op_step. 
  apply refresh_wp; [done|auto|intros conv' g' He]. apply edited_changed in He.
  repeat op_step.
Qed.

Lemma DeleteMessage_obeys id messageID : scope id -> obeys (DeleteMessage c id messageID).
Proof.
  intros ?. unfold obeys, DeleteMessage. repeat op_step. 
  apply loadMessage_wp; [intros e; repeat op_step|intros m Hm; repeat op_step].
  apply refresh_wp; [done|auto|intros conv' g' He]. apply edited_changed in He.
  repeat op_step.
Qed.
End Discipline.

(** ** The whole service *)

Inductive ServiceOp :=
| Gated (id : string) (op : GatedOp)
| Automated (id : string) (op : AutoOp)
| Opening (cmd : CreateConversation)
| Sweeping (idleFor : Z)
| Receipt (messageID status : string)
| Listing (filter : ListFilter) (p : PageRequest)
| Counting.

Definition perform (s : Service) (c : Ctx) (op : ServiceOp) : M (result unit) :=
  match op with
  | Gated id op => gated s c id op
  | Automated id op => automated s c id op
  | Opening cmd => forget (Create s c cmd)
  | Sweeping idleFor => forget (CloseInactive s c idleFor)
  | Receipt messageID status => ApplyDeliveryReceipt c messageID status
  | Listing filter p => forget (List_ c filter p)
  | Counting => forget (UnreadCounts_ c)
  end.

(** The conversations an operation may write or announce: the one it is asked
    about, the fresh one it opens, or any of the tenant's for the idle sweep and
    for the receipt of a message. *)
Definition scope_of (op : ServiceOp) (id : string) : Prop :=
  match op with Gated i _ | Automated i _ => id = i | _ => True end.

Definition may_swallow (op : ServiceOp) : bool :=
  match op with Sweeping _ => true | _ => false end.

Lemma obeys_forget t scope c {A} (m : M (result A)) :
  obeys t scope c m -> obeys t scope c (forget m).
Proof.
  intros Hm. unfold obeys, forget. apply wp_bind_ok; [apply pre_post_mono|].
  eapply wp_mono; [apply pre_post_mono| |exact Hm]. by intros [a|e] g.
Qed.

Create HintDb obeys.
#[export] Hint Resolve obeys_forget Get_obeys Update_obeys SendMessage_obeys
  AddInternalNote_obeys Close_obeys ApplyTags_obeys Reopen_obeys ListMessages_obeys
  ListEvents_obeys SetTyping_obeys MarkRead_obeys MarkUnread_obeys EditMessage_obeys
  DeleteMessage_obeys SendSystemMessage_obeys SendAutomationMessage_obeys
  SendAutomationAttachment_obeys SendAutomationInteractive_obeys AutomationAssignAgent_obeys
  AutomationAssignTeam_obeys AutomationRemoveAgent_obeys AutomationRemoveTeam_obeys
  AutomationAddTag_obeys AutomationRemoveTag_obeys AutomationChangePriority_obeys
  AutomationResolve_obeys AutomationOpen_obeys AutomationMarkPending_obeys Create_obeys
  ApplyDeliveryReceipt_obeys List_obeys UnreadCounts_obeys : obeys.
#[export] Hint Extern 1 (scope_of _ _) => exact I || reflexivity : obeys.

Lemma perform_obeys s c t op :
  RequireTenant c = Ok t ->
  wp (discipline t (scope_of op) c) (perform s c op)
    (fun r g => may_swallow op = false -> settled r g) no_writes.
Proof.
  intros Hc.
  assert (may_swallow op = false -> obeys t (scope_of op) c (perform s c op)) as Hop.
  { destruct op as [id op|id op| | | | |]; try done; cbn [perform];
      try destruct op; cbn [gated automated scope_of]; intros _; eauto with obeys. }
  destruct (may_swallow op) eqn:Em.
  - destruct op; try done. unfold perform, forget. apply wp_bind_ok; [apply pre_post_mono|].
    eapply wp_mono; [apply pre_post_mono| |by apply CloseInactive_obeys].
    by intros [a|e] g.
  - eapply wp_mono; [apply pre_post_mono| |by apply Hop]. auto.
Qed.

Lemma no_tenant_no_call' (s : Service) (c : Ctx) (e : error) (op : ServiceOp) :
  RequireTenant c = Err e -> perform s c op = Ret (Err e).
Proof.
  intros Hc.
  assert (forall id, loadVisible c id = Ret (Err e)) as Hload
    by (intros id; unfold loadVisible, requireTenant; by rewrite Hc).
  destruct op as [id op|id op| | | | |]; [destruct op|destruct op|..]; cbn [perform gated automated];
    unfold forget, Get, Update, SendMessage_, AddInternalNote_, Close, ApplyTags, Reopen,
      ListMessages, ListEvents, SetTyping, MarkRead, MarkUnread, EditMessage, DeleteMessage;
    rewrite ?Hload; try reflexivity;
    unfold bind_ok; cbn -[RequireTenant]; rewrite ?Hc; reflexivity.
Qed.

(** ** Properties *)

(** C5. Tenant isolation: every operation makes every call under its caller's tenant,
    publishes only to that tenant's rooms, writes and announces only documents of
    that tenant and, when it is asked about a conversation, only that one,
    whatever its dependencies answer. *)
Theorem operations_stay_in_tenant (s : Service) (c : Ctx) (t : string) (op : ServiceOp) :
  RequireTenant c = Ok t ->
  wp (pre_post (tenant_pre t (scope_of op)) (repo_post t)) (perform s c op)
    (fun _ _ => True) no_writes.
Proof.
  intros Hc. eapply wp_mono; [apply pre_post_mono|done|].
  eapply wp_pre_weaken; [|by apply perform_obeys]. by intros R c' e g (? & _).
Qed.

Lemma operations_stay_in_tenant_witness :
  wp (pre_post (tenant_pre "acme" (scope_of (Gated "c1" (OpSend Sample.hello)))) (repo_post "acme"))
    (perform Sample.service Sample.ctx (Gated "c1" (OpSend Sample.hello))) (fun _ _ => True) no_writes.
Proof. apply operations_stay_in_tenant. reflexivity. Defined.

(** C20. Announce after store: an operation publishes a change, records it in the
    timeline, notifies, audits or calls a hook only once its last write succeeded,
    a conversation it announces is one it stored, and (the idle sweep apart, which
    goes on past a failed store) it never reports success over a failed write. *)
Theorem operations_announce_stored (s : Service) (c : Ctx) (t : string) (op : ServiceOp) :
  RequireTenant c = Ok t ->
  wp (pre_post announce_pre (repo_post t)) (perform s c op)
    (fun r g => may_swallow op = false -> is_ok r = true -> ~ swallowed_failure g) no_writes.
Proof.
  intros Hc. eapply wp_pre_weaken; [|by apply perform_obeys]. by intros R c' e g (? & ? & _).
Qed.

Lemma operations_announce_stored_witness :
  wp (pre_post announce_pre (repo_post "acme")) (perform Sample.service Sample.ctx (Gated "c1" (OpSend Sample.hello)))
    (fun r g => may_swallow (Gated "c1" (OpSend Sample.hello)) = false -> is_ok r = true -> ~ swallowed_failure g) no_writes.
Proof. apply operations_announce_stored. reflexivity. Defined.

(** The automation origin: an operation calls its dependencies under the very
    context it was given, except for the rule event of a message automation sent,
    which always carries the automation origin. *)
Theorem operations_mark_automation (s : Service) (c : Ctx) (t : string) (op : ServiceOp) :
  RequireTenant c = Ok t ->
  wp (pre_post (fun R c' e g => origin_pre c R c' e g /\ marked_pre R c' e g) (repo_post t))
    (perform s c op) (fun _ _ => True) no_writes.
Proof.
  intros Hc. eapply wp_mono; [apply pre_post_mono|done|].
  eapply wp_pre_weaken; [|by apply perform_obeys]. by intros R c' e g (? & ? & ? & ?).
Qed.

Lemma operations_mark_automation_witness :
  wp (pre_post (fun R c' e g => origin_pre Sample.ctx R c' e g /\ marked_pre R c' e g) (repo_post "acme"))
    (perform Sample.service Sample.ctx (Gated "c1" (OpSend Sample.hello))) (fun _ _ => True) no_writes.
Proof. apply (operations_mark_automation Sample.service Sample.ctx "acme"). reflexivity. Defined.

(** Without a tenant in its context an operation fails before any call. *)
Theorem no_tenant_no_call (s : Service) (c : Ctx) (e : error) (op : ServiceOp) :
  RequireTenant c = Err e -> perform s c op = Ret (Err e).
Proof. apply no_tenant_no_call'. Qed.

Lemma no_tenant_no_call_witness :
  perform Sample.service Background (Gated "c1" (OpSend Sample.hello)) = Ret (Err (Forbidden "missing tenant scope")).
Proof. apply no_tenant_no_call. reflexivity. Defined.

(** The idle sweep closes what it reports: the count is the number of stored
    conversations, each stored closed. *)
Theorem CloseInactive_counts_closed (s : Service) (c : Ctx) (t : string) (idleFor : Z) :
  RequireTenant c = Ok t ->
  wp (pre_post (tenant_pre t (fun _ => True)) (repo_post t)) (CloseInactive s c idleFor)
    swept no_writes.
Proof.
  intros Hc.
  eapply wp_pre_weaken; [|by apply (CloseInactive_obeys s t (fun _ => True) c Hc idleFor)].
  by intros R c' e g (? & _).
Qed.

Lemma CloseInactive_counts_closed_witness :
  wp (pre_post (tenant_pre "acme" (fun _ => True)) (repo_post "acme"))
    (CloseInactive Sample.service Sample.ctx (Hour)) swept no_writes.
Proof. apply (CloseInactive_counts_closed Sample.service Sample.ctx "acme"). reflexivity. Defined.
