(* ===== verification/ConvMachine.v ===== *)
(** * Conversations: the abstract state machine

    What a conversation document may become, operation by operation: a labelled
    transition relation, the store as a map of documents, and the invariants of the
    documents a store reaches. [ConvState.v] proves that the service's operations
    do nothing else. *)
From S2P Require Import Prelude GoStrings AppError Authz Shared ConvEntity Messages ConvContracts.
From S2P Require Import Prog Ports ConvBase ConvMessaging ConvLifecycle.
From S2P Require Import ConvIsolation ConvDiscipline.

(** ** Transitions *)

(** The operations that append a message to the conversation. *)
Definition sends (op : ServiceOp) : bool :=
  match op with
  | Gated _ (OpSend _ | OpNote _ | OpClose _) => true
  | Automated _ (OpSystemMessage _ | OpAutoMessage _ _ | OpAutoAttachment _ _
                 | OpAutoInteractive _ _) => true
  | _ => false
  end.

Definition edits (op : ServiceOp) : bool :=
  match op with Gated _ (OpEdit _ _ | OpDelete _) => true | _ => false end.

(** The field changes of the rule executor's operations. *)
Inductive auto_change (now : Time) : AutoOp -> Conversation -> Conversation -> Prop :=
| ac_assign a c : auto_change now (OpAssignAgent a) c (set_Status StatusAssigned (set_AssignedTo a c))
| ac_team sector c :
    auto_change now (OpAssignTeam sector) c
      (if cv_AssignedTo c =! "" then set_Status StatusQueued (set_SectorID sector c)
       else set_SectorID sector c)
| ac_remove_agent c :
    auto_change now OpRemoveAgent c
      (if cv_SectorID c <>! "" then set_Status StatusQueued (set_AssignedTo "" c)
       else set_AssignedTo "" c)
| ac_remove_team c : auto_change now OpRemoveTeam c (set_SectorID "" c)
| ac_add_tag t tag c : tag ∉ cv_Tags c -> auto_change now (OpAddTag t) c (set_Tags (cv_Tags c ++ [tag]) c)
| ac_remove_tag t tag c : tag ∈ cv_Tags c ->
    auto_change now (OpRemoveTag t) c (set_Tags (filter (fun x => x <> tag) (cv_Tags c)) c)
| ac_priority p c : Priority_Valid p = true -> auto_change now (OpChangePriority p) c (set_Priority p c)
| ac_resolve c : IsClosed (cv_Status c) = false ->
    auto_change now OpResolve c (set_ClosedAt (Some now) (set_Status StatusResolved c))
| ac_open st c : IsClosed (cv_Status c) = true -> st = StatusAssigned \/ st = StatusQueued \/ st = StatusNew ->
    auto_change now OpOpen c (set_ClosedAt None (set_Status st c))
| ac_pending c : cv_Status c <> StatusQueued -> auto_change now OpMarkPending c (set_Status StatusQueued c).

(** The document closed at [now]. *)
Definition shut (now : Time) (c : Conversation) : Conversation :=
  set_UpdatedAt now (set_ClosedAt (Some now) (set_Status StatusClosed c)).

(** The status of an open conversation, by its assignee and its queue. *)
Definition open_status (assignedTo queueID : string) : Status :=
  if decide (assignedTo = "") then if decide (queueID = "") then StatusNew else StatusQueued
  else StatusAssigned.

Definition resumed (now : Time) (c : Conversation) : Conversation :=
  set_UpdatedAt now (set_ClosedAt None
    (set_Status (open_status (cv_AssignedTo c) (cv_QueueID c)) c)).

(** The activity a message leaves on the document. *)
Definition gained (m : Message) (c : Conversation) : Conversation :=
  set_UpdatedAt (ms_CreatedAt m)
    (set_LastMessageAt (ms_CreatedAt m)
      (set_LastMessage
        (Some (mkSnapshot (ms_ID m) (truncateRunes (ms_Text m) 280) (ms_SenderType m)
                 (ms_MessageType m) (ms_CreatedAt m))) c)).

(** The fields a patch names, replaced. *)
Definition patched (cmd : UpdateConversation) (c : Conversation) : Conversation :=
  set_SectorID (default (cv_SectorID c) (up_SectorID cmd))
    (set_QueueID (default (cv_QueueID c) (up_QueueID cmd))
      (set_AssignedTo (default (cv_AssignedTo c) (up_AssignedTo cmd))
        (set_Priority (default (cv_Priority c) (up_Priority cmd))
          (set_Status (default (cv_Status c) (up_Status cmd)) c)))).

Definition valid_patch (cmd : UpdateConversation) : Prop :=
  (forall p, up_Priority cmd = Some p -> Priority_Valid p = true) /\
  (forall st, up_Status cmd = Some st -> Status_Valid st = true).

Lemma initialStatus_open_status a q : initialStatus a q = open_status a q.
Proof. unfold initialStatus, open_status. by repeat case_match; prop_bools; simplify_eq. Qed.

Lemma reopened_resumed now c : reopened now c = resumed now c.
Proof. unfold reopened, resumed. by rewrite initialStatus_open_status. Qed.

Lemma applyUpdate_patched cmd c c' b :
  applyUpdate cmd c = Ok (c', b) -> valid_patch cmd /\ c' = patched cmd c.
Proof.
  unfold applyUpdate, valid_patch, patched. destruct c, cmd; cbn. intros H.
  repeat case_match; simplify_eq/=; (split; [|done]); split; intros; by simplify_eq.
Qed.

Definition withTags (tags : option (list string)) (c : Conversation) : Conversation :=
  match tags with Some v => set_Tags v c | None => c end.
Definition withAttributes (attrs : option (list (string * value))) (c : Conversation) : Conversation :=
  match attrs with Some v => set_CustomAttributes v c | None => c end.

(** What one store of a document by [op] may do to it. *)
Inductive transition : ServiceOp -> Conversation -> Conversation -> Prop :=
| tr_activity op msg c : sends op = true -> transition op c (gained msg c)
| tr_snapshot op lm now c : edits op = true ->
    transition op c (set_UpdatedAt now (set_LastMessage lm c))
| tr_snapshot_at op lm at_ now c : edits op = true ->
    transition op c (set_UpdatedAt now (set_LastMessageAt at_ (set_LastMessage lm c)))
| tr_close id cmd now c : cv_Status c <> StatusClosed -> cv_Status c <> StatusArchived ->
    transition (Gated id (OpClose cmd)) c (shut now c)
| tr_sweep idle now c : IsClosed (cv_Status c) = false -> transition (Sweeping idle) c (shut now c)
| tr_reopen id now c : IsClosed (cv_Status c) = true ->
    transition (Gated id OpReopen) c (resumed now c)
| tr_tags id add remove add' remove' now c :
    transition (Gated id (OpTags add remove)) c
      (set_UpdatedAt now (set_Tags (applyTagChanges (cv_Tags c) add' remove') c))
| tr_read id now c :
    transition (Gated id OpMarkRead) c
      (set_UpdatedAt now (set_LastReadAt (Some now) (set_UnreadCount 0 c)))
| tr_unread id now c : cv_UnreadCount c = 0 ->
    transition (Gated id OpMarkUnread) c (set_UpdatedAt now (set_UnreadCount 1 c))
| tr_update id cmd now c : valid_patch cmd ->
    transition (Gated id (OpUpdate cmd)) c
      (set_UpdatedAt now (withAttributes (up_CustomAttributes cmd)
        (withTags (up_Tags cmd) (patched cmd c))))
| tr_auto id op at_ now c c' : auto_change at_ op c c' ->
    transition (Automated id op) c (set_UpdatedAt now c').

(** ** The store *)

(** One store by [op] under tenant [t]: a document of the tenant within the scope
    of [op] takes a transition, or a fresh document is opened. *)
Inductive store_step (t : string) (op : ServiceOp) : convs_view -> convs_view -> Prop :=
| ss_update (v : convs_view) id old new :
    v !! (t, id) = Some old -> scope_of op id -> transition op old new ->
    store_step t op v (<[(t, id) := new]> v)
| ss_open (v : convs_view) cmd conv :
    op = Opening cmd -> v !! (t, cv_ID conv) = None -> cv_TenantID conv = t ->
    cv_Status conv = open_status (cr_AssignedTo cmd) (cr_QueueID cmd) ->
    Priority_Valid (cv_Priority conv) = true ->
    cv_ClosedAt conv = None -> cv_UnreadCount conv = 0 ->
    store_step t op v (<[(t, cv_ID conv) := conv]> v).

(** The stores reachable by operations of any tenant. *)
Definition any_step (v v' : convs_view) : Prop := exists t op, store_step t op v v'.

(** ** Invariants *)

(** Every transition keeps the identity of the document. *)
Definition same_identity (c c' : Conversation) : Prop :=
  cv_ID c' = cv_ID c /\ cv_TenantID c' = cv_TenantID c /\ cv_ContactID c' = cv_ContactID c /\
  cv_Channel c' = cv_Channel c /\ cv_ChannelID c' = cv_ChannelID c /\
  cv_Protocol c' = cv_Protocol c /\ cv_CreatedAt c' = cv_CreatedAt c.

Lemma withs_identity tags attrs c : same_identity c (withAttributes attrs (withTags tags c)).
Proof. by destruct tags, attrs. Qed.

Lemma auto_change_identity now op c c' : auto_change now op c c' -> same_identity c c'.
Proof. destruct 1; by repeat case_match. Qed.

Lemma transition_identity op c c' : transition op c c' -> same_identity c c'.
Proof.
  destruct 1 as [| | | | | | | | |? cmd ????|?????? Ha]; try done.
  - exact (withs_identity (up_Tags cmd) (up_CustomAttributes cmd) (patched cmd c)).
  - by apply auto_change_identity in Ha.
Qed.

(** The values of a document are those the API declares. *)
Definition well_valued (c : Conversation) : Prop :=
  Status_Valid (cv_Status c) = true /\ Priority_Valid (cv_Priority c) = true.

(** A document is closed exactly when it has a closing time. *)
Definition closing_consistent (c : Conversation) : Prop :=
  IsClosed (cv_Status c) = true <-> is_Some (cv_ClosedAt c).

(** The operations that set the status and leave the closing time. *)
Definition sets_status_only (op : ServiceOp) : bool :=
  match op with
  | Gated _ (OpUpdate cmd) => match up_Status cmd with Some _ => true | None => false end
  | Automated _ (OpAssignAgent _ | OpAssignTeam _ | OpRemoveAgent | OpMarkPending) => true
  | _ => false
  end.

Lemma open_status_open a q : IsClosed (open_status a q) = false.
Proof. unfold open_status. by repeat case_match. Qed.
Lemma open_status_valid a q : Status_Valid (open_status a q) = true.
Proof. unfold open_status. by repeat case_match. Qed.

Lemma patched_valued cmd c : valid_patch cmd -> well_valued c -> well_valued (patched cmd c).
Proof.
  intros [Hp Hs] [? ?]. split; cbn.
  - destruct (up_Status cmd) eqn:E; cbn; [by apply Hs|done].
  - destruct (up_Priority cmd) eqn:E; cbn; [by apply Hp|done].
Qed.

Lemma transition_valued op c c' : transition op c c' -> well_valued c -> well_valued c'.
Proof.
  destruct 1 as [| | | | | | | | |? cmd ?? Hu|?????? Ha]; intros Hw; try done.
  - by split; [|apply Hw].
  - by split; [|apply Hw].
  - by split; [apply open_status_valid|apply Hw].
  - apply (patched_valued cmd c) in Hw; [|done]. by destruct (up_Tags cmd), (up_CustomAttributes cmd).
  - destruct Hw as [Hs Hp]. destruct Ha; repeat case_match; split; try done.
    cbn. by destruct_or!; subst.
Qed.

Lemma transition_closing op c c' :
  sets_status_only op = false -> transition op c c' ->
  closing_consistent c -> closing_consistent c'.
Proof.
  intros Hop Ht. unfold closing_consistent.
  destruct Ht as [| | | | |? ? ? Hcl| | | |? cmd ????|?????? Ha]; intros Hc; try done.
  - cbn. rewrite open_status_open. split; [done|by intros []].
  - cbn in Hop. destruct (up_Status cmd) eqn:Hst; [done|].
    assert (closing_consistent (patched cmd c)) by (unfold closing_consistent; cbn; by rewrite Hst).
    by destruct (up_Tags cmd), (up_CustomAttributes cmd).
  - destruct Ha; try done.
    + cbn. split; [|by intros []].
      by destruct_or!; subst.
Qed.
