(* ===== verification/ConvState.v ===== *)
(** * Conversations service: what the operations do to the store

    The operations, run against a repository that keeps its contract, refine the
    abstract machine of [ConvMachine.v]; and the functional behaviour of the
    lifecycle operations on every branch. *)
From S2P Require Import Prelude GoStrings AppError Authz Shared ConvEntity Messages ConvContracts.
From S2P Require Import Prog Ports ConvBase ConvMessaging ConvLifecycle.
From S2P Require Import ConvIsolation ConvDiscipline ConvMachine.

(** ** The contract of the store, as a ghost state *)

(** [Update] stored its document: the stored one keeps its identity fields. *)
Definition updated (t : string) (conv : Conversation) (v v' : convs_view) : Prop :=
  exists old, v !! (t, cv_ID conv) = Some old /\
              v' = <[(t, cv_ID conv) := stored_update old conv]> v.

Definition created (conv : Conversation) (v v' : convs_view) : Prop :=
  v !! (cv_TenantID conv, cv_ID conv) = None /\
  v' = <[(cv_TenantID conv, cv_ID conv) := conv]> v.

Definition store_post (t : string) (R : Type) (c : Ctx) (e : ConvPort R) (v : convs_view)
    (r : R) (v' : convs_view) : Prop :=
  match e in ConvPort R return R -> Prop with
  | PConvs e =>
      match e in ConvRepo R return R -> Prop with
      | ConvCreate conv => fun r =>
          match r with Ok _ => created conv v v' | Err _ => v' = v \/ created conv v v' end
      | ConvUpdate conv => fun r =>
          match r with Ok _ => updated t conv v v' | Err _ => v' = v \/ updated t conv v v' end
      | ConvFindByID id => fun r => v' = v /\
          match r with
          | Ok conv => v !! (t, id) = Some conv /\ cv_ID conv = id /\ cv_TenantID conv = t
          | Err e => is_not_found e = true -> v !! (t, id) = None
          end
      | ConvListInactiveOpen _ _ => fun r => v' = v /\
          match r with
          | Ok l => NoDup (map cv_ID l) /\
              Forall (fun conv => v !! (t, cv_ID conv) = Some conv /\ cv_TenantID conv = t /\
                                  IsClosed (cv_Status conv) = false) l
          | Err _ => True
          end
      | _ => fun _ => v' = v
      end
  | _ => fun _ => v' = v
  end r.

Definition store_contract (t : string) : contract Ctx ConvPort convs_view :=
  pre_post (fun _ c _ _ => RequireTenant c = Ok t) (store_post t).

(** ** Programs that write no conversation *)

Definition writeless (t : string) (R : Type) (c : Ctx) (e : ConvPort R) : Prop :=
  RequireTenant c = Ok t /\ match e with PConvs (ConvCreate _ | ConvUpdate _) => False | _ => True end.

Notation quiet t m := (calls (writeless t) m).

Lemma store_post_writeless (t : string) {R} c (e : ConvPort R) v r v' :
  writeless t R c e -> store_post t R c e v r v' -> v' = v.
Proof.
  intros [_ Hw] Hp. revert Hw Hp.
  destruct e as [? e|? e|? e|? e|? e| | | | | | | | | | | |]; try done; intros Hw Hp;
    destruct e; try done; by destruct Hp.
Qed.

Lemma quiet_wp (t : string) {A} (m : M A) (Q : A -> convs_view -> Prop) v :
  quiet t m -> (forall a, Q a v) -> wp (store_contract t) m Q v.
Proof.
  intros Hm HQ. induction m as [a|R c e k IH]; cbn; [done|]. destruct Hm as [Hw Hk].
  split; [by destruct Hw|]. intros r v' Hp. apply (store_post_writeless t c e) in Hp as ->; [|done].
  apply IH, Hk.
Qed.

Create HintDb quiet.
#[export] Hint Resolve calls_bind calls_bind_ok calls_for_each calls_fold : quiet.

#[export] Hint Extern 1 (calls _ (ask _ _)) =>
  split; [split; [assumption|exact I]|intros; exact I] : quiet.

Ltac quiet_step :=
  cbn zeta;
  lazymatch goal with
  | |- calls _ (Ret _) => exact I
  | |- calls _ (ok _) => exact I
  | |- calls _ (noop _) => exact I
  | |- calls _ (fail _) => exact I
  | |- calls _ (ask _ _) => split; [split; [assumption|exact I]|intros; exact I]
  | |- calls _ (requireTenant _) => exact I
  | |- calls _ (bind_ok _ _) => apply calls_bind_ok; [|intros]
  | |- calls _ (bind _ _) => apply calls_bind; [|intros]
  | |- calls _ (for_each _ _) => apply calls_for_each; intros
  | |- calls _ (fold_prog _ _ _) => apply calls_fold; intros
  | |- calls _ (let '(_, _) := ?x in _) => destruct x
  | |- calls _ (if _ then _ else _) => case_match
  | |- calls _ (match _ with _ => _ end) => case_match
  | |- _ => solve [eauto with quiet]
  end.

Section Quiet.
Context (s : Service) (t : string) (c : Ctx).
Hypothesis (Hc : RequireTenant c = Ok t).

Lemma loadVisible_quiet id : quiet t (loadVisible c id).
Proof. unfold loadVisible. repeat quiet_step. Qed.
Lemma recordEvent_quiet conv ty data : quiet t (recordEvent c conv ty data).
Proof. unfold recordEvent. repeat quiet_step. Qed.
Lemma conversationPayload_quiet conv : quiet t (conversationPayload c conv).
Proof. unfold conversationPayload. repeat quiet_step. Qed.
Lemma publishRooms_quiet conv event p : quiet t (publishRooms c conv event p).
Proof. unfold publishRooms. repeat quiet_step. Qed.
Lemma emitRuleEvent_quiet c' conv event p :
  RequireTenant c' = Ok t -> quiet t (emitRuleEvent s c' conv event p).
Proof. intros ?. unfold emitRuleEvent. repeat quiet_step. Qed.
#[local] Hint Resolve loadVisible_quiet recordEvent_quiet conversationPayload_quiet
  publishRooms_quiet emitRuleEvent_quiet : quiet.
Lemma publishConversation_quiet conv : quiet t (publishConversation c conv).
Proof. unfold publishConversation. repeat quiet_step. Qed.
Lemma publishLifecycle_quiet conv event : quiet t (publishLifecycle s c conv event).
Proof. unfold publishLifecycle. repeat quiet_step. Qed.
Lemma integrationContact_quiet a : quiet t (integrationContact s c a).
Proof. unfold integrationContact. repeat quiet_step. Qed.
Lemma integrationAgent_quiet a : quiet t (integrationAgent s c a).
Proof. unfold integrationAgent. repeat quiet_step. Qed.
Lemma resolveIntegrationMedia_quiet m : quiet t (resolveIntegrationMedia s c m).
Proof. unfold resolveIntegrationMedia. repeat quiet_step. Qed.
#[local] Hint Resolve integrationContact_quiet integrationAgent_quiet
  resolveIntegrationMedia_quiet : quiet.
Lemma emitMessageWebhook_quiet conv m event : quiet t (emitMessageWebhook s c conv m event).
Proof. unfold emitMessageWebhook, EmitLazy. repeat quiet_step. Qed.
Lemma emitConversationWebhook_quiet conv event : quiet t (emitConversationWebhook s c conv event).
Proof. unfold emitConversationWebhook, EmitLazy. repeat quiet_step. Qed.
Lemma hydrateMessages_quiet l : quiet t (hydrateMessages s c l).
Proof. unfold hydrateMessages. repeat quiet_step. Qed.
#[local] Hint Resolve hydrateMessages_quiet : quiet.
Lemma hydrateMessage_quiet m : quiet t (hydrateMessage s c m).
Proof. unfold hydrateMessage. repeat quiet_step. Qed.
Lemma PublishAll_quiet l : quiet t (PublishAll s c l).
Proof. unfold PublishAll. repeat quiet_step. Qed.
#[local] Hint Resolve publishConversation_quiet publishLifecycle_quiet emitMessageWebhook_quiet
  emitConversationWebhook_quiet hydrateMessage_quiet PublishAll_quiet : quiet.
Lemma closeEffects_quiet conv data now queued : quiet t (closeEffects s c conv data now queued).
Proof. unfold closeEffects. repeat quiet_step. Qed.
Lemma sendPayload_quiet conv mtype cmd : quiet t (sendPayload s c conv mtype cmd).
Proof. unfold sendPayload, resolveTemplate. repeat quiet_step. Qed.
Lemma loadMessage_quiet conv id : quiet t (loadMessage c conv id).
Proof. unfold loadMessage. repeat quiet_step. Qed.
Lemma ensureAgentExists_quiet id : quiet t (ensureAgentExists s c id).
Proof. unfold ensureAgentExists. repeat quiet_step. Qed.
Lemma mustExist_quiet {A} (m : M (result A)) msg key : quiet t m -> quiet t (mustExist m msg key).
Proof. intros Hm. unfold mustExist. repeat quiet_step. Qed.
End Quiet.

#[export] Hint Resolve loadVisible_quiet recordEvent_quiet conversationPayload_quiet
  publishRooms_quiet emitRuleEvent_quiet publishConversation_quiet publishLifecycle_quiet
  emitMessageWebhook_quiet emitConversationWebhook_quiet hydrateMessages_quiet
  hydrateMessage_quiet PublishAll_quiet closeEffects_quiet sendPayload_quiet loadMessage_quiet
  ensureAgentExists_quiet mustExist_quiet : quiet.

(** ** Reads and stores of the document *)

Lemma stored_update_same old conv : same_identity old conv -> stored_update old conv = conv.
Proof.
  unfold same_identity. destruct old, conv. cbn. intros H.
  by destruct_and!; subst.
Qed.

Section Store.
Context (s : Service) (t : string) (c : Ctx).
Hypothesis (Hc : RequireTenant c = Ok t).
Implicit Types (v : convs_view) (conv old : Conversation) (id : string) (msg m : Message) (ty : string)
  (op : ServiceOp).
Let T := store_contract t.

#[local] Instance T_mono : Monotone T.
Proof. apply pre_post_mono. Qed.

(** [conv] is the stored document of key [id]. *)
Definition stored v (id : string) conv : Prop :=
  v !! (t, id) = Some conv /\ cv_ID conv = id /\ cv_TenantID conv = t.

Lemma find_view v id (Q : result Conversation -> convs_view -> Prop) :
  (forall e, (is_not_found e = true -> v !! (t, id) = None) -> Q (Err e) v) ->
  (forall conv, stored v id conv -> Q (Ok conv) v) ->
  wp T (ask c (ConvFindByID id)) Q v.
Proof.
  intros Herr Hok. split; [done|]. intros [conv|e] v' [-> Hp]; [by apply Hok|by apply Herr].
Qed.

Lemma loadVisible_view v id (Q : result (Conversation * AuthContext) -> convs_view -> Prop) :
  (forall e, Q (Err e) v) ->
  (forall conv ac, stored v id conv -> FromContext c = Some ac -> visibleTo conv ac = true ->
     Q (Ok (conv, ac)) v) ->
  wp T (loadVisible c id) Q v.
Proof.
  intros Herr Hok. unfold loadVisible, requireTenant. rewrite Hc. cbn [bind_ok bind].
  destruct (FromContext c) as [ac|] eqn:Hac; [|apply Herr].
  apply wp_bind_ok; [apply _|]. apply find_view; [auto|]. intros conv Hs.
  case_match; [by apply Hok|apply Herr].
Qed.

(** What a store of [conv] may have left when it reports an error. *)
Definition perhaps v id conv v' : Prop := v' = v \/ v' = <[(t, id) := conv]> v.

Lemma update_view v id old conv (Q : result unit -> convs_view -> Prop) :
  stored v id old -> same_identity old conv ->
  (forall e v', perhaps v id conv v' -> Q (Err e) v') ->
  Q (Ok tt) (<[(t, id) := conv]> v) ->
  wp T (ask c (ConvUpdate conv)) Q v.
Proof.
  intros (Hv & Hid & _) Hsame Herr Hok.
  assert (cv_ID conv = id) as Hid' by (destruct Hsame as [-> _]; done).
  assert (forall v', updated t conv v v' -> v' = <[(t, id) := conv]> v) as Hup.
  { intros v' (old' & Hold & ->). rewrite Hid' in *. rewrite Hv in Hold. simplify_eq.
    by rewrite stored_update_same. }
  split; [done|]. intros [[]|e] v'; cbn.
  - by intros ->%Hup.
  - intros [->| ->%Hup]; apply Herr; by (left + right).
Qed.

Lemma stored_insert v id conv old :
  stored v id old -> same_identity old conv -> stored (<[(t, id) := conv]> v) id conv.
Proof.
  intros (_ & Hid & Ht) (Hid' & Ht' & _). split_and!; [apply lookup_insert_eq|congruence..].
Qed.

Lemma quiet_bind {A B} (m : M A) (f : A -> M B) Q v :
  quiet t m -> (forall a, wp T (f a) Q v) -> wp T (bind m f) Q v.
Proof. intros Hm Hf. apply wp_bind; [apply _|]. by apply quiet_wp. Qed.

Lemma quiet_bind_ok {A B} (m : M (result A)) (f : A -> M (result B)) Q v :
  quiet t m -> (forall e, Q (Err e) v) -> (forall a, wp T (f a) Q v) -> wp T (bind_ok m f) Q v.
Proof. intros Hm He Hf. apply quiet_bind; [done|]. intros [a|e]; [apply Hf|apply He]. Qed.

Lemma bump_identity m conv : same_identity conv (bumpActivity m conv).
Proof. done. Qed.

Lemma persistMessage_view v id conv msg ty
    (Q : result (Message * Conversation) -> convs_view -> Prop) :
  stored v id conv ->
  (forall e v' m, perhaps v id (bumpActivity m conv) v' -> Q (Err e) v') ->
  (forall m, same_message msg m ->
     Q (Ok (m, bumpActivity m conv)) (<[(t, id) := bumpActivity m conv]> v)) ->
  wp T (persistMessage s c conv msg ty) Q v.
Proof.
  intros Hs Herr Hok. unfold persistMessage. apply wp_bind; [apply _|].
  eapply wp_mono; [apply _| |apply (wp_returns T _ (fun _ v' => v' = v) (same_message msg))];
    [|by apply quiet_wp; eauto with quiet|apply hydrateMessage_returns].
  intros m v' [-> Hm]. cbn beta zeta.
  apply quiet_bind_ok; [repeat quiet_step|intros e; apply (Herr e v m); by left|intros _].
  apply wp_bind_ok; [apply _|].
  apply (update_view v id conv); [done|done|intros e v' Hp; by apply (Herr e v' m)|].
  apply quiet_bind; [eauto with quiet|intros _].
  apply quiet_bind; [eauto with quiet|intros payload].
  apply quiet_bind; [eauto with quiet|intros _].
  apply quiet_bind; [|intros _; by apply Hok].
  repeat quiet_step. apply emitRuleEvent_quiet. by case_match.
Qed.

(** ** Refinement, operation by operation *)

Section Refine.
Context (op : ServiceOp).

(** [m] only takes steps of [op]. *)
Definition refines {A} (m : M A) v : Prop :=
  wp T m (fun _ v' => rtc (store_step t op) v v') v.

Lemma one_step v id old new :
  stored v id old -> scope_of op id -> transition op old new ->
  rtc (store_step t op) v (<[(t, id) := new]> v).
Proof. intros (? & _) ??. apply rtc_once. by eapply ss_update. Qed.

Lemma perhaps_step v id old new v' :
  stored v id old -> scope_of op id -> transition op old new -> perhaps v id new v' ->
  rtc (store_step t op) v v'.
Proof. intros ??? [->| ->]; [done|by eapply one_step]. Qed.

Lemma update_refines v id old conv (Q : result unit -> convs_view -> Prop) :
  stored v id old -> scope_of op id -> transition op old conv ->
  (forall e v', rtc (store_step t op) v v' -> Q (Err e) v') ->
  (stored (<[(t, id) := conv]> v) id conv ->
   rtc (store_step t op) v (<[(t, id) := conv]> v) -> Q (Ok tt) (<[(t, id) := conv]> v)) ->
  wp T (ask c (ConvUpdate conv)) Q v.
Proof.
  intros Hs Hsc Ht Herr Hok. pose proof (transition_identity _ _ _ Ht).
  apply (update_view v id old); [done..| |].
  - intros e v' Hp. apply Herr. by eapply perhaps_step.
  - apply Hok; [by eapply stored_insert|by eapply one_step].
Qed.

Lemma persist_refines v id conv msg ty (Q : result (Message * Conversation) -> convs_view -> Prop) :
  stored v id conv -> scope_of op id -> sends op = true ->
  (forall e v', rtc (store_step t op) v v' -> Q (Err e) v') ->
  (forall m, rtc (store_step t op) v (<[(t, id) := bumpActivity m conv]> v) ->
     Q (Ok (m, bumpActivity m conv)) (<[(t, id) := bumpActivity m conv]> v)) ->
  wp T (persistMessage s c conv msg ty) Q v.
Proof.
  intros Hs Hsc Hop Herr Hok. apply (persistMessage_view v id); [done| |].
  - intros e v' m Hp. apply Herr. eapply perhaps_step; [done|done| |done]. by constructor.
  - intros m _. apply Hok. eapply one_step; [done|done|]. by constructor.
Qed.

Lemma quiet_refines {A} (m : M A) v : quiet t m -> refines m v.
Proof. intros Hm. by apply quiet_wp. Qed.

End Refine.

(** The side conditions of a transition, from the guards passed. *)
Ltac guards := first [done | prop_bools; intuition (done || congruence)].

Ltac in_scope_op := first [done | reflexivity | exact I].

Ltac a_transition :=
  first [ econstructor; solve [guards] | rewrite reopened_resumed; constructor; solve [guards] ].

Ltac st_step op :=
  lazymatch goal with
  | |- wp _ (let '(_, _) := ?x in _) _ _ => destruct x
  | |- wp _ (Ret _) _ _ => cbn [wp]
  | |- wp _ (ok _) _ _ => unfold ok; cbn [wp]
  | |- wp _ (fail _) _ _ => unfold fail; cbn [wp]
  | |- wp _ (bind_ok (requireTenant _) _) _ _ => unfold requireTenant; rewrite Hc; cbn [bind_ok bind]
  | |- wp _ (bind_ok (loadVisible _ _) _) _ _ =>
      apply wp_bind_ok; [apply _|]; apply loadVisible_view;
      [done|intros ? ? ? ? ?; cbn beta iota delta [fst snd]]
  | |- wp _ (bind_ok (ask _ (ConvFindByID _)) _) _ _ =>
      apply wp_bind_ok; [apply _|]; apply find_view; [done|intros ? ?; cbn beta iota]
  | |- wp _ (bind_ok (ask _ (ConvUpdate _)) _) _ _ =>
      apply wp_bind_ok; [apply _|];
      eapply (update_refines op); [eassumption|in_scope_op|a_transition|by auto|intros ? ?; cbn beta iota]
  | |- wp _ (bind_ok (persistMessage _ _ _ _ _) _) _ _ =>
      apply wp_bind_ok; [apply _|];
      eapply (persist_refines op); [eassumption|in_scope_op|in_scope_op|by auto|intros ? ?; cbn beta iota]
  | |- wp _ (bind_ok _ _) _ _ =>
      first [ apply quiet_bind_ok; [solve [repeat quiet_step]|by auto|intros ?]
            | apply wp_bind_ok; [apply _|] ]
  | |- wp _ (bind _ _) _ _ =>
      first [ apply quiet_bind; [solve [repeat quiet_step]|intros ?]
            | apply wp_bind; [apply _|] ]
  | |- wp _ (if _ then _ else _) _ _ => case_match
  | |- wp _ (match _ with _ => _ end) _ _ => case_match
  | |- wp _ _ _ _ => apply quiet_wp; [solve [repeat quiet_step]|intros]
  | |- rtc _ ?v ?v => reflexivity
  | _ => progress eauto
  end.

Ltac refine_op f :=
  intros;
  lazymatch goal with |- refines ?op _ _ => unfold refines, f; repeat st_step op end.

Lemma SendMessage_refines id cmd v : refines (Gated id (OpSend cmd)) (SendMessage_ s c id cmd) v.
Proof. refine_op SendMessage_. Qed.

Lemma AddInternalNote_refines op id cmd v :
  scope_of op id -> sends op = true -> refines op (AddInternalNote_ s c id cmd) v.
Proof. refine_op AddInternalNote_. Qed.

Lemma Reopen_refines id v : refines (Gated id OpReopen) (Reopen s c id) v.
Proof. refine_op Reopen. Qed.

Lemma ApplyTags_refines id add remove v :
  refines (Gated id (OpTags add remove)) (ApplyTags s c id add remove) v.
Proof. refine_op ApplyTags. Qed.

Lemma MarkRead_refines id v : refines (Gated id OpMarkRead) (MarkRead c id) v.
Proof. refine_op MarkRead. Qed.

Lemma MarkUnread_refines id v : refines (Gated id OpMarkUnread) (MarkUnread c id) v.
Proof. refine_op MarkUnread. Qed.

Lemma update_transition id cmd conv conv' b attrs now :
  applyUpdate cmd conv = Ok (conv', b) -> up_CustomAttributes cmd = attrs ->
  transition (Gated id (OpUpdate cmd)) conv
    (set_UpdatedAt now (withAttributes attrs (withTags (up_Tags cmd) conv'))).
Proof. intros [Hv ->]%applyUpdate_patched <-. by apply tr_update. Qed.

Lemma Update_refines id cmd v : refines (Gated id (OpUpdate cmd)) (Update s c id cmd) v.
Proof.
  unfold refines, Update. st_step (Gated id (OpUpdate cmd)).
  destruct (applyUpdate cmd conv) as [[conv' b]|e] eqn:Hu; cbn [bind_ok bind]; [|exact (rtc_refl _ _)].
  apply wp_bind_ok; [apply _|].
  eapply wp_mono; [apply _| |apply (wp_returns T _ (fun _ v' => v' = v)
    (fun r => match r with
              | Ok x => x = withAttributes (up_CustomAttributes cmd) (withTags (up_Tags cmd) conv')
              | Err _ => True end))].
  - intros [x|e] v' [-> Hx]; [|done]. subst x. st_step (Gated id (OpUpdate cmd)).
    apply wp_bind_ok; [apply _|]. eapply (update_refines (Gated id (OpUpdate cmd)));
      [eassumption|done|by eapply update_transition|by auto|intros ? ?; cbn beta iota].
    repeat st_step (Gated id (OpUpdate cmd)).
  - apply quiet_wp; [|done]. repeat quiet_step.
  - destruct (up_CustomAttributes cmd); [|done]. cbn. by intros [].
Qed.

Lemma Close_refines id cmd v : refines (Gated id (OpClose cmd)) (Close s c id cmd) v.
Proof.
  refine_op Close.
  eapply wp_mono; [apply _| |apply (AddInternalNote_refines (Gated id (OpClose cmd))); [|done]].
  - intros [m|e] v' Hv'; cbn beta iota; [|by etransitivity].
    unfold ok at 1; cbn [wp]. apply quiet_wp; [repeat quiet_step|intros _]. by etransitivity.
  - by match goal with H : stored _ _ _ |- _ => apply H end.
Qed.

Lemma foldable_refines op {A B} (l : list A) (b : B) (body : B -> A -> M B) v (Inv : list A -> convs_view -> Prop) :
  (forall x l v b, Inv (x :: l) v ->
     wp T (body b x) (fun _ v' => rtc (store_step t op) v v' /\ Inv l v') v) ->
  Inv l v -> refines op (fold_prog l b body) v.
Proof.
  intros Hb. unfold refines. revert b v. induction l as [|x l IH]; intros b v Hi; [exact (rtc_refl _ _)|].
  cbn [fold_prog]. apply wp_bind; [apply _|]. eapply wp_mono; [apply _| |by apply Hb].
  intros b' v' [Hs Hi']. eapply wp_mono; [apply _| |by apply IH].
  intros ? v'' Hs'. by etransitivity.
Qed.

(** The listed documents still to be closed. *)
Definition to_sweep (l : list Conversation) v : Prop :=
  NoDup (map cv_ID l) /\
  Forall (fun conv => stored v (cv_ID conv) conv /\ IsClosed (cv_Status conv) = false) l.

Lemma to_sweep_next x l v v' conv :
  to_sweep (x :: l) v -> perhaps v (cv_ID x) conv v' -> to_sweep l v'.
Proof.
  intros [Hnd Hall] Hp. cbn in Hnd. apply NoDup_cons in Hnd as [Hni Hnd].
  apply Forall_cons in Hall as [_ Hall]. split; [done|].
  apply Forall_forall. intros y Hy. rewrite Forall_forall in Hall.
  destruct (Hall y Hy) as [(Hv & Hid & Ht) Ho]. split; [|done]. split; [|done].
  destruct Hp as [->| ->]; [done|]. rewrite lookup_insert_ne; [done|].
  intros [= Heq]. apply Hni. rewrite Heq. by apply list_elem_of_fmap_2.
Qed.

Lemma CloseInactive_refines idle v : refines (Sweeping idle) (CloseInactive s c idle) v.
Proof.
  unfold refines, CloseInactive. do 2 st_step (Sweeping idle).
  apply wp_bind_ok; [apply _|]. split; [done|]. intros [l|e] v' [-> Hl]; [|exact (rtc_refl _ _)]. cbn [wp].
  apply wp_bind; [apply _|].
  eapply wp_mono; [apply _| |apply (foldable_refines (Sweeping idle) _ _ _ _ to_sweep)]; [done| |].
  - intros x l' v' n Hi. pose proof Hi as [_ [[Hx Ho] _]%Forall_cons].
    apply wp_bind; [apply _|].
    apply (update_view v' (cv_ID x) x); [done|done| |].
    + intros e v'' Hp. split; [|by eapply to_sweep_next].
      eapply perhaps_step; [done|done| |done]. by constructor.
    + apply quiet_bind; [eauto with quiet|intros _]. split; [|by eapply to_sweep_next; [|right]].
      eapply one_step; [done|done|by constructor].
  - destruct Hl as [Hnd Hall]. split; [done|]. eapply Forall_impl; [exact Hall|].
    intros conv (? & ? & ?). by split_and!.
Qed.

Lemma create_refines cmd v conv (Q : result unit -> convs_view -> Prop) :
  cv_TenantID conv = t ->
  cv_Status conv = open_status (cr_AssignedTo cmd) (cr_QueueID cmd) ->
  Priority_Valid (cv_Priority conv) = true -> cv_ClosedAt conv = None -> cv_UnreadCount conv = 0 ->
  (forall e v', rtc (store_step t (Opening cmd)) v v' -> Q (Err e) v') ->
  (forall v', rtc (store_step t (Opening cmd)) v v' -> Q (Ok tt) v') ->
  wp T (ask c (ConvCreate conv)) Q v.
Proof.
  intros Ht Hst Hp Hcl Hu Herr Hok.
  assert (forall v', created conv v v' -> rtc (store_step t (Opening cmd)) v v') as Hcr.
  { intros v' [Hv ->]. rewrite Ht in *. apply rtc_once. by eapply ss_open. }
  split; [done|]. intros [[]|e] v'; cbn; [auto|]. intros [->|?]; apply Herr; [exact (rtc_refl _ _)|auto].
Qed.

Lemma create_errors_priority a b p : create_errors a b p = ∅ -> Priority_Valid p = true.
Proof.
  unfold create_errors. intros H. destruct (Priority_Valid p) eqn:Hp; [done|].
  exfalso. revert H. repeat case_match; apply insert_non_empty || apply map_non_empty_singleton.
Qed.

Lemma Create_refines cmd v : refines (Opening cmd) (Create s c cmd) v.
Proof.
  refine_op Create.
  match goal with H : bool_decide _ = false |- _ =>
    apply bool_decide_eq_false_1, dec_stable, create_errors_priority in H end.
  apply (create_refines cmd); try done; [apply initialStatus_open_status|]. intros v' Hv'.
  apply quiet_wp; [repeat quiet_step|done].
Qed.

(** ** The rule executor's mutations *)

(** What a mutation reports it changed. *)
Definition reported (op : AutoOp) conv (r : result (string * Conversation)) : Prop :=
  match r with
  | Ok (event, conv') => event <> "" -> exists at_, auto_change at_ op conv conv'
  | Err _ => True
  end.

Lemma automationMutate_refines id (op : AutoOp) (mutate : Conversation -> M (result (string * Conversation))) v :
  (forall conv, quiet t (mutate conv)) -> (forall conv, returns (reported op conv) (mutate conv)) ->
  refines (Automated id op) (automationMutate s c id mutate) v.
Proof.
  intros Hq Hr. unfold refines, automationMutate. do 2 st_step (Automated id op).
  apply wp_bind_ok; [apply _|].
  eapply wp_mono; [apply _| |apply (wp_returns T _ (fun _ v' => v' = v)); [by apply quiet_wp|apply Hr]].
  intros [[event conv']|e] v' [-> Hc']; [|done].
  case_match eqn:He; [exact (rtc_refl _ _)|]. prop_bools. destruct (Hc' He) as [at_ Hch].
  repeat st_step (Automated id op).
Qed.

Ltac returns_step :=
  cbn zeta;
  lazymatch goal with
  | |- returns _ (ok _) => cbn
  | |- returns _ (noop _) => cbn
  | |- returns _ (fail _) => exact I
  | |- returns _ (bind_ok _ _) => apply returns_bind_ok; [done|intros]
  | |- returns _ (bind _ _) => apply returns_bind_any; intros
  | |- returns _ (if _ then _ else _) => case_match
  | |- returns _ (match _ with _ => _ end) => case_match
  end.

Ltac auto_refines :=
  apply automationMutate_refines; intros conv; [repeat quiet_step|];
  repeat returns_step; try done; intros _;
  first [exists 0; econstructor; solve [guards] | eexists; econstructor; solve [guards]].

Lemma AutomationAssignAgent_refines id a v :
  refines (Automated id (OpAssignAgent a)) (AutomationAssignAgent s c id a) v.
Proof. auto_refines. Qed.
Lemma AutomationAssignTeam_refines id a v :
  refines (Automated id (OpAssignTeam a)) (AutomationAssignTeam s c id a) v.
Proof. auto_refines. Qed.
Lemma AutomationRemoveAgent_refines id v :
  refines (Automated id OpRemoveAgent) (AutomationRemoveAgent s c id) v.
Proof. auto_refines. Qed.
Lemma AutomationRemoveTeam_refines id v :
  refines (Automated id OpRemoveTeam) (AutomationRemoveTeam s c id) v.
Proof. auto_refines. Qed.
Lemma AutomationAddTag_refines id a v :
  refines (Automated id (OpAddTag a)) (AutomationAddTag s c id a) v.
Proof. auto_refines. Qed.
Lemma AutomationRemoveTag_refines id a v :
  refines (Automated id (OpRemoveTag a)) (AutomationRemoveTag s c id a) v.
Proof. auto_refines. Qed.
Lemma AutomationChangePriority_refines id a v :
  refines (Automated id (OpChangePriority a)) (AutomationChangePriority s c id a) v.
Proof. auto_refines. Qed.
Lemma AutomationResolve_refines id v :
  refines (Automated id OpResolve) (AutomationResolve s c id) v.
Proof. auto_refines. Qed.
Lemma AutomationOpen_refines id v : refines (Automated id OpOpen) (AutomationOpen s c id) v.
Proof.
  apply automationMutate_refines; intros conv; [repeat quiet_step|].
  repeat returns_step; [done|]. intros _. exists 0. constructor; [guards|].
  repeat case_match; auto.
Qed.
Lemma AutomationMarkPending_refines id v :
  refines (Automated id OpMarkPending) (AutomationMarkPending s c id) v.
Proof. auto_refines. Qed.


(** ** Messages *)

Lemma SendSystemMessage_refines id text v :
  refines (Automated id (OpSystemMessage text)) (SendSystemMessage s c id text) v.
Proof. refine_op SendSystemMessage. Qed.
Lemma SendAutomationMessage_refines id rule text v :
  refines (Automated id (OpAutoMessage rule text)) (SendAutomationMessage s c id rule text) v.
Proof. refine_op SendAutomationMessage. Qed.
Lemma SendAutomationAttachment_refines id rule a v :
  refines (Automated id (OpAutoAttachment rule a)) (SendAutomationAttachment s c id rule a) v.
Proof. refine_op SendAutomationAttachment. Qed.
Lemma SendAutomationInteractive_refines id rule json v :
  refines (Automated id (OpAutoInteractive rule json)) (SendAutomationInteractive s c id rule json) v.
Proof. refine_op SendAutomationInteractive. Qed.

Lemma refresh_refines op id v conv msg deleted (Q : result Conversation -> convs_view -> Prop) :
  stored v id conv -> scope_of op id -> edits op = true ->
  (forall r v', rtc (store_step t op) v v' -> Q r v') ->
  wp T (refreshLastMessageSnapshot c conv msg deleted) Q v.
Proof.
  intros Hs Hsc He HQ. unfold refreshLastMessageSnapshot.
  assert (forall conv', transition op conv conv' ->
    wp T (try! _ := ask c (ConvUpdate conv') in do! publishConversation c conv' in ok conv') Q v) as Hstore.
  { intros conv' Ht. apply wp_bind_ok; [apply _|].
    apply (update_refines op v id conv); [done..|intros e v' Hv'; by apply HQ|intros _ Hv'].
    apply quiet_bind; [eauto with quiet|intros _]. by apply HQ. }
  assert (forall r, Q r v) as Hnone by (intros; by apply HQ).
  repeat lazymatch goal with
  | |- wp _ (bind_ok _ _) _ _ => apply Hstore; by constructor
  | |- wp _ (bind _ _) _ _ => apply quiet_bind; [repeat quiet_step|intros; cbn zeta]
  | |- wp _ (if _ then _ else _) _ _ => case_match
  | |- wp _ (match _ with _ => _ end) _ _ => case_match
  | |- wp _ _ _ _ => apply Hnone
  end.
Qed.

Lemma EditMessage_refines id messageID text v :
  refines (Gated id (OpEdit messageID text)) (EditMessage s c id messageID text) v.
Proof.
  refine_op EditMessage.
  eapply (refresh_refines (Gated id (OpEdit messageID text))); [done..|].
  intros [conv'|e] v' Hv'; [|done]. apply quiet_wp; [repeat quiet_step|done].
Qed.

Lemma DeleteMessage_refines id messageID v :
  refines (Gated id (OpDelete messageID)) (DeleteMessage c id messageID) v.
Proof.
  refine_op DeleteMessage.
  eapply (refresh_refines (Gated id (OpDelete messageID))); [done..|].
  intros [conv'|e] v' Hv'; [|done]. apply quiet_wp; [repeat quiet_step|done].
Qed.

Lemma quiet_op_refines op {A} (m : M A) v : quiet t m -> refines op m v.
Proof. intros Hm. by apply quiet_wp. Qed.
End Store.

(** ** The service over a world *)

Notation convs_of h := (fun R c (e : ConvRepo R) => h R c (PConvs e)).

(** A world of the service: its conversations repository keeps the store's
    contract over a view of the state, and nothing else touches the view. *)
Class ConvWorld {S} (h : handler Ctx ConvPort S) (view : S -> convs_view) : Prop := {
  world_store :: ConvStore (convs_of h) view;
  world_frame : forall R c (e : ConvPort R) s,
    (forall e' : ConvRepo R, e <> PConvs e') -> view (h R c e s).2 = view s;
}.

Lemma world_meets_contract {S} (h : handler Ctx ConvPort S) view `{!ConvWorld h view} t
    {R} c (e : ConvPort R) (P : R -> convs_view -> Prop) st :
  store_contract t R c e P (view st) -> let '(r, st') := h R c e st in P r (view st').
Proof.
  intros [Hc HP]. destruct (h R c e st) as [r st'] eqn:Hh. apply HP. clear HP P.
  pose proof (world_frame R c e st) as Hframe. rewrite Hh in Hframe. cbn in Hframe.
  destruct e as [? e|? e|? e|? e|? e| | | | | | | | | | | |]; try by apply Hframe.
  pose proof (store_read (h := convs_of h) R c e st) as Hread.
  cbn in Hread. rewrite Hh in Hread. cbn in Hread.
  destruct e as [conv|conv|id|ids|f vis p|vis|before limit]; try (by apply Hread).
  - pose proof (store_create (h := convs_of h) c conv st) as H.
    cbn in H. rewrite Hh in H. cbn. destruct r as [[]|e]; [by destruct H as [_ H]|done].
  - pose proof (store_update (h := convs_of h) c conv st) as H.
    cbn in H. rewrite Hh in H. cbn. destruct r as [[]|e].
    + destruct H as (t' & old & Ht & ? & ?). assert (t' = t) as -> by congruence. by exists old.
    + destruct H as [H|(t' & old & Ht & ? & ?)]; [by left|right]. assert (t' = t) as -> by congruence. by exists old.
  - pose proof (store_find (h := convs_of h) c id st) as H.
    cbn in H. rewrite Hh in H. cbn in H |- *. split; [by apply Hread|].
    destruct r as [conv|e]; [|intros Hn; by apply H].
    destruct H as (t' & Ht & Hv). assert (t' = t) as -> by congruence. split; [done|].
    by apply (store_keys (h := convs_of h)) in Hv.
  - pose proof (store_idle (h := convs_of h) c before limit st) as H.
    cbn in H. rewrite Hh in H. cbn in H |- *. split; [by apply Hread|].
    destruct r as [l|e]; [|done]. destruct H as (t' & Ht & Hnd & Hall). assert (t' = t) as -> by congruence.
    split; [done|]. eapply Forall_impl; [exact Hall|]. intros conv [Hv Ho]. split_and!; [done| |done].
    by apply (store_keys (h := convs_of h)) in Hv as [_ ?].
Qed.

(** What is shown against the contract holds of every run in a world. *)
Lemma world_run {S A} (h : handler Ctx ConvPort S) view `{!ConvWorld h view} t (m : M A) Q st :
  wp (store_contract t) m Q (view st) -> let '(a, st') := run h m st in Q a (view st').
Proof. apply wp_run. intros R c e P s. by apply (world_meets_contract h view t). Qed.

Create HintDb refines.
#[export] Hint Resolve SendMessage_refines AddInternalNote_refines Reopen_refines
  ApplyTags_refines MarkRead_refines MarkUnread_refines Update_refines Close_refines
  CloseInactive_refines Create_refines AutomationAssignAgent_refines
  AutomationAssignTeam_refines AutomationRemoveAgent_refines AutomationRemoveTeam_refines
  AutomationAddTag_refines AutomationRemoveTag_refines AutomationChangePriority_refines
  AutomationResolve_refines AutomationOpen_refines AutomationMarkPending_refines
  SendSystemMessage_refines SendAutomationMessage_refines SendAutomationAttachment_refines
  SendAutomationInteractive_refines EditMessage_refines DeleteMessage_refines : refines.

Lemma forget_refines t op {A} (m : M (result A)) v :
  refines t op m v -> refines t op (forget m) v.
Proof.
  intros Hm. apply wp_bind_ok; [apply pre_post_mono|].
  eapply wp_mono; [apply pre_post_mono| |exact Hm]. by intros [a|e] v' Hv.
Qed.

Lemma perform_refines s c t op v :
  RequireTenant c = Ok t -> refines t op (perform s c op) v.
Proof.
  intros Hc.
  assert (forall {A} (m : M A), quiet t m -> refines t op m v) as Hquiet
    by (intros A m Hm; by apply quiet_wp).
  destruct op as [id op|id op| | | | |]; [destruct op|destruct op|..]; cbn [perform gated automated];
    try (apply forget_refines); try (by eauto with refines);
    try (apply AddInternalNote_refines; done);
    try (apply Hquiet; unfold Get, ListMessages, ListEvents, SetTyping, List_, UnreadCounts_,
         ApplyDeliveryReceipt; by repeat quiet_step).
Qed.
