(* ===== verification/ConvMemory.v ===== *)
(** * Conversations service: a world in memory

    An executable world of the service: documents in a map, a ticking clock, a log
    of what was announced. It meets the interface of [ConvState.v], and the
    witnesses run the service in it. *)
From S2P Require Import Prelude GoStrings AppError Authz Shared ConvEntity Messages ConvContracts.
From S2P Require Import Prog Ports ConvBase ConvMessaging ConvLifecycle.
From S2P Require Import ConvIsolation ConvDiscipline ConvMachine ConvState.

Record Memory := mkMemory {
  mem_convs : convs_view;
  mem_msgs : gmap string Message;
  mem_clock : Time;
  mem_seq : nat;
  mem_log : list string
}.

Definition set_convs (v : convs_view) (s : Memory) : Memory :=
  mkMemory v (mem_msgs s) (mem_clock s) (mem_seq s) (mem_log s).
Definition set_msgs (v : gmap string Message) (s : Memory) : Memory :=
  mkMemory (mem_convs s) v (mem_clock s) (mem_seq s) (mem_log s).
Definition tick (s : Memory) : Memory :=
  mkMemory (mem_convs s) (mem_msgs s) (mem_clock s + 1) (mem_seq s) (mem_log s).
Definition next_id (s : Memory) : Memory :=
  mkMemory (mem_convs s) (mem_msgs s) (mem_clock s) (S (mem_seq s)) (mem_log s).
Definition log (l : string) (s : Memory) : Memory :=
  mkMemory (mem_convs s) (mem_msgs s) (mem_clock s) (mem_seq s) (l :: mem_log s).

(** Documents are visible under their own key. *)
Definition well_keyed (kv : (string * string) * Conversation) : Prop :=
  kv.1 = (cv_TenantID kv.2, cv_ID kv.2).

Definition mem_view (s : Memory) : convs_view := filter well_keyed (mem_convs s).

Definition mem_infra {R} (e : Infra R) (s : Memory) : R * Memory :=
  match e in Infra R return R * Memory with
  | Now => (mem_clock s, tick s)
  | SystemNow => (mem_clock s, s)
  | NewID => ("id-" +:+ show_nat (mem_seq s), next_id s)
  | Publish topic event _ => (Ok tt, log ("publish " +:+ event) s)
  | PublishBatch events => (Ok tt, fold_left (fun s e => log ("publish " +:+ pe_Event e) s) events s)
  | WebhookMatches _ _ _ => (true, s)
  | WebhookDeliver _ event _ _ => (tt, log ("webhook " +:+ event) s)
  | EmitRuleEvent _ event _ _ => (tt, log ("rule " +:+ event) s)
  | Notify n => (tt, log ("notify " +:+ nt_UserID n) s)
  | AuditRecord e => (Ok tt, log ("audit " +:+ au_Action e) s)
  | QueueChanged _ queue => (tt, log ("queue " +:+ queue) s)
  | Acquire key _ => (Ok (key, true), s)
  | Release _ => (tt, s)
  end.

Definition idle_documents (t : string) (before : Time) (v : convs_view) : list Conversation :=
  map snd (filter (fun kv : (string * string) * Conversation =>
                     kv.1.1 = t /\ IsClosed (cv_Status kv.2) = false /\
                     cv_LastMessageAt kv.2 <= before) (map_to_list v)).

Definition mem_conv_repo {R} (c : Ctx) (e : ConvRepo R) (s : Memory) : R * Memory :=
  match RequireTenant c with
  | Err err =>
      match e in ConvRepo R return R * Memory with
      | ConvCreate _ => (Err err, s) | ConvUpdate _ => (Err err, s)
      | ConvFindByID _ => (Err (Internal "no tenant"), s) | ConvFindByIDs _ => (Err err, s)
      | ConvList _ _ _ => (Err err, s) | ConvUnreadCounts _ => (Err err, s)
      | ConvListInactiveOpen _ _ => (Err err, s)
      end
  | Ok t =>
      match e in ConvRepo R return R * Memory with
      | ConvCreate conv =>
          match mem_view s !! (cv_TenantID conv, cv_ID conv) with
          | Some _ => (Err (Conflict "already exists"), s)
          | None => (Ok tt, set_convs (<[(cv_TenantID conv, cv_ID conv) := conv]> (mem_convs s)) s)
          end
      | ConvUpdate conv =>
          match mem_view s !! (t, cv_ID conv) with
          | None => (Err (NotFound "not found"), s)
          | Some old =>
              (Ok tt, set_convs (<[(t, cv_ID conv) := stored_update old conv]> (mem_convs s)) s)
          end
      | ConvFindByID id =>
          (match mem_view s !! (t, id) with
           | Some conv => Ok conv | None => Err (NotFound "not found") end, s)
      | ConvFindByIDs ids => (Ok (omap (fun id => mem_view s !! (t, id)) ids), s)
      | ConvList _ _ _ => (Ok [], s)
      | ConvUnreadCounts _ => (Ok (mkUnread 0 0 0), s)
      | ConvListInactiveOpen before _ => (Ok (idle_documents t before (mem_view s)), s)
      end
  end.

Definition mem_events {R} (e : EventRepo R) (s : Memory) : R * Memory :=
  match e in EventRepo R return R * Memory with
  | EventCreate e => (Ok tt, log ("event " +:+ ev_Type e) s)
  | EventListByConversation _ _ => (Ok [], s)
  end.

Definition mem_msg_repo {R} (e : MsgRepo R) (s : Memory) : R * Memory :=
  match e in MsgRepo R return R * Memory with
  | MsgCreate m => (Ok tt, set_msgs (<[ms_ID m := m]> (mem_msgs s)) s)
  | MsgUpdate m => (Ok tt, set_msgs (<[ms_ID m := m]> (mem_msgs s)) s)
  | MsgFindByID id =>
      (match mem_msgs s !! id with Some m => Ok m | None => Err (NotFound "not found") end, s)
  | MsgListByConversation _ _ => (Ok [], s)
  | MsgLatestByConversation _ => (Err (NotFound "not found"), s)
  end.

Definition mem_hook {R} (e : Hook R) (s : Memory) : R * Memory :=
  match e in Hook R return R * Memory with
  | OnConversationCreated _ => (tt, log "hook created" s)
  | OnFirstResponse _ _ => (tt, log "hook first response" s)
  | OnResolved _ _ => (tt, log "hook resolved" s)
  | OnConversationClosed _ => (tt, log "hook closed" s)
  end.

Definition memory : handler Ctx ConvPort Memory := fun R c e s =>
  match e in ConvPort R return R * Memory with
  | PInfra e => mem_infra e s
  | PConvs e => mem_conv_repo c e s
  | PEvents e => mem_events e s
  | PMsgs e => mem_msg_repo e s
  | PHook e => mem_hook e s
  | SectorFindByID id => (Ok (mkSector id "" "" "" true 0 0), s)
  | ChannelFindByID id => (Ok (mkChannel id "" "whatsapp" []), s)
  | IntegrationMediaURL _ => (Err (NotFound "no media"), s)
  | ResolveTags refs _ => (Ok refs, s)
  | RequiresNote _ => (Ok false, s)
  | HydrateAttachments _ => (Ok ∅, s)
  | ValidateMessageAttachments _ => (Ok tt, s)
  | ContactCardsOf _ => (Ok ∅, s)
  | AgentCardsOf ids => (Ok (list_to_map (map (fun i => (i, mkCard i "")) ids)), s)
  | ValidateCustomAttributes _ _ => (Ok tt, s)
  | EnrichContact _ => (None, s)
  | EnrichAgent _ => (None, s)
  end.

(** ** It is a world of the service *)

Lemma mem_view_keys s t id conv :
  mem_view s !! (t, id) = Some conv -> cv_ID conv = id /\ cv_TenantID conv = t.
Proof. unfold mem_view. rewrite map_lookup_filter_Some. intros [_ Hk]. by injection Hk. Qed.

Lemma mem_view_insert s t id conv :
  cv_TenantID conv = t -> cv_ID conv = id ->
  mem_view (set_convs (<[(t, id) := conv]> (mem_convs s)) s) = <[(t, id) := conv]> (mem_view s).
Proof. intros Ht Hid. unfold mem_view. cbn. apply map_filter_insert_True. by rewrite <- Ht, <- Hid. Qed.

Lemma idle_documents_spec s t before :
  NoDup (map cv_ID (idle_documents t before (mem_view s))) /\
  Forall (fun conv => mem_view s !! (t, cv_ID conv) = Some conv /\ IsClosed (cv_Status conv) = false)
    (idle_documents t before (mem_view s)).
Proof.
  unfold idle_documents.
  set (l := filter _ (map_to_list (mem_view s))).
  assert (forall kv, kv ∈ l -> kv.1 = (t, cv_ID kv.2) /\ mem_view s !! kv.1 = Some kv.2 /\
                     IsClosed (cv_Status kv.2) = false) as Hl.
  { intros [[t' id] conv]. unfold l. rewrite list_elem_of_filter, elem_of_map_to_list. cbn.
    intros [(-> & ? & ?) Hv]. by pose proof Hv as [-> ?]%mem_view_keys. }
  assert (NoDup l) as Hnd by (apply NoDup_filter, NoDup_map_to_list).
  split.
  - rewrite map_map. apply NoDup_fmap_2_strong; [|done].
    intros [k1 c1] [k2 c2] H1%Hl H2%Hl He. cbn in *.
    destruct H1 as (-> & H1 & _), H2 as (-> & H2 & _). rewrite He in *. congruence.
  - apply Forall_fmap, Forall_forall. intros [k conv] Hin%Hl. cbn in *.
    destruct Hin as (-> & ? & ?). done.
Qed.

#[export] Instance memory_store : ConvStore (convs_of memory) mem_view.
Proof.
  split; cbn.
  - apply mem_view_keys.
  - intros R c e s Hw. unfold mem_conv_repo. by destruct (RequireTenant c), e.
  - intros c id s. unfold mem_conv_repo. destruct (RequireTenant c) as [t|e]; cbn; [|done].
    destruct (mem_view s !! (t, id)) eqn:Hv; cbn; [eauto|]. by intros _ ? [= <-].
  - intros c before limit s. unfold mem_conv_repo. destruct (RequireTenant c) as [t|e]; cbn; [|done].
    exists t. split; [done|]. apply idle_documents_spec.
  - intros c conv s. unfold mem_conv_repo. destruct (RequireTenant c) as [t|e]; [|by left].
    destruct (mem_view s !! (t, cv_ID conv)) as [old|] eqn:Hv; [|by left].
    exists t, old. split; [done|]. split; [done|]. apply mem_view_keys in Hv as [? ?].
    by apply mem_view_insert.
  - intros c conv s. unfold mem_conv_repo. destruct (RequireTenant c) as [t|e]; [|by left].
    destruct (mem_view s !! _) as [old|] eqn:Hv; [by left|].
    split_and!; [eauto|done|]. by apply mem_view_insert.
Qed.

#[export] Instance memory_world : ConvWorld memory mem_view.
Proof.
  split; [apply _|]. intros R c e s Hne.
  destruct e as [? e|? e|? e|? e|? e| | | | | | | | | | | |]; try done.
  - destruct e; try done. cbn. generalize s. induction events as [|e l IH]; intros s'; [done|].
    cbn. by rewrite IH.
  - by destruct (Hne e).
  - by destruct e.
  - by destruct e.
  - by destruct e.
Qed.
