(* ===== verification/ConvProps.v ===== *)
(** * Conversations service: what a client may rely on

    The properties of runs of the service in any world that meets the interface
    of [ConvState.v], with runs in the memory world as witnesses. *)
From S2P Require Import Prelude GoStrings AppError Authz Shared ConvEntity Messages ConvContracts.
From S2P Require Import Prog Ports ConvBase ConvMessaging ConvLifecycle.
From S2P Require Import ConvIsolation ConvDiscipline ConvMachine ConvState ConvMemory.

(** ** Functional behaviour against the store's contract *)

Section Functional.
Context (s : Service) (t : string) (c : Ctx).
Hypothesis (Hc : RequireTenant c = Ok t).
Implicit Types (v : convs_view) (conv old : Conversation) (id : string).
Let T := store_contract t.

#[local] Instance T_mono : Monotone T.
Proof. apply pre_post_mono. Qed.

(** The actor of the context sees the stored document. *)
Definition seen v id conv : Prop :=
  stored t v id conv /\ exists ac, FromContext c = Some ac /\ visibleTo conv ac = true.

(** What [Close] leaves. *)
Definition close_outcome id (cmd : CloseConversation) v (r : result Conversation) v' : Prop :=
  match r with
  | Ok conv => exists old now,
      seen v id old /\ cv_Status old <> StatusClosed /\ cv_Status old <> StatusArchived /\
      conv = shut now old /\
      (if blank (cl_Note cmd) then v' = <[(t, id) := conv]> v
       else exists m, ms_Text m = cl_Note cmd /\ ms_Direction m = DirectionInternal /\
                      v' = <[(t, id) := gained m conv]> v)
  | Err e =>
      v' = v \/
      exists old now, seen v id old /\
        (v' = <[(t, id) := shut now old]> v \/
         exists m, v' = <[(t, id) := gained m (shut now old)]> v)
  end.

Lemma note_view v id cmd (Q : result Message -> convs_view -> Prop) conv :
  stored t v id conv ->
  (forall e v' m, perhaps t v id (bumpActivity m conv) v' -> Q (Err e) v') ->
  (forall m, ms_Text m = an_Text cmd -> ms_Direction m = DirectionInternal ->
     Q (Ok m) (<[(t, id) := bumpActivity m conv]> v)) ->
  wp T (AddInternalNote_ s c id cmd) Q v.
Proof.
  intros Hs Herr Hok. unfold AddInternalNote_.
  assert (forall e, Q (Err e) v) as Hnone
    by (intros e; apply (Herr e v (newMessage "" "" "" "" "" "" "" "" [] 0 "")); by left).
  apply wp_bind_ok; [apply _|]. apply loadVisible_view; [done|done|].
  intros conv' ac Hs' Hac Hvis. cbn beta iota.
  assert (conv' = conv) as -> by (destruct Hs as [? _], Hs' as [? _]; congruence).
  case_match; [apply Hnone|].
  apply quiet_bind; [repeat quiet_step|intros now].
  apply quiet_bind; [repeat quiet_step|intros mid]. cbn zeta.
  apply wp_bind_ok; [apply _|]. apply (persistMessage_view s t c Hc v id); [done|done|].
  intros m (atts & mt & ->). cbn beta iota.
  apply quiet_bind; [repeat quiet_step|intros _]. by apply Hok.
Qed.

Lemma Close_view id cmd v : wp T (Close s c id cmd) (close_outcome id cmd v) v.
Proof.
  unfold Close. apply wp_bind_ok; [apply _|].
  apply loadVisible_view; [done|intros e; by left|]. intros old ac Hs Hac Hvis.
  cbn beta iota zeta delta [fst]. case_match eqn:Hst; [by left|]. prop_bools.
  apply quiet_bind_ok; [repeat quiet_step|intros e; by left|intros _]. cbn zeta.
  apply quiet_bind; [repeat quiet_step|intros now].
  assert (seen v id old) as Hseen by (split; [done|by exists ac]).
  apply wp_bind_ok; [apply _|]. apply (update_view t c Hc v id old); [done|done| |].
  { intros e v' [->| ->]; [by left|]. right. exists old, now. by split; [|left]. }
  assert (stored t (<[(t, id) := closed now old]> v) id (closed now old)) as Hs'
    by by eapply stored_insert.
  apply wp_bind_ok; [apply _|]. destruct (blank (cl_Note cmd)) eqn:Hb; cbn [negb].
  - apply quiet_bind; [repeat quiet_step|intros _].
    apply quiet_bind; [repeat quiet_step|intros _]. exists old, now. by rewrite Hb.
  - apply wp_bind_ok; [apply _|].
    assert (cv_ID (closed now old) = id) as -> by apply Hs'.
    apply (note_view _ _ _ _ (closed now old)); [done| |].
    + intros e v' m [->| ->]; right; exists old, now; (split; [done|]); [by left|right].
      exists m. by rewrite insert_insert_eq.
    + intros m Htext Hdir. unfold ok at 1. cbn [wp].
      apply quiet_bind; [repeat quiet_step|intros _].
      apply quiet_bind; [repeat quiet_step|intros _]. exists old, now. rewrite Hb.
      split_and!; try done. exists m. by rewrite insert_insert_eq.
Qed.

(** What [Reopen] leaves. *)
Definition reopen_outcome id v (r : result Conversation) v' : Prop :=
  match r with
  | Ok conv => exists old now, seen v id old /\ IsClosed (cv_Status old) = true /\
      conv = resumed now old /\ v' = <[(t, id) := conv]> v
  | Err e => v' = v \/
      exists old now, seen v id old /\ IsClosed (cv_Status old) = true /\
        v' = <[(t, id) := resumed now old]> v
  end.

Lemma Reopen_view id v : wp T (Reopen s c id) (reopen_outcome id v) v.
Proof.
  unfold Reopen. apply wp_bind_ok; [apply _|].
  apply loadVisible_view; [done|intros e; by left|]. intros old ac Hs Hac Hvis.
  cbn beta iota zeta delta [fst]. case_match eqn:Hst; [by left|]. prop_bools.
  apply quiet_bind; [repeat quiet_step|intros now].
  assert (seen v id old) as Hseen by (split; [done|by exists ac]).
  rewrite reopened_resumed.
  apply wp_bind_ok; [apply _|]. apply (update_view t c Hc v id old); [done|done| |].
  { intros e v' [->| ->]; [by left|]. right. by exists old, now. }
  do 3 (apply quiet_bind; [repeat quiet_step|intros _]). by exists old, now.
Qed.

(** What [SendMessage] leaves: the message it returns and the activity of the
    document, which was open. *)
Definition send_outcome id (cmd : SendMessage) v (r : result Message) v' : Prop :=
  match r with
  | Ok m => exists old ac,
      stored t v id old /\ FromContext c = Some ac /\ visibleTo old ac = true /\
      IsClosed (cv_Status old) = false /\
      (ms_ConversationID m = id /\ ms_TenantID m = t /\ ms_SenderType m = SenderAgent /\
       ms_SenderID m = ac_UserID ac /\ ms_Direction m = DirectionOutbound /\
       ms_DeliveryStatus m = DeliveryPending) /\
      v' = <[(t, id) := gained m old]> v
  | Err e => v' = v \/ exists old m, seen v id old /\ IsClosed (cv_Status old) = false /\
                                     v' = <[(t, id) := gained m old]> v
  end.

Lemma SendMessage_view id cmd v : wp T (SendMessage_ s c id cmd) (send_outcome id cmd v) v.
Proof.
  unfold SendMessage_. apply wp_bind_ok; [apply _|].
  apply loadVisible_view; [done|intros e; by left|]. intros old ac Hs Hac Hvis.
  cbn beta iota zeta. assert (seen v id old) as Hseen by (split; [done|by exists ac]).
  destruct (IsClosed (cv_Status old)) eqn:Hcl; [by left|].
  set (mtype := if sm_MessageType cmd =! "" then MessageText else sm_MessageType cmd).
  clearbody mtype. do 3 (case_match; [by left|]).
  apply quiet_bind_ok; [repeat quiet_step|intros e; by left|intros [text template]].
  apply quiet_bind; [repeat quiet_step|intros now].
  apply quiet_bind; [repeat quiet_step|intros mid]. cbn zeta.
  apply wp_bind_ok; [apply _|]. apply (persistMessage_view s t c Hc v id); [done| |].
  - intros e v' m [->| ->]; [by left|right]. by exists old, m.
  - intros m (atts & mt & ->). cbn beta iota.
    apply quiet_bind; [repeat quiet_step|intros _]. exists old, ac.
    split_and!; try done; apply Hs.
Qed.

(** What [MarkRead] leaves: nothing unread, read at some time, all else kept. *)
Definition read_outcome id v (r : result unit) v' : Prop :=
  (is_ok r = true -> exists conv, stored t v' id conv /\ cv_UnreadCount conv = 0 /\
                                  is_Some (cv_LastReadAt conv)) /\
  (v' = v \/ exists old now, seen v id old /\
     v' = <[(t, id) := set_UpdatedAt now (set_LastReadAt (Some now) (set_UnreadCount 0 old))]> v).

Lemma MarkRead_view id v : wp T (MarkRead c id) (read_outcome id v) v.
Proof.
  unfold MarkRead. apply wp_bind_ok; [apply _|].
  apply loadVisible_view; [done|intros e; split; [done|by left]|]. intros old ac Hs Hac Hvis.
  cbn beta iota. assert (seen v id old) as Hseen by (split; [done|by exists ac]).
  apply quiet_bind; [repeat quiet_step|intros now]. cbn zeta.
  apply wp_bind_ok; [apply _|]. case_match eqn:Hstale.
  - apply wp_bind_ok; [apply _|]. apply (update_view t c Hc v id old); [done|done| |].
    { intros e v' Hp. split; [done|]. destruct Hp as [->| ->]; [by left|right]. by exists old, now. }
    apply quiet_bind; [repeat quiet_step|intros _]. cbn [wp ok].
    apply quiet_wp; [repeat quiet_step|intros r]. split.
    + intros _. eexists. split; [by eapply stored_insert|]. by split; [|eexists].
    + right. by exists old, now.
  - cbn [wp ok]. apply quiet_wp; [repeat quiet_step|intros r]. split; [|by left].
    intros _. exists old. split; [done|]. apply orb_false_iff in Hstale as [H1 H2].
    apply negb_false_iff, Z.eqb_eq in H1. split; [done|]. by destruct (cv_LastReadAt old).
Qed.
End Functional.

(** ** Serving a sequence of operations *)

Definition serve_one {S} (h : handler Ctx ConvPort S) (s : Service) (st : S)
    (req : Ctx * ServiceOp) : S :=
  (run h (perform s req.1 req.2) st).2.

Definition serve {S} (h : handler Ctx ConvPort S) (s : Service) (reqs : list (Ctx * ServiceOp))
    (st : S) : S :=
  fold_left (serve_one h s) reqs st.

Section Served.
Context {S : Type} (h : handler Ctx ConvPort S) (view : S -> convs_view) `{!ConvWorld h view}.
Context (s : Service).

(** An operation either has no tenant and does nothing, or takes steps of the
    machine. *)
Lemma serve_one_steps req st :
  exists t, rtc (store_step t req.2) (view st) (view (serve_one h s st req)).
Proof.
  destruct req as [c op]. unfold serve_one. cbn [fst snd].
  destruct (RequireTenant c) as [t|e] eqn:Hc.
  - exists t. pose proof (perform_refines s c t op (view st) Hc) as Hr.
    apply (world_run h view t) in Hr. by destruct (run h (perform s c op) st).
  - exists "". enough ((run h (perform s c op) st).2 = st) as ->; [done|].
    by rewrite (no_tenant_no_call' s c e op Hc).
Qed.

(** Rule induction over the stores reached. *)
Lemma serve_invariant (I : convs_view -> Prop) (ok : ServiceOp -> Prop) reqs st :
  (forall t op v v', ok op -> store_step t op v v' -> I v -> I v') ->
  Forall (fun req => ok req.2) reqs ->
  I (view st) -> I (view (serve h s reqs st)).
Proof.
  intros Hstep Hok. revert st. unfold serve. induction Hok as [|req reqs Hop _ IH]; cbn; [done|].
  intros st HI. apply IH. destruct (serve_one_steps req st) as [t Hsteps].
  remember (view st) as v eqn:Hv. clear Hv. induction Hsteps; eauto.
Qed.
End Served.

Lemma well_valued_step t op v v' :
  store_step t op v v' -> map_Forall (fun _ => well_valued) v -> map_Forall (fun _ => well_valued) v'.
Proof.
  destruct 1 as [v id old new Hv _ Ht|v cmd conv _ _ _ Hst Hp]; intros Hall;
    apply map_Forall_insert_2; try done.
  - eapply transition_valued; [done|]. by apply (Hall (t, id)).
  - split; [rewrite Hst; apply open_status_valid|done].
Qed.

Lemma closing_step t op v v' :
  sets_status_only op = false -> store_step t op v v' ->
  map_Forall (fun _ => closing_consistent) v -> map_Forall (fun _ => closing_consistent) v'.
Proof.
  intros Hop. destruct 1 as [v id old new Hv _ Ht|v cmd conv _ _ _ Hst _ Hcl]; intros Hall;
    apply map_Forall_insert_2; try done.
  - eapply transition_closing; [done|done|]. by apply (Hall (t, id)).
  - unfold closing_consistent. rewrite Hst, Hcl, open_status_open. split; [done|by intros []].
Qed.

(** ** A concrete service, actor and store, for the witnesses *)

Module Demo.
Definition conv : Conversation :=
  set_AssignedTo "ana" (set_Status StatusAssigned
    (set_Priority PriorityNormal
       (mkConversation "c1" "acme" "k1" "whatsapp" "ch1" "s1" "" StatusNew "" PriorityNormal ""
          ["vip"] [] 5 None None 2 None 1 5 None))).
Definition start : Memory := mkMemory {[ ("acme", "c1") := conv ]} ∅ 100 0 [].
End Demo.

(** ** Properties *)

(** C1. Refinement: in every world, an operation of the service changes the store by
    transitions of the abstract machine only - documents of its own tenant, within
    its scope, each taking a transition the operation allows - and so keeps the
    identity, contact, channel and protocol of every document. *)
Theorem service_refines_machine {S} (h : handler Ctx ConvPort S) (view : S -> convs_view)
    `{!ConvWorld h view} (s : Service) (c : Ctx) (t : string) (op : ServiceOp) (st : S) :
  RequireTenant c = Ok t ->
  rtc (store_step t op) (view st) (view (run h (perform s c op) st).2).
Proof.
  intros Hc. pose proof (perform_refines s c t op (view st) Hc) as Hr.
  apply (world_run h view t) in Hr. by destruct (run h (perform s c op) st).
Qed.

Lemma service_refines_machine_witness :
  rtc (store_step "acme" (Gated "c1" (OpSend Sample.hello)))
    (mem_view Demo.start)
    (mem_view (run memory (perform Sample.service Sample.ctx
       (Gated "c1" (OpSend Sample.hello))) Demo.start).2).
Proof. apply (service_refines_machine memory mem_view). reflexivity. Defined.

(** C17. Whatever sequence of operations a world serves, by whatever tenants and actors,
    the status and the priority of every document stay among the declared ones. *)
Theorem documents_stay_valid {S} (h : handler Ctx ConvPort S) (view : S -> convs_view)
    `{!ConvWorld h view} (s : Service) (reqs : list (Ctx * ServiceOp)) (st : S) :
  map_Forall (fun _ => well_valued) (view st) ->
  map_Forall (fun _ => well_valued) (view (serve h s reqs st)).
Proof.
  apply (serve_invariant h view s (map_Forall (fun _ => well_valued)) (fun _ => True)).
  - intros. by eapply well_valued_step.
  - by apply Forall_true.
Qed.

Lemma documents_stay_valid_witness :
  map_Forall (fun _ => well_valued)
    (mem_view (serve memory Sample.service
       [(Sample.ctx, Gated "c1" OpMarkRead); (Sample.ctx, Gated "c1" (OpClose (mkClose "" "done")))]
       Demo.start)).
Proof.
  apply (documents_stay_valid memory mem_view). unfold well_valued.
  apply map_Forall_lookup. intros i x Hx. apply map_lookup_filter_Some in Hx as [Hx _].
  cbn in Hx. apply lookup_singleton_Some in Hx as [_ <-]. split; reflexivity.
Defined.

(** C21. Whatever sequence of operations a world serves, the ones that set a status
    alone (a PATCH of the status, the rule actions assign-agent, assign-team,
    remove-agent and mark-pending) apart, a document is closed, resolved or
    archived exactly when it has a closing time. *)
Theorem closing_times_stay_consistent {S} (h : handler Ctx ConvPort S) (view : S -> convs_view)
    `{!ConvWorld h view} (s : Service) (reqs : list (Ctx * ServiceOp)) (st : S) :
  Forall (fun req => sets_status_only req.2 = false) reqs ->
  map_Forall (fun _ => closing_consistent) (view st) ->
  map_Forall (fun _ => closing_consistent) (view (serve h s reqs st)).
Proof.
  intros Hreqs.
  apply (serve_invariant h view s (map_Forall (fun _ => closing_consistent))
           (fun op => sets_status_only op = false)); [|done].
  intros. by eapply closing_step.
Qed.

Lemma closing_times_stay_consistent_witness :
  map_Forall (fun _ => closing_consistent)
    (mem_view (serve memory Sample.service
       [(Sample.ctx, Gated "c1" (OpClose (mkClose "" "done"))); (Sample.ctx, Gated "c1" OpReopen)]
       Demo.start)).
Proof.
  apply (closing_times_stay_consistent memory mem_view); [repeat constructor|].
  apply map_Forall_lookup. intros i x Hx. apply map_lookup_filter_Some in Hx as [Hx _].
  cbn in Hx. apply lookup_singleton_Some in Hx as [_ <-].
  split; [intros Hx; discriminate Hx|intros [? Hx]; discriminate Hx].
Defined.

(** The rule action assign-agent, on a conversation that is closed, leaves it
    assigned and still carrying its closing time: the operations left out of the
    consistency theorem do break it. *)
Theorem assigning_a_closed_conversation :
  exists conv,
    mem_view (serve memory Sample.service
       [(Sample.ctx, Gated "c1" (OpClose (mkClose "" "")));
        (Sample.ctx, Automated "c1" (OpAssignAgent "bob"))] Demo.start) !! ("acme", "c1") = Some conv
    /\ cv_Status conv = StatusAssigned /\ cv_ClosedAt conv = Some 100.
Proof. eexists. split; [vm_compute; reflexivity|by split]. Qed.

(** [Close], in every world: on success the conversation was visible to the actor
    and neither closed nor archived, and the stored document is exactly the old one
    closed now (and with the note's activity when a note is given); on an error the
    document is untouched, closed, or closed with the note. *)
Theorem Close_spec {S} (h : handler Ctx ConvPort S) (view : S -> convs_view)
    `{!ConvWorld h view} (s : Service) (c : Ctx) (t id : string) (cmd : CloseConversation) (st : S) :
  RequireTenant c = Ok t ->
  let '(r, st') := run h (Close s c id cmd) st in close_outcome t c id cmd (view st) r (view st').
Proof. intros Hc. by apply (world_run h view t), Close_view. Qed.

Lemma Close_spec_witness :
  is_ok (run memory (Close Sample.service Sample.ctx "c1" (mkClose "" "bye")) Demo.start).1 = true /\
  let '(r, st') := run memory (Close Sample.service Sample.ctx "c1" (mkClose "" "bye")) Demo.start in
  close_outcome "acme" Sample.ctx "c1" (mkClose "" "bye") (mem_view Demo.start) r (mem_view st').
Proof. split; [vm_compute; reflexivity|]. apply (Close_spec memory mem_view). reflexivity. Defined.

(** [SendMessage], in every world: on success the conversation was visible to the
    actor and open, the message is the actor's outbound one, pending delivery, and
    the document only gains its activity; a closed conversation is never written. *)
Theorem SendMessage_spec {S} (h : handler Ctx ConvPort S) (view : S -> convs_view)
    `{!ConvWorld h view} (s : Service) (c : Ctx) (t id : string) (cmd : SendMessage) (st : S) :
  RequireTenant c = Ok t ->
  let '(r, st') := run h (SendMessage_ s c id cmd) st in
  send_outcome t c id cmd (view st) r (view st').
Proof. intros Hc. by apply (world_run h view t), SendMessage_view. Qed.

Lemma SendMessage_spec_witness :
  is_ok (run memory (SendMessage_ Sample.service Sample.ctx "c1"
           Sample.hello) Demo.start).1 = true /\
  let '(r, st') := run memory (SendMessage_ Sample.service Sample.ctx "c1"
                     Sample.hello) Demo.start in
  send_outcome "acme" Sample.ctx "c1" Sample.hello
    (mem_view Demo.start) r (mem_view st').
Proof.
  split; [vm_compute; reflexivity|]. apply (SendMessage_spec memory mem_view). reflexivity.
Defined.

(** [Reopen], in every world: on success a closed, visible conversation is stored
    open again, assigned, queued or new by its assignee and queue, without a
    closing time; on an error it is untouched or so reopened. *)
Theorem Reopen_spec {S} (h : handler Ctx ConvPort S) (view : S -> convs_view)
    `{!ConvWorld h view} (s : Service) (c : Ctx) (t id : string) (st : S) :
  RequireTenant c = Ok t ->
  let '(r, st') := run h (Reopen s c id) st in reopen_outcome t c id (view st) r (view st').
Proof. intros Hc. by apply (world_run h view t), Reopen_view. Qed.

Lemma Reopen_spec_witness :
  let st := serve_one memory Sample.service Demo.start (Sample.ctx, Gated "c1" (OpClose (mkClose "" ""))) in
  is_ok (run memory (Reopen Sample.service Sample.ctx "c1") st).1 = true /\
  let '(r, st') := run memory (Reopen Sample.service Sample.ctx "c1") st in
  reopen_outcome "acme" Sample.ctx "c1" (mem_view st) r (mem_view st').
Proof. split; [vm_compute; reflexivity|]. apply (Reopen_spec memory mem_view). reflexivity. Defined.

(** [MarkRead], in every world: success leaves the conversation with nothing
    unread and a read time; in every case only the unread count, the read time and
    the update time of that document may change. *)
Theorem MarkRead_spec {S} (h : handler Ctx ConvPort S) (view : S -> convs_view)
    `{!ConvWorld h view} (c : Ctx) (t id : string) (st : S) :
  RequireTenant c = Ok t ->
  let '(r, st') := run h (MarkRead c id) st in read_outcome t c id (view st) r (view st').
Proof. intros Hc. by apply (world_run h view t), MarkRead_view. Qed.

Lemma MarkRead_spec_witness :
  is_ok (run memory (MarkRead Sample.ctx "c1") Demo.start).1 = true /\
  let '(r, st') := run memory (MarkRead Sample.ctx "c1") Demo.start in
  read_outcome "acme" Sample.ctx "c1" (mem_view Demo.start) r (mem_view st').
Proof. split; [vm_compute; reflexivity|]. apply (MarkRead_spec memory mem_view). reflexivity. Defined.

(** The read and the write of an operation are separate calls, and the write
    stores the whole document: interleaved with a [Close], a [MarkRead] of the same
    conversation can undo it. Both succeed, and the conversation ends up open. *)
Theorem close_may_be_lost :
  exists p st,
    steps memory
      ([perform Sample.service Sample.ctx (Gated "c1" (OpClose (mkClose "" "")));
        perform Sample.service Sample.ctx (Gated "c1" OpMarkRead)], Demo.start) (p, st) /\
    p = [Ret (Ok tt); Ret (Ok tt)] /\
    exists conv, mem_view st !! ("acme", "c1") = Some conv /\ cv_Status conv = StatusAssigned /\
                 cv_ClosedAt conv = None.
Proof.
  pose (turns := (1 :: replicate 40 0 ++ replicate 20 1)%nat).
  destruct (schedule memory turns
    [perform Sample.service Sample.ctx (Gated "c1" (OpClose (mkClose "" "")));
     perform Sample.service Sample.ctx (Gated "c1" OpMarkRead)] Demo.start) as [p st] eqn:Hs.
  exists p, st. split; [rewrite <- Hs; apply schedule_steps|].
  vm_compute in Hs. injection Hs as <- <-. split; [done|]. eexists.
  split; [vm_compute; reflexivity|by split].
Qed.
