(* ===== verification/Presence.v ===== *)
(** * Agents and presence
    (domain/iam/entity/user.go, domain/presence)

    What routing reads of a user, the precedence that resolves an agent's effective
    status, and the presence service: every change of a durable setting or of the
    live sockets recomputes, caches and publishes the effective status. *)
From S2P Require Import Prelude GoStrings AppError Authz Shared ConvEntity.
From S2P Require Import ConvContracts Prog Ports.

(** ** Users (iam/entity/user.go) *)

Definition StatusActive : string := "active".
Definition StatusDisabled : string := "disabled".
Definition StatusPendingVerification : string := "pending_verification".

(** The fields of [User] the domain logic reads. *)
Record User := mkUser {
  us_ID : string; us_TenantID : string; us_Name : string; us_Status : string;
  us_SectorIDs : list string; us_MaxConcurrentChats : Z;
  us_PresenceAvailability : string; us_AutoOffline : option bool }.

Definition IsActive (u : User) : bool := us_Status u =! StatusActive.

Definition AvailabilityOr (u : User) : string :=
  if blank (us_PresenceAvailability u) then "online" else us_PresenceAvailability u.

Definition AutoOfflineOr (u : User) : bool := default true (us_AutoOffline u).

Definition NormalizeSectorIDs (ids : list string) : list string :=
  dedupe_from (fun id => id <>! "") ∅ (map trim_space ids).

(** ** Effective status (presence/entity/presence.go) *)

Module PStatus.
Definition StatusOffline : string := "offline".
Definition StatusOnline : string := "online".
Definition StatusAvailable : string := "available".
Definition StatusBusy : string := "busy".
Definition StatusAway : string := "away".
Definition StatusPaused : string := "paused".
Definition StatusLunch : string := "lunch".
Definition StatusTraining : string := "training".
Definition Valid (s : string) : bool :=
  existsb (String.eqb s) [StatusOffline; StatusOnline; StatusAvailable; StatusBusy;
                          StatusAway; StatusPaused; StatusLunch; StatusTraining].
Definition IsConnected (s : string) : bool := (s <>! StatusOffline) && (s <>! "").
Definition CanReceive (s : string) : bool := (s =! StatusOnline) || (s =! StatusAvailable).
End PStatus.
Import PStatus.

Definition AvailabilityOnline : string := "online".
Definition AvailabilityAway : string := "away".
Definition AvailabilityOffline : string := "offline".

Definition ResolveEffective (availability : string) (autoOffline hasLiveSocket : bool) : string :=
  if availability =! AvailabilityOffline then StatusOffline
  else if (availability =! AvailabilityOnline) || (availability =! "") then
    if hasLiveSocket then StatusOnline
    else if autoOffline then StatusOffline
    else StatusOnline
  else availability.

Record AgentPresence := mkPresence {
  ap_TenantID : string; ap_UserID : string; ap_Status : string; ap_Availability : string;
  ap_AutoOffline : bool; ap_CurrentLoad : Z; ap_MaxConcurrentChats : Z; ap_LastSeenAt : Time }.

Definition HasCapacity (p : AgentPresence) : bool :=
  (ap_MaxConcurrentChats p <=? 0) || (ap_CurrentLoad p <? ap_MaxConcurrentChats p).

Definition set_CurrentLoad (v : Z) (p : AgentPresence) : AgentPresence :=
  mkPresence (ap_TenantID p) (ap_UserID p) (ap_Status p) (ap_Availability p) (ap_AutoOffline p) v
    (ap_MaxConcurrentChats p) (ap_LastSeenAt p).

(** ** Ports *)

Definition EventPresenceChanged : string := "agent.presence_changed".

Record PresenceChanged := mkPresenceChanged {
  pc_TenantID : string; pc_UserID : string; pc_Status : string; pc_Availability : string;
  pc_AutoOffline : bool; pc_CurrentLoad : Z; pc_MaxConcurrentChats : Z; pc_LastSeenAt : Time }.

Definition NewPresenceChanged (p : AgentPresence) : PresenceChanged :=
  {| pc_TenantID := ap_TenantID p; pc_UserID := ap_UserID p; pc_Status := ap_Status p;
     pc_Availability := ap_Availability p; pc_AutoOffline := ap_AutoOffline p;
     pc_CurrentLoad := ap_CurrentLoad p; pc_MaxConcurrentChats := ap_MaxConcurrentChats p;
     pc_LastSeenAt := ap_LastSeenAt p |}.

(** [repository.PresenceStore] and [repository.LoadCounter]. *)
Inductive PresenceStore : Type -> Type :=
| PSave (p : AgentPresence) : PresenceStore (result unit)
| PConnect (userID clientID : string) : PresenceStore (result bool)
| PHeartbeat (userID clientID : string) : PresenceStore (result unit)
| PDisconnect (userID clientID : string) : PresenceStore (result bool)
| PHasLiveSocket (userID : string) : PresenceStore (result bool)
| PGet (userID : string) : PresenceStore (result AgentPresence)
| PList : PresenceStore (result (list AgentPresence)).

Inductive LoadCounter : Type -> Type :=
| CountOpenAssigned (userID : string) : LoadCounter (result Z)
| OpenAssignedLoads : LoadCounter (result (gmap string Z)).

(** The methods of [iamrepo.UserRepository] used here. *)
Inductive UserRepo : Type -> Type :=
| UserFindByID (id : string) : UserRepo (result User)
| UserListBySector (sectorID : string) : UserRepo (result (list User))
| SetPresenceSettings (userID : string) (availability : option string) (autoOffline : option bool)
    : UserRepo (result unit).

Inductive PresencePort : Type -> Type :=
| PPStore {R} (e : PresenceStore R) : PresencePort R
| PPLoad {R} (e : LoadCounter R) : PresencePort R
| PPUsers {R} (e : UserRepo R) : PresencePort R
| PPNow : PresencePort Time
| PPPublish (topic event : string) (data : PresenceChanged) : PresencePort (result unit).

#[export] Instance embed_pp_store : Embed PresenceStore PresencePort := @PPStore.
#[export] Instance embed_pp_load : Embed LoadCounter PresencePort := @PPLoad.
#[export] Instance embed_pp_users : Embed UserRepo PresencePort := @PPUsers.
#[export] Instance embed_pp_self : Embed PresencePort PresencePort := fun R e => e.

(** ** The service (presence/service/presence_service.go) *)

Module PresenceService.
Abbreviation P := (prog Ctx PresencePort).

Definition fail {A} (e : error) : P (result A) := Ret (Err e).
Definition ok {A} (a : A) : P (result A) := Ret (Ok a).

Definition validAvailability (a : string) : bool :=
  (a =! AvailabilityOnline) || (a =! AvailabilityAway) || (a =! AvailabilityOffline).

Definition authorizeTarget (c : Ctx) (targetUserID : string) : result string :=
  match FromContext c with
  | None => Err (Unauthorized "authentication required")
  | Some ac =>
      let target := if targetUserID =! "" then ac_UserID ac else targetUserID in
      if (target <>! ac_UserID ac) && negb (Has ac UserManage) then
        Err (Forbidden "cannot change another agent's presence")
      else Ok target
  end.

Definition recomputeAndPublish (c : Ctx) (userID : string) : P (result AgentPresence) :=
  try! user := ask c (UserFindByID userID) in
  try! hasLive := ask c (PHasLiveSocket userID) in
  try! load := ask c (CountOpenAssigned userID) in
  let tenantID := match RequireTenant c with Ok t => t | Err _ => "" end in
  let availability := AvailabilityOr user in
  let autoOffline := AutoOfflineOr user in
  let! now := ask c PPNow in
  let p := {| ap_TenantID := tenantID;
              ap_UserID := userID;
              ap_Status := ResolveEffective availability autoOffline hasLive;
              ap_Availability := availability;
              ap_AutoOffline := autoOffline;
              ap_CurrentLoad := load;
              ap_MaxConcurrentChats := us_MaxConcurrentChats user;
              ap_LastSeenAt := now |} in
  try! _ := ask c (PSave p) in
  let event := NewPresenceChanged p in
  do! ask c (PPPublish (TopicPresence tenantID) EventPresenceChanged event) in
  do! ask c (PPPublish (TopicUser tenantID userID) EventPresenceChanged event) in
  ok p.

Definition SetStatus (c : Ctx) (targetUserID status : string) : P (result AgentPresence) :=
  try! _ := Ret (RequireTenant c) in
  try! target := Ret (authorizeTarget c targetUserID) in
  if negb (validAvailability status) then
    fail (WithDetails (detail "status" "must be online, away or offline")
            (Validation "invalid status"))
  else
    try! _ := ask c (SetPresenceSettings target (Some status) None) in
    recomputeAndPublish c target.

Definition SetAutoOffline (c : Ctx) (targetUserID : string) (enabled : bool)
  : P (result AgentPresence) :=
  try! _ := Ret (RequireTenant c) in
  try! target := Ret (authorizeTarget c targetUserID) in
  try! _ := ask c (SetPresenceSettings target None (Some enabled)) in
  recomputeAndPublish c target.

Definition Connected (c : Ctx) (userID clientID : string) : P (result unit) :=
  try! _ := Ret (RequireTenant c) in
  try! becameLive := ask c (PConnect userID clientID) in
  if becameLive : bool then do! recomputeAndPublish c userID in ok tt else ok tt.

Definition Heartbeat (c : Ctx) (userID clientID : string) : P (result unit) :=
  try! _ := Ret (RequireTenant c) in ask c (PHeartbeat userID clientID).

Definition Disconnected (c : Ctx) (userID clientID : string) : P (result bool) :=
  try! _ := Ret (RequireTenant c) in ask c (PDisconnect userID clientID).

Definition Vanished (c : Ctx) (userID : string) : P (result unit) :=
  try! _ := Ret (RequireTenant c) in
  try! _ := recomputeAndPublish c userID in ok tt.

Definition List_ (c : Ctx) (sectorID : string) : P (result (list AgentPresence)) :=
  try! _ := Ret (RequireTenant c) in
  try! items := ask c PList in
  try! items :=
    (if sectorID <>! "" then
       try! users := ask c (UserListBySector sectorID) in
       let allowed : gset string := list_to_set (map us_ID users) in
       ok (filter (fun p => ap_UserID p ∈ allowed) items)
     else ok items) in
  try! loads := ask c OpenAssignedLoads in
  ok (map (fun p => set_CurrentLoad (default 0 (loads !! ap_UserID p)) p) items).
End PresenceService.

(** ** What the service is told, and what it may say

    The ghost state is what an operation read last - the user's durable settings
    and whether a socket is live - and the record it cached. *)
Record Known := mkKnown {
  k_user : option User;
  k_live : option bool;
  k_saved : option AgentPresence
}.

Definition nothing_known : Known := mkKnown None None None.

(** A record with the effective status of what is known of the agent. *)
Definition effective (t : string) (k : Known) (p : AgentPresence) : Prop :=
  exists u live, k_user k = Some u /\ k_live k = Some live /\ us_ID u = ap_UserID p /\
    ap_TenantID p = t /\
    ap_Status p = ResolveEffective (AvailabilityOr u) (AutoOfflineOr u) live.

Definition presence_pre (t : string) (R : Type) (c : Ctx) (e : PresencePort R) (k : Known) : Prop :=
  RequireTenant c = Ok t /\
  match e with
  | PPStore (PSave p) => effective t k p
  | PPPublish topic event data => exists p, k_saved k = Some p /\ effective t k p /\
      data = NewPresenceChanged p /\ (topic = TopicPresence t \/ topic = TopicUser t (ap_UserID p))
  | _ => True
  end.

Definition presence_post (t : string) (R : Type) (c : Ctx) (e : PresencePort R) (k : Known)
    (r : R) (k' : Known) : Prop :=
  match e in PresencePort R return R -> Prop with
  | PPStore e =>
      match e in PresenceStore R return R -> Prop with
      | PHasLiveSocket _ => fun r => match r with
          | Ok b => k' = mkKnown (k_user k) (Some b) (k_saved k) | Err _ => k' = k end
      | PSave p => fun r => match r with
          | Ok _ => k' = mkKnown (k_user k) (k_live k) (Some p) | Err _ => k' = k end
      | _ => fun _ => k' = k
      end
  | PPUsers e =>
      match e in UserRepo R return R -> Prop with
      | UserFindByID id => fun r => match r with
          | Ok u => us_ID u = id /\ k' = mkKnown (Some u) (k_live k) (k_saved k) | Err _ => k' = k end
      | _ => fun _ => k' = k
      end
  | _ => fun _ => k' = k
  end r.

Definition presence_contract (t : string) : contract Ctx PresencePort Known :=
  pre_post (presence_pre t) (presence_post t).

(** The operations that may change the presence of an agent. *)
Inductive PresenceOp :=
| OpSetStatus (target status : string)
| OpSetAutoOffline (target : string) (enabled : bool)
| OpConnected (userID clientID : string)
| OpVanished (userID : string).

Section Presence.
Import PresenceService.
Context (t : string) (c : Ctx).
Hypothesis (Hc : RequireTenant c = Ok t).
Let T := presence_contract t.

#[local] Instance T_mono : Monotone T.
Proof. apply pre_post_mono. Qed.

Lemma recompute_wp k userID (Q : result AgentPresence -> Known -> Prop) :
  (forall e k', Q (Err e) k') ->
  (forall p k', k_saved k' = Some p -> effective t k' p -> ap_UserID p = userID -> Q (Ok p) k') ->
  wp T (recomputeAndPublish c userID) Q k.
Proof.
  intros Herr Hok. unfold recomputeAndPublish. rewrite Hc.
  apply wp_bind_ok; [apply _|]. split; [done|]. intros [u|e] k1; cbn; [|intros; apply Herr].
  intros [Hid ->]. split; [done|]. intros [live|e] k2; cbn; [|intros; apply Herr]. intros ->.
  split; [done|]. intros [load|e] k3; cbn; [|intros; apply Herr]. intros ->.
  split; [done|]. intros now k4 ->.
  set (p := mkPresence _ _ _ _ _ _ _ _).
  assert (forall saved, effective t (mkKnown (Some u) (Some live) saved) p) as Hp
    by (intros saved; exists u, live; by rewrite Hid).
  split; [split; [done|apply Hp]|]. intros [[]|e] k5; cbn; [|intros; apply Herr]. intros ->.
  split; [split; [done|by exists p; eauto]|]. intros _ k6 ->.
  split; [split; [done|by exists p; eauto]|]. intros _ k7 ->.
  by apply Hok; [|apply Hp|].
Qed.

Definition settles (target : string) (r : result AgentPresence) (k : Known) : Prop :=
  match r with
  | Ok p => k_saved k = Some p /\ effective t k p /\ ap_UserID p = target
  | Err _ => True
  end.

Lemma recompute_settles k userID : wp T (recomputeAndPublish c userID) (settles userID) k.
Proof. by apply recompute_wp. Qed.
End Presence.

Definition perform_presence (c : Ctx) (op : PresenceOp)
  : PresenceService.P (result unit) :=
  match op with
  | OpSetStatus target status =>
      try! _ := PresenceService.SetStatus c target status in Ret (Ok tt)
  | OpSetAutoOffline target enabled =>
      try! _ := PresenceService.SetAutoOffline c target enabled in Ret (Ok tt)
  | OpConnected userID clientID => PresenceService.Connected c userID clientID
  | OpVanished userID => PresenceService.Vanished c userID
  end.

(** ** Properties *)

(** The precedence of the effective status: a manual choice other than online is
    sticky, whatever the sockets and the toggle; an online agent is online exactly
    while a socket is live or the auto-offline toggle is off. *)
Theorem ResolveEffective_spec (availability : string) (autoOffline live : bool) :
  (availability <> AvailabilityOnline -> availability <> "" ->
     ResolveEffective availability autoOffline live = availability) /\
  (availability = AvailabilityOnline \/ availability = "" ->
     ResolveEffective availability autoOffline live =
       (if live || negb autoOffline then StatusOnline else StatusOffline)).
Proof.
  unfold ResolveEffective. split.
  - intros H1 H2. case_match eqn:E; prop_bools; [done|].
    by rewrite !bool_decide_false by done.
  - by intros [->| ->]; destruct live, autoOffline.
Qed.

(** Whatever its dependencies answer, the presence service caches only records
    carrying the effective status of the durable settings and the live sockets it
    just read, and publishes only what it cached, to the two rooms of the tenant
    that show that agent. *)
Theorem presence_published_is_effective (t : string) (c : Ctx) (op : PresenceOp) :
  RequireTenant c = Ok t ->
  wp (presence_contract t) (perform_presence c op) (fun _ _ => True) nothing_known.
Proof.
  intros Hc. pose proof (pre_post_mono (presence_pre t) (presence_post t)) as HT.
  assert (forall k u, wp (presence_contract t) (PresenceService.recomputeAndPublish c u)
            (fun _ _ => True) k) as Hr
    by (intros; by apply recompute_wp).
  destruct op as [target status|target enabled|u cl|u]; cbn [perform_presence];
    unfold PresenceService.SetStatus, PresenceService.SetAutoOffline, PresenceService.Connected,
      PresenceService.Vanished; rewrite Hc; cbn [bind_ok bind].
  - apply wp_bind_ok; [apply _|]. destruct (PresenceService.authorizeTarget c target) as [tg|e]; [|done].
    cbn [bind_ok bind]. case_match; [done|]. apply wp_bind_ok; [apply _|].
    split; [done|]. intros [[]|e] k; [intros ->|done]. cbn [wp].
    eapply wp_mono; [apply _| |apply Hr]. by intros [p|e] k'.
  - apply wp_bind_ok; [apply _|]. destruct (PresenceService.authorizeTarget c target) as [tg|e]; [|done].
    cbn [bind_ok bind]. apply wp_bind_ok; [apply _|].
    split; [done|]. intros [[]|e] k; [intros ->|done]. cbn [wp].
    eapply wp_mono; [apply _| |apply Hr]. by intros [p|e] k'.
  - apply wp_bind_ok; [apply _|]. split; [done|]. intros [b|e] k; [intros ->|done]. cbn [wp].
    destruct b; [|done]. apply wp_bind; [apply _|]. eapply wp_mono; [apply _| |apply Hr]. done.
  - apply wp_bind_ok; [apply _|]. eapply wp_mono; [apply _| |apply Hr]. by intros [p|e] k'.
Qed.

Lemma presence_published_is_effective_witness :
  wp (presence_contract "acme")
    (perform_presence (WithAuthContext (WithTenant Background "acme") (SystemActor "acme"))
       (OpVanished "ana")) (fun _ _ => True) nothing_known.
Proof. apply presence_published_is_effective. reflexivity. Defined.

(** Only the agent, or a holder of user.manage, may change an agent's presence:
    anyone else is refused before any call. *)
Theorem presence_of_others_is_protected (c : Ctx) (t : string) (ac : AuthContext)
    (target status : string) (enabled : bool) :
  RequireTenant c = Ok t -> FromContext c = Some ac -> Has ac UserManage = false ->
  target <> "" -> target <> ac_UserID ac ->
  PresenceService.SetStatus c target status =
    Ret (Err (Forbidden "cannot change another agent's presence")) /\
  PresenceService.SetAutoOffline c target enabled =
    Ret (Err (Forbidden "cannot change another agent's presence")).
Proof.
  intros Hc Hac Hm H1 H2.
  unfold PresenceService.SetStatus, PresenceService.SetAutoOffline, PresenceService.authorizeTarget.
  rewrite Hc, Hac, Hm. rewrite (bool_decide_false (target = "")) by done.
  by rewrite (bool_decide_false (target = ac_UserID ac)) by done.
Qed.

Lemma presence_of_others_is_protected_witness :
  let ana := NewAuthContext "acme" "ana" [ConversationRead] [] ScopeAll in
  let c := WithAuthContext (WithTenant Background "acme") ana in
  PresenceService.SetStatus c "bob" "offline" =
    Ret (Err (Forbidden "cannot change another agent's presence")) /\
  PresenceService.SetAutoOffline c "bob" true =
    Ret (Err (Forbidden "cannot change another agent's presence")).
Proof.
  cbv zeta.
  apply (presence_of_others_is_protected _ "acme" (NewAuthContext "acme" "ana" [ConversationRead] [] ScopeAll));
    [reflexivity|reflexivity|vm_compute; reflexivity|discriminate|discriminate].
Defined.

(** Sector ids are normalised to trimmed, non-empty, distinct ids, the trimmed ids
    of the input and no others, in order of first appearance. *)
Theorem NormalizeSectorIDs_spec (ids : list string) :
  NoDup (NormalizeSectorIDs ids) /\
  (forall id, id ∈ NormalizeSectorIDs ids <-> id <> "" /\ exists raw, raw ∈ ids /\ id = trim_space raw) /\
  NormalizeSectorIDs ids `sublist_of` map trim_space ids.
Proof.
  unfold NormalizeSectorIDs. split_and!; [apply dedupe_from_NoDup| |apply dedupe_from_sublist].
  intros id. rewrite dedupe_from_elem, list_elem_of_fmap. split.
  - intros (Hin & Hok & _). prop_bools. destruct Hin as (raw & -> & ?). split; [done|eauto].
  - intros [Hne (raw & ? & ->)]. split_and!; [by exists raw|by rewrite bool_decide_false|set_solver].
Qed.
