(* ===== verification/Routing.v ===== *)
(** * Routing (domain/routing)

    Manual and automatic (least-loaded) assignment, transfer and enqueueing, under a
    lock per conversation. *)
From S2P Require Import Prelude GoStrings AppError Authz Shared ConvEntity Messages ConvContracts.
From S2P Require Import Prog Ports Presence.

(** ** Data *)

Definition lockTTL : Z := 5 * Second.

Record Queue := mkQueue {
  qu_ID : string; qu_TenantID : string; qu_SectorID : string; qu_Name : string;
  qu_Strategy : string; qu_MaxWaitSeconds : Z; qu_Enabled : bool;
  qu_CreatedAt : Time; qu_UpdatedAt : Time }.

(** [candidate]: an eligible agent with its current load. *)
Record candidate := mkCandidate { ca_UserID : string; ca_Load : Z }.

Record TransferCommand := mkTransfer { tc_SectorID : string; tc_AgentID : string }.
Record EnqueueCommand := mkEnqueue { ec_QueueID : string }.
Record RunCommand := mkRun { rc_ConversationID : string }.
Record AssignmentResult := mkAssignment { ar_ConversationID : string; ar_AgentID : string }.
Record SkippedResult := mkSkipped { sk_ConversationID : string; sk_Reason : string }.
Record RunResult := mkRunResult { rr_Assigned : list AssignmentResult; rr_Skipped : list SkippedResult }.

(** ** Ports *)

Inductive RoutingPort : Type -> Type :=
| RInfra {R} (e : Infra R) : RoutingPort R
| RConvs {R} (e : ConvRepo R) : RoutingPort R
| REvents {R} (e : EventRepo R) : RoutingPort R
| RPresence {R} (e : PresenceStore R) : RoutingPort R
| RLoad {R} (e : LoadCounter R) : RoutingPort R
| RUsers {R} (e : UserRepo R) : RoutingPort R
| RSectorFindByID (id : string) : RoutingPort (result unit)
| RQueueFindByID (id : string) : RoutingPort (result Queue)
| REnrichContact (contactID : string) : RoutingPort (option WebhookContact)
| REnrichAgent (userID : string) : RoutingPort (option WebhookAgent).

#[export] Instance embed_r_infra : Embed Infra RoutingPort := @RInfra.
#[export] Instance embed_r_convs : Embed ConvRepo RoutingPort := @RConvs.
#[export] Instance embed_r_events : Embed EventRepo RoutingPort := @REvents.
#[export] Instance embed_r_presence : Embed PresenceStore RoutingPort := @RPresence.
#[export] Instance embed_r_load : Embed LoadCounter RoutingPort := @RLoad.
#[export] Instance embed_r_users : Embed UserRepo RoutingPort := @RUsers.
#[export] Instance embed_r_self : Embed RoutingPort RoutingPort := fun R e => e.

Abbreviation RM := (prog Ctx RoutingPort).

Definition fail {A} (e : error) : RM (result A) := Ret (Err e).
Definition ok {A} (a : A) : RM (result A) := Ret (Ok a).

(** ** Pure helpers *)

(** [contains]: a non-empty member. *)
Definition contains (ss : list string) (v : string) : bool :=
  if v =! "" then false else existsb (fun s => s =! v) ss.

Definition candidate_less (a b : candidate) : bool :=
  if negb (ca_Load a =? ca_Load b) then ca_Load a <? ca_Load b
  else string_less (ca_UserID a) (ca_UserID b).

(** [sortCandidates]: ascending load, then ascending user id. *)
Definition sortCandidates (cands : list candidate) : list candidate :=
  stable_sort candidate_less cands.

Definition assertAccess (c : Ctx) (conv : Conversation) : result unit :=
  match FromContext c with
  | None => Err (Unauthorized "authentication required")
  | Some ac =>
      if ac_SectorScope ac =! ScopeAll then Ok tt
      else if (cv_AssignedTo conv <>! "") && (cv_AssignedTo conv =! ac_UserID ac) then Ok tt
      else if contains (ac_SectorIDs ac) (cv_SectorID conv) && (cv_SectorID conv <>! "") then Ok tt
      else Err (NotFound "conversation not found")
  end.

Definition visibility (c : Ctx) : result Visibility :=
  match FromContext c with
  | None => Err (Unauthorized "authentication required")
  | Some ac =>
      Ok (mkVisibility (ac_SectorScope ac =! ScopeAll) (ac_SectorIDs ac) (ac_UserID ac))
  end.

Section Service.
(** Whether the webhook enricher is wired. *)
Context (has_enricher : bool).

(** ** Announcements *)

Definition recordEvent (c : Ctx) (conv : Conversation) (eventType : string)
    (data : list (string * value)) : RM unit :=
  let '(actorType, actorID) :=
    match FromContext c with
    | Some ac => if ac_UserID ac <>! "" then (ActorAgent, ac_UserID ac) else (ActorSystem, "")
    | None => (ActorSystem, "")
    end in
  let! id := ask c NewID in
  let! now := ask c Now in
  do! ask c (EventCreate
        (mkEvent id (cv_TenantID conv) (cv_ID conv) eventType actorType actorID data now)) in
  Ret tt.

Definition publish (c : Ctx) (topic event : string) (payload : Payload) : RM unit :=
  do! ask c (Publish topic event payload) in Ret tt.

Definition payloadOf (c : Ctx) (conv : Conversation) : RM Payload :=
  let! now := ask c SystemNow in Ret (PConversation (NewConversationPayload conv now)).

Definition publishAssigned (c : Ctx) (conv : Conversation) (agentID : string) : RM unit :=
  let! payload := payloadOf c conv in
  do! publish c (TopicConversation (cv_TenantID conv) (cv_ID conv)) RealtimeConversationAssigned payload in
  do! (when! cv_SectorID conv <>! "" do
         publish c (TopicInbox (cv_TenantID conv) (cv_SectorID conv)) RealtimeConversationAssigned payload) in
  when! agentID <>! "" do
    publish c (TopicUser (cv_TenantID conv) agentID) RealtimeConversationAssigned payload.

Definition publishTransferred (c : Ctx) (conv : Conversation) (fromSector : string) : RM unit :=
  let! payload := payloadOf c conv in
  let event := RealtimeConversationTransferred in
  do! publish c (TopicConversation (cv_TenantID conv) (cv_ID conv)) event payload in
  do! (when! fromSector <>! "" do
         publish c (TopicInbox (cv_TenantID conv) fromSector) event payload) in
  do! (when! (cv_SectorID conv <>! "") && (cv_SectorID conv <>! fromSector) do
         publish c (TopicInbox (cv_TenantID conv) (cv_SectorID conv)) event payload) in
  when! cv_AssignedTo conv <>! "" do
    publish c (TopicUser (cv_TenantID conv) (cv_AssignedTo conv)) event payload.

Definition publishUpdated (c : Ctx) (conv : Conversation) : RM unit :=
  let! payload := payloadOf c conv in
  do! publish c (TopicConversation (cv_TenantID conv) (cv_ID conv)) RealtimeConversationUpdated payload in
  when! cv_SectorID conv <>! "" do
    publish c (TopicInbox (cv_TenantID conv) (cv_SectorID conv)) RealtimeConversationUpdated payload.

(** [emitConversationWebhook]: the payload is built only when a subscription
    matches. *)
Definition emitConversationWebhook (c : Ctx) (conv : Conversation) (event : string) : RM unit :=
  let! matches := ask c (WebhookMatches (cv_TenantID conv) event (cv_SectorID conv)) in
  if matches : bool then
    let! contact := (if has_enricher && (cv_ContactID conv <>! "")
                     then ask c (REnrichContact (cv_ContactID conv)) else Ret None) in
    let! agent := (if has_enricher && (cv_AssignedTo conv <>! "")
                   then ask c (REnrichAgent (cv_AssignedTo conv)) else Ret None) in
    let! now := ask c SystemNow in
    ask c (WebhookDeliver (cv_TenantID conv) event (cv_SectorID conv)
             (PIntegrationConversation (NewIntegrationConversationPayload conv contact agent now)))
  else Ret tt.

(** ** Eligibility *)

(** The loop body of [eligibleAgents]. *)
Definition eligible_step (c : Ctx) (loads : gmap string Z) (cands : list candidate) (u : User)
  : RM (list candidate) :=
  if negb (IsActive u) then Ret cands
  else
    let! p := ask c (PGet (us_ID u)) in
    match p with
    | Err _ => Ret cands
    | Ok p =>
        if negb (PStatus.CanReceive (ap_Status p)) then Ret cands
        else
          let load := default 0 (loads !! us_ID u) in
          if (0 <? us_MaxConcurrentChats u) && (us_MaxConcurrentChats u <=? load) then Ret cands
          else Ret (cands ++ [mkCandidate (us_ID u) load])
    end.

Definition eligibleAgents (c : Ctx) (sectorID : string) : RM (result (list candidate)) :=
  try! users := ask c (UserListBySector sectorID) in
  try! loads := ask c OpenAssignedLoads in
  let! cands := fold_prog users [] (eligible_step c loads) in
  ok (sortCandidates cands).

Definition evaluateAgent (c : Ctx) (agentID sectorID : string) (allowOffline : bool)
  : RM (result unit) :=
  let! r := ask c (UserFindByID agentID) in
  match r with
  | Err e =>
      if is_not_found e then
        fail (WithDetails (detail "agent_id" "not found") (Validation "agent not found"))
      else fail e
  | Ok u =>
      if negb (IsActive u) then fail (Validation "agent is disabled")
      else if negb (contains (us_SectorIDs u) sectorID) then
        fail (Validation "agent does not belong to the sector")
      else
        try! _ :=
          (if negb allowOffline then
             let! p := ask c (PGet agentID) in
             match p with
             | Err _ => fail (Conflict "agent is offline")
             | Ok p =>
                 if ap_Status p <>! PStatus.StatusAvailable
                 then fail (Conflict "agent is not available") else ok tt
             end
           else ok tt) in
        try! load := ask c (CountOpenAssigned agentID) in
        if (0 <? us_MaxConcurrentChats u) && (us_MaxConcurrentChats u <=? load) then
          fail (Conflict "agent is at maximum concurrent chats")
        else ok tt
  end.

(** ** Internals *)

Definition lockKey (tenantID conversationID : string) : string :=
  "routing:lock:" +:+ tenantID +:+ ":" +:+ conversationID.

(** [withLock]: [defer release()] runs after [fn], whatever it returns. *)
Definition withLock {A} (c : Ctx) (conversationID : string)
    (fn : Conversation -> RM (result A)) : RM (result A) :=
  try! tenantID := Ret (RequireTenant c) in
  try! conv := ask c (ConvFindByID conversationID) in
  try! _ := Ret (assertAccess c conv) in
  let! got := ask c (Acquire (lockKey tenantID conversationID) lockTTL) in
  match got with
  | Err e => fail (Wrap e (Internal "could not acquire routing lock"))
  | Ok (lease, acquired) =>
      if negb acquired then
        fail (Conflict "conversation is being routed by another operation")
      else
        let! r := (try! conv := ask c (ConvFindByID conversationID) in fn conv) in
        do! ask c (Release lease) in
        Ret r
  end.

Definition assigned (now : Time) (agentID : string) (conv : Conversation) : Conversation :=
  set_UpdatedAt now (set_QueueID "" (set_Status StatusAssigned (set_AssignedTo agentID conv))).

Definition applyAssignment (c : Ctx) (conv : Conversation) (agentID : string)
  : RM (result Conversation) :=
  let fromQueue := cv_QueueID conv in
  let! now := ask c Now in
  let conv := assigned now agentID conv in
  try! _ := ask c (ConvUpdate conv) in
  do! recordEvent c conv EventConversationAssigned [("agent_id", VStr agentID)] in
  do! publishAssigned c conv agentID in
  do! ask c (QueueChanged (cv_SectorID conv) fromQueue) in
  do! emitConversationWebhook c conv EventConversationAssigned in
  do! ask c (Notify (mkNotify (cv_TenantID conv) agentID "conversation.assigned_to_you"
               "A conversation was assigned to you" "" ("/conversations/" +:+ cv_ID conv))) in
  ok conv.

(** ** Operations *)

Definition Assign (c : Ctx) (conversationID agentID : string) : RM (result Conversation) :=
  withLock c conversationID (fun conv =>
    if IsClosed (cv_Status conv) then fail (Conflict "closed conversation cannot be assigned")
    else if cv_SectorID conv =! "" then
      fail (Validation "conversation has no sector to assign within")
    else
      try! _ := evaluateAgent c agentID (cv_SectorID conv) true in
      applyAssignment c conv agentID).

Definition AutoAssign (c : Ctx) (conversationID : string) : RM (result Conversation) :=
  withLock c conversationID (fun conv =>
    if IsClosed (cv_Status conv) then fail (Conflict "closed conversation cannot be assigned")
    else if cv_AssignedTo conv <>! "" then fail (Conflict "conversation is already assigned")
    else if cv_SectorID conv =! "" then fail (Validation "conversation has no sector")
    else
      try! cands := eligibleAgents c (cv_SectorID conv) in
      match cands with
      | [] => fail (Conflict "no eligible agents available")
      | cand :: _ => applyAssignment c conv (ca_UserID cand)
      end).

(** The target sector of a transfer, when it is another one and exists. *)
Definition retarget (c : Ctx) (cmd : TransferCommand) (conv : Conversation)
  : RM (result Conversation) :=
  if (tc_SectorID cmd <>! "") && (tc_SectorID cmd <>! cv_SectorID conv) then
    let! r := ask c (RSectorFindByID (tc_SectorID cmd)) in
    match r with
    | Err e =>
        if is_not_found e then
          fail (WithDetails (detail "sector_id" "not found")
                  (Validation "target sector does not exist"))
        else fail e
    | Ok _ => ok (set_SectorID (tc_SectorID cmd) conv)
    end
  else ok conv.

(** The conversation a transfer stores. *)
Definition transferred (now : Time) (agentID : string) (conv : Conversation) : Conversation :=
  set_UpdatedAt now
    (if agentID <>! "" then set_QueueID "" (set_Status StatusAssigned (set_AssignedTo agentID conv))
     else set_Status StatusTransferred (set_AssignedTo "" conv)).

Definition Transfer (c : Ctx) (conversationID : string) (cmd : TransferCommand)
  : RM (result Conversation) :=
  withLock c conversationID (fun conv =>
    if IsClosed (cv_Status conv) then fail (Conflict "closed conversation cannot be transferred")
    else
      let fromSector := cv_SectorID conv in
      let fromAgent := cv_AssignedTo conv in
      let fromQueue := cv_QueueID conv in
      try! conv := retarget c cmd conv in
      let! now := ask c Now in
      try! _ :=
        (if tc_AgentID cmd <>! "" then
           if cv_SectorID conv =! "" then
             fail (Validation "transfer to an agent requires a sector")
           else evaluateAgent c (tc_AgentID cmd) (cv_SectorID conv) true
         else ok tt) in
      let conv := transferred now (tc_AgentID cmd) conv in
      try! _ := ask c (ConvUpdate conv) in
      let data := [("from_sector", VStr fromSector); ("to_sector", VStr (cv_SectorID conv));
                   ("from_agent", VStr fromAgent); ("to_agent", VStr (cv_AssignedTo conv))] in
      do! recordEvent c conv EventConversationTransferred data in
      do! publishTransferred c conv fromSector in
      do! (if fromQueue <>! "" then ask c (QueueChanged fromSector fromQueue) else Ret tt) in
      do! emitConversationWebhook c conv EventConversationTransferred in
      do! ask c (AuditRecord (mkAudit "conversation.transferred" "conversation" (cv_ID conv) data)) in
      do! (if cv_AssignedTo conv <>! "" then
             ask c (Notify (mkNotify (cv_TenantID conv) (cv_AssignedTo conv)
                      "conversation.transferred_to_you" "A conversation was transferred to you" ""
                      ("/conversations/" +:+ cv_ID conv)))
           else Ret tt) in
      ok conv).

Definition enqueued (now : Time) (queue : Queue) (conv : Conversation) : Conversation :=
  set_UpdatedAt now (set_Status StatusQueued (set_AssignedTo ""
    (set_SectorID (qu_SectorID queue) (set_QueueID (qu_ID queue) conv)))).

Definition Enqueue (c : Ctx) (conversationID : string) (cmd : EnqueueCommand)
  : RM (result Conversation) :=
  withLock c conversationID (fun conv =>
    if IsClosed (cv_Status conv) then fail (Conflict "closed conversation cannot be enqueued")
    else
      let! r := ask c (RQueueFindByID (ec_QueueID cmd)) in
      match r with
      | Err e =>
          if is_not_found e then
            fail (WithDetails (detail "queue_id" "not found") (Validation "queue does not exist"))
          else fail e
      | Ok queue =>
          let fromQueue := cv_QueueID conv in
          let fromSector := cv_SectorID conv in
          let! now := ask c Now in
          let conv := enqueued now queue conv in
          try! _ := ask c (ConvUpdate conv) in
          do! recordEvent c conv EventConversationEnqueued
                [("queue_id", VStr (qu_ID queue)); ("sector_id", VStr (qu_SectorID queue))] in
          do! publishUpdated c conv in
          do! ask c (QueueChanged (qu_SectorID queue) (qu_ID queue)) in
          do! (if (fromQueue <>! "") && (fromQueue <>! qu_ID queue)
               then ask c (QueueChanged fromSector fromQueue) else Ret tt) in
          ok conv
      end).

(** The loop body of [runBatch]. *)
Definition batch_step (c : Ctx) (acc : RunResult) (conv : Conversation) : RM RunResult :=
  let skip reason := mkRunResult (rr_Assigned acc) (rr_Skipped acc ++ [mkSkipped (cv_ID conv) reason]) in
  if (cv_SectorID conv =! "") || (cv_AssignedTo conv <>! "") then
    Ret (skip "no sector or already assigned")
  else
    let! r := AutoAssign c (cv_ID conv) in
    match r with
    | Err e => Ret (skip (MessageOf e))
    | Ok conv =>
        Ret (mkRunResult (rr_Assigned acc ++ [mkAssignment (cv_ID conv) (cv_AssignedTo conv)])
               (rr_Skipped acc))
    end.

Fixpoint runBatch_loop (c : Ctx) (vis : Visibility) (statuses : list Status) (acc : RunResult)
  : RM (result RunResult) :=
  match statuses with
  | [] => ok acc
  | st :: rest =>
      try! convs := ask c (ConvList (mkListFilter st "" "" "" "" "" "") vis (mkPage "" 100)) in
      let! acc := fold_prog convs acc (batch_step c) in
      runBatch_loop c vis rest acc
  end.

Definition runBatch (c : Ctx) : RM (result RunResult) :=
  try! vis := Ret (visibility c) in
  runBatch_loop c vis [StatusQueued; StatusNew] (mkRunResult [] []).

Definition Run (c : Ctx) (cmd : RunCommand) : RM (result RunResult) :=
  try! _ := Ret (RequireTenant c) in
  if rc_ConversationID cmd <>! "" then
    try! conv := AutoAssign c (rc_ConversationID cmd) in
    ok (mkRunResult [mkAssignment (cv_ID conv) (cv_AssignedTo conv)] [])
  else runBatch c.
End Service.
