(* ===== verification/RoutingProps.v ===== *)
(** * Routing: the properties

    The lock discipline of every operation, who may be assigned, and the choice of
    the least-loaded eligible agent. *)
From S2P Require Import Prelude GoStrings AppError Authz Shared ConvEntity Messages ConvContracts.
From S2P Require Import Prog Ports Presence Routing.

Inductive RoutingOp :=
| OpAssignTo (conversationID agentID : string)
| OpAutoAssign (conversationID : string)
| OpTransfer (conversationID : string) (cmd : TransferCommand)
| OpEnqueue (conversationID : string) (cmd : EnqueueCommand)
| OpRun (cmd : RunCommand).

Definition route (enr : bool) (c : Ctx) (op : RoutingOp) : RM (result unit) :=
  let forget {A} (m : RM (result A)) : RM (result unit) := try! _ := m in ok tt in
  match op with
  | OpAssignTo id agent => forget (Assign enr c id agent)
  | OpAutoAssign id => forget (AutoAssign enr c id)
  | OpTransfer id cmd => forget (Transfer enr c id cmd)
  | OpEnqueue id cmd => forget (Enqueue c id cmd)
  | OpRun cmd => forget (Run enr c cmd)
  end.

(** ** The transitions *)

Definition retargeted (cmd : TransferCommand) (old conv : Conversation) : Prop :=
  if (tc_SectorID cmd <>! "") && (tc_SectorID cmd <>! cv_SectorID old)
  then conv = set_SectorID (tc_SectorID cmd) old else conv = old.

(** The document in the hands of an agent: out of its queue. *)
Definition taken (now : Time) (agent : string) (c : Conversation) : Conversation :=
  set_AssignedTo agent (set_QueueID "" (set_Status StatusAssigned (set_UpdatedAt now c))).

(** The document handed to an agent, or to the sector it is in when there is none. *)
Definition moved (now : Time) (agent : string) (c : Conversation) : Conversation :=
  if decide (agent = "") then set_AssignedTo "" (set_Status StatusTransferred (set_UpdatedAt now c))
  else taken now agent c.

(** The document waiting in a queue, in the sector of that queue. *)
Definition waiting (now : Time) (queue : Queue) (c : Conversation) : Conversation :=
  set_QueueID (qu_ID queue) (set_SectorID (qu_SectorID queue)
    (set_AssignedTo "" (set_Status StatusQueued (set_UpdatedAt now c)))).

Lemma transferred_moved now agent c : transferred now agent c = moved now agent c.
Proof. unfold transferred, moved. case_decide; case_match; prop_bools; try done; congruence. Qed.

(** What an operation may store over the document [old]. *)
Inductive routing_step : RoutingOp -> Conversation -> Conversation -> Prop :=
| StepAssign id agent now old :
    cv_SectorID old <> "" -> routing_step (OpAssignTo id agent) old (taken now agent old)
| StepAuto id agent now old :
    cv_AssignedTo old = "" -> cv_SectorID old <> "" ->
    routing_step (OpAutoAssign id) old (taken now agent old)
| StepRun cmd agent now old :
    cv_AssignedTo old = "" -> cv_SectorID old <> "" ->
    routing_step (OpRun cmd) old (taken now agent old)
| StepTransfer id cmd now old conv :
    retargeted cmd old conv -> (tc_AgentID cmd <> "" -> cv_SectorID conv <> "") ->
    routing_step (OpTransfer id cmd) old (moved now (tc_AgentID cmd) conv)
| StepEnqueue id cmd now queue old :
    routing_step (OpEnqueue id cmd) old (waiting now queue old).

(** ** Eligibility *)

(** What routing reads of the agents: users by id, the users of a sector, the
    cached presence, and the loads. *)
Record Reads := mkReads {
  rd_users : gmap string User;
  rd_sector : gmap string (list User);
  rd_presence : gmap string AgentPresence;
  rd_loads : gmap string Z
}.

Definition load_of (rd : Reads) (u : User) : Z := default 0 (rd_loads rd !! us_ID u).

Definition below_capacity (u : User) (load : Z) : Prop :=
  0 < us_MaxConcurrentChats u -> load < us_MaxConcurrentChats u.

(** An agent that may take a conversation of the sector by hand. *)
Definition assignable (sector : string) (u : User) (load : Z) : Prop :=
  IsActive u = true /\ sector <> "" /\ sector ∈ us_SectorIDs u /\ below_capacity u load.

(** An agent automatic routing may choose: active, effectively online, with
    capacity left. *)
Definition eligible (rd : Reads) (u : User) : bool :=
  IsActive u &&
  (match rd_presence rd !! us_ID u with
   | Some p => PStatus.CanReceive (ap_Status p) | None => false end) &&
  negb ((0 <? us_MaxConcurrentChats u) && (us_MaxConcurrentChats u <=? load_of rd u)).

Definition as_candidate (rd : Reads) (u : User) : candidate := mkCandidate (us_ID u) (load_of rd u).

Lemma contains_spec ss v : contains ss v = true <-> v <> "" /\ v ∈ ss.
Proof.
  unfold contains. case_match eqn:E; prop_bools; [split; [done|by intros [? _]]|].
  rewrite existsb_exists. setoid_rewrite bool_decide_eq_true. split.
  - intros (x & Hx & ->). split; [done|]. by apply list_elem_of_In.
  - intros [_ Hv]. exists v. split; [by apply list_elem_of_In|done].
Qed.

Lemma capacity_spec u load :
  (0 <? us_MaxConcurrentChats u) && (us_MaxConcurrentChats u <=? load) = false <-> below_capacity u load.
Proof. unfold below_capacity. rewrite andb_false_iff, Z.ltb_ge, Z.leb_gt. lia. Qed.

(** ** The order of candidates *)

Lemma candidate_less_asym a b : candidate_less a b = true -> candidate_less b a = false.
Proof.
  unfold candidate_less. rewrite (Z.eqb_sym (ca_Load b)).
  destruct (ca_Load a =? ca_Load b) eqn:E; cbn; [apply string_less_asym|]. lia.
Qed.

Lemma candidate_less_negtrans a b d :
  candidate_less a b = false -> candidate_less b d = false -> candidate_less a d = false.
Proof.
  unfold candidate_less.
  destruct (ca_Load a =? ca_Load b) eqn:E1, (ca_Load b =? ca_Load d) eqn:E2,
    (ca_Load a =? ca_Load d) eqn:E3; cbn; try lia. apply string_less_negtrans.
Qed.

(** [best] is least loaded, ties broken by id. *)
Definition precedes (best cand : candidate) : Prop :=
  ca_Load best < ca_Load cand \/
  ca_Load best = ca_Load cand /\ string_less (ca_UserID cand) (ca_UserID best) = false.

Lemma not_less_precedes a b : candidate_less b a = false -> precedes a b.
Proof.
  unfold candidate_less, precedes. destruct (ca_Load b =? ca_Load a) eqn:E; cbn; [|lia].
  intros ?. right. split; [lia|done].
Qed.

(** ** The lock: a ghost state *)

Record LockView := mkLockView {
  lv_held : option (Lease * string);        (* the lease held, and its key *)
  lv_fresh : option Conversation            (* the document read under the lock *)
}.

Definition unlocked : LockView := mkLockView None None.

(** [W]: the changes of the document that may be stored. *)
Definition lock_pre (t : string) (W : Conversation -> Conversation -> Prop) (R : Type) (c : Ctx) (e : RoutingPort R) (g : LockView) : Prop :=
  RequireTenant c = Ok t /\
  match e with
  | RInfra (Acquire key ttl) => lv_held g = None /\ ttl = lockTTL /\ exists id, key = lockKey t id
  | RInfra (Release l) => exists key, lv_held g = Some (l, key)
  | RConvs (ConvCreate _) => False
  | RConvs (ConvUpdate conv) => exists l old,
      lv_held g = Some (l, lockKey t (cv_ID conv)) /\ lv_fresh g = Some old /\
      cv_ID conv = cv_ID old /\ IsClosed (cv_Status old) = false /\ W old conv
  | _ => True
  end.

Definition lock_post (t : string) (R : Type) (c : Ctx) (e : RoutingPort R) (g : LockView) (r : R)
    (g' : LockView) : Prop :=
  match e in RoutingPort R return R -> Prop with
  | RInfra e =>
      match e in Infra R return R -> Prop with
      | Acquire key _ => fun r =>
          g' = match r with Ok (l, true) => mkLockView (Some (l, key)) None | _ => g end
      | Release _ => fun _ => g' = unlocked
      | _ => fun _ => g' = g
      end
  | RConvs e =>
      match e in ConvRepo R return R -> Prop with
      | ConvFindByID id => fun r =>
          match r with
          | Ok conv => cv_ID conv = id /\ cv_TenantID conv = t /\
              g' = match lv_held g with Some _ => mkLockView (lv_held g) (Some conv) | None => g end
          | Err _ => g' = g
          end
      | _ => fun _ => g' = g
      end
  | _ => fun _ => g' = g
  end r.

Definition lock_contract (t : string) (W : Conversation -> Conversation -> Prop)
  : contract Ctx RoutingPort LockView := pre_post (lock_pre t W) (lock_post t).

(** Calls that neither touch the lock nor the documents. *)
Definition inert (t : string) (R : Type) (c : Ctx) (e : RoutingPort R) : Prop :=
  RequireTenant c = Ok t /\
  match e with
  | RInfra (Acquire _ _ | Release _) => False
  | RConvs (ConvCreate _ | ConvUpdate _ | ConvFindByID _) => False
  | _ => True
  end.

Lemma inert_lock t W : inert_in (lock_pre t W) (lock_post t) (inert t).
Proof.
  split; intros R c e g.
  - intros [Hc He]. split; [done|].
    destruct e as [? e|? e|? e|? e|? e|? e| | | |]; try done; by destruct e.
  - intros r g' [Hc He].
    destruct e as [? e|? e|? e|? e|? e|? e| | | |]; try done; by destruct e.
Qed.

Section Lock.
Context (enr : bool) (t : string) (c : Ctx) (W : Conversation -> Conversation -> Prop).
Hypothesis (Hc : RequireTenant c = Ok t).
Let T := lock_contract t W.

#[local] Instance T_mono : Monotone T.
Proof. apply pre_post_mono. Qed.

Ltac inert_call := split; [exact Hc|exact I].
Ltac inert_step := calls_step ltac:(inert_call).

Lemma recordEvent_inert conv ty data : calls (inert t) (recordEvent c conv ty data).
Proof. unfold recordEvent. repeat inert_step. Qed.
Lemma payloadOf_inert conv : calls (inert t) (payloadOf c conv).
Proof. unfold payloadOf. repeat inert_step. Qed.
Lemma publish_inert topic event p : calls (inert t) (publish c topic event p).
Proof. unfold publish. repeat inert_step. Qed.
#[local] Hint Resolve recordEvent_inert payloadOf_inert publish_inert : calls.
Lemma publishAssigned_inert conv a : calls (inert t) (publishAssigned c conv a).
Proof. unfold publishAssigned. repeat inert_step. Qed.
Lemma publishTransferred_inert conv a : calls (inert t) (publishTransferred c conv a).
Proof. unfold publishTransferred. repeat inert_step. Qed.
Lemma publishUpdated_inert conv : calls (inert t) (publishUpdated c conv).
Proof. unfold publishUpdated. repeat inert_step. Qed.
Lemma emitConversationWebhook_inert conv event : calls (inert t) (emitConversationWebhook enr c conv event).
Proof. unfold emitConversationWebhook. repeat inert_step. Qed.
Lemma eligibleAgents_inert sector : calls (inert t) (eligibleAgents c sector).
Proof. unfold eligibleAgents, eligible_step. repeat inert_step. Qed.
Lemma evaluateAgent_inert a sector b : calls (inert t) (evaluateAgent c a sector b).
Proof. unfold evaluateAgent. repeat inert_step. Qed.
#[local] Hint Resolve publishAssigned_inert publishTransferred_inert publishUpdated_inert
  emitConversationWebhook_inert eligibleAgents_inert evaluateAgent_inert : calls.

Let inert_T := inert_lock t W.

(** While the lock of [id] is held over the document [old]. *)
Definition locked (l : Lease) (id : string) (old : Conversation) : LockView :=
  mkLockView (Some (l, lockKey t id)) (Some old).

(** The lock is kept, whatever the result. *)
Definition same_lock {A} (l : Lease) (id : string) (old : Conversation) (_ : result A) (g : LockView)
  : Prop := exists old', g = locked l id old'.

Lemma same_lock_now {A} l id old (r : result A) : same_lock l id old r (locked l id old).
Proof. by exists old. Qed.
#[local] Hint Resolve same_lock_now : core.

(** A body that keeps the lock. *)
Definition keeps_lock {A} (id : string) (fn : Conversation -> RM (result A)) : Prop :=
  forall l old, cv_ID old = id -> cv_TenantID old = t ->
    wp T (fn old) (same_lock l id old) (locked l id old).

Lemma withLock_wp {A} id (fn : Conversation -> RM (result A)) (Q : result A -> LockView -> Prop) :
  keeps_lock id fn -> (forall r, Q r unlocked) -> wp T (withLock c id fn) Q unlocked.
Proof.
  intros Hfn HQ. unfold withLock. rewrite Hc. cbn [bind_ok bind].
  apply wp_bind_ok; [apply _|]. split; [done|]. intros [conv|e] g; cbn [lock_post]; [|intros ->; apply HQ].
  intros (_ & _ & ->). cbn [wp]. destruct (assertAccess c conv); cbn [bind_ok bind]; [|apply HQ].
  apply wp_bind; [apply _|]. split; [split; [done|]; split_and!; [done|done|by exists id]|].
  intros r g. cbn [lock_post]. intros ->. cbn [wp].
  destruct r as [[l [|]]|e]; cbn [negb]; [|apply HQ|apply HQ].
  apply wp_bind; [apply _|].
  eapply wp_mono; [apply _| |].
  2:{ apply wp_bind_ok; [apply _|]. split; [done|]. intros r g. cbn [lock_post].
      instantiate (1 := fun _ g => exists fresh, g = mkLockView (Some (l, lockKey t id)) fresh).
      destruct r as [conv'|e]; [|intros ->; by exists None]. intros (Hid & Ht & ->). cbn [wp].
      eapply wp_mono; [apply _| |by apply (Hfn l conv')]. intros r g [old' ->]. by eexists. }
  intros r g [fresh ->]. split; [split; [done|by eexists]|]. intros [] g. cbn [lock_post].
  intros ->. apply HQ.
Qed.

Lemma update_locked l id old conv (Q : result unit -> LockView -> Prop) :
  cv_ID conv = id -> cv_ID old = id -> IsClosed (cv_Status old) = false -> W old conv ->
  (forall r, Q r (locked l id old)) ->
  wp T (ask c (ConvUpdate conv)) Q (locked l id old).
Proof.
  intros Hid Hold Hcl HW HQ. split; [split; [done|]|intros r g ->; apply HQ].
  exists l, old. rewrite Hid. by split_and!.
Qed.

Ltac lock_step :=
  cbn zeta;
  lazymatch goal with
  | |- wp _ (fail _) _ _ => unfold fail; cbn [wp]; by auto
  | |- wp _ (ok _) _ _ => unfold ok; cbn [wp]; by auto
  | |- wp _ (Ret _) _ _ => cbn [wp]; by auto
  | |- wp _ (bind_ok (ask _ (ConvUpdate _)) _) _ _ =>
      apply wp_bind_ok; [apply _|]; apply update_locked;
      [first [done|congruence]|done|done|solve [eauto]|intros [?|?]; [|by auto]]
  | |- wp _ (bind_ok _ _) _ _ =>
      eapply (wp_inert_bind_ok _ _ (inert t)); [apply inert_lock|solve [repeat inert_step]|by auto|intros ?]
  | |- wp _ (bind _ _) _ _ =>
      eapply (wp_inert_bind _ _ (inert t)); [apply inert_lock|solve [repeat inert_step]|intros ?]
  | |- wp _ (if _ then _ else _) _ _ => case_match
  | |- wp _ (match _ with _ => _ end) _ _ => case_match
  end.

Lemma applyAssignment_lock l id old a :
  cv_ID old = id -> IsClosed (cv_Status old) = false -> (forall now, W old (assigned now a old)) ->
  wp T (applyAssignment enr c old a) (same_lock l id old) (locked l id old).
Proof. intros Hid Hcl HW. unfold applyAssignment. repeat lock_step. Qed.

Lemma Assign_lock id a :
  (forall old now, cv_SectorID old <> "" -> W old (assigned now a old)) ->
  wp T (Assign enr c id a) (fun _ g => g = unlocked) unlocked.
Proof.
  intros HW. apply withLock_wp; [|done]. intros l old Hid _. repeat lock_step. prop_bools.
  apply applyAssignment_lock; auto.
Qed.

Definition allows_auto : Prop :=
  forall old a now, cv_AssignedTo old = "" -> cv_SectorID old <> "" -> W old (assigned now a old).

Lemma AutoAssign_lock id :
  allows_auto -> wp T (AutoAssign enr c id) (fun _ g => g = unlocked) unlocked.
Proof.
  intros HW. apply withLock_wp; [|done]. intros l old Hid _. repeat lock_step. prop_bools.
  apply applyAssignment_lock; auto.
Qed.

Lemma Enqueue_lock id cmd :
  (forall old now queue, W old (enqueued now queue old)) ->
  wp T (Enqueue c id cmd) (fun _ g => g = unlocked) unlocked.
Proof. intros HW. apply withLock_wp; [|done]. intros l old Hid _. repeat lock_step. Qed.

Lemma retarget_returns cmd old :
  returns (fun r => match r with Ok conv => retargeted cmd old conv | Err _ => True end)
    (retarget c cmd old).
Proof.
  unfold retarget, retargeted. case_match; [|done]. cbn. intros [[]|e]; [done|].
  by destruct (is_not_found e).
Qed.

Lemma retargeted_id cmd old conv : retargeted cmd old conv -> cv_ID conv = cv_ID old.
Proof. unfold retargeted. case_match; by intros ->. Qed.

Lemma transferred_id now a conv : cv_ID (transferred now a conv) = cv_ID conv.
Proof. unfold transferred. by case_match. Qed.

Lemma Transfer_lock id cmd :
  (forall old conv now, retargeted cmd old conv -> (tc_AgentID cmd <> "" -> cv_SectorID conv <> "") ->
     W old (transferred now (tc_AgentID cmd) conv)) ->
  wp T (Transfer enr c id cmd) (fun _ g => g = unlocked) unlocked.
Proof.
  intros HW. apply withLock_wp; [|done]. intros l old Hid _. repeat lock_step.
  apply wp_bind_ok; [apply _|].
  eapply (wp_inert_returns _ _ (inert t));
    [apply inert_lock|unfold retarget; repeat inert_step|apply retarget_returns|].
  intros [conv|e] Hr; [|done].
  pose proof (retargeted_id _ _ _ Hr) as Hid'.
  lock_step. apply wp_bind_ok; [apply _|].
  eapply (wp_inert_returns _ _ (inert t)) with (V := fun r => is_ok r = true ->
    tc_AgentID cmd <> "" -> cv_SectorID conv <> "");
    [apply inert_lock|repeat inert_step| |].
  { case_match; prop_bools; [|by intros _ []]. case_match; prop_bools; [done|].
    by apply returns_all. }
  intros [[]|e] Hs; [|done]. specialize (Hs eq_refl). cbn zeta. apply wp_bind_ok; [apply _|].
  apply update_locked; [rewrite transferred_id; congruence|done|done|by auto|].
  intros [[]|e]; [|done].
  repeat lock_step.
Qed.

Lemma batch_lock vis statuses acc :
  allows_auto -> wp T (runBatch_loop enr c vis statuses acc) (fun _ g => g = unlocked) unlocked.
Proof.
  intros HW. revert acc. induction statuses as [|st rest IH]; intros acc; cbn [runBatch_loop]; [done|].
  eapply (wp_inert_bind_ok _ _ (inert t)); [apply inert_lock|repeat inert_step|done|intros convs].
  apply wp_bind; [apply _|].
  apply wp_fold with (I := fun _ g => g = unlocked); [apply _| |by intros acc' g ->|done].
  intros acc' conv g _ ->. unfold batch_step. case_match; [done|].
  apply wp_bind; [apply _|]. eapply wp_mono; [apply _| |by apply AutoAssign_lock].
  by intros [conv'|e] g ->.
Qed.

Lemma Run_lock cmd : allows_auto -> wp T (Run enr c cmd) (fun _ g => g = unlocked) unlocked.
Proof.
  intros HW. unfold Run. rewrite Hc. cbn [bind_ok bind]. case_match.
  - apply wp_bind_ok; [apply _|]. eapply wp_mono; [apply _| |by apply AutoAssign_lock].
    by intros [conv'|e] g ->.
  - unfold runBatch. destruct (visibility c); cbn [bind_ok bind]; [by apply batch_lock|done].
Qed.

Lemma forget_lock {A} (m : RM (result A)) :
  wp T m (fun _ g => g = unlocked) unlocked ->
  wp T (try! _ := m in ok tt) (fun _ g => g = unlocked) unlocked.
Proof.
  intros Hm. apply wp_bind_ok; [apply _|]. eapply wp_mono; [apply _| |exact Hm].
  by intros [r|e] g ->.
Qed.
End Lock.

(** ** The choice of the agent *)

(** The answers are those of [rd]. *)
Definition reads_post (rd : Reads) (R : Type) (c : Ctx) (e : RoutingPort R) (g : unit) (r : R)
    (g' : unit) : Prop :=
  match e in RoutingPort R return R -> Prop with
  | RUsers e =>
      match e in UserRepo R return R -> Prop with
      | UserFindByID id => fun r => match r with
          | Ok u => rd_users rd !! id = Some u /\ us_ID u = id | Err _ => True end
      | UserListBySector sector => fun r => match r with
          | Ok l => rd_sector rd !! sector = Some l | Err _ => True end
      | _ => fun _ => True
      end
  | RPresence e =>
      match e in PresenceStore R return R -> Prop with
      | PGet id => fun r => match r with
          | Ok p => rd_presence rd !! id = Some p | Err _ => rd_presence rd !! id = None end
      | _ => fun _ => True
      end
  | RLoad e =>
      match e in LoadCounter R return R -> Prop with
      | CountOpenAssigned id => fun r => match r with
          | Ok n => n = default 0 (rd_loads rd !! id) | Err _ => True end
      | OpenAssignedLoads => fun r => match r with
          | Ok loads => loads = rd_loads rd | Err _ => True end
      end
  | _ => fun _ => True
  end r.

Definition reads_contract (rd : Reads) : contract Ctx RoutingPort unit :=
  pre_post (fun _ _ _ _ => True) (reads_post rd).

Section Choice.
Context (enr : bool) (rd : Reads) (c : Ctx).
Let T := reads_contract rd.

#[local] Instance T_reads_mono : Monotone T.
Proof. apply pre_post_mono. Qed.

(** Any program, when its answers do not matter. *)
Lemma any_wp {A} (m : RM A) (Q : A -> unit -> Prop) : (forall a, Q a tt) -> wp T m Q tt.
Proof.
  intros HQ. induction m as [a|R c' e k IH]; cbn; [done|]. split; [done|]. intros r [] _. apply IH.
Qed.

Lemma any_returns {A} (m : RM A) (V : A -> Prop) (Q : A -> unit -> Prop) :
  returns V m -> (forall a, V a -> Q a tt) -> wp T m Q tt.
Proof.
  intros HV HQ. induction m as [a|R c' e k IH]; cbn; [by apply HQ|]. split; [done|].
  intros r [] _. by apply IH.
Qed.

Lemma eligible_step_wp cands u (Q : list candidate -> unit -> Prop) :
  Q (cands ++ (if eligible rd u then [as_candidate rd u] else [])) tt ->
  wp T (eligible_step c (rd_loads rd) cands u) Q tt.
Proof.
  unfold eligible_step, eligible, as_candidate. intros HQ.
  destruct (IsActive u); cbn [negb andb] in *; [|by rewrite app_nil_r in HQ].
  apply wp_bind; [apply _|]. split; [done|]. intros [p|e] []; cbn [reads_post wp];
    intros Hp; rewrite Hp in HQ; cbn [negb andb] in HQ; [|by rewrite app_nil_r in HQ].
  destruct (PStatus.CanReceive (ap_Status p)); cbn [negb andb] in *; [|by rewrite app_nil_r in HQ].
  fold (load_of rd u).
  destruct ((0 <? us_MaxConcurrentChats u) && (us_MaxConcurrentChats u <=? load_of rd u));
    cbn [negb] in HQ; [by rewrite app_nil_r in HQ|done].
Qed.

Lemma eligible_fold_wp users cands :
  wp T (fold_prog users cands (eligible_step c (rd_loads rd)))
    (fun r _ => r = cands ++ map (as_candidate rd) (filter (fun u => eligible rd u = true) users)) tt.
Proof.
  revert cands. induction users as [|u users IH]; intros cands; cbn [fold_prog].
  { cbn. by rewrite app_nil_r. }
  apply wp_bind; [apply _|]. apply eligible_step_wp.
  eapply wp_mono; [apply _| |apply IH]. intros r [] ->.
  rewrite filter_cons. case_decide as Hu; rewrite <- app_assoc.
  - by rewrite Hu.
  - by destruct (eligible rd u).
Qed.

(** The candidates of the sector, sorted. *)
Definition candidates (sector : string) : list candidate :=
  sortCandidates (map (as_candidate rd)
    (filter (fun u => eligible rd u = true) (default [] (rd_sector rd !! sector)))).

Lemma eligibleAgents_wp sector (Q : result (list candidate) -> unit -> Prop) :
  (forall e, Q (Err e) tt) -> Q (Ok (candidates sector)) tt -> wp T (eligibleAgents c sector) Q tt.
Proof.
  intros Herr Hok. unfold eligibleAgents.
  apply wp_bind_ok; [apply _|]. split; [done|]. intros [users|e] []; cbn [reads_post wp]; [|done].
  intros Hu. apply wp_bind_ok; [apply _|]. split; [done|].
  intros [loads|e] []; cbn [reads_post wp]; [|done]. intros ->.
  apply wp_bind; [apply _|]. eapply wp_mono; [apply _| |apply eligible_fold_wp].
  intros r [] ->. cbn. unfold candidates in Hok. by rewrite Hu in Hok.
Qed.

(** The chosen agent of an automatic assignment. *)
Definition least_loaded (sector agentID : string) : Prop :=
  exists best, best ∈ default [] (rd_sector rd !! sector) /\ us_ID best = agentID /\
    eligible rd best = true /\
    forall u, u ∈ default [] (rd_sector rd !! sector) -> eligible rd u = true ->
      precedes (as_candidate rd best) (as_candidate rd u).

Lemma candidates_head sector best rest :
  candidates sector = best :: rest -> least_loaded sector (ca_UserID best).
Proof.
  intros Heq. apply stable_sort_head in Heq as [Hin Hall];
    [|apply candidate_less_asym|apply candidate_less_negtrans].
  apply list_elem_of_fmap in Hin as (u & -> & Hu). apply list_elem_of_filter in Hu as [He Hu].
  exists u. split_and!; [done|done|done|]. intros u' Hu' He'.
  rewrite Forall_forall in Hall. apply not_less_precedes, Hall, list_elem_of_fmap_2.
  by apply list_elem_of_filter.
Qed.

Lemma applyAssignment_returns conv a :
  returns (fun r => match r with Ok conv' => exists now, conv' = assigned now a conv | Err _ => True end)
    (applyAssignment enr c conv a).
Proof.
  unfold applyAssignment. apply returns_bind_any. intros now.
  apply returns_bind_ok; [done|intros _].
  do 5 (apply returns_bind_any; intros). cbn. by exists now.
Qed.

Lemma withLock_reads {A} id (fn : Conversation -> RM (result A)) (Q : result A -> unit -> Prop) :
  (forall e, Q (Err e) tt) -> (forall conv, wp T (fn conv) Q tt) -> wp T (withLock c id fn) Q tt.
Proof.
  intros Herr Hfn. unfold withLock. destruct (RequireTenant c); cbn [bind_ok bind]; [|apply Herr].
  apply wp_bind_ok; [apply _|]. apply any_wp. intros [conv|e]; [|apply Herr].
  destruct (assertAccess c conv); cbn [bind_ok bind]; [|apply Herr].
  apply wp_bind; [apply _|]. apply any_wp. intros [[l [|]]|e]; cbn [negb]; [|apply Herr|apply Herr].
  apply wp_bind; [apply _|]. apply wp_bind_ok; [apply _|]. apply any_wp.
  intros [conv'|e].
  - eapply wp_mono; [apply _| |apply Hfn]. intros r [] Hr. apply wp_bind; [apply _|].
    apply any_wp. intros []. exact Hr.
  - apply wp_bind; [apply _|]. apply any_wp. intros []. apply Herr.
Qed.

(** Evaluation accepts only assignable agents. *)
Lemma evaluateAgent_wp a sector b (Q : result unit -> unit -> Prop) :
  (forall e, Q (Err e) tt) ->
  (forall u, rd_users rd !! a = Some u -> assignable sector u (load_of rd u) -> Q (Ok tt) tt) ->
  wp T (evaluateAgent c a sector b) Q tt.
Proof.
  intros Herr Hok. unfold evaluateAgent. apply wp_bind; [apply _|]. split; [done|].
  intros [u|e] []; cbn [reads_post wp]; [|intros _; case_match; apply Herr]. intros [Hu Hid].
  destruct (IsActive u) eqn:Ha; cbn [negb]; [|apply Herr].
  destruct (contains (us_SectorIDs u) sector) eqn:Hs; cbn [negb]; [|apply Herr].
  apply contains_spec in Hs as [Hne Hin].
  apply wp_bind_ok; [apply _|]. apply any_wp. intros [[]|e]; [|apply Herr].
  apply wp_bind_ok; [apply _|]. split; [done|]. intros [n|e] []; cbn [reads_post wp]; [|done].
  intros ->. rewrite <- Hid. fold (load_of rd u). case_match eqn:Hcap; [apply Herr|].
  apply capacity_spec in Hcap. by apply (Hok u).
Qed.
End Choice.

(** ** Properties *)

(** C16. Every routing operation takes the lock of the conversation it writes, and writes
    only over a document read again under that lock and not closed, by a transition
    the operation allows; it releases the lock exactly once and leaves none behind on
    any path, errors included. *)
Theorem routing_holds_the_lock (enr : bool) (t : string) (c : Ctx) (op : RoutingOp) :
  RequireTenant c = Ok t ->
  wp (lock_contract t (routing_step op)) (route enr c op) (fun _ g => g = unlocked) unlocked.
Proof.
  intros Hc. destruct op; cbn [route]; apply forget_lock.
  - apply Assign_lock; [done|by constructor].
  - apply AutoAssign_lock; [done|intro; by constructor].
  - apply Transfer_lock; [done|]. intros. rewrite transferred_moved. by constructor.
  - apply Enqueue_lock; [done|by constructor].
  - apply Run_lock; [done|intro; by constructor].
Qed.

Lemma routing_holds_the_lock_witness :
  wp (lock_contract "acme" (routing_step (OpAutoAssign "c1")))
    (route true (WithTenant Background "acme") (OpAutoAssign "c1"))
    (fun _ g => g = unlocked) unlocked.
Proof. apply routing_holds_the_lock. reflexivity. Defined.

(** C29. Automatic assignment, whatever happens around it: when it succeeds, the agent is
    an active member of the conversation's sector, effectively online and below
    capacity, and no other eligible agent of the sector is less loaded (or as loaded
    with a smaller id). *)
Theorem AutoAssign_picks_least_loaded (enr : bool) (rd : Reads) (c : Ctx) (id : string) :
  wp (reads_contract rd) (AutoAssign enr c id)
    (fun r _ => match r with
                | Ok conv => least_loaded rd (cv_SectorID conv) (cv_AssignedTo conv) /\
                             cv_Status conv = StatusAssigned /\ cv_QueueID conv = ""
                | Err _ => True end) tt.
Proof.
  apply withLock_reads; [done|]. intros conv. do 3 (case_match; [done|]).
  apply wp_bind_ok; [apply pre_post_mono|]. apply eligibleAgents_wp; [done|]. cbn beta iota.
  case_match eqn:Hc; [done|]. apply candidates_head in Hc.
  eapply any_returns; [apply applyAssignment_returns|]. intros [conv'|e]; [|done]. by intros [now ->].
Qed.

(** Manual assignment and transfer to an agent succeed only for an active member of
    the conversation's sector below its capacity; presence does not matter. *)
Theorem manual_routing_enforces_membership (enr : bool) (rd : Reads) (c : Ctx) (id agent sector : string) :
  agent <> "" ->
  let allowed (r : result Conversation) (_ : unit) :=
    match r with
    | Ok conv => cv_AssignedTo conv = agent /\ cv_Status conv = StatusAssigned /\ cv_QueueID conv = "" /\
        exists u, rd_users rd !! agent = Some u /\ assignable (cv_SectorID conv) u (load_of rd u)
    | Err _ => True end in
  wp (reads_contract rd) (Assign enr c id agent) allowed tt /\
  wp (reads_contract rd) (Transfer enr c id (mkTransfer sector agent)) allowed tt.
Proof.
  intros Hne allowed. pose proof (pre_post_mono (fun R _ (_ : RoutingPort R) (_ : unit) => True) (reads_post rd)) as HT.
  split; apply withLock_reads; try done; intros conv.
  - do 2 (case_match; [done|]). apply wp_bind_ok; [apply _|]. apply evaluateAgent_wp; [done|].
    intros u Hu Ha. eapply any_returns; [apply applyAssignment_returns|].
    intros [conv'|e]; [|done]. intros [now ->]. split_and!; [done..|by exists u].
  - case_match; [done|]. cbn zeta. apply wp_bind_ok; [apply _|]. apply any_wp.
    intros [conv'|e]; [|done]. apply wp_bind; [apply _|]. apply any_wp. intros now.
    cbn [tc_AgentID]. rewrite (bool_decide_false (agent = "")) by done. cbn [negb].
    apply wp_bind_ok; [apply _|]. case_match; [done|]. apply evaluateAgent_wp; [done|].
    intros u Hu Ha.
    eapply any_returns with (V := fun r => match r with
      | Ok x => x = transferred now agent conv' | Err _ => True end).
    + apply returns_bind_ok; [done|intros _]. by do 6 (apply returns_bind_any; intros).
    + intros [x|e]; [|done]. intros ->. unfold transferred.
      rewrite (bool_decide_false (agent = "")) by done. cbn.
      split_and!; [done..|by exists u].
Qed.

Lemma manual_routing_enforces_membership_witness :
  wp (reads_contract (mkReads ∅ ∅ ∅ ∅)) (Assign true (WithTenant Background "acme") "c1" "ana")
    (fun r _ => match r with
    | Ok conv => cv_AssignedTo conv = "ana" /\ cv_Status conv = StatusAssigned /\ cv_QueueID conv = "" /\
        exists u, (∅ : gmap string User) !! "ana" = Some u /\
                  assignable (cv_SectorID conv) u (load_of (mkReads ∅ ∅ ∅ ∅) u)
    | Err _ => True end) tt.
Proof.
  apply (manual_routing_enforces_membership true (mkReads ∅ ∅ ∅ ∅) (WithTenant Background "acme") "c1" "ana" "s1").
  discriminate.
Defined.

(** A transfer to a sector alone unassigns the conversation and marks it transferred,
    but stores it in the queue it was read in: the code's comment says a transfer
    pulls it out of its queue, and announces that it left. *)
Theorem sector_transfer_keeps_queue (enr : bool) (t : string) (c : Ctx) (id sector : string) :
  RequireTenant c = Ok t ->
  wp (lock_contract t (fun old new => cv_AssignedTo new = "" /\ cv_Status new = StatusTransferred /\
                                      cv_QueueID new = cv_QueueID old))
    (Transfer enr c id (mkTransfer sector "")) (fun _ g => g = unlocked) unlocked.
Proof.
  intros Hc. apply Transfer_lock; [done|]. intros old conv now Hr _. cbn. split_and!; [done..|].
  unfold retargeted in Hr. case_match; by subst.
Qed.

Lemma sector_transfer_keeps_queue_witness :
  wp (lock_contract "acme" (fun old new => cv_AssignedTo new = "" /\ cv_Status new = StatusTransferred /\
                                      cv_QueueID new = cv_QueueID old))
    (Transfer true (WithTenant Background "acme") "c1" (mkTransfer "s2" ""))
    (fun _ g => g = unlocked) unlocked.
Proof. apply sector_transfer_keeps_queue. reflexivity. Defined.
