(* ===== verification/LockRace.v ===== *)
(** * Work under an exclusive lock

    Any number of interleaved programs that take one lock, read one shared value under it
    and write it at most once: the thread-modular invariant behind "at most one of them
    succeeds". Generic in the value; the components instantiate it with what they guard.
    The lock is taken not to expire while its holder runs. *)
From S2P Require Import Prelude Shared Prog Ports.

Section LockRace.
Context {D : Type}.

(** ** A thread: what it knows *)

Record Thread := mkThread {
  th_lease : option Lease;
  th_fresh : option D;                (* what was read under the lock, not yet written *)
  th_won : bool                       (* its write was applied *)
}.

Definition idle_thread : Thread := mkThread None None false.

(** ** The invariant of the pool

    [doc] is the guarded value, [owner] the holder of the lock, and [settled] says of a
    value that someone has won. *)
Context {S : Type} (doc : S -> D) (owner : S -> option Lease) (settled : D -> Prop).

Record Inv (gs : list Thread) (s : S) : Prop := {
  inv_owner : forall i g l, gs !! i = Some g -> th_lease g = Some l -> owner s = Some l;
  inv_alone : forall i j gi gj, gs !! i = Some gi -> gs !! j = Some gj ->
    is_Some (th_lease gi) -> is_Some (th_lease gj) -> i = j;
  inv_fresh : forall i g old, gs !! i = Some g -> is_Some (th_lease g) -> th_fresh g = Some old ->
    doc s = old;
  inv_one : forall i j gi gj, gs !! i = Some gi -> gs !! j = Some gj ->
    th_won gi = true -> th_won gj = true -> i = j;
  inv_won : forall i g, gs !! i = Some g -> th_won g = true -> settled (doc s);
}.

Lemma inv_idle {X} (l : list X) s : Inv (map (fun _ => idle_thread) l) s.
Proof.
  split; intros;
    repeat match goal with H : map _ _ !! _ = Some _ |- _ =>
      apply list_lookup_fmap_Some in H as (? & -> & ?) end; cbn in *; try done;
    match goal with H : is_Some None |- _ => destruct H; discriminate end.
Qed.

Lemma insert_cases {X} (gs : list X) i j (g' x : X) :
  <[i := g']> gs !! j = Some x -> (j = i /\ x = g') \/ (j <> i /\ gs !! j = Some x).
Proof. rewrite list_lookup_insert_Some. intuition congruence. Qed.

Ltac by_cases :=
  repeat match goal with
  | H : <[_ := _]> _ !! _ = Some _ |- _ => apply insert_cases in H as [[-> ->]|[? H]]
  end.

(** Nothing changes. *)
Lemma inv_frame gs s s' i g :
  gs !! i = Some g -> doc s' = doc s -> owner s' = owner s -> Inv gs s -> Inv (<[i := g]> gs) s'.
Proof.
  intros Hi Hd Ho [H1 H2 H3 H4 H5]. rewrite list_insert_id by done.
  split; try done; rewrite ?Hd, ?Ho; done.
Qed.

(** The lock is free: no thread holds it, and one may take it. *)
Lemma inv_acquire gs s s' i g l :
  gs !! i = Some g -> doc s' = doc s -> owner s = None -> owner s' = Some l -> Inv gs s ->
  Inv (<[i := mkThread (Some l) None (th_won g)]> gs) s'.
Proof.
  intros Hi Hd Ho Ho' [H1 H2 H3 H4 H5].
  assert (forall j gj, gs !! j = Some gj -> is_Some (th_lease gj) -> False) as Hfree.
  { intros j gj Hj [l' Hl]. specialize (H1 j gj l' Hj Hl). congruence. }
  split; intros; by_cases; cbn in *; rewrite ?Hd; try done; try congruence;
    try (exfalso; by eauto); eauto.
Qed.

(** The holder lets go. *)
Lemma inv_release gs s s' i g :
  gs !! i = Some g -> is_Some (th_lease g) -> doc s' = doc s -> Inv gs s ->
  Inv (<[i := mkThread None None (th_won g)]> gs) s'.
Proof.
  intros Hi Hl Hd [H1 H2 H3 H4 H5].
  assert (forall j gj, j <> i -> gs !! j = Some gj -> is_Some (th_lease gj) -> False) as Halone.
  { intros j gj Hj Hgj Hs. apply Hj. by eapply H2. }
  split; intros; by_cases; cbn in *; rewrite ?Hd; try done; try (by destruct_and?; eauto);
    try (exfalso; by eauto); eauto.
Qed.

(** The holder reads the value. *)
Lemma inv_find gs s s' i g l d :
  gs !! i = Some g -> th_lease g = Some l -> doc s' = doc s -> owner s' = owner s -> doc s = d ->
  Inv gs s -> Inv (<[i := mkThread (Some l) (Some d) (th_won g)]> gs) s'.
Proof.
  intros Hi Hl Hd Ho <- [H1 H2 H3 H4 H5].
  assert (is_Some (th_lease g)) as Hs by eauto.
  split; intros; by_cases; cbn in *; simplify_eq; rewrite ?Hd, ?Ho; try done; eauto.
Qed.

(** The holder writes over a value it read and that nobody had settled. *)
Lemma inv_update gs s s' i g old (won : bool) :
  gs !! i = Some g -> is_Some (th_lease g) -> th_fresh g = Some old -> ~ settled old ->
  owner s' = owner s -> (won = true -> settled (doc s')) ->
  Inv gs s -> Inv (<[i := mkThread (th_lease g) None won]> gs) s'.
Proof.
  intros Hi Hl Hf Hold Ho Hd [H1 H2 H3 H4 H5].
  assert (doc s = old) as Hdoc by (by eapply H3).
  assert (forall j gj, gs !! j = Some gj -> th_won gj = true -> False) as Hnone.
  { intros j gj Hj Hwj. apply Hold. rewrite <- Hdoc. by eapply H5. }
  assert (forall j gj, j <> i -> gs !! j = Some gj -> is_Some (th_lease gj) -> False) as Halone.
  { intros j gj Hj Hgj Hs. apply Hj. by eapply H2. }
  split; intros; by_cases; cbn in *; try done; try (exfalso; by eauto); rewrite ?Ho; eauto.
Qed.
End LockRace.

Arguments Thread D : clear implicits.
