(* ===== verification/RoutingRace.v ===== *)
(** * Routing: no double assignment

    Any number of automatic assignments of one conversation, their calls
    interleaved in any order, against any world whose locker is exclusive: at most
    one of them succeeds. The argument is thread-modular: a contract over what a
    thread holds, and an invariant that ties the threads to the shared world. The
    lock is taken not to expire while its holder runs ([lockTTL] is five seconds). *)
From S2P Require Import Prelude GoStrings AppError Authz Shared ConvEntity Messages ConvContracts.
From S2P Require Import Prog Ports LockRace Presence Routing.

(** ** The world: one conversation and its lock *)

Definition is_lock_call {R} (e : RoutingPort R) : bool :=
  match e with RInfra (Acquire _ _ | Release _) => true | _ => false end.
Definition is_write {R} (e : RoutingPort R) : bool :=
  match e with RConvs e => is_conv_write e | _ => false end.

Class RoutingWorld {S} (h : handler Ctx RoutingPort S) (t id : string)
    (doc : S -> option Conversation) (owner : S -> option Lease) : Prop := {
  rw_acquire : forall c ttl s,
    let '(r, s') := h _ c (RInfra (Acquire (lockKey t id) ttl)) s in
    doc s' = doc s /\
    match r with
    | Ok (l, true) => owner s = None /\ owner s' = Some l
    | _ => owner s' = owner s
    end;
  rw_release : forall c l s,
    let '(_, s') := h _ c (RInfra (Release l)) s in
    doc s' = doc s /\ (owner s = Some l -> owner s' = None);
  rw_update : forall c conv s, RequireTenant c = Ok t -> cv_ID conv = id ->
    let '(r, s') := h _ c (RConvs (ConvUpdate conv)) s in
    owner s' = owner s /\
    (is_ok r = false /\ doc s' = doc s \/
     exists old, doc s = Some old /\ doc s' = Some (stored_update old conv));
  rw_find : forall c s, RequireTenant c = Ok t ->
    match (h _ c (RConvs (ConvFindByID id)) s).1 with
    | Ok conv => doc s = Some conv /\ cv_ID conv = id
    | Err _ => True
    end;
  rw_users : forall c sector s,
    match (h _ c (RUsers (UserListBySector sector)) s).1 with
    | Ok l => Forall (fun u => us_ID u <> "") l
    | Err _ => True
    end;
  rw_frame : forall R c (e : RoutingPort R) s, is_lock_call e = false -> is_write e = false ->
    let '(_, s') := h R c e s in doc s' = doc s /\ owner s' = owner s;
}.

Section Race.
Context (t id : string).

Definition race_pre (R : Type) (c : Ctx) (e : RoutingPort R) (g : Thread (option Conversation)) : Prop :=
  RequireTenant c = Ok t /\
  match e with
  | RInfra (Acquire key _) => key = lockKey t id /\ th_lease g = None
  | RInfra (Release l) => th_lease g = Some l
  | RConvs (ConvCreate _) => False
  | RConvs (ConvUpdate conv) => exists old, is_Some (th_lease g) /\ th_fresh g = Some (Some old) /\
      cv_AssignedTo old = "" /\ cv_AssignedTo conv <> "" /\ cv_ID conv = id /\ th_won g = false
  | RConvs (ConvFindByID i) => i = id
  | _ => True
  end.

Definition race_post (R : Type) (c : Ctx) (e : RoutingPort R) (g : Thread (option Conversation)) (r : R) (g' : Thread (option Conversation))
  : Prop :=
  match e in RoutingPort R return R -> Prop with
  | RInfra e =>
      match e in Infra R return R -> Prop with
      | Acquire _ _ => fun r =>
          g' = match r with Ok (l, true) => mkThread (Some l) None (th_won g) | _ => g end
      | Release _ => fun _ => g' = mkThread None None (th_won g)
      | _ => fun _ => g' = g
      end
  | RConvs e =>
      match e in ConvRepo R return R -> Prop with
      | ConvFindByID _ => fun r =>
          match r with
          | Ok conv => cv_ID conv = id /\
              g' = match th_lease g with
                   | Some l => mkThread (Some l) (Some (Some conv)) (th_won g) | None => g end
          | Err _ => g' = g
          end
      | ConvUpdate _ => fun r => g' = mkThread (th_lease g) None (is_ok r)
      | _ => fun _ => g' = g
      end
  | RUsers e =>
      match e in UserRepo R return R -> Prop with
      | UserListBySector _ => fun r => g' = g /\
          match r with Ok l => Forall (fun u => us_ID u <> "") l | Err _ => True end
      | _ => fun _ => g' = g
      end
  | _ => fun _ => g' = g
  end r.

Definition race : contract Ctx RoutingPort (Thread (option Conversation)) := pre_post race_pre race_post.

(** ** The invariant of the pool *)

Section Invariant.
Context {S : Type} (h : handler Ctx RoutingPort S).
Context (doc : S -> option Conversation) (owner : S -> option Lease).
Context `{!RoutingWorld h t id doc owner}.

(** Someone was assigned. *)
Definition assigned (d : option Conversation) : Prop :=
  exists conv, d = Some conv /\ cv_AssignedTo conv <> "".

Abbreviation Inv := (LockRace.Inv doc owner assigned).

(** The answer of any call a thread may make keeps the invariant. *)
Lemma race_step gs s i g R c (e : RoutingPort R) (P : R -> Thread (option Conversation) -> Prop) :
  gs !! i = Some g -> Inv gs s -> race R c e P g ->
  let '(r, s') := h R c e s in exists g', P r g' /\ Inv (<[i := g']> gs) s'.
Proof.
  intros Hi HI [[Hc Hpre] HP].
  destruct (h R c e s) as [r s'] eqn:Hh.
  assert (is_lock_call e = false -> is_write e = false -> race_post R c e g r g ->
    exists g', P r g' /\ Inv (<[i := g']> gs) s') as Hframe.
  { intros Hl Hw Hp. exists g. split; [by apply HP|].
    pose proof (rw_frame R c e s Hl Hw) as Hf. rewrite Hh in Hf. destruct Hf. by eapply inv_frame. }
  destruct e as [? e|? e|? e|? e|? e|? e| | | |]; try (by apply Hframe).
  - destruct e; try (by apply Hframe); cbn in Hpre.
    + destruct Hpre as [-> Hl]. pose proof (rw_acquire c ttl s) as Ha. rewrite Hh in Ha.
      destruct Ha as [Hd Ho]. destruct r as [[l [|]]|err].
      * destruct Ho as [Ho Ho']. eexists. split; [by apply HP|]. by eapply inv_acquire.
      * exists g. split; [by apply HP|]. by eapply inv_frame.
      * exists g. split; [by apply HP|]. by eapply inv_frame.
    + pose proof (rw_release c l s) as Ha. rewrite Hh in Ha. destruct Ha as [Hd Ho].
      eexists. split; [by apply HP|]. by eapply inv_release.
  - destruct e; try (by apply Hframe); cbn in Hpre; try done.
    + destruct Hpre as (old & Hl & Hf & Hold & Hnew & Hid & Hw).
      pose proof (rw_update c _ s Hc Hid) as Hu. rewrite Hh in Hu. destruct Hu as [Ho Hd].
      eexists. split; [by apply HP|]. eapply inv_update; try done.
      * intros (conv' & [= <-] & Hne). congruence.
      * destruct Hd as [[-> _]|(old' & _ & ->)]; [done|]. by eexists.
    + subst. pose proof (rw_find c s Hc) as Hf. rewrite Hh in Hf. cbn in Hf.
      pose proof (rw_frame _ c (RConvs (ConvFindByID id)) s eq_refl eq_refl) as Hs. rewrite Hh in Hs.
      destruct Hs as [Hd Ho].
      destruct r as [conv|err]; [|exists g; split; [by apply HP|by eapply inv_frame]].
      destruct Hf as [Hdoc Hid]. destruct (th_lease g) as [l|] eqn:Hl.
      * exists (mkThread (Some l) (Some (Some conv)) (th_won g)).
        split; [apply HP; cbn; by rewrite Hl|by eapply inv_find].
      * exists g. split; [apply HP; cbn; by rewrite Hl|]. by eapply inv_frame.
  - destruct e; try (by apply Hframe). apply Hframe; [done|done|]. cbn. split; [done|].
    pose proof (rw_users c sectorID s) as Hu. by rewrite Hh in Hu.
Qed.

End Invariant.

(** ** A thread of automatic assignment *)

Section Thread.
Context (enr : bool) (c : Ctx).
Hypothesis (Hc : RequireTenant c = Ok t).

Definition bystander (R : Type) (c : Ctx) (e : RoutingPort R) : Prop :=
  RequireTenant c = Ok t /\
  match e with
  | RInfra (Acquire _ _ | Release _) => False
  | RConvs (ConvCreate _ | ConvUpdate _ | ConvFindByID _) => False
  | RUsers (UserListBySector _) => False
  | _ => True
  end.

Lemma bystander_inert : inert_in race_pre race_post bystander.
Proof.
  split; intros R c' e g.
  - intros [Hc' He]. split; [done|].
    destruct e as [? e|? e|? e|? e|? e|? e| | | |]; try done; by destruct e.
  - intros r g' [Hc' He].
    destruct e as [? e|? e|? e|? e|? e|? e| | | |]; try done; by destruct e.
Qed.

#[local] Instance race_mono : Monotone race.
Proof. apply pre_post_mono. Qed.

Ltac bystander_step := calls_step ltac:(split; [exact Hc|exact I]).
Ltac skip_bind :=
  eapply (wp_inert_bind _ _ bystander); [apply bystander_inert|solve [repeat bystander_step]|intros ?].
Ltac skip_bind_ok :=
  eapply (wp_inert_bind_ok _ _ bystander); [apply bystander_inert|solve [repeat bystander_step]| |intros ?].

Definition named (cands : list candidate) : Prop := Forall (fun x => ca_UserID x <> "") cands.

Lemma eligible_step_named loads cands u :
  us_ID u <> "" -> named cands -> returns named (eligible_step c loads cands u).
Proof.
  intros Hu Hc'. unfold eligible_step. case_match; [done|]. cbn. intros [p|e]; [|done].
  repeat case_match; cbn; try done. apply Forall_app. split; [done|]. by constructor.
Qed.

Lemma eligibleAgents_race sector g (Q : result (list candidate) -> Thread (option Conversation) -> Prop) :
  (forall e, Q (Err e) g) -> (forall l, named l -> Q (Ok l) g) ->
  wp race (eligibleAgents c sector) Q g.
Proof.
  intros Herr Hok. unfold eligibleAgents.
  apply wp_bind_ok; [apply _|]. split; [by split|]. intros [users|e] g'; cbn [race_post wp];
    intros [-> Hu]; [|done].
  skip_bind_ok; [done|]. apply wp_bind; [apply _|].
  apply wp_fold with (I := fun cands g' => g' = g /\ named cands); [apply _| | |by split; [|constructor]].
  - intros cands u g' Hin [-> Hn]. rewrite Forall_forall in Hu. specialize (Hu u Hin).
    eapply (wp_inert_returns _ _ bystander);
      [apply bystander_inert|unfold eligible_step; repeat bystander_step|by apply eligible_step_named|].
    by intros cands'.
  - intros cands g' [-> Hn]. cbn. apply Hok. unfold named, sortCandidates.
    by rewrite stable_sort_perm.
Qed.

(** Success means its assignment was stored. *)
Definition won_if_ok {A} (r : result A) (g : Thread (option Conversation)) : Prop := is_ok r = true -> th_won g = true.

Lemma err_won {A} e g : won_if_ok (@Err A e) g.
Proof. done. Qed.
#[local] Hint Resolve err_won : core.

Lemma applyAssignment_race l old a :
  cv_ID old = id -> cv_AssignedTo old = "" -> a <> "" ->
  wp race (applyAssignment enr c old a)
    (fun r g => th_lease g = Some l /\ won_if_ok r g) (mkThread (Some l) (Some (Some old)) false).
Proof.
  intros Hid Hold Ha.
  unfold applyAssignment, recordEvent, publishAssigned, emitConversationWebhook, payloadOf, publish.
  skip_bind. cbn zeta.
  apply wp_bind_ok; [apply _|]. split.
  { split; [done|]. exists old. split_and!; try done; by eexists. }
  intros [[]|e] g; cbn [race_post wp is_ok]; intros ->; [|by split].
  do 5 skip_bind. by split.
Qed.

Lemma AutoAssign_race : wp race (AutoAssign enr c id) won_if_ok idle_thread.
Proof.
  unfold AutoAssign, withLock. rewrite Hc. cbn [bind_ok bind].
  apply wp_bind_ok; [apply _|]. split; [done|]. intros [conv|e] g; cbn [race_post wp th_lease idle_thread];
    [|by intros ->]. intros [_ ->].
  destruct (assertAccess c conv); cbn [bind_ok bind]; [|done].
  apply wp_bind; [apply _|]. split; [by split|]. intros r g; cbn [race_post wp]. intros ->.
  destruct r as [[l [|]]|e]; cbn [negb]; [|done|done].
  apply wp_bind; [apply _|].
  assert (forall (r : result Conversation) g, th_lease g = Some l /\ won_if_ok r g ->
    wp race (do! ask c (Release l) in Ret r) won_if_ok g) as Hrelease.
  { intros r g [Hl Hw]. split; [by split|]. by intros [] g' ->. }
  eapply wp_mono; [apply _|exact Hrelease|].
  apply wp_bind_ok; [apply _|]. split; [done|]. intros [old|e] g; cbn [race_post wp th_lease th_won];
    [|by intros ->]. intros [Hid ->].
  case_match; [by split|]. case_match eqn:Ha; [by split|]. prop_bools. case_match; [by split|].
  apply wp_bind_ok; [apply _|]. apply eligibleAgents_race; [by split|]. intros cands Hn. cbn beta iota.
  destruct cands as [|best rest]; [by split|]. apply Forall_cons in Hn as [Hb _].
  by apply applyAssignment_race.
Qed.
End Thread.
End Race.

(** ** A world in memory *)

Record RMemory := mkRMemory {
  rm_docs : gmap (string * string) Conversation;
  rm_locks : gmap string Lease;
  rm_reads : gmap string (list User);
  rm_online : gmap string AgentPresence;
  rm_clock : Time;
  rm_seq : nat
}.

Definition rm_set_docs v s := mkRMemory v (rm_locks s) (rm_reads s) (rm_online s) (rm_clock s) (rm_seq s).
Definition rm_set_locks v s :=
  mkRMemory (rm_docs s) v (rm_reads s) (rm_online s) (rm_clock s) (S (rm_seq s)).

Definition rm_doc (t id : string) (s : RMemory) : option Conversation :=
  match rm_docs s !! (t, id) with
  | Some conv => if cv_ID conv =! id then Some conv else None
  | None => None
  end.

Definition rmem_infra {R} (e : Infra R) (s : RMemory) : R * RMemory :=
  match e in Infra R return R * RMemory with
  | Now => (rm_clock s, s)
  | SystemNow => (rm_clock s, s)
  | NewID => ("id-" +:+ show_nat (rm_seq s), s)
  | Publish _ _ _ => (Ok tt, s)
  | PublishBatch _ => (Ok tt, s)
  | WebhookMatches _ _ _ => (false, s)
  | WebhookDeliver _ _ _ _ => (tt, s)
  | EmitRuleEvent _ _ _ _ => (tt, s)
  | Notify _ => (tt, s)
  | AuditRecord _ => (Ok tt, s)
  | QueueChanged _ _ => (tt, s)
  | Acquire key _ =>
      match rm_locks s !! key with
      | Some _ => (Ok ("", false), s)
      | None =>
          let token := "token-" +:+ show_nat (rm_seq s) in
          (Ok (token, true), rm_set_locks (<[key := token]> (rm_locks s)) s)
      end
  | Release l => (tt, rm_set_locks (filter (fun kv : string * Lease => kv.2 <> l) (rm_locks s)) s)
  end.

Definition rmem_convs {R} (c : Ctx) (e : ConvRepo R) (s : RMemory) : R * RMemory :=
  let t := match RequireTenant c with Ok t => t | Err _ => "" end in
  let missing := NotFound "conversation not found" in
  match e in ConvRepo R return R * RMemory with
  | ConvCreate _ => (Err missing, s)
  | ConvUpdate conv =>
      match rm_doc t (cv_ID conv) s with
      | Some old => (Ok tt, rm_set_docs (<[(t, cv_ID conv) := stored_update old conv]> (rm_docs s)) s)
      | None => (Err missing, s)
      end
  | ConvFindByID id => (match rm_doc t id s with Some conv => Ok conv | None => Err missing end, s)
  | ConvFindByIDs _ => (Ok [], s)
  | ConvList _ _ _ => (Ok [], s)
  | ConvUnreadCounts _ => (Ok (mkUnread 0 0 0), s)
  | ConvListInactiveOpen _ _ => (Ok [], s)
  end.

Definition rmemory : handler Ctx RoutingPort RMemory := fun R c e s =>
  match e in RoutingPort R return R * RMemory with
  | RInfra e => rmem_infra e s
  | RConvs e => rmem_convs c e s
  | REvents e => (match e in EventRepo R return R with
                  | EventCreate _ => Ok tt | EventListByConversation _ _ => Ok [] end, s)
  | RPresence e => (match e in PresenceStore R return R with
                    | PSave _ => Ok tt | PConnect _ _ => Ok false | PHeartbeat _ _ => Ok tt
                    | PDisconnect _ _ => Ok false | PHasLiveSocket _ => Ok true
                    | PGet id => match rm_online s !! id with
                                 | Some p => Ok p | None => Err (NotFound "offline") end
                    | PList => Ok [] end, s)
  | RLoad e => (match e in LoadCounter R return R with
                | CountOpenAssigned _ => Ok 0 | OpenAssignedLoads => Ok ∅ end, s)
  | RUsers e => (match e in UserRepo R return R with
                 | UserFindByID _ => Err (NotFound "user")
                 | UserListBySector sector =>
                     Ok (filter (fun u => us_ID u <> "") (default [] (rm_reads s !! sector)))
                 | SetPresenceSettings _ _ _ => Ok tt end, s)
  | RSectorFindByID _ => (Ok tt, s)
  | RQueueFindByID _ => (Err (NotFound "queue"), s)
  | REnrichContact _ => (None, s)
  | REnrichAgent _ => (None, s)
  end.

#[export] Instance rmemory_world t id :
  RoutingWorld rmemory t id (rm_doc t id) (fun s => rm_locks s !! lockKey t id).
Proof.
  split.
  - intros c ttl s. cbn. destruct (rm_locks s !! lockKey t id) eqn:Hl; cbn; [done|].
    split; [done|]. by rewrite lookup_insert_eq.
  - intros c l s. cbn. split; [done|]. intros Hl. apply map_lookup_filter_None. right.
    intros x Hx. cbn. rewrite Hl in Hx. injection Hx as ->. by intros [].
  - intros c conv s Hc <-. cbn. unfold rmem_convs. rewrite Hc. cbn.
    destruct (rm_doc t (cv_ID conv) s) as [old|] eqn:Hd; cbn; [|by split; [|left]].
    split; [done|]. right. exists old. split; [done|]. unfold rm_doc in *. cbn.
    rewrite lookup_insert_eq. destruct (rm_docs s !! _); [|done]. case_match eqn:Hid; [|done].
    prop_bools. simplify_eq. cbn. by rewrite bool_decide_true.
  - intros c s Hc. cbn. unfold rmem_convs. rewrite Hc. cbn.
    destruct (rm_doc t id s) as [conv|] eqn:Hd; [|done]. split; [done|].
    unfold rm_doc in Hd. destruct (rm_docs s !! _); [|done]. case_match eqn:Hid; [|done].
    prop_bools. by simplify_eq.
  - intros c sector s. cbn. apply Forall_forall. intros u Hu. by apply list_elem_of_filter in Hu as [? _].
  - intros R c e s Hl Hw.
    destruct e as [? e|? e|? e|? e|? e|? e| | | |]; try done; by destruct e.
Qed.

(** ** Properties *)

(** C3. No double assignment: whatever the interleaving of any number of automatic
    assignments of one conversation, over any world whose locker is exclusive, at
    most one of them returns success. *)
Theorem no_double_assignment {S} (h : handler Ctx RoutingPort S) (t id : string)
    (doc : S -> option Conversation) (owner : S -> option Lease)
    `{!RoutingWorld h t id doc owner} (enr : bool) (cs : list Ctx) (s : S)
    (p' : list (RM (result Conversation))) (s' : S) :
  Forall (fun c => RequireTenant c = Ok t) cs ->
  steps h (map (fun c => AutoAssign enr c id) cs, s) (p', s') ->
  forall i j a b, p' !! i = Some (Ret (Ok a)) -> p' !! j = Some (Ret (Ok b)) -> i = j.
Proof.
  intros Hcs Hsteps i j a b Hi Hj.
  destruct (steps_wp h (race t id) won_if_ok (Inv doc owner assigned) _ _ _ _ (map (fun _ => idle_thread) cs)
              ltac:(intros; by eapply race_step) Hsteps) as (gs & Hw & HI).
  - clear Hsteps. induction Hcs as [|c cs Hc _ IH]; constructor; [by apply AutoAssign_race|exact IH].
  - apply inv_idle.
  - pose proof (Forall2_lookup_l _ _ _ _ _ Hw Hi) as (gi & Hgi & Hwi).
    pose proof (Forall2_lookup_l _ _ _ _ _ Hw Hj) as (gj & Hgj & Hwj).
    destruct HI as [_ _ _ Hone _]. by apply (Hone i j gi gj); [..|apply Hwi|apply Hwj].
Qed.

(** Two assignments of the same conversation, their calls alternating: the first
    wins, the second is refused the lock or finds the conversation assigned. *)
Module Race_Demo.
Definition ctx : Ctx :=
  WithAuthContext (WithTenant Background "acme") (NewAuthContext "acme" "sup" [] [] ScopeAll).
Definition conv : Conversation :=
  mkConversation "c1" "acme" "k1" "whatsapp" "ch1" "s1" "q1" StatusQueued "" PriorityNormal ""
    [] [] 5 None None 0 None 1 5 None.
Definition ana : User := mkUser "ana" "acme" "Ana" StatusActive ["s1"] 3 "" None.
Definition start : RMemory :=
  mkRMemory {[ ("acme", "c1") := conv ]} ∅ {[ "s1" := [ana] ]}
    {[ "ana" := mkPresence "acme" "ana" PStatus.StatusOnline "" true 0 0 0 ]} 100 0.
Definition threads : list (RM (result Conversation)) :=
  map (fun c => AutoAssign true c "c1") [ctx; ctx].
Definition turns : list nat := concat (replicate 30 [0; 1]%nat).
Definition outcome := schedule rmemory turns threads start.
End Race_Demo.

Lemma no_double_assignment_witness :
  (exists a, Race_Demo.outcome.1 !! 0%nat = Some (Ret (Ok a)) /\ cv_AssignedTo a = "ana") /\
  (exists e, Race_Demo.outcome.1 !! 1%nat = Some (Ret (Err e))) /\
  forall i j a b, Race_Demo.outcome.1 !! i = Some (Ret (Ok a)) -> Race_Demo.outcome.1 !! j = Some (Ret (Ok b)) -> i = j.
Proof.
  split_and!; [vm_compute; by eauto|vm_compute; by eauto|].
  exact (no_double_assignment rmemory "acme" "c1" (rm_doc "acme" "c1")
           (fun s => rm_locks s !! lockKey "acme" "c1") true [Race_Demo.ctx; Race_Demo.ctx]
           Race_Demo.start Race_Demo.outcome.1 Race_Demo.outcome.2
           ltac:(repeat constructor)
           (schedule_steps rmemory Race_Demo.turns Race_Demo.threads Race_Demo.start)).
Defined.
