(* ===== verification/Rules.v ===== *)
(** * Automation rules: the aggregate and its management
    (domain/automationrules/entity, service/rule_service.go)

    Events, conditions and their matching, actions, and the service that validates
    and stores rules. *)
From S2P Require Import Prelude GoStrings AppError Authz Shared ConvEntity Messages ConvContracts.
From S2P Require Import Prog Ports ConvBase.

(** ** Events (entity/rule.go) *)

Definition RuleEvent := string.
Definition EvConversationCreated : RuleEvent := "conversation_created".
Definition EvConversationUpdated : RuleEvent := "conversation_updated".
Definition EvConversationResolved : RuleEvent := "conversation_resolved".
Definition EvConversationOpened : RuleEvent := "conversation_opened".
Definition EvConversationClosed : RuleEvent := "conversation_closed".
Definition EvMessageCreated : RuleEvent := "message_created".
Definition EvInteractiveReplyReceived : RuleEvent := "interactive_reply_received".

Definition internalToRuleEvent : list (string * RuleEvent) :=
  [("conversation.created", EvConversationCreated);
   ("conversation.updated", EvConversationUpdated);
   ("conversation.resolved", EvConversationResolved);
   ("conversation.reopened", EvConversationOpened);
   ("conversation.closed", EvConversationClosed);
   ("message.created", EvMessageCreated)].

Definition RuleEventForInternal (internal : string) : option RuleEvent :=
  match list_find (fun p : string * RuleEvent => p.1 = internal) internalToRuleEvent with
  | Some (_, (_, e)) => Some e
  | None => None
  end.

Definition AllEvents : list RuleEvent :=
  [EvConversationCreated; EvConversationUpdated; EvConversationResolved;
   EvConversationOpened; EvConversationClosed; EvMessageCreated; EvInteractiveReplyReceived].

Definition ValidEvent (e : RuleEvent) : bool := existsb (fun v => v =! e) AllEvents.

(** ** Conditions *)

Definition ConditionField := string.
Definition FieldStatus : ConditionField := "status".
Definition FieldChannel : ConditionField := "channel".
Definition FieldAssignedAgentID : ConditionField := "assigned_agent_id".
Definition FieldSectorID : ConditionField := "sector_id".
Definition FieldQueueID : ConditionField := "queue_id".
Definition FieldPriority : ConditionField := "priority".
Definition FieldTags : ConditionField := "tags".
Definition FieldContactPhone : ConditionField := "contact_phone".
Definition FieldMessageContent : ConditionField := "message_content".
Definition FieldInteractiveReplyID : ConditionField := "interactive_reply_id".

Definition ConditionOperator := string.
Definition OpEqualTo : ConditionOperator := "equal_to".
Definition OpNotEqualTo : ConditionOperator := "not_equal_to".
Definition OpContains : ConditionOperator := "contains".
Definition OpDoesNotContain : ConditionOperator := "does_not_contain".

Definition allowedOperators : list (ConditionField * list ConditionOperator) :=
  [(FieldStatus, [OpEqualTo; OpNotEqualTo]);
   (FieldChannel, [OpEqualTo; OpNotEqualTo]);
   (FieldAssignedAgentID, [OpEqualTo; OpNotEqualTo]);
   (FieldSectorID, [OpEqualTo; OpNotEqualTo]);
   (FieldQueueID, [OpEqualTo; OpNotEqualTo]);
   (FieldPriority, [OpEqualTo; OpNotEqualTo]);
   (FieldTags, [OpContains; OpDoesNotContain]);
   (FieldContactPhone, [OpEqualTo; OpContains]);
   (FieldMessageContent, [OpContains; OpDoesNotContain]);
   (FieldInteractiveReplyID, [OpEqualTo; OpNotEqualTo; OpContains; OpDoesNotContain])].

(** [OperatorsFor]: [None] is the nil slice of an unknown field. *)
Definition OperatorsFor (field : ConditionField) : option (list ConditionOperator) :=
  match list_find (fun p : ConditionField * list ConditionOperator => p.1 = field) allowedOperators with
  | Some (_, (_, ops)) => Some ops
  | None => None
  end.

Definition OperatorAllowed (field : ConditionField) (op : ConditionOperator) : bool :=
  existsb (fun o => o =! op) (default [] (OperatorsFor field)).

Record Condition := mkCondition {
  cd_Field : ConditionField; cd_Operator : ConditionOperator; cd_Value : string }.

(** ** Actions *)

Definition ActionType := string.
Definition ActionSendWebhook : ActionType := "send_webhook".
Definition ActionSendMessage : ActionType := "send_message".
Definition ActionSendAttachment : ActionType := "send_attachment".
Definition ActionSendInteractive : ActionType := "send_interactive".
Definition ActionAssignAgent : ActionType := "assign_agent".
Definition ActionAssignTeam : ActionType := "assign_team".
Definition ActionRemoveAssignedAgent : ActionType := "remove_assigned_agent".
Definition ActionRemoveAssignedTeam : ActionType := "remove_assigned_team".
Definition ActionAddTag : ActionType := "add_tag".
Definition ActionRemoveTag : ActionType := "remove_tag".
Definition ActionChangePriority : ActionType := "change_priority".
Definition ActionResolveConversation : ActionType := "resolve_conversation".
Definition ActionOpenConversation : ActionType := "open_conversation".
Definition ActionMarkPending : ActionType := "mark_pending".
Definition ActionMoveDealStage : ActionType := "move_deal_stage".

(** [ParamKey]: the key and the kind of the entity an action refers to. *)
Definition ParamKey (t : ActionType) : option (string * string) :=
  if t =! ActionSendWebhook then Some ("webhook_id", "webhook")
  else if t =! ActionAssignAgent then Some ("agent_id", "agent")
  else if t =! ActionAssignTeam then Some ("sector_id", "sector")
  else if (t =! ActionAddTag) || (t =! ActionRemoveTag) then Some ("tag_id", "tag")
  else if t =! ActionSendAttachment then Some ("attachment_id", "attachment")
  else None.

Record Action := mkAction { at_Type : ActionType; at_Params : gmap string string }.

Definition Param (a : Action) (key : string) : string := default "" (at_Params a !! key).

Record AutomationRule := mkRule {
  ar_ID : string; ar_TenantID : string; ar_Name : string; ar_Description : string;
  ar_Event : RuleEvent; ar_Enabled : bool; ar_Priority : Z;
  ar_Conditions : list Condition; ar_Actions : list Action;
  ar_CreatedAt : Time; ar_UpdatedAt : Time }.

Definition WebhookIDs (r : AutomationRule) : list string :=
  map (fun a => Param a "webhook_id")
    (filter (fun a => at_Type a = ActionSendWebhook /\ Param a "webhook_id" <> "") (ar_Actions r)).

(** ** Matching (entity/match.go) *)

Record EvalContext := mkEvalContext {
  ec_Status : string; ec_Channel : string; ec_AssignedAgentID : string; ec_SectorID : string;
  ec_QueueID : string; ec_Priority : string; ec_Tags : list string; ec_ContactPhone : string;
  ec_MessageContent : string; ec_InteractiveReplyID : string }.

Definition scalarField (ec : EvalContext) (field : ConditionField) : string :=
  if field =! FieldStatus then ec_Status ec
  else if field =! FieldChannel then ec_Channel ec
  else if field =! FieldAssignedAgentID then ec_AssignedAgentID ec
  else if field =! FieldSectorID then ec_SectorID ec
  else if field =! FieldQueueID then ec_QueueID ec
  else if field =! FieldPriority then ec_Priority ec
  else "".

Definition containsString (l : list string) (v : string) : bool := existsb (fun x => x =! v) l.

Definition comma : Ascii.ascii := Ascii.ascii_of_nat 44.

Definition idInList (id csv : string) : bool :=
  if id =! "" then false
  else existsb (fun item => trim_space item =! id) (split_on comma csv).

Section Matching.
(** The case mapping of the non-ASCII runes, a table of Go's [unicode]. *)
Context (lower : Z -> Z).

(** [Condition.match]. *)
Definition cond_match (c : Condition) (ec : EvalContext) : bool :=
  let f := cd_Field c in let op := cd_Operator c in let v := cd_Value c in
  if f =! FieldTags then
    let has := containsString (ec_Tags ec) v in
    if op =! OpDoesNotContain then negb has else has
  else if f =! FieldContactPhone then
    if op =! OpContains then str_contains (ec_ContactPhone ec) v
    else ec_ContactPhone ec =! v
  else if f =! FieldMessageContent then
    let has := str_contains (to_lower lower (ec_MessageContent ec)) (to_lower lower v) in
    if op =! OpDoesNotContain then negb has else has
  else if f =! FieldInteractiveReplyID then
    if (op =! OpContains) || (op =! OpDoesNotContain) then
      let in_ := idInList (ec_InteractiveReplyID ec) v in
      if op =! OpDoesNotContain then negb in_ else in_
    else if op =! OpNotEqualTo then ec_InteractiveReplyID ec <>! v
    else ec_InteractiveReplyID ec =! v
  else
    let x := scalarField ec f in
    if op =! OpNotEqualTo then x <>! v else x =! v.

Fixpoint conditions_match (cs : list Condition) (ec : EvalContext) : bool :=
  match cs with
  | [] => true
  | c :: cs => if negb (cond_match c ec) then false else conditions_match cs ec
  end.

Definition Matches (r : AutomationRule) (ec : EvalContext) : bool :=
  conditions_match (ar_Conditions r) ec.
End Matching.

(** ** Evaluation log (entity/log.go) *)

Definition EvalStatus := string.
Definition EvalActionEnqueued : EvalStatus := "action_enqueued".
Definition EvalSkippedDedup : EvalStatus := "skipped_dedup".
Definition EvalSkippedAutomation : EvalStatus := "skipped_automation".
Definition EvalSkippedStale : EvalStatus := "skipped_stale".
Definition EvalSkippedBudget : EvalStatus := "skipped_budget".
Definition EvalSkippedMissingRef : EvalStatus := "skipped_missing_ref".
Definition EvalError : EvalStatus := "error".

Record RuleEvaluationLog := mkEvalLog {
  el_ID : string; el_TenantID : string; el_RuleID : string; el_Event : RuleEvent;
  el_ConversationID : string; el_ActionType : string; el_Status : EvalStatus;
  el_ErrorSummary : string; el_CreatedAt : Time }.

(** ** Ports *)

(** [RuleRepository] and [LogRepository]. *)
Inductive RuleRepo : Type -> Type :=
| RuleCreate (r : AutomationRule) : RuleRepo (result unit)
| RuleUpdate (r : AutomationRule) : RuleRepo (result unit)
| RuleDelete (id : string) : RuleRepo (result unit)
| RuleFindByID (id : string) : RuleRepo (result AutomationRule)
| RuleList : RuleRepo (result (list AutomationRule))
| RuleListEnabledByEvent (e : RuleEvent) : RuleRepo (result (list AutomationRule))
| RuleFindOneByWebhook (webhookID : string) : RuleRepo (result (option AutomationRule))
| LogCreate (l : RuleEvaluationLog) : RuleRepo (result unit)
| LogListByRule (ruleID : string) (p : PageRequest) : RuleRepo (result (list RuleEvaluationLog)).

(** What the rule service and the evaluator are wired with. [PConvService] is a
    call made by the conversations service underneath. *)
Inductive RulePort : Type -> Type :=
| RuInfra {R} (e : Infra R) : RulePort R
| RuRepo {R} (e : RuleRepo R) : RulePort R
| RuConvs {R} (e : ConvRepo R) : RulePort R
| RuConvService {R} (e : ConvPort R) : RulePort R
| RuWebhookFind (id : string) : RulePort (result unit)
| RuRefExists (kind id : string) : RulePort (result bool)
| RuStageExists (pipelineID stageID : string) : RulePort (result bool)
| RuContactPhone (id : string) : RulePort (result (option string))
| RuDedup (key : string) : RulePort (result bool)
| RuBudget (conversationID : string) : RulePort (result bool)
| RuEmitTo (tenantID webhookID event data : string) : RulePort (result unit)
| RuMoveDealStage (conversationID pipelineID stageID : string) : RulePort (result unit).

#[export] Instance rule_infra : Embed Infra RulePort := fun R e => RuInfra e.
#[export] Instance rule_repo : Embed RuleRepo RulePort := fun R e => RuRepo e.
#[export] Instance rule_convs : Embed ConvRepo RulePort := fun R e => RuConvs e.
#[export] Instance rule_own : Embed RulePort RulePort := fun R e => e.

Abbreviation UM := (prog Ctx RulePort).

(** ** The rule service (service/rule_service.go) *)

Record CreateRule := mkCreateRule {
  cru_Name : string; cru_Description : string; cru_Event : RuleEvent; cru_Enabled : option bool;
  cru_Priority : Z; cru_Conditions : list Condition; cru_Actions : list Action }.

Record UpdateRule := mkUpdateRule {
  uru_Name : option string; uru_Description : option string; uru_Event : option RuleEvent;
  uru_Enabled : option bool; uru_Priority : option Z; uru_Conditions : option (list Condition);
  uru_Actions : option (list Action) }.

Record MissingRef := mkMissingRef { mr_ActionIndex : Z; mr_Kind : string; mr_ID : string }.

(** Which optional checkers are wired, and whether a text is a JSON object
    ([json.Unmarshal] into a map). *)
Record RuleService := mkRuleService {
  has_refs : bool; has_stages : bool; json_object : string -> bool }.

Definition fieldKey (group : string) (i : nat) (sub : string) : string :=
  group +:+ "[" +:+ show_nat i +:+ "]." +:+ sub.

Definition validPriority (p : string) : bool :=
  existsb (fun x => x =! p) ["low"; "normal"; "high"; "urgent"].

#[local] Notation errs := (gmap string value).

(** The errors of the conditions, from the [i]th on. *)
Fixpoint condition_errors (i : nat) (cs : list Condition) (v : errs) : errs :=
  match cs with
  | [] => v
  | c :: cs =>
      match OperatorsFor (cd_Field c) with
      | None => condition_errors (S i) cs
                  (<[fieldKey "conditions" i "field" := VStr "unknown field"]> v)
      | Some _ =>
          let v := if negb (OperatorAllowed (cd_Field c) (cd_Operator c))
                   then <[fieldKey "conditions" i "operator" :=
                            VStr "operator not valid for this field"]> v else v in
          let v := if blank (cd_Value c)
                   then <[fieldKey "conditions" i "value" := VStr "is required"]> v else v in
          condition_errors (S i) cs v
      end
  end.

Module RuleSvc.
Section Service.
Context (s : RuleService).

Definition fail {A} (e : error) : UM (result A) := Ret (Err e).
Definition ok {A} (a : A) : UM (result A) := Ret (Ok a).

Definition validateInteractiveParam (p : string) : string :=
  if blank p then "is required"
  else if negb (json_object s p) then "must be a valid JSON object"
  else "".

Definition validateRef (c : Ctx) (v : errs) (i : nat) (paramKey kind : string) (a : Action)
  : UM (result errs) :=
  let id := trim_space (Param a paramKey) in
  if id =! "" then ok (<[fieldKey "actions" i paramKey := VStr "is required"]> v)
  else if negb (has_refs s) then ok v
  else
    try! found := ask c (RuRefExists kind id) in
    if negb found
    then ok (<[fieldKey "actions" i paramKey := VStr ("unknown " +:+ paramKey)]> v)
    else ok v.

Definition validateMoveDealStage (c : Ctx) (v : errs) (i : nat) (a : Action) : UM (result errs) :=
  let pipelineID := trim_space (Param a "pipeline_id") in
  let stageID := trim_space (Param a "stage_id") in
  let v := if pipelineID =! ""
           then <[fieldKey "actions" i "pipeline_id" := VStr "is required"]> v else v in
  let v := if stageID =! ""
           then <[fieldKey "actions" i "stage_id" := VStr "is required"]> v else v in
  if (pipelineID =! "") || (stageID =! "") || negb (has_stages s) then ok v
  else
    try! found := ask c (RuStageExists pipelineID stageID) in
    if negb found
    then ok (<[fieldKey "actions" i "stage_id" := VStr "unknown stage for this pipeline"]> v)
    else ok v.

(** The body of the loop over the actions. *)
Definition validateAction (c : Ctx) (v : errs) (i : nat) (a : Action) : UM (result errs) :=
  let ty := at_Type a in
  if ty =! ActionSendWebhook then
    let webhookID := trim_space (Param a "webhook_id") in
    if webhookID =! "" then ok (<[fieldKey "actions" i "webhook_id" := VStr "is required"]> v)
    else
      let! r := ask c (RuWebhookFind webhookID) in
      match r with
      | Ok _ => ok v
      | Err e =>
          if is_not_found e
          then ok (<[fieldKey "actions" i "webhook_id" := VStr "unknown webhook_id"]> v)
          else fail e
      end
  else if ty =! ActionSendMessage then
    ok (if blank (Param a "text")
        then <[fieldKey "actions" i "text" := VStr "is required"]> v else v)
  else if ty =! ActionSendAttachment then validateRef c v i "attachment_id" "attachment" a
  else if ty =! ActionSendInteractive then
    let msg := validateInteractiveParam (Param a "interactive") in
    ok (if msg <>! "" then <[fieldKey "actions" i "interactive" := VStr msg]> v else v)
  else if ty =! ActionAssignAgent then validateRef c v i "agent_id" "agent" a
  else if ty =! ActionAssignTeam then validateRef c v i "sector_id" "sector" a
  else if (ty =! ActionAddTag) || (ty =! ActionRemoveTag) then validateRef c v i "tag_id" "tag" a
  else if ty =! ActionChangePriority then
    ok (if negb (validPriority (trim_space (Param a "priority")))
        then <[fieldKey "actions" i "priority" :=
                 VStr "must be one of: low, normal, high, urgent"]> v else v)
  else if ty =! ActionMoveDealStage then validateMoveDealStage c v i a
  else if (ty =! ActionRemoveAssignedAgent) || (ty =! ActionRemoveAssignedTeam) ||
          (ty =! ActionResolveConversation) || (ty =! ActionOpenConversation) ||
          (ty =! ActionMarkPending) then ok v
  else ok (<[fieldKey "actions" i "type" := VStr "unsupported action type"]> v).

Fixpoint validateActions (c : Ctx) (i : nat) (acts : list Action) (v : errs) : UM (result errs) :=
  match acts with
  | [] => ok v
  | a :: acts =>
      try! v := validateAction c v i a in
      validateActions c (S i) acts v
  end.

Definition validate (c : Ctx) (r : AutomationRule) : UM (result unit) :=
  let v : errs := ∅ in
  let v := if ar_Name r =! "" then <["name" := VStr "is required"]> v else v in
  let v := if negb (ValidEvent (ar_Event r)) then <["event" := VStr "unknown event"]> v else v in
  let v := condition_errors 0 (ar_Conditions r) v in
  let v := if (length (ar_Actions r) =? 0)%nat
           then <["actions" := VStr "at least one action is required"]> v else v in
  try! v := validateActions c 0 (ar_Actions r) v in
  if bool_decide (v <> ∅) then fail (WithDetails v (Validation "invalid automation rule"))
  else ok tt.

Definition Create (c : Ctx) (cmd : CreateRule) : UM (result AutomationRule) :=
  try! tenantID := Ret (RequireTenant c) in
  let enabled := default true (cru_Enabled cmd) in
  let! now := ask c Now in
  let! id := ask c NewID in
  let r := mkRule id tenantID (trim_space (cru_Name cmd)) (trim_space (cru_Description cmd))
             (cru_Event cmd) enabled (cru_Priority cmd) (cru_Conditions cmd) (cru_Actions cmd)
             now now in
  try! _ := validate c r in
  try! _ := ask c (RuleCreate r) in
  ok r.

(** The fields of the command, assigned. *)
Definition applyRuleUpdate (cmd : UpdateRule) (r : AutomationRule) : AutomationRule :=
  mkRule (ar_ID r) (ar_TenantID r)
    (match uru_Name cmd with Some n => trim_space n | None => ar_Name r end)
    (match uru_Description cmd with Some d => trim_space d | None => ar_Description r end)
    (default (ar_Event r) (uru_Event cmd)) (default (ar_Enabled r) (uru_Enabled cmd))
    (default (ar_Priority r) (uru_Priority cmd)) (default (ar_Conditions r) (uru_Conditions cmd))
    (default (ar_Actions r) (uru_Actions cmd)) (ar_CreatedAt r) (ar_UpdatedAt r).

Definition touched (now : Time) (r : AutomationRule) : AutomationRule :=
  mkRule (ar_ID r) (ar_TenantID r) (ar_Name r) (ar_Description r) (ar_Event r) (ar_Enabled r)
    (ar_Priority r) (ar_Conditions r) (ar_Actions r) (ar_CreatedAt r) now.

Definition Update (c : Ctx) (id : string) (cmd : UpdateRule) : UM (result AutomationRule) :=
  try! _ := Ret (RequireTenant c) in
  try! r := ask c (RuleFindByID id) in
  let r := applyRuleUpdate cmd r in
  try! _ := validate c r in
  let! now := ask c Now in
  let r := touched now r in
  try! _ := ask c (RuleUpdate r) in
  ok r.

Definition Delete (c : Ctx) (id : string) : UM (result unit) :=
  try! _ := Ret (RequireTenant c) in ask c (RuleDelete id).

Definition Get (c : Ctx) (id : string) : UM (result AutomationRule) :=
  try! _ := Ret (RequireTenant c) in ask c (RuleFindByID id).

Definition ListRules (c : Ctx) : UM (result (list AutomationRule)) :=
  try! _ := Ret (RequireTenant c) in ask c RuleList.

Definition Logs (c : Ctx) (ruleID : string) (p : PageRequest)
  : UM (result (list RuleEvaluationLog)) :=
  try! _ := Ret (RequireTenant c) in
  try! _ := ask c (RuleFindByID ruleID) in
  ask c (LogListByRule ruleID p).

Definition IsWebhookInUse (c : Ctx) (webhookID : string) : UM (result (bool * string)) :=
  try! _ := Ret (RequireTenant c) in
  try! r := ask c (RuleFindOneByWebhook webhookID) in
  match r with
  | None => ok (false, "")
  | Some r => ok (true, ar_Name r)
  end.

(** [refExists]: an error counts as existing. *)
Definition refExists (c : Ctx) (kind id : string) : UM bool :=
  if kind =! "webhook" then
    let! r := ask c (RuWebhookFind id) in
    Ret (match r with Ok _ => true | Err e => negb (is_not_found e) end)
  else if negb (has_refs s) then Ret true
  else
    let! r := ask c (RuRefExists kind id) in
    Ret (match r with Ok b => b | Err _ => true end).

Fixpoint missingRefs (c : Ctx) (i : nat) (acts : list Action) : UM (list MissingRef) :=
  match acts with
  | [] => Ret []
  | a :: acts =>
      let! here :=
        match ParamKey (at_Type a) with
        | None => Ret []
        | Some (key, kind) =>
            let id := trim_space (Param a key) in
            if id =! "" then Ret []
            else
              let! found := refExists c kind id in
              Ret (if negb found then [mkMissingRef (Z.of_nat i) kind id] else [])
        end in
      let! rest := missingRefs c (S i) acts in
      Ret (here ++ rest)
  end.

Definition MissingRefs (c : Ctx) (r : AutomationRule) : UM (list MissingRef) :=
  missingRefs c 0 (ar_Actions r).
End Service.
End RuleSvc.
