(* ===== verification/RuleEval.v ===== *)
(** * Automation rules: evaluation
    (domain/automationrules/service/evaluator.go, executor.go, contracts/tasks.go,
    infra/automationrules/enqueuer.go)

    The task an event becomes, its evaluation, and the execution of the actions over
    the conversations service of [ConvMessaging.v] and [ConvLifecycle.v]. *)
From S2P Require Import Prelude GoStrings AppError Authz Shared ConvEntity Messages ConvContracts.
From S2P Require Import Prog Ports ConvBase ConvMessaging ConvLifecycle Rules.

(** ** Tasks *)

Record EvaluateTask := mkTask {
  et_TenantID : string; et_Event : string; et_ConversationID : string; et_Data : string;
  et_EventID : string; et_Origin : string; et_Depth : Z }.

(** [Enqueuer.EmitRuleEvent]: the task enqueued for an event emitted under [c], with
    the fresh [eventID]; [marshal] is the JSON encoding of the payload. *)
Definition EmitRuleEvent_task (marshal : Payload -> option string) (c : Ctx)
    (tenantID event conversationID : string) (payload : Payload) (eventID : string)
  : option EvaluateTask :=
  if (tenantID =! "") || (conversationID =! "") then None
  else
    match marshal payload with
    | None => None
    | Some data =>
        Some (mkTask tenantID event conversationID data eventID
                (RuleOriginFromContext c) (RuleDepthFromContext c))
    end.

Definition maxDepth : Z := 3.
Definition ruleLockTTL : Z := 15 * Second.

(** [triggerMessage]. *)
Record triggerMessage := mkTrigger {
  tg_Text : string; tg_MessageType : string; tg_InteractiveReplyID : string }.

Definition no_trigger : triggerMessage := mkTrigger "" "" "".

(** [ActionContext]. *)
Record ActionContext := mkActionContext {
  ax_TenantID : string; ax_ConversationID : string; ax_RuleID : string; ax_EventWire : string;
  ax_Data : string; ax_Depth : Z }.

Definition ErrBudgetExceeded : error :=
  ErrSentinel "ErrBudgetExceeded" "automation message budget exceeded".

Definition dedupKey (tenantID ruleID eventID : string) : string :=
  "rule:fired:" +:+ tenantID +:+ ":" +:+ ruleID +:+ ":" +:+ eventID.

Definition ruleLockKey (tenantID conversationID : string) : string :=
  "rule:conv:" +:+ tenantID +:+ ":" +:+ conversationID.

(** [summarize]: at most 200 bytes of the message. *)
Definition summarize (e : error) : string :=
  let msg := bytes_of (Error e) in
  if (200 <? length msg)%nat then of_bytes (take 200 msg) else of_bytes msg.

Definition classify (r : result unit) : EvalStatus * string :=
  match r with
  | Ok _ => (EvalActionEnqueued, "")
  | Err e =>
      if errors_Is e "ErrBudgetExceeded" then (EvalSkippedBudget, "")
      else if is_not_found e then (EvalSkippedMissingRef, summarize e)
      else (EvalError, summarize e)
  end.

Definition applicableRuleEvents (task : EvaluateTask) (tm : triggerMessage) : list RuleEvent :=
  match RuleEventForInternal (et_Event task) with
  | None => []
  | Some base =>
      [base] ++
      (if (base =! EvMessageCreated) && (tg_MessageType tm =! "interactive_reply")
       then [EvInteractiveReplyReceived] else [])
  end.

(** The order of firing: priority, then creation time, then id. *)
Definition rule_less (a b : AutomationRule) : bool :=
  if negb (ar_Priority a =? ar_Priority b) then ar_Priority a <? ar_Priority b
  else if negb (ar_CreatedAt a =? ar_CreatedAt b) then ar_CreatedAt a <? ar_CreatedAt b
  else string_less (ar_ID a) (ar_ID b).

Definition sortRules (rs : list AutomationRule) : list AutomationRule := stable_sort rule_less rs.

(** ** The evaluator *)

Section Evaluator.
(** The evaluator may be wired into any signature with its ports. *)
Context {E : Type -> Type} `{!Embed RulePort E}.
(** The case mapping of [strings.ToLower]; the decoding of a message payload. *)
Context (lower : Z -> Z) (decode_trigger : string -> triggerMessage).
(** [ActionRunner], and whether the deduper is wired. *)
Context (runAction : Ctx -> Action -> ActionContext -> prog Ctx E (result unit)) (has_dedup : bool).

Definition triggerMessageFrom (task : EvaluateTask) : triggerMessage :=
  if (et_Event task <>! "message.created") || (et_Data task =! "") then no_trigger
  else decode_trigger (et_Data task).

Definition hydrate (c : Ctx) (conversationID : string) (tm : triggerMessage)
  : prog Ctx E (result EvalContext) :=
  try! conv := ask c (RuConvs (ConvFindByID conversationID)) in
  let! phone :=
    (if cv_ContactID conv <>! "" then
       let! r := ask c (RuContactPhone (cv_ContactID conv)) in
       Ret (match r with Ok (Some p) => p | _ => "" end)
     else Ret "") in
  Ret (Ok (mkEvalContext (cv_Status conv) (cv_Channel conv) (cv_AssignedTo conv)
             (cv_SectorID conv) (cv_QueueID conv) (cv_Priority conv) (cv_Tags conv) phone
             (tg_Text tm) (tg_InteractiveReplyID tm))).

Definition logRow (c : Ctx) (task : EvaluateTask) (ruleID : string) (event : RuleEvent)
    (actionType : string) (status : EvalStatus) (summary : string) : prog Ctx E unit :=
  let! id := ask c (RuInfra NewID) in
  let! now := ask c (RuInfra Now) in
  do! ask c (RuRepo (LogCreate (mkEvalLog id (et_TenantID task) ruleID event
             (et_ConversationID task) actionType status summary now))) in
  Ret tt.

Definition actionContext (task : EvaluateTask) (rule : AutomationRule) : ActionContext :=
  mkActionContext (et_TenantID task) (et_ConversationID task) (ar_ID rule) (ar_Event rule)
    (et_Data task) (et_Depth task).

(** [fire]: the actions in the declared order, each logged, none aborting the rest. *)
Definition fire (c : Ctx) (task : EvaluateTask) (rule : AutomationRule) : prog Ctx E unit :=
  for_each (ar_Actions rule) (fun a =>
    let! r := runAction c a (actionContext task rule) in
    let '(status, summary) := classify r in
    logRow c task (ar_ID rule) (ar_Event rule) (at_Type a) status summary).

(** The body of the loop over the matched rules. *)
Definition fireIfLive (c : Ctx) (task : EvaluateTask) (live : EvalContext) (rule : AutomationRule)
  : prog Ctx E unit :=
  if negb (Matches lower rule live) then
    logRow c task (ar_ID rule) (ar_Event rule) "" EvalSkippedStale ""
  else
    let! allowed :=
      (if has_dedup then
         let! r := ask c (RuDedup (dedupKey (et_TenantID task) (ar_ID rule) (et_EventID task))) in
         Ret (match r with Ok b => b | Err _ => true end)
       else Ret true) in
    if negb allowed then logRow c task (ar_ID rule) (ar_Event rule) "" EvalSkippedDedup ""
    else fire c task rule.

(** The enabled rules of the events, in the events' order. *)
Fixpoint rulesFor (c : Ctx) (events : list RuleEvent) : prog Ctx E (result (list AutomationRule)) :=
  match events with
  | [] => Ret (Ok [])
  | e :: es =>
      try! rs := ask c (RuRepo (RuleListEnabledByEvent e)) in
      try! rest := rulesFor c es in
      Ret (Ok (rs ++ rest))
  end.

(** A missing conversation ends the task without an error. *)
Definition unlessMissing {A} (r : result A) (k : A -> prog Ctx E (result unit)) : prog Ctx E (result unit) :=
  match r with
  | Ok a => k a
  | Err e => if is_not_found e then Ret (Ok tt) else Ret (Err e)
  end.

(** The part under the lock. *)
Definition evaluateLive (c : Ctx) (task : EvaluateTask) (tm : triggerMessage)
    (matched : list AutomationRule) : prog Ctx E (result unit) :=
  let! r := hydrate c (et_ConversationID task) tm in
  unlessMissing r (fun live =>
    do! for_each matched (fireIfLive c task live) in
    Ret (Ok tt)).

Definition Evaluate (c : Ctx) (task : EvaluateTask) : prog Ctx E (result unit) :=
  if et_Origin task =! OriginAutomation then Ret (Ok tt)
  else if maxDepth <? et_Depth task then Ret (Ok tt)
  else
    let tm := triggerMessageFrom task in
    let ruleEvents := applicableRuleEvents task tm in
    if (length ruleEvents =? 0)%nat then Ret (Ok tt)
    else
      let c := WithTenant c (et_TenantID task) in
      try! rules := rulesFor c ruleEvents in
      if (length rules =? 0)%nat then Ret (Ok tt)
      else
        let! r := hydrate c (et_ConversationID task) tm in
        unlessMissing r (fun ec =>
          let matched := sortRules (filter (fun r => Matches lower r ec = true) rules) in
          if (length matched =? 0)%nat then Ret (Ok tt)
          else
            let! got := ask c (RuInfra (Acquire
              (ruleLockKey (et_TenantID task) (et_ConversationID task)) ruleLockTTL)) in
            let! res := evaluateLive c task tm matched in
            do! (match got with Ok (lease, _) => ask c (RuInfra (Release lease)) | Err _ => Ret tt end) in
            Ret res).
End Evaluator.

(** ** The executor *)

Section Executor.
Context (s : Service) (has_conv has_deals has_budget : bool).
(** [strconv.Quote], for the [%q] of the error. *)
Context (quote : string -> string).

Definition checkBudget (c : Ctx) (conversationID : string) : UM (result unit) :=
  if negb has_budget then Ret (Ok tt)
  else
    let! r := ask c (RuBudget conversationID) in
    match r with
    | Err _ => Ret (Ok tt)
    | Ok allowed => if negb allowed then Ret (Err ErrBudgetExceeded) else Ret (Ok tt)
    end.

(** [requireConv]: without conversation operations an action does nothing. *)
Definition requireConv (m : prog Ctx ConvPort (result unit)) : UM (result unit) :=
  if has_conv then lift (@RuConvService) m else Ret (Ok tt).

Definition Run (c : Ctx) (a : Action) (ac : ActionContext) : UM (result unit) :=
  let c := WithRuleOrigin c OriginAutomation in
  let c := WithRuleDepth c (ax_Depth ac + 1) in
  let ty := at_Type a in let conv := ax_ConversationID ac in
  if ty =! ActionSendWebhook then
    ask c (RuEmitTo (ax_TenantID ac) (Param a "webhook_id") (ax_EventWire ac) (ax_Data ac))
  else if ty =! ActionSendMessage then
    try! _ := checkBudget c conv in
    requireConv (SendAutomationMessage s c conv (ax_RuleID ac) (Param a "text"))
  else if ty =! ActionSendAttachment then
    try! _ := checkBudget c conv in
    requireConv (SendAutomationAttachment s c conv (ax_RuleID ac) (Param a "attachment_id"))
  else if ty =! ActionSendInteractive then
    try! _ := checkBudget c conv in
    requireConv (SendAutomationInteractive s c conv (ax_RuleID ac) (Param a "interactive"))
  else if ty =! ActionAssignAgent then requireConv (AutomationAssignAgent s c conv (Param a "agent_id"))
  else if ty =! ActionAssignTeam then requireConv (AutomationAssignTeam s c conv (Param a "sector_id"))
  else if ty =! ActionRemoveAssignedAgent then requireConv (AutomationRemoveAgent s c conv)
  else if ty =! ActionRemoveAssignedTeam then requireConv (AutomationRemoveTeam s c conv)
  else if ty =! ActionAddTag then requireConv (AutomationAddTag s c conv (Param a "tag_id"))
  else if ty =! ActionRemoveTag then requireConv (AutomationRemoveTag s c conv (Param a "tag_id"))
  else if ty =! ActionChangePriority then
    requireConv (AutomationChangePriority s c conv (Param a "priority"))
  else if ty =! ActionResolveConversation then requireConv (AutomationResolve s c conv)
  else if ty =! ActionOpenConversation then requireConv (AutomationOpen s c conv)
  else if ty =! ActionMarkPending then requireConv (AutomationMarkPending s c conv)
  else if ty =! ActionMoveDealStage then
    if has_deals then
      ask c (RuMoveDealStage conv (Param a "pipeline_id") (Param a "stage_id"))
    else Ret (Ok tt)
  else Ret (Err (PlainErr ("unsupported action type " +:+ quote ty) None)).
End Executor.
