(* ===== verification/RuleProps.v ===== *)
(** * Automation rules: the properties

    Automation never feeds itself; an action runs only for a live match it claimed,
    and never again for the same event while its claim can be asked; stored rules are well
    formed, and their
    conditions mean what they say. *)
From S2P Require Import Prelude GoStrings AppError Authz Shared ConvEntity Messages ConvContracts.
From S2P Require Import Prog Ports ConvBase ConvMessaging ConvLifecycle.
From S2P Require Import Rules RuleEval.

(** ** The tag of automation *)

(** A context of the automation origin, at causal depth [d]. *)
Definition tagged (d : Z) (c : Ctx) : Prop :=
  RuleOriginFromContext c = OriginAutomation /\ RuleDepthFromContext c = d.

Lemma tagged_run c d : tagged d (WithRuleDepth (WithRuleOrigin c OriginAutomation) d).
Proof. done. Qed.

Lemma tagged_again c d : tagged d c -> tagged d (WithRuleOrigin c OriginAutomation).
Proof. by intros [_ <-]. Qed.

Section Tagged.
Context (s : Service) (d : Z).

Definition in_tag (R : Type) (c : Ctx) (e : ConvPort R) : Prop := tagged d c.

Ltac tag_step := calls_step ltac:(assumption).
Ltac tag_calls f := intros; unfold f; repeat tag_step.

Lemma recordEvent_tag c conv ty data : tagged d c -> calls in_tag (recordEvent c conv ty data).
Proof. tag_calls recordEvent. Qed.
Lemma conversationPayload_tag c conv : tagged d c -> calls in_tag (conversationPayload c conv).
Proof. tag_calls conversationPayload. Qed.
Lemma publishRooms_tag c conv event p : tagged d c -> calls in_tag (publishRooms c conv event p).
Proof. tag_calls publishRooms. Qed.
#[local] Hint Resolve recordEvent_tag conversationPayload_tag publishRooms_tag : calls.
Lemma publishConversation_tag c conv : tagged d c -> calls in_tag (publishConversation c conv).
Proof. tag_calls publishConversation. Qed.
Lemma emitRuleEvent_tag c conv event p : tagged d c -> calls in_tag (emitRuleEvent s c conv event p).
Proof. tag_calls emitRuleEvent. Qed.
Lemma integrationContact_tag c id : tagged d c -> calls in_tag (integrationContact s c id).
Proof. tag_calls integrationContact. Qed.
Lemma integrationAgent_tag c id : tagged d c -> calls in_tag (integrationAgent s c id).
Proof. tag_calls integrationAgent. Qed.
Lemma resolveIntegrationMedia_tag c msg : tagged d c -> calls in_tag (resolveIntegrationMedia s c msg).
Proof. tag_calls resolveIntegrationMedia. Qed.
#[local] Hint Resolve publishConversation_tag emitRuleEvent_tag integrationContact_tag
  integrationAgent_tag resolveIntegrationMedia_tag : calls.
Lemma emitMessageWebhook_tag c conv msg event :
  tagged d c -> calls in_tag (emitMessageWebhook s c conv msg event).
Proof. intros. unfold emitMessageWebhook, EmitLazy. repeat tag_step. Qed.
Lemma emitConversationWebhook_tag c conv event :
  tagged d c -> calls in_tag (emitConversationWebhook s c conv event).
Proof. intros. unfold emitConversationWebhook, EmitLazy. repeat tag_step. Qed.
Lemma hydrateMessages_tag c msgs : tagged d c -> calls in_tag (hydrateMessages s c msgs).
Proof. tag_calls hydrateMessages. Qed.
Lemma PublishAll_tag c events : tagged d c -> calls in_tag (PublishAll s c events).
Proof. tag_calls PublishAll. Qed.
#[local] Hint Resolve emitMessageWebhook_tag emitConversationWebhook_tag hydrateMessages_tag
  PublishAll_tag : calls.
Lemma hydrateMessage_tag c msg : tagged d c -> calls in_tag (hydrateMessage s c msg).
Proof. tag_calls hydrateMessage. Qed.
#[local] Hint Resolve hydrateMessage_tag : calls.
Lemma persistMessage_tag c conv msg event :
  tagged d c -> calls in_tag (persistMessage s c conv msg event).
Proof.
  intros Hc. unfold persistMessage. repeat tag_step.
  apply emitRuleEvent_tag. case_match; [by apply tagged_again|done].
Qed.
Lemma automationMutate_tag c id mutate :
  tagged d c -> (forall conv, calls in_tag (mutate conv)) -> calls in_tag (automationMutate s c id mutate).
Proof. intros Hc Hm. unfold automationMutate. repeat tag_step; try apply Hm. Qed.
Lemma ensureAgentExists_tag c id : tagged d c -> calls in_tag (ensureAgentExists s c id).
Proof. tag_calls ensureAgentExists. Qed.
#[local] Hint Resolve persistMessage_tag ensureAgentExists_tag : calls.

Ltac mutate_tag f := intros; unfold f; apply automationMutate_tag; [assumption|intros ?; repeat tag_step].

Lemma SendAutomationMessage_tag c id rule text :
  tagged d c -> calls in_tag (SendAutomationMessage s c id rule text).
Proof. tag_calls SendAutomationMessage. Qed.
Lemma SendAutomationAttachment_tag c id rule att :
  tagged d c -> calls in_tag (SendAutomationAttachment s c id rule att).
Proof. tag_calls SendAutomationAttachment. Qed.
Lemma SendAutomationInteractive_tag c id rule json :
  tagged d c -> calls in_tag (SendAutomationInteractive s c id rule json).
Proof. tag_calls SendAutomationInteractive. Qed.
Lemma AutomationAssignAgent_tag c id a : tagged d c -> calls in_tag (AutomationAssignAgent s c id a).
Proof. mutate_tag AutomationAssignAgent. Qed.
Lemma AutomationAssignTeam_tag c id a : tagged d c -> calls in_tag (AutomationAssignTeam s c id a).
Proof. mutate_tag AutomationAssignTeam. Qed.
Lemma AutomationRemoveAgent_tag c id : tagged d c -> calls in_tag (AutomationRemoveAgent s c id).
Proof. mutate_tag AutomationRemoveAgent. Qed.
Lemma AutomationRemoveTeam_tag c id : tagged d c -> calls in_tag (AutomationRemoveTeam s c id).
Proof. mutate_tag AutomationRemoveTeam. Qed.
Lemma AutomationAddTag_tag c id t : tagged d c -> calls in_tag (AutomationAddTag s c id t).
Proof. mutate_tag AutomationAddTag. Qed.
Lemma AutomationRemoveTag_tag c id t : tagged d c -> calls in_tag (AutomationRemoveTag s c id t).
Proof. mutate_tag AutomationRemoveTag. Qed.
Lemma AutomationChangePriority_tag c id p : tagged d c -> calls in_tag (AutomationChangePriority s c id p).
Proof. mutate_tag AutomationChangePriority. Qed.
Lemma AutomationResolve_tag c id : tagged d c -> calls in_tag (AutomationResolve s c id).
Proof. mutate_tag AutomationResolve. Qed.
Lemma AutomationOpen_tag c id : tagged d c -> calls in_tag (AutomationOpen s c id).
Proof. mutate_tag AutomationOpen. Qed.
Lemma AutomationMarkPending_tag c id : tagged d c -> calls in_tag (AutomationMarkPending s c id).
Proof. mutate_tag AutomationMarkPending. Qed.
End Tagged.

#[export] Hint Resolve tagged_run SendAutomationMessage_tag SendAutomationAttachment_tag
  SendAutomationInteractive_tag AutomationAssignAgent_tag AutomationAssignTeam_tag
  AutomationRemoveAgent_tag AutomationRemoveTeam_tag AutomationAddTag_tag AutomationRemoveTag_tag
  AutomationChangePriority_tag AutomationResolve_tag AutomationOpen_tag
  AutomationMarkPending_tag : calls.

(** The calls of an evaluation that change something beyond its log carry the tag. *)
Definition effects_tagged (d : Z) (R : Type) (c : Ctx) (e : RulePort R) : Prop :=
  match e with
  | RuInfra (EmitRuleEvent _ _ _ _) | RuConvService _ | RuEmitTo _ _ _ _ | RuMoveDealStage _ _ _ =>
      tagged d c
  | _ => True
  end.

Section Executor.
Context (s : Service) (has_conv has_deals has_budget : bool) (quote : string -> string).

Lemma lift_calls d {A} (m : prog Ctx ConvPort A) :
  calls (in_tag d) m -> calls (effects_tagged d) (lift (@RuConvService) m).
Proof. induction m as [a|R c e k IH]; cbn; [done|]. intros [He Hk]. split; [exact He|auto]. Qed.

Lemma requireConv_tag d m : calls (in_tag d) m -> calls (effects_tagged d) (requireConv has_conv m).
Proof. intros Hm. unfold requireConv. case_match; [by apply lift_calls|done]. Qed.

Lemma checkBudget_tag d c conv : calls (effects_tagged d) (checkBudget has_budget c conv).
Proof. unfold checkBudget. repeat calls_step ltac:(exact I). Qed.

Lemma Run_tag c a ac :
  calls (effects_tagged (ax_Depth ac + 1)) (Run s has_conv has_deals has_budget quote c a ac).
Proof.
  unfold Run. cbn zeta.
  repeat (case_match; [first
    [ by split
    | apply requireConv_tag; by eauto with calls
    | apply calls_bind_ok; [apply checkBudget_tag|intros _; apply requireConv_tag; by eauto with calls]
    | case_match; by split ]|]).
  done.
Qed.
End Executor.

Section Evaluation.
Context (lower : Z -> Z) (decode : string -> triggerMessage) (has_dedup : bool).
Context (run : Ctx -> Action -> ActionContext -> UM (result unit)).
Hypothesis (Hrun : forall c a ac, calls (effects_tagged (ax_Depth ac + 1)) (run c a ac)).

Ltac eval_step := calls_step ltac:(exact I).

Lemma logRow_tag d c task id ev ty st sm : calls (effects_tagged d) (logRow c task id ev ty st sm).
Proof. unfold logRow. repeat eval_step. Qed.
#[local] Hint Resolve logRow_tag : calls.

Lemma hydrate_tag d c id tm : calls (effects_tagged d) (hydrate c id tm).
Proof. unfold hydrate. repeat eval_step. Qed.

Lemma fireIfLive_tag c task live rule :
  calls (effects_tagged (et_Depth task + 1)) (fireIfLive lower run has_dedup c task live rule).
Proof. unfold fireIfLive, fire. repeat eval_step. exact (Hrun c _ (actionContext task rule)). Qed.

Lemma rulesFor_tag d c events : calls (effects_tagged d) (rulesFor c events).
Proof. induction events as [|e es IH]; cbn [rulesFor]; repeat eval_step. Qed.
#[local] Hint Resolve hydrate_tag fireIfLive_tag rulesFor_tag : calls.

Lemma Evaluate_tag c task :
  calls (effects_tagged (et_Depth task + 1)) (Evaluate lower decode run has_dedup c task).
Proof. unfold Evaluate, evaluateLive, unlessMissing. repeat eval_step. Qed.
End Evaluation.

(** The rule event a call emits. *)
Definition emitted {R} (e : RulePort R) : option (string * string * string * Payload) :=
  match e with
  | RuInfra (EmitRuleEvent t ev conv p) | RuConvService (PInfra (EmitRuleEvent t ev conv p)) =>
      Some (t, ev, conv, p)
  | _ => None
  end.

(** ** What an evaluation may run *)

(** The evaluator's own ports, with the action runner as one more call. *)
Inductive EvalPort : Type -> Type :=
| EvRules {R} (e : RulePort R) : EvalPort R
| EvAction (a : Action) (ac : ActionContext) : EvalPort (result unit).

#[export] Instance eval_rules : Embed RulePort EvalPort := fun R e => EvRules e.

Definition port_run (c : Ctx) (a : Action) (ac : ActionContext) : prog Ctx EvalPort (result unit) :=
  call c (EvAction a ac).

(** What an evaluation has read and claimed. *)
Record EvalView := mkEvalView {
  vw_rules : list AutomationRule;                 (* listed *)
  vw_conv : option (Conversation * string);       (* last read, with its contact's phone *)
  vw_granted : gset string                        (* claims granted *)
}.

Definition no_view : EvalView := mkEvalView [] None ∅.

(** What conditions are tested against. *)
Definition context_of (conv : Conversation) (phone : string) (tm : triggerMessage) : EvalContext :=
  mkEvalContext (cv_Status conv) (cv_Channel conv) (cv_AssignedTo conv) (cv_SectorID conv)
    (cv_QueueID conv) (cv_Priority conv) (cv_Tags conv) phone (tg_Text tm) (tg_InteractiveReplyID tm).

Section Justified.
Context (lower : Z -> Z) (decode : string -> triggerMessage) (has_dedup : bool).
Context (task : EvaluateTask) (K : gset string).

Let tm := triggerMessageFrom decode task.
Definition claim (rule : AutomationRule) : string :=
  dedupKey (et_TenantID task) (ar_ID rule) (et_EventID task).

(** The rule is enabled, of an event of the task, and matches the conversation as it
    was last read. *)
Definition live_rule (g : EvalView) (rule : AutomationRule) : Prop :=
  rule ∈ vw_rules g /\ ar_Enabled rule = true /\ ar_Event rule ∈ applicableRuleEvents task tm /\
  exists conv phone, vw_conv g = Some (conv, phone) /\
    Matches lower rule (context_of conv phone tm) = true.

Definition eval_pre (R : Type) (c : Ctx) (e : EvalPort R) (g : EvalView) : Prop :=
  match e with
  | EvAction a ac =>
      et_Origin task <> OriginAutomation /\ et_Depth task <= maxDepth /\
      ctx_tenant c = Some (et_TenantID task) /\
      exists rule, live_rule g rule /\ a ∈ ar_Actions rule /\ ac = actionContext task rule /\
        (has_dedup = true -> claim rule ∈ vw_granted g /\ claim rule ∉ K)
  | EvRules (RuRepo (RuleCreate _ | RuleUpdate _ | RuleDelete _)) => False
  | EvRules (RuConvs (ConvCreate _ | ConvUpdate _)) => False
  | EvRules (RuConvService _) => False
  | _ => True
  end.

(** The repository lists enabled rules of the event; a claim of [K] is refused; one
    that is granted, or that the deduper fails to answer, is granted. *)
Definition eval_post (R : Type) (c : Ctx) (e : EvalPort R) (g : EvalView) (r : R) (g' : EvalView)
  : Prop :=
  match e in EvalPort R return R -> Prop with
  | EvAction _ _ => fun _ => g' = g
  | EvRules e =>
      match e in RulePort R return R -> Prop with
      | RuRepo e =>
          match e in RuleRepo R return R -> Prop with
          | RuleListEnabledByEvent ev => fun r => match r with
              | Ok rs => Forall (fun r => ar_Enabled r = true /\ ar_Event r = ev) rs /\
                         g' = mkEvalView (vw_rules g ++ rs) (vw_conv g) (vw_granted g)
              | Err _ => g' = g end
          | _ => fun _ => g' = g
          end
      | RuConvs e =>
          match e in ConvRepo R return R -> Prop with
          | ConvFindByID id => fun r => match r with
              | Ok conv => g' = mkEvalView (vw_rules g) (Some (conv, "")) (vw_granted g)
              | Err _ => g' = g end
          | _ => fun _ => g' = g
          end
      | RuContactPhone _ => fun r =>
          g' = mkEvalView (vw_rules g)
                 (match vw_conv g with
                  | Some (conv, _) => Some (conv, match r with Ok (Some p) => p | _ => "" end)
                  | None => None end) (vw_granted g)
      | RuDedup k => fun r =>
          (k ∈ K -> r = Ok false) /\
          g' = match r with
               | Ok false => g
               | _ => mkEvalView (vw_rules g) (vw_conv g) ({[k]} ∪ vw_granted g)
               end
      | _ => fun _ => g' = g
      end
  end r.

Definition eval_contract : contract Ctx EvalPort EvalView := pre_post eval_pre eval_post.

Let T := eval_contract.
#[local] Instance eval_mono : Monotone T.
Proof. apply pre_post_mono. Qed.

(** Calls that read nothing of interest. *)
Definition idle_call (R : Type) (c : Ctx) (e : EvalPort R) : Prop :=
  match e with
  | EvRules (RuInfra _) | EvRules (RuRepo (LogCreate _)) => True
  | _ => False
  end.

Lemma idle_inert : inert_in eval_pre eval_post idle_call.
Proof.
  split; intros R c e g; destruct e as [R e|]; try done; destruct e as [? e|? e|? e|? e| | | | | | | |];
    try done; by destruct e.
Qed.

Lemma logRow_wp c id ev ty st sm (Q : unit -> EvalView -> Prop) g :
  Q tt g -> wp T (logRow c task id ev ty st sm) Q g.
Proof.
  intros HQ. eapply wp_inert; [apply idle_inert|unfold logRow; repeat calls_step ltac:(exact I)|].
  by intros [].
Qed.

Lemma hydrate_wp c id (Q : result EvalContext -> EvalView -> Prop) g :
  (forall e, Q (Err e) g) ->
  (forall conv phone, Q (Ok (context_of conv phone tm))
     (mkEvalView (vw_rules g) (Some (conv, phone)) (vw_granted g))) ->
  wp T (hydrate c id tm) Q g.
Proof.
  intros Herr Hok. unfold hydrate. apply wp_bind_ok; [apply _|]. split; [done|].
  intros [conv|e] g' Hg; cbn in Hg; subst g'; cbn [wp]; [|apply Herr].
  apply wp_bind; [apply _|]. case_match; [|apply (Hok conv "")].
  apply wp_bind; [apply _|]. split; [done|]. intros r g' Hg; cbn in Hg; subst g'. cbn [wp].
  apply Hok.
Qed.

Lemma rulesFor_wp c events (Q : result (list AutomationRule) -> EvalView -> Prop) g :
  (forall e g', Q (Err e) g') ->
  (forall rs g', (forall r, r ∈ rs -> ar_Enabled r = true /\ ar_Event r ∈ events /\ r ∈ vw_rules g') ->
     (forall r, r ∈ vw_rules g -> r ∈ vw_rules g') -> Q (Ok rs) g') ->
  wp T (rulesFor c events) Q g.
Proof.
  revert Q g. induction events as [|ev events IH]; intros Q g Herr Hok; cbn [rulesFor].
  { apply Hok; [by intros r ?%elem_of_nil|done]. }
  apply wp_bind_ok; [apply _|]. split; [done|].
  intros [rs|e] g' Hg; cbn in Hg; cbn [wp]; [|apply Herr]. destruct Hg as [Hrs ->].
  apply wp_bind_ok; [apply _|]. apply IH; [intros; apply Herr|].
  intros rest g' Hrest Hsub. cbn [wp]. apply Hok.
  - rewrite Forall_forall in Hrs. intros r [Hr|Hr]%elem_of_app.
    + destruct (Hrs r Hr) as [He Hev]. split_and!; [done|rewrite Hev; by left|].
      apply Hsub, elem_of_app. by right.
    + destruct (Hrest r Hr) as (? & ? & ?). split_and!; [done|by right|done].
  - intros r Hr. apply Hsub, elem_of_app. by left.
Qed.

Section Firing.
Context (c0 : Ctx).
Hypothesis (Horigin : et_Origin task <> OriginAutomation) (Hdepth : et_Depth task <= maxDepth).
Let c := WithTenant c0 (et_TenantID task).

Lemma fire_wp rule g (I : EvalView -> Prop) :
  live_rule g rule -> I g ->
  (has_dedup = true -> claim rule ∈ vw_granted g /\ claim rule ∉ K) ->
  wp T (fire port_run c task rule) (fun _ => I) g.
Proof.
  intros Hlive HI Hclaim. unfold fire. apply wp_for_each with (I := fun g' => g' = g);
    [apply _| |by intros ? ->|done].
  intros a ? Ha ->. apply wp_bind; [apply _|]. split.
  - split_and!; [done|done|done|]. exists rule. by split_and!.
  - intros r g' Hg; cbn in Hg; subst g'. cbn [wp]. destruct (classify r). by apply logRow_wp.
Qed.

(** While the matched rules are gone through. *)
Definition scanning (matched : list AutomationRule) (conv : Conversation) (phone : string)
    (g : EvalView) : Prop :=
  vw_conv g = Some (conv, phone) /\
  forall r, r ∈ matched -> r ∈ vw_rules g /\ ar_Enabled r = true /\
                           ar_Event r ∈ applicableRuleEvents task tm.

Lemma fireIfLive_wp matched conv phone rule g :
  rule ∈ matched -> scanning matched conv phone g ->
  wp T (fireIfLive lower port_run has_dedup c task (context_of conv phone tm) rule)
    (fun _ => scanning matched conv phone) g.
Proof.
  intros Hin [Hconv Hrules]. unfold fireIfLive. case_match eqn:Hm; [by apply logRow_wp|].
  apply negb_false_iff in Hm. destruct (Hrules rule Hin) as (? & ? & ?).
  assert (forall g, vw_conv g = Some (conv, phone) -> rule ∈ vw_rules g -> live_rule g rule) as Hlive.
  { intros g' ? ?. split_and!; try done. by exists conv, phone. }
  apply wp_bind; [apply _|]. destruct has_dedup eqn:Hd.
  - apply wp_bind; [apply _|]. split; [done|].
    intros r g' Hg; cbn in Hg. destruct Hg as [Hk ->]. cbn [wp].
    destruct r as [[|]|e]; cbn [negb]; [|by apply logRow_wp|];
      (apply fire_wp; [by apply Hlive|by split|intros _; cbn; split; [set_solver|]];
       by intros ?%Hk).
  - cbn [wp negb]. apply fire_wp; [by apply Hlive|by split|congruence].
Qed.

Lemma evaluateLive_wp matched g :
  (forall r, r ∈ matched -> r ∈ vw_rules g /\ ar_Enabled r = true /\
                            ar_Event r ∈ applicableRuleEvents task tm) ->
  wp T (evaluateLive lower port_run has_dedup c task tm matched) (fun _ _ => True) g.
Proof.
  intros Hm. unfold evaluateLive. apply wp_bind; [apply _|]. apply hydrate_wp.
  - intros e. unfold unlessMissing. by case_match.
  - intros conv phone. cbn [unlessMissing]. apply wp_bind; [apply _|].
    apply wp_for_each with (I := scanning matched conv phone); [apply _| |done|by split].
    intros rule g' Hin Hg. by apply fireIfLive_wp.
Qed.
End Firing.

Lemma Evaluate_wp c :
  wp T (Evaluate lower decode port_run has_dedup c task) (fun _ _ => True) no_view.
Proof.
  unfold Evaluate. case_match eqn:Ho; [done|]. case_match eqn:Hd; [done|]. prop_bools.
  fold tm. cbn zeta. case_match; [done|].
  apply wp_bind_ok; [apply _|]. apply rulesFor_wp; [done|]. intros rs g Hrs _.
  case_match; [done|]. apply wp_bind; [apply _|]. apply hydrate_wp.
  { intros e. unfold unlessMissing. by case_match. }
  intros conv phone. cbn [unlessMissing].
  set (matched := sortRules _). case_match; [done|].
  assert (forall r, r ∈ matched -> r ∈ rs) as Hmatched.
  { intros r Hr. unfold matched, sortRules in Hr. rewrite stable_sort_perm in Hr.
    by apply list_elem_of_filter in Hr as [_ ?]. }
  apply wp_bind; [apply _|]. split; [done|]. intros got g' Hg; cbn in Hg; subst g'. cbn [wp].
  apply wp_bind; [apply _|]. eapply wp_mono; [apply _| |apply evaluateLive_wp; [done|done|]].
  - intros res g' _. apply wp_bind; [apply _|]. destruct got as [[lease b]|e]; [|done].
    split; [done|]. by intros [] g'' _.
  - cbn. intros r Hr. destruct (Hrs r (Hmatched r Hr)) as (? & ? & ?). by split_and!.
Qed.
End Justified.

(** ** The order of firing *)

Lemma rule_less_asym a b : rule_less a b = true -> rule_less b a = false.
Proof.
  unfold rule_less. rewrite (Z.eqb_sym (ar_Priority b)), (Z.eqb_sym (ar_CreatedAt b)).
  destruct (ar_Priority a =? ar_Priority b), (ar_CreatedAt a =? ar_CreatedAt b); cbn; try lia.
  apply string_less_asym.
Qed.

Lemma rule_less_negtrans a b d :
  rule_less a b = false -> rule_less b d = false -> rule_less a d = false.
Proof.
  unfold rule_less.
  destruct (ar_Priority a =? ar_Priority b) eqn:?, (ar_Priority b =? ar_Priority d) eqn:?,
    (ar_Priority a =? ar_Priority d) eqn:?; cbn; try lia;
  destruct (ar_CreatedAt a =? ar_CreatedAt b) eqn:?, (ar_CreatedAt b =? ar_CreatedAt d) eqn:?,
    (ar_CreatedAt a =? ar_CreatedAt d) eqn:?; cbn; try lia.
  apply string_less_negtrans.
Qed.

Lemma rule_less_total a b : rule_less a b = false -> rule_less b a = false -> ar_ID a = ar_ID b.
Proof.
  unfold rule_less. rewrite (Z.eqb_sym (ar_Priority b)), (Z.eqb_sym (ar_CreatedAt b)).
  destruct (ar_Priority a =? ar_Priority b) eqn:?, (ar_CreatedAt a =? ar_CreatedAt b) eqn:?; cbn; try lia.
  apply string_less_total.
Qed.

Lemma sortRules_sorted rs : StronglySorted (not_greater rule_less) (sortRules rs).
Proof. apply stable_sort_sorted; [apply rule_less_asym|apply rule_less_negtrans]. Qed.

(** ** The world of retries *)

Definition dedups_or_acts {R} (e : EvalPort R) : bool :=
  match e with EvRules (RuDedup _) | EvAction _ _ => true | _ => false end.

(** What a world with a deduper shows: the claims it holds, the rules whose actions ran, and the
    claims asked for while the deduper could not be reached. *)
Record Firings := mkFirings {
  fi_claimed : gset string; fi_acted : list (string * string); fi_outages : list string }.

(** The deduper (infra/automationrules/deduper.go) refuses a claim that is held and grants one
    that is not; when Redis errs it lets the firing through, with the claim taken or not. *)
Definition dedup_answers (k : string) (g : Firings) (r : result bool) (g' : Firings) : Prop :=
  fi_acted g' = fi_acted g /\
  (r = Ok false /\ k ∈ fi_claimed g /\ fi_claimed g' = fi_claimed g /\ fi_outages g' = fi_outages g \/
   r = Ok true /\ k ∉ fi_claimed g /\ fi_claimed g' = {[k]} ∪ fi_claimed g /\ fi_outages g' = fi_outages g \/
   r <> Ok false /\ (fi_claimed g' = fi_claimed g \/ fi_claimed g' = {[k]} ∪ fi_claimed g) /\
   fi_outages g' = fi_outages g ++ [k]).

(** A world with such a deduper, seen through [shown]. *)
Class DedupWorld {S} (h : handler Ctx EvalPort S) (shown : S -> Firings) : Prop := {
  dw_dedup : forall c k s,
    let '(r, s') := h _ c (EvRules (RuDedup k)) s in dedup_answers k (shown s) r (shown s');
  dw_action : forall c a ac s,
    shown (h _ c (EvAction a ac) s).2 =
      mkFirings (fi_claimed (shown s)) (fi_acted (shown s) ++ [(ax_TenantID ac, ax_RuleID ac)]) (fi_outages (shown s));
  dw_frame : forall R c (e : EvalPort R) s, dedups_or_acts e = false -> shown (h R c e s).2 = shown s;
}.

Definition firing_post (R : Type) (c : Ctx) (e : EvalPort R) (g : Firings) (r : R) (g' : Firings)
  : Prop :=
  match e in EvalPort R return R -> Prop with
  | EvAction a ac => fun _ =>
      g' = mkFirings (fi_claimed g) (fi_acted g ++ [(ax_TenantID ac, ax_RuleID ac)]) (fi_outages g)
  | EvRules e =>
      match e in RulePort R return R -> Prop with
      | RuDedup k => fun r => dedup_answers k g r g'
      | _ => fun _ => g' = g
      end
  end r.

Definition firing_contract : contract Ctx EvalPort Firings :=
  pre_post (fun _ _ _ _ => True) firing_post.

Lemma dedup_world_firings {S} (h : handler Ctx EvalPort S) shown `{!DedupWorld h shown} {R} c (e : EvalPort R) P s :
  firing_contract R c e P (shown s) -> let '(r, s') := h R c e s in P r (shown s').
Proof.
  intros [_ HP]. destruct (h R c e s) as [r s'] eqn:Hh. apply HP. clear HP P.
  pose proof (dw_frame R c e s) as Hframe. rewrite Hh in Hframe. cbn in Hframe.
  destruct e as [R e|a ac].
  - destruct e; cbn; try (by apply Hframe).
    pose proof (dw_dedup c key s) as Hd. by rewrite Hh in Hd.
  - pose proof (dw_action c a ac s) as Ha. by rewrite Hh in Ha.
Qed.

Section Retries.
Context (lower : Z -> Z) (decode : string -> triggerMessage) (task : EvaluateTask).

Let T := firing_contract.
#[local] Instance firing_mono : Monotone T.
Proof. apply pre_post_mono. Qed.

(** The actions of a rule of the task run so far. *)
Definition runs_of (rid : string) (acted : list (string * string)) : list (string * string) :=
  filter (fun p => p = (et_TenantID task, rid)) acted.

Definition claim_of (rid : string) : string := dedupKey (et_TenantID task) rid (et_EventID task).

(** Since [g0]: no claim was lost, and a rule whose actions ran was claimed since, or let through
    by one of the [outages] since. *)
Definition fired_with (outages : list string) (g0 g : Firings) : Prop :=
  fi_claimed g0 ⊆ fi_claimed g /\ fi_outages g = fi_outages g0 ++ outages /\
  forall rid, runs_of rid (fi_acted g) = runs_of rid (fi_acted g0) \/
              claim_of rid ∉ fi_claimed g0 /\ claim_of rid ∈ fi_claimed g \/ claim_of rid ∈ outages.
Definition fired_claimed (g0 g : Firings) : Prop := exists outages, fired_with outages g0 g.

Lemma fired_refl g : fired_claimed g g.
Proof. exists []. split_and!; [done|by rewrite app_nil_r|by left]. Qed.

Definition harmless (R : Type) (c : Ctx) (e : EvalPort R) : Prop := dedups_or_acts e = false.

Lemma harmless_inert : inert_in (fun _ _ _ _ => True) firing_post harmless.
Proof.
  split; [done|]. intros R c e g r g'. unfold harmless.
  destruct e as [R e|]; [|done]. by destruct e.
Qed.

Ltac harmless_step := calls_step ltac:(reflexivity).

Lemma logRow_harmless c id ev ty st sm : calls harmless (logRow c task id ev ty st sm).
Proof. unfold logRow. repeat harmless_step. Qed.
Lemma hydrate_harmless c id tm : calls harmless (hydrate c id tm).
Proof. unfold hydrate. repeat harmless_step. Qed.
Lemma rulesFor_harmless c events : calls harmless (rulesFor c events).
Proof. induction events as [|e es IH]; cbn [rulesFor]; repeat harmless_step. Qed.

(** A harmless program keeps what is known of the world. *)
Lemma harmless_wp {A} (m : prog Ctx EvalPort A) (Q : A -> Firings -> Prop) g :
  calls harmless m -> (forall a, Q a g) -> wp T m Q g.
Proof. intros Hm HQ. by eapply wp_inert; [apply harmless_inert|exact Hm|]. Qed.

(** The actions of a rule just claimed, or let through. *)
Lemma fire_retry c rule outages g0 g :
  fired_with outages g0 g ->
  (claim_of (ar_ID rule) ∉ fi_claimed g0 /\ claim_of (ar_ID rule) ∈ fi_claimed g \/ claim_of (ar_ID rule) ∈ outages) ->
  wp T (fire port_run c task rule) (fun _ => fired_claimed g0) g.
Proof.
  intros Hg Hin. unfold fire.
  apply wp_for_each with (I := fun g' => fired_with outages g0 g' /\ fi_claimed g' = fi_claimed g);
    [apply _| |by intros ? [? _]; exists outages|done].
  intros a g' _ [(Hsub & Ho & Hf) Hc]. apply wp_bind; [apply _|]. split; [done|].
  intros r g'' Hg'; cbn in Hg'; subst g''. cbn [wp]. destruct (classify r).
  apply harmless_wp; [apply logRow_harmless|]. intros _. split; [|done]. split_and!; [done..|].
  intros rid. cbn. unfold runs_of. rewrite filter_app, filter_cons, filter_nil.
  case_decide as Heq; [injection Heq as <-; right; by rewrite Hc|]. rewrite app_nil_r. apply Hf.
Qed.

(** What the answer of the deduper leaves known. *)
Lemma dedup_keeps rid g0 g r g' :
  fired_claimed g0 g -> dedup_answers (claim_of rid) g r g' ->
  (r = Ok false /\ fired_claimed g0 g') \/
  r <> Ok false /\ exists outages, fired_with outages g0 g' /\
    (claim_of rid ∉ fi_claimed g0 /\ claim_of rid ∈ fi_claimed g' \/ claim_of rid ∈ outages).
Proof.
  intros (l & Hsub & Ho & Hf) [Ha Hr]. destruct Hr as [(-> & Hk & Hc & Hl)|[(-> & Hk & Hc & Hl)|(Hr & Hc & Hl)]].
  - left. split; [done|]. exists l. unfold fired_with. by rewrite Ha, Hc, Hl.
  - right. split; [done|]. exists l. unfold fired_with. rewrite Ha, Hc, Hl. split_and!; [set_solver|done| |set_solver].
    intros rid'. specialize (Hf rid'). set_solver.
  - right. split; [done|]. exists (l ++ [claim_of rid]). unfold fired_with. rewrite Ha, Hl, Ho, app_assoc.
    split_and!; [set_solver|done| |set_solver]. intros rid'. specialize (Hf rid'). set_solver.
Qed.

Lemma fireIfLive_retry c live rule g0 g :
  fired_claimed g0 g -> wp T (fireIfLive lower port_run true c task live rule) (fun _ => fired_claimed g0) g.
Proof.
  intros Hg. unfold fireIfLive. case_match; [by apply harmless_wp; [apply logRow_harmless|]|].
  apply wp_bind; [apply _|]. apply wp_bind; [apply _|]. split; [done|].
  intros r g' Hd. destruct (dedup_keeps _ _ _ _ _ Hg Hd) as [[-> Hg']|(Hr & outages & Hg' & Hin)]; cbn [wp negb].
  - by apply harmless_wp; [apply logRow_harmless|].
  - destruct r as [[|]|e]; [|done|]; by eapply fire_retry.
Qed.

Lemma Evaluate_retry c g : wp T (Evaluate lower decode port_run true c task) (fun _ => fired_claimed g) g.
Proof.
  pose proof (fired_refl g) as Hg.
  unfold Evaluate. do 2 (case_match; [done|]). cbn zeta. case_match; [done|].
  apply wp_bind_ok; [apply _|]. apply harmless_wp; [apply rulesFor_harmless|].
  intros [rs|e]; [|done]. case_match; [done|].
  apply wp_bind; [apply _|]. apply harmless_wp; [apply hydrate_harmless|].
  intros [ec|e]; unfold unlessMissing; [|by case_match]. case_match; [done|].
  apply wp_bind; [apply _|]. apply harmless_wp; [by split|]. intros got.
  apply wp_bind; [apply _|].
  apply wp_mono with (P := fun _ => fired_claimed g); [apply _| |].
  - intros res g' Hg'. apply wp_bind; [apply _|].
    apply harmless_wp; [destruct got as [[lease b]|e]; by repeat harmless_step|done].
  - unfold evaluateLive. apply wp_bind; [apply _|]. apply harmless_wp; [apply hydrate_harmless|].
    intros [live|e]; unfold unlessMissing; [|by case_match].
    apply wp_bind; [apply _|]. apply wp_for_each with (I := fired_claimed g); [apply _| |done|done].
    intros rule g' _ Hg'. by apply fireIfLive_retry.
Qed.
End Retries.

(** ** What conditions mean *)

Definition substring (sub s : string) : Prop := exists a b, s = a +:+ (sub +:+ b).

Section Meaning.
Context (lower : Z -> Z).

(** The test of a condition, read without its negation. *)
Definition says (f : ConditionField) (op : ConditionOperator) (v : string) (ec : EvalContext) : Prop :=
  if decide (f = FieldTags) then v ∈ ec_Tags ec
  else if decide (f = FieldContactPhone) then
    if decide (op = OpContains) then substring v (ec_ContactPhone ec) else ec_ContactPhone ec = v
  else if decide (f = FieldMessageContent) then
    substring (to_lower lower v) (to_lower lower (ec_MessageContent ec))
  else if decide (f = FieldInteractiveReplyID) then
    if decide (op = OpContains \/ op = OpDoesNotContain) then
      ec_InteractiveReplyID ec <> "" /\
      exists item, item ∈ split_on comma v /\ trim_space item = ec_InteractiveReplyID ec
    else ec_InteractiveReplyID ec = v
  else scalarField ec f = v.

Definition negated (op : ConditionOperator) : Prop := op = OpNotEqualTo \/ op = OpDoesNotContain.

Definition holds (c : Condition) (ec : EvalContext) : Prop :=
  if decide (negated (cd_Operator c)) then ~ says (cd_Field c) (cd_Operator c) (cd_Value c) ec
  else says (cd_Field c) (cd_Operator c) (cd_Value c) ec.

Lemma containsString_spec l v : containsString l v = true <-> v ∈ l.
Proof.
  unfold containsString. rewrite existsb_exists. split.
  - intros (x & Hx & Heq). prop_bools. subst. by apply list_elem_of_In.
  - intros Hv. exists v. split; [by apply list_elem_of_In|by rewrite bool_decide_true].
Qed.

Lemma idInList_spec id csv :
  idInList id csv = true <-> id <> "" /\ exists item, item ∈ split_on comma csv /\ trim_space item = id.
Proof.
  unfold idInList. case_match eqn:E; prop_bools; [split; [done|by intros [? _]]|].
  rewrite existsb_exists. split.
  - intros (x & Hx & Heq). prop_bools. split; [done|]. exists x. by split; [apply list_elem_of_In|].
  - intros (_ & x & Hx & Heq). exists x. split; [by apply list_elem_of_In|by rewrite bool_decide_true].
Qed.

(** The allowed operators, field by field. *)
Lemma OperatorAllowed_cases f op :
  OperatorAllowed f op = true ->
  (f ∈ [FieldStatus; FieldChannel; FieldAssignedAgentID; FieldSectorID; FieldQueueID; FieldPriority] /\
     op ∈ [OpEqualTo; OpNotEqualTo]) \/
  (f ∈ [FieldTags; FieldMessageContent] /\ op ∈ [OpContains; OpDoesNotContain]) \/
  (f = FieldContactPhone /\ op ∈ [OpEqualTo; OpContains]) \/
  (f = FieldInteractiveReplyID /\ op ∈ [OpEqualTo; OpNotEqualTo; OpContains; OpDoesNotContain]).
Proof.
  unfold OperatorAllowed, OperatorsFor, allowedOperators. intros H. cbn [list_find] in H.
  repeat case_decide; subst; cbn in H;
    rewrite ?orb_false_r, ?orb_true_iff, ?bool_decide_eq_true in H; cbn; set_solver.
Qed.

Lemma negb_iff (b : bool) (P : Prop) : (b = true <-> P) -> (negb b = true <-> ~ P).
Proof. intros <-. by destruct b. Qed.

Lemma bool_decide_iff (P Q : Prop) `{!Decision P} : (P <-> Q) -> (bool_decide P = true <-> Q).
Proof. intros <-. apply bool_decide_eq_true. Qed.

Lemma cond_match_holds c ec :
  OperatorAllowed (cd_Field c) (cd_Operator c) = true -> cond_match lower c ec = true <-> holds c ec.
Proof.
  destruct c as [f op v]. cbn. unfold cond_match, holds, says, negated. cbn [cd_Field cd_Operator cd_Value].
  intros [[Hf Hop]|[[Hf Hop]|[[-> Hop]|[-> Hop]]]]%OperatorAllowed_cases;
    repeat (apply elem_of_cons in Hf as [->|Hf] || apply elem_of_nil in Hf as []);
    repeat (apply elem_of_cons in Hop as [->|Hop] || apply elem_of_nil in Hop as []);
    cbn -[substring scalarField to_lower split_on]; rewrite ?negb_true_iff;
    first [ apply bool_decide_eq_true
          | apply (negb_iff _ _ (bool_decide_eq_true _))
          | apply containsString_spec | apply (negb_iff _ _ (containsString_spec _ _))
          | apply str_contains_spec | apply (negb_iff _ _ (str_contains_spec _ _))
          | apply idInList_spec | apply (negb_iff _ _ (idInList_spec _ _)) ].
Qed.
End Meaning.

