(* ===== verification/RuleResults.v ===== *)
(** * Automation rules: the theorems

    The guarantees of the component, from the lemmas of [RuleProps.v]: no loop through
    automation, no action without a live claimed match, no second firing while Redis answers, a firing order
    that depends on the rules alone, conditions that mean what they say, and stored rules
    that are well formed. *)
From S2P Require Import Prelude GoStrings AppError Authz Shared ConvEntity Messages ConvContracts.
From S2P Require Import Prog Ports ConvBase ConvMessaging ConvLifecycle.
From S2P Require Import ConvIsolation ConvMemory Rules RuleEval RuleProps.

(** ** Stored rules *)

Section Stored.
Context (s : RuleService).

(** The parameters an action needs, by its type. *)
Definition requirements : list (ActionType * list string) :=
  [ (ActionSendWebhook, ["webhook_id"]); (ActionSendMessage, ["text"]);
    (ActionSendAttachment, ["attachment_id"]); (ActionSendInteractive, ["interactive"]);
    (ActionAssignAgent, ["agent_id"]); (ActionAssignTeam, ["sector_id"]);
    (ActionAddTag, ["tag_id"]); (ActionRemoveTag, ["tag_id"]);
    (ActionChangePriority, ["priority"]); (ActionMoveDealStage, ["pipeline_id"; "stage_id"]);
    (ActionRemoveAssignedAgent, []); (ActionRemoveAssignedTeam, []);
    (ActionResolveConversation, []); (ActionOpenConversation, []); (ActionMarkPending, []) ].

Definition provided (a : Action) (key : string) : Prop :=
  trim_space (Param a key) <> "" /\
  (key = "priority" -> trim_space (Param a key) ∈ ["low"; "normal"; "high"; "urgent"]) /\
  (key = "interactive" -> json_object s (Param a key) = true).

Definition well_formed_action (a : Action) : Prop :=
  exists needs, (at_Type a, needs) ∈ requirements /\ Forall (provided a) needs.

Definition well_formed_condition (c : Condition) : Prop :=
  OperatorAllowed (cd_Field c) (cd_Operator c) = true /\ trim_space (cd_Value c) <> "".

Definition well_formed_rule (r : AutomationRule) : Prop :=
  ar_Name r <> "" /\ ar_Event r ∈ AllEvents /\ Forall well_formed_condition (ar_Conditions r) /\
  ar_Actions r <> [] /\ Forall well_formed_action (ar_Actions r).

Lemma condition_errors_empty i cs v :
  condition_errors i cs v = ∅ -> v = ∅ /\ Forall well_formed_condition cs.
Proof.
  revert i v. induction cs as [|c cs IH]; intros i v; cbn [condition_errors]; [by split|].
  destruct (OperatorsFor (cd_Field c)) as [ops|] eqn:Hops.
  - intros [Hv Hcs]%IH.
    destruct (negb (OperatorAllowed _ _)) eqn:Ho, (blank (cd_Value c)) eqn:Hb;
      try by apply insert_non_empty in Hv.
    unfold blank in Hb. prop_bools. split; [done|]. by constructor.
  - by intros [Hv%insert_non_empty _]%IH.
Qed.

(** What an answer of [validateAction] says of the action. *)
Definition judged (v : gmap string value) (good : Prop) (r : result (gmap string value)) : Prop :=
  match r with Ok v' => v' = ∅ -> v = ∅ /\ good | Err _ => True end.

Lemma judged_insert v good k x : judged v good (Ok (<[k := x]> v)).
Proof. by intros ?%insert_non_empty. Qed.

Lemma validateRef_judged c v i key kind a :
  key <> "priority" -> key <> "interactive" ->
  returns (judged v (provided a key)) (RuleSvc.validateRef s c v i key kind a).
Proof.
  intros Hp Hi. unfold RuleSvc.validateRef. cbn zeta. case_match eqn:Hb; [apply judged_insert|].
  prop_bools. assert (judged v (provided a key) (Ok v)) as Hok.
  { intros ->. split; [done|]. by split_and!. }
  case_match; [exact Hok|]. apply returns_bind_ok; [done|]. intros found.
  case_match; [apply judged_insert|exact Hok].
Qed.

Lemma provided_one a ty key :
  at_Type a = ty -> (ty, [key]) ∈ requirements -> provided a key -> well_formed_action a.
Proof. intros <- Hin Hp. exists [key]. split; [done|by apply Forall_singleton]. Qed.

Lemma judged_mono v (P Q : Prop) r : (P -> Q) -> judged v P r -> judged v Q r.
Proof. destruct r; cbn; [|done]. naive_solver. Qed.

Lemma returns_mono {C E A} (P Q : A -> Prop) (m : prog C E A) :
  (forall a, P a -> Q a) -> returns P m -> returns Q m.
Proof. intros HPQ. induction m as [a|R c e k IH]; cbn; auto. Qed.

Lemma validateMoveDealStage_judged c v i a :
  returns (judged v (provided a "pipeline_id" /\ provided a "stage_id"))
    (RuleSvc.validateMoveDealStage s c v i a).
Proof.
  unfold RuleSvc.validateMoveDealStage. cbn zeta.
  destruct (trim_space (Param a "pipeline_id") =! "") eqn:Hp,
    (trim_space (Param a "stage_id") =! "") eqn:Hs; cbn [orb];
    try by intros ?%insert_non_empty.
  prop_bools.
  assert (judged v (provided a "pipeline_id" /\ provided a "stage_id") (Ok v)) as Hok.
  { intros ->. by split_and!. }
  case_match; [exact Hok|]. apply returns_bind_ok; [done|]. intros found.
  case_match; [apply judged_insert|exact Hok].
Qed.

Lemma priority_provided a :
  validPriority (trim_space (Param a "priority")) = true -> provided a "priority".
Proof.
  unfold validPriority. rewrite existsb_exists. intros (p & Hp%list_elem_of_In & Heq). prop_bools.
  subst p. split_and!; [|done|done]. intros He. rewrite He in Hp. set_solver.
Qed.

(** A test on the type of the action: its branch, then the rest. *)
Ltac on_type Hty := case_match eqn:Hty; [prop_bools|clear Hty].

Ltac required key :=
  apply (provided_one _ _ key eq_refl);
  [match goal with H : at_Type _ = _ |- _ => rewrite H end; apply list_elem_of_In; cbn; tauto|].

Lemma bare_action a : (at_Type a, []) ∈ requirements -> well_formed_action a.
Proof. intros Hin. by exists []. Qed.

Lemma validateAction_judged c v i a :
  returns (judged v (well_formed_action a)) (RuleSvc.validateAction s c v i a).
Proof.
  assert (forall key kind, key <> "priority" -> key <> "interactive" ->
    (at_Type a, [key]) ∈ requirements ->
    returns (judged v (well_formed_action a)) (RuleSvc.validateRef s c v i key kind a)) as Href.
  { intros key kind Hp Hi Hin. eapply returns_mono; [|by apply validateRef_judged].
    intros r. apply judged_mono. by apply (provided_one _ _ key eq_refl). }
  unfold RuleSvc.validateAction. cbn zeta.
  on_type Hty.
  { case_match; [apply judged_insert|]. prop_bools. apply returns_bind_any. intros [u|e].
    - intros ->. split; [done|]. required "webhook_id". by split_and!.
    - case_match; [apply judged_insert|done]. }
  on_type Hty.
  { case_match eqn:Hb; [apply judged_insert|]. unfold blank in Hb. prop_bools.
    intros ->. split; [done|]. required "text". by split_and!. }
  on_type Hty; [apply Href; [done|done|rewrite Hty; by repeat (left || right)]|].
  on_type Hty.
  { unfold RuleSvc.validateInteractiveParam, blank.
    destruct (trim_space (Param a "interactive") =! "") eqn:Hb; [apply judged_insert|].
    destruct (negb (json_object s _)) eqn:Hj; [apply judged_insert|]. prop_bools.
    change (judged v (well_formed_action a) (Ok v)).
    intros ->. split; [done|]. required "interactive". by split_and!. }
  on_type Hty; [apply Href; [done|done|rewrite Hty; by repeat (left || right)]|].
  on_type Hty; [apply Href; [done|done|rewrite Hty; by repeat (left || right)]|].
  case_match eqn:Hty.
  { apply Href; [done|done|]. rewrite orb_true_iff, !bool_decide_eq_true in Hty.
    apply list_elem_of_In. destruct Hty as [-> | ->]; cbn; tauto. }
  clear Hty. on_type Hty.
  { case_match eqn:Hp; [apply judged_insert|]. prop_bools.
    intros ->. split; [done|]. required "priority". by apply priority_provided. }
  on_type Hty.
  { eapply returns_mono; [|by apply validateMoveDealStage_judged]. intros r. apply judged_mono.
    intros [Hp Hst]. exists ["pipeline_id"; "stage_id"]. split; [|by rewrite Forall_cons, Forall_singleton].
    rewrite Hty. apply list_elem_of_In; cbn; tauto. }
  case_match eqn:Hty; [|apply judged_insert].
  intros ->. split; [done|]. apply bare_action. rewrite !orb_true_iff, !bool_decide_eq_true in Hty.
  apply list_elem_of_In. destruct Hty as [[[[->| ->]| ->]| ->]| ->]; cbn; tauto.
Qed.

Lemma validateActions_judged c i acts v :
  returns (judged v (Forall well_formed_action acts)) (RuleSvc.validateActions s c i acts v).
Proof.
  revert i v. induction acts as [|a acts IH]; intros i v; cbn [RuleSvc.validateActions].
  { intros ->. by split. }
  eapply returns_bind; [apply validateAction_judged|]. intros [v'|e] Hv; [|done].
  eapply returns_mono; [|apply IH]. intros [v''|e]; [|done]. cbn in *.
  intros Hr [-> Hacts]%Hr. destruct (Hv eq_refl) as [-> ?]. split; [done|]. by constructor.
Qed.

Lemma validate_judged c r :
  returns (fun res => is_ok res = true -> well_formed_rule r) (RuleSvc.validate s c r).
Proof.
  unfold RuleSvc.validate. cbn zeta.
  eapply returns_bind; [apply validateActions_judged|]. intros [v|e] Hv; [|done].
  destruct (bool_decide (v <> ∅)) eqn:He; [by intros [=]|]. intros _. prop_bools.
  destruct (decide (v = ∅)) as [->|]; [|done]. destruct (Hv eq_refl) as [Hv0 Hacts].
  case_match eqn:Hlen; [by apply insert_non_empty in Hv0|].
  apply condition_errors_empty in Hv0 as [Hv0 Hconds].
  case_match eqn:Hev; [by apply insert_non_empty in Hv0|].
  case_match eqn:Hn; [by apply insert_non_empty in Hv0|]. prop_bools.
  split_and!; [done| |done|intros Hnil; by rewrite Hnil in Hlen|done].
  unfold ValidEvent in Hev. apply existsb_exists in Hev as (x & Hx & Hxe). prop_bools. subst.
  by apply list_elem_of_In.
Qed.

(** Every rule handed to the store is well formed. *)
Definition stores_well_formed (R : Type) (c : Ctx) (e : RulePort R) : Prop :=
  match e with
  | RuRepo (RuleCreate r) | RuRepo (RuleUpdate r) => well_formed_rule r
  | _ => True
  end.

Ltac stored_step := calls_step ltac:(exact I).

Lemma validateRef_calls c v i k kd a : calls stores_well_formed (RuleSvc.validateRef s c v i k kd a).
Proof. unfold RuleSvc.validateRef. repeat stored_step. Qed.
Lemma validateMoveDealStage_calls c v i a :
  calls stores_well_formed (RuleSvc.validateMoveDealStage s c v i a).
Proof. unfold RuleSvc.validateMoveDealStage. repeat stored_step. Qed.
#[local] Hint Resolve validateRef_calls validateMoveDealStage_calls : calls.
Lemma validateActions_calls c i acts v : calls stores_well_formed (RuleSvc.validateActions s c i acts v).
Proof.
  revert i v. induction acts as [|a acts IH]; intros i v; cbn [RuleSvc.validateActions]; [done|].
  apply calls_bind_ok; [|intros; apply IH]. unfold RuleSvc.validateAction. repeat stored_step.
Qed.
#[local] Hint Resolve validateActions_calls : calls.
Lemma validate_calls c r : calls stores_well_formed (RuleSvc.validate s c r).
Proof. unfold RuleSvc.validate. repeat stored_step. Qed.

Lemma validated_calls {A} c r (k : unit -> UM (result A)) :
  (well_formed_rule r -> calls stores_well_formed (k tt)) ->
  calls stores_well_formed (bind_ok (RuleSvc.validate s c r) k).
Proof.
  intros Hk. eapply calls_bind_returns; [apply validate_calls|apply validate_judged|].
  intros [[]|e] Hr; [by apply Hk, Hr|done].
Qed.
End Stored.

(** ** A world with a deduper, for the examples

    Its Redis is down for the rule ["down"]. *)

Module EvalMemory.
Definition State : Type := Firings.

Definition conv : Conversation :=
  mkConversation "c1" "acme" "" "whatsapp" "ch1" "s1" "q1" StatusQueued "" PriorityNormal ""
    ["vip"] [] 5 None None 0 None 1 5 None.
Definition rule : AutomationRule :=
  mkRule "r1" "acme" "greet" "" EvConversationCreated true 1
    [mkCondition FieldTags OpContains "vip"]
    [mkAction ActionSendMessage {[ "text" := "hello" ]}] 1 1.
Definition down : AutomationRule :=
  mkRule "down" "acme" "greet too" "" EvConversationCreated true 2 []
    [mkAction ActionSendMessage {[ "text" := "hello" ]}] 1 1.
Definition task : EvaluateTask := mkTask "acme" "conversation.created" "c1" "" "e1" "" 0.
Definition decode : string -> triggerMessage := fun _ => no_trigger.

Definition infra {R} (e : Infra R) : R :=
  match e in Infra R return R with
  | Now => 7 | SystemNow => 7 | NewID => "id" | Publish _ _ _ => Ok tt | PublishBatch _ => Ok tt
  | WebhookMatches _ _ _ => false | WebhookDeliver _ _ _ _ => tt | EmitRuleEvent _ _ _ _ => tt
  | Notify _ => tt | AuditRecord _ => Ok tt | QueueChanged _ _ => tt
  | Acquire k _ => Ok (k, true) | Release _ => tt
  end.

Definition convs {R} (e : ConvRepo R) : R :=
  match e in ConvRepo R return R with
  | ConvCreate _ => Ok tt | ConvUpdate _ => Ok tt | ConvFindByID _ => Ok conv
  | ConvFindByIDs _ => Ok [] | ConvList _ _ _ => Ok [] | ConvUnreadCounts _ => Ok (mkUnread 0 0 0)
  | ConvListInactiveOpen _ _ => Ok []
  end.

Definition rules {R} (e : RuleRepo R) : R :=
  match e in RuleRepo R return R with
  | RuleCreate _ => Ok tt | RuleUpdate _ => Ok tt | RuleDelete _ => Ok tt
  | RuleFindByID _ => Ok rule | RuleList => Ok [rule]
  | RuleListEnabledByEvent e => Ok (if e =! ar_Event rule then [rule; down] else [])
  | RuleFindOneByWebhook _ => Ok None | LogCreate _ => Ok tt | LogListByRule _ _ => Ok []
  end.

(** The conversations service is not called by an evaluation. *)
Definition own {R} (c : Ctx) (e : RulePort R) (s : State) : R * State :=
  match e in RulePort R return R * State with
  | RuInfra e => (infra e, s) | RuRepo e => (rules e, s) | RuConvs e => (convs e, s)
  | RuConvService e => ((memory _ c e (mkMemory ∅ ∅ 0 0 [])).1, s)
  | RuWebhookFind _ => (Ok tt, s) | RuRefExists _ _ => (Ok true, s)
  | RuStageExists _ _ => (Ok true, s) | RuContactPhone _ => (Ok None, s)
  | RuDedup k =>
      if k =! dedupKey "acme" "down" "e1" then (Ok true, mkFirings (fi_claimed s) (fi_acted s) (fi_outages s ++ [k]))
      else if decide (k ∈ fi_claimed s) then (Ok false, s)
      else (Ok true, mkFirings ({[k]} ∪ fi_claimed s) (fi_acted s) (fi_outages s))
  | RuBudget _ => (Ok true, s) | RuEmitTo _ _ _ _ => (Ok tt, s) | RuMoveDealStage _ _ _ => (Ok tt, s)
  end.

Definition handle : handler Ctx EvalPort State := fun R c e s =>
  match e in EvalPort R return R * State with
  | EvRules e => own c e s
  | EvAction a ac => (Ok tt, mkFirings (fi_claimed s) (fi_acted s ++ [(ax_TenantID ac, ax_RuleID ac)]) (fi_outages s))
  end.

Definition evaluate : State -> State :=
  fun s => (run handle (Evaluate (fun r => r) decode port_run true Background task) s).2.
End EvalMemory.

#[export] Instance eval_memory_world : DedupWorld EvalMemory.handle (fun s => s).
Proof.
  split.
  - intros c k s. cbn. unfold dedup_answers. repeat case_match; cbn; naive_solver.
  - done.
  - intros R c e s He. destruct e as [R e|]; [|done]. by destruct e.
Qed.

(** The first delivery fires both rules; the second finds the claim of one, and fires the other
    again. *)
Example eval_memory_fires_once :
  let s1 := EvalMemory.evaluate (mkFirings ∅ [] []) in let s2 := EvalMemory.evaluate s1 in
  fi_acted s1 = [("acme", "r1"); ("acme", "down")] /\ fi_claimed s1 = {["rule:fired:acme:r1:e1"]} /\
  fi_acted s2 = fi_acted s1 ++ [("acme", "down")] /\ fi_claimed s2 = fi_claimed s1.
Proof. by vm_compute. Qed.

(** ** The theorems *)

Lemma NoDup_key_inj {A B} (f : A -> B) l a b :
  NoDup (map f l) -> a ∈ l -> b ∈ l -> f a = f b -> a = b.
Proof.
  intros Hnd [i Ha]%list_elem_of_lookup [j Hb]%list_elem_of_lookup Hf.
  assert (i = j) as <-; [|congruence].
  eapply NoDup_lookup; [exact Hnd|by rewrite list_lookup_fmap, Ha|by rewrite list_lookup_fmap, Hb, Hf].
Qed.

(** C19. Automation never feeds itself: whatever rule event an evaluation causes, directly or
    through the conversations service its actions call, becomes a task that carries the
    automation origin one level deeper, and the evaluation of such a task ends at once,
    without a call. *)
Theorem automation_never_feeds_itself (s : Service) (has_conv has_deals has_budget has_dedup : bool)
    (quote : string -> string) (lower : Z -> Z) (decode : string -> triggerMessage)
    (marshal : Payload -> option string) (c : Ctx) (task : EvaluateTask) :
  calls (fun R c' (e : RulePort R) => forall t ev conv p eid task',
           emitted e = Some (t, ev, conv, p) ->
           EmitRuleEvent_task marshal c' t ev conv p eid = Some task' ->
           et_Origin task' = OriginAutomation /\ et_Depth task' = et_Depth task + 1 /\
           forall c'', Evaluate lower decode (Run s has_conv has_deals has_budget quote) has_dedup
                         c'' task' = Ret (Ok tt))
    (Evaluate lower decode (Run s has_conv has_deals has_budget quote) has_dedup c task).
Proof.
  eapply calls_impl; [|apply Evaluate_tag; intros; apply Run_tag].
  intros R c' e Htag t ev conv p eid task' He Htask.
  assert (tagged (et_Depth task + 1) c') as [Ho Hd].
  { destruct e as [R e|? ?|? ?|R e| | | | | | | |]; try done. by destruct e. }
  unfold EmitRuleEvent_task in Htask. case_match; [done|]. case_match; [|done].
  injection Htask as <-. cbn. split; [done|]. split; [done|]. intros c''. unfold Evaluate. cbn.
  by rewrite Ho.
Qed.

(** An action runs only for a rule that is enabled, listens to an event of the task and
    matches the conversation as it was last read under the lock; never for a task of
    automation or past the depth limit; and, with a deduper, only once the rule's claim on
    the event was granted. *)
Theorem actions_are_justified (lower : Z -> Z) (decode : string -> triggerMessage)
    (has_dedup : bool) (task : EvaluateTask) (K : gset string) (c : Ctx) :
  wp (eval_contract lower decode has_dedup task K)
    (Evaluate lower decode port_run has_dedup c task) (fun _ _ => True) no_view.
Proof. apply Evaluate_wp. Qed.

(** C18. With a deduper wired, a redelivered task does not fire a rule again: of two evaluations of
    the same task, the second any time after the first while its claims stand, at most one runs actions of any
    given rule, unless the deduper could not be reached (Redis erred, and it fails open) when
    one of the two asked for the claim of that rule. *)
Theorem retries_never_refire {S} (h : handler Ctx EvalPort S) (shown : S -> Firings) `{!DedupWorld h shown}
    (lower : Z -> Z) (decode : string -> triggerMessage) (task : EvaluateTask) (c c' : Ctx)
    (s0 s1 s2 s3 : S) :
  s1 = (run h (Evaluate lower decode port_run true c task) s0).2 ->
  fi_claimed (shown s1) ⊆ fi_claimed (shown s2) ->
  s3 = (run h (Evaluate lower decode port_run true c' task) s2).2 ->
  exists outages1 outages3,
    fi_outages (shown s1) = fi_outages (shown s0) ++ outages1 /\
    fi_outages (shown s3) = fi_outages (shown s2) ++ outages3 /\
    forall rule,
      runs_of task rule (fi_acted (shown s1)) = runs_of task rule (fi_acted (shown s0)) \/
      runs_of task rule (fi_acted (shown s3)) = runs_of task rule (fi_acted (shown s2)) \/
      claim_of task rule ∈ outages1 ++ outages3.
Proof.
  intros H1 Hsub H3.
  pose proof (wp_run firing_contract h shown _ _ s0 (fun R c e P s => dedup_world_firings h shown c e P s)
    (Evaluate_retry lower decode task c (shown s0))) as Hw1.
  pose proof (wp_run firing_contract h shown _ _ s2 (fun R c e P s => dedup_world_firings h shown c e P s)
    (Evaluate_retry lower decode task c' (shown s2))) as Hw3.
  destruct (run h _ s0) as [r1 t1], (run h _ s2) as [r3 t3]. cbn in H1, H3. subst t1 t3.
  destruct Hw1 as (l1 & _ & Ho1 & Hf1), Hw3 as (l3 & _ & Ho3 & Hf3). exists l1, l3. split_and!; [done..|].
  intros rule. rewrite elem_of_app. specialize (Hf1 rule). specialize (Hf3 rule). set_solver.
Qed.

Lemma retries_never_refire_witness :
  let s0 := mkFirings ∅ [] [] in let s1 := EvalMemory.evaluate s0 in let s3 := EvalMemory.evaluate s1 in
  (runs_of EvalMemory.task "r1" (fi_acted s1) <> [] /\ claim_of EvalMemory.task "r1" ∉ fi_outages s3) /\
  exists outages1 outages3,
    fi_outages s1 = fi_outages s0 ++ outages1 /\ fi_outages s3 = fi_outages s1 ++ outages3 /\
    forall rule,
      runs_of EvalMemory.task rule (fi_acted s1) = runs_of EvalMemory.task rule (fi_acted s0) \/
      runs_of EvalMemory.task rule (fi_acted s3) = runs_of EvalMemory.task rule (fi_acted s1) \/
      claim_of EvalMemory.task rule ∈ outages1 ++ outages3.
Proof.
  split; [split; [by vm_compute|by decide_closed]|].
  exact (retries_never_refire EvalMemory.handle (fun s => s) (fun r => r) EvalMemory.decode
           EvalMemory.task Background Background _ _ _ _ eq_refl (fun _ H => H) eq_refl).
Defined.

(** The order in which matched rules fire depends on the rules alone, not on the order the
    store lists them in: rules of distinct ids have one sorted order. *)
Theorem firing_order_determined (rs rs' : list AutomationRule) :
  NoDup (map ar_ID rs) -> rs ≡ₚ rs' ->
  sortRules rs = sortRules rs' /\ StronglySorted (fun a b => rule_less b a = false) (sortRules rs).
Proof.
  intros Hnd Hp. split; [|apply sortRules_sorted].
  eapply (StronglySorted_unique_strong (not_greater rule_less));
    [|apply sortRules_sorted|apply sortRules_sorted|].
  - intros a b Ha Hb Hab Hba. unfold sortRules in Ha, Hb. rewrite stable_sort_perm in Ha, Hb.
    rewrite <- Hp in Hb. eapply (NoDup_key_inj ar_ID rs); [done..|].
    by apply rule_less_total.
  - unfold sortRules. by rewrite !stable_sort_perm.
Qed.

Lemma firing_order_determined_witness :
  let late := RuleSvc.touched 9 EvalMemory.rule in
  let other := mkRule "r0" "acme" "first" "" EvConversationCreated true 0 [] [] 5 5 in
  sortRules [late; other] = [other; late] /\
  (sortRules [late; other] = sortRules [other; late] /\
   StronglySorted (fun a b => rule_less b a = false) (sortRules [late; other])).
Proof.
  split; [reflexivity|]. apply firing_order_determined; [by decide_closed|apply Permutation_swap].
Defined.

(** A rule matches exactly when every condition holds of the conversation: the operator is
    read on the field the way it is named, with its negation, over the allowed operators. *)
Theorem Matches_spec (lower : Z -> Z) (r : AutomationRule) (ec : EvalContext) :
  Forall (fun c => OperatorAllowed (cd_Field c) (cd_Operator c) = true) (ar_Conditions r) ->
  Matches lower r ec = true <-> Forall (fun c => holds lower c ec) (ar_Conditions r).
Proof.
  unfold Matches. induction 1 as [|c cs Hc Hcs IH]; cbn [conditions_match]; [done|].
  rewrite Forall_cons, <- IH, <- (cond_match_holds lower c ec Hc).
  destruct (cond_match lower c ec); cbn; naive_solver.
Qed.

Lemma Matches_spec_witness :
  Matches (fun r => r) EvalMemory.rule
    (context_of EvalMemory.conv "" no_trigger) = true /\
  (Matches (fun r => r) EvalMemory.rule (context_of EvalMemory.conv "" no_trigger) = true <->
   Forall (fun c => holds (fun r => r) c (context_of EvalMemory.conv "" no_trigger))
     (ar_Conditions EvalMemory.rule)).
Proof. split; [reflexivity|]. apply Matches_spec. repeat constructor. Defined.

(** Only well-formed rules are stored: whatever the command and the answers, a rule handed
    to the store by Create or Update has a name, a known event, conditions of allowed
    operators with values, and at least one action, each of a known type with the
    parameters that type needs. *)
Theorem stored_rules_are_well_formed (s : RuleService) (c : Ctx) :
  (forall cmd, calls (stores_well_formed s) (RuleSvc.Create s c cmd)) /\
  (forall id cmd, calls (stores_well_formed s) (RuleSvc.Update s c id cmd)).
Proof.
  split; [intros cmd|intros id cmd].
  - unfold RuleSvc.Create. apply calls_bind_ok; [done|intros t]. cbn zeta.
    do 2 (apply calls_bind; [by split|intros ?]).
    apply validated_calls. intros Hr. apply calls_bind_ok; [|done]. by split.
  - unfold RuleSvc.Update. do 2 (apply calls_bind_ok; [by repeat split|intros ?]). cbn zeta.
    apply validated_calls. intros Hr.
    apply calls_bind; [by split|intros now]. apply calls_bind_ok; [|done]. by split.
Qed.

(** A priority padded with spaces passes the validation, which trims it, and can never be
    applied: the executor passes it on as stored, and the conversations service refuses it. *)
Theorem padded_priority_never_applies (s : Service) (has_deals has_budget : bool)
    (quote : string -> string) (rs : RuleService) (c : Ctx) (ac : ActionContext) :
  let padded := mkAction ActionChangePriority {[ "priority" := " high " ]} in
  RuleSvc.validateAction rs c ∅ 0 padded = Ret (Ok ∅) /\
  returns (fun r => is_ok r = false) (Run s true has_deals has_budget quote c padded ac).
Proof.
  cbn zeta. split; [by vm_compute|].
  change (returns (fun r => is_ok r = false)
    (lift (@RuConvService) (AutomationChangePriority s
      (WithRuleDepth (WithRuleOrigin c OriginAutomation) (ax_Depth ac + 1))
      (ax_ConversationID ac) " high "))).
  apply returns_lift. unfold AutomationChangePriority, automationMutate.
  apply returns_bind_ok; [done|intros _]. apply returns_bind_ok; [done|intros conv]. done.
Qed.
