(* ===== verification/Webhooks.v ===== *)
(** * Webhooks (domain/webhooks)

    Subscriptions and deliveries, the dispatcher that fans an event out to the
    subscriptions of a tenant, the delivery attempts with their retries, and the
    subscription service. Signing and sending are a port. *)
From S2P Require Import Prelude GoStrings AppError Authz Shared ConvEntity ConvContracts Prog Ports.

(** ** Events (entity/events.go) *)

Module WEvent.
Definition EventConversationCreated : string := "conversation_created".
Definition EventConversationStatusChanged : string := "conversation_status_changed".
Definition EventConversationAssigned : string := "conversation_assigned".
Definition EventConversationTransferred : string := "conversation_transferred".
Definition EventConversationUpdated : string := "conversation_updated".
Definition EventMessageCreated : string := "message_created".
Definition EventMessageUpdated : string := "message_updated".
Definition EventContactCreated : string := "contact_created".
Definition EventContactUpdated : string := "contact_updated".
Definition EventSLABreached : string := "sla_breached".
Definition EventGroupSyncRequested : string := "group_sync_requested".
Definition EventTemplatesSyncRequested : string := "templates_sync_requested".

Definition SupportedEvents : list string :=
  [EventConversationCreated; EventConversationStatusChanged; EventConversationAssigned;
   EventConversationTransferred; EventConversationUpdated; EventMessageCreated;
   EventMessageUpdated; EventContactCreated; EventContactUpdated; EventSLABreached].

Definition internalToWire : gmap string string := list_to_map
  [("conversation.created", EventConversationCreated);
   ("conversation.closed", EventConversationStatusChanged);
   ("conversation.assigned", EventConversationAssigned);
   ("conversation.transferred", EventConversationTransferred);
   ("conversation.updated", EventConversationUpdated);
   ("message.created", EventMessageCreated); ("message.updated", EventMessageUpdated);
   ("contact.created", EventContactCreated); ("contact.updated", EventContactUpdated);
   ("sla.breached", EventSLABreached)].

Definition WireEvent (internal : string) : option string := internalToWire !! internal.

Definition IsSupportedEvent (e : string) : bool := existsb (fun s => s =! e) SupportedEvents.
End WEvent.
Import WEvent.

(** ** Subscriptions and deliveries (entity/subscription.go, delivery.go) *)

Record WebhookSubscription := mkSubscription {
  sb_ID : string; sb_TenantID : string; sb_Name : string; sb_URL : string;
  sb_Events : list string; sb_Scopes : list string; sb_Secret : string; sb_Enabled : bool;
  sb_RateLimitPerMin : Z; sb_OwnedByChannelID : string; sb_CreatedBy : string;
  sb_CreatedAt : Time; sb_UpdatedAt : Time }.

Definition Managed (s : WebhookSubscription) : bool := sb_OwnedByChannelID s <>! "".

Definition SubscribesTo (s : WebhookSubscription) (event : string) : bool :=
  if negb (sb_Enabled s) then false else existsb (fun e => e =! event) (sb_Events s).

Inductive DeliveryStatus :=
  DeliveryPending | DeliveryDelivered | DeliveryRetrying | DeliveryFailed | DeliveryDead.

#[export] Instance DeliveryStatus_eq_dec : EqDecision DeliveryStatus.
Proof. solve_decision. Defined.

Definition IsTerminal (s : DeliveryStatus) : bool :=
  (s =! DeliveryDelivered) || (s =! DeliveryDead).

Record WebhookDelivery := mkDelivery {
  dl_ID : string; dl_TenantID : string; dl_WebhookID : string; dl_Event : string;
  dl_Payload : string; dl_Status : DeliveryStatus; dl_Attempts : Z; dl_LastError : string;
  dl_NextRetryAt : option Time; dl_CreatedAt : Time; dl_UpdatedAt : Time }.

Record CreateSubscription := mkCreateSubscription {
  csb_Name : string; csb_URL : string; csb_Events : list string; csb_Scopes : list string;
  csb_Secret : string; csb_Enabled : option bool; csb_RateLimitPerMin : Z }.

(** A nil slice leaves the field unchanged: [None]. *)
Record UpdateSubscription := mkUpdateSubscription {
  usb_Name : option string; usb_URL : option string; usb_Events : option (list string);
  usb_Scopes : option (list string); usb_Enabled : option bool; usb_RateLimitPerMin : option Z }.

Record DeliverTask := mkDeliverTask { tk_TenantID : string; tk_DeliveryID : string }.

(** ** Ports *)

Inductive WebhookRepo : Type -> Type :=
| SubCreate (s : WebhookSubscription) : WebhookRepo (result unit)
| SubUpdate (s : WebhookSubscription) : WebhookRepo (result unit)
| SubDelete (id : string) : WebhookRepo (result unit)
| SubFindByID (id : string) : WebhookRepo (result WebhookSubscription)
| SubList (p : PageRequest) : WebhookRepo (result (list WebhookSubscription))
| SubListEnabledByEvent (tenantID event : string) : WebhookRepo (result (list WebhookSubscription))
| SubFindByChannelID (channelID : string) : WebhookRepo (result WebhookSubscription)
| DelCreate (d : WebhookDelivery) : WebhookRepo (result unit)
| DelUpdate (d : WebhookDelivery) : WebhookRepo (result unit)
| DelFindByID (id : string) : WebhookRepo (result WebhookDelivery)
| DelListByWebhook (id : string) (p : PageRequest) : WebhookRepo (result (list WebhookDelivery)).

(** [Send] answers the status code with an optional error: the code is read even
    beside an error. [RandomToken] is [rand.Read] in hexadecimal. *)
Inductive WebhookPort : Type -> Type :=
| WhInfra {R} (e : Infra R) : WebhookPort R
| WhRepo {R} (e : WebhookRepo R) : WebhookPort R
| Send (sub : WebhookSubscription) (d : WebhookDelivery) : WebhookPort (Z * option error)
| EnqueueDeliver (t : DeliverTask) : WebhookPort (result unit)
| EnqueueRetry (t : DeliverTask) (delaySeconds : Z) : WebhookPort (result unit)
| RateAllow (webhookID : string) (limitPerMin : Z) : WebhookPort (result bool)
| UsageInUse (webhookID : string) : WebhookPort (result (bool * string))
| RandomToken (n : Z) : WebhookPort string.

#[export] Instance webhook_infra : Embed Infra WebhookPort := fun R e => WhInfra e.
#[export] Instance webhook_repo : Embed WebhookRepo WebhookPort := fun R e => WhRepo e.
#[export] Instance webhook_own : Embed WebhookPort WebhookPort := fun R e => e.

Abbreviation WM := (prog Ctx WebhookPort).

(** ** Backoff (service/backoff.go) *)

(** Go's [1 << attempt] on a 64-bit int: zero from 64 on. *)
Definition shift_one (attempt : Z) : Z := wrap64 (Z.shiftl 1 attempt).

Definition backoffSeconds (attempt : Z) : Z :=
  let attempt := if attempt <? 1 then 1 else attempt in
  let v := shift_one attempt in
  if 300 <? v then 300 else v.

Definition durationSeconds (s : Z) : Z := s * Second.

(** ** The dispatcher (service/dispatcher.go) *)

Definition scopeAllows (scopes : list string) (sectorID : string) : bool :=
  if (length scopes =? 0)%nat then true
  else if sectorID =! "" then false
  else existsb (fun s => s =! sectorID) scopes.

(** How the services are wired, and the two library functions they use: the JSON of an
    envelope, and the scheme and host of a URL. *)
Record WebhookService := mkWebhookService {
  has_enqueuer : bool; has_limiter : bool; has_usage : bool; maxAttempts : Z;
  buildEnvelope : string -> string -> Time -> Payload -> result string;
  parse_url : string -> option (string * string) }.

Definition defaultMaxAttempts : Z := 6.

Section Services.
Context (s : WebhookService).

Definition wfail {A} (e : error) : WM (result A) := Ret (Err e).
Definition wok {A} (a : A) : WM (result A) := Ret (Ok a).

Definition newDelivery (id tenantID webhookID event body : string) (now : Time) : WebhookDelivery :=
  mkDelivery id tenantID webhookID event body DeliveryPending 0 "" None now now.

Definition enqueueDeliver (c : Ctx) (d : WebhookDelivery) : WM unit :=
  if has_enqueuer s then
    do! ask c (EnqueueDeliver (mkDeliverTask (dl_TenantID d) (dl_ID d))) in Ret tt
  else Ret tt.

(** The body of the loop over the subscriptions. *)
Definition emitOne (c : Ctx) (tenantID wire sectorID : string) (now : Time) (payload : Payload)
    (sub : WebhookSubscription) : WM unit :=
  if negb (scopeAllows (sb_Scopes sub) sectorID) then Ret tt
  else
    let! id := ask c NewID in
    match buildEnvelope s id wire now payload with
    | Err _ => Ret tt
    | Ok body =>
        let d := newDelivery id tenantID (sb_ID sub) wire body now in
        let! r := ask c (DelCreate d) in
        match r with
        | Err _ => Ret tt
        | Ok _ => enqueueDeliver c d
        end
    end.

Definition emit (c : Ctx) (tenantID event sectorID : string) (build : WM Payload) : WM unit :=
  if tenantID =! "" then Ret tt
  else
    match WireEvent event with
    | None => Ret tt
    | Some wire =>
        let! r := ask c (SubListEnabledByEvent tenantID wire) in
        match r with
        | Err _ | Ok [] => Ret tt
        | Ok subs =>
            let! payload := build in
            let! now := ask c Now in
            for_each subs (emitOne c tenantID wire sectorID now payload)
        end
    end.

Definition Emit (c : Ctx) (tenantID event sectorID : string) (payload : Payload) : WM unit :=
  emit c tenantID event sectorID (Ret payload).

Definition EmitLazy (c : Ctx) (tenantID event sectorID : string) (build : WM Payload) : WM unit :=
  emit c tenantID event sectorID build.

Definition EmitTo (c : Ctx) (tenantID webhookID event : string) (payload : Payload)
  : WM (result unit) :=
  try! sub := ask c (SubFindByID webhookID) in
  if negb (sb_Enabled sub) then wfail (Validation "webhook is disabled")
  else
    let! now := ask c Now in
    let! id := ask c NewID in
    match buildEnvelope s id event now payload with
    | Err e => wfail e
    | Ok body =>
        let d := newDelivery id tenantID (sb_ID sub) event body now in
        try! _ := ask c (DelCreate d) in
        do! enqueueDeliver c d in
        wok tt
    end.

Definition EmitToChannel (c : Ctx) (tenantID channelID event : string) (payload : Payload)
  : WM (result unit) :=
  let! r := ask c (SubFindByChannelID channelID) in
  match r with
  | Err e =>
      if is_not_found e
      then wfail (Conflict "o canal não tem webhook gerenciado (configure o outbound_url)")
      else wfail e
  | Ok sub => EmitTo c tenantID (sb_ID sub) event payload
  end.

(** ** Delivery attempts (service/delivery_service.go) *)

(** The record after an attempt ended with the status. *)
Definition settled (d : WebhookDelivery) (st : DeliveryStatus) (lastError : string)
    (next : option Time) (now : Time) : WebhookDelivery :=
  mkDelivery (dl_ID d) (dl_TenantID d) (dl_WebhookID d) (dl_Event d) (dl_Payload d) st
    (dl_Attempts d) lastError next (dl_CreatedAt d) now.

Definition attempted (d : WebhookDelivery) : WebhookDelivery :=
  mkDelivery (dl_ID d) (dl_TenantID d) (dl_WebhookID d) (dl_Event d) (dl_Payload d) (dl_Status d)
    (dl_Attempts d + 1) (dl_LastError d) (dl_NextRetryAt d) (dl_CreatedAt d) (dl_UpdatedAt d).

Definition delivered (c : Ctx) (d : WebhookDelivery) : WM (result unit) :=
  let! now := ask c Now in
  ask c (DelUpdate (settled d DeliveryDelivered "" None now)).

Definition dead (c : Ctx) (d : WebhookDelivery) (reason : string) : WM (result unit) :=
  let! now := ask c Now in
  ask c (DelUpdate (settled d DeliveryDead reason None now)).

(** What [retryOrDead] and [reschedule] share: the retry stored, then enqueued. *)
Definition retryIn (c : Ctx) (d : WebhookDelivery) (delaySeconds : Z) (reason : string)
  : WM (result unit) :=
  let! t := ask c Now in
  let next := t + durationSeconds delaySeconds in
  let! now := ask c Now in
  let d := settled d DeliveryRetrying reason (Some next) now in
  try! _ := ask c (DelUpdate d) in
  if has_enqueuer s then
    do! ask c (EnqueueRetry (mkDeliverTask (dl_TenantID d) (dl_ID d)) delaySeconds) in wok tt
  else wok tt.

Definition retryOrDead (c : Ctx) (d : WebhookDelivery) (reason : string) : WM (result unit) :=
  if maxAttempts s <=? dl_Attempts d then dead c d reason
  else retryIn c d (backoffSeconds (dl_Attempts d)) reason.

Definition reschedule (c : Ctx) (d : WebhookDelivery) (delaySeconds : Z) (reason : string)
  : WM (result unit) := retryIn c d delaySeconds reason.

(** [deliveryError]: at most 300 bytes of the message. *)
Definition deliveryError (status : Z) (err : option error) : string :=
  match err with
  | Some e =>
      let msg := bytes_of (Error e) in
      if (300 <? length msg)%nat then of_bytes (take 300 msg) else of_bytes msg
  | None => "endpoint returned status " +:+ pretty status
  end.

Definition accepted (res : Z * option error) : bool :=
  match res.2 with Some _ => false | None => (200 <=? res.1) && (res.1 <? 300) end.

Definition Deliver (c : Ctx) (deliveryID : string) : WM (result unit) :=
  try! d := ask c (DelFindByID deliveryID) in
  if IsTerminal (dl_Status d) then wok tt
  else
    let! r := ask c (SubFindByID (dl_WebhookID d)) in
    match r with
    | Err e => if is_not_found e then dead c d "subscription no longer exists" else wfail e
    | Ok sub =>
        if negb (sb_Enabled sub) then dead c d "subscription disabled"
        else
          let! allowed :=
            (if has_limiter s then
               let! r := ask c (RateAllow (sb_ID sub) (sb_RateLimitPerMin sub)) in
               Ret (match r with Ok b => b | Err _ => true end)
             else Ret true) in
          if negb allowed then reschedule c d 30 "rate limited"
          else
            let! res := ask c (Send sub d) in
            let d := attempted d in
            if accepted res then delivered c d
            else retryOrDead c d (deliveryError res.1 res.2)
    end.
End Services.

(** ** The subscription service (service/subscription_service.go) *)

Module SubSvc.

Record TestResult := mkTestResult {
  tr_DeliveryID : string; tr_OK : bool; tr_StatusCode : Z; tr_Error : string }.

(** The loop of [normalizeEvents]. *)
Fixpoint normalize_events (seen : gset string) (l : list string) : result (list string) :=
  match l with
  | [] => Ok []
  | e :: l =>
      let e := trim_space e in
      if negb (IsSupportedEvent e) then
        Err (WithDetails (detail "events" ("unsupported event " +:+ e))
               (Validation ("unsupported event: " +:+ e)))
      else if decide (e ∈ seen) then normalize_events seen l
      else match normalize_events ({[e]} ∪ seen) l with
           | Ok out => Ok (e :: out)
           | Err err => Err err
           end
  end.

Definition normalizeEvents (l : list string) : result (list string) :=
  if (length l =? 0)%nat then
    Err (WithDetails (detail "events" "is required") (Validation "at least one event is required"))
  else normalize_events ∅ l.

Definition managedChannelEvents : list string :=
  [EventConversationCreated; EventConversationStatusChanged; EventConversationAssigned;
   EventConversationTransferred; EventConversationUpdated; EventMessageCreated;
   EventMessageUpdated; EventGroupSyncRequested; EventTemplatesSyncRequested].

Section Service.
Context (s : WebhookService).

Definition validateURL (raw : string) : result unit :=
  let bad := Err (WithDetails (detail "url" "must be a valid http(s) URL")
                    (Validation "url must be a valid http(s) URL")) in
  match parse_url s (trim_space raw) with
  | None => bad
  | Some (scheme, host) =>
      if ((scheme <>! "https") && (scheme <>! "http")) || (host =! "") then bad else Ok tt
  end.

Definition Create (c : Ctx) (cmd : CreateSubscription) : WM (result WebhookSubscription) :=
  try! tenantID := Ret (RequireTenant c) in
  try! _ := Ret (validateURL (csb_URL cmd)) in
  try! events := Ret (normalizeEvents (csb_Events cmd)) in
  let secret := trim_space (csb_Secret cmd) in
  let! secret := (if secret =! "" then
                    let! tok := ask c (RandomToken 32) in Ret ("whsec_" +:+ tok)
                  else Ret secret) in
  let enabled := default true (csb_Enabled cmd) in
  let! now := ask c Now in
  let createdBy := match FromContext c with Some ac => ac_UserID ac | None => "" end in
  let! id := ask c NewID in
  let sub := mkSubscription id tenantID (trim_space (csb_Name cmd)) (trim_space (csb_URL cmd))
               events (csb_Scopes cmd) secret enabled (csb_RateLimitPerMin cmd) "" createdBy
               now now in
  try! _ := ask c (SubCreate sub) in
  do! ask c (AuditRecord (mkAudit "webhook.created" "webhook" (sb_ID sub)
        [("url", VStr (sb_URL sub)); ("events", VStrs (sb_Events sub))])) in
  wok sub.

Definition List_ (c : Ctx) (p : PageRequest) : WM (result (list WebhookSubscription)) :=
  try! _ := Ret (RequireTenant c) in ask c (SubList (Normalize p)).

Definition Get (c : Ctx) (id : string) : WM (result WebhookSubscription) :=
  try! _ := Ret (RequireTenant c) in ask c (SubFindByID id).

(** The fields of the command, assigned in order; the first bad one ends it. *)
Definition applySubUpdate (cmd : UpdateSubscription) (sub : WebhookSubscription)
  : result WebhookSubscription :=
  let name := match usb_Name cmd with Some n => trim_space n | None => sb_Name sub end in
  match (match usb_URL cmd with
         | None => Ok (sb_URL sub)
         | Some u => res_map (fun _ => trim_space u) (validateURL u) end) with
  | Err e => Err e
  | Ok url =>
      match (match usb_Events cmd with
             | None => Ok (sb_Events sub)
             | Some l => normalizeEvents l end) with
      | Err e => Err e
      | Ok events =>
          Ok (mkSubscription (sb_ID sub) (sb_TenantID sub) name url events
                (default (sb_Scopes sub) (usb_Scopes cmd)) (sb_Secret sub)
                (default (sb_Enabled sub) (usb_Enabled cmd))
                (default (sb_RateLimitPerMin sub) (usb_RateLimitPerMin cmd))
                (sb_OwnedByChannelID sub) (sb_CreatedBy sub) (sb_CreatedAt sub) (sb_UpdatedAt sub))
      end
  end.

Definition touched (now : Time) (sub : WebhookSubscription) : WebhookSubscription :=
  mkSubscription (sb_ID sub) (sb_TenantID sub) (sb_Name sub) (sb_URL sub) (sb_Events sub)
    (sb_Scopes sub) (sb_Secret sub) (sb_Enabled sub) (sb_RateLimitPerMin sub)
    (sb_OwnedByChannelID sub) (sb_CreatedBy sub) (sb_CreatedAt sub) now.

Definition Update (c : Ctx) (id : string) (cmd : UpdateSubscription)
  : WM (result WebhookSubscription) :=
  try! _ := Ret (RequireTenant c) in
  try! sub := ask c (SubFindByID id) in
  if Managed sub
  then wfail (Conflict "webhook gerenciado pelo canal; edite pela configuração do canal")
  else
    try! sub := Ret (applySubUpdate cmd sub) in
    let! now := ask c Now in
    let sub := touched now sub in
    try! _ := ask c (SubUpdate sub) in
    do! ask c (AuditRecord (mkAudit "webhook.updated" "webhook" (sb_ID sub)
          [("url", VStr (sb_URL sub)); ("enabled", VBool (sb_Enabled sub))])) in
    wok sub.

Definition Delete (c : Ctx) (id : string) : WM (result unit) :=
  try! _ := Ret (RequireTenant c) in
  try! sub := ask c (SubFindByID id) in
  if Managed sub
  then wfail (Conflict "webhook gerenciado pelo canal; remova pela configuração do canal")
  else
    try! _ :=
      (if has_usage s then
         try! u := ask c (UsageInUse id) in
         let '(inUse, usedBy) := u : bool * string in
         if inUse then wfail (Conflict ("webhook em uso pela regra " +:+ usedBy)) else wok tt
       else wok tt) in
    try! _ := ask c (SubDelete id) in
    do! ask c (AuditRecord (mkAudit "webhook.deleted" "webhook" id [])) in
    wok tt.

Definition RemoveChannelWebhook (c : Ctx) (channelID : string) : WM (result unit) :=
  try! _ := Ret (RequireTenant c) in
  let! r := ask c (SubFindByChannelID channelID) in
  match r with
  | Err e => if is_not_found e then wok tt else wfail e
  | Ok sub => ask c (SubDelete (sb_ID sub))
  end.

(** The managed subscription brought in line with its channel. *)
Definition resynced (url secret : string) (now : Time) (sub : WebhookSubscription)
  : WebhookSubscription :=
  mkSubscription (sb_ID sub) (sb_TenantID sub) (sb_Name sub) url managedChannelEvents
    (sb_Scopes sub) secret true (sb_RateLimitPerMin sub) (sb_OwnedByChannelID sub)
    (sb_CreatedBy sub) (sb_CreatedAt sub) now.

Definition SyncChannelWebhook (c : Ctx) (channelID url secret : string) : WM (result unit) :=
  try! tenantID := Ret (RequireTenant c) in
  let url := trim_space url in
  if url =! "" then RemoveChannelWebhook c channelID
  else
    try! _ := Ret (validateURL url) in
    let! now := ask c Now in
    let! r := ask c (SubFindByChannelID channelID) in
    match r with
    | Err e =>
        if negb (is_not_found e) then wfail e
        else
          let! id := ask c NewID in
          ask c (SubCreate (mkSubscription id tenantID ("Canal " +:+ channelID) url
                   managedChannelEvents [] secret true 0 channelID "" now now))
    | Ok sub => ask c (SubUpdate (resynced url secret now sub))
    end.

Definition Test_ (c : Ctx) (id : string) : WM (result TestResult) :=
  try! _ := Ret (RequireTenant c) in
  try! sub := ask c (SubFindByID id) in
  let! now := ask c Now in
  let! deliveryID := ask c NewID in
  match buildEnvelope s deliveryID "webhook.test" now
          (PData [("message", VStr "This is a test webhook delivery."); ("webhook", VStr (sb_ID sub))]) with
  | Err e => wfail (Wrap e (Internal "build test payload"))
  | Ok body =>
      let d := newDelivery deliveryID (sb_TenantID sub) (sb_ID sub) "webhook.test" body now in
      let! res := ask c (Send sub d) in
      let! later := ask c Now in
      let good := accepted res in
      let d := mkDelivery deliveryID (sb_TenantID sub) (sb_ID sub) "webhook.test" body
                 (if good then DeliveryDelivered else DeliveryFailed) 1
                 (if good then "" else deliveryError res.1 res.2) None now later in
      do! ask c (DelCreate d) in
      wok (mkTestResult deliveryID good res.1
             (if good then "" else "the endpoint did not accept the test delivery"))
  end.

Definition ListDeliveries (c : Ctx) (webhookID : string) (p : PageRequest)
  : WM (result (list WebhookDelivery)) :=
  try! _ := Ret (RequireTenant c) in
  try! _ := ask c (SubFindByID webhookID) in
  ask c (DelListByWebhook webhookID (Normalize p)).
End Service.
End SubSvc.
