(* ===== verification/WebhookProps.v ===== *)
(** * Webhooks: the properties

    The delays of the retries, the end of every delivery, the fan-out of an event, and
    the protection of managed subscriptions. *)
From S2P Require Import Prelude GoStrings AppError Authz Shared ConvEntity ConvContracts Prog Ports.
From S2P Require Import Webhooks.
Import WEvent.

(** ** Backoff *)

Lemma shift_one_small a : 0 <= a <= 62 -> shift_one a = 2 ^ a.
Proof.
  intros Ha. unfold shift_one. rewrite Z.shiftl_1_l. apply wrap64_id. unfold in_int64.
  assert (0 < 2 ^ a <= 2 ^ 62) by (split; [apply Z.pow_pos_nonneg; lia|apply Z.pow_le_mono_r; lia]).
  lia.
Qed.

Lemma shift_one_big a : 63 <= a -> shift_one a <= 0.
Proof.
  intros Ha. unfold shift_one, wrap64. rewrite Z.shiftl_1_l.
  destruct (Z.eq_dec a 63) as [->|Hne]; [by vm_compute|].
  replace (2 ^ a) with (2 ^ (a - 64) * 2 ^ 64) by (rewrite <- Z.pow_add_r; [f_equal; lia|lia..]).
  rewrite Z.add_comm, Z.mod_add by lia. by vm_compute.
Qed.

Lemma pow2_above a : 9 <= a -> 300 < 2 ^ a.
Proof. intros Ha. apply Z.lt_le_trans with (2 ^ 9); [done|]. apply Z.pow_le_mono_r; lia. Qed.

Lemma backoffSeconds_mid a : 1 <= a <= 62 -> backoffSeconds a = Z.min 300 (2 ^ a).
Proof.
  intros Ha. unfold backoffSeconds. destruct (Z.ltb_spec a 1); [lia|].
  rewrite shift_one_small by lia. destruct (Z.ltb_spec 300 (2 ^ a)); lia.
Qed.

(** The delays between attempts: two seconds after the first, doubling up to five minutes,
    never shorter after a later attempt; but from the 63rd attempt on the shift overflows
    and there is no delay at all (six attempts are made by default). *)
Theorem backoffSeconds_spec :
  (forall a, a <= 1 -> backoffSeconds a = 2) /\
  (forall a, 1 <= a <= 8 -> backoffSeconds a = 2 ^ a) /\
  (forall a, 9 <= a <= 62 -> backoffSeconds a = 300) /\
  (forall a b, a <= b <= 62 -> 2 <= backoffSeconds a <= backoffSeconds b) /\
  (forall a, 63 <= a -> backoffSeconds a <= 0).
Proof.
  assert (forall a, a <= 1 -> backoffSeconds a = 2) as Hlow.
  { intros a Ha. unfold backoffSeconds. destruct (Z.ltb_spec a 1); [by vm_compute|].
    by replace a with 1 by lia. }
  split_and!.
  - done.
  - intros a Ha. rewrite backoffSeconds_mid by lia. apply Z.min_r.
    transitivity (2 ^ 8); [apply Z.pow_le_mono_r; lia|done].
  - intros a Ha. rewrite backoffSeconds_mid by lia. pose proof (pow2_above a). lia.
  - intros a b Hab. destruct (Z.le_gt_cases a 1).
    + rewrite (Hlow a) by lia. split; [done|]. destruct (Z.le_gt_cases b 1); [by rewrite Hlow|].
      rewrite backoffSeconds_mid by lia. assert (2 ^ 1 <= 2 ^ b) by (apply Z.pow_le_mono_r; lia). lia.
    + rewrite !backoffSeconds_mid by lia.
      assert (2 ^ 1 <= 2 ^ a) by (apply Z.pow_le_mono_r; lia).
      assert (2 ^ a <= 2 ^ b) by (apply Z.pow_le_mono_r; lia). lia.
  - intros a Ha. unfold backoffSeconds. destruct (Z.ltb_spec a 1); [lia|].
    pose proof (shift_one_big a Ha). destruct (Z.ltb_spec 300 (shift_one a)); lia.
Qed.

Lemma backoffSeconds_cap a : backoffSeconds a <= 300.
Proof. unfold backoffSeconds. cbn zeta. case_match eqn:Hc; lia. Qed.

(** ** One delivery attempt *)

(** What is known of one delivery: its stored record, the retries queued for it and those the
    queue refused (with their delays), how often the limiter held it back and how many requests
    were sent. *)
Record DeliveryView := mkDeliveryView {
  dv_record : WebhookDelivery; dv_queue : list (DeliverTask * Z); dv_lost : list (DeliverTask * Z);
  dv_refused : nat; dv_sent : nat }.

Definition with_record (d : WebhookDelivery) (g : DeliveryView) : DeliveryView :=
  mkDeliveryView d (dv_queue g) (dv_lost g) (dv_refused g) (dv_sent g).
Definition with_retry (q : DeliverTask * Z) (g : DeliveryView) : DeliveryView :=
  mkDeliveryView (dv_record g) (dv_queue g ++ [q]) (dv_lost g) (dv_refused g) (dv_sent g).
Definition with_loss (q : DeliverTask * Z) (g : DeliveryView) : DeliveryView :=
  mkDeliveryView (dv_record g) (dv_queue g) (dv_lost g ++ [q]) (dv_refused g) (dv_sent g).
Definition with_refusal (g : DeliveryView) : DeliveryView :=
  mkDeliveryView (dv_record g) (dv_queue g) (dv_lost g) (S (dv_refused g)) (dv_sent g).
Definition with_request (g : DeliveryView) : DeliveryView :=
  mkDeliveryView (dv_record g) (dv_queue g) (dv_lost g) (dv_refused g) (S (dv_sent g)).

(** The fields an update stores (delivery_repository.go). *)
Definition stored_delivery (old d : WebhookDelivery) : WebhookDelivery :=
  mkDelivery (dl_ID old) (dl_TenantID old) (dl_WebhookID old) (dl_Event old) (dl_Payload old) (dl_Status d)
    (dl_Attempts d) (dl_LastError d) (dl_NextRetryAt d) (dl_CreatedAt old) (dl_UpdatedAt d).

(** The repository finds and updates the record for its tenant; the endpoint answers anything and
    the limiter may refuse. Any call may fail, an update or an enqueueing before or after it took
    effect. *)
Definition delivery_post (R : Type) (c : Ctx) (e : WebhookPort R) (g : DeliveryView) (r : R)
    (g' : DeliveryView) : Prop :=
  match e in WebhookPort R return R -> Prop with
  | WhRepo e =>
      match e in WebhookRepo R return R -> Prop with
      | DelFindByID id => fun r => g' = g /\
          (id = dl_ID (dv_record g) -> forall d, r = Ok d ->
             RequireTenant c = Ok (dl_TenantID (dv_record g)) /\ d = dv_record g)
      | DelUpdate d => fun r =>
          let old := dv_record g in
          let found := RequireTenant c = Ok (dl_TenantID old) /\ dl_ID d = dl_ID old in
          (found /\ g' = with_record (stored_delivery old d) g) \/
          (is_ok r = false /\ g' = g)
      | _ => fun _ => g' = g
      end
  | Send _ _ => fun _ => g' = with_request g
  | EnqueueRetry t n => fun r => g' = with_retry (t, n) g \/ is_ok r = false /\ g' = with_loss (t, n) g
  | RateAllow _ _ => fun r => g' = match r with Ok false => with_refusal g | _ => g end
  | _ => fun _ => g' = g
  end r.

Definition delivery_contract : contract Ctx WebhookPort DeliveryView :=
  pre_post (fun _ _ _ _ => True) delivery_post.

(** The record keeps what identifies it. *)
Definition same_delivery (d d' : WebhookDelivery) : Prop :=
  dl_ID d' = dl_ID d /\ dl_TenantID d' = dl_TenantID d /\ dl_WebhookID d' = dl_WebhookID d /\
  dl_Event d' = dl_Event d /\ dl_Payload d' = dl_Payload d /\ dl_CreatedAt d' = dl_CreatedAt d.

Lemma same_delivery_trans a b d : same_delivery a b -> same_delivery b d -> same_delivery a d.
Proof. unfold same_delivery. intuition congruence. Qed.

Definition task_of (d : WebhookDelivery) : DeliverTask := mkDeliverTask (dl_TenantID d) (dl_ID d).

(** One more retry, queued or lost. *)
Definition one_more (q : DeliverTask * Z) (g g' : DeliveryView) : Prop :=
  dv_queue g' = dv_queue g ++ [q] /\ dv_lost g' = dv_lost g \/
  dv_queue g' = dv_queue g /\ dv_lost g' = dv_lost g ++ [q].
Definition no_more (g g' : DeliveryView) : Prop := dv_queue g' = dv_queue g /\ dv_lost g' = dv_lost g.

Definition terminal (g : DeliveryView) : Prop := IsTerminal (dl_Status (dv_record g)) = true.

(** How an attempt on a live record may end: for good, with a retry after one more attempt, held
    back by the limiter, or with an error. *)
Inductive attempt_outcome (max : Z) (g : DeliveryView) : result unit -> DeliveryView -> Prop :=
| ended g' : terminal g' -> no_more g g' -> attempt_outcome max g (Ok tt) g'
| retried g' delay :
    dl_Attempts (dv_record g') = dl_Attempts (dv_record g) + 1 -> dl_Attempts (dv_record g') < max ->
    dv_refused g' = dv_refused g -> delay <= 300 -> one_more (task_of (dv_record g), delay) g g' ->
    ~ terminal g' -> attempt_outcome max g (Ok tt) g'
| limited g' :
    dl_Attempts (dv_record g') = dl_Attempts (dv_record g) -> dv_refused g' = S (dv_refused g) ->
    one_more (task_of (dv_record g), 30) g g' -> ~ terminal g' -> attempt_outcome max g (Ok tt) g'
| failed g' e :
    no_more g g' ->
    (terminal g' \/
     ~ terminal g' /\ (dl_Attempts (dv_record g') = dl_Attempts (dv_record g) \/
       dl_Attempts (dv_record g') = dl_Attempts (dv_record g) + 1 /\ dl_Attempts (dv_record g') < max)) ->
    attempt_outcome max g (Err e) g'.

Section Attempts.
Context (s : WebhookService) (Hq : has_enqueuer s = true).

Let T := delivery_contract.
#[local] Instance delivery_mono : Monotone T.
Proof. apply pre_post_mono. Qed.

Section Running.
Context (c : Ctx) (g0 : DeliveryView).
Hypothesis Hlive : IsTerminal (dl_Status (dv_record g0)) = false.

(** What the attempt started from is still stored, nothing was asked of the queue yet, and [d] is
    the record with the attempts made. *)
Definition underway (n : Z) (g : DeliveryView) (d : WebhookDelivery) : Prop :=
  dv_record g = dv_record g0 /\ no_more g0 g /\ same_delivery (dv_record g0) d /\
  dl_Attempts d = dl_Attempts (dv_record g0) + n.

Definition goal (r : result unit) (g' : DeliveryView) : Prop :=
  same_delivery (dv_record g0) (dv_record g') /\ attempt_outcome (maxAttempts s) g0 r g'.

Lemma same_stored d : same_delivery d d.
Proof. by split_and!. Qed.

Lemma stored_settled n g d st msg next now :
  underway n g d ->
  same_delivery (dv_record g0) (stored_delivery (dv_record g) (settled d st msg next now)) /\
  dl_Status (stored_delivery (dv_record g) (settled d st msg next now)) = st /\
  dl_Attempts (stored_delivery (dv_record g) (settled d st msg next now)) = dl_Attempts (dv_record g0) + n.
Proof. intros (-> & _ & _ & Ha). by split_and!. Qed.

(** The update of the record, and what follows when it succeeds. *)
Lemma stored_update_wp n g d st msg next now (k : unit -> WM (result unit)) :
  underway n g d -> (st = DeliveryRetrying -> n = 0 \/ dl_Attempts (dv_record g0) + n < maxAttempts s) ->
  0 <= n <= 1 -> (IsTerminal st = true \/ st = DeliveryRetrying) ->
  (forall d', same_delivery (dv_record g0) d' -> dl_Status d' = st ->
     dl_Attempts d' = dl_Attempts (dv_record g0) + n -> wp T (k tt) goal (with_record d' g)) ->
  wp T (bind_ok (ask c (DelUpdate (settled d st msg next now))) k) goal g.
Proof.
  intros Hu Hn Hn01 Hst Hk. pose proof (stored_settled n g d st msg next now Hu) as (Hs & Hd & Ha).
  destruct Hu as (Hrec & [Hq0 Hl0] & Hsame & _).
  apply wp_bind_ok; [apply _|]. split; [done|]. intros r g' Hpost.
  unfold delivery_post, embed, webhook_repo in Hpost. cbv zeta in Hpost.
  assert (forall e g', g' = g \/ g' = with_record (stored_delivery (dv_record g) (settled d st msg next now)) g ->
    goal (Err e) g') as Hfail.
  { intros e g1 [-> | ->]; (split; [first [by rewrite Hrec | exact Hs]|]); apply failed; try by split.
    - right. unfold terminal. rewrite Hrec, Hlive. split; [done|by left].
    - unfold terminal. cbn [with_record dv_record]. rewrite Hd, Ha. destruct Hst as [Hst | ->]; [by left|right].
      split; [done|]. destruct (Hn eq_refl) as [-> | ?]; [left; lia|]. assert (n = 0 \/ n = 1) as [-> | ->] by lia;
        [left; lia|by right]. }
  destruct r as [[]|e]; cbn [wp].
  - destruct Hpost as [[_ ->]|[? _]]; [by apply Hk|done].
  - apply Hfail. by destruct Hpost as [[_ ->]|[_ ->]]; [right|left].
Qed.

Lemma bind_ok_ret {A} (m : WM (result A)) Q g :
  wp T (bind_ok m (fun a => Ret (Ok a))) Q g -> wp T m Q g.
Proof.
  unfold bind_ok. revert g. induction m as [a|R c' e k IH]; intros g; cbn; [by destruct a|].
  apply contract_mono. intros r g'. apply IH.
Qed.

(** Every way an attempt ends for good. *)
Lemma ends_wp n g d st msg :
  underway n g d -> 0 <= n <= 1 -> IsTerminal st = true ->
  wp T (let! now := ask c Now in ask c (DelUpdate (settled d st msg None now))) goal g.
Proof.
  intros Hu Hn Hst. apply wp_bind; [apply _|]. split; [done|]. intros now g' Hg; cbn in Hg; subst g'. cbn [wp].
  apply bind_ok_ret. eapply stored_update_wp; [done|by intros ->|done|by left|].
  intros d' Hs Hd _. split; [exact Hs|]. destruct Hu as (_ & Hnm & _).
  apply ended; [unfold terminal; cbn; by rewrite Hd|exact Hnm].
Qed.

(** A retry: stored, then asked of the queue. *)
Lemma retryIn_wp n g d delay msg :
  underway n g d -> (n = 1 /\ dl_Attempts (dv_record g0) + n < maxAttempts s /\ delay <= 300 /\ dv_refused g = dv_refused g0 \/
                     n = 0 /\ delay = 30 /\ dv_refused g = S (dv_refused g0)) ->
  wp T (retryIn s c d delay msg) goal g.
Proof.
  intros Hu Hn. unfold retryIn. do 2 (apply wp_bind; [apply _|]; split; [done|];
    intros ? ? Hg; cbn in Hg; subst; cbn [wp]).
  eapply stored_update_wp; [done|intros _; destruct Hn as [(-> & ? & _)|(-> & _)]; [by right|by left]|
    destruct Hn as [(-> & _)|(-> & _)]; lia|by right|].
  intros d' Hs Hd Ha. rewrite Hq. apply wp_bind; [apply _|]. split; [done|]. intros ans g1 Hg. cbn [wp wok].
  unfold delivery_post, embed, webhook_own in Hg. destruct Hu as (_ & [Hq0 Hl0] & (Hid & Htn & _) & _).
  set (q := (mkDeliverTask _ _, delay)) in Hg.
  assert (q = (task_of (dv_record g0), delay)) as Hqe by (unfold q, task_of; cbn; by rewrite Hid, Htn).
  assert (one_more (task_of (dv_record g0), delay) g0 g1 /\ dv_record g1 = d' /\ dv_refused g1 = dv_refused g)
    as (Hmore & Hrec & Href).
  { rewrite <- Hqe. unfold one_more. destruct Hg as [-> |[_ ->]]; cbn; rewrite Hq0, Hl0; naive_solver. }
  assert (~ terminal g1) as Hnt by (unfold terminal; by rewrite Hrec, Hd).
  split; [by rewrite Hrec|]. destruct Hn as [(-> & Hmax & Hdel & Hr)|(-> & -> & Hr)].
  - apply (retried _ _ _ delay); try done; rewrite ?Hrec, ?Href; lia || done.
  - apply limited; try done; rewrite ?Hrec, ?Href; lia || done.
Qed.
End Running.

Lemma Deliver_wp c g :
  IsTerminal (dl_Status (dv_record g)) = false ->
  wp T (Deliver s c (dl_ID (dv_record g))) (goal g) g.
Proof.
  intros Hlive.
  assert (forall e g', dv_record g' = dv_record g -> no_more g g' -> goal g (Err e) g') as Hfail.
  { intros e g' Hr Hn. split; [by rewrite Hr|]. apply failed; [done|]. right. unfold terminal. rewrite Hr, Hlive.
    split; [done|by left]. }
  unfold Deliver. apply wp_bind_ok; [apply _|]. split; [done|].
  intros [d|e] g' [-> Hfind]; [|by apply Hfail]. cbn [wp].
  destruct (Hfind eq_refl d eq_refl) as [_ ->]. rewrite Hlive.
  assert (underway g 0 g (dv_record g)) as Hu by (by split_and!; [..|lia]).
  apply wp_bind; [apply _|]. split; [done|]. intros [sub|e] g' Hg; cbn in Hg; subst g'; cbn [wp].
  2:{ case_match; [|by apply Hfail]. by eapply ends_wp. }
  case_match; [by eapply ends_wp|].
  apply wp_bind; [apply _|].
  apply wp_mono with (P := fun allowed g' => g' = if (allowed : bool) then g else with_refusal g); [apply _| |].
  - intros allowed ? ->. destruct allowed; cbn [negb].
    + apply wp_bind; [apply _|]. split; [done|]. intros res g' Hg'; cbn in Hg'; subst g'. cbn [wp].
      assert (underway g 1 (with_request g) (attempted (dv_record g))) as Hu1 by by split_and!.
      case_match; [by eapply ends_wp|].
      unfold retryOrDead. destruct (Z.leb_spec (maxAttempts s) (dl_Attempts (attempted (dv_record g)))) as [|Hlt].
      * by eapply ends_wp.
      * apply (retryIn_wp c g Hlive 1 _ _ _ _ Hu1). left. split_and!; [done|exact Hlt|apply backoffSeconds_cap|done].
    + assert (underway g 0 (with_refusal g) (dv_record g)) as Hu0 by (by split_and!; [..|lia]).
      apply (retryIn_wp c g Hlive 0 _ _ _ _ Hu0). right. by split_and!.
  - destruct (has_limiter s); [|done].
    apply wp_bind; [apply _|]. split; [done|]. intros r1 g1' Hr; cbn in Hr. cbn [wp].
    destruct r1 as [[|]|]; done.
Qed.

(** A terminal record is left as it is. *)
Lemma Deliver_terminal_wp c g :
  terminal g -> wp T (Deliver s c (dl_ID (dv_record g))) (fun _ g' => g' = g) g.
Proof.
  intros Hend. unfold Deliver. apply wp_bind_ok; [apply _|]. split; [done|].
  intros [d|e] g' [-> Hfind]; [|done]. cbn [wp]. destruct (Hfind eq_refl d eq_refl) as [_ ->]. by rewrite Hend.
Qed.
End Attempts.

(** ** The end of every delivery *)

(** A world that keeps the contract. *)
Class DeliveryWorld {S} (h : handler Ctx WebhookPort S) (view : S -> DeliveryView) : Prop :=
  delivery_answers : forall R c (e : WebhookPort R) s,
    let '(r, s') := h R c e s in delivery_post R c e (view s) r (view s').

(** Of the attempts on one delivery, one after the other and each under a context of its own: how
    many ended without an error, and how many of these the limiter did not hold back. *)
Record Tally := mkTally { ta_ok : nat; ta_counted : nat }.

Section Worlds.
Context {S : Type} (h : handler Ctx WebhookPort S) (view : S -> DeliveryView) (svc : WebhookService).

Definition attempt (id : string) (s : S) (c : Ctx) : result unit * S := run h (Deliver svc c id) s.

Definition tallied (g : DeliveryView) (r : result unit) (g' : DeliveryView) (n : Tally) : Tally :=
  if is_ok r then
    mkTally (Datatypes.S (ta_ok n)) (if decide (dv_refused g' = dv_refused g) then Datatypes.S (ta_counted n) else ta_counted n)
  else n.

Fixpoint attempts (id : string) (cs : list Ctx) (s : S) : Tally * S :=
  match cs with
  | [] => (mkTally 0 0, s)
  | c :: cs =>
      let '(r, s1) := attempt id s c in
      let '(n, s2) := attempts id cs s1 in
      (tallied (view s) r (view s1) n, s2)
  end.

Context `{!DeliveryWorld h view} (Hq : has_enqueuer svc = true).

Lemma world_allows {R} c' (e : WebhookPort R) P s :
  delivery_contract R c' e P (view s) -> let '(r, s') := h R c' e s in P r (view s').
Proof.
  intros [_ HP]. pose proof (delivery_answers R c' e s) as Ha.
  destruct (h R c' e s). by apply HP.
Qed.

Lemma attempt_spec c s :
  ~ terminal (view s) ->
  let '(r, s') := attempt (dl_ID (dv_record (view s))) s c in goal svc (view s) r (view s').
Proof.
  intros Hlive%not_true_is_false.
  exact (wp_run _ h view _ _ s (fun R => world_allows) (Deliver_wp svc Hq c (view s) Hlive)).
Qed.

Lemma attempt_terminal c s :
  terminal (view s) -> view (attempt (dl_ID (dv_record (view s))) s c).2 = view s.
Proof.
  intros Hend.
  pose proof (wp_run _ h view _ _ s (fun R => world_allows) (Deliver_terminal_wp svc c (view s) Hend)) as Hr.
  unfold attempt. by destruct (run h _ s).
Qed.

Lemma attempts_terminal id cs s :
  terminal (view s) -> id = dl_ID (dv_record (view s)) -> view (attempts id cs s).2 = view s.
Proof.
  revert s. induction cs as [|c cs IH]; intros s Hend ->; [done|]. cbn [attempts].
  pose proof (attempt_terminal c s Hend) as Hv. destruct (attempt _ s c) as [r s1]. cbn in Hv.
  specialize (IH s1). rewrite Hv in IH. specialize (IH Hend eq_refl).
  destruct (attempts _ cs s1) as [n s2]. cbn in *. congruence.
Qed.

(** The attempts a delivery has left. *)
Definition attempts_left (g : DeliveryView) : Z := Z.max 1 (maxAttempts svc - dl_Attempts (dv_record g)).

Definition retry_of (g : DeliveryView) (q : DeliverTask * Z) : Prop := q.1 = task_of (dv_record g) /\ q.2 <= 300.

(** The retries queued and lost since. *)
Definition asked_since (g g' : DeliveryView) (n : nat) : Prop :=
  exists queued lost, dv_queue g' = dv_queue g ++ queued /\ dv_lost g' = dv_lost g ++ lost /\
    Forall (retry_of g) (queued ++ lost) /\ length (queued ++ lost) = n.

Lemma asked_one q g g1 g2 n :
  one_more q g g1 -> retry_of g q -> task_of (dv_record g1) = task_of (dv_record g) -> asked_since g1 g2 n ->
  asked_since g g2 (Datatypes.S n).
Proof.
  intros Hm Hr Ht (qs & ls & Hqs & Hls & Hall & Hlen).
  assert (Forall (retry_of g) (qs ++ ls)) as Hall' by (unfold retry_of in *; by rewrite <- Ht).
  destruct Hm as [[H1 H2]|[H1 H2]].
  - exists (q :: qs), ls. rewrite Hqs, Hls, H1, H2, <- app_assoc. split_and!; [done|done|by constructor|cbn; lia].
  - exists qs, (q :: ls). rewrite Hqs, Hls, H1, H2, <- app_assoc. split_and!; [done|done| |rewrite length_app in *; cbn; lia].
    apply Forall_app in Hall' as [? ?]. apply Forall_app. split; [done|by constructor].
Qed.

Lemma asked_none g g1 g2 n :
  no_more g g1 -> task_of (dv_record g1) = task_of (dv_record g) -> asked_since g1 g2 n -> asked_since g g2 n.
Proof. intros [H1 H2] Ht. unfold asked_since, retry_of. by rewrite H1, H2, Ht. Qed.

Lemma asked_nothing g : asked_since g g 0.
Proof. exists [], []. by rewrite !app_nil_r. Qed.

(** All of it, from any record on. *)
Definition progress (g : DeliveryView) (n : Tally) (g' : DeliveryView) : Prop :=
  same_delivery (dv_record g) (dv_record g') /\
  (attempts_left g <= Z.of_nat (ta_counted n) -> terminal g') /\
  exists asked, asked_since g g' asked /\ (asked <= ta_ok n)%nat /\ (~ terminal g' -> asked = ta_ok n).

Lemma attempts_progress cs s :
  let '(n, s') := attempts (dl_ID (dv_record (view s))) cs s in progress (view s) n (view s').
Proof.
  revert s. induction cs as [|c cs IH]; intros s.
  { split; [apply same_stored|]. split; [unfold attempts_left; cbn; lia|]. exists 0%nat. by split; [apply asked_nothing|]. }
  destruct (decide (terminal (view s))) as [Hend|Hlive].
  { pose proof (attempts_terminal _ (c :: cs) s Hend eq_refl) as Hv.
    destruct (attempts _ (c :: cs) s) as [n s']. cbn in Hv. unfold progress. rewrite Hv.
    split; [apply same_stored|]. split; [done|]. exists 0%nat. split; [apply asked_nothing|]. split; [lia|done]. }
  cbn [attempts]. pose proof (attempt_spec c s Hlive) as Ho. destruct (attempt _ s c) as [r s1].
  destruct Ho as [Hsame Ho].
  assert (dl_ID (dv_record (view s1)) = dl_ID (dv_record (view s))) as Hid by apply Hsame.
  assert (task_of (dv_record (view s1)) = task_of (dv_record (view s))) as Htask
    by (destruct Hsame as (Hi & Ht & _); unfold task_of; by rewrite Hi, Ht).
  specialize (IH s1). rewrite Hid in IH. pose proof (attempts_terminal (dl_ID (dv_record (view s))) cs s1) as Hstay.
  destruct (attempts _ cs s1) as [n s2]. cbn [snd] in Hstay. destruct IH as (Hsame2 & Hend2 & asked & Hask & Hle & Heq).
  assert (same_delivery (dv_record (view s)) (dv_record (view s2))) as Hsame' by by eapply same_delivery_trans.
  assert (terminal (view s1) -> no_more (view s) (view s1) ->
    progress (view s) (tallied (view s) r (view s1) n) (view s2)) as Hover.
  { intros Ht Hn. assert (view s2 = view s1) as Hv by by apply Hstay.
    split; [done|]. rewrite Hv. split; [done|]. exists 0%nat. split; [|split; [lia|done]].
    eapply asked_none; [done..|apply asked_nothing]. }
  unfold attempts_left in Hend2. split; [done|].
  destruct Ho as [g' Ht Hn|g' delay Ha Hm Hr Hd Hmore Ht|g' Ha Hr Hmore Ht|g' e Hn Hst]; unfold tallied; cbn [is_ok].
  - by apply Hover.
  - rewrite decide_True by done. cbn [ta_ok ta_counted]. split; [unfold attempts_left; intros ?; apply Hend2; lia|].
    exists (Datatypes.S asked). split; [by eapply asked_one|]. split; [lia|]. intros ?. by rewrite Heq.
  - rewrite decide_False by lia. cbn [ta_ok ta_counted]. split; [unfold attempts_left; rewrite <- Ha; exact Hend2|].
    exists (Datatypes.S asked). split; [by eapply asked_one|]. split; [lia|]. intros ?. by rewrite Heq.
  - destruct Hst as [Ht|[Ht Ha]]; [by apply Hover|]. split; [unfold attempts_left; intros ?; apply Hend2; lia|].
    exists asked. split; [by eapply asked_none|]. by split.
Qed.
End Worlds.

(** C22. Every delivery ends, when the queue of retries is wired. Over any attempts on it, one after
    the other, whatever the endpoint
    answers and whichever calls fail: once as many attempts as it had left ended without an error
    and were not held back by the limiter, the delivery is delivered or dead, and stays as it is.
    Until then each attempt that ended without an error asked for exactly one retry of it, within
    five minutes: queued, or lost when the queue refused it (its error is dropped); an attempt that
    ended with an error is repeated by the task queue and asked for none. *)
Theorem every_delivery_ends {S} (h : handler Ctx WebhookPort S) (view : S -> DeliveryView)
    `{!DeliveryWorld h view} (svc : WebhookService) (cs : list Ctx) (s : S) :
  has_enqueuer svc = true ->
  let id := dl_ID (dv_record (view s)) in
  let '(n, s') := attempts h view svc id cs s in
  same_delivery (dv_record (view s)) (dv_record (view s')) /\
  (attempts_left svc (view s) <= Z.of_nat (ta_counted n) -> terminal (view s')) /\
  (terminal (view s') -> forall cs', view (attempts h view svc id cs' s').2 = view s') /\
  exists asked, asked_since (view s) (view s') asked /\ (asked <= ta_ok n)%nat /\
    (~ terminal (view s') -> asked = ta_ok n).
Proof.
  intros Hq id. pose proof (attempts_progress h view svc Hq cs s) as Hp. fold id in Hp.
  destruct (attempts h view svc id cs s) as [n s']. destruct Hp as (Hs & Hend & Hask). split_and!; [done|done| |done].
  intros Ht cs'. apply (attempts_terminal h view svc id cs' s' Ht). symmetry. apply Hs.
Qed.

(** ** A world of one delivery *)

Module Endpoint.
Definition sub : WebhookSubscription :=
  mkSubscription "w1" "acme" "hook" "https://a.example" [EventMessageCreated] [] "secret" true 0
    "" "ana" 1 1.
Definition pending : WebhookDelivery :=
  newDelivery "d1" "acme" "w1" EventMessageCreated "{}" 1.
Definition ctx : Ctx := WithTenant Background "acme".
Definition svc : WebhookService :=
  mkWebhookService true true false defaultMaxAttempts
    (fun id event _ _ => Ok (id +:+ ":" +:+ event)) (fun _ => Some ("https", "a.example")).

(** What is known of the delivery, and what the next updates and the next enqueueings will answer:
    an update whose answer is lost takes effect, an enqueueing that fails does not. *)
Record State := mkState { st_view : DeliveryView; st_lost_answers : list bool; st_refused_retries : list bool }.

Definition set_view (v : DeliveryView) (s : State) : State := mkState v (st_lost_answers s) (st_refused_retries s).
Definition fresh : State := mkState (mkDeliveryView pending [] [] 0 0) [] [].
Definition timeout : error := PlainErr "timeout" None.

Definition infra {R} (e : Infra R) : R :=
  match e in Infra R return R with
  | Now => 7 | SystemNow => 7 | NewID => "id" | Publish _ _ _ => Ok tt | PublishBatch _ => Ok tt
  | WebhookMatches _ _ _ => false | WebhookDeliver _ _ _ _ => tt | EmitRuleEvent _ _ _ _ => tt
  | Notify _ => tt | AuditRecord _ => Ok tt | QueueChanged _ _ => tt
  | Acquire k _ => Ok (k, true) | Release _ => tt
  end.

Definition own (c : Ctx) (id : string) (s : State) : bool :=
  match RequireTenant c with
  | Ok t => (t =! dl_TenantID (dv_record (st_view s))) && (id =! dl_ID (dv_record (st_view s)))
  | Err _ => false
  end.

Definition repo {R} (c : Ctx) (e : WebhookRepo R) (s : State) : R * State :=
  let g := st_view s in
  match e in WebhookRepo R return R * State with
  | SubCreate _ => (Ok tt, s) | SubUpdate _ => (Ok tt, s) | SubDelete _ => (Ok tt, s)
  | SubFindByID _ => (Ok sub, s) | SubList _ => (Ok [sub], s)
  | SubListEnabledByEvent _ _ => (Ok [sub], s) | SubFindByChannelID _ => (Ok sub, s)
  | DelCreate _ => (Ok tt, s)
  | DelUpdate d =>
      if own c (dl_ID d) s then
        (if default false (head (st_lost_answers s)) then Err timeout else Ok tt,
         mkState (with_record (stored_delivery (dv_record g) d) g) (tail (st_lost_answers s)) (st_refused_retries s))
      else (Err (NotFound "no delivery"), s)
  | DelFindByID id => (if own c id s then Ok (dv_record g) else Err (NotFound "no delivery"), s)
  | DelListByWebhook _ _ => (Ok [dv_record g], s)
  end.

(** [status n] is the answer to the [n]th request. *)
Definition answering (status : nat -> Z) : handler Ctx WebhookPort State := fun R c e s =>
  let g := st_view s in
  match e in WebhookPort R return R * State with
  | WhInfra e => (infra e, s)
  | WhRepo e => repo c e s
  | Send _ _ => ((status (dv_sent g), None), set_view (with_request g) s)
  | EnqueueDeliver _ => (Ok tt, s)
  | EnqueueRetry t n =>
      let refused := default false (head (st_refused_retries s)) in
      (if refused then Err timeout else Ok tt,
       mkState (if refused then with_loss (t, n) g else with_retry (t, n) g) (st_lost_answers s)
         (tail (st_refused_retries s)))
  | RateAllow _ _ => (Ok true, s)
  | UsageInUse _ => (Ok (false, ""), s)
  | RandomToken _ => ("token", s)
  end.

Definition down : handler Ctx WebhookPort State := answering (fun _ => 503).
Definition recovering : handler Ctx WebhookPort State :=
  answering (fun n => if (n <? 2)%nat then 503 else 204).
End Endpoint.

#[export] Instance endpoint_world status : DeliveryWorld (Endpoint.answering status) Endpoint.st_view.
Proof.
  assert (forall c id s, Endpoint.own c id s = true ->
    RequireTenant c = Ok (dl_TenantID (dv_record (Endpoint.st_view s))) /\ id = dl_ID (dv_record (Endpoint.st_view s))) as Hown.
  { unfold Endpoint.own. intros c id s. destruct (RequireTenant c) as [t|]; [|done]. intros Ho. prop_bools. by subst. }
  intros R c e s. destruct e as [R e|R e| | | | | |]; try done.
  - destruct e; try done; cbn.
    + destruct (Endpoint.own c (dl_ID d) s) eqn:Ho; [|by right]. left. split; [by apply Hown|done].
    + split; [done|]. intros ->. intros d. case_match eqn:Ho; [|done]. intros [= <-]. split; [|done]. by eapply Hown.
  - cbn. case_match; [by right|by left].
Qed.

(** A dead endpoint is given up on after six attempts, with growing delays; one that
    recovers gets its delivery at the third. *)
Example endpoint_down :
  let g := Endpoint.st_view
    (attempts Endpoint.down Endpoint.st_view Endpoint.svc "d1" (replicate 6 Endpoint.ctx) Endpoint.fresh).2 in
  dl_Status (dv_record g) = DeliveryDead /\ dl_Attempts (dv_record g) = 6 /\
  dl_LastError (dv_record g) = "endpoint returned status 503" /\
  map snd (dv_queue g) = [2; 4; 8; 16; 32].
Proof. by vm_compute. Qed.

Example endpoint_recovers :
  let g := Endpoint.st_view
    (attempts Endpoint.recovering Endpoint.st_view Endpoint.svc "d1" (replicate 3 Endpoint.ctx) Endpoint.fresh).2 in
  dl_Status (dv_record g) = DeliveryDelivered /\ dv_sent g = 3%nat.
Proof. by vm_compute. Qed.

(** The answer of the first update is lost, so that attempt is repeated without a retry; the queue
    refuses the retry of the next. *)
Lemma every_delivery_ends_witness :
  let s := Endpoint.mkState (Endpoint.st_view Endpoint.fresh) [true] [true] in
  let '(n, s') := attempts Endpoint.down Endpoint.st_view Endpoint.svc "d1" (replicate 7 Endpoint.ctx) s in
  (n = mkTally 6 6 /\ map snd (dv_queue (Endpoint.st_view s')) = [8; 16; 32] /\
   map snd (dv_lost (Endpoint.st_view s')) = [4]) /\
  terminal (Endpoint.st_view s').
Proof.
  cbv zeta. set (s := Endpoint.mkState _ _ _).
  pose proof (every_delivery_ends Endpoint.down Endpoint.st_view Endpoint.svc (replicate 7 Endpoint.ctx) s eq_refl) as H.
  cbv zeta in H. change (dl_ID (dv_record (Endpoint.st_view s))) with "d1" in H.
  destruct (attempts _ _ _ "d1" _ s) as [n s'] eqn:He. destruct H as (_ & Hend & _).
  assert (n = mkTally 6 6 /\ map snd (dv_queue (Endpoint.st_view s')) = [8; 16; 32] /\
          map snd (dv_lost (Endpoint.st_view s')) = [4]) as Hall.
  { vm_compute in He. injection He as <- <-. by vm_compute. }
  split; [exact Hall|]. destruct Hall as (-> & _). apply Hend. by vm_compute.
Defined.

(** ** The fan-out of an event *)

(** The subscriptions listed, the deliveries stored and the tasks enqueued. *)
Record FanView := mkFanView {
  fv_subs : list WebhookSubscription; fv_created : list WebhookDelivery;
  fv_enqueued : list DeliverTask }.

Definition fan_post (R : Type) (c : Ctx) (e : WebhookPort R) (g : FanView) (r : R) (g' : FanView)
  : Prop :=
  match e in WebhookPort R return R -> Prop with
  | WhRepo e =>
      match e in WebhookRepo R return R -> Prop with
      | SubListEnabledByEvent _ _ => fun r =>
          g' = match r with
               | Ok subs => mkFanView subs (fv_created g) (fv_enqueued g)
               | Err _ => g end
      | DelCreate d => fun r =>
          r = Ok tt /\ g' = mkFanView (fv_subs g) (fv_created g ++ [d]) (fv_enqueued g)
      | _ => fun _ => g' = g
      end
  | EnqueueDeliver t => fun _ => g' = mkFanView (fv_subs g) (fv_created g) (fv_enqueued g ++ [t])
  | _ => fun _ => g' = g
  end r.

(** Once subscriptions are listed, the listing is that of the tenant and the event. *)
Definition fan_pre (tenantID wire : string) (R : Type) (c : Ctx) (e : WebhookPort R) (g : FanView)
  : Prop :=
  match e with
  | WhRepo (SubListEnabledByEvent t ev) => t = tenantID /\ ev = wire /\ fv_subs g = []
  | WhRepo (DelCreate d) => length (fv_created g) = length (fv_enqueued g)
  | WhRepo (SubCreate _ | SubUpdate _ | SubDelete _ | DelUpdate _) => False
  | _ => fv_subs g <> []
  end.

Definition fan_contract (tenantID wire : string) : contract Ctx WebhookPort FanView :=
  pre_post (fan_pre tenantID wire) fan_post.

(** A delivery of the event to the subscription. *)
Definition delivery_for (s : WebhookService) (tenantID wire : string) (sub : WebhookSubscription)
    (d : WebhookDelivery) : Prop :=
  dl_TenantID d = tenantID /\ dl_WebhookID d = sb_ID sub /\ dl_Event d = wire /\
  dl_Status d = DeliveryPending /\ dl_Attempts d = 0 /\
  exists now payload, buildEnvelope s (dl_ID d) wire now payload = Ok (dl_Payload d).

Definition in_scope (sectorID : string) (sub : WebhookSubscription) : Prop :=
  sb_Scopes sub = [] \/ sectorID <> "" /\ sectorID ∈ sb_Scopes sub.

#[export] Instance in_scope_dec sectorID sub : Decision (in_scope sectorID sub).
Proof. apply _. Defined.

Lemma scopeAllows_spec scopes sub sectorID :
  sb_Scopes sub = scopes -> scopeAllows scopes sectorID = true <-> in_scope sectorID sub.
Proof.
  intros <-. unfold scopeAllows, in_scope. destruct (sb_Scopes sub) as [|x xs] eqn:Hs; cbn [length Nat.eqb].
  { split; [by left|done]. }
  case_match; prop_bools.
  - split; [done|]. intros [?|[? _]]; done.
  - rewrite existsb_exists. split.
    + intros (y & Hy%list_elem_of_In & Heq). prop_bools. subst. right. by split.
    + intros [?|[_ Hin]]; [done|]. exists sectorID. split; [by apply list_elem_of_In|].
      by apply bool_decide_eq_true.
Qed.

Section Fan.
Context (s : WebhookService) (Hq : has_enqueuer s = true) (tenantID wire sectorID : string).
Context (Henv : forall id now p, is_ok (buildEnvelope s id wire now p) = true).

Let T := fan_contract tenantID wire.
#[local] Instance fan_mono : Monotone T.
Proof. apply pre_post_mono. Qed.

(** The deliveries so far are those of the subscriptions gone through. *)
Definition fanned (done : list WebhookSubscription) (subs : list WebhookSubscription) (g : FanView)
  : Prop :=
  fv_subs g = subs /\ fv_enqueued g = map task_of (fv_created g) /\
  Forall2 (delivery_for s tenantID wire) (filter (in_scope sectorID) done) (fv_created g).

Lemma emitOne_wp c now payload gone subs sub g :
  subs <> [] -> fanned gone subs g ->
  wp T (emitOne s c tenantID wire sectorID now payload sub)
    (fun _ => fanned (gone ++ [sub]) subs) g.
Proof.
  intros Hne (Hsubs & Hen & Hall). unfold emitOne.
  destruct (scopeAllows (sb_Scopes sub) sectorID) eqn:Hsc; cbn [negb].
  2:{ split_and!; [done|done|]. rewrite filter_app, filter_cons_False, app_nil_r; [done|].
      intros H. by rewrite (proj2 (scopeAllows_spec _ sub sectorID eq_refl) H) in Hsc. }
  apply (scopeAllows_spec _ sub sectorID eq_refl) in Hsc.
  apply wp_bind; [apply _|]. split; [by rewrite <- Hsubs in Hne|].
  intros id g' Hg'; cbn in Hg'; subst g'. cbn [wp].
  pose proof (Henv id now payload) as He. destruct (buildEnvelope s id wire now payload) as [body|e] eqn:Hb; [|done].
  apply wp_bind; [apply _|]. split; [cbn; by rewrite Hen, length_map|].
  intros r g' [-> ->]. cbn [wp]. unfold enqueueDeliver. rewrite Hq.
  apply wp_bind; [apply _|]. split; [by rewrite <- Hsubs in Hne|].
  intros r' g' Hg'; cbn in Hg'; subst g'. cbn [wp]. split_and!; cbn.
  - done.
  - by rewrite map_app, Hen.
  - rewrite filter_app, filter_cons_True, filter_nil by done.
    apply Forall2_app; [done|]. constructor; [|done]. split_and!; try done. by exists now, payload.
Qed.
Lemma emitAll_wp c now payload gone todo subs g :
  subs <> [] -> fanned gone subs g ->
  wp T (for_each todo (emitOne s c tenantID wire sectorID now payload))
    (fun _ => fanned (gone ++ todo) subs) g.
Proof.
  intros Hne. revert gone g. induction todo as [|sub todo IH]; intros gone g Hg; cbn [for_each].
  { by rewrite app_nil_r. }
  apply wp_bind; [apply _|]. eapply wp_mono; [apply _| |by apply emitOne_wp].
  intros [] g' Hg'. rewrite (cons_middle sub gone todo), app_assoc. by apply IH.
Qed.

(** The calls a payload builder makes. *)
Definition builds (R : Type) (c : Ctx) (e : WebhookPort R) : Prop :=
  match e with WhInfra _ | UsageInUse _ | RandomToken _ => True | _ => False end.

Lemma build_wp {A} (build : WM A) (Q : A -> FanView -> Prop) g :
  calls builds build -> fv_subs g <> [] -> (forall a, Q a g) -> wp T build Q g.
Proof.
  intros Hb Hne HQ. induction build as [a|R c e k IH]; cbn; [done|]. destruct Hb as [He Hk].
  split; [by destruct e|]. intros r g' Hg'. assert (g' = g) as -> by (by destruct e). by apply IH.
Qed.
End Fan.

(** An event reaches exactly the subscriptions of its tenant that listen to it and whose
    scopes allow its sector: each gets one pending delivery, enqueued once after it is
    stored; and without a subscription the payload is never built. *)
Theorem emit_reaches_subscribers (s : WebhookService) (c : Ctx)
    (tenantID event wire sectorID : string) (build : WM Payload) :
  has_enqueuer s = true ->
  (forall id now p, is_ok (buildEnvelope s id wire now p) = true) ->
  calls builds build -> WireEvent event = Some wire ->
  wp (fan_contract tenantID wire) (emit s c tenantID event sectorID build)
    (fun _ g => Forall2 (delivery_for s tenantID wire) (filter (in_scope sectorID) (fv_subs g))
                  (fv_created g) /\
                fv_enqueued g = map task_of (fv_created g))
    (mkFanView [] [] []).
Proof.
  intros Hq Henv Hb Hw. unfold emit. case_match; [by split; [constructor|]|]. rewrite Hw.
  assert (Monotone (fan_contract tenantID wire)) as Hmono by apply pre_post_mono.
  apply wp_bind; [done|]. split; [done|]. intros r g' Hg'; cbn in Hg'; subst g'. cbn [wp].
  destruct r as [[|sub subs]|e]; [by split; [constructor|]| |by split; [constructor|]].
  apply wp_bind; [done|]. apply build_wp; [done|done|]. intros payload.
  apply wp_bind; [done|]. split; [done|]. intros now g' Hg'; cbn in Hg'; subst g'. cbn [wp].
  eapply wp_mono; [done| |eapply (emitAll_wp s Hq tenantID wire sectorID Henv c now payload []);
    [|split_and!; [reflexivity|done|constructor]]; done].
  intros [] g (-> & Hen & Hall). by split.
Qed.

Lemma emit_reaches_subscribers_witness :
  WireEvent "message.created" = Some EventMessageCreated /\
  wp (fan_contract "acme" EventMessageCreated)
    (Emit Endpoint.svc Background "acme" "message.created" "s1" (PData []))
    (fun _ g => Forall2 (delivery_for Endpoint.svc "acme" EventMessageCreated)
                  (filter (in_scope "s1") (fv_subs g)) (fv_created g) /\
                fv_enqueued g = map task_of (fv_created g))
    (mkFanView [] [] []).
Proof. split; [reflexivity|]. apply emit_reaches_subscribers; reflexivity || exact I. Defined.

(** ** Managed subscriptions *)

(** Stored subscriptions listen to something, to known events only, without repetition. *)
Definition well_formed_subscription (s : WebhookService) (sub : WebhookSubscription) : Prop :=
  sb_Events sub <> [] /\ NoDup (sb_Events sub) /\
  (forall e, e ∈ sb_Events sub -> e ∈ SupportedEvents) /\
  exists raw, SubSvc.validateURL s raw = Ok tt /\ sb_URL sub = trim_space raw.

Lemma IsSupportedEvent_spec e : IsSupportedEvent e = true <-> e ∈ SupportedEvents.
Proof.
  unfold IsSupportedEvent. rewrite existsb_exists. split.
  - intros (x & Hx%list_elem_of_In & Heq). prop_bools. by subst.
  - intros He. exists e. split; [by apply list_elem_of_In|by apply bool_decide_eq_true].
Qed.

Lemma normalize_events_spec seen l out :
  SubSvc.normalize_events seen l = Ok out ->
  NoDup out /\ Forall (fun e => e ∈ SupportedEvents /\ e ∉ seen) out /\
  (forall e, e ∈ l -> trim_space e ∈ out \/ trim_space e ∈ seen).
Proof.
  revert seen out. induction l as [|e l IH]; intros seen out; cbn [SubSvc.normalize_events].
  { intros [= <-]. split_and!; [constructor|done|]. by intros e ?%elem_of_nil. }
  case_match eqn:Hs; [done|]. prop_bools. apply IsSupportedEvent_spec in Hs. case_decide as Hin.
  - intros (Hnd & Hall & Hcov)%IH. split_and!; [done..|].
    intros e' [->|He']%elem_of_cons; [by right|by apply Hcov].
  - case_match eqn:Hrec; [|done]. intros [= <-]. apply IH in Hrec as (Hnd & Hall & Hcov).
    rewrite Forall_forall in Hall. split_and!.
    + constructor; [|done]. intros He. destruct (Hall _ He) as [_ Hn]. set_solver.
    + constructor; [done|]. apply Forall_forall. intros x Hx. destruct (Hall x Hx). set_solver.
    + intros e' [->|He']%elem_of_cons; [left; by left|]. destruct (Hcov _ He') as [?|?]; [left; by right|].
      set_solver.
Qed.

Lemma normalizeEvents_spec l out :
  SubSvc.normalizeEvents l = Ok out ->
  out <> [] /\ NoDup out /\ (forall e, e ∈ out -> e ∈ SupportedEvents).
Proof.
  unfold SubSvc.normalizeEvents. destruct l as [|e l]; [done|]. cbn [length Nat.eqb].
  intros (Hnd & Hall & Hcov)%normalize_events_spec. rewrite Forall_forall in Hall. split_and!; [|done|].
  - intros ->. destruct (Hcov e) as [?%elem_of_nil|?]; [by left|done|set_solver].
  - intros x Hx. by apply Hall.
Qed.

(** The subscription last read, and the webhooks found unused. *)
Record SubView := mkSubView { sv_read : option WebhookSubscription; sv_unused : gset string }.

Definition sub_pre (s : WebhookService) (R : Type) (c : Ctx) (e : WebhookPort R) (g : SubView)
  : Prop :=
  match e with
  | WhRepo (SubCreate x) =>
      Managed x = false /\ well_formed_subscription s x /\ RequireTenant c = Ok (sb_TenantID x)
  | WhRepo (SubUpdate x) => exists old, sv_read g = Some old /\ Managed old = false /\
      well_formed_subscription s x /\ sb_ID x = sb_ID old /\ sb_TenantID x = sb_TenantID old /\
      sb_Secret x = sb_Secret old /\ Managed x = false
  | WhRepo (SubDelete id) => exists old, sv_read g = Some old /\ Managed old = false /\
      (has_usage s = true -> id ∈ sv_unused g)
  | WhRepo (DelCreate _ | DelUpdate _) => False
  | _ => True
  end.

(** What is stored is well formed, or managed by a channel. *)
Definition sub_post (s : WebhookService) (R : Type) (c : Ctx) (e : WebhookPort R) (g : SubView)
    (r : R) (g' : SubView) : Prop :=
  match e in WebhookPort R return R -> Prop with
  | WhRepo e =>
      match e in WebhookRepo R return R -> Prop with
      | SubFindByID id => fun r => match r with
          | Ok sub => (Managed sub = true \/ well_formed_subscription s sub) /\
                      g' = mkSubView (Some sub) (sv_unused g)
          | Err _ => g' = g end
      | _ => fun _ => g' = g
      end
  | UsageInUse id => fun r => match r with
      | Ok (false, _) => g' = mkSubView (sv_read g) ({[id]} ∪ sv_unused g)
      | _ => g' = g end
  | _ => fun _ => g' = g
  end r.

Definition sub_contract (s : WebhookService) : contract Ctx WebhookPort SubView :=
  pre_post (sub_pre s) (sub_post s).

(** The operations of the API on a subscription. *)
Inductive SubOp :=
| OpCreate (cmd : CreateSubscription) | OpUpdate (id : string) (cmd : UpdateSubscription)
| OpDelete (id : string).

Definition perform (s : WebhookService) (c : Ctx) (op : SubOp) : WM bool :=
  match op with
  | OpCreate cmd => let! r := SubSvc.Create s c cmd in Ret (is_ok r)
  | OpUpdate id cmd => let! r := SubSvc.Update s c id cmd in Ret (is_ok r)
  | OpDelete id => let! r := SubSvc.Delete s c id in Ret (is_ok r)
  end.

Section Subscriptions.
Context (s : WebhookService) (c : Ctx).

Let T := sub_contract s.
#[local] Instance sub_mono : Monotone T.
Proof. apply pre_post_mono. Qed.

Lemma applySubUpdate_spec cmd sub sub' :
  SubSvc.applySubUpdate s cmd sub = Ok sub' -> well_formed_subscription s sub ->
  well_formed_subscription s sub' /\ sb_ID sub' = sb_ID sub /\ sb_TenantID sub' = sb_TenantID sub /\
  sb_Secret sub' = sb_Secret sub /\ Managed sub' = Managed sub.
Proof.
  unfold SubSvc.applySubUpdate. intros Hr (Hne & Hnd & Hsup & Hurl).
  destruct (usb_URL cmd) as [u|]; [destruct (SubSvc.validateURL s u) as [[]|e] eqn:Hu; [|done]|];
    cbn [res_map] in Hr;
    (destruct (usb_Events cmd) as [l|];
      [destruct (SubSvc.normalizeEvents l) as [evs|e] eqn:Hl; [apply normalizeEvents_spec in Hl|done]|]);
    injection Hr as <-; split; try (by split_and!); split_and!; cbn; try done; try (by apply Hl);
    by exists u.
Qed.

Lemma lookup_wp {A} (m : WM A) (Q : A -> SubView -> Prop) g :
  calls builds m -> (forall a g', sv_read g' = sv_read g -> sv_unused g ⊆ sv_unused g' -> Q a g') ->
  wp T m Q g.
Proof.
  intros Hm. revert g. induction m as [a|R c' e k IH]; cbn; intros g HQ; [by apply HQ|].
  destruct Hm as [He Hk]. split; [by destruct e|]. intros r g' Hg'.
  assert (sv_read g' = sv_read g /\ sv_unused g ⊆ sv_unused g') as [Hr Hu].
  { destruct e; try done; cbn in Hg'; try by subst. destruct r as [[[|] ?]|]; subst; cbn; set_solver. }
  apply IH; [done|]. intros a g'' Hr' Hu'. apply HQ; [congruence|set_solver].
Qed.

Lemma Create_wp cmd g : wp T (SubSvc.Create s c cmd) (fun _ _ => True) g.
Proof.
  unfold SubSvc.Create. destruct (RequireTenant c) as [t|e] eqn:Ht; [|done].
  cbn [bind_ok bind]. destruct (SubSvc.validateURL s (csb_URL cmd)) as [[]|e] eqn:Hu; [|done].
  cbn [bind_ok bind]. destruct (SubSvc.normalizeEvents _) as [evs|e] eqn:He; [|done].
  apply normalizeEvents_spec in He. cbn [bind_ok bind].
  apply wp_bind; [apply _|]. apply lookup_wp; [case_match; by repeat split|]. intros secret g1 _ _.
  apply wp_bind; [apply _|]. split; [done|]. intros now g2 _.
  apply wp_bind; [apply _|]. split; [done|]. intros id g3 _. cbn [wp].
  apply wp_bind_ok; [apply _|]. split.
  - split; [done|]. split; [|done]. split_and!; try by apply He. by exists (csb_URL cmd).
  - intros [[]|e] g4 _; [|done]. apply wp_bind; [apply _|]. by split.
Qed.

Lemma Update_wp id cmd g : wp T (SubSvc.Update s c id cmd) (fun _ _ => True) g.
Proof.
  unfold SubSvc.Update. destruct (RequireTenant c) as [t|e] eqn:Ht; [|done]. cbn [bind_ok bind].
  apply wp_bind_ok; [apply _|]. split; [done|]. intros [sub|e] g1 Hg1; [|done]. cbn in Hg1.
  destruct Hg1 as [Hwf ->]. cbn [wp]. destruct (Managed sub) eqn:Hm; [done|].
  destruct Hwf as [?|Hwf]; [done|].
  destruct (SubSvc.applySubUpdate s cmd sub) as [sub'|e] eqn:Ha; [|done]. cbn [bind_ok bind].
  destruct (applySubUpdate_spec _ _ _ Ha Hwf) as (Hwf' & Hid & Hten & Hsec & Hm').
  apply wp_bind; [apply _|]. split; [done|]. intros now g2 Hg2; cbn in Hg2; subst g2. cbn [wp].
  apply wp_bind_ok; [apply _|]. split.
  - exists sub. split_and!; try done. by rewrite <- Hm, <- Hm'.
  - intros [[]|e] g3 _; [|done]. apply wp_bind; [apply _|]. by split.
Qed.

Lemma Delete_wp id g : wp T (SubSvc.Delete s c id) (fun _ _ => True) g.
Proof.
  unfold SubSvc.Delete. destruct (RequireTenant c) as [t|e] eqn:Ht; [|done]. cbn [bind_ok bind].
  apply wp_bind_ok; [apply _|]. split; [done|]. intros [sub|e] g1 Hg1; [|done]. cbn in Hg1.
  destruct Hg1 as [_ ->]. cbn [wp]. destruct (Managed sub) eqn:Hm; [done|].
  assert (forall g, sv_read g = Some sub -> (has_usage s = true -> id ∈ sv_unused g) ->
    wp T (try! _ := ask c (SubDelete id) in
          do! ask c (AuditRecord (mkAudit "webhook.deleted" "webhook" id [])) in wok tt)
      (fun _ _ => True) g) as Hdel.
  { intros g' Hr Hu. apply wp_bind_ok; [apply _|]. split; [by exists sub|].
    intros [[]|e] g2 _; [|done]. apply wp_bind; [apply _|]. by split. }
  destruct (has_usage s) eqn:Hus; [|by apply Hdel].
  apply wp_bind_ok; [apply _|]. apply wp_bind_ok; [apply _|]. split; [done|].
  intros [[[|] by_]|e] g2 Hg2; [done| |done]. cbn in Hg2. subst g2. cbn [wp].
  apply Hdel; [done|]. intros _. cbn. set_solver.
Qed.
End Subscriptions.

(** The API never touches a subscription a channel manages, never deletes one a rule uses,
    keeps the secret, the id and the tenant of an updated one, and only stores
    subscriptions to a valid http(s) URL with at least one event, all known, none twice. *)
Theorem subscriptions_are_protected (s : WebhookService) (c : Ctx) (op : SubOp) (g : SubView) :
  wp (sub_contract s) (perform s c op) (fun _ _ => True) g.
Proof.
  assert (Monotone (sub_contract s)) as Hmono by apply pre_post_mono.
  destruct op; cbn [perform]; apply wp_bind; try done; eapply wp_mono;
    [done| |apply Create_wp|done| |apply Update_wp|done| |apply Delete_wp]; done.
Qed.
