(* ===== verification/Redis.v ===== *)
(** * Redis clients (infra/redis, infra/presence, infra/automationrules, infra/webhooks)

    The locker, the deduper, the fixed-window limiters and the presence store, as
    programs over the Redis commands they send. Redis itself is a port: [RedisWorld]
    states the documented behaviour of those commands, errors included. *)
From S2P Require Import Prelude GoStrings AppError Authz Shared ConvEntity Prog Ports Presence.

(** ** Commands *)

(** The queued commands of a [TxPipeline]. *)
Inductive TxCmd :=
| ZAdd (key : string) (score : Z) (member : string)
| TxExpire (key : string) (ttl : Z)
| HSet (key : string) (fields : gmap string string)
| SAdd (key member : string)
| SRem (key member : string)
| TxDel (key : string).

(** [Unlock] is the script of lock.go. Scores are whole milliseconds, which a float64
    holds exactly. [TimeNow] is a direct [time.Now()]. *)
Inductive RedisPort : Type -> Type :=
| RNewID : RedisPort string
| TimeNow : RedisPort Time
| SetNX (key val : string) (ttl : Z) : RedisPort (result bool)
| Unlock (key token : string) : RedisPort (result Z)
| Incr (key : string) : RedisPort (result Z)
| Expire (key : string) (ttl : Z) : RedisPort (result bool)
| ZCard (key : string) : RedisPort (result Z)
| ZRem (key member : string) : RedisPort (result Z)
| ZRemRangeByScore (key : string) (below : Z) : RedisPort (result Z)
| Del (key : string) : RedisPort (result Z)
| HGetAll (key : string) : RedisPort (result (gmap string string))
| SMembers (key : string) : RedisPort (result (list string))
| TxPipeline (cmds : list TxCmd) : RedisPort (result unit).

#[export] Instance redis_own : Embed RedisPort RedisPort := fun R e => e.

Abbreviation RdM := (prog Ctx RedisPort).

(** ** The locker (infra/redis/lock.go) *)

Module Locker.
(** What the [release] closure captures; [None] for the one that does nothing. *)
Definition Held : Type := option (string * string).

Definition Acquire (c : Ctx) (key : string) (ttl : Z) : RdM (result (Held * bool)) :=
  let! token := ask c RNewID in
  let! r := ask c (SetNX key token ttl) in
  match r with
  | Err e => Ret (Err e)
  | Ok false => Ret (Ok (None, false))
  | Ok true => Ret (Ok (Some (key, token), true))
  end.

(** [release]: under a context of its own, its error dropped. *)
Definition release (held : Held) : RdM unit :=
  match held with
  | None => Ret tt
  | Some (key, token) => do! ask Background (Unlock key token) in Ret tt
  end.
End Locker.

(** ** The deduper and the budget of rules (infra/automationrules) *)

Definition dedupWindow : Z := 1 * Hour.

Definition Dedup_Allow (c : Ctx) (key : string) : RdM (result bool) :=
  let! r := ask c (SetNX key "1" dedupWindow) in
  match r with
  | Err _ => Ret (Ok true)
  | Ok set => Ret (Ok set)
  end.

Definition budgetMax : Z := 100.
Definition budgetWindow : Z := 10 * Minute.

(** What the fixed-window limiters share: count, and arm the window at the first. *)
Definition window_count (c : Ctx) (key : string) (window : Z) : RdM (option Z) :=
  let! r := ask c (Incr key) in
  match r with
  | Err _ => Ret None
  | Ok n =>
      do! (when! n =? 1 do (do! ask c (Expire key window) in Ret tt)) in
      Ret (Some n)
  end.

Definition AllowAutomationMessage (c : Ctx) (conversationID : string) : RdM (result bool) :=
  match RequireTenant c with
  | Err _ => Ret (Ok true)
  | Ok tenantID =>
      let! n := window_count c ("autom:budget:" +:+ tenantID +:+ ":" +:+ conversationID) budgetWindow in
      match n with
      | None => Ret (Ok true)
      | Some n => Ret (Ok (n <=? budgetMax))
      end
  end.

(** ** The delivery limiter (infra/webhooks/ratelimit.go) *)

Definition webhook_window : Z := Minute.

Definition webhookKey (webhookID : string) : string := "webhook:rl:" +:+ webhookID.

Definition Webhook_Allow (c : Ctx) (webhookID : string) (limitPerMin : Z) : RdM (result bool) :=
  if limitPerMin <=? 0 then Ret (Ok true)
  else
    let! n := window_count c (webhookKey webhookID) webhook_window in
    match n with
    | None => Ret (Ok true)
    | Some n => Ret (Ok (n <=? limitPerMin))
    end.

(** ** The presence store (infra/presence/store.go) *)

Definition presenceTTL : Z := 60 * Second.

Definition presenceKey (tenant user : string) : string :=
  "presence:" +:+ tenant +:+ ":" +:+ user.
Definition agentsKey (tenant : string) : string := "presence:agents:" +:+ tenant.
Definition connsKey (tenant user : string) : string :=
  "presence:conns:" +:+ tenant +:+ ":" +:+ user.

Definition storeError (e : error) : error := Wrap e (Internal "presence store error").

(** An error of Redis, as the store reports it. *)
Definition stored {A} (r : result A) : result A :=
  match r with Ok a => Ok a | Err e => Err (storeError e) end.

Definition boolToStr (b : bool) : string := if b then "1" else "0".

Definition toFields (p : AgentPresence) : gmap string string := list_to_map
  [("status", ap_Status p); ("availability", ap_Availability p);
   ("auto_offline", boolToStr (ap_AutoOffline p));
   ("current_load", pretty (ap_CurrentLoad p));
   ("max_concurrent_chats", pretty (ap_MaxConcurrentChats p));
   ("last_seen_at", pretty (UnixMilli (ap_LastSeenAt p)))].

(** A missing field reads as the empty string; a number that does not parse as zero.
    [zero_time] is Go's zero [time.Time]. *)
Definition fromFields (zero_time : Time) (tenantID userID : string) (f : gmap string string)
  : AgentPresence :=
  let get k := default "" (f !! k) in
  let lastSeen := match atoi (get "last_seen_at") with
                  | Some ms => ms * Millisecond | None => zero_time end in
  let load := default 0 (atoi (get "current_load")) in
  let maxChats := default 0 (atoi (get "max_concurrent_chats")) in
  let status := get "status" in
  let status := if status =! "" then PStatus.StatusOffline else status in
  mkPresence tenantID userID status (get "availability") (get "auto_offline" =! "1") load maxChats
    lastSeen.

Module PStore.
Definition Save (c : Ctx) (p : AgentPresence) : RdM (result unit) :=
  try! tenantID := Ret (RequireTenant c) in
  let! r := ask c (TxPipeline [HSet (presenceKey tenantID (ap_UserID p)) (toFields p);
                               SAdd (agentsKey tenantID) (ap_UserID p)]) in
  Ret (stored r).

(** [prune]: entries last heard of before the window, errors dropped. *)
Definition prune (c : Ctx) (key : string) : RdM unit :=
  let! t := ask c TimeNow in
  do! ask c (ZRemRangeByScore key (UnixMilli (t - presenceTTL))) in
  Ret tt.

(** The entry renewed now, with the liveness window of the key. *)
Definition renew (c : Ctx) (key clientID : string) : RdM (result unit) :=
  let! t := ask c TimeNow in
  let! r := ask c (TxPipeline [ZAdd key (UnixMilli t) clientID; TxExpire key presenceTTL]) in
  Ret (stored r).

Definition Connect (c : Ctx) (userID clientID : string) : RdM (result bool) :=
  try! tenantID := Ret (RequireTenant c) in
  let key := connsKey tenantID userID in
  do! prune c key in
  let! before := ask c (ZCard key) in
  let before := match before with Ok n => n | Err _ => 0 end in
  try! _ := renew c key clientID in
  Ret (Ok (before =? 0)).

Definition Heartbeat (c : Ctx) (userID clientID : string) : RdM (result unit) :=
  try! tenantID := Ret (RequireTenant c) in
  renew c (connsKey tenantID userID) clientID.

Definition Disconnect (c : Ctx) (userID clientID : string) : RdM (result bool) :=
  try! tenantID := Ret (RequireTenant c) in
  let key := connsKey tenantID userID in
  let! r := ask c (ZRem key clientID) in
  match r with
  | Err e => Ret (Err (storeError e))
  | Ok _ =>
      do! prune c key in
      let! n := ask c (ZCard key) in
      let n := match n with Ok n => n | Err _ => 0 end in
      if n =? 0 then do! ask c (Del key) in Ret (Ok true) else Ret (Ok false)
  end.

Definition HasLiveSocket (c : Ctx) (userID : string) : RdM (result bool) :=
  try! tenantID := Ret (RequireTenant c) in
  let key := connsKey tenantID userID in
  do! prune c key in
  let! n := ask c (ZCard key) in
  match n with
  | Err e => Ret (Err (storeError e))
  | Ok n => Ret (Ok (0 <? n))
  end.

Definition Remove (c : Ctx) (userID : string) : RdM (result unit) :=
  try! tenantID := Ret (RequireTenant c) in
  let! r := ask c (TxPipeline [TxDel (presenceKey tenantID userID); TxDel (connsKey tenantID userID);
                               SRem (agentsKey tenantID) userID]) in
  Ret (stored r).

Section Reads.
Context (zero_time : Time).

Definition Get (c : Ctx) (userID : string) : RdM (result AgentPresence) :=
  try! tenantID := Ret (RequireTenant c) in
  let! r := ask c (HGetAll (presenceKey tenantID userID)) in
  match r with
  | Err e => Ret (Err (storeError e))
  | Ok fields =>
      if decide (fields = ∅) then Ret (Err (NotFound "presence not found"))
      else Ret (Ok (fromFields zero_time tenantID userID fields))
  end.

(** The loop of [List]: an agent that cannot be read is left out. *)
Fixpoint list_agents (c : Ctx) (tenantID : string) (ids : list string) : RdM (list AgentPresence) :=
  match ids with
  | [] => Ret []
  | uid :: ids =>
      let! r := ask c (HGetAll (presenceKey tenantID uid)) in
      let! rest := list_agents c tenantID ids in
      Ret (match r with
           | Err _ => rest
           | Ok fields => if decide (fields = ∅) then rest
                          else fromFields zero_time tenantID uid fields :: rest
           end)
  end.

Definition List_ (c : Ctx) : RdM (result (list AgentPresence)) :=
  try! tenantID := Ret (RequireTenant c) in
  let! r := ask c (SMembers (agentsKey tenantID)) in
  match r with
  | Err e => Ret (Err (storeError e))
  | Ok ids => let! out := list_agents c tenantID ids in Ret (Ok out)
  end.
End Reads.
End PStore.

(** ** The expiry watcher (infra/presence/expiry.go) *)

(** [parsePresenceKey]: the tenant and the user of an expired connection-set key. *)
Definition parsePresenceKey (key : string) : option (string * string) :=
  if negb (has_prefix key "presence:conns:") then None
  else
    match split_on colon key with
    | [_; _; tenant; user] =>
        if (tenant =! "") || (user =! "") then None else Some (tenant, user)
    | _ => None
    end.
