(* ===== verification/RedisProps.v ===== *)
(** * Redis clients: the properties

    The documented behaviour of the Redis commands used, and what the clients make of
    it: the contract of the deduper, locks that exclude each other while they last, and a
    limiter that counts but may stick. *)
From S2P Require Import Prelude GoStrings AppError Authz Shared ConvEntity Prog Ports RuleProps Presence Redis.

(** ** The documented behaviour of Redis *)

Inductive rvalue :=
| RStr (s : string) | RNum (n : Z) | RHash (m : gmap string string)
| RSet (s : gset string) | RZset (m : gmap string Z).

#[export] Instance rvalue_eq_dec : EqDecision rvalue.
Proof. solve_decision. Defined.

(** The keys with their deadlines, the time, and the identifiers generated so far. *)
Record RView := mkRView {
  rv_keys : gmap string (rvalue * option Time); rv_now : Time; rv_ids : gset string }.

(** A key past its deadline is gone. *)
Definition live_entry (g : RView) (k : string) : option (rvalue * option Time) :=
  match (rv_keys g !! k : option (rvalue * option Time)) with
  | Some (v, Some d) => if rv_now g <? d then Some (v, Some d) else None
  | x => x
  end.
Definition live (g : RView) (k : string) : option rvalue := fst <$> live_entry g k.

Definition put (k : string) (v : rvalue) (d : option Time) (g : RView) : RView :=
  mkRView (<[k := (v, d)]> (rv_keys g)) (rv_now g) (rv_ids g).
Definition drop_key (k : string) (g : RView) : RView :=
  mkRView (delete k (rv_keys g)) (rv_now g) (rv_ids g).
Definition deadline (g : RView) (k : string) : option Time :=
  match live_entry g k with Some (_, d) => d | None => None end.

(** An emptied sorted set is no key. *)
Definition put_zset (k : string) (m : gmap string Z) (g : RView) : RView :=
  if decide (m = ∅) then drop_key k g else put k (RZset m) (deadline g k) g.

Definition zset_of (v : option rvalue) : option (gmap string Z) :=
  match v with None => Some ∅ | Some (RZset m) => Some m | _ => None end.
Definition hash_of (v : option rvalue) : option (gmap string string) :=
  match v with None => Some ∅ | Some (RHash m) => Some m | _ => None end.
Definition set_of (v : option rvalue) : option (gset string) :=
  match v with None => Some ∅ | Some (RSet s) => Some s | _ => None end.

Definition tx_exec (cmd : TxCmd) (g : RView) : option RView :=
  match cmd with
  | ZAdd k score m =>
      (fun z => put k (RZset (<[m := score]> z)) (deadline g k) g) <$> zset_of (live g k)
  | TxExpire k ttl =>
      Some (match live g k with None => g | Some v => put k v (Some (rv_now g + ttl)) g end)
  | HSet k fields =>
      (fun f => put k (RHash (fields ∪ f)) (deadline g k) g) <$> hash_of (live g k)
  | SAdd k m => (fun s => put k (RSet ({[m]} ∪ s)) (deadline g k) g) <$> set_of (live g k)
  | SRem k m => (fun s => put k (RSet (s ∖ {[m]})) (deadline g k) g) <$> set_of (live g k)
  | TxDel k => Some (drop_key k g)
  end.

Fixpoint tx_all (cmds : list TxCmd) (g : RView) : option RView :=
  match cmds with
  | [] => Some g
  | cmd :: cmds => tx_exec cmd g ≫= tx_all cmds
  end.

(** What each command answers and leaves; [None] when the key holds another kind of value. *)
Definition setnx_out (g : RView) (k v : string) (ttl : Z) : bool * RView :=
  match live g k with
  | None => (true, put k (RStr v) (Some (rv_now g + ttl)) g)
  | Some _ => (false, g) end.
Definition unlock_out (g : RView) (k token : string) : Z * RView :=
  if decide (live g k = Some (RStr token)) then (1, drop_key k g) else (0, g).
Definition incr_out (g : RView) (k : string) : option (Z * RView) :=
  match live g k with
  | None => Some (1, put k (RNum 1) None g)
  | Some (RNum n) => Some (n + 1, put k (RNum (n + 1)) (deadline g k) g)
  | _ => None end.
Definition expire_out (g : RView) (k : string) (ttl : Z) : bool * RView :=
  match live g k with
  | None => (false, g)
  | Some v => (true, put k v (Some (rv_now g + ttl)) g) end.
Definition zcard_out (g : RView) (k : string) : option (Z * RView) :=
  (fun z => (Z.of_nat (size z), g)) <$> zset_of (live g k).
Definition zrem_out (g : RView) (k m : string) : option (Z * RView) :=
  (fun z => (match z !! m with Some _ => 1 | None => 0 end, put_zset k (delete m z) g))
    <$> zset_of (live g k).
Definition zrange_out (g : RView) (k : string) (below : Z) : option (Z * RView) :=
  (fun z => let kept := filter (fun kv => below <= kv.2) z in
            (Z.of_nat (size z - size kept), put_zset k kept g)) <$> zset_of (live g k).
Definition del_out (g : RView) (k : string) : Z * RView :=
  (match live g k with None => 0 | Some _ => 1 end, drop_key k g).
Definition hgetall_out (g : RView) (k : string) : option (gmap string string * RView) :=
  (fun f => (f, g)) <$> hash_of (live g k).

(** A command answers as documented, or, when errors may happen, fails before or after it
    took effect. *)
Definition replied {X} (errs : bool) (out : option (X * RView)) (g : RView) (r : result X)
    (g' : RView) : Prop :=
  match r, out with
  | Ok x, Some (y, g1) => x = y /\ g' = g1
  | Ok _, None => False
  | Err _, Some (_, g1) => errs = true /\ (g' = g \/ g' = g1)
  | Err _, None => True
  end.

Definition redis_post (errs : bool) (R : Type) (c : Ctx) (e : RedisPort R) (g : RView) (r : R)
    (g' : RView) : Prop :=
  match e in RedisPort R return R -> Prop with
  | RNewID => fun id => id ∉ rv_ids g /\ g' = mkRView (rv_keys g) (rv_now g) ({[id]} ∪ rv_ids g)
  | TimeNow => fun t => t = rv_now g /\ g' = g
  | SetNX k v ttl => fun r => replied errs (Some (setnx_out g k v ttl)) g r g'
  | Unlock k token => fun r => replied errs (Some (unlock_out g k token)) g r g'
  | Incr k => fun r => replied errs (incr_out g k) g r g'
  | Expire k ttl => fun r => replied errs (Some (expire_out g k ttl)) g r g'
  | ZCard k => fun r => replied errs (zcard_out g k) g r g'
  | ZRem k m => fun r => replied errs (zrem_out g k m) g r g'
  | ZRemRangeByScore k below => fun r => replied errs (zrange_out g k below) g r g'
  | Del k => fun r => replied errs (Some (del_out g k)) g r g'
  | HGetAll k => fun r => replied errs (hgetall_out g k) g r g'
  | SMembers k => fun r => match r, set_of (live g k) with
      | Ok l, Some s => NoDup l /\ list_to_set l = s /\ g' = g
      | Ok _, None => False
      | Err _, Some _ => errs = true /\ g' = g
      | Err _, None => g' = g end
  | TxPipeline cmds => fun r => replied errs ((fun g1 => (tt, g1)) <$> tx_all cmds g) g r g'
  end r.

Definition redis_contract (errs : bool) : contract Ctx RedisPort RView :=
  pre_post (fun _ _ _ _ => True) (redis_post errs).

(** A Redis server, and the passing of time over it. *)
Class RedisWorld {S} (h : handler Ctx RedisPort S) (view : S -> RView) (errs : bool)
    (elapse : N -> S -> S) : Prop := {
  redis_answers : forall R c (e : RedisPort R) s,
    let '(r, s') := h R c e s in redis_post errs R c e (view s) r (view s');
  redis_elapse : forall dt s,
    view (elapse dt s) = mkRView (rv_keys (view s)) (rv_now (view s) + Z.of_N dt) (rv_ids (view s));
}.

#[export] Instance redis_mono errs : Monotone (redis_contract errs).
Proof. apply pre_post_mono. Qed.

Section Worlds.
Context {S : Type} (h : handler Ctx RedisPort S) (view : S -> RView) (errs : bool)
  (elapse : N -> S -> S) `{!RedisWorld h view errs elapse}.

Lemma redis_run {A} (m : RdM A) Q s :
  wp (redis_contract errs) m Q (view s) -> let '(a, s') := run h m s in Q a (view s').
Proof.
  apply wp_run. intros R c e P s' [_ HP]. pose proof (redis_answers R c e s') as Ha.
  destruct (h R c e s'). by apply HP.
Qed.
End Worlds.

Ltac redis_call r g Hr := apply wp_bind; [apply _|]; split; [done|]; intros r g Hr; cbn [wp].

(** ** The deduper *)

(** The claims that stand: the keys that are live. *)
Definition claims (g : RView) : gset string := filter (fun k => is_Some (live g k)) (dom (rv_keys g)).

Lemma claims_spec g k : k ∈ claims g <-> is_Some (live g k).
Proof.
  unfold claims. rewrite elem_of_filter, elem_of_dom. split; [by intros [? _]|]. intros Hl. split; [done|].
  unfold live, live_entry in Hl. destruct (rv_keys g !! k); [done|]. by destruct Hl.
Qed.

Lemma claims_put g k v ttl : 0 < ttl -> claims (put k v (Some (rv_now g + ttl)) g) = {[k]} ∪ claims g.
Proof.
  intros Httl. apply set_eq. intros k'. rewrite elem_of_union, elem_of_singleton, !claims_spec.
  unfold live, live_entry. cbn. destruct (decide (k' = k)) as [->|Hne].
  - rewrite lookup_insert_eq, (proj2 (Z.ltb_lt _ _)) by lia. split; [by left|by eexists].
  - rewrite lookup_insert_ne by done. split; [by right|by intros [?|?]].
Qed.

(** The deduper over Redis keeps the contract the evaluator is proved against: it refuses a claim
    that stands, grants and takes one that does not, and lets the firing through on an error. *)
Theorem deduper_answers (errs : bool) (c : Ctx) (k : string) (acted : list (string * string))
    (outages : list string) (g : RView) :
  wp (redis_contract errs) (Dedup_Allow c k)
    (fun r g' => exists outages',
       dedup_answers k (mkFirings (claims g) acted outages) r (mkFirings (claims g') acted outages') /\
       (errs = false -> outages' = outages)) g.
Proof.
  unfold Dedup_Allow. redis_call r g1 Hr. cbn in Hr. unfold setnx_out in Hr.
  assert (forall v, claims (put k (RStr v) (Some (rv_now g + dedupWindow)) g) = {[k]} ∪ claims g) as Hput
    by (intros v; by apply claims_put).
  destruct (live g k) as [v|] eqn:Hl; destruct r as [b|e]; cbn in Hr; cbn [wp].
  - destruct Hr as [-> ->]. exists outages. split; [|done]. split; [done|]. left. cbn.
    by rewrite claims_spec, Hl.
  - destruct Hr as [-> Hg]. exists (outages ++ [k]). split; [|done]. split; [done|]. right; right.
    split_and!; [done| |done]. left. by destruct Hg as [-> | ->].
  - destruct Hr as [-> ->]. exists outages. split; [|done]. split; [done|]. right; left. cbn.
    rewrite claims_spec, Hl, Hput. split_and!; [done|by intros []|done|done].
  - destruct Hr as [-> Hg]. exists (outages ++ [k]). split; [|done]. split; [done|]. right; right.
    split_and!; [done| |done]. cbn. destruct Hg as [-> | ->]; [by left|right; apply Hput].
Qed.

(** ** Locks *)

(** A lock granted: its token, and when it lapses. *)
Record Grant := mkGrant {
  gr_key : string; gr_token : string; gr_deadline : Time; gr_released : bool }.

Definition holding (now : Time) (x : Grant) : Prop := gr_released x = false /\ now < gr_deadline x.

(** Every lock held is in the store under its token. *)
Record LockInv (g : RView) (gs : list Grant) : Prop := {
  li_known : Forall (fun x => gr_token x ∈ rv_ids g) gs;
  li_distinct : NoDup (map gr_token gs);
  li_stored : Forall (fun x => holding (rv_now g) x ->
    rv_keys g !! gr_key x = Some (RStr (gr_token x), Some (gr_deadline x))) gs;
}.

Lemma holding_live g x :
  rv_keys g !! gr_key x = Some (RStr (gr_token x), Some (gr_deadline x)) -> holding (rv_now g) x ->
  live g (gr_key x) = Some (RStr (gr_token x)).
Proof.
  intros Hk [_ Hd]. unfold live, live_entry. rewrite Hk.
  by rewrite (proj2 (Z.ltb_lt _ _) Hd).
Qed.

(** A key nobody holds may be written. *)
Lemma LockInv_put g gs k v d id :
  id ∉ rv_ids g -> live g k = None -> LockInv g gs ->
  LockInv (put k v d (mkRView (rv_keys g) (rv_now g) ({[id]} ∪ rv_ids g))) gs.
Proof.
  intros Hid Hl [Hk Hd Hs]. split; cbn; [|done|].
  - eapply Forall_impl; [exact Hk|]. set_solver.
  - eapply Forall_impl; [exact Hs|]. intros x Hx Hh. specialize (Hx Hh).
    destruct (decide (k = gr_key x)) as [->|Hne]; [|by rewrite lookup_insert_ne].
    by rewrite (holding_live g x) in Hl.
Qed.

Lemma LockInv_ids g gs id :
  LockInv g gs -> LockInv (mkRView (rv_keys g) (rv_now g) ({[id]} ∪ rv_ids g)) gs.
Proof. intros [Hk Hd Hs]. split; [|done|done]. eapply Forall_impl; [exact Hk|]. set_solver. Qed.

Section Locking.
Context (errs : bool).
Let T := redis_contract errs.

Lemma Acquire_wp c key ttl gs g :
  LockInv g gs ->
  wp T (Locker.Acquire c key ttl)
    (fun r g' => rv_now g' = rv_now g /\
       match r with
       | Ok (Some (k, token), true) =>
           LockInv g' (gs ++ [mkGrant k token (rv_now g + ttl) false]) /\ k = key
       | Ok (Some _, false) | Ok (None, true) => False
       | _ => LockInv g' gs
       end) g.
Proof.
  intros HI. unfold Locker.Acquire. redis_call tok g1 Hid. destruct Hid as [Hid ->].
  pose proof (LockInv_ids g gs tok HI) as HI1.
  redis_call r g2 Hr. cbn in Hr. unfold setnx_out in Hr.
  change (live (mkRView (rv_keys g) (rv_now g) ({[tok]} ∪ rv_ids g)) key) with (live g key) in Hr.
  destruct (live g key) as [v|] eqn:Hl; destruct r as [b|e]; cbn in Hr.
  - by destruct Hr as [-> ->].
  - destruct Hr as [_ [->| ->]]; by split.
  - destruct Hr as [-> ->]. split; [done|]. split; [|done].
    pose proof (LockInv_put g gs key (RStr tok) (Some (rv_now g + ttl)) tok Hid Hl HI) as [Hk Hd Hs].
    split; cbn in *.
    + apply Forall_app. split; [done|]. constructor; [cbn; set_solver|done].
    + rewrite map_app. apply NoDup_app. split; [done|]. split; [|by apply NoDup_singleton].
      intros tok' Htok. cbn. intros ->%list_elem_of_singleton.
      destruct HI as [Hk0 _ _]. rewrite Forall_forall in Hk0.
      apply list_elem_of_fmap in Htok as (x & -> & Hx). by apply Hid, Hk0.
    + apply Forall_app. split; [done|]. constructor; [|done]. cbn. intros _. by rewrite lookup_insert_eq.
  - destruct Hr as [_ [->| ->]]; [by split|]. split; [done|]. by apply LockInv_put.
Qed.

Lemma release_wp i x gs g :
  gs !! i = Some x -> LockInv g gs ->
  wp T (Locker.release (Some (gr_key x, gr_token x)))
    (fun _ g' => rv_now g' = rv_now g /\
       LockInv g' (<[i := mkGrant (gr_key x) (gr_token x) (gr_deadline x) true]> gs)) g.
Proof.
  intros Hi [Hk Hd Hs]. unfold Locker.release.
  set (y := mkGrant _ _ _ true).
  assert (map gr_token (<[i := y]> gs) = map gr_token gs) as Hmap.
  { transitivity (<[i := gr_token y]> (map gr_token gs)); [apply (list_fmap_insert gr_token)|].
    apply list_insert_id. by rewrite list_lookup_fmap, Hi. }
  assert (forall g', rv_now g' = rv_now g -> rv_ids g' = rv_ids g ->
    (forall j z, j <> i -> gs !! j = Some z -> holding (rv_now g) z ->
       rv_keys g' !! gr_key z = rv_keys g !! gr_key z) ->
    rv_now g' = rv_now g /\ LockInv g' (<[i := y]> gs)) as Hkeep.
  { intros g' Hn Hids Hsame. split; [done|]. split; [|by rewrite Hmap|].
    - rewrite Hids. apply Forall_insert; [done|]. cbn. rewrite Forall_lookup in Hk. by apply (Hk i).
    - rewrite Hn. apply Forall_lookup. intros j z Hj Hh.
      apply list_lookup_insert_Some in Hj as [(-> & <- & _)|[Hne Hj]]; [by destruct Hh|].
      rewrite (Hsame j z) by done. rewrite Forall_lookup in Hs. by apply (Hs j). }
  redis_call r g1 Hr. cbn in Hr. unfold unlock_out in Hr.
  assert (rv_now g = rv_now g /\ LockInv g (<[i := y]> gs)) as Hnone by by apply Hkeep.
  case_decide as Hl; [|by destruct r; [destruct Hr as [_ ->]|destruct Hr as [_ [->| ->]]]].
  assert (g1 = g \/ g1 = drop_key (gr_key x) g) as [->| ->]
    by (destruct r; [right; by destruct Hr|by destruct Hr]); [done|].
  apply Hkeep; [done|done|]. intros j z Hne Hj Hh. cbn. rewrite lookup_delete_ne; [done|].
  intros Hkey. rewrite Forall_lookup in Hs. specialize (Hs j z Hj Hh).
  pose proof (holding_live g z Hs Hh) as Hz. rewrite <- Hkey, Hl in Hz. injection Hz as Htok.
  apply Hne. eapply NoDup_lookup; [exact Hd|by rewrite list_lookup_fmap, Hj|].
  by rewrite list_lookup_fmap, Hi; cbn; rewrite Htok.
Qed.
End Locking.

(** What happens over time: an attempt at a lock, the release of the [i]th lock granted
    (however late, however often), the passing of time. *)
Inductive LockEvent :=
| LAcquire (c : Ctx) (key : string) (ttl : Z) | LRelease (i : nat) | LElapse (dt : N).

Section LockRuns.
Context {S : Type} (h : handler Ctx RedisPort S) (view : S -> RView) (elapse : N -> S -> S).

Definition lock_event (st : S * list Grant) (ev : LockEvent) : S * list Grant :=
  let '(s, gs) := st in
  match ev with
  | LAcquire c key ttl =>
      let '(r, s') := run h (Locker.Acquire c key ttl) s in
      match r with
      | Ok (Some (k, token), true) => (s', gs ++ [mkGrant k token (rv_now (view s) + ttl) false])
      | _ => (s', gs)
      end
  | LRelease i =>
      match gs !! i with
      | None => (s, gs)
      | Some x =>
          ((run h (Locker.release (Some (gr_key x, gr_token x))) s).2,
           <[i := mkGrant (gr_key x) (gr_token x) (gr_deadline x) true]> gs)
      end
  | LElapse dt => (elapse dt s, gs)
  end.

Definition lock_events (evs : list LockEvent) (st : S * list Grant) : S * list Grant :=
  fold_left lock_event evs st.

Lemma lock_event_inv errs `{!RedisWorld h view errs elapse} ev st :
  LockInv (view st.1) st.2 -> LockInv (view (lock_event st ev).1) (lock_event st ev).2.
Proof.
  destruct st as [s gs]. cbn [fst snd]. intros HI. destruct ev as [c key ttl|i|dt]; cbn [lock_event].
  - pose proof (redis_run h view errs elapse _ _ s (Acquire_wp errs c key ttl gs (view s) HI)) as Hr.
    destruct (run h _ s) as [[[[[k tok]|] [|]]|e] s']; cbn; by destruct Hr as [_ Hr]; try apply Hr.
  - destruct (gs !! i) as [x|] eqn:Hi; [|done].
    pose proof (redis_run h view errs elapse _ _ s (release_wp errs i x gs (view s) Hi HI)) as Hr.
    destruct (run h _ s) as [r s']. by destruct Hr.
  - cbn. rewrite redis_elapse. destruct HI as [Hk Hd Hs]. split; [done|done|]. cbn.
    eapply Forall_impl; [exact Hs|]. intros x Hx [Hrel Hdl]. apply Hx. split; [done|]. lia.
Qed.
End LockRuns.

(** C26. Locks exclude each other: whatever attempts, releases (late, repeated, of locks long
    lapsed) and errors of Redis happened before, at any time at most one lock of a key is
    both unreleased and within its time. *)
Theorem locks_are_exclusive {S} (h : handler Ctx RedisPort S) (view : S -> RView) (errs : bool)
    (elapse : N -> S -> S) `{!RedisWorld h view errs elapse} (evs : list LockEvent) (s0 : S) :
  let '(s, gs) := lock_events h view elapse evs (s0, []) in
  forall i j x y, gs !! i = Some x -> gs !! j = Some y -> gr_key x = gr_key y ->
    holding (rv_now (view s)) x -> holding (rv_now (view s)) y -> i = j.
Proof.
  assert (forall st, LockInv (view st.1) st.2 ->
    LockInv (view (lock_events h view elapse evs st).1) (lock_events h view elapse evs st).2) as Hall.
  { unfold lock_events. induction evs as [|ev evs IH]; intros st HI; cbn [fold_left]; [done|].
    by apply IH, (lock_event_inv h view elapse errs). }
  specialize (Hall (s0, [])). destruct (lock_events h view elapse evs (s0, [])) as [s gs].
  cbn [fst snd] in Hall. destruct Hall as [_ Hd Hs]; [by repeat constructor|].
  intros i j x y Hi Hj Hkey Hx Hy. rewrite Forall_lookup in Hs.
  pose proof (Hs i x Hi Hx) as Hkx. pose proof (Hs j y Hj Hy) as Hky.
  rewrite Hkey, Hky in Hkx. injection Hkx as Htok _.
  eapply NoDup_lookup; [exact Hd|by rewrite list_lookup_fmap, Hi|].
  by rewrite list_lookup_fmap, Hj; cbn; rewrite Htok.
Qed.

(** ** A server in memory *)

Module Server.
Definition wrong_type {A} : result A := Err (PlainErr "WRONGTYPE" None).

Definition reply {X} (out : option (X * RView)) (g : RView) : result X * RView :=
  match out with Some (x, g') => (Ok x, g') | None => (wrong_type, g) end.

(** [lost]: whether every EXPIRE fails. *)
Definition handle (lost : bool) : handler Ctx RedisPort RView := fun R c e g =>
  match e in RedisPort R return R * RView with
  | RNewID => let id := fresh (rv_ids g) in
              (id, mkRView (rv_keys g) (rv_now g) ({[id]} ∪ rv_ids g))
  | TimeNow => (rv_now g, g)
  | SetNX k v ttl => reply (Some (setnx_out g k v ttl)) g
  | Unlock k token => reply (Some (unlock_out g k token)) g
  | Incr k => reply (incr_out g k) g
  | Expire k ttl => if lost then (Err (PlainErr "i/o timeout" None), g)
                    else reply (Some (expire_out g k ttl)) g
  | ZCard k => reply (zcard_out g k) g
  | ZRem k m => reply (zrem_out g k m) g
  | ZRemRangeByScore k below => reply (zrange_out g k below) g
  | Del k => reply (Some (del_out g k)) g
  | HGetAll k => reply (hgetall_out g k) g
  | SMembers k => (match set_of (live g k) with Some s => Ok (elements s) | None => wrong_type end, g)
  | TxPipeline cmds => reply ((fun g1 => (tt, g1)) <$> tx_all cmds g) g
  end.

Definition elapse (dt : N) (g : RView) : RView :=
  mkRView (rv_keys g) (rv_now g + Z.of_N dt) (rv_ids g).

Definition empty : RView := mkRView ∅ 0 ∅.
Definition ctx : Ctx := WithTenant Background "acme".
End Server.

Lemma reply_replied {X} errs (out : option (X * RView)) g :
  let '(r, g') := Server.reply out g in replied errs out g r g'.
Proof. by destruct out as [[]|]. Qed.

#[export] Instance server_world lost : RedisWorld (Server.handle lost) (fun g => g) lost Server.elapse.
Proof.
  split; [|done]. intros R c e g. destruct e; try apply (reply_replied lost (Some _));
    try apply reply_replied; cbn.
  - split; [|done]. apply is_fresh.
  - done.
  - destruct lost; [by destruct (expire_out g key ttl); split; [|left]|].
    apply (reply_replied false (Some _)).
  - destruct (set_of (live g key)) as [s|]; [|done]. split_and!; [apply NoDup_elements| |done].
    apply list_to_set_elements_L.
Qed.

(** The first holder outlives its lock; the second takes it; the late release of the first
    does not free it, and the third is refused. *)
Definition late_release : list LockEvent :=
  [LAcquire Server.ctx "k" 10; LElapse 10; LAcquire Server.ctx "k" 10; LRelease 0;
   LAcquire Server.ctx "k" 10].

Lemma locks_are_exclusive_witness :
  let '(g, gs) := lock_events (Server.handle false) (fun g => g) Server.elapse late_release (Server.empty, []) in
  map gr_released gs = [true; false] /\ live g "k" = Some (RStr "1") /\
  forall i j x y, gs !! i = Some x -> gs !! j = Some y -> gr_key x = gr_key y ->
    holding (rv_now g) x -> holding (rv_now g) y -> i = j.
Proof.
  pose proof (locks_are_exclusive (Server.handle false) (fun g => g) false Server.elapse late_release
                Server.empty) as H.
  destruct (lock_events _ _ _ _ _) as [g gs] eqn:He. vm_compute in He.
  split_and!; [| |exact H]; injection He as <- <-; by vm_compute.
Defined.

(** ** The fixed-window limiter *)

(** The counter of a key: none, or a positive number. *)
Definition counted (g : RView) (k : string) (n : Z) (d : option Time) : Prop :=
  (n = 0 /\ live_entry g k = None /\ d = None) \/ (1 <= n /\ live_entry g k = Some (RNum n, d)).

Lemma live_put g k v d : (forall t, d = Some t -> rv_now g < t) -> live_entry (put k v d g) k = Some (v, d).
Proof.
  intros Hd. unfold live_entry. cbn. rewrite lookup_insert_eq. destruct d as [t|]; [|done].
  by rewrite (proj2 (Z.ltb_lt _ _) (Hd t eq_refl)).
Qed.

Lemma live_entry_deadline g k v d : live_entry g k = Some (v, d) -> forall t, d = Some t -> rv_now g < t.
Proof.
  unfold live_entry. destruct (rv_keys g !! k) as [[v' [d'|]]|]; [case_match eqn:Hlt| |]; intros [= <- <-] t; [|done].
  intros [= <-]. by apply Z.ltb_lt.
Qed.

Lemma Webhook_Allow_wp c id limit n d g :
  1 <= limit -> counted g (webhookKey id) n d ->
  wp (redis_contract false) (Webhook_Allow c id limit)
    (fun r g' => r = Ok (n + 1 <=? limit) /\ rv_now g' = rv_now g /\
       counted g' (webhookKey id) (n + 1)
         (if n =? 0 then Some (rv_now g + webhook_window) else d)) g.
Proof.
  intros Hl Hc. unfold Webhook_Allow. destruct (Z.leb_spec limit 0); [lia|].
  unfold window_count. apply wp_bind; [apply _|]. redis_call r g1 Hr. cbn in Hr.
  unfold incr_out, live, deadline in Hr. destruct Hc as [(-> & Hlive & ->)|[Hn Hlive]]; rewrite Hlive in Hr; cbn in Hr.
  - destruct r as [m|e]; [|by destruct Hr]. destruct Hr as [-> ->]. cbn [wp].
    apply wp_bind; [apply _|]. rewrite Z.eqb_refl. redis_call r g2 Hr. cbn in Hr.
    unfold expire_out, live in Hr. rewrite live_put in Hr by done. cbn in Hr.
    assert (g2 = put (webhookKey id) (RNum 1) (Some (rv_now g + webhook_window))
                   (put (webhookKey id) (RNum 1) None g)) as ->
      by (destruct r; [by destruct Hr|by destruct Hr]).
    split_and!; [done|done|]. right. split; [lia|]. apply live_put. intros t [= <-]. cbn.
    unfold webhook_window, Minute, Second. lia.
  - destruct r as [m|e]; [|by destruct Hr]. destruct Hr as [-> ->]. cbn [wp].
    apply wp_bind; [apply _|]. destruct (Z.eqb_spec (n + 1) 1); [lia|]. cbn [wp].
    destruct (Z.eqb_spec n 0); [lia|]. split_and!; [done|done|]. right. split; [lia|].
    apply live_put. by apply (live_entry_deadline g (webhookKey id) (RNum n)).
Qed.

Section Limiting.
Context {S : Type} (h : handler Ctx RedisPort S) (view : S -> RView) (elapse : N -> S -> S).
Context (c : Ctx) (id : string) (limit : Z).

(** Attempts, each after some time: whether each was allowed. *)
Fixpoint attempts_after (waits : list N) (s : S) : list (result bool) :=
  match waits with
  | [] => []
  | dt :: waits =>
      let '(r, s') := run h (Webhook_Allow c id limit) (elapse dt s) in
      r :: attempts_after waits s'
  end.

Context `{!RedisWorld h view false elapse} (Hl : 1 <= limit).

Lemma attempts_step dt s n d :
  counted (view s) (webhookKey id) n d ->
  (forall t, d = Some t -> rv_now (view s) + Z.of_N dt < t) ->
  let '(r, s') := run h (Webhook_Allow c id limit) (elapse dt s) in
  r = Ok (n + 1 <=? limit) /\ rv_now (view s') = rv_now (view s) + Z.of_N dt /\
  counted (view s') (webhookKey id) (n + 1)
    (if n =? 0 then Some (rv_now (view s) + Z.of_N dt + webhook_window) else d).
Proof.
  intros Hc Hd. pose proof (redis_elapse (view := view) dt s) as He.
  assert (counted (view (elapse dt s)) (webhookKey id) n d) as Hc'.
  { rewrite He. destruct Hc as [(-> & Hn & ->)|[Hn Hlive]]; [left|right].
    - split_and!; [done| |done]. unfold live_entry in *. cbn.
      destruct (rv_keys (view s) !! webhookKey id) as [[v [d|]]|]; [|done..].
      destruct (Z.ltb_spec (rv_now (view s)) d); [done|].
      by destruct (Z.ltb_spec (rv_now (view s) + Z.of_N dt) d); [lia|].
    - split; [done|]. unfold live_entry in *. cbn.
      destruct (rv_keys (view s) !! webhookKey id) as [[v [t|]]|]; [|done..].
      destruct (Z.ltb_spec (rv_now (view s)) t); [|done]. injection Hlive as -> <-.
      specialize (Hd t eq_refl). by rewrite (proj2 (Z.ltb_lt _ _) Hd). }
  pose proof (redis_run h view false elapse _ _ (elapse dt s)
    (Webhook_Allow_wp c id limit n d (view (elapse dt s)) Hl Hc')) as Hr.
  rewrite He in Hr. cbn [rv_now] in Hr. exact Hr.
Qed.

Lemma attempts_counted waits s n d t :
  counted (view s) (webhookKey id) n d -> 1 <= n -> d = Some t ->
  rv_now (view s) + Z.of_N (foldr N.add 0%N waits) < t ->
  attempts_after waits s = map (fun i => Ok (n + Z.of_nat i + 1 <=? limit)) (seq 0 (length waits)).
Proof.
  revert s n. induction waits as [|dt waits IH]; intros s n Hc Hn -> Ht; [done|].
  cbn [attempts_after foldr] in *. pose proof (attempts_step dt s n (Some t) Hc) as Hs.
  destruct (run h _ _) as [r s']. destruct Hs as (-> & Hnow & Hc'); [intros t' [= <-]; lia|].
  destruct (Z.eqb_spec n 0); [lia|]. cbn [length seq map]. f_equal; [do 2 f_equal; lia|].
  rewrite (IH s' (n + 1)); [|done|lia|done|lia].
  rewrite <- seq_shift, map_map. apply map_ext. intros i. do 2 f_equal. lia.
Qed.

Lemma attempts_stuck waits s n :
  counted (view s) (webhookKey id) n None -> limit <= n ->
  Forall (fun r => r = Ok false) (attempts_after waits s).
Proof.
  revert s n. induction waits as [|dt waits IH]; intros s n Hc Hn; [constructor|].
  cbn [attempts_after]. pose proof (attempts_step dt s n None Hc) as Hs.
  destruct (run h _ _) as [r s']. destruct Hs as (-> & _ & Hc'); [done|].
  destruct (Z.eqb_spec n 0); [lia|]. constructor; [by rewrite (proj2 (Z.leb_gt _ _)) by lia|].
  apply (IH s' (n + 1)); [done|lia].
Qed.
End Limiting.

(** The delivery limiter lets exactly the first [limit] attempts of a window through, the
    window being the minute after the first of them. But the window is armed by a second
    command: if that one is lost, the counter has no deadline, and once it reached the
    limit every later attempt is refused, however late. *)
Theorem limiter_counts_but_may_stick {S} (h : handler Ctx RedisPort S) (view : S -> RView)
    (elapse : N -> S -> S) `{!RedisWorld h view false elapse} (c : Ctx) (id : string) (limit : Z)
    (waits : list N) (dt : N) (s : S) :
  1 <= limit ->
  (live_entry (view s) (webhookKey id) = None ->
   Z.of_N (foldr N.add 0%N waits) < webhook_window ->
   attempts_after h elapse c id limit (dt :: waits) s =
     map (fun i => Ok (Z.of_nat i <? limit)) (seq 0 (Datatypes.S (length waits)))) /\
  (forall n, live_entry (view s) (webhookKey id) = Some (RNum n, None) -> limit <= n ->
   Forall (fun r => r = Ok false) (attempts_after h elapse c id limit waits s)).
Proof.
  intros Hl. split.
  - intros Hlive Hw. cbn [attempts_after].
    assert (forall k, (k + 1 <=? limit) = (k <? limit)) as Hb.
    { intros k. destruct (Z.leb_spec (k + 1) limit), (Z.ltb_spec k limit); lia || done. }
    pose proof (attempts_step h view elapse c id limit Hl dt s 0 None) as Hs.
    destruct (run h _ _) as [r s']. destruct Hs as (-> & Hnow & Hc'); [by left|done|].
    cbn [seq map]. f_equal; [by rewrite Hb|].
    rewrite (attempts_counted h view elapse c id limit Hl waits s' 1
               (Some (rv_now (view s) + Z.of_N dt + webhook_window))
               (rv_now (view s) + Z.of_N dt + webhook_window)); [|done|done|done|lia].
    rewrite <- seq_shift, map_map. apply map_ext. intros i. rewrite Hb. do 2 f_equal. lia.
  - intros n Hlive Hn. apply (attempts_stuck h view elapse c id limit Hl waits s n); [|exact Hn].
    right. split; [lia|done].
Qed.

Definition with_lost_window : RView :=
  (run (Server.handle true) (Webhook_Allow Server.ctx "w1" 1) Server.empty).2.

Lemma limiter_counts_but_may_stick_witness :
  attempts_after (Server.handle false) Server.elapse Server.ctx "w1" 2 [0; 0; 1]%N Server.empty =
    [Ok true; Ok true; Ok false] /\
  attempts_after (Server.handle false) Server.elapse Server.ctx "w1" 2
    [0; 0; Z.to_N webhook_window]%N Server.empty = [Ok true; Ok true; Ok true] /\
  Forall (fun r => r = Ok false)
    (attempts_after (Server.handle false) Server.elapse Server.ctx "w1" 1
       [Z.to_N (100 * webhook_window); 5]%N with_lost_window).
Proof.
  split_and!; [by vm_compute..|].
  apply (limiter_counts_but_may_stick (Server.handle false) (fun g => g) Server.elapse Server.ctx
           "w1" 1 _ 0%N with_lost_window ltac:(lia)) with (n := 1); [by vm_compute|lia].
Defined.
