(* ===== verification/RedisPresence.v ===== *)
(** * The presence store: the properties

    Records and keys read back as they were written; a socket counts as live as long as
    it is heard of, the commands of its operations interleaved with others and their answers
    lost or not, unless the set is deleted under it. *)
From S2P Require Import Prelude GoStrings AppError Authz Shared ConvEntity Prog Ports Presence.
From S2P Require Import Redis RedisProps.

(** ** Records read back *)

(** What the store keeps of a record: its tenant and user are those of the key, times are
    whole milliseconds, and no status is offline. *)
Definition cached (tenant : string) (p : AgentPresence) : AgentPresence :=
  mkPresence tenant (ap_UserID p)
    (if ap_Status p =! "" then PStatus.StatusOffline else ap_Status p) (ap_Availability p)
    (ap_AutoOffline p) (ap_CurrentLoad p) (ap_MaxConcurrentChats p)
    (UnixMilli (ap_LastSeenAt p) * Millisecond).

Definition fits_int64 (p : AgentPresence) : Prop :=
  in_int64 (ap_CurrentLoad p) /\ in_int64 (ap_MaxConcurrentChats p) /\
  in_int64 (UnixMilli (ap_LastSeenAt p)).

Lemma toFields_lookup p f k v :
  toFields p !! k = Some v -> (toFields p ∪ f) !! k = Some v.
Proof. apply lookup_union_Some_l. Qed.

Lemma toFields_nonempty p f : toFields p ∪ f <> ∅.
Proof.
  intros He. pose proof (toFields_lookup p f "status" (ap_Status p) eq_refl) as Hstatus.
  by rewrite He, lookup_empty in Hstatus.
Qed.

Lemma fromFields_toFields zero t p f :
  fits_int64 p -> fromFields zero t (ap_UserID p) (toFields p ∪ f) = cached t p.
Proof.
  intros (Hl & Hm & Hs). unfold fromFields, cached.
  rewrite (toFields_lookup p f "status" (ap_Status p)) by reflexivity.
  rewrite (toFields_lookup p f "availability" (ap_Availability p)) by reflexivity.
  rewrite (toFields_lookup p f "auto_offline" (boolToStr (ap_AutoOffline p))) by reflexivity.
  rewrite (toFields_lookup p f "current_load" (pretty (ap_CurrentLoad p))) by reflexivity.
  rewrite (toFields_lookup p f "max_concurrent_chats" (pretty (ap_MaxConcurrentChats p))) by reflexivity.
  rewrite (toFields_lookup p f "last_seen_at" (pretty (UnixMilli (ap_LastSeenAt p)))) by reflexivity.
  cbn [default from_option id]. rewrite !atoi_pretty by done. cbn [default from_option id].
  by destruct (ap_AutoOffline p).
Qed.

(** A key is free for a kind of value: absent, or of that kind. *)
Definition holds_hash (g : RView) (k : string) : Prop := is_Some (hash_of (live g k)).
Definition holds_set (g : RView) (k : string) : Prop := is_Some (set_of (live g k)).

Lemma live_put_eq g k v : live (put k v (deadline g k) g) k = Some v.
Proof.
  unfold live, deadline. rewrite live_put; [done|]. destruct (live_entry g k) as [[v' d]|] eqn:Hl; [|done].
  by apply (live_entry_deadline g k v').
Qed.

Lemma live_entry_put_ne g k k' v d : k <> k' -> live_entry (put k v d g) k' = live_entry g k'.
Proof. intros Hne. unfold live_entry. cbn. by rewrite lookup_insert_ne. Qed.

Lemma live_put_ne g k k' v d : k <> k' -> live (put k v d g) k' = live g k'.
Proof. intros Hne. unfold live. by rewrite live_entry_put_ne. Qed.

Lemma tx_save g kh ks fields m f s :
  kh <> ks -> hash_of (live g kh) = Some f -> set_of (live g ks) = Some s ->
  exists g', tx_all [HSet kh fields; SAdd ks m] g = Some g' /\ live g' kh = Some (RHash (fields ∪ f)).
Proof.
  intros Hne Hf Hs. set (g1 := put kh (RHash (fields ∪ f)) (deadline g kh) g).
  assert (tx_exec (HSet kh fields) g = Some g1) as H1 by (cbn; by rewrite Hf).
  assert (tx_exec (SAdd ks m) g1 = Some (put ks (RSet ({[m]} ∪ s)) (deadline g1 ks) g1)) as H2.
  { assert (live g1 ks = live g ks) as Hl by (by apply live_put_ne). cbn. by rewrite Hl, Hs. }
  eexists. split.
  - cbn [tx_all]. rewrite H1. cbn [mbind option_bind]. rewrite H2. reflexivity.
  - rewrite live_put_ne by done. apply live_put_eq.
Qed.

(** A record read back is the record saved, up to what the store does not keep. *)
Theorem saved_presence_reads_back (zero_time : Time) (c : Ctx) (tenant : string)
    (p : AgentPresence) (g : RView) :
  RequireTenant c = Ok tenant -> fits_int64 p ->
  holds_hash g (presenceKey tenant (ap_UserID p)) -> holds_set g (agentsKey tenant) ->
  presenceKey tenant (ap_UserID p) <> agentsKey tenant ->
  wp (redis_contract false) (try! _ := PStore.Save c p in PStore.Get zero_time c (ap_UserID p))
    (fun r _ => r = Ok (cached tenant p)) g /\
  (ap_TenantID p = tenant -> ap_Status p <> "" -> ap_LastSeenAt p mod Millisecond = 0 ->
   cached tenant p = p).
Proof.
  intros Ht Hfit [f Hf] [s Hs] Hne. split.
  - apply wp_bind_ok; [apply _|]. unfold PStore.Save. rewrite Ht. cbn [bind_ok bind].
    destruct (tx_save g _ _ (toFields p) (ap_UserID p) f s Hne Hf Hs) as (g' & Htx & Hlive).
    redis_call r g1 Hr. unfold redis_post, embed, redis_own in Hr. rewrite Htx in Hr. cbn in Hr.
    destruct r as [[]|e]; [|by destruct Hr]. destruct Hr as [_ ->]. cbn [stored].
    unfold PStore.Get. rewrite Ht. cbn [bind_ok bind].
    redis_call r g1 Hr. unfold redis_post, embed, redis_own, hgetall_out in Hr. rewrite Hlive in Hr.
    cbn in Hr.
    destruct r as [fields|e]; [|by destruct Hr]. destruct Hr as [-> ->].
    rewrite decide_False; [cbn; by rewrite fromFields_toFields|].
    exact (toFields_nonempty p f).
  - intros <- Hst Hms. unfold cached. rewrite bool_decide_false by done.
    replace (UnixMilli (ap_LastSeenAt p) * Millisecond) with (ap_LastSeenAt p); [by destruct p|].
    unfold UnixMilli. rewrite (Z.div_mod (ap_LastSeenAt p) Millisecond) at 1 by done. lia.
Qed.

Definition ana_away : AgentPresence :=
  mkPresence "acme" "ana" PStatus.StatusAway "away" true 3 (-1) (5 * Millisecond).

Lemma saved_presence_reads_back_witness :
  wp (redis_contract false)
    (try! _ := PStore.Save Server.ctx ana_away in PStore.Get 0 Server.ctx "ana")
    (fun r _ => r = Ok ana_away) Server.empty.
Proof.
  apply (saved_presence_reads_back 0 Server.ctx "acme" ana_away Server.empty);
    [reflexivity|by repeat split|by eexists|by eexists|done].
Defined.

(** ** Keys read back *)

Definition no_colon (s : string) : Prop := colon ∉ bytes_of s.

Lemma split_bytes_app x y acc :
  colon ∉ x -> split_bytes colon (x ++ colon :: y) acc = (rev acc ++ x) :: split_bytes colon y [].
Proof.
  revert acc. induction x as [|a x IH]; intros acc Hx; cbn [app split_bytes].
  - rewrite Ascii.eqb_refl. by rewrite app_nil_r.
  - destruct (Ascii.eqb_spec a colon) as [->|_]; [set_solver|].
    rewrite IH by set_solver. cbn. by rewrite <- app_assoc.
Qed.

Lemma split_bytes_last x acc : colon ∉ x -> split_bytes colon x acc = [rev acc ++ x].
Proof.
  revert acc. induction x as [|a x IH]; intros acc Hx; cbn [app split_bytes].
  - by rewrite app_nil_r.
  - destruct (Ascii.eqb_spec a colon) as [->|_]; [set_solver|].
    rewrite IH by set_solver. cbn. by rewrite <- app_assoc.
Qed.

Fixpoint join_bytes (parts : list (list Ascii.ascii)) : list Ascii.ascii :=
  match parts with
  | [] => []
  | [x] => x
  | x :: xs => x ++ colon :: join_bytes xs
  end.

(** The parts of a split hold no separator, and joined they give the text back. *)
Lemma split_bytes_inv l acc :
  colon ∉ acc ->
  Forall (fun x => colon ∉ x) (split_bytes colon l acc) /\
  join_bytes (split_bytes colon l acc) = rev acc ++ l /\ split_bytes colon l acc <> [].
Proof.
  revert acc. induction l as [|a l IH]; intros acc Hacc; cbn [split_bytes].
  - split_and!; [|by rewrite app_nil_r|done]. constructor; [|done].
    by rewrite list_elem_of_In, <- in_rev, <- list_elem_of_In.
  - destruct (Ascii.eqb_spec a colon) as [->|Hne].
    + destruct (IH [] ltac:(set_solver)) as (Hf & Hj & Hn).
      split_and!; [|destruct (split_bytes colon l []); [done|]; cbn [join_bytes]; do 2 f_equal; exact Hj|done].
      constructor; [|done]. by rewrite list_elem_of_In, <- in_rev, <- list_elem_of_In.
    + destruct (IH (a :: acc) ltac:(set_solver)) as (Hf & Hj & Hn).
      split_and!; [done|rewrite Hj; cbn; by rewrite <- app_assoc|done].
Qed.

Lemma before_colon x y a b :
  colon ∉ x -> colon ∉ a -> x ++ colon :: y = a ++ colon :: b -> x = a /\ y = b.
Proof.
  revert a. induction x as [|ch x IH]; intros [|ch' a] Hx Ha Heq; cbn in Heq.
  - by injection Heq.
  - injection Heq as <- _. set_solver.
  - injection Heq as -> _. set_solver.
  - injection Heq as -> Heq. destruct (IH a) as [-> ->]; [set_solver|set_solver|done|done].
Qed.

Lemma connsKey_bytes t u :
  bytes_of (connsKey t u) =
    bytes_of "presence" ++ colon :: bytes_of "conns" ++ colon :: bytes_of t ++ colon :: bytes_of u.
Proof. unfold connsKey. rewrite !bytes_of_app. reflexivity. Qed.

(** The watcher reads the tenant and the user back from the keys the store writes, and from
    no other key. *)
Theorem connection_keys_read_back (key t u : string) :
  parsePresenceKey key = Some (t, u) <->
  key = connsKey t u /\ t <> "" /\ u <> "" /\ no_colon t /\ no_colon u.
Proof.
  unfold parsePresenceKey, no_colon. split.
  - destruct (has_prefix key "presence:conns:") eqn:Hp; [|done]. cbn [negb].
    apply has_prefix_bytes_spec in Hp as [rest Hp].
    unfold split_on. destruct (split_bytes_inv (bytes_of key) [] ltac:(set_solver)) as (Hf & Hj & _).
    destruct (split_bytes colon (bytes_of key) []) as [|a [|b [|t' [|u' [|]]]]]; try done. cbn [map].
    case_match eqn:He; [done|]. intros [= <- <-]. prop_bools.
    rewrite !Forall_cons in Hf. destruct Hf as (Ha & Hb & Ht & Hu & _). cbn in Hj.
    rewrite Hp in Hj. change (bytes_of "presence:conns:" ++ rest) with
      (bytes_of "presence" ++ colon :: bytes_of "conns" ++ colon :: rest) in Hj.
    apply before_colon in Hj as [-> Hj]; [|done|by vm_compute; set_solver].
    apply before_colon in Hj as [-> Hj]; [|done|by vm_compute; set_solver].
    rewrite !bytes_of_of. split_and!; try done. apply bytes_of_inj.
    rewrite connsKey_bytes, !bytes_of_of, Hp, <- Hj. reflexivity.
  - intros (-> & Hnt & Hnu & Ht & Hu).
    replace (has_prefix (connsKey t u) "presence:conns:") with true; cbn [negb].
    2:{ symmetry. apply has_prefix_bytes_spec. exists (bytes_of t ++ colon :: bytes_of u).
        by rewrite connsKey_bytes. }
    unfold split_on. rewrite connsKey_bytes.
    rewrite split_bytes_app by (vm_compute; set_solver). rewrite split_bytes_app by (vm_compute; set_solver).
    rewrite split_bytes_app, split_bytes_last by done. cbn [map rev app]. rewrite !of_bytes_of.
    by rewrite !bool_decide_false by done.
Qed.

(** ** Live sockets

    The operations on the sockets of one user, their commands interleaved, over a Redis whose
    answers may take any time and may be lost. *)

(** A server each of whose answers comes after some time. *)
Class TimedRedis {S} (h : handler Ctx RedisPort S) (view : S -> RView) (errs : bool) : Prop :=
  timed_answers : forall R c (e : RedisPort R) s,
    let '(r, s') := h R c e s in
    exists dt, redis_post errs R c e (Server.elapse dt (view s)) r (view s').

(** A server with the waits before its next answers. *)
Definition timed {S} (h : handler Ctx RedisPort S) (elapse : N -> S -> S) : handler Ctx RedisPort (S * list N) :=
  fun R c e st =>
    let '(r, s') := h R c e (elapse (default 0%N (head st.2)) st.1) in (r, (s', tail st.2)).

#[export] Instance timed_redis {S} (h : handler Ctx RedisPort S) view errs elapse `{!RedisWorld h view errs elapse} :
  TimedRedis (timed h elapse) (fun st => view st.1) errs.
Proof.
  intros R c e [s dts]. unfold timed. cbn [fst snd]. set (dt := default 0%N (head dts)).
  pose proof (redis_answers R c e (elapse dt s)) as Ha. destruct (h R c e (elapse dt s)) as [r s'].
  exists dt. by rewrite redis_elapse in Ha.
Qed.

(** What is known of the sockets from the commands sent and their answers: for each connected one,
    the time (in milliseconds, the least that may be stored) of its last renewal; when the last
    renewal was sent; and the sockets that were within their window when the set was deleted. *)
Record Trace := mkTrace { tr_heard : gmap string Z; tr_last : option Time; tr_swept : list string }.
Definition no_trace : Trace := mkTrace ∅ None [].

(** When a renewal lapses. *)
Definition lapses (score : Z) : Time := score * Millisecond + presenceTTL.

Section Sockets.
Context (errs : bool) (c : Ctx) (tenant user : string) (Ht : RequireTenant c = Ok tenant).

Let key := connsKey tenant user.

Definition trace_step (now : Time) {R} (e : RedisPort R) (r : R) (tr : Trace) : Trace :=
  match e in RedisPort R return R -> Trace with
  | TxPipeline [ZAdd _ score m; TxExpire _ _] => fun r =>
      mkTrace match r with
              | Ok _ => <[m := score]> (tr_heard tr)
              | Err _ => alter (Z.min score) m (tr_heard tr)
              end (Some now) (tr_swept tr)
  | ZRem _ m => fun _ => mkTrace (delete m (tr_heard tr)) (tr_last tr) (tr_swept tr)
  | Del _ => fun _ =>
      mkTrace ∅ (tr_last tr)
        (tr_swept tr ++ map fst (filter (fun kv : string * Z => now < lapses kv.2) (map_to_list (tr_heard tr))))
  | _ => fun _ => tr
  end r.


(** *** Redis and what is known of the sockets agree *)













(** *** Every command the operations send *)

(** The commands, by the last time the operation read. *)
Definition sends (R : Type) (c' : Ctx) (e : RedisPort R) (read : option Time) : Prop :=
  match e with
  | TimeNow => True
  | ZRemRangeByScore k below => k = key /\ exists t, read = Some t /\ below = UnixMilli (t - presenceTTL)
  | TxPipeline cmds => exists t m, read = Some t /\ cmds = [ZAdd key (UnixMilli t) m; TxExpire key presenceTTL]
  | ZCard k | ZRem k _ | Del k => k = key
  | _ => False
  end.
Definition reads (R : Type) (c' : Ctx) (e : RedisPort R) (read : option Time) (r : R) (read' : option Time) : Prop :=
  match e in RedisPort R return R -> Prop with
  | TimeNow => fun t => read' = Some t
  | _ => fun _ => read' = read
  end r.
Definition sending : contract Ctx RedisPort (option Time) := pre_post sends reads.

#[local] Instance sending_mono : Monotone sending.
Proof. apply pre_post_mono. Qed.



(** *** The operations *)

Inductive SocketOp := SConnect (client : string) | SHeartbeat (client : string) | SDisconnect (client : string) | SAsk.

Definition socket_op (op : SocketOp) : RdM (result bool) :=
  match op with
  | SConnect client => PStore.Connect c user client
  | SHeartbeat client => try! _ := PStore.Heartbeat c user client in Ret (Ok true)
  | SDisconnect client => PStore.Disconnect c user client
  | SAsk => PStore.HasLiveSocket c user
  end.





(** *** Answers, from a store that agrees *)


(** Commands and what is known after them. *)
Definition watched : contract Ctx RedisPort (RView * Trace) :=
  pre_post (fun _ _ _ _ => True) (fun R c' e gt r gt' =>
    exists dt, redis_post errs R c' e (Server.elapse dt gt.1) r gt'.1 /\
      gt'.2 = trace_step (rv_now gt'.1) e r gt.2).

#[local] Instance watched_mono : Monotone watched.
Proof. apply pre_post_mono. Qed.















End Sockets.

Section SocketRuns.
Context {S : Type} (h : handler Ctx RedisPort S) (view : S -> RView) (errs : bool) `{!TimedRedis h view errs}.
Context (c : Ctx) (tenant user : string) (Ht : RequireTenant c = Ok tenant).

(** The server, and what is known after each answer. *)
Definition traced : handler Ctx RedisPort (S * Trace) := fun R c' e st =>
  let '(r, s') := h R c' e st.1 in (r, (s', trace_step (rv_now (view s')) e r st.2)).








End SocketRuns.



Definition tab_server : handler Ctx RedisPort (RView * list N) := timed (Server.handle false) Server.elapse.

#[export] Instance tab_world : TimedRedis tab_server fst false :=
  timed_redis (Server.handle false) (fun g => g) false Server.elapse.


(** The set may be deleted under a new socket: [b] connects after [Disconnect] of [a] counted the
    set and before it deletes it. Both answer what the caller expects, and the user whose tab [b]
    was just connected has no live socket. *)
Theorem a_connect_is_swept :
  let before := run (Server.handle false) (PStore.Connect Server.ctx "ana" "a") Server.empty in
  let '(p, (g, tr)) :=
    schedule (traced (Server.handle false) (fun g => g)) [0; 0; 0; 0; 1; 1; 1; 1; 1; 0]%nat
      (map (socket_op Server.ctx "ana") [SDisconnect "a"; SConnect "b"]) (before.2, no_trace) in
  p = [Ret (Ok true); Ret (Ok true)] /\ tr_swept tr = ["b"] /\
  (run (Server.handle false) (PStore.HasLiveSocket Server.ctx "ana") g).1 = Ok false.
Proof. by vm_compute. Qed.
