(* ===== verification/Calendar.v ===== *)
(** * Civil time (Go's time package, as the services use it)

    Dates of the proleptic Gregorian calendar, time zones, [time.Date],
    [Time.AddDate(0, 0, 1)] and the clock fields of an instant; then what is true of
    them: dates and day numbers determine each other, and in a zone whose offset does not
    change the local days tile the time line. *)
From S2P Require Import Prelude GoStrings ConvEntity.

(** ** Dates *)

Definition leap (y : Z) : bool :=
  (y mod 4 =? 0) && (negb (y mod 100 =? 0) || (y mod 400 =? 0)).

(** The days of a year before its [m]th month. *)
Definition days_before_month (lp : bool) (m : Z) : Z :=
  let l := if lp then 1 else 0 in
  match m with
  | 1 => 0 | 2 => 31 | 3 => 59 + l | 4 => 90 + l | 5 => 120 + l | 6 => 151 + l | 7 => 181 + l
  | 8 => 212 + l | 9 => 243 + l | 10 => 273 + l | 11 => 304 + l | 12 => 334 + l | _ => 365 + l
  end.

Definition days_in (lp : bool) (m : Z) : Z := days_before_month lp (m + 1) - days_before_month lp m.

(** Days from 0001-01-01 to the first of year [y]. *)
Definition days_before_year (y : Z) : Z :=
  let p := y - 1 in 365 * p + p / 4 - p / 100 + p / 400.

(** Days from 1970-01-01; [d] may lie outside the month, as [time.Date] allows. *)
Definition unix_days (y m d : Z) : Z :=
  days_before_year y + days_before_month (leap y) m + (d - 1) - 719162.

(** The year and the day of the year, by cycles of 400, 100, 4 and 1 years. *)
Definition year_of (n : Z) : Z * Z :=
  let n400 := n / 146097 in let r := n mod 146097 in
  let n100 := Z.min 3 (r / 36524) in let r := r - 36524 * n100 in
  let n4 := r / 1461 in let r := r mod 1461 in
  let n1 := Z.min 3 (r / 365) in let r := r - 365 * n1 in
  (400 * n400 + 100 * n100 + 4 * n4 + n1 + 1, r).

(** The last month that has begun. *)
Definition month_of (lp : bool) (yday : Z) : Z :=
  foldl (fun m k => if days_before_month lp k <=? yday then k else m) 1 [2; 3; 4; 5; 6; 7; 8; 9; 10; 11; 12].

Definition civil (days : Z) : Z * Z * Z :=
  let '(y, yday) := year_of (days + 719162) in
  let m := month_of (leap y) yday in
  (y, m, yday - days_before_month (leap y) m + 1).

(** 0 is Sunday; 1970-01-01 was a Thursday. *)
Definition weekday_of (days : Z) : Z := (days + 4) mod 7.

(** ** Zones *)

(** What [Location.lookup] answers for a Unix time: the offset in seconds, and since when
    and until when it holds ([None]: for ever). *)
Record Location := mkLocation {
  loc_name : string; loc_lookup : Z -> Z * option Z * option Z }.

Definition UTC : Location := mkLocation "UTC" (fun _ => (0, None, None)).

Definition day_secs : Z := 86400.
Definition Day : Z := day_secs * Second.

Definition offset_at (loc : Location) (sec : Z) : Z := (loc_lookup loc sec).1.1.

(** [time.Date]; [sod] is the time of day in seconds. The zone is looked up as if the
    wall clock were UTC, and once more if that zone does not hold at the result. *)
Definition Date_in (loc : Location) (y m d sod : Z) : Time :=
  let unix := unix_days y m d * day_secs + sod in
  let '(off, since, until) := loc_lookup loc unix in
  let off :=
    if off =? 0 then 0
    else
      let utc := unix - off in
      if match since with Some s => utc <? s | None => false end
         || match until with Some e => e <=? utc | None => false end
      then offset_at loc utc else off in
  (unix - off) * Second.

(** The wall clock at an instant, in seconds. *)
Definition local_secs (loc : Location) (t : Time) : Z :=
  t / Second + offset_at loc (t / Second).

Definition local_days (loc : Location) (t : Time) : Z := local_secs loc t / day_secs.

Definition date_of (loc : Location) (t : Time) : Z * Z * Z := civil (local_days loc t).
Definition Weekday (loc : Location) (t : Time) : Z := weekday_of (local_days loc t).
Definition minute_of (loc : Location) (t : Time) : Z := (local_secs loc t mod day_secs) / 60.

(** [t.AddDate(0, 0, 1)]: the same wall clock, a day later. *)
Definition next_day (loc : Location) (t : Time) : Time :=
  let '(y, m, d) := date_of loc t in
  Date_in loc y m (d + 1) (local_secs loc t mod day_secs) + t mod Second.

(** [a.Sub(b)] saturates. *)
Definition Sub (a b : Time) : Z := Z.max (- 2 ^ 63) (Z.min (2 ^ 63 - 1) (a - b)).

(** ** Date texts *)

Definition digits_at (l : list Ascii.ascii) : option Z :=
  match l with [] => None | _ => digits_val l 0 end.

(** [time.Parse("2006-01-02", s)]. *)
Definition parse_date (s : string) : option (Z * Z * Z) :=
  match bytes_of s with
  | [y1; y2; y3; y4; s1; m1; m2; s2; d1; d2] =>
      if (byte_val s1 =? 45) && (byte_val s2 =? 45) then
        match digits_at [y1; y2; y3; y4], digits_at [m1; m2], digits_at [d1; d2] with
        | Some y, Some m, Some d =>
            if in_range 1 12 m && in_range 1 (days_in (leap y) m) d then Some (y, m, d) else None
        | _, _, _ => None
        end
      else None
  | _ => None
  end.

Definition digit_char (n : Z) : Ascii.ascii := byte_of (48 + n mod 10).

(** [Format("2006-01-02")], for the years a text can hold. *)
Definition format_date (y m d : Z) : string :=
  of_bytes [digit_char (y / 1000); digit_char (y / 100); digit_char (y / 10); digit_char y; byte_of 45;
            digit_char (m / 10); digit_char m; byte_of 45; digit_char (d / 10); digit_char d].

(** ** Dates and day numbers *)

Lemma div_unique a b q r : a = b * q + r -> 0 <= r < b -> a / b = q.
Proof. intros -> Hr. symmetry. apply (Z.div_unique _ _ _ r); lia. Qed.

Lemma mod_unique a b q r : a = b * q + r -> 0 <= r < b -> a mod b = r.
Proof. intros -> Hr. symmetry. apply (Z.mod_unique _ _ q); lia. Qed.

(** The cycles a day number falls in. *)
Lemma year_of_cycles n :
  exists a b c e yday, year_of n = (400 * a + 100 * b + 4 * c + e + 1, yday) /\
    n = 146097 * a + 36524 * b + 1461 * c + 365 * e + yday /\
    0 <= b <= 3 /\ 0 <= c <= 24 /\ 0 <= e <= 3 /\ 0 <= yday <= 365 /\
    (yday = 365 -> e = 3 /\ (c < 24 \/ b = 3)).
Proof.
  unfold year_of. set (a := n / 146097). set (r := n mod 146097).
  set (b := Z.min 3 (r / 36524)). set (r1 := r - 36524 * b).
  set (c := r1 / 1461). set (r2 := r1 mod 1461). set (e := Z.min 3 (r2 / 365)).
  exists a, b, c, e, (r2 - 365 * e). split; [reflexivity|].
  pose proof (Z.div_mod n 146097 ltac:(lia)) as Hn. fold a r in Hn.
  pose proof (Z.mod_pos_bound n 146097 ltac:(lia)) as Hr. fold r in Hr.
  pose proof (Z.div_mod r 36524 ltac:(lia)). pose proof (Z.mod_pos_bound r 36524 ltac:(lia)).
  assert (0 <= b <= 3 /\ 0 <= r1 <= 36524 /\ (r1 = 36524 -> b = 3)) as (Hb & Hr1 & Hr1').
  { subst b r1. assert (0 <= r / 36524 <= 4) by (split; [apply Z.div_pos; lia|apply Z.div_le_upper_bound; lia]).
    destruct (Z.min_spec 3 (r / 36524)) as [[? ->]|[? ->]]; lia. }
  pose proof (Z.div_mod r1 1461 ltac:(lia)) as Hc. fold c r2 in Hc.
  pose proof (Z.mod_pos_bound r1 1461 ltac:(lia)) as Hr2. fold r2 in Hr2.
  assert (0 <= c <= 24) as Hc' by (subst c; split; [apply Z.div_pos; lia|apply Z.lt_succ_r, Z.div_lt_upper_bound; lia]).
  pose proof (Z.div_mod r2 365 ltac:(lia)). pose proof (Z.mod_pos_bound r2 365 ltac:(lia)).
  assert (0 <= e <= 3 /\ 0 <= r2 - 365 * e <= 365 /\ (r2 - 365 * e = 365 -> e = 3 /\ r2 = 1460)) as (He & Hy & Hy').
  { subst e. assert (0 <= r2 / 365 <= 4) by (split; [apply Z.div_pos; lia|apply Z.div_le_upper_bound; lia]).
    destruct (Z.min_spec 3 (r2 / 365)) as [[? ->]|[? ->]]; lia. }
  split_and!; lia.
Qed.

Lemma days_before_cycles a b c e :
  0 <= b <= 3 -> 0 <= c <= 24 -> 0 <= e <= 3 ->
  days_before_year (400 * a + 100 * b + 4 * c + e + 1) = 146097 * a + 36524 * b + 1461 * c + 365 * e.
Proof.
  intros Hb Hc He. unfold days_before_year.
  replace (400 * a + 100 * b + 4 * c + e + 1 - 1) with (400 * a + 100 * b + 4 * c + e) by lia.
  rewrite (div_unique _ 4 (100 * a + 25 * b + c) e) by lia.
  rewrite (div_unique _ 100 (4 * a + b) (4 * c + e)) by lia.
  rewrite (div_unique _ 400 a (100 * b + 4 * c + e)) by lia. lia.
Qed.

Lemma leap_cycles a b c :
  0 <= b <= 3 -> 0 <= c <= 24 -> c < 24 \/ b = 3 -> leap (400 * a + 100 * b + 4 * c + 3 + 1) = true.
Proof.
  intros Hb Hc Hor. unfold leap.
  rewrite (mod_unique _ 4 (100 * a + 25 * b + c + 1) 0) by lia. cbn [Z.eqb andb].
  destruct (decide (c < 24)) as [Hlt|Hge].
  - rewrite (mod_unique _ 100 (4 * a + b) (4 * c + 4)) by lia.
    destruct (Z.eqb_spec (4 * c + 4) 0); [lia|done].
  - rewrite (mod_unique (400 * a + 100 * b + 4 * c + 3 + 1) 400 (a + 1) 0) by lia. by rewrite orb_true_r.
Qed.

Lemma year_of_spec n y yday :
  year_of n = (y, yday) -> days_before_year y + yday = n /\ 0 <= yday < 365 + (if leap y then 1 else 0 : Z).
Proof.
  intros Hy. destruct (year_of_cycles n) as (a & b & c & e & yd & Hy' & Hn & Hb & Hc & He & Hyd & Hlast).
  rewrite Hy in Hy'. injection Hy' as -> ->. rewrite days_before_cycles by done. split; [lia|].
  destruct (decide (yd = 365)) as [->|Hne]; [|case_match; lia].
  destruct (Hlast eq_refl) as [-> Hor]. rewrite leap_cycles by done. lia.
Qed.

(** The month a day of the year falls in, checked day by day. *)
Definition month_ok (lp : bool) (yday : Z) : bool :=
  let m := month_of lp yday in
  in_range 1 12 m && (days_before_month lp m <=? yday) && (yday <? days_before_month lp (m + 1)).

Lemma month_of_ok (lp : bool) yday :
  0 <= yday < 365 + (if lp then 1 else 0 : Z) -> month_ok lp yday = true.
Proof.
  intros Hy. assert (forallb (month_ok lp) (map Z.of_nat (seq 0 (if lp then 366 else 365)%nat)) = true) as Hall
    by (by destruct lp; vm_compute).
  rewrite forallb_forall in Hall. apply Hall. apply in_map_iff. exists (Z.to_nat yday).
  split; [lia|]. apply in_seq. destruct lp; lia.
Qed.

Lemma month_of_spec (lp : bool) yday :
  0 <= yday < 365 + (if lp then 1 else 0 : Z) ->
  1 <= month_of lp yday <= 12 /\ days_before_month lp (month_of lp yday) <= yday < days_before_month lp (month_of lp yday + 1).
Proof.
  intros Hy%month_of_ok. unfold month_ok, in_range in Hy. prop_bools. lia.
Qed.

(** A day number is that of its date, which is one of its month. *)
Lemma civil_spec days y m d :
  civil days = (y, m, d) -> unix_days y m d = days /\ 1 <= m <= 12 /\ 1 <= d <= days_in (leap y) m.
Proof.
  unfold civil. destruct (year_of (days + 719162)) as [y' yday] eqn:Hy.
  apply year_of_spec in Hy as [Hdays Hyday]. intros [= <- <- <-].
  destruct (month_of_spec _ _ Hyday) as [Hm Hd]. unfold unix_days, days_in. lia.
Qed.

(** ** Steady zones *)

(** From [lo] on the offset is [off], and stays so. *)
Definition steady (loc : Location) (off lo : Z) : Prop :=
  - day_secs <= off <= day_secs /\
  forall x, lo <= x -> exists since, loc_lookup loc x = (off, since, None) /\
    match since with Some s => s <= lo | None => True end.

Lemma steady_offset loc off lo x : steady loc off lo -> lo <= x -> offset_at loc x = off.
Proof. intros [_ Hs] Hx. destruct (Hs x Hx) as (since & Hl & _). unfold offset_at. by rewrite Hl. Qed.

Lemma steady_UTC lo : steady UTC 0 lo.
Proof. split; [unfold day_secs; lia|]. intros x _. by exists None. Qed.

Lemma steady_fixed name off lo :
  - day_secs <= off <= day_secs -> steady (mkLocation name (fun _ => (off, None, None))) off lo.
Proof. intros Ho. split; [done|]. intros x _. by exists None. Qed.

Lemma Second_pos : 0 < Second.
Proof. unfold Second. lia. Qed.

Section Steady.
Context (loc : Location) (off lo : Z) (Hs : steady loc off lo).

Lemma Date_in_steady y m d sod :
  lo + day_secs <= unix_days y m d * day_secs + sod ->
  Date_in loc y m d sod = (unix_days y m d * day_secs + sod - off) * Second.
Proof.
  intros Hlo. destruct Hs as [Hoff Hl]. unfold Date_in, day_secs in *.
  destruct (Hl (unix_days y m d * 86400 + sod)) as (since & -> & Hsince); [lia|].
  destruct (Z.eqb_spec off 0) as [->|_]; [done|].
  replace (match since with Some s => _ <? s | None => false end) with false; [done|].
  destruct since as [s|]; [|done]. symmetry. apply Z.ltb_ge. lia.
Qed.

(** The start of the local day, as an instant. *)
Definition day_start (k : Z) : Time := (k * day_secs - off) * Second.

Lemma local_secs_steady t : lo * Second <= t -> local_secs loc t = t / Second + off.
Proof.
  intros Ht. unfold local_secs. rewrite (steady_offset loc off lo); [done|done|].
  apply Z.div_le_lower_bound; [apply Second_pos|lia].
Qed.

Lemma local_days_bounds t :
  lo * Second <= t -> day_start (local_days loc t) <= t < day_start (local_days loc t + 1).
Proof.
  intros Ht. unfold local_days, day_start. rewrite local_secs_steady by done.
  pose proof (Z.div_mod t Second ltac:(unfold Second; lia)).
  pose proof (Z.mod_pos_bound t Second Second_pos).
  pose proof (Z.div_mod (t / Second + off) day_secs ltac:(done)).
  pose proof (Z.mod_pos_bound (t / Second + off) day_secs ltac:(done)).
  set (q := t / Second) in *. set (k := (q + off) / day_secs) in *.
  assert (k * day_secs - off <= q < (k + 1) * day_secs - off) by lia.
  pose proof Second_pos. nia.
Qed.

Lemma day_start_mono j k : j <= k -> day_start j <= day_start k.
Proof. unfold day_start, day_secs, Second. lia. Qed.

Lemma day_start_next k : day_start (k + 1) = day_start k + Day.
Proof. unfold day_start, Day. lia. Qed.

(** The local day of an instant of that day. *)
Lemma local_days_unique k t :
  lo * Second <= t -> day_start k <= t < day_start (k + 1) -> local_days loc t = k.
Proof.
  intros Hlo Ht. pose proof (local_days_bounds t Hlo) as Hb.
  destruct (decide (local_days loc t < k)).
  { pose proof (day_start_mono (local_days loc t + 1) k ltac:(lia)). lia. }
  destruct (decide (k < local_days loc t)); [|lia].
  pose proof (day_start_mono (k + 1) (local_days loc t) ltac:(lia)). lia.
Qed.

(** Midnight of a date, and a minute of that day. *)
Lemma Date_in_day k y m d sod :
  civil k = (y, m, d) -> lo + day_secs <= k * day_secs + sod ->
  Date_in loc y m d sod = day_start k + sod * Second.
Proof.
  intros (Hk & _)%civil_spec Hlo. rewrite Date_in_steady by (by rewrite Hk).
  rewrite Hk. unfold day_start. lia.
Qed.

Lemma minute_of_day k t :
  lo * Second <= t -> day_start k <= t < day_start (k + 1) ->
  minute_of loc t = (t - day_start k) / (60 * Second).
Proof.
  intros Hlo Ht. unfold minute_of. rewrite local_secs_steady by done.
  rewrite (mod_unique (t / Second + off) day_secs k (t / Second - (k * day_secs - off))); [|lia|].
  - rewrite (Z.mul_comm 60), <- Z.div_div by (unfold Second; lia). f_equal.
    unfold day_start.
    replace (t - (k * day_secs - off) * Second) with (t + - (k * day_secs - off) * Second) by lia.
    rewrite Z.div_add by (unfold Second; lia). lia.
  - unfold day_start in Ht. split.
    + assert (k * day_secs - off <= t / Second); [|lia].
      apply Z.div_le_lower_bound; [apply Second_pos|lia].
    + assert (t / Second < (k + 1) * day_secs - off); [|lia].
      apply Z.div_lt_upper_bound; [apply Second_pos|lia].
Qed.

Lemma next_day_start k :
  lo + 3 * day_secs <= k * day_secs -> next_day loc (day_start k) = day_start (k + 1).
Proof.
  intros Hlo. destruct Hs as [Hoff _]. unfold next_day.
  assert (lo * Second <= day_start k) as Hl by (unfold day_start, day_secs, Second in *; lia).
  assert (day_start k <= day_start k < day_start (k + 1)) as Hk
    by (rewrite day_start_next; unfold Day, day_secs, Second; lia).
  unfold date_of. rewrite (local_days_unique k) by done.
  destruct (civil k) as [[y m] d] eqn:Hc. pose proof (civil_spec k y m d Hc) as (Hd & _).
  assert (unix_days y m (d + 1) = k + 1) as Hd1 by (unfold unix_days in *; lia).
  rewrite local_secs_steady by done. unfold day_start at 1 2. rewrite Z.div_mul, Z.mod_mul by done.
  replace (k * day_secs - off + off) with (k * day_secs) by lia. rewrite Z.mod_mul by done.
  rewrite Date_in_steady; rewrite Hd1; [unfold day_start; lia|unfold day_secs in *; lia].
Qed.
End Steady.

(** ** Date texts read back *)

Lemma digit_char_val n : byte_val (digit_char n) = 48 + n mod 10.
Proof.
  unfold digit_char. pose proof (Z.mod_pos_bound n 10 ltac:(lia)) as Hm.
  set (d := n mod 10) in *. assert (d = 0 \/ d = 1 \/ d = 2 \/ d = 3 \/ d = 4 \/ d = 5 \/ d = 6 \/ d = 7 \/ d = 8 \/ d = 9)
    as Hd by lia. by repeat destruct Hd as [->|Hd]; [..|rewrite Hd].
Qed.

Lemma digits_val_char n s acc :
  digits_val (digit_char n :: s) acc = digits_val s (acc * 10 + n mod 10).
Proof.
  cbn [digits_val]. rewrite digit_char_val. pose proof (Z.mod_pos_bound n 10 ltac:(lia)).
  replace (in_range 48 57 (48 + n mod 10)) with true by
    (symmetry; unfold in_range; apply andb_true_iff; split; apply Z.leb_le; lia).
  f_equal. lia.
Qed.

Lemma two_digits n : 0 <= n <= 99 -> (n / 10) mod 10 * 10 + n mod 10 = n.
Proof. intros Hn. rewrite (Z.mod_small (n / 10)); Z.to_euclidean_division_equations; lia. Qed.

Lemma days_in_bound lp m : 1 <= m <= 12 -> days_in lp m <= 31.
Proof.
  intros Hm. assert (m = 1 \/ m = 2 \/ m = 3 \/ m = 4 \/ m = 5 \/ m = 6 \/ m = 7 \/ m = 8 \/ m = 9 \/ m = 10 \/ m = 11 \/ m = 12)
    as Hc by lia. by repeat destruct Hc as [->|Hc]; [..|subst m]; destruct lp.
Qed.

(** What is formatted parses back. *)
Lemma parse_format_date y m d :
  0 <= y <= 9999 -> 1 <= m <= 12 -> 1 <= d <= days_in (leap y) m ->
  parse_date (format_date y m d) = Some (y, m, d).
Proof.
  intros Hy Hm Hd. pose proof (days_in_bound (leap y) m Hm).
  unfold parse_date, format_date. rewrite bytes_of_of.
  change (byte_val (byte_of 45) =? 45) with true. cbn [andb digits_at].
  rewrite !digits_val_char. cbn [digits_val].
  rewrite !Z.mul_0_l, !Z.add_0_l, (two_digits m), (two_digits d) by lia.
  replace (((y / 1000 mod 10 * 10 + y / 100 mod 10) * 10 + y / 10 mod 10) * 10 + y mod 10) with y
    by (Z.to_euclidean_division_equations; lia).
  replace (in_range 1 12 m && in_range 1 (days_in (leap y) m) d) with true; [done|].
  symmetry. unfold in_range. repeat (apply andb_true_iff; split); apply Z.leb_le; lia.
Qed.

Lemma digit_char_of a v : in_range 48 57 (byte_val a) = true -> v mod 10 = byte_val a - 48 -> digit_char v = a.
Proof.
  intros _ Hv. unfold digit_char. rewrite Hv. replace (48 + (byte_val a - 48)) with (byte_val a) by lia.
  unfold byte_of, byte_val. by rewrite N2Z.id, Ascii.ascii_N_embedding.
Qed.

Lemma digits_two a b n :
  digits_at [a; b] = Some n -> 0 <= n <= 99 /\ digit_char (n / 10) = a /\ digit_char n = b.
Proof.
  cbn [digits_at digits_val]. case_match eqn:Ha; [|done]. case_match eqn:Hb; [|done]. intros [= <-].
  unfold in_range in Ha, Hb. prop_bools.
  split; [lia|]. split; apply digit_char_of; unfold in_range;
    try (apply andb_true_iff; split; apply Z.leb_le; lia); Z.to_euclidean_division_equations; lia.
Qed.

Lemma digits_four a b c d n :
  digits_at [a; b; c; d] = Some n -> 0 <= n <= 9999 /\ digit_char (n / 1000) = a /\
    digit_char (n / 100) = b /\ digit_char (n / 10) = c /\ digit_char n = d.
Proof.
  cbn [digits_at digits_val]. case_match eqn:Ha; [|done]. case_match eqn:Hb; [|done].
  case_match eqn:Hc; [|done]. case_match eqn:Hd; [|done]. intros [= <-].
  unfold in_range in *. prop_bools.
  split; [lia|]. split_and!; apply digit_char_of; unfold in_range;
    try (apply andb_true_iff; split; apply Z.leb_le; lia); Z.to_euclidean_division_equations; lia.
Qed.

(** What parses is the text its date formats to, and its date is one of the calendar. *)
Lemma parse_date_canonical s y m d :
  parse_date s = Some (y, m, d) ->
  format_date y m d = s /\ 0 <= y <= 9999 /\ 1 <= m <= 12 /\ 1 <= d <= days_in (leap y) m.
Proof.
  unfold parse_date. destruct (bytes_of s) as [|y1 [|y2 [|y3 [|y4 [|s1 [|m1 [|m2 [|s2 [|d1 [|d2 [|]]]]]]]]]]] eqn:Hb; try done.
  case_match eqn:Hsep; [|done]. destruct (digits_at [y1; y2; y3; y4]) as [y'|] eqn:Hy; [|done].
  destruct (digits_at [m1; m2]) as [m'|] eqn:Hm; [|done].
  destruct (digits_at [d1; d2]) as [d'|] eqn:Hd; [|done]. case_match eqn:Hr; [|done]. intros [= -> -> ->].
  apply digits_four in Hy as (Hy & <- & <- & <- & <-). apply digits_two in Hm as (Hm & <- & <-).
  apply digits_two in Hd as (Hd & <- & <-). unfold in_range in Hr. prop_bools.
  assert (forall a, byte_val a = 45 -> a = byte_of 45) as Hdash.
  { intros a Ha. unfold byte_of. rewrite <- Ha. unfold byte_val. by rewrite N2Z.id, Ascii.ascii_N_embedding. }
  split_and!; try lia. apply bytes_of_inj. rewrite Hb. unfold format_date. rewrite bytes_of_of.
  by rewrite (Hdash s1), (Hdash s2) by done.
Qed.
