(* ===== verification/BusinessHours.v ===== *)
(** * Business hours (domain/businesshours)

    The weekly schedule of a channel, parsed from its free-form document, the holidays of
    a tenant, whether a channel is open, and the arithmetic of business time. *)
From S2P Require Import Prelude GoStrings AppError Authz Shared ConvEntity ConvContracts Prog Ports.
From S2P Require Import Calendar.

(** ** The schedule (entity/schedule.go) *)

(** A document as JSON holds it; a number that is not a whole one is [DNumber None]. *)
Inductive doc :=
| DNull | DBool (b : bool) | DNumber (z : option Z) | DString (s : string)
| DArray (l : list doc) | DObject (m : list (string * doc)).

Record Interval := mkInterval { iv_StartMin : Z; iv_EndMin : Z }.

Definition Contains (i : Interval) (m : Z) : bool := (iv_StartMin i <=? m) && (m <? iv_EndMin i).

Record Schedule := mkSchedule {
  sc_Timezone : string; sc_Weekly : gmap Z (list Interval); sc_Configured : bool }.

Record rawInterval := mkRawInterval { ri_Start : string; ri_End : string }.
Record rawDay := mkRawDay { rd_Day : Z; rd_Intervals : list rawInterval }.
Record rawSchedule := mkRawSchedule { rs_Timezone : string; rs_Weekly : list rawDay }.

(** [json.Unmarshal] of one value into a field holding [cur]; [None] is its error. *)
Definition decode_string (d : doc) (cur : string) : option string :=
  match d with DString s => Some s | DNull => Some cur | _ => None end.
Definition decode_int (d : doc) (cur : Z) : option Z :=
  match d with
  | DNumber (Some z) => if bool_decide (in_int64 z) then Some z else None
  | DNull => Some cur
  | _ => None
  end.
Definition decode_list {A} (f : doc -> option A) (d : doc) : option (list A) :=
  match d with DArray l => mapM f l | DNull => Some [] | _ => None end.

(** Field names match up to case. The two letters outside ASCII that fold into it. *)
Definition json_fold (r : Z) : Z :=
  if in_range 65 90 r then r + 32 else if r =? 8490 then 107 else if r =? 383 then 115 else r.

Definition is_field (name key : string) : bool := to_lower json_fold key =! name.

(** An object into a struct: its keys in the order [json.Marshal] writes them, the unknown
    ones skipped. *)
Definition decode_object {A} (set : string -> doc -> A -> option A) (zero : A) (d : doc) : option A :=
  match d with
  | DObject m => foldl (fun acc kv => a ← acc; set kv.1 kv.2 a) (Some zero)
                   (stable_sort (fun a b => string_less a.1 b.1) m)
  | DNull => Some zero
  | _ => None
  end.

Definition decode_interval : doc -> option rawInterval :=
  decode_object (fun key d a =>
    if is_field "start" key then s ← decode_string d (ri_Start a); Some (mkRawInterval s (ri_End a))
    else if is_field "end" key then s ← decode_string d (ri_End a); Some (mkRawInterval (ri_Start a) s)
    else Some a) (mkRawInterval "" "").

Definition decode_day : doc -> option rawDay :=
  decode_object (fun key d a =>
    if is_field "day" key then z ← decode_int d (rd_Day a); Some (mkRawDay z (rd_Intervals a))
    else if is_field "intervals" key then l ← decode_list decode_interval d; Some (mkRawDay (rd_Day a) l)
    else Some a) (mkRawDay 0 []).

(** [decodeRaw]: the document, through JSON. *)
Definition decodeRaw (m : list (string * doc)) : option rawSchedule :=
  match m with
  | [] => None
  | _ =>
      decode_object (fun key d a =>
        if is_field "timezone" key then s ← decode_string d (rs_Timezone a); Some (mkRawSchedule s (rs_Weekly a))
        else if is_field "weekly" key then l ← decode_list decode_day d; Some (mkRawSchedule (rs_Timezone a) l)
        else Some a) (mkRawSchedule "" []) (DObject m)
  end.

(** Minutes from midnight; 24:00 is the last. *)
Definition parseHHMM (str : string) : option Z :=
  match split2_on colon (trim_space str) with
  | [hh; mm] =>
      match atoi hh, atoi mm with
      | Some h, Some m =>
          if (h <? 0) || (24 <? h) || (m <? 0) || (59 <? m) then None
          else
            let total := h * 60 + m in
            if 24 * 60 <? total then None else Some total
      | _, _ => None
      end
  | _ => None
  end.

Definition parseInterval (iv : rawInterval) : option Interval :=
  match parseHHMM (ri_Start iv), parseHHMM (ri_End iv) with
  | Some s, Some e => if e <=? s then None else Some (mkInterval s e)
  | _, _ => None
  end.

(** The intervals of a day that are well formed. *)
Definition parseIntervals (ivs : list rawInterval) : list Interval := omap parseInterval ivs.

Definition parse_day (s : Schedule) (day : rawDay) : Schedule :=
  if (rd_Day day <? 0) || (6 <? rd_Day day) then s
  else
    match parseIntervals (rd_Intervals day) with
    | [] => s
    | out => mkSchedule (sc_Timezone s) (<[rd_Day day := out]> (sc_Weekly s)) true
    end.

Definition ParseSchedule (m : list (string * doc)) : Schedule :=
  let s := mkSchedule "UTC" ∅ false in
  match decodeRaw m with
  | None => s
  | Some raw =>
      let tz := trim_space (rs_Timezone raw) in
      let s := if tz <>! "" then mkSchedule tz ∅ false else s in
      foldl parse_day s (rs_Weekly raw)
  end.

(** The errors of [ValidateSchedule], by what their messages carry. *)
Inductive ScheduleError :=
| MalformedDocument | UnknownTimezone (tz : string) | DayRange (d : Z) | DayRepeated (d : Z)
| InvalidStart (d : Z) (s : string) | InvalidEnd (d : Z) (s : string) | EndBeforeStart (d : Z)
| IntervalsOverlap (d : Z).

(** [sort.Slice]; the code orders no two intervals that start together and may not overlap. *)
Definition by_start (a b : Interval) : bool := iv_StartMin a <? iv_StartMin b.

Fixpoint validate_intervals (d : Z) (ivs : list rawInterval) (acc : list Interval)
  : ScheduleError + list Interval :=
  match ivs with
  | [] => inr acc
  | iv :: ivs =>
      match parseHHMM (ri_Start iv), parseHHMM (ri_End iv) with
      | None, _ => inl (InvalidStart d (ri_Start iv))
      | _, None => inl (InvalidEnd d (ri_End iv))
      | Some s, Some e =>
          if e <=? s then inl (EndBeforeStart d)
          else validate_intervals d ivs (acc ++ [mkInterval s e])
      end
  end.

(** The comparison of each interval with the one before. *)
Fixpoint overlapping (ivs : list Interval) : bool :=
  match ivs with
  | a :: (b :: _) as rest => (iv_StartMin b <? iv_EndMin a) || overlapping rest
  | _ => false
  end.

Fixpoint validate_days (seen : gset Z) (days : list rawDay) : option ScheduleError :=
  match days with
  | [] => None
  | day :: days =>
      if (rd_Day day <? 0) || (6 <? rd_Day day) then Some (DayRange (rd_Day day))
      else if bool_decide (rd_Day day ∈ seen) then Some (DayRepeated (rd_Day day))
      else
        match validate_intervals (rd_Day day) (rd_Intervals day) [] with
        | inl e => Some e
        | inr ivs =>
            if overlapping (stable_sort by_start ivs) then Some (IntervalsOverlap (rd_Day day))
            else validate_days ({[rd_Day day]} ∪ seen) days
        end
  end.

(** [LoadLocation] reads the zone database. *)
Definition ValidateSchedule (LoadLocation : string -> option Location) (m : list (string * doc))
  : option ScheduleError :=
  match m with
  | [] => None
  | _ =>
      match decodeRaw m with
      | None => Some MalformedDocument
      | Some raw =>
          let tz := trim_space (rs_Timezone raw) in
          let tz := if tz =! "" then "UTC" else tz in
          match LoadLocation tz with
          | None => Some (UnknownTimezone tz)
          | Some _ => validate_days ∅ (rs_Weekly raw)
          end
      end
  end.

Definition IntervalsOn (s : Schedule) (wd : Z) : list Interval := default [] (sc_Weekly s !! wd).

Definition IsOpenAt (s : Schedule) (loc : Location) (t : Time) : bool :=
  if negb (sc_Configured s) then true
  else existsb (fun iv => Contains iv (minute_of loc t)) (IntervalsOn s (Weekday loc t)).

(** ** Holidays (entity/holiday.go) *)

Definition ScopeAllChannels : string := "all_channels".
Definition ScopeChannels : string := "channels".

Record Holiday := mkHoliday {
  ho_ID : string; ho_TenantID : string; ho_Date : string; ho_Name : string; ho_Scope : string;
  ho_ChannelIDs : list string; ho_Recurring : bool; ho_CreatedAt : Time; ho_UpdatedAt : Time }.

Definition AppliesTo (h : Holiday) (channelID : string) : bool :=
  (ho_Scope h =! ScopeAllChannels) || existsb (fun id => id =! channelID) (ho_ChannelIDs h).

Definition splitDate (date : string) : option (Z * Z * Z) := parse_date date.

Definition FallsOn (h : Holiday) (date : Z * Z * Z) : bool :=
  let '(y, m, d) := date in
  match splitDate (ho_Date h) with
  | None => false
  | Some (hy, hm, hd) =>
      if ho_Recurring h then (m =? hm) && (d =? hd) else (y =? hy) && (m =? hm) && (d =? hd)
  end.

(** ** The service *)

(** [ChannelHours] is the [BusinessHours] of the channel [FindByID] answers. *)
Inductive HoursPort : Type -> Type :=
| HoNow : HoursPort Time
| HoNewID : HoursPort string
| ChannelHours (channelID : string) : HoursPort (result (list (string * doc)))
| HolidayCreate (h : Holiday) : HoursPort (result unit)
| HolidayUpdate (h : Holiday) : HoursPort (result unit)
| HolidayDelete (id : string) : HoursPort (result unit)
| HolidayFindByID (id : string) : HoursPort (result Holiday)
| HolidayList (p : PageRequest) : HoursPort (result (list Holiday))
| HolidayListAll : HoursPort (result (list Holiday)).

#[export] Instance hours_own : Embed HoursPort HoursPort := fun R e => e.

Abbreviation HoM := (prog Ctx HoursPort).

Definition StatusReason := string.
Definition ReasonOpen : StatusReason := "open".
Definition ReasonOutsideHours : StatusReason := "outside_hours".
Definition ReasonHoliday : StatusReason := "holiday".
Definition ReasonUnconfigured : StatusReason := "unconfigured".

Record BusinessStatus := mkBusinessStatus {
  bs_ChannelID : string; bs_Open : bool; bs_Reason : StatusReason; bs_Timezone : string;
  bs_LocalTime : Time; bs_HolidayName : string; bs_TodayIntervals : list string }.

Definition pad2 (n : Z) : string := if in_range 0 9 n then "0" +:+ pretty n else pretty n.
Definition hhmm (min : Z) : string := pad2 (min / 60) +:+ ":" +:+ pad2 (min mod 60).
Definition formatIntervals (ivs : list Interval) : list string :=
  map (fun iv => hhmm (iv_StartMin iv) +:+ "-" +:+ hhmm (iv_EndMin iv)) ivs.

(** What the arithmetic needs of a channel (service/businessclock.go). *)
Record resolved := mkResolved {
  re_sched : Schedule; re_loc : Location; re_holidays : list Holiday; re_channelID : string }.

Definition isHoliday (r : resolved) (date : Z * Z * Z) : bool :=
  existsb (fun h => AppliesTo h (re_channelID r) && FallsOn h date) (re_holidays r).

(** [iv] as instants of the day [day] is in. *)
Definition interval_on (loc : Location) (date : Z * Z * Z) (iv : Interval) : Time * Time :=
  let '(y, m, d) := date in
  (Date_in loc y m d (iv_StartMin iv * 60), Date_in loc y m d (iv_EndMin iv * 60)).

Definition dayIntervals (r : resolved) (day : Time) : list (Time * Time) :=
  let ivs := stable_sort by_start (IntervalsOn (re_sched r) (Weekday (re_loc r) day)) in
  map (interval_on (re_loc r) (date_of (re_loc r) day)) ivs.

Definition startOfDay (loc : Location) (t : Time) : Time :=
  let '(y, m, d) := date_of loc t in Date_in loc y m d 0.

Definition maxTime (a b : Time) : Time := if b <? a then a else b.
Definition minTime (a b : Time) : Time := if a <? b then a else b.

Definition maxDaysWalk : Z := 4000.

(** The open time of a day within [from, to]. *)
Definition day_total (r : resolved) (from to day : Time) (total : Z) : Z :=
  if isHoliday r (date_of (re_loc r) day) then total
  else
    foldl (fun total iv =>
      let segStart := maxTime iv.1 from in let segEnd := minTime iv.2 to in
      if segStart <? segEnd then total + Sub segEnd segStart else total)
      total (dayIntervals r day).

Fixpoint between_walk (r : resolved) (from to : Time) (fuel : nat) (day : Time) (total : Z) : Z :=
  match fuel with
  | O => total
  | S fuel =>
      if to <? day then total
      else between_walk r from to fuel (startOfDay (re_loc r) (next_day (re_loc r) day))
             (day_total r from to day total)
  end.

(** The intervals of a day from [cursor] on: the instant at which [remaining] is used up,
    or what is left of it. *)
Fixpoint day_scan (ivs : list (Time * Time)) (cursor : Time) (remaining : Z) : Time + Z :=
  match ivs with
  | [] => inr remaining
  | iv :: ivs =>
      if iv.2 <=? cursor then day_scan ivs cursor remaining
      else
        let segStart := maxTime iv.1 cursor in
        let avail := Sub iv.2 segStart in
        if remaining <=? avail then inl (segStart + remaining)
        else day_scan ivs cursor (remaining - avail)
  end.

Fixpoint add_walk (r : resolved) (fuel : nat) (cursor : Time) (remaining : Z) : option Time :=
  match fuel with
  | O => None
  | S fuel =>
      let day := startOfDay (re_loc r) cursor in
      let out := if isHoliday r (date_of (re_loc r) day) then inr remaining
                 else day_scan (dayIntervals r day) cursor remaining in
      match out with
      | inl t => Some t
      | inr remaining => add_walk r fuel (startOfDay (re_loc r) (next_day (re_loc r) day)) remaining
      end
  end.

Section Service.
Context (LoadLocation : string -> option Location).

(** The zone of a schedule, UTC when the database does not know it. *)
Definition zoned (sched : Schedule) : Schedule * Location :=
  match LoadLocation (sc_Timezone sched) with
  | Some loc => (sched, loc)
  | None => (mkSchedule "UTC" (sc_Weekly sched) (sc_Configured sched), UTC)
  end.

Definition resolve (c : Ctx) (channelID : string) : HoM (result resolved) :=
  try! hours := ask c (ChannelHours channelID) in
  let '(sched, loc) := zoned (ParseSchedule hours) in
  try! holidays := ask c HolidayListAll in
  Ret (Ok (mkResolved sched loc holidays channelID)).

Definition BusinessDurationBetween (c : Ctx) (channelID : string) (from to : Time) : HoM (result Z) :=
  try! _ := Ret (RequireTenant c) in
  if to <=? from then Ret (Ok 0)
  else
    try! r := resolve c channelID in
    if negb (sc_Configured (re_sched r)) then Ret (Ok (Sub to from))
    else Ret (Ok (between_walk r from to (Z.to_nat maxDaysWalk) (startOfDay (re_loc r) from) 0)).

Definition AddBusinessDuration (c : Ctx) (channelID : string) (from : Time) (d : Z) : HoM (result Time) :=
  try! _ := Ret (RequireTenant c) in
  if d <=? 0 then Ret (Ok from)
  else
    try! r := resolve c channelID in
    if negb (sc_Configured (re_sched r)) then Ret (Ok (from + d))
    else Ret (Ok (default (from + d) (add_walk r (Z.to_nat maxDaysWalk) from d))).

Definition Status (c : Ctx) (channelID : string) (at_ : Time) : HoM (result BusinessStatus) :=
  try! _ := Ret (RequireTenant c) in
  try! hours := ask c (ChannelHours channelID) in
  let '(sched, loc) := zoned (ParseSchedule hours) in
  let base open reason holiday := mkBusinessStatus channelID open reason (sc_Timezone sched) at_ holiday
                                    (formatIntervals (IntervalsOn sched (Weekday loc at_))) in
  try! holidays := ask c HolidayListAll in
  match List.find (fun h => AppliesTo h channelID && FallsOn h (date_of loc at_)) holidays with
  | Some h => Ret (Ok (base false ReasonHoliday (ho_Name h)))
  | None =>
      Ret (Ok (if negb (sc_Configured sched) then base true ReasonUnconfigured ""
               else if IsOpenAt sched loc at_ then base true ReasonOpen ""
               else base false ReasonOutsideHours ""))
  end.

Definition IsWithinBusinessHours (c : Ctx) (channelID : string) (at_ : Time) : HoM (result bool) :=
  try! status := Status c channelID at_ in
  Ret (Ok (bs_Open status)).

Definition StatusNow (c : Ctx) (channelID : string) : HoM (result BusinessStatus) :=
  let! now := ask c HoNow in
  Status c channelID now.
End Service.

(** ** Holidays (service/holiday_service.go) *)

Module HolidaySvc.
Record CreateHoliday := mkCreateHoliday {
  crh_Date : string; crh_Name : string; crh_ChannelIDs : list string; crh_Recurring : option bool }.
Record UpdateHoliday := mkUpdateHoliday {
  uph_Date : option string; uph_Name : option string; uph_ChannelIDs : option (list string);
  uph_Recurring : option bool }.

Definition field_error (field msg full : string) : error :=
  WithDetails {[field := VStr msg]} (Validation full).

Definition normalizeDate (date : string) : result string :=
  match parse_date (trim_space date) with
  | None => Err (field_error "date" "must be YYYY-MM-DD" "date must be YYYY-MM-DD")
  | Some (y, m, d) => Ok (format_date y m d)
  end.

Definition resolveScope (channelIDs : list string) : string * list string :=
  let cleaned := filter (fun id => id <> "") (map trim_space channelIDs) in
  match cleaned with [] => (ScopeAllChannels, []) | _ => (ScopeChannels, cleaned) end.

Definition Create (c : Ctx) (cmd : CreateHoliday) : HoM (result Holiday) :=
  try! tenantID := Ret (RequireTenant c) in
  try! date := Ret (normalizeDate (crh_Date cmd)) in
  if blank (crh_Name cmd) then Ret (Err (field_error "name" "is required" "name is required"))
  else
    let '(scope, channelIDs) := resolveScope (crh_ChannelIDs cmd) in
    let! now := ask c HoNow in
    let! id := ask c HoNewID in
    let h := mkHoliday id tenantID date (trim_space (crh_Name cmd)) scope channelIDs
               (default false (crh_Recurring cmd)) now now in
    try! _ := ask c (HolidayCreate h) in
    Ret (Ok h).

(** The fields of the command, assigned; the first that is refused ends the update. *)
Definition applyHolidayUpdate (cmd : UpdateHoliday) (h : Holiday) : result Holiday :=
  match match uph_Date cmd with Some d => normalizeDate d | None => Ok (ho_Date h) end with
  | Err e => Err e
  | Ok date =>
      match match uph_Name cmd with
            | Some n => if blank n then Err (field_error "name" "cannot be empty" "name cannot be empty")
                        else Ok (trim_space n)
            | None => Ok (ho_Name h) end with
      | Err e => Err e
      | Ok name =>
          let '(scope, ids) := match uph_ChannelIDs cmd with
                               | Some ids => resolveScope ids
                               | None => (ho_Scope h, ho_ChannelIDs h) end in
          Ok (mkHoliday (ho_ID h) (ho_TenantID h) date name scope ids
                (default (ho_Recurring h) (uph_Recurring cmd)) (ho_CreatedAt h) (ho_UpdatedAt h))
      end
  end.

Definition touched (now : Time) (h : Holiday) : Holiday :=
  mkHoliday (ho_ID h) (ho_TenantID h) (ho_Date h) (ho_Name h) (ho_Scope h) (ho_ChannelIDs h)
    (ho_Recurring h) (ho_CreatedAt h) now.

Definition Update (c : Ctx) (id : string) (cmd : UpdateHoliday) : HoM (result Holiday) :=
  try! _ := Ret (RequireTenant c) in
  try! h := ask c (HolidayFindByID id) in
  try! h := Ret (applyHolidayUpdate cmd h) in
  let! now := ask c HoNow in
  let h := touched now h in
  try! _ := ask c (HolidayUpdate h) in
  Ret (Ok h).

Definition Delete (c : Ctx) (id : string) : HoM (result unit) :=
  try! _ := Ret (RequireTenant c) in
  try! _ := ask c (HolidayFindByID id) in
  ask c (HolidayDelete id).

Definition Get (c : Ctx) (id : string) : HoM (result Holiday) :=
  try! _ := Ret (RequireTenant c) in
  ask c (HolidayFindByID id).

Definition List_ (c : Ctx) (p : PageRequest) : HoM (result (list Holiday)) :=
  try! _ := Ret (RequireTenant c) in
  ask c (HolidayList (Normalize p)).
End HolidaySvc.
