(* ===== verification/BusinessTime.v ===== *)
(** * Business time

    How many instants of a stretch of time satisfy a condition, what sorted disjoint segments
    cover of it, and with these: the time measured between two instants is the time during
    which the schedule is open. *)
From S2P Require Import Prelude GoStrings AppError Prog Authz Shared ConvEntity ConvContracts Ports Calendar BusinessHours.

(** The instants of [a, a + n) at which [p] holds, counted one by one. *)
Fixpoint count_from (p : Z -> bool) (a : Z) (n : nat) : Z :=
  match n with
  | O => 0
  | S n => count_from p a n + (if p (a + Z.of_nat n) then 1 else 0)
  end.

(** The instants of [a, b) at which [p] holds. *)
Definition measure (p : Z -> bool) (a b : Z) : Z := count_from p a (Z.to_nat (b - a)).

Lemma measure_empty p a b : b <= a -> measure p a b = 0.
Proof. intros Hab. unfold measure. by rewrite Z2Nat.nonpos by lia. Qed.

Lemma measure_next p a b : a <= b -> measure p a (b + 1) = measure p a b + (if p b then 1 else 0).
Proof.
  intros Hab. unfold measure. replace (Z.to_nat (b + 1 - a)) with (S (Z.to_nat (b - a))) by lia.
  cbn [count_from]. by replace (a + Z.of_nat (Z.to_nat (b - a))) with b by lia.
Qed.

(** Induction on the end of a stretch. *)
Lemma stretch_ind (a : Z) (P : Z -> Prop) :
  P a -> (forall b, a <= b -> P b -> P (b + 1)) -> forall b, a <= b -> P b.
Proof.
  intros H0 Hn b Hab. replace b with (a + Z.of_nat (Z.to_nat (b - a))) by lia.
  induction (Z.to_nat (b - a)) as [|n IH]; [by rewrite Z.add_0_r|].
  rewrite Nat2Z.inj_succ, <- Z.add_1_r, Z.add_assoc. apply Hn; [lia|done].
Qed.

Lemma measure_split p a b c : a <= b <= c -> measure p a c = measure p a b + measure p b c.
Proof.
  intros [Hab Hbc]. revert c Hbc. apply stretch_ind.
  - rewrite (measure_empty p b b); lia.
  - intros c Hbc IH. rewrite !measure_next by lia. lia.
Qed.

Lemma measure_ext p q a b : (forall t, a <= t < b -> p t = q t) -> measure p a b = measure q a b.
Proof.
  destruct (Z.le_gt_cases a b) as [Hab|Hab]; [|by rewrite !measure_empty by lia].
  revert b Hab. apply (stretch_ind a (fun b => _ -> _)).
  - by rewrite !measure_empty by lia.
  - intros b Hab IH Hpq. rewrite !measure_next, Hpq by lia. rewrite IH; [done|]. intros. apply Hpq. lia.
Qed.

Lemma measure_none p a b : (forall t, a <= t < b -> p t = false) -> measure p a b = 0.
Proof.
  intros Hp. rewrite (measure_ext p (fun _ => false)) by done. clear Hp. unfold measure.
  induction (Z.to_nat (b - a)) as [|n IH]; cbn [count_from]; lia.
Qed.

Lemma measure_all p a b : a <= b -> (forall t, a <= t < b -> p t = true) -> measure p a b = b - a.
Proof.
  intros Hab Hp. rewrite (measure_ext p (fun _ => true)) by done. clear Hp. unfold measure.
  replace (b - a) with (Z.of_nat (Z.to_nat (b - a))) at 2 by lia.
  induction (Z.to_nat (b - a)) as [|n IH]; cbn [count_from]; lia.
Qed.

Lemma measure_bounds p a b : 0 <= measure p a b <= Z.max 0 (b - a).
Proof.
  unfold measure. replace (Z.max 0 (b - a)) with (Z.of_nat (Z.to_nat (b - a))) by lia.
  induction (Z.to_nat (b - a)) as [|n IH]; cbn [count_from]; [lia|]. case_match; lia.
Qed.

Lemma measure_mono p a b c : a <= b <= c -> measure p a b <= measure p a c.
Proof. intros Hb. rewrite (measure_split p a b c) by done. pose proof (measure_bounds p b c). lia. Qed.

Lemma measure_or p q a b :
  (forall t, p t = true -> q t = false) ->
  measure (fun t => p t || q t) a b = measure p a b + measure q a b.
Proof.
  intros Hpq. unfold measure. induction (Z.to_nat (b - a)) as [|n IH]; cbn [count_from]; [done|].
  rewrite IH. specialize (Hpq (a + Z.of_nat n)). destruct (p _); cbn; [rewrite Hpq by done; lia|].
  case_match; lia.
Qed.

(** What holds only within [lo, hi) is counted there. *)
Lemma measure_restrict p lo hi a b :
  (forall t, p t = true -> lo <= t < hi) -> measure p a b = measure p (Z.max lo a) (Z.min b hi).
Proof.
  intros Hp. assert (forall x y, (forall t, x <= t < y -> ~ lo <= t < hi) -> measure p x y = 0) as Hout.
  { intros x y Hxy. apply measure_none. intros t Ht. destruct (p t) eqn:Hpt; [|done].
    by destruct (Hxy t Ht); apply Hp. }
  destruct (Z.le_gt_cases (Z.min b hi) (Z.max lo a)) as [Hle|Hgt].
  - rewrite Hout, (measure_empty _ _ _ Hle); [done|]. lia.
  - rewrite (measure_split p a (Z.max lo a)), (measure_split p (Z.max lo a) (Z.min b hi) b) by lia.
    rewrite (Hout a), (Hout (Z.min b hi)) by lia. lia.
Qed.

(** A stretch cut at a point that may lie outside of it. *)
Lemma measure_cut p lo mid hi a b :
  lo <= mid <= hi ->
  measure p (Z.max lo a) (Z.min b hi) = measure p (Z.max lo a) (Z.min b mid) + measure p (Z.max mid a) (Z.min b hi).
Proof.
  intros Hmid. destruct (Z.le_gt_cases b mid) as [Hb|Hb].
  - rewrite (measure_empty p (Z.max mid a)) by lia. rewrite !Z.min_l by lia. lia.
  - destruct (Z.le_gt_cases mid a) as [Ha|Ha].
    + rewrite (measure_empty p (Z.max lo a) (Z.min b mid)) by lia. rewrite !Z.max_r by lia. lia.
    + rewrite (Z.min_r b mid), (Z.max_l mid a) by lia. apply measure_split. lia.
Qed.

(** ** Segments *)

Definition in_seg (s : Z * Z) (t : Z) : bool := (s.1 <=? t) && (t <? s.2).
Definition in_segs (segs : list (Z * Z)) (t : Z) : bool := existsb (fun s => in_seg s t) segs.

(** What a segment has of [a, b). *)
Definition clip (a b : Z) (s : Z * Z) : Z := Z.max 0 (Z.min s.2 b - Z.max s.1 a).
Definition clips (a b : Z) (segs : list (Z * Z)) : Z := foldr (fun s acc => clip a b s + acc) 0 segs.

(** Segments in order, none empty, none reaching into the next. *)
Definition chain (segs : list (Z * Z)) : Prop :=
  Forall (fun s => s.1 < s.2) segs /\ StronglySorted (fun x y => x.2 <= y.1) segs.

Lemma chain_cons s segs :
  chain (s :: segs) <-> s.1 < s.2 /\ Forall (fun x => s.2 <= x.1) segs /\ chain segs.
Proof.
  unfold chain. rewrite Forall_cons. split.
  - intros [[H1 H2] H3]. inversion H3; subst. by repeat split.
  - intros (H1 & H2 & H3 & H4). repeat split; [done..|]. by constructor.
Qed.

Lemma in_seg_spec s t : in_seg s t = true <-> s.1 <= t < s.2.
Proof. unfold in_seg. rewrite andb_true_iff, Z.leb_le, Z.ltb_lt. done. Qed.

Lemma in_segs_spec segs t : in_segs segs t = true <-> exists s, s ∈ segs /\ s.1 <= t < s.2.
Proof.
  unfold in_segs. rewrite existsb_exists. split; intros (s & Hs & Ht); exists s;
    by rewrite in_seg_spec in * || rewrite list_elem_of_In in *; rewrite ?in_seg_spec, ?list_elem_of_In in *.
Qed.

Lemma measure_seg s a b : s.1 < s.2 -> measure (in_seg s) a b = clip a b s.
Proof.
  intros Hs. rewrite (measure_restrict _ s.1 s.2) by (intros t; apply in_seg_spec).
  unfold clip. destruct (Z.le_gt_cases (Z.min b s.2) (Z.max s.1 a)) as [Hle|Hgt].
  - rewrite measure_empty by done. lia.
  - rewrite measure_all; [lia|lia|]. intros t Ht. apply in_seg_spec. lia.
Qed.

Lemma measure_segs segs a b : chain segs -> measure (in_segs segs) a b = clips a b segs.
Proof.
  induction segs as [|s segs IH]; intros Hc; [by apply measure_none|].
  apply chain_cons in Hc as (Hs & Hr & Hc). cbn [clips foldr]. fold (clips a b segs).
  rewrite <- IH, <- measure_seg by done. apply measure_or. intros t Ht.
  apply in_seg_spec in Ht. destruct (in_segs segs t) eqn:He; [|done].
  apply in_segs_spec in He as (x & Hx & Hxt). rewrite Forall_forall in Hr. specialize (Hr x Hx). lia.
Qed.

Lemma clips_after segs a b : Forall (fun x => b <= x.1) segs -> clips a b segs = 0.
Proof. induction 1 as [|x segs Hx _ IH]; cbn [clips foldr]; [done|]. fold (clips a b segs). unfold clip. lia. Qed.

Lemma clips_nonneg segs a b : 0 <= clips a b segs.
Proof. induction segs as [|x segs IH]; cbn [clips foldr]; [done|]. fold (clips a b segs). unfold clip. lia. Qed.

(** ** Business time: the arithmetic is that of the opening hours

    In a zone whose offset does not change, over a schedule whose intervals do not overlap:
    the business time between two instants is the time at which the channel answers that
    it is open, and adding business time is its inverse. *)

(** ** Well-formed schedules *)

Definition interval_ok (iv : Interval) : Prop := 0 <= iv_StartMin iv < iv_EndMin iv /\ iv_EndMin iv <= 1440.

Definition day_ok (ivs : list Interval) : Prop :=
  Forall interval_ok ivs /\ overlapping (stable_sort by_start ivs) = false.

Definition sched_ok (s : Schedule) : Prop := map_Forall (fun _ ivs => day_ok ivs) (sc_Weekly s).

Lemma IntervalsOn_ok s wd : sched_ok s -> day_ok (IntervalsOn s wd).
Proof.
  intros Hs. unfold IntervalsOn. destruct (sc_Weekly s !! wd) as [ivs|] eqn:Hl; [by apply (Hs wd)|].
  split; [constructor|done].
Qed.

Lemma not_overlapping ivs :
  Forall interval_ok ivs -> overlapping ivs = false ->
  StronglySorted (fun a b => iv_EndMin a <= iv_StartMin b) ivs.
Proof.
  induction ivs as [|a ivs IH]; intros Hok Ho; [constructor|].
  apply Forall_cons in Hok as [Ha Hok]. destruct ivs as [|b ivs]; [by repeat constructor|].
  change ((iv_StartMin b <? iv_EndMin a) || overlapping (b :: ivs) = false) in Ho.
  apply orb_false_iff in Ho as [Hab%Z.ltb_ge Ho]. specialize (IH Hok Ho). constructor; [done|].
  apply StronglySorted_cons in IH as [Hb _]. apply Forall_cons in Hok as [[Hb1 _] _].
  constructor; [done|]. eapply Forall_impl; [exact Hb|]. cbn. lia.
Qed.

Definition Minute_ns : Z := 60 * Second.

(** An interval as a segment of the day that starts at [D]. *)
Definition seg_of (D : Time) (iv : Interval) : Z * Z :=
  (D + iv_StartMin iv * Minute_ns, D + iv_EndMin iv * Minute_ns).

Lemma segs_chain D ivs : day_ok ivs -> chain (map (seg_of D) (stable_sort by_start ivs)).
Proof.
  intros [Hok Ho]. rewrite <- (stable_sort_perm by_start ivs) in Hok.
  pose proof (not_overlapping _ Hok Ho) as Hs. set (l := stable_sort by_start ivs) in *. clearbody l.
  split; [|clear Ho; induction Hs as [|a l _ IH Ha]; cbn [map]; constructor].
  - apply Forall_map. eapply Forall_impl; [exact Hok|]. intros iv Hiv. cbn.
    unfold interval_ok, Minute_ns, Second in *. lia.
  - apply IH. by apply Forall_cons in Hok as [_ ?].
  - apply Forall_map. eapply Forall_impl; [exact Ha|]. cbn. unfold Minute_ns, Second. lia.
Qed.

(** ** Days *)

(** The reference: whether the channel is open at an instant. *)
Definition open_at (r : resolved) (t : Time) : bool :=
  negb (isHoliday r (date_of (re_loc r) t)) && IsOpenAt (re_sched r) (re_loc r) t.

Section Steady.
Context (r : resolved) (off lo : Z) (Hst : steady (re_loc r) off lo).
Context (Hconf : sc_Configured (re_sched r) = true) (Hok : sched_ok (re_sched r)).

Let D (k : Z) : Time := day_start off k.

(** Days far enough into the steady time. *)
Definition late (k : Z) : Prop := lo + 3 * day_secs <= k * day_secs.

Lemma late_next k : late k -> late (k + 1).
Proof. unfold late, day_secs. lia. Qed.

Lemma late_after k t : late k -> D k <= t -> lo * Second <= t.
Proof. destruct Hst as [Hoff _]. unfold late, D, day_start, day_secs, Second in *. lia. Qed.

Lemma D_next k : D (k + 1) = D k + Day.
Proof. apply day_start_next. Qed.

Lemma Day_minutes : Day = 1440 * Minute_ns.
Proof. done. Qed.

Lemma date_of_day k t : late k -> D k <= t < D (k + 1) -> date_of (re_loc r) t = civil k.
Proof.
  intros Hk Ht. unfold date_of. by rewrite (local_days_unique _ off lo Hst k) by (done || (apply (late_after k); [done|lia])).
Qed.

Lemma Weekday_day k t : late k -> D k <= t < D (k + 1) -> Weekday (re_loc r) t = weekday_of k.
Proof.
  intros Hk Ht. unfold Weekday. by rewrite (local_days_unique _ off lo Hst k) by (done || (apply (late_after k); [done|lia])).
Qed.

Lemma D_in_day k : D k <= D k < D (k + 1).
Proof. rewrite D_next. unfold Day, day_secs, Second. lia. Qed.

Lemma startOfDay_day k t : late k -> D k <= t < D (k + 1) -> startOfDay (re_loc r) t = D k.
Proof.
  intros Hk Ht. unfold startOfDay. rewrite (date_of_day k) by done.
  destruct (civil k) as [[y m] d] eqn:Hc. rewrite (Date_in_day _ off lo Hst k) by (done || (unfold late, day_secs in *; lia)).
  unfold D. lia.
Qed.

Lemma next_day_D k : late k -> next_day (re_loc r) (D k) = D (k + 1).
Proof. apply next_day_start, Hst. Qed.

Lemma start_next_day k : late k -> startOfDay (re_loc r) (next_day (re_loc r) (D k)) = D (k + 1).
Proof.
  intros Hk. rewrite next_day_D by done. apply startOfDay_day; [by apply late_next|apply D_in_day].
Qed.

(** The open segments of a day. *)
Definition day_segs (k : Z) : list (Z * Z) :=
  map (seg_of (D k)) (stable_sort by_start (IntervalsOn (re_sched r) (weekday_of k))).

Lemma day_segs_chain k : chain (day_segs k).
Proof. by apply segs_chain, IntervalsOn_ok. Qed.

Lemma day_segs_within k : Forall (fun s => D k <= s.1 /\ s.2 <= D (k + 1)) (day_segs k).
Proof.
  apply Forall_map. destruct (IntervalsOn_ok _ (weekday_of k) Hok) as [Hiv _].
  rewrite <- (stable_sort_perm by_start) in Hiv. eapply Forall_impl; [exact Hiv|].
  intros iv Hi. rewrite D_next, Day_minutes. unfold seg_of, interval_ok, Minute_ns, Second in *. cbn [fst snd]. lia.
Qed.

Lemma dayIntervals_day k : late k -> dayIntervals r (D k) = day_segs k.
Proof.
  intros Hk. unfold dayIntervals, day_segs. rewrite (Weekday_day k), (date_of_day k) by (done || apply D_in_day).
  apply list_fmap_ext. intros i iv Hiv. apply list_elem_of_lookup_2 in Hiv.
  assert (interval_ok iv) as Hi.
  { destruct (IntervalsOn_ok _ (weekday_of k) Hok) as [Hall _]. rewrite <- (stable_sort_perm by_start) in Hall.
    rewrite Forall_forall in Hall. by apply Hall. }
  unfold interval_on, seg_of. destruct (civil k) as [[y m] d] eqn:Hc.
  unfold interval_ok, late in *.
  rewrite !(Date_in_day _ off lo Hst k) by (done || (unfold day_secs in *; lia)).
  unfold D, Minute_ns. f_equal; lia.
Qed.

Lemma Contains_seg k t iv :
  late k -> D k <= t < D (k + 1) -> Contains iv (minute_of (re_loc r) t) = in_seg (seg_of (D k) iv) t.
Proof.
  intros Hk Ht. rewrite (minute_of_day _ off lo Hst k) by (done || (apply (late_after k); [done|lia])).
  unfold Contains, in_seg, seg_of. cbn [fst snd]. change (60 * Second) with Minute_ns.
  fold (D k). assert (0 < Minute_ns) as HM by done.
  pose proof (Z.div_mod (t - D k) Minute_ns ltac:(lia)). pose proof (Z.mod_pos_bound (t - D k) Minute_ns HM).
  set (q := (t - D k) / Minute_ns) in *. f_equal; apply eq_true_iff_eq.
  - rewrite !Z.leb_le. nia.
  - rewrite !Z.ltb_lt. nia.
Qed.

Definition closed_day (k : Z) : bool := isHoliday r (civil k).

(** Within a day, open is within a segment of a day that is no holiday. *)
Lemma open_in_day k t :
  late k -> D k <= t < D (k + 1) -> open_at r t = negb (closed_day k) && in_segs (day_segs k) t.
Proof.
  intros Hk Ht. unfold open_at, closed_day. rewrite (date_of_day k) by done. f_equal.
  unfold IsOpenAt. rewrite Hconf. cbn [negb]. rewrite (Weekday_day k) by done.
  unfold day_segs, in_segs. apply eq_true_iff_eq. rewrite !existsb_exists. split.
  - intros (iv & Hiv & Hc). exists (seg_of (D k) iv). rewrite <- (Contains_seg k) by done. split; [|done].
    apply in_map. apply list_elem_of_In. rewrite stable_sort_perm. by apply list_elem_of_In.
  - intros (s & (iv & <- & Hiv)%in_map_iff & Hc). exists iv. rewrite (Contains_seg k) by done. split; [|done].
    apply list_elem_of_In. apply list_elem_of_In in Hiv. by rewrite stable_sort_perm in Hiv.
Qed.

(** The open time of a day within [a, b). *)
Lemma measure_day k a b :
  late k ->
  measure (open_at r) (Z.max (D k) a) (Z.min b (D (k + 1))) =
    if closed_day k then 0 else clips a b (day_segs k).
Proof.
  intros Hk. rewrite (measure_ext _ (fun t => negb (closed_day k) && in_segs (day_segs k) t))
    by (intros t Ht; apply open_in_day; [done|lia]).
  destruct (closed_day k); cbn [negb andb]; [by apply measure_none|].
  rewrite <- (measure_restrict _ (D k) (D (k + 1))); [apply measure_segs, day_segs_chain|].
  intros t (s & Hs & Ht)%in_segs_spec. pose proof (day_segs_within k) as Hw. rewrite Forall_forall in Hw.
  specialize (Hw s Hs). lia.
Qed.

(** ** The walks *)

Lemma Sub_exact a b : in_int64 (a - b) -> Sub a b = a - b.
Proof. unfold Sub, in_int64. lia. Qed.

Lemma maxTime_max a b : maxTime a b = Z.max a b.
Proof. unfold maxTime. destruct (Z.ltb_spec b a); lia. Qed.

Lemma minTime_min a b : minTime a b = Z.min a b.
Proof. unfold minTime. destruct (Z.ltb_spec a b); lia. Qed.

(** The body of the loop adds what each segment has of [a, b). *)
Lemma fold_clips a b segs lo' hi' total :
  Forall (fun s => lo' <= s.1 /\ s.2 <= hi') segs -> hi' - lo' < 2 ^ 63 ->
  foldl (fun total iv =>
    let segStart := maxTime iv.1 a in let segEnd := minTime iv.2 b in
    if segStart <? segEnd then total + Sub segEnd segStart else total) total segs = total + clips a b segs.
Proof.
  unfold Time in *. intros Hw Hd. revert total. induction Hw as [|s segs Hs Hw IH]; intros total; cbn [foldl]; [cbn; lia|]. unfold Time in *.
  rewrite IH. cbn [clips foldr]. fold (clips a b segs). cbv zeta. rewrite maxTime_max, minTime_min.
  unfold clip. destruct (Z.ltb_spec (Z.max s.1 a) (Z.min s.2 b)); [|lia].
  rewrite Sub_exact by (unfold in_int64; lia). lia.
Qed.

Lemma day_total_spec k a b total :
  late k -> day_total r a b (D k) total = total + measure (open_at r) (Z.max (D k) a) (Z.min b (D (k + 1))).
Proof.
  intros Hk. rewrite measure_day by done. unfold day_total, closed_day.
  rewrite (date_of_day k) by (done || apply D_in_day). destruct (isHoliday r (civil k)); [lia|].
  rewrite dayIntervals_day by done. apply (fold_clips a b _ (D k) (D (k + 1))); [apply day_segs_within|].
  rewrite D_next. unfold Day, day_secs, Second. lia.
Qed.

Lemma D_mono j k : j <= k -> D j <= D k.
Proof. apply day_start_mono. Qed.

Lemma between_walk_spec fuel k a b total :
  late k ->
  between_walk r a b fuel (D k) total =
    total + measure (open_at r) (Z.max (D k) a) (Z.min b (D (k + Z.of_nat fuel))).
Proof.
  revert k total. induction fuel as [|fuel IH]; intros k total Hk; cbn [between_walk].
  - rewrite Z.add_0_r, measure_empty by lia. lia.
  - destruct (Z.ltb_spec b (D k)) as [Hb|Hb].
    + rewrite measure_empty; [lia|]. lia.
    + rewrite start_next_day, IH by (done || by apply late_next). rewrite day_total_spec by done.
      replace (k + Z.of_nat (S fuel)) with (k + 1 + Z.of_nat fuel) by lia.
      rewrite (measure_cut _ (D k) (D (k + 1)) (D (k + 1 + Z.of_nat fuel)) a b); [lia|].
      pose proof (D_mono k (k + 1) ltac:(lia)). pose proof (D_mono (k + 1) (k + 1 + Z.of_nat fuel) ltac:(lia)). lia.
Qed.

(** Scanning a chain: the instant at which the time is used up is within a segment, and
    what the segments have until then is that time. *)
Lemma day_scan_spec segs lo' hi' cursor remaining :
  chain segs -> Forall (fun s => lo' <= s.1 /\ s.2 <= hi') segs -> hi' - lo' < 2 ^ 63 -> 0 < remaining ->
  match day_scan segs cursor remaining with
  | inl t => cursor < t /\ clips cursor t segs = remaining /\ exists s, s ∈ segs /\ s.1 < t <= s.2
  | inr rest => 0 < rest /\ rest = remaining - clips cursor hi' segs
  end.
Proof.
  unfold Time in *. intros Hc Hw Hd. revert remaining. induction segs as [|s segs IH]; intros remaining Hr; cbn [day_scan]; [cbn; lia|].
  apply chain_cons in Hc as (Hs & Hafter & Hc). apply Forall_cons in Hw as [Hsw Hw].
  cbn [clips foldr]. unfold Time in *.
  assert (forall t x, x ∈ segs -> x.1 < t -> s.2 < t) as Hlater.
  { intros t x Hx Ht. rewrite Forall_forall in Hafter. specialize (Hafter x Hx). lia. }
  destruct (Z.leb_spec s.2 cursor) as [Hpast|Hnow].
  - specialize (IH Hc Hw remaining Hr). destruct (day_scan segs cursor remaining) as [t|rest].
    + destruct IH as (Ht & Hcl & x & Hx & Hxt). split_and!; [done| |exists x; split; [by right|done]].
      fold (clips cursor t segs). unfold clip. lia.
    + fold (clips cursor hi' segs). unfold clip. lia.
  - cbv zeta. rewrite maxTime_max, Sub_exact by (unfold in_int64; lia).
    destruct (Z.leb_spec remaining (s.2 - Z.max s.1 cursor)) as [Hle|Hgt].
    + set (t := Z.max s.1 cursor + remaining). split_and!; [lia| |exists s; split; [by left|lia]].
      fold (clips cursor t segs). rewrite clips_after; [unfold clip; lia|].
      eapply Forall_impl; [exact Hafter|]. cbn. lia.
    + specialize (IH Hc Hw (remaining - (s.2 - Z.max s.1 cursor)) ltac:(lia)).
      destruct (day_scan segs cursor _) as [t|rest].
      * destruct IH as (Ht & Hcl & x & Hx & Hxt). split_and!; [done| |exists x; split; [by right|done]].
        pose proof (Hlater t x Hx ltac:(lia)). fold (clips cursor t segs). unfold clip. lia.
      * fold (clips cursor hi' segs). unfold clip. lia.
Qed.

(** The walk ends at the instant where the open time reaches what was asked, an open
    instant just before; or the days walked have less. *)
Lemma add_walk_spec fuel k cursor remaining :
  late k -> D k <= cursor < D (k + 1) -> 0 < remaining ->
  match add_walk r fuel cursor remaining with
  | Some t => cursor < t <= D (k + Z.of_nat fuel) /\ measure (open_at r) cursor t = remaining /\
              open_at r (t - 1) = true
  | None => measure (open_at r) cursor (Z.max cursor (D (k + Z.of_nat fuel))) < remaining
  end.
Proof.
  revert k cursor remaining. induction fuel as [|fuel IH]; intros k cursor remaining Hk Hc Hr; cbn [add_walk].
  { rewrite Z.add_0_r, measure_empty by lia. lia. }
  rewrite (startOfDay_day k) by done. rewrite (date_of_day k) by (done || apply D_in_day).
  rewrite start_next_day, dayIntervals_day by done. fold (closed_day k).
  replace (k + Z.of_nat (S fuel)) with (k + 1 + Z.of_nat fuel) by lia.
  pose proof (D_mono (k + 1) (k + 1 + Z.of_nat fuel) ltac:(lia)) as Hmono.
  assert (forall b, cursor <= b <= D (k + 1) ->
    measure (open_at r) cursor b = if closed_day k then 0 else clips cursor b (day_segs k)) as Hday.
  { intros b Hb. rewrite <- measure_day by done. f_equal; lia. }
  assert (forall rem, 0 < rem -> rem = remaining - measure (open_at r) cursor (D (k + 1)) ->
    match add_walk r fuel (D (k + 1)) rem with
    | Some t => cursor < t <= D (k + 1 + Z.of_nat fuel) /\ measure (open_at r) cursor t = remaining /\
                open_at r (t - 1) = true
    | None => measure (open_at r) cursor (Z.max cursor (D (k + 1 + Z.of_nat fuel))) < remaining
    end) as Hrest.
  { intros rem Hrem Heq. specialize (IH (k + 1) (D (k + 1)) rem (late_next k Hk) (D_in_day _) Hrem).
    destruct (add_walk r fuel (D (k + 1)) rem) as [t|].
    - destruct IH as (Ht & Hm & Ho). split; [lia|]. split; [|done].
      rewrite (measure_split _ cursor (D (k + 1)) t) by lia. lia.
    - rewrite Z.max_r in IH |- * by lia. rewrite (measure_split _ cursor (D (k + 1))) by lia. lia. }
  destruct (closed_day k) eqn:Hcl.
  { apply Hrest; [done|]. rewrite Hday by lia. lia. }
  pose proof (day_scan_spec (day_segs k) (D k) (D (k + 1)) cursor remaining (day_segs_chain k)
                (day_segs_within k)) as Hscan.
  destruct (day_scan (day_segs k) cursor remaining) as [t|rem].
  - destruct Hscan as (Ht & Hm & s & Hs & Hst'); [rewrite D_next; unfold Day, day_secs, Second; lia|done|].
    pose proof (day_segs_within k) as Hw. rewrite Forall_forall in Hw. specialize (Hw s Hs).
    split; [lia|]. rewrite Hday by lia. split; [done|].
    rewrite (open_in_day k) by (done || lia). rewrite Hcl. apply in_segs_spec. exists s. split; [done|lia].
  - destruct Hscan as (Hrem & Heq); [rewrite D_next; unfold Day, day_secs, Second; lia|done|].
    apply Hrest; [done|]. rewrite Hday by lia. done.
Qed.
End Steady.
