(* ===== verification/BusinessProps.v ===== *)
(** * Business hours: the properties

    Validated documents give well-formed schedules; business time is open time, and adding
    it is inverse to measuring it, in zones that do not change their offset; in a zone that
    skips midnight it is not; stored holidays are well formed. *)
From S2P Require Import Prelude GoStrings AppError Authz Shared ConvEntity ConvContracts Prog Ports.
From S2P Require Import Calendar BusinessTime BusinessHours.

(** ** Validated schedules *)

Lemma parseHHMM_range s m : parseHHMM s = Some m -> 0 <= m <= 1440.
Proof.
  unfold parseHHMM. destruct (split2_on colon (trim_space s)) as [|hh [|mm [|]]]; try done.
  destruct (atoi hh) as [h|]; [|done]. destruct (atoi mm) as [mi|]; [|done].
  case_match eqn:Hb; [done|]. cbv zeta. destruct (Z.ltb_spec (24 * 60) (h * 60 + mi)); [done|].
  intros [= <-]. prop_bools. lia.
Qed.

Lemma parseInterval_ok iv i : parseInterval iv = Some i -> interval_ok i.
Proof.
  unfold parseInterval. destruct (parseHHMM (ri_Start iv)) as [s|] eqn:Hs; [|done].
  destruct (parseHHMM (ri_End iv)) as [e|] eqn:He; [|done].
  apply parseHHMM_range in Hs, He. destruct (Z.leb_spec e s); [done|]. intros [= <-].
  unfold interval_ok. cbn. lia.
Qed.

Lemma parseIntervals_ok ivs : Forall interval_ok (parseIntervals ivs).
Proof.
  apply Forall_forall. intros i Hi. apply list_elem_of_omap in Hi as (iv & _ & Hi).
  by apply (parseInterval_ok iv).
Qed.

Lemma omap_mapM {A B} (f : A -> option B) l k : mapM f l = Some k -> omap f l = k.
Proof.
  intros Hm%mapM_Some. induction Hm as [|x y l k Hxy _ IH]; [done|]. cbn. by rewrite Hxy, IH.
Qed.

Lemma validate_intervals_inr d ivs acc out :
  validate_intervals d ivs acc = inr out ->
  exists l, mapM parseInterval ivs = Some l /\ out = acc ++ l.
Proof.
  revert acc. induction ivs as [|iv ivs IH]; intros acc; cbn [validate_intervals].
  - intros [= <-]. exists []. by rewrite app_nil_r.
  - destruct (parseHHMM (ri_Start iv)) as [s|] eqn:Hs; [|done].
    destruct (parseHHMM (ri_End iv)) as [e|] eqn:He; [|done].
    destruct (e <=? s) eqn:Hes; [done|]. intros (l & Hl & ->)%IH.
    exists (mkInterval s e :: l). split; [|by rewrite <- app_assoc].
    apply mapM_Some. constructor; [|by apply mapM_Some].
    unfold parseInterval. by rewrite Hs, He, Hes.
Qed.

(** A raw day the validation accepts. *)
Definition raw_day_ok (day : rawDay) : Prop :=
  0 <= rd_Day day <= 6 /\ mapM parseInterval (rd_Intervals day) = Some (parseIntervals (rd_Intervals day)) /\
  day_ok (parseIntervals (rd_Intervals day)).

Lemma validate_days_none seen days :
  validate_days seen days = None ->
  Forall raw_day_ok days /\ NoDup (map rd_Day days) /\ Forall (fun day => rd_Day day ∉ seen) days.
Proof.
  revert seen. induction days as [|day days IH]; intros seen; cbn [validate_days map]; [by repeat constructor|].
  case_match eqn:Hr; [done|]. case_bool_decide as Hseen; [done|].
  destruct (validate_intervals (rd_Day day) (rd_Intervals day) []) as [e|ivs] eqn:Hv; [done|].
  apply validate_intervals_inr in Hv as (l & Hl & ->). cbn [app].
  destruct (overlapping (stable_sort by_start l)) eqn:Ho; [done|].
  intros (Hok & Hnd & Hns)%IH. unfold parseIntervals in *.
  pose proof (omap_mapM _ _ _ Hl) as Hom. prop_bools. split_and!.
  - constructor; [|done]. split_and!; [lia|lia|by unfold parseIntervals; rewrite Hom|].
    split; [apply parseIntervals_ok|]. unfold parseIntervals. by rewrite Hom.
  - constructor; [|done]. intros (x & Hx & Hxin)%list_elem_of_fmap. rewrite Forall_forall in Hns.
    specialize (Hns x Hxin). rewrite Hx in Hns. set_solver.
  - constructor; [done|]. eapply Forall_impl; [exact Hns|]. set_solver.
Qed.

Lemma parse_day_other s day d : rd_Day day <> d -> sc_Weekly (parse_day s day) !! d = sc_Weekly s !! d.
Proof.
  intros Hne. unfold parse_day. case_match; [done|]. case_match; [done|]. cbn. by rewrite lookup_insert_ne.
Qed.

Lemma parse_days_other days s d :
  Forall (fun day => rd_Day day <> d) days -> sc_Weekly (foldl parse_day s days) !! d = sc_Weekly s !! d.
Proof.
  intros Hd. revert s. induction Hd as [|day days Hday _ IH]; intros s; cbn [foldl]; [done|].
  by rewrite IH, parse_day_other.
Qed.

Lemma parse_day_same s day :
  raw_day_ok day -> sc_Weekly s !! rd_Day day = None ->
  IntervalsOn (parse_day s day) (rd_Day day) = parseIntervals (rd_Intervals day).
Proof.
  intros (Hr & _) Hn. unfold parse_day, IntervalsOn.
  replace ((rd_Day day <? 0) || (6 <? rd_Day day)) with false.
  2:{ symmetry. apply orb_false_iff. split; apply Z.ltb_ge; lia. }
  destruct (parseIntervals (rd_Intervals day)) as [|i l]; [by rewrite Hn|]. cbn. by rewrite lookup_insert_eq.
Qed.

Lemma parse_days_at days s day :
  Forall raw_day_ok days -> NoDup (map rd_Day days) -> day ∈ days ->
  Forall (fun day => sc_Weekly s !! rd_Day day = None) days ->
  IntervalsOn (foldl parse_day s days) (rd_Day day) = parseIntervals (rd_Intervals day).
Proof.
  intros Hok. revert s. induction Hok as [|x days Hx Hok IH]; intros s Hnd Hin Hn; [by apply not_elem_of_nil in Hin|].
  cbn [map foldl] in *. apply NoDup_cons in Hnd as [Hnin Hnd]. apply Forall_cons in Hn as [Hnx Hn].
  assert (Forall (fun y => rd_Day y <> rd_Day x) days) as Hne.
  { apply Forall_forall. intros y Hy Heq. apply Hnin. apply list_elem_of_fmap. by exists y. }
  apply elem_of_cons in Hin as [->|Hin].
  - unfold IntervalsOn. rewrite parse_days_other by done. by apply parse_day_same.
  - apply IH; [done|done|]. apply Forall_forall. intros y Hy. rewrite Forall_forall in Hn, Hne.
    rewrite parse_day_other by (intros Heq; by apply (Hne y)). by apply Hn.
Qed.

Lemma parse_days_timezone days s : sc_Timezone (foldl parse_day s days) = sc_Timezone s.
Proof.
  revert s. induction days as [|day days IH]; intros s; cbn [foldl]; [done|]. rewrite IH.
  unfold parse_day. by repeat case_match.
Qed.

Lemma parse_days_ok days s :
  Forall raw_day_ok days -> sched_ok s -> sched_ok (foldl parse_day s days).
Proof.
  intros Hok. revert s. induction Hok as [|x days (_ & _ & Hx) _ IH]; intros s Hs; cbn [foldl]; [done|].
  apply IH. unfold parse_day. case_match; [done|]. case_match eqn:Hp; [done|].
  unfold sched_ok. cbn. by apply map_Forall_insert_2; [|done].
Qed.

(** A document the write path accepts is read back as it is: its zone is known, every day
    it names is a day of the week with exactly its intervals, none dropped, and the
    schedule is well formed (intervals within the day, none overlapping). *)
Theorem validated_schedule_is_parsed_whole (LoadLocation : string -> option Location)
    (m : list (string * doc)) (raw : rawSchedule) :
  ValidateSchedule LoadLocation m = None -> decodeRaw m = Some raw ->
  sched_ok (ParseSchedule m) /\ is_Some (LoadLocation (sc_Timezone (ParseSchedule m))) /\
  forall day, day ∈ rs_Weekly raw -> 0 <= rd_Day day <= 6 /\
    mapM parseInterval (rd_Intervals day) = Some (IntervalsOn (ParseSchedule m) (rd_Day day)).
Proof.
  unfold ValidateSchedule, ParseSchedule. destruct m as [|kv m]; [done|]. intros Hv Hraw. rewrite Hraw in *.
  set (tz := trim_space (rs_Timezone raw)) in *. cbv zeta in *.
  set (s0 := if tz <>! "" then mkSchedule tz ∅ false else mkSchedule "UTC" ∅ false) in *.
  assert (sc_Timezone s0 = if tz =! "" then "UTC" else tz) as Htz by (subst s0; by case_bool_decide).
  assert (sc_Weekly s0 = ∅) as Hw by (subst s0; by case_bool_decide).
  rewrite <- Htz in Hv. destruct (LoadLocation (sc_Timezone s0)) as [loc|] eqn:Hl; [|done].
  apply validate_days_none in Hv as (Hok & Hnd & _). split_and!.
  - apply parse_days_ok; [done|]. unfold sched_ok. rewrite Hw. apply map_Forall_empty.
  - rewrite parse_days_timezone, Hl. by eexists.
  - intros day Hday. rewrite parse_days_at; [|done..|].
    + rewrite Forall_forall in Hok. destruct (Hok day Hday) as (? & ? & _). done.
    + apply Forall_forall. intros. by rewrite Hw, lookup_empty.
Qed.

(** ** A world in memory *)

Module HoursMemory.
(** The documents of the channels, the holidays, the time. *)
Record State := mkState {
  st_hours : gmap string (list (string * doc)); st_holidays : list Holiday; st_now : Time }.

Definition not_found : error := NotFound "not found".

Definition handle : handler Ctx HoursPort State := fun R c e s =>
  match e in HoursPort R return R * State with
  | HoNow => (st_now s, s)
  | HoNewID => (pretty (length (st_holidays s)), s)
  | ChannelHours id => (match st_hours s !! id with Some m => Ok m | None => Err not_found end, s)
  | HolidayCreate h => (Ok tt, mkState (st_hours s) (h :: st_holidays s) (st_now s))
  | HolidayUpdate h => (Ok tt, mkState (st_hours s)
      (map (fun x => if ho_ID x =! ho_ID h then h else x) (st_holidays s)) (st_now s))
  | HolidayDelete id => (Ok tt, mkState (st_hours s) (filter (fun x => ho_ID x <> id) (st_holidays s)) (st_now s))
  | HolidayFindByID id => (match List.find (fun x => ho_ID x =! id) (st_holidays s) with
                           | Some h => Ok h | None => Err not_found end, s)
  | HolidayList _ => (Ok (st_holidays s), s)
  | HolidayListAll => (Ok (st_holidays s), s)
  end.

Definition ctx : Ctx := WithTenant Background "acme".

Definition interval (s e : string) : doc := DObject [("start", DString s); ("end", DString e)].
Definition day (n : Z) (l : list doc) : doc := DObject [("day", DNumber (Some n)); ("intervals", DArray l)].

(** Monday to Friday with a lunch break, at three hours west of Greenwich. *)
Definition brt : Location := mkLocation "America/Sao_Paulo" (fun _ => (-10800, None, None)).
Definition weekdays : list (string * doc) :=
  [("timezone", DString "America/Sao_Paulo");
   ("weekly", DArray (map (fun d => day d [interval "13:00" "18:00"; interval "09:00" "12:00"]) [1; 2; 3; 4; 5]))].
(** Saturdays only, in a zone whose summer time starts at midnight. *)
Definition saturdays : list (string * doc) :=
  [("timezone", DString "America/Santiago"); ("weekly", DArray [day 6 [interval "09:00" "18:00"]])].

(** 2024-09-08T04:00Z: at midnight local time the clocks go to 01:00. *)
Definition santiago_dst : Z := unix_days 2024 9 8 * day_secs + 4 * 3600.
Definition santiago : Location := mkLocation "America/Santiago" (fun t =>
  if t <? santiago_dst then (-14400, None, Some santiago_dst) else (-10800, Some santiago_dst, None)).

Definition zones (tz : string) : option Location :=
  if tz =! "America/Sao_Paulo" then Some brt
  else if tz =! "America/Santiago" then Some santiago
  else if tz =! "UTC" then Some UTC else None.

Definition christmas : Holiday :=
  mkHoliday "h" "acme" "2020-12-25" "Natal" ScopeAllChannels [] true 0 0.

Definition utc (y m d hour min : Z) : Time := (unix_days y m d * day_secs + hour * 3600 + min * 60) * Second.

Definition world : State :=
  mkState {["c" := weekdays; "s" := saturdays]} [christmas] (utc 2024 12 20 12 0).
End HoursMemory.

(** ** Business time *)

Section Runs.
Context {S : Type} (h : handler Ctx HoursPort S) (LoadLocation : string -> option Location).
Context (c : Ctx) (channelID : string) (s s' : S) (r : resolved) (t0 : string).
Context (Ht : RequireTenant c = Ok t0) (Hr : run h (resolve LoadLocation c channelID) s = (Ok r, s')).

Lemma run_IsWithin t :
  sc_Configured (re_sched r) = true ->
  run h (IsWithinBusinessHours LoadLocation c channelID t) s = (Ok (open_at r t), s').
Proof.
  intros Hc. unfold IsWithinBusinessHours, Status, ask. rewrite run_bind_ok, run_bind_ok. cbn [run]. rewrite Ht.
  revert Hr. unfold resolve, ask. rewrite !run_bind_ok, !run_call.
  destruct (h _ _ _ s) as [[hours|e] s1]; [|done].
  destruct (zoned LoadLocation (ParseSchedule hours)) as [sched loc].
  rewrite !run_bind_ok, !run_call. destruct (h _ _ _ s1) as [[hs|e] s2]; [|done]. intros [= <- <-].
  cbn in Hc. unfold open_at, isHoliday. cbn [re_holidays re_channelID re_loc re_sched].
  destruct (List.find _ hs) as [ho|] eqn:Hf.
  - apply List.find_some in Hf as [Hin Hho].
    replace (existsb _ hs) with true; [done|]. symmetry. apply existsb_exists. by exists ho.
  - replace (existsb _ hs) with false.
    + rewrite Hc. cbn [negb run]. by destruct (IsOpenAt sched loc t).
    + symmetry. destruct (existsb _ hs) eqn:He; [|done]. apply existsb_exists in He as (x & Hx & Hxf).
      by rewrite (List.find_none _ _ Hf x Hx) in Hxf.
Qed.

Lemma run_Between a b :
  a < b -> sc_Configured (re_sched r) = true ->
  run h (BusinessDurationBetween LoadLocation c channelID a b) s =
    (Ok (between_walk r a b (Z.to_nat maxDaysWalk) (startOfDay (re_loc r) a) 0), s').
Proof.
  intros Hab Hc. unfold BusinessDurationBetween. rewrite run_bind_ok. cbn [run]. rewrite Ht.
  destruct (Z.leb_spec b a); [lia|]. rewrite run_bind_ok, Hr. by rewrite Hc.
Qed.

Lemma run_Add a d :
  0 < d -> sc_Configured (re_sched r) = true ->
  run h (AddBusinessDuration LoadLocation c channelID a d) s =
    (Ok (default (a + d) (add_walk r (Z.to_nat maxDaysWalk) a d)), s').
Proof.
  intros Hd Hc. unfold AddBusinessDuration. rewrite run_bind_ok. cbn [run]. rewrite Ht.
  destruct (Z.leb_spec d 0); [lia|]. rewrite run_bind_ok, Hr. by rewrite Hc.
Qed.
End Runs.

(** The days the walks look ahead, but for the day they start in. *)
Definition horizon : Z := (maxDaysWalk - 1) * Day.

(** The zone of the channel does not change its offset, since five days before [from]. *)
Definition steady_since (r : resolved) (from : Time) : Prop :=
  exists off lo, steady (re_loc r) off lo /\ (lo + 5 * day_secs) * Second <= from.

Section Horizon.
Context (r : resolved) (off lo : Z) (Hst : steady (re_loc r) off lo).
Context (from : Time) (Hfrom : (lo + 5 * day_secs) * Second <= from).

Let k0 := local_days (re_loc r) from.

Lemma first_day : day_start off k0 <= from < day_start off (k0 + 1) /\ late lo k0.
Proof.
  assert (lo * Second <= from) as Hlo by (unfold day_secs, Second in *; lia).
  pose proof (local_days_bounds (re_loc r) off lo Hst from Hlo) as Hb. fold k0 in Hb. split; [done|].
  destruct Hst as [Hoff _]. unfold late, day_start, day_secs, Second in *. lia.
Qed.

Lemma last_day : day_start off (k0 + Z.of_nat (Z.to_nat maxDaysWalk)) = day_start off k0 + maxDaysWalk * Day.
Proof. rewrite Z2Nat.id by done. unfold day_start, Day, day_secs, Second. lia. Qed.

Lemma horizon_reached : from + horizon < day_start off (k0 + Z.of_nat (Z.to_nat maxDaysWalk)).
Proof.
  rewrite last_day. destruct first_day as [Hb _]. rewrite day_start_next in Hb.
  unfold horizon, maxDaysWalk, Day, day_secs, Second in *. lia.
Qed.
End Horizon.

Lemma between_is_measure r from to :
  sc_Configured (re_sched r) = true -> sched_ok (re_sched r) -> steady_since r from ->
  to <= from + horizon ->
  between_walk r from to (Z.to_nat maxDaysWalk) (startOfDay (re_loc r) from) 0 = measure (open_at r) from to.
Proof.
  intros Hc Hok (off & lo & Hst & Hlo) Hto.
  destruct (first_day r off lo Hst from Hlo) as [Hin Hlate].
  rewrite (startOfDay_day r off lo Hst (local_days (re_loc r) from)) by done.
  rewrite (between_walk_spec r off lo Hst Hc Hok) by done.
  pose proof (horizon_reached r off lo Hst from Hlo) as Hh.
  rewrite Z.max_r, Z.min_l by lia. lia.
Qed.

(** C23. The business time between two instants is the open time: the number of nanoseconds at
    which the channel answers that it is within business hours, holidays and breaks
    excluded (within the eleven years the walk looks ahead). *)
Theorem business_time_is_open_time {S} (h : handler Ctx HoursPort S)
    (LoadLocation : string -> option Location) (c : Ctx) (channelID tenant : string) (s s' : S)
    (r : resolved) (from to : Time) :
  RequireTenant c = Ok tenant -> run h (resolve LoadLocation c channelID) s = (Ok r, s') ->
  sc_Configured (re_sched r) = true -> sched_ok (re_sched r) -> steady_since r from ->
  from < to -> to <= from + horizon ->
  exists is_open : Time -> bool,
    (forall t, run h (IsWithinBusinessHours LoadLocation c channelID t) s = (Ok (is_open t), s')) /\
    run h (BusinessDurationBetween LoadLocation c channelID from to) s = (Ok (measure is_open from to), s').
Proof.
  intros Ht Hr Hc Hok Hs Hft Hto. exists (open_at r). split.
  - intros t. by apply (run_IsWithin h LoadLocation c channelID s s' r tenant).
  - rewrite (run_Between h LoadLocation c channelID s s' r tenant) by done. by rewrite between_is_measure.
Qed.

(** C24. For a channel with configured, validated hours, in a zone whose offset does not change from
    shortly before the start on, adding business time is the inverse of measuring it: the result is
    after the start, the first instant by which the channel was open for that long, and the business
    time until then is what was added (measured back when it is within the eleven years the walk
    looks ahead); only when the days ahead hold less is the wall clock used instead. Where clocks
    skip midnight this fails: [midnight_gap_breaks_business_time]. *)
Theorem adding_business_time_inverts {S} (h : handler Ctx HoursPort S)
    (LoadLocation : string -> option Location) (c : Ctx) (channelID tenant : string) (s s' : S)
    (r : resolved) (from : Time) (d : Z) :
  RequireTenant c = Ok tenant -> run h (resolve LoadLocation c channelID) s = (Ok r, s') ->
  sc_Configured (re_sched r) = true -> sched_ok (re_sched r) -> steady_since r from -> 0 < d ->
  exists t, run h (AddBusinessDuration LoadLocation c channelID from d) s = (Ok t, s') /\ from < t /\
    (d <= measure (open_at r) from (from + horizon) ->
       measure (open_at r) from t = d /\ (forall t', from <= t' < t -> measure (open_at r) from t' < d) /\
       (t <= from + horizon -> run h (BusinessDurationBetween LoadLocation c channelID from t) s = (Ok d, s'))) /\
    (measure (open_at r) from (from + horizon + 2 * Day) < d -> t = from + d).
Proof.
  intros Ht Hr Hc Hok Hs Hd. rewrite (run_Add h LoadLocation c channelID s s' r tenant) by done.
  pose proof Hs as (off & lo & Hst & Hlo). destruct (first_day r off lo Hst from Hlo) as [Hin Hlate].
  pose proof (horizon_reached r off lo Hst from Hlo) as Hh.
  pose proof (last_day r off from) as Hlast.
  pose proof (add_walk_spec r off lo Hst Hc Hok (Z.to_nat maxDaysWalk) _ from d Hlate Hin Hd) as Hw.
  set (E := day_start off (local_days (re_loc r) from + Z.of_nat (Z.to_nat maxDaysWalk))) in *.
  assert (0 <= horizon) as Hh0 by (by unfold horizon).
  destruct (add_walk r (Z.to_nat maxDaysWalk) from d) as [t|]; cbn [default from_option id].
  - destruct Hw as (Hft & Hm & Ho). exists t. split; [done|]. split; [lia|]. split.
    + intros _. split; [done|]. split.
      * intros t' Ht'. pose proof (measure_next (open_at r) from (t - 1) ltac:(lia)) as Hn.
        rewrite Ho in Hn. replace (t - 1 + 1) with t in Hn by lia.
        pose proof (measure_mono (open_at r) from t' (t - 1) ltac:(lia)). lia.
      * intros Hth. rewrite (run_Between h LoadLocation c channelID s s' r tenant) by (done || lia).
        by rewrite between_is_measure, Hm by done.
    + intros Hlt. assert (t <= from + horizon + 2 * Day) as Hte.
      { unfold horizon, maxDaysWalk in *. lia. }
      pose proof (measure_mono (open_at r) from t (from + horizon + 2 * Day) ltac:(lia)). lia.
  - rewrite Z.max_r in Hw by lia. exists (from + d). split; [done|]. split; [lia|]. split; [|done].
    intros Hle. pose proof (measure_mono (open_at r) from (from + horizon) E ltac:(lia)). lia.
Qed.

Section Witness.
Import HoursMemory.

Definition weekdays_resolved : resolved := mkResolved (ParseSchedule weekdays) brt [christmas] "c".

Lemma weekdays_ok : sched_ok (ParseSchedule weekdays).
Proof.
  assert (ValidateSchedule zones weekdays = None) as Hv by by vm_compute.
  destruct (decodeRaw weekdays) as [raw|] eqn:Hd; [|by vm_compute in Hd].
  unfold ValidateSchedule in Hv. rewrite Hd in Hv. cbv zeta in Hv.
  cbn [weekdays] in Hv. destruct (zones _); [|done]. apply validate_days_none in Hv as (Hok & _).
  unfold ParseSchedule. rewrite Hd. apply parse_days_ok; [done|]. case_match; apply map_Forall_empty.
Qed.

Lemma weekdays_steady t : steady_since weekdays_resolved t.
Proof.
  exists (-10800), (t / Second - 5 * day_secs). split; [by apply steady_fixed|].
  pose proof (Z.mul_div_le t Second Second_pos). lia.
Qed.

(** Wednesday 17:00 local time to Monday: an hour before the weekend of Christmas, which
    falls on the Thursday, and three hours on Friday morning. *)
Lemma business_time_is_open_time_witness :
  let from := utc 2025 12 24 20 0 in let to := utc 2025 12 26 15 0 in
  run handle (BusinessDurationBetween zones ctx "c" from to) world = (Ok (4 * Hour), world) /\
  exists is_open : Time -> bool,
    (forall t, run handle (IsWithinBusinessHours zones ctx "c" t) world = (Ok (is_open t), world)) /\
    run handle (BusinessDurationBetween zones ctx "c" from to) world = (Ok (measure is_open from to), world).
Proof.
  cbv zeta. split; [by vm_compute|].
  apply (business_time_is_open_time handle zones ctx "c" "acme" world world weekdays_resolved);
    [reflexivity|by vm_compute|by vm_compute|exact weekdays_ok|apply weekdays_steady|by vm_compute|by vm_compute].
Defined.

Lemma adding_business_time_inverts_witness :
  let from := utc 2025 12 24 20 0 in
  run handle (AddBusinessDuration zones ctx "c" from (4 * Hour)) world = (Ok (utc 2025 12 26 15 0), world) /\
  exists t, run handle (AddBusinessDuration zones ctx "c" from (4 * Hour)) world = (Ok t, world) /\ from < t.
Proof.
  cbv zeta. split; [by vm_compute|].
  destruct (adding_business_time_inverts handle zones ctx "c" "acme" world world weekdays_resolved
    (utc 2025 12 24 20 0) (4 * Hour)) as (t & Hrun & Hlt & _);
    [reflexivity|by vm_compute|by vm_compute|exact weekdays_ok|apply weekdays_steady|by vm_compute|].
  exists t. split; [exact Hrun|exact Hlt].
Defined.
End Witness.

(** ** Zones that skip midnight *)

Lemma day_total_add r a b day total : day_total r a b day total = total + day_total r a b day 0.
Proof.
  unfold day_total. case_match; [lia|]. generalize (dayIntervals r day) as l.
  intros l. assert (forall x y, foldl (fun total iv =>
    let segStart := maxTime iv.1 a in let segEnd := minTime iv.2 b in
    if segStart <? segEnd then total + Sub segEnd segStart else total) (x + y) l =
    x + foldl (fun total iv =>
    let segStart := maxTime iv.1 a in let segEnd := minTime iv.2 b in
    if segStart <? segEnd then total + Sub segEnd segStart else total) y l) as Hadd.
  { induction l as [|iv l IH]; intros x y; cbn [foldl]; [done|]. cbv zeta. rewrite <- IH. f_equal.
    case_match; lia. }
  specialize (Hadd total 0). by rewrite Z.add_0_r in Hadd.
Qed.

(** When the next day starts, by the code, where this one does, the walk counts this day
    over and over. *)
Lemma between_walk_stuck r a b day fuel total :
  startOfDay (re_loc r) (next_day (re_loc r) day) = day -> day <= b ->
  between_walk r a b fuel day total = total + Z.of_nat fuel * day_total r a b day 0.
Proof.
  intros Hstuck Hb. revert total. induction fuel as [|fuel IH]; intros total; cbn [between_walk]; [lia|].
  destruct (Z.ltb_spec b day); [lia|]. rewrite Hstuck, IH, (day_total_add r a b day total). lia.
Qed.

Definition saturdays_resolved : resolved :=
  mkResolved (ParseSchedule HoursMemory.saturdays) HoursMemory.santiago [HoursMemory.christmas] "s".

(** In a zone whose clocks skip midnight (there the day before is reached again from
    itself), business time is wrong both ways: of a Saturday afternoon in Santiago, open
    for one more hour and then closed until the next Saturday, two hours of business time
    end that same morning, before they began; and the two days that follow count four
    thousand hours. *)
Theorem midnight_gap_breaks_business_time :
  let from := HoursMemory.utc 2024 9 7 21 0 in
  let add := run HoursMemory.handle
               (AddBusinessDuration HoursMemory.zones HoursMemory.ctx "s" from (2 * Hour)) HoursMemory.world in
  let between := run HoursMemory.handle
               (BusinessDurationBetween HoursMemory.zones HoursMemory.ctx "s" from (from + 2 * Day)) HoursMemory.world in
  ValidateSchedule HoursMemory.zones HoursMemory.saturdays = None /\
  add.1 = Ok (from - 7 * Hour) /\ between.1 = Ok (maxDaysWalk * Hour).
Proof.
  cbv zeta. split; [by vm_compute|]. split; [by vm_compute|].
  set (from := HoursMemory.utc 2024 9 7 21 0).
  assert (run HoursMemory.handle (resolve HoursMemory.zones HoursMemory.ctx "s") HoursMemory.world =
            (Ok saturdays_resolved, HoursMemory.world)) as Hr.
  { assert (zoned HoursMemory.zones (ParseSchedule HoursMemory.saturdays) =
              (ParseSchedule HoursMemory.saturdays, HoursMemory.santiago)) as Hz.
    { unfold zoned. by replace (sc_Timezone _) with "America/Santiago" by by vm_compute. }
    unfold resolve, ask. rewrite run_bind_ok, run_call.
    change (HoursMemory.handle _ HoursMemory.ctx (embed (ChannelHours "s")) HoursMemory.world)
      with (@Ok (list (string * doc)) HoursMemory.saturdays, HoursMemory.world).
    cbv beta iota. rewrite Hz. reflexivity. }
  pose proof (run_Between HoursMemory.handle HoursMemory.zones HoursMemory.ctx "s" _ _ saturdays_resolved "acme"
                eq_refl Hr from (from + 2 * Day) ltac:(by vm_compute) ltac:(by vm_compute)) as Hrun.
  rewrite Hrun. clear Hrun Hr.
  cbn [fst]. rewrite between_walk_stuck by by vm_compute. rewrite Z2Nat.id by done. by vm_compute.
Qed.

(** ** Stored holidays *)

Definition scope_ok (scope : string) (ids : list string) : Prop :=
  (scope = ScopeAllChannels /\ ids = []) \/
  (scope = ScopeChannels /\ ids <> [] /\ Forall (fun id => id <> "") ids).

(** A holiday whose date the checks can read, with a name and a consistent scope. *)
Definition holiday_ok (h : Holiday) : Prop :=
  is_Some (splitDate (ho_Date h)) /\ ho_Name h <> "" /\ scope_ok (ho_Scope h) (ho_ChannelIDs h).

Definition holiday_pre (R : Type) (c : Ctx) (e : HoursPort R) (g : unit) : Prop :=
  match e with HolidayCreate h | HolidayUpdate h => holiday_ok h | _ => True end.

Definition holiday_post (R : Type) (c : Ctx) (e : HoursPort R) (g : unit) (r : R) (g' : unit) : Prop :=
  match e in HoursPort R return R -> Prop with
  | HolidayFindByID _ => fun r => forall h, r = Ok h -> holiday_ok h
  | _ => fun _ => True
  end r.

Lemma resolveScope_ok ids : scope_ok (HolidaySvc.resolveScope ids).1 (HolidaySvc.resolveScope ids).2.
Proof.
  unfold HolidaySvc.resolveScope.
  destruct (filter (fun id => id <> "") (map trim_space ids)) as [|x l] eqn:Hf; [by left|]. right.
  split; [done|]. split; [done|]. rewrite <- Hf. apply Forall_forall. intros y Hy.
  by apply list_elem_of_filter in Hy as [? _].
Qed.

Lemma normalizeDate_ok s date : HolidaySvc.normalizeDate s = Ok date -> is_Some (splitDate date).
Proof.
  unfold HolidaySvc.normalizeDate, splitDate. destruct (parse_date (trim_space s)) as [[[y m] d]|] eqn:Hp; [|done].
  intros [= <-]. apply parse_date_canonical in Hp as (_ & Hy & Hm & Hd).
  rewrite parse_format_date by done. by eexists.
Qed.

Lemma applyHolidayUpdate_ok cmd h h' now :
  HolidaySvc.applyHolidayUpdate cmd h = Ok h' -> holiday_ok h -> holiday_ok (HolidaySvc.touched now h').
Proof.
  unfold HolidaySvc.applyHolidayUpdate. intros Hup (Hd & Hn & Hs).
  destruct (match HolidaySvc.uph_Date cmd with Some d => HolidaySvc.normalizeDate d | None => Ok (ho_Date h) end)
    as [date|] eqn:Hdate; [|done].
  destruct (match HolidaySvc.uph_Name cmd with
            | Some n => if blank n then Err _ else Ok (trim_space n) | None => Ok (ho_Name h) end)
    as [name|] eqn:Hname; [|done].
  destruct (match HolidaySvc.uph_ChannelIDs cmd with
            | Some ids => HolidaySvc.resolveScope ids | None => (ho_Scope h, ho_ChannelIDs h) end)
    as [scope ids] eqn:Hscope.
  injection Hup as <-. split_and!; cbn.
  - destruct (HolidaySvc.uph_Date cmd) as [d|]; [by apply (normalizeDate_ok d)|by injection Hdate as <-].
  - destruct (HolidaySvc.uph_Name cmd) as [n|]; [|by injection Hname as <-].
    destruct (blank n) eqn:Hb; [done|]. injection Hname as <-. by apply trim_not_blank.
  - destruct (HolidaySvc.uph_ChannelIDs cmd) as [l|]; [|by injection Hscope as <- <-].
    pose proof (resolveScope_ok l) as Hl. by rewrite Hscope in Hl.
Qed.

(** Only well-formed holidays are stored: one that Create or Update hands to the
    repository has a date the opening checks can read (so it is never silently ignored),
    a name and a scope that agrees with its channels, provided that those read are. *)
Theorem stored_holidays_are_well_formed (c : Ctx) (id : string) (new : HolidaySvc.CreateHoliday)
    (upd : HolidaySvc.UpdateHoliday) :
  wp (pre_post holiday_pre holiday_post) (HolidaySvc.Create c new) (fun _ _ => True) tt /\
  wp (pre_post holiday_pre holiday_post) (HolidaySvc.Update c id upd) (fun _ _ => True) tt.
Proof.
  split.
  - unfold HolidaySvc.Create. destruct (RequireTenant c) as [t|]; [|done]. cbn [bind_ok bind].
    destruct (HolidaySvc.normalizeDate (HolidaySvc.crh_Date new)) as [date|] eqn:Hd; [|done]. cbn [bind_ok bind].
    destruct (blank (HolidaySvc.crh_Name new)) eqn:Hb; [done|].
    pose proof (resolveScope_ok (HolidaySvc.crh_ChannelIDs new)) as Hs.
    destruct (HolidaySvc.resolveScope _) as [scope ids]. split; [done|]. intros now [] _.
    split; [done|]. intros hid [] _. split; [|by intros [[]|e]].
    split_and!; [by apply (normalizeDate_ok (HolidaySvc.crh_Date new))|by apply trim_not_blank|done].
  - unfold HolidaySvc.Update. destruct (RequireTenant c) as [t|]; [|done]. cbn [bind_ok bind].
    split; [done|]. intros [h|e] [] Hh; [|exact I]. cbn in Hh. specialize (Hh h eq_refl). cbn [bind].
    destruct (HolidaySvc.applyHolidayUpdate upd h) as [h'|] eqn:Hup; [|exact I].
    split; [done|]. intros now [] _. split; [|by intros [[]|e]].
    by apply (applyHolidayUpdate_ok upd h).
Qed.

Lemma validated_schedule_is_parsed_whole_witness :
  exists raw, decodeRaw HoursMemory.weekdays = Some raw /\ length (rs_Weekly raw) = 5%nat /\
    IntervalsOn (ParseSchedule HoursMemory.weekdays) 1 = [mkInterval 780 1080; mkInterval 540 720] /\
    sched_ok (ParseSchedule HoursMemory.weekdays).
Proof.
  eexists. split; [by vm_compute|]. split; [by vm_compute|]. split; [by vm_compute|].
  eapply (validated_schedule_is_parsed_whole HoursMemory.zones); by vm_compute.
Defined.
