(* ===== verification/Sla.v ===== *)
(** * Service levels (domain/sla)

    Policies and their selection, the tracking of a conversation against its policy, the
    hooks the conversations service calls and the periodic check that fires alerts. *)
From S2P Require Import Prelude GoStrings AppError Authz Shared ConvEntity ConvContracts Prog Ports.
From S2P Require Import Calendar.

(** ** Policies (entity/policy.go) *)

Record SLAPolicy := mkPolicy {
  sp_ID : string; sp_TenantID : string; sp_Name : string; sp_SectorIDs : list string;
  sp_Priority : string; sp_Channel : string; sp_FirstResponseTargetSec : Z;
  sp_ResolutionTargetSec : Z; sp_BusinessHoursOnly : bool; sp_WarningThresholdPct : Z;
  sp_PauseOnWaitingCustomer : bool; sp_Enabled : bool; sp_CreatedAt : Time; sp_UpdatedAt : Time }.

Definition contains (l : list string) (v : string) : bool := existsb (fun s => s =! v) l.

Definition Matches (p : SLAPolicy) (sectorID priority channel : string) : bool :=
  if (0 <? length (sp_SectorIDs p))%nat && negb (contains (sp_SectorIDs p) sectorID) then false
  else if (sp_Priority p <>! "") && (sp_Priority p <>! priority) then false
  else if (sp_Channel p <>! "") && (sp_Channel p <>! channel) then false
  else true.

Definition Specificity (p : SLAPolicy) : Z :=
  (if (0 <? length (sp_SectorIDs p))%nat then 4 else 0) + (if sp_Priority p <>! "" then 2 else 0)
  + (if sp_Channel p <>! "" then 1 else 0).

(** ** Tracking (entity/tracking.go) *)

Definition TrackingStatus := string.
Definition StatusRunning : TrackingStatus := "running".
Definition StatusMet : TrackingStatus := "met".
Definition StatusBreached : TrackingStatus := "breached".

Record SLATracking := mkTracking {
  tr_ID : string; tr_TenantID : string; tr_ConversationID : string; tr_PolicyID : string;
  tr_SectorID : string;
  tr_FirstResponseDueAt : option Time; tr_FirstResponseWarnAt : option Time;
  tr_ResolutionDueAt : option Time; tr_ResolutionWarnAt : option Time;
  tr_FirstResponseAt : option Time; tr_ResolvedAt : option Time;
  tr_FirstResponseBreached : bool; tr_ResolutionBreached : bool;
  tr_FirstResponseWarned : bool; tr_ResolutionWarned : bool;
  tr_PauseOnWaitingCustomer : bool; tr_Status : TrackingStatus;
  tr_CreatedAt : Time; tr_UpdatedAt : Time }.

(** The fields the service assigns on a tracking it read. *)
Definition set_progress (firstAt resolvedAt : option Time) (fb rb fw rw : bool)
    (status : TrackingStatus) (updatedAt : Time) (t : SLATracking) : SLATracking :=
  mkTracking (tr_ID t) (tr_TenantID t) (tr_ConversationID t) (tr_PolicyID t) (tr_SectorID t)
    (tr_FirstResponseDueAt t) (tr_FirstResponseWarnAt t) (tr_ResolutionDueAt t) (tr_ResolutionWarnAt t)
    firstAt resolvedAt fb rb fw rw (tr_PauseOnWaitingCustomer t) status (tr_CreatedAt t) updatedAt.

(** What [Update] stores of [new] over [old] (repositories/sla/tracking_repository.go). *)
Definition stored_progress (old new : SLATracking) : SLATracking :=
  set_progress (tr_FirstResponseAt new) (tr_ResolvedAt new) (tr_FirstResponseBreached new)
    (tr_ResolutionBreached new) (tr_FirstResponseWarned new) (tr_ResolutionWarned new)
    (tr_Status new) (tr_UpdatedAt new) old.

Definition finalStatus (t : SLATracking) : TrackingStatus :=
  if tr_FirstResponseBreached t || tr_ResolutionBreached t then StatusBreached else StatusMet.

Definition Finalize (t : SLATracking) : SLATracking :=
  set_progress (tr_FirstResponseAt t) (tr_ResolvedAt t) (tr_FirstResponseBreached t)
    (tr_ResolutionBreached t) (tr_FirstResponseWarned t) (tr_ResolutionWarned t)
    (finalStatus t) (tr_UpdatedAt t) t.

Definition AtRisk_ (t : SLATracking) : bool :=
  tr_FirstResponseWarned t || tr_ResolutionWarned t || tr_FirstResponseBreached t || tr_ResolutionBreached t.

(** ** The service (service/sla_service.go) *)

Definition RealtimeSLAWarning : string := "sla.warning".
Definition RealtimeSLABreached : string := "sla.breached".

(** The payload of an alert. *)
Record Alert := mkAlert {
  al_ConversationID : string; al_PolicyID : string; al_Leg : string; al_SectorID : string;
  al_FirstResponseDueAt : option Time; al_ResolutionDueAt : option Time; al_Breached : bool }.

Inductive SlaPort : Type -> Type :=
| SlNow : SlaPort Time
| SlNewID : SlaPort string
| PolicyCreate (p : SLAPolicy) : SlaPort (result unit)
| PolicyUpdate (p : SLAPolicy) : SlaPort (result unit)
| PolicyDelete (id : string) : SlaPort (result unit)
| PolicyFindByID (id : string) : SlaPort (result SLAPolicy)
| PolicyList (p : PageRequest) : SlaPort (result (list SLAPolicy))
| PolicyListEnabled : SlaPort (result (list SLAPolicy))
| TrackCreate (t : SLATracking) : SlaPort (result unit)
| TrackUpdate (t : SLATracking) : SlaPort (result unit)
| TrackFind (conversationID : string) : SlaPort (result SLATracking)
| TrackListAtRisk (p : PageRequest) : SlaPort (result (list SLATracking))
| TrackListRunning (limit : Z) : SlaPort (result (list SLATracking))
| SlConvs {R} (e : ConvRepo R) : SlaPort R
| AddBusiness (channelID : string) (from : Time) (d : Z) : SlaPort (result Time)
| SlPublish (topic event : string) (a : Alert) : SlaPort (result unit)
| SlEmit (tenantID event sectorID : string) (a : Alert) : SlaPort unit
| SlNotify (n : NotifyInput) : SlaPort unit.

#[export] Instance sla_own : Embed SlaPort SlaPort := fun R e => e.
#[export] Instance sla_convs : Embed ConvRepo SlaPort := fun R e => SlConvs e.

Abbreviation SlM := (prog Ctx SlaPort).

Definition checkBatchLimit : Z := 1000.

(** The zero [time.Time]: the first instant of year 1. *)
Definition ZeroTime : Time := unix_days 1 1 1 * Day.

(** The loop of [selectPolicy]. *)
Definition better (conv : Conversation) (best : option SLAPolicy) (p : SLAPolicy) : option SLAPolicy :=
  if negb (sp_Enabled p) || negb (Matches p (cv_SectorID conv) (cv_Priority conv) (cv_Channel conv))
  then best
  else
    match best with
    | None => Some p
    | Some b => if Specificity b <? Specificity p then Some p else best
    end.

Definition selectPolicy (policies : list SLAPolicy) (conv : Conversation) : option SLAPolicy :=
  foldl (better conv) None policies.

(** [int] arithmetic: the product wraps, the division truncates. *)
Definition pct (targetSec percent : Z) : Z :=
  if targetSec <=? 0 then 0 else Z.quot (wrap64 (targetSec * percent)) 100.

Definition computeDue (c : Ctx) (channelID : string) (from : Time) (targetSec : Z) (bizOnly : bool)
  : SlM (option Time) :=
  if targetSec <=? 0 then Ret None
  else
    let d := wrap64 (targetSec * Second) in
    if bizOnly then
      let! r := ask c (AddBusiness channelID from d) in
      Ret (Some (match r with Ok t => t | Err _ => from + d end))
    else Ret (Some (from + d)).

Definition startTracking (c : Ctx) (conv : Conversation) (policy : SLAPolicy) : SlM unit :=
  let! start := (if cv_CreatedAt conv =! ZeroTime then ask c SlNow else Ret (cv_CreatedAt conv)) in
  let bizOnly := sp_BusinessHoursOnly policy in
  let warnPct := sp_WarningThresholdPct policy in
  let due target := computeDue c (cv_ChannelID conv) start target bizOnly in
  let! id := ask c SlNewID in
  let! frDue := due (sp_FirstResponseTargetSec policy) in
  let! frWarn := due (pct (sp_FirstResponseTargetSec policy) warnPct) in
  let! resDue := due (sp_ResolutionTargetSec policy) in
  let! resWarn := due (pct (sp_ResolutionTargetSec policy) warnPct) in
  let! created := ask c SlNow in
  let! updated := ask c SlNow in
  do! ask c (TrackCreate
    (mkTracking id (cv_TenantID conv) (cv_ID conv) (sp_ID policy) (cv_SectorID conv)
       frDue frWarn resDue resWarn None None false false false false
       (sp_PauseOnWaitingCustomer policy) StatusRunning created updated)) in
  Ret tt.

Definition OnConversationCreated (c : Ctx) (conv : Conversation) : SlM unit :=
  let! existing := ask c (TrackFind (cv_ID conv)) in
  match existing with
  | Ok _ => Ret tt
  | Err _ =>
      let! policies := ask c PolicyListEnabled in
      match policies with
      | Err _ => Ret tt
      | Ok policies =>
          match selectPolicy policies conv with
          | None => Ret tt
          | Some policy => startTracking c conv policy
          end
      end
  end.

Definition after (at_ : Time) (due : option Time) : bool :=
  match due with Some d => d <? at_ | None => false end.

Definition responded (at_ now : Time) (t : SLATracking) : SLATracking :=
  set_progress (Some at_) (tr_ResolvedAt t)
    (tr_FirstResponseBreached t || after at_ (tr_FirstResponseDueAt t)) (tr_ResolutionBreached t)
    (tr_FirstResponseWarned t) (tr_ResolutionWarned t) (tr_Status t) now t.

Definition OnFirstResponse (c : Ctx) (conv : Conversation) (at_ : Time) : SlM unit :=
  let! r := ask c (TrackFind (cv_ID conv)) in
  match r with
  | Err _ => Ret tt
  | Ok t =>
      match tr_FirstResponseAt t with
      | Some _ => Ret tt
      | None =>
          let! now := ask c SlNow in
          do! ask c (TrackUpdate (responded at_ now t)) in
          Ret tt
      end
  end.

(** The assignments of [OnResolved] before [Finalize]. *)
Definition resolved_flags (at_ : Time) (t : SLATracking) : SLATracking :=
  let unanswered := match tr_FirstResponseAt t with None => true | Some _ => false end in
  set_progress (tr_FirstResponseAt t) (Some at_)
    (tr_FirstResponseBreached t || (unanswered && after at_ (tr_FirstResponseDueAt t)))
    (tr_ResolutionBreached t || after at_ (tr_ResolutionDueAt t))
    (tr_FirstResponseWarned t) (tr_ResolutionWarned t) (tr_Status t) (tr_UpdatedAt t) t.

Definition set_tr_UpdatedAt (now : Time) (t : SLATracking) : SLATracking :=
  set_progress (tr_FirstResponseAt t) (tr_ResolvedAt t) (tr_FirstResponseBreached t)
    (tr_ResolutionBreached t) (tr_FirstResponseWarned t) (tr_ResolutionWarned t) (tr_Status t) now t.

Definition OnResolved (c : Ctx) (conv : Conversation) (at_ : Time) : SlM unit :=
  let! r := ask c (TrackFind (cv_ID conv)) in
  match r with
  | Err _ => Ret tt
  | Ok t =>
      match tr_ResolvedAt t with
      | Some _ => Ret tt
      | None =>
          let t := Finalize (resolved_flags at_ t) in
          let! now := ask c SlNow in
          do! ask c (TrackUpdate (set_tr_UpdatedAt now t)) in
          Ret tt
      end
  end.

Definition Status (c : Ctx) (conversationID : string) : SlM (result SLATracking) :=
  try! _ := Ret (RequireTenant c) in
  ask c (TrackFind conversationID).

Definition AtRisk (c : Ctx) (p : PageRequest) : SlM (result (list SLATracking)) :=
  try! _ := Ret (RequireTenant c) in
  ask c (TrackListAtRisk (Normalize p)).

(** ** The check *)

Definition fire (c : Ctx) (t : SLATracking) (conv : Conversation) (leg event : string) (breach : bool)
  : SlM unit :=
  let a := mkAlert (tr_ConversationID t) (tr_PolicyID t) leg (cv_SectorID conv)
             (tr_FirstResponseDueAt t) (tr_ResolutionDueAt t) breach in
  do! ask c (SlPublish (TopicConversation (tr_TenantID t) (tr_ConversationID t)) event a) in
  do! ask c (SlPublish (TopicTenant (tr_TenantID t)) event a) in
  do! (when! breach do ask c (SlEmit (tr_TenantID t) RealtimeSLABreached (cv_SectorID conv) a)) in
  when! cv_AssignedTo conv <>! "" do
    ask c (SlNotify (mkNotify (tr_TenantID t) (cv_AssignedTo conv)
      (if breach then "sla.breached" else "sla.at_risk")
      (if breach then "A conversation breached its SLA" else "A conversation is at risk of breaching SLA")
      "" ("/conversations/" +:+ tr_ConversationID t))).

Definition reached (now : Time) (at_ : option Time) : bool :=
  match at_ with Some d => d <=? now | None => false end.

Definition set_first (breached warned : bool) (t : SLATracking) : SLATracking :=
  set_progress (tr_FirstResponseAt t) (tr_ResolvedAt t) breached (tr_ResolutionBreached t) warned
    (tr_ResolutionWarned t) (tr_Status t) (tr_UpdatedAt t) t.
Definition set_resolution (breached warned : bool) (t : SLATracking) : SLATracking :=
  set_progress (tr_FirstResponseAt t) (tr_ResolvedAt t) (tr_FirstResponseBreached t) breached
    (tr_FirstResponseWarned t) warned (tr_Status t) (tr_UpdatedAt t) t.

Definition none {A} (o : option A) : bool := match o with None => true | Some _ => false end.

Definition first_response_leg (c : Ctx) (t : SLATracking) (conv : Conversation) (now : Time)
  : SlM (SLATracking * bool) :=
  if none (tr_FirstResponseAt t) && negb (none (tr_FirstResponseDueAt t)) then
    if negb (tr_FirstResponseBreached t) && reached now (tr_FirstResponseDueAt t) then
      let t := set_first true true t in
      do! fire c t conv "first_response" RealtimeSLABreached true in Ret (t, true)
    else if negb (tr_FirstResponseWarned t) && reached now (tr_FirstResponseWarnAt t) then
      let t := set_first (tr_FirstResponseBreached t) true t in
      do! fire c t conv "first_response" RealtimeSLAWarning false in Ret (t, true)
    else Ret (t, false)
  else Ret (t, false).

Definition resolution_leg (c : Ctx) (t : SLATracking) (conv : Conversation) (now : Time)
  : SlM (SLATracking * bool) :=
  if none (tr_ResolvedAt t) && negb (none (tr_ResolutionDueAt t)) then
    if negb (tr_ResolutionBreached t) && reached now (tr_ResolutionDueAt t) then
      let t := set_resolution true true t in
      do! fire c t conv "resolution" RealtimeSLABreached true in Ret (t, true)
    else if negb (tr_ResolutionWarned t) && reached now (tr_ResolutionWarnAt t) then
      let t := set_resolution (tr_ResolutionBreached t) true t in
      do! fire c t conv "resolution" RealtimeSLAWarning false in Ret (t, true)
    else Ret (t, false)
  else Ret (t, false).

Definition evaluate (c : Ctx) (t : SLATracking) (conv : Conversation) (now : Time) : SlM unit :=
  if tr_PauseOnWaitingCustomer t && (cv_Status conv =! StatusWaitingCustomer) then Ret tt
  else
    let! first := first_response_leg c t conv now in
    let! second := resolution_leg c first.1 conv now in
    if first.2 || second.2 then
      do! ask c (TrackUpdate (set_tr_UpdatedAt now second.1)) in Ret tt
    else Ret tt.

Fixpoint add_group (t : SLATracking) (groups : list (string * list SLATracking))
  : list (string * list SLATracking) :=
  match groups with
  | [] => [(tr_TenantID t, [t])]
  | (k, l) :: groups =>
      if k =! tr_TenantID t then (k, l ++ [t]) :: groups else (k, l) :: add_group t groups
  end.

Definition byTenant (items : list SLATracking) : list (string * list SLATracking) :=
  foldl (fun groups t => add_group t groups) [] items.

Definition byID (convs : list Conversation) : gmap string Conversation :=
  foldl (fun m conv => <[cv_ID conv := conv]> m) ∅ convs.

Definition check_tenant (c : Ctx) (now : Time) (group : string * list SLATracking) : SlM unit :=
  let tctx := WithAuthContext (WithTenant c group.1) (SystemActor group.1) in
  let! convs := ask tctx (ConvFindByIDs (map tr_ConversationID group.2)) in
  match convs with
  | Err _ => Ret tt
  | Ok convs =>
      for_each group.2 (fun t =>
        match byID convs !! tr_ConversationID t with
        | Some conv => evaluate tctx t conv now
        | None => Ret tt
        end)
  end.

(** [order]: the order in which Go ranges over the map of the groups. *)
Definition RunCheck (order : list (string * list SLATracking) -> list (string * list SLATracking))
    (c : Ctx) : SlM (result unit) :=
  try! items := ask c (TrackListRunning checkBatchLimit) in
  let! now := ask c SlNow in
  do! for_each (order (byTenant items)) (check_tenant c now) in
  Ret (Ok tt).

(** ** The policy service (service/policy_service.go) *)

Module PolicySvc.
Record CreatePolicy := mkCreatePolicy {
  crp_Name : string; crp_SectorIDs : list string; crp_Priority : string; crp_Channel : string;
  crp_FirstResponseTargetSec : Z; crp_ResolutionTargetSec : Z; crp_BusinessHoursOnly : bool;
  crp_WarningThresholdPct : Z; crp_PauseOnWaitingCustomer : bool; crp_Enabled : option bool }.
Record UpdatePolicy := mkUpdatePolicy {
  upp_Name : option string; upp_SectorIDs : option (list string); upp_Priority : option string;
  upp_Channel : option string; upp_FirstResponseTargetSec : option Z;
  upp_ResolutionTargetSec : option Z; upp_BusinessHoursOnly : option bool;
  upp_WarningThresholdPct : option Z; upp_PauseOnWaitingCustomer : option bool;
  upp_Enabled : option bool }.

Definition Create (c : Ctx) (cmd : CreatePolicy) : SlM (result SLAPolicy) :=
  try! tenantID := Ret (RequireTenant c) in
  if blank (crp_Name cmd) then
    Ret (Err (WithDetails {["name" := VStr "is required"]} (Validation "name is required")))
  else if (crp_FirstResponseTargetSec cmd <=? 0) && (crp_ResolutionTargetSec cmd <=? 0) then
    Ret (Err (WithDetails {["targets" := VStr "first_response or resolution required"]}
                (Validation "at least one target must be set")))
  else
    let warn := crp_WarningThresholdPct cmd in
    let warn := if (warn <=? 0) || (100 <=? warn) then 80 else warn in
    let! now := ask c SlNow in
    let! id := ask c SlNewID in
    let p := mkPolicy id tenantID (trim_space (crp_Name cmd)) (crp_SectorIDs cmd)
               (trim_space (crp_Priority cmd)) (trim_space (crp_Channel cmd))
               (crp_FirstResponseTargetSec cmd) (crp_ResolutionTargetSec cmd)
               (crp_BusinessHoursOnly cmd) warn (crp_PauseOnWaitingCustomer cmd)
               (default true (crp_Enabled cmd)) now now in
    try! _ := ask c (PolicyCreate p) in
    Ret (Ok p).

(** The fields of the command, assigned; a threshold out of range is ignored. *)
Definition applyPolicyUpdate (cmd : UpdatePolicy) (name : string) (p : SLAPolicy) : SLAPolicy :=
  mkPolicy (sp_ID p) (sp_TenantID p) name (default (sp_SectorIDs p) (upp_SectorIDs cmd))
    (match upp_Priority cmd with Some s => trim_space s | None => sp_Priority p end)
    (match upp_Channel cmd with Some s => trim_space s | None => sp_Channel p end)
    (default (sp_FirstResponseTargetSec p) (upp_FirstResponseTargetSec cmd))
    (default (sp_ResolutionTargetSec p) (upp_ResolutionTargetSec cmd))
    (default (sp_BusinessHoursOnly p) (upp_BusinessHoursOnly cmd))
    (match upp_WarningThresholdPct cmd with
     | Some w => if (0 <? w) && (w <? 100) then w else sp_WarningThresholdPct p
     | None => sp_WarningThresholdPct p end)
    (default (sp_PauseOnWaitingCustomer p) (upp_PauseOnWaitingCustomer cmd))
    (default (sp_Enabled p) (upp_Enabled cmd)) (sp_CreatedAt p) (sp_UpdatedAt p).

Definition touched (now : Time) (p : SLAPolicy) : SLAPolicy :=
  mkPolicy (sp_ID p) (sp_TenantID p) (sp_Name p) (sp_SectorIDs p) (sp_Priority p) (sp_Channel p)
    (sp_FirstResponseTargetSec p) (sp_ResolutionTargetSec p) (sp_BusinessHoursOnly p)
    (sp_WarningThresholdPct p) (sp_PauseOnWaitingCustomer p) (sp_Enabled p) (sp_CreatedAt p) now.

Definition Update (c : Ctx) (id : string) (cmd : UpdatePolicy) : SlM (result SLAPolicy) :=
  try! _ := Ret (RequireTenant c) in
  try! p := ask c (PolicyFindByID id) in
  if match upp_Name cmd with Some n => blank n | None => false end then
    Ret (Err (WithDetails {["name" := VStr "cannot be empty"]} (Validation "name cannot be empty")))
  else
    let name := match upp_Name cmd with Some n => trim_space n | None => sp_Name p end in
    let! now := ask c SlNow in
    let p := touched now (applyPolicyUpdate cmd name p) in
    try! _ := ask c (PolicyUpdate p) in
    Ret (Ok p).

Definition Delete (c : Ctx) (id : string) : SlM (result unit) :=
  try! _ := Ret (RequireTenant c) in
  try! _ := ask c (PolicyFindByID id) in
  ask c (PolicyDelete id).

Definition Get (c : Ctx) (id : string) : SlM (result SLAPolicy) :=
  try! _ := Ret (RequireTenant c) in
  ask c (PolicyFindByID id).

Definition List_ (c : Ctx) (p : PageRequest) : SlM (result (list SLAPolicy)) :=
  try! _ := Ret (RequireTenant c) in
  ask c (PolicyList (Normalize p)).
End PolicySvc.
