(* ===== verification/SlaProps.v ===== *)
(** * Service levels: the properties

    The policy chosen, the alerts fired (each once, when due), the trackings kept, and the
    deadlines computed over a business clock. *)
From S2P Require Import Prelude GoStrings AppError Authz Shared ConvEntity ConvContracts Prog Ports.
From S2P Require Import Calendar Sla.

(** ** The choice of a policy *)

Definition applies (conv : Conversation) (p : SLAPolicy) : Prop :=
  sp_Enabled p = true /\ (sp_SectorIDs p = [] \/ cv_SectorID conv ∈ sp_SectorIDs p) /\
  (sp_Priority p = "" \/ sp_Priority p = cv_Priority conv) /\
  (sp_Channel p = "" \/ sp_Channel p = cv_Channel conv).

Lemma contains_iff l v : contains l v = true <-> v ∈ l.
Proof.
  unfold contains. rewrite existsb_exists. split.
  - intros (x & Hx & He%bool_decide_eq_true). subst. by apply list_elem_of_In.
  - intros Hv. exists v. split; [by apply list_elem_of_In|by apply bool_decide_eq_true].
Qed.

Lemma applies_spec conv p :
  negb (sp_Enabled p) || negb (Matches p (cv_SectorID conv) (cv_Priority conv) (cv_Channel conv)) = false
  <-> applies conv p.
Proof.
  unfold applies, Matches. rewrite orb_false_iff, !negb_false_iff.
  assert ((0 <? length (sp_SectorIDs p))%nat && negb (contains (sp_SectorIDs p) (cv_SectorID conv)) = false <->
          (sp_SectorIDs p = [] \/ cv_SectorID conv ∈ sp_SectorIDs p)) as Hsec.
  { rewrite <- contains_iff. destruct (sp_SectorIDs p) as [|x l]; cbn [length]; [by split; [left|]|].
    destruct (contains (x :: l) (cv_SectorID conv)); cbn; split; (done || by right || by intros [?|?]). }
  rewrite <- Hsec. clear Hsec. destruct ((0 <? length (sp_SectorIDs p))%nat && _); [naive_solver|].
  repeat case_bool_decide; cbn; naive_solver.
Qed.

(** The policy of a conversation is an enabled one that matches it, the first among the
    most specific; there is none exactly when no enabled policy matches. *)
Theorem selectPolicy_spec (policies : list SLAPolicy) (conv : Conversation) :
  match selectPolicy policies conv with
  | None => Forall (fun p => ~ applies conv p) policies
  | Some best => applies conv best /\
      exists before after, policies = before ++ best :: after /\
        Forall (fun p => applies conv p -> Specificity p < Specificity best) before /\
        Forall (fun p => applies conv p -> Specificity p <= Specificity best) after
  end.
Proof.
  unfold selectPolicy. induction policies as [|p l IH] using rev_ind; [constructor|].
  rewrite foldl_app. cbn [foldl]. unfold better at 1.
  destruct (negb (sp_Enabled p) || _) eqn:Hp.
  - assert (~ applies conv p) as Hno by (intros Ha%applies_spec; by rewrite Ha in Hp).
    destruct (foldl (better conv) None l) as [best|].
    + destruct IH as (Ha & bf & af & -> & Hbf & Haf). split; [done|]. exists bf, (af ++ [p]).
      rewrite <- app_assoc. split; [done|]. split; [done|]. apply Forall_app. by repeat constructor.
    + apply Forall_app. by repeat constructor.
  - apply applies_spec in Hp. destruct (foldl (better conv) None l) as [best|].
    + destruct IH as (Ha & bf & af & -> & Hbf & Haf).
      destruct (Z.ltb_spec (Specificity best) (Specificity p)) as [Hlt|Hge].
      * split; [done|]. exists (bf ++ best :: af), []. split; [done|]. split; [|constructor].
        apply Forall_app. split; [|constructor; [done|]].
        -- eapply Forall_impl; [exact Hbf|]. cbn. intros x Hx Hxa. specialize (Hx Hxa). lia.
        -- eapply Forall_impl; [exact Haf|]. cbn. intros x Hx Hxa. specialize (Hx Hxa). lia.
      * split; [done|]. exists bf, (af ++ [p]). rewrite <- app_assoc. split; [done|]. split; [done|].
        apply Forall_app. by repeat constructor.
    + split; [done|]. exists l, []. split; [done|]. split; [|constructor].
      eapply Forall_impl; [exact IH|]. by intros x Hx ?.
Qed.

(** ** The world the service runs in *)

(** An alert published to the room of its conversation: its tenant, conversation, leg,
    kind and time. *)
Record Fired := mkFired {
  fi_Tenant : string; fi_Conversation : string; fi_Leg : string; fi_Event : string; fi_At : Time }.

(** The trackings by tenant and conversation, the alerts so far, the updates of stored trackings
    that failed without effect (each after how many alerts, and of which tracking), the time. *)
Record SlaView := mkSlaView {
  sv_store : gmap (string * string) SLATracking; sv_fired : list Fired;
  sv_lost : list (nat * (string * string)); sv_now : Time }.

Definition key_of (t : SLATracking) : string * string := (tr_TenantID t, tr_ConversationID t).

Definition with_store (m : gmap (string * string) SLATracking) (g : SlaView) : SlaView :=
  mkSlaView m (sv_fired g) (sv_lost g) (sv_now g).
Definition at_time (now : Time) (g : SlaView) : SlaView := mkSlaView (sv_store g) (sv_fired g) (sv_lost g) now.
Definition with_alert (f : Fired) (g : SlaView) : SlaView :=
  mkSlaView (sv_store g) (sv_fired g ++ [f]) (sv_lost g) (sv_now g).
Definition without_update (k : string * string) (g : SlaView) : SlaView :=
  mkSlaView (sv_store g) (sv_fired g) (sv_lost g ++ [(length (sv_fired g), k)]) (sv_now g).

(** An update of the tracking was lost after the [i]th alert and, at the latest, before the [j]th. *)
Definition lost_after (i : nat) (k : string * string) (g : SlaView) : Prop :=
  exists n, (n, k) ∈ sv_lost g /\ (i < n)%nat.
Definition lost_between (i j : nat) (k : string * string) (g : SlaView) : Prop :=
  exists n, (n, k) ∈ sv_lost g /\ (i < n <= j)%nat.

(** What the repository and the publisher do; any call may fail, an update before or after it took
    effect. *)
Definition sla_post (R : Type) (c : Ctx) (e : SlaPort R) (g : SlaView) (r : R) (g' : SlaView) : Prop :=
  match e in SlaPort R return R -> Prop with
  | SlNow => fun r => sv_now g <= r /\ g' = at_time r g
  | TrackFind conv => fun r => g' = g /\ forall t, r = Ok t ->
      exists tn, RequireTenant c = Ok tn /\ sv_store g !! (tn, conv) = Some t
  | TrackCreate t => fun r =>
      g' = g \/ sv_store g !! key_of t = None /\ g' = with_store (<[key_of t := t]> (sv_store g)) g
  | TrackUpdate t => fun r =>
      match RequireTenant c with
      | Ok tn =>
          match sv_store g !! (tn, tr_ConversationID t) with
          | Some old =>
              if tr_ID old =! tr_ID t
              then g' = with_store (<[(tn, tr_ConversationID t) := stored_progress old t]> (sv_store g)) g \/
                   is_ok r = false /\ g' = without_update (tn, tr_ConversationID t) g
              else g' = g
          | None => g' = g
          end
      | Err _ => g' = g
      end
  | TrackListRunning _ => fun r => g' = g /\ forall l, r = Ok l ->
      NoDup (map key_of l) /\ Forall (fun t => sv_store g !! key_of t = Some t /\ tr_Status t = StatusRunning) l
  | SlPublish topic event a => fun r =>
      let tn := default "" (ctx_tenant c) in
      g' = if topic =! TopicConversation tn (al_ConversationID a)
           then with_alert (mkFired tn (al_ConversationID a) (al_Leg a) event (sv_now g)) g
           else g
  | _ => fun _ => g' = g
  end r.

Definition sla_contract : contract Ctx SlaPort SlaView := pre_post (fun _ _ _ _ => True) sla_post.

#[export] Instance sla_mono : Monotone sla_contract.
Proof. apply pre_post_mono. Qed.

Class SlaWorld {S} (h : handler Ctx SlaPort S) (view : S -> SlaView) : Prop := {
  sla_answers : forall R c (e : SlaPort R) s,
    let '(r, s') := h R c e s in sla_post R c e (view s) r (view s');
}.

Lemma sla_run {S} (h : handler Ctx SlaPort S) (view : S -> SlaView) `{!SlaWorld h view} {A} (m : SlM A) Q s :
  wp sla_contract m Q (view s) -> let '(a, s') := run h m s in Q a (view s').
Proof.
  apply wp_run. intros R c e P s' [_ HP]. pose proof (sla_answers R c e s') as Ha.
  destruct (h R c e s'). by apply HP.
Qed.

Ltac sla_call r g Hr := apply wp_bind; [apply _|]; split; [done|]; intros r g Hr; cbn [wp].

(** ** The invariant *)

Definition leg_flags (t : SLATracking) (leg : string) : option (bool * bool * option Time * option Time) :=
  if leg =! "first_response" then
    Some (tr_FirstResponseBreached t, tr_FirstResponseWarned t, tr_FirstResponseDueAt t, tr_FirstResponseWarnAt t)
  else if leg =! "resolution" then
    Some (tr_ResolutionBreached t, tr_ResolutionWarned t, tr_ResolutionDueAt t, tr_ResolutionWarnAt t)
  else None.

(** An alert of a tracking: its flags record it, and it was time for it. *)
Definition recorded (t : SLATracking) (f : Fired) : Prop :=
  match leg_flags t (fi_Leg f) with
  | Some (breached, warned, due, warn) =>
      warned = true /\
      ((fi_Event f = RealtimeSLABreached /\ breached = true /\ reached (fi_At f) due = true) \/
       (fi_Event f = RealtimeSLAWarning /\ reached (fi_At f) warn = true))
  | None => False
  end.

Definition alert_key (f : Fired) : string * string := (fi_Tenant f, fi_Conversation f).

Definition same_leg (x y : Fired) : Prop :=
  fi_Tenant x = fi_Tenant y /\ fi_Conversation x = fi_Conversation y /\ fi_Leg x = fi_Leg y.

(** Of one leg, the only alert that may follow another is a breach after a warning. *)
Definition may_follow (x y : Fired) : Prop :=
  same_leg x y -> fi_Event x = RealtimeSLAWarning /\ fi_Event y = RealtimeSLABreached.

(** A tracking as the service leaves it: running until resolved; breached only with a flag
    set, and met with a flag only if the first response came after the resolution. *)
Definition tracking_ok (t : SLATracking) : Prop :=
  match tr_ResolvedAt t with
  | None => tr_Status t = StatusRunning
  | Some _ =>
      (tr_Status t = StatusBreached /\ tr_FirstResponseBreached t || tr_ResolutionBreached t = true) \/
      (tr_Status t = StatusMet /\ tr_ResolutionBreached t = false /\
       (tr_FirstResponseBreached t = true -> tr_FirstResponseAt t <> None))
  end.

Record SlaInv (g : SlaView) : Prop := {
  in_keys : forall k t, sv_store g !! k = Some t -> k = key_of t /\ tr_TenantID t <> "";
  in_ok : forall k t, sv_store g !! k = Some t -> tracking_ok t;
  in_recorded : forall i f, sv_fired g !! i = Some f ->
    (exists t, sv_store g !! alert_key f = Some t /\ recorded t f) \/ lost_after i (alert_key f) g;
  in_order : forall i j x y, (i < j)%nat -> sv_fired g !! i = Some x -> sv_fired g !! j = Some y ->
    may_follow x y \/ lost_between i j (alert_key x) g;
  in_lost : forall n k, (n, k) ∈ sv_lost g -> (n <= length (sv_fired g))%nat;
}.

(** One tracking replaced by a later state of itself. *)
Definition later (old new : SLATracking) : Prop :=
  key_of new = key_of old /\ tr_ID new = tr_ID old /\
  (forall f, recorded old f -> recorded new f).

Lemma SlaInv_replace g k old new :
  SlaInv g -> sv_store g !! k = Some old -> later old new -> tracking_ok new ->
  SlaInv (with_store (<[k := new]> (sv_store g)) g).
Proof.
  intros [Hk Ho Hr Hs Hl] Hold (Hkey & Hid & Hrec) Hnew.
  destruct (Hk k old Hold) as [Hkold Htn]. split; cbn.
  - intros k' t' [[<- <-]|[Hne Ht']]%lookup_insert_Some; [|by apply Hk].
    split; [congruence|]. unfold key_of in Hkey. congruence.
  - intros k' t' [[<- <-]|[Hne Ht']]%lookup_insert_Some; [done|by apply (Ho k')].
  - intros i f Hi. destruct (Hr i f Hi) as [(t & Ht & Hf)|Hlost]; [left|by right].
    destruct (decide (k = alert_key f)) as [->|Hne].
    + rewrite Hold in Ht. injection Ht as <-. exists new. rewrite lookup_insert_eq. split; [done|by apply Hrec].
    + exists t. by rewrite lookup_insert_ne.
  - done.
  - done.
Qed.

Lemma SlaInv_now g now : SlaInv g -> SlaInv (at_time now g).
Proof. by intros [Hk Ho Hr Hs Hl]. Qed.

Lemma lost_after_grows i k k' g : lost_after i k g -> lost_after i k (without_update k' g).
Proof. intros (n & Hn & Hi). exists n. split; [apply elem_of_app; by left|done]. Qed.
Lemma lost_between_grows i j k k' g : lost_between i j k g -> lost_between i j k (without_update k' g).
Proof. intros (n & Hn & Hi). exists n. split; [apply elem_of_app; by left|done]. Qed.

(** An update that never took effect: the alerts published while the tracking had become [new]
    are not recorded in it. *)
Lemma SlaInv_lost g k old new :
  SlaInv (with_store (<[k := new]> (sv_store g)) g) -> sv_store g !! k = Some old ->
  k = key_of old /\ tr_TenantID old <> "" -> tracking_ok old -> SlaInv (without_update k g).
Proof.
  intros [Hk Ho Hr Hs Hl] Hold Hkey Hok. split; cbn in *.
  - intros k' t' Ht'. destruct (decide (k = k')) as [<-|Hne]; [by rewrite Hold in Ht'; injection Ht' as <-|].
    apply Hk. by rewrite lookup_insert_ne.
  - intros k' t' Ht'. destruct (decide (k = k')) as [<-|Hne]; [by rewrite Hold in Ht'; injection Ht' as <-|].
    apply (Ho k'). by rewrite lookup_insert_ne.
  - intros i f Hi. destruct (decide (k = alert_key f)) as [->|Hne].
    + right. exists (length (sv_fired g)). split; [cbn; set_solver|]. by apply lookup_lt_Some in Hi.
    + destruct (Hr i f Hi) as [(t & Ht & Hf)|Hlost]; [left|right; by apply lost_after_grows].
      exists t. by rewrite lookup_insert_ne in Ht.
  - intros i j x y Hij Hx Hy. destruct (Hs i j x y Hij Hx Hy) as [?|?]; [by left|right; by apply lost_between_grows].
  - intros n k' [Hn|Hn%list_elem_of_singleton]%elem_of_app; [by apply (Hl n k')|by injection Hn as -> ->].
Qed.

(** ** The check *)

Lemma tenant_room_differs t conv : (TopicTenant t =! TopicConversation t conv) = false.
Proof.
  apply bool_decide_eq_false. unfold TopicTenant, TopicConversation. intros He.
  do 2 apply (inj (String.app _)) in He. discriminate He.
Qed.

(** Firing adds one alert to what was published. *)
Lemma fire_alert_wp c t conv leg event breach g :
  ctx_tenant c = Some (tr_TenantID t) ->
  wp sla_contract (fire c t conv leg event breach)
    (fun _ g' => g' = with_alert (mkFired (tr_TenantID t) (tr_ConversationID t) leg event (sv_now g)) g) g.
Proof.
  intros Hc. unfold fire. cbn zeta. sla_call r1 g1 H1. unfold sla_post, embed, sla_own in H1.
  rewrite Hc in H1. cbn [default from_option id al_ConversationID al_Leg] in H1.
  rewrite bool_decide_eq_true_2 in H1 by done. subst g1.
  sla_call r2 g2 H2. unfold sla_post, embed, sla_own in H2. rewrite Hc in H2.
  cbn [default from_option id al_ConversationID al_Leg] in H2. rewrite tenant_room_differs in H2. subst g2.
  apply wp_bind; [apply _|].
  assert (forall g, wp sla_contract (when! cv_AssignedTo conv <>! "" do
    ask c (SlNotify (mkNotify (tr_TenantID t) (cv_AssignedTo conv)
      (if breach then "sla.breached" else "sla.at_risk")
      (if breach then "A conversation breached its SLA" else "A conversation is at risk of breaching SLA")
      "" ("/conversations/" +:+ tr_ConversationID t)))) (fun _ g' => g' = g) g) as Hn.
  { intros g2. case_match; [|done]. split; [done|]. by intros [] g3 ->. }
  destruct breach; [|apply Hn]. split; [done|]. intros [] g3 ->. apply Hn.
Qed.

(** An alert published and the tracking that records it. *)
Lemma SlaInv_fire g k tl tl' f :
  SlaInv (with_store (<[k := tl]> (sv_store g)) g) -> later tl tl' -> tracking_ok tl' ->
  k = alert_key f -> recorded tl' f ->
  (forall x, recorded tl x -> fi_Leg x = fi_Leg f ->
     fi_Event x = RealtimeSLAWarning /\ fi_Event f = RealtimeSLABreached) ->
  SlaInv (with_store (<[k := tl']> (sv_store g)) (with_alert f g)).
Proof.
  intros HI Hl Hok -> Hf Hx.
  assert (forall i x, sv_fired g !! i = Some x -> may_follow x f \/ lost_between i (length (sv_fired g)) (alert_key x) g)
    as Hfollow.
  { intros i x Hi. destruct HI as [_ _ Hr _ Hlost]. cbn in Hr, Hlost.
    destruct (decide (alert_key x = alert_key f)) as [He|Hne].
    - destruct (Hr i x Hi) as [(t & Ht & Hrec)|(n & Hn & Hi')].
      + left. intros (_ & _ & Hleg). apply Hx; [|done]. rewrite He, lookup_insert_eq in Ht. by injection Ht as <-.
      + right. exists n. split; [done|]. split; [done|]. by apply (Hlost n (alert_key x)).
    - left. intros (Ht & Hc & _). destruct Hne. unfold alert_key. by rewrite Ht, Hc. }
  assert (SlaInv (with_store (<[alert_key f := tl']> (sv_store g)) g)) as [Hk Ho Hr Hs Hlost].
  { pose proof (SlaInv_replace _ (alert_key f) tl tl' HI) as Hrep. cbn in Hrep.
    rewrite insert_insert_eq in Hrep. apply Hrep; [by rewrite lookup_insert_eq|done|done]. }
  split; [done|done| | |]; cbn in *.
  - intros i x [Hi|[_ [_ <-]%list_lookup_singleton_Some]]%lookup_app_Some; [by apply Hr|].
    left. exists tl'. by rewrite lookup_insert_eq.
  - intros i j x y Hij Hi Hj. apply lookup_app_Some in Hj as [Hj|[Hj Hy]].
    + apply (Hs i j); [done| |done]. apply lookup_lt_Some in Hj. rewrite lookup_app_l in Hi by lia. done.
    + apply list_lookup_singleton_Some in Hy as [Hj0 <-]. rewrite lookup_app_l in Hi by lia.
      replace j with (length (sv_fired g)) by lia. by apply Hfollow.
  - intros n k Hn. rewrite length_app. specialize (Hlost n k Hn). lia.
Qed.

(** While a tracking is evaluated the store still holds what was read, [t0]; [tl] is what
    has become of it. *)
Record Local (c : Ctx) (k : string * string) (t0 tl : SLATracking) (now : Time) (g : SlaView) : Prop := {
  lo_ctx : ctx_tenant c = Some (tr_TenantID tl);
  lo_key : k = key_of tl;
  lo_stored : sv_store g !! k = Some t0;
  lo_inv : SlaInv (with_store (<[k := tl]> (sv_store g)) g);
  lo_progress : stored_progress t0 tl = tl /\ tr_ID t0 = tr_ID tl;
  lo_running : tr_ResolvedAt tl = None /\ tr_Status tl = StatusRunning;
  lo_now : sv_now g = now;
}.

Lemma Local_fire c k t0 tl tl' conv leg event breach now g :
  Local c k t0 tl now g ->
  later tl tl' -> ctx_tenant c = Some (tr_TenantID tl') -> stored_progress t0 tl' = tl' ->
  tr_ResolvedAt tl' = None /\ tr_Status tl' = StatusRunning ->
  (forall f, fi_Leg f = leg -> fi_Event f = event -> fi_At f = now -> recorded tl' f) ->
  (forall x, recorded tl x -> fi_Leg x = leg -> fi_Event x = RealtimeSLAWarning /\ event = RealtimeSLABreached) ->
  wp sla_contract (do! fire c tl' conv leg event breach in Ret (tl', true))
    (fun r g' => Local c k t0 r.1 now g' /\ sv_store g' = sv_store g /\ (r.2 = false -> r.1 = tl)) g.
Proof.
  intros [Hc -> Hst HI [Hp Hid] Hrun Hnow] Hl Hc' Hp' Hrun' Hrec Hx. apply wp_bind; [apply _|].
  eapply wp_mono; [apply _| |by apply fire_alert_wp]. intros [] g' ->. cbn [wp fst snd].
  destruct Hl as (Hkey & Hid' & Hl). split; [|done]. split; try done.
  - set (f := mkFired _ _ leg event _).
    assert (key_of tl = alert_key f) as Hkf by (rewrite <- Hkey; done).
    apply (SlaInv_fire g (key_of tl) tl tl' f HI); [done| |exact Hkf|by apply Hrec|].
    + unfold tracking_ok. destruct Hrun' as [-> ?]. done.
    + intros x Hxr Hleg. by apply Hx.
  - split; [done|]. by rewrite Hid, Hid'.
Qed.

Lemma later_first tl b w :
  (tr_FirstResponseBreached tl = true -> b = true) -> (tr_FirstResponseWarned tl = true -> w = true) ->
  later tl (set_first b w tl).
Proof.
  intros Hb Hw. split; [done|]. split; [done|]. intros f. unfold recorded, leg_flags. cbn.
  case_bool_decide; [|done]. naive_solver.
Qed.

Lemma later_resolution tl b w :
  (tr_ResolutionBreached tl = true -> b = true) -> (tr_ResolutionWarned tl = true -> w = true) ->
  later tl (set_resolution b w tl).
Proof.
  intros Hb Hw. split; [done|]. split; [done|]. intros f. unfold recorded, leg_flags. cbn.
  case_bool_decide; [done|]. case_bool_decide; [|done]. naive_solver.
Qed.

Ltac leg_of Hleg := unfold recorded, leg_flags; rewrite ?Hleg;
  rewrite ?(bool_decide_eq_true_2 ("first_response" = "first_response")) by done;
  rewrite ?(bool_decide_eq_false_2 ("resolution" = "first_response")) by done;
  rewrite ?(bool_decide_eq_true_2 ("resolution" = "resolution")) by done.

Definition leg_post (c : Ctx) (k : string * string) (t0 tl : SLATracking) (now : Time) (g : SlaView)
    (r : SLATracking * bool) (g' : SlaView) : Prop :=
  Local c k t0 r.1 now g' /\ sv_store g' = sv_store g /\ (r.2 = false -> r.1 = tl).

Lemma first_response_leg_wp c k t0 tl conv now g :
  Local c k t0 tl now g ->
  wp sla_contract (first_response_leg c tl conv now) (leg_post c k t0 tl now g) g.
Proof.
  intros HL. pose proof HL as [Hc Hk Hst HI [Hp Hid] Hrun Hnow]. unfold first_response_leg.
  assert (wp sla_contract (Ret (tl, false)) (leg_post c k t0 tl now g) g) as Hsame by done.
  assert (forall b w, stored_progress t0 (set_first b w tl) = set_first b w tl) as Hprog
    by (intros b w; rewrite <- Hp at 2; done).
  case_match eqn:Hopen; [|done]. case_match eqn:Hbr; [|case_match eqn:Hwarn; [|done]]; cbn zeta; prop_bools.
  - apply (Local_fire c k t0 tl); [done|by apply later_first|done|done|done| |].
    + intros f Hleg He Ha. leg_of Hleg. split; [done|]. left. cbn. by rewrite Ha.
    + intros x Hx Hleg. revert Hx. leg_of Hleg. intros (_ & [(_ & Hbt & _)|(He & _)]); [congruence|done].
  - apply (Local_fire c k t0 tl); [done|by apply later_first|done|done|done| |].
    + intros f Hleg He Ha. leg_of Hleg. split; [done|]. right. cbn. by rewrite Ha.
    + intros x Hx Hleg. revert Hx. leg_of Hleg. intros (Hw & _). congruence.
Qed.

Lemma resolution_leg_wp c k t0 tl conv now g :
  Local c k t0 tl now g ->
  wp sla_contract (resolution_leg c tl conv now) (leg_post c k t0 tl now g) g.
Proof.
  intros HL. pose proof HL as [Hc Hk Hst HI [Hp Hid] Hrun Hnow]. unfold resolution_leg.
  assert (wp sla_contract (Ret (tl, false)) (leg_post c k t0 tl now g) g) as Hsame by done.
  assert (forall b w, stored_progress t0 (set_resolution b w tl) = set_resolution b w tl) as Hprog
    by (intros b w; rewrite <- Hp at 2; done).
  case_match eqn:Hopen; [|done]. case_match eqn:Hbr; [|case_match eqn:Hwarn; [|done]]; cbn zeta; prop_bools.
  - apply (Local_fire c k t0 tl); [done|by apply later_resolution|done|done|done| |].
    + intros f Hleg He Ha. leg_of Hleg. split; [done|]. left. cbn. by rewrite Ha.
    + intros x Hx Hleg. revert Hx. leg_of Hleg. intros (_ & [(_ & Hbt & _)|(He & _)]); [congruence|done].
  - apply (Local_fire c k t0 tl); [done|by apply later_resolution|done|done|done| |].
    + intros f Hleg He Ha. leg_of Hleg. split; [done|]. right. cbn. by rewrite Ha.
    + intros x Hx Hleg. revert Hx. leg_of Hleg. intros (Hw & _). congruence.
Qed.

Definition others_kept (k : string * string) (g g' : SlaView) : Prop :=
  forall k', k' <> k -> sv_store g' !! k' = sv_store g !! k'.

Lemma evaluate_wp c t conv now g :
  SlaInv g -> sv_store g !! key_of t = Some t -> tr_Status t = StatusRunning ->
  ctx_tenant c = Some (tr_TenantID t) -> sv_now g = now ->
  wp sla_contract (evaluate c t conv now)
    (fun _ g' => SlaInv g' /\ sv_now g' = now /\ others_kept (key_of t) g g') g.
Proof.
  intros HI Ht Hst Hc Hnow. unfold evaluate. case_match; [done|].
  assert (Local c (key_of t) t t now g) as HL.
  { split; try done.
    - rewrite insert_id by done. by destruct g.
    - by destruct t.
    - split; [|done]. pose proof (in_ok g HI _ _ Ht) as Hok. unfold tracking_ok in Hok.
      destruct (tr_ResolvedAt t); [|done]. rewrite Hst in Hok. by destruct Hok as [[? _]|[? _]]. }
  apply wp_bind; [apply _|]. eapply wp_mono; [apply _| |by apply first_response_leg_wp].
  intros [t1 b1] g1 (HL1 & Hs1 & Hb1). cbn [fst snd] in *.
  apply wp_bind; [apply _|]. eapply wp_mono; [apply _| |by apply resolution_leg_wp].
  intros [t2 b2] g2 (HL2 & Hs2 & Hb2). cbn [fst snd] in *.
  destruct HL2 as [Hc2 Hk2 Hst2 HI2 [Hp2 Hid2] Hrun2 Hnow2].
  destruct (b1 || b2) eqn:Hb.
  - sla_call r g3 H3. unfold sla_post, embed, sla_own in H3.
    assert (RequireTenant c = Ok (tr_TenantID t2)) as Hreq.
    { unfold RequireTenant. rewrite Hc2.
      assert (tr_TenantID t2 <> "") as Hne; [|by rewrite bool_decide_eq_false_2].
      destruct (in_keys _ HI2 (key_of t) t2) as [_ ?]; [|done]. cbn. by rewrite lookup_insert_eq. }
    rewrite Hreq in H3. change (tr_ConversationID (set_tr_UpdatedAt now t2)) with (tr_ConversationID t2) in H3.
    replace (tr_TenantID t2, tr_ConversationID t2) with (key_of t) in H3 by (by rewrite Hk2).
    rewrite Hst2 in H3. rewrite bool_decide_eq_true_2 in H3 by done.
    destruct H3 as [-> |[_ ->]].
    2:{ split_and!; [|done|by intros k' _; cbn; rewrite Hs2, Hs1].
        by apply (SlaInv_lost g2 _ t t2 HI2 Hst2 (in_keys g HI _ _ Ht)), (in_ok g HI _ _ Ht). }
    cbn. assert (stored_progress t (set_tr_UpdatedAt now t2) = set_tr_UpdatedAt now t2) as ->
      by (rewrite <- Hp2 at 2; done).
    split_and!; [|done|].
    + pose proof (SlaInv_replace _ (key_of t) t2 (set_tr_UpdatedAt now t2) HI2) as Hrep. cbn in Hrep.
      rewrite insert_insert_eq in Hrep. apply Hrep; [by rewrite lookup_insert_eq|done|].
      assert (tracking_ok t2) as Hok; [|exact Hok].
      apply (in_ok _ HI2 (key_of t)). cbn. by rewrite lookup_insert_eq.
    + intros k' Hk'. cbn. rewrite lookup_insert_ne by done. by rewrite Hs2, Hs1.
  - apply orb_false_iff in Hb as [-> ->]. rewrite (Hb2 eq_refl), (Hb1 eq_refl) in *. cbn.
    split_and!; [|done|by intros k' _; rewrite Hs2, Hs1].
    rewrite insert_id in HI2 by done. by destruct g2.
Qed.

(** ** Groups by tenant *)

Lemma add_group_perm t groups : mjoin (map snd (add_group t groups)) ≡ₚ t :: mjoin (map snd groups).
Proof.
  induction groups as [|[k l] groups IH]; [done|]. cbn [add_group]. case_bool_decide; cbn.
  - rewrite <- app_assoc. cbn. by rewrite <- Permutation_middle.
  - rewrite IH. by rewrite <- Permutation_middle.
Qed.

Lemma byTenant_perm items : mjoin (map snd (byTenant items)) ≡ₚ items.
Proof.
  unfold byTenant. induction items as [|t items IH] using rev_ind; [done|].
  rewrite foldl_app. cbn [foldl]. rewrite add_group_perm, IH. by rewrite Permutation_app_comm.
Qed.

Definition own_tenant (group : string * list SLATracking) : Prop :=
  Forall (fun t => tr_TenantID t = group.1) group.2.

Lemma byTenant_own items : Forall own_tenant (byTenant items).
Proof.
  unfold byTenant. induction items as [|t items IH] using rev_ind; [constructor|].
  rewrite foldl_app. cbn [foldl]. revert IH. generalize (foldl (fun groups t => add_group t groups) [] items).
  intros groups Hg. induction Hg as [|[k l] groups Hk Hg IH]; cbn [add_group]; [by repeat constructor|].
  case_bool_decide as Hkt; constructor; [|exact Hg|exact Hk|exact IH].
  apply Forall_app. split; [exact Hk|]. constructor; [by rewrite Hkt|constructor].
Qed.

(** What is left to evaluate is still as it was read. *)
Record Pending (ts : list SLATracking) (now : Time) (g : SlaView) : Prop := {
  pe_inv : SlaInv g;
  pe_distinct : NoDup (map key_of ts);
  pe_stored : Forall (fun t => sv_store g !! key_of t = Some t /\ tr_Status t = StatusRunning) ts;
  pe_now : sv_now g = now;
}.

Lemma Pending_perm ts ts' now g : ts ≡ₚ ts' -> Pending ts now g -> Pending ts' now g.
Proof. intros Hp [HI Hd Hs Hn]. split; [done|by rewrite <- Hp|by rewrite <- Hp|done]. Qed.

Lemma Pending_suffix ts ts' now g : Pending (ts ++ ts') now g -> Pending ts' now g.
Proof.
  intros [HI Hd Hs Hn]. apply Forall_app in Hs as [_ Hs]. rewrite map_app in Hd.
  apply NoDup_app in Hd as (_ & _ & Hd). by split.
Qed.

Lemma Pending_next t ts now g g' :
  Pending (t :: ts) now g -> SlaInv g' -> sv_now g' = now -> others_kept (key_of t) g g' -> Pending ts now g'.
Proof.
  intros [HI Hd Hs Hn] HI' Hn' Hk. cbn [map] in Hd. apply NoDup_cons in Hd as [Hni Hd].
  apply Forall_cons in Hs as [_ Hs]. split; [done|done| |done].
  apply Forall_forall. intros x Hx. rewrite Forall_forall in Hs. destruct (Hs x Hx) as [Hxs Hxr].
  split; [|done]. rewrite Hk; [done|]. intros He. apply Hni. rewrite <- He. by apply list_elem_of_fmap_2.
Qed.

Lemma evaluate_all_wp tctx find ts rest now g :
  Forall (fun t => ctx_tenant tctx = Some (tr_TenantID t)) ts ->
  Pending (ts ++ rest) now g ->
  wp sla_contract (for_each ts (fun t => match find t with Some conv => evaluate tctx t conv now | None => Ret tt end))
    (fun _ g' => Pending rest now g') g.
Proof.
  intros Hc. revert g. induction Hc as [|t ts Ht _ IH]; intros g HP; cbn [for_each app] in *; [done|].
  apply wp_bind; [apply _|]. destruct (find t) as [conv|].
  - pose proof HP as [HI _ Hs Hn]. apply Forall_cons in Hs as [[Hst Hrun] _].
    eapply wp_mono; [apply _| |by apply evaluate_wp]. intros [] g' (HI' & Hn' & Hk).
    apply IH. by apply (Pending_next t _ now g).
  - cbn [wp]. apply IH. by apply (Pending_suffix [t]).
Qed.

Lemma check_groups_wp c groups now g :
  Forall own_tenant groups -> Pending (mjoin (map snd groups)) now g ->
  wp sla_contract (for_each groups (check_tenant c now)) (fun _ g' => SlaInv g') g.
Proof.
  intros Ho. revert g. induction Ho as [|[k ts] groups Hk _ IH]; intros g HP; cbn [for_each]; [apply HP|].
  apply wp_bind; [apply _|]. unfold check_tenant at 1. cbn zeta. cbn [fst snd map mjoin list_join] in *.
  sla_call r g1 H1. unfold sla_post, embed, sla_convs in H1. subst g1.
  destruct r as [convs|e]; cbn [wp].
  - eapply wp_mono; [apply _| |apply (evaluate_all_wp _ (fun t => byID convs !! tr_ConversationID t) ts
      (mjoin (map snd groups)) now)]; [intros [] g' HP'; by apply IH| |done].
    eapply Forall_impl; [exact Hk|]. intros t Ht. cbn in *. by rewrite Ht.
  - apply IH. by apply (Pending_suffix ts).
Qed.

Lemma RunCheck_wp order c g :
  (forall l, order l ≡ₚ l) -> SlaInv g ->
  wp sla_contract (RunCheck order c) (fun _ g' => SlaInv g') g.
Proof.
  intros Hord HI. unfold RunCheck. apply wp_bind_ok; [apply _|].
  split; [done|]. intros r g1 Hr. unfold sla_post, embed, sla_own in Hr. destruct Hr as [-> Hl].
  destruct r as [items|e]; [|done]. cbn [wp]. destruct (Hl items eq_refl) as [Hd Hs].
  sla_call now g1 Hn. unfold sla_post, embed, sla_own in Hn. destruct Hn as [_ ->].
  apply wp_bind; [apply _|]. apply check_groups_wp.
  - rewrite Hord. apply byTenant_own.
  - apply (Pending_perm items).
    + rewrite <- (byTenant_perm items) at 1. by rewrite Hord.
    + split; [by apply SlaInv_now|done|done|done].
Qed.

(** ** The hooks *)

Lemma computeDue_wp c ch from target biz g :
  wp sla_contract (computeDue c ch from target biz) (fun _ g' => g' = g) g.
Proof.
  unfold computeDue. case_match; [done|]. destruct biz; [|done]. split; [done|]. by intros r g' ->.
Qed.

Lemma SlaInv_create g t :
  SlaInv g -> sv_store g !! key_of t = None -> tr_TenantID t <> "" -> tracking_ok t ->
  SlaInv (with_store (<[key_of t := t]> (sv_store g)) g).
Proof.
  intros [Hk Ho Hr Hs Hl] Hn Ht Hok. split; cbn.
  - intros k' t' [[<- <-]|[Hne Ht']]%lookup_insert_Some; [done|by apply Hk].
  - intros k' t' [[<- <-]|[Hne Ht']]%lookup_insert_Some; [done|by apply (Ho k')].
  - intros i f Hi. destruct (Hr i f Hi) as [(x & Hx & Hf)|Hlost]; [left|by right]. exists x. split; [|done].
    rewrite lookup_insert_ne; [done|]. intros He. by rewrite He, Hx in Hn.
  - done.
  - done.
Qed.

Lemma startTracking_wp c conv policy g :
  cv_TenantID conv <> "" -> SlaInv g ->
  wp sla_contract (startTracking c conv policy) (fun _ g' => SlaInv g') g.
Proof.
  intros Ht HI. unfold startTracking. apply wp_bind; [apply _|].
  assert (forall k, (forall start g', SlaInv g' -> wp sla_contract (k start) (fun _ g' => SlaInv g') g') ->
    wp sla_contract (if cv_CreatedAt conv =! ZeroTime then ask c SlNow else Ret (cv_CreatedAt conv))
      (fun start g' => wp sla_contract (k start : SlM unit) (fun _ g' => SlaInv g') g') g) as Hstart.
  { intros k Hk. case_bool_decide; [|by apply Hk]. split; [done|]. intros r g' [_ ->]. by apply Hk, SlaInv_now. }
  apply Hstart. clear Hstart HI g. intros start g HI. cbn zeta. sla_call tid g1 H1.
  unfold sla_post, embed, sla_own in H1. subst g1.
  do 4 (apply wp_bind; [apply _|]; eapply wp_mono; [apply _| |apply computeDue_wp]; intros ? ? ->).
  sla_call created g1 H1. destruct H1 as [_ ->]. sla_call updated g1 H1. destruct H1 as [_ ->].
  sla_call r g1 H1. unfold sla_post, embed, sla_own in H1. apply (SlaInv_now _ created), (SlaInv_now _ updated) in HI.
  destruct H1 as [->|[Hn ->]]; [exact HI|]. by apply (SlaInv_create _ _ HI Hn).
Qed.

Lemma OnConversationCreated_wp c conv g :
  cv_TenantID conv <> "" -> SlaInv g ->
  wp sla_contract (OnConversationCreated c conv) (fun _ g' => SlaInv g') g.
Proof.
  intros Ht HI. unfold OnConversationCreated. sla_call r g1 H1. destruct H1 as [-> _].
  destruct r as [t0|e0]; [done|]. sla_call r g1 H1. unfold sla_post, embed, sla_own in H1. subst g1.
  destruct r as [policies|e]; [|done]. destruct (selectPolicy policies conv) as [policy|]; [|done].
  by apply startTracking_wp.
Qed.

(** A tracking read and updated to a later state of itself. *)
Lemma update_tracking_wp c conv t t' g :
  SlaInv g -> (exists tn, RequireTenant c = Ok tn /\ sv_store g !! (tn, conv) = Some t) ->
  later t t' -> stored_progress t t' = t' -> tracking_ok t' ->
  wp sla_contract (do! ask c (TrackUpdate t') in Ret tt) (fun _ g' => SlaInv g') g.
Proof.
  intros HI (tn & Hreq & Ht) Hl Hp Hok. sla_call r g1 H1. unfold sla_post, embed, sla_own in H1.
  rewrite Hreq in H1. destruct (in_keys g HI _ _ Ht) as [Hkey _]. pose proof Hl as (Hk & Hid & _).
  replace (tn, tr_ConversationID t') with (tn, conv) in H1
    by (unfold key_of in Hkey, Hk; congruence).
  rewrite Ht, bool_decide_eq_true_2 in H1 by done.
  destruct H1 as [-> |[_ ->]]; [rewrite Hp; by apply (SlaInv_replace g _ t t')|].
  apply (SlaInv_lost g _ t t); [|done|by apply (in_keys g HI)|by apply (in_ok g HI _ _ Ht)].
  rewrite insert_id by done. by destruct g.
Qed.

Lemma OnFirstResponse_wp c conv at_ g :
  SlaInv g -> wp sla_contract (OnFirstResponse c conv at_) (fun _ g' => SlaInv g') g.
Proof.
  intros HI. unfold OnFirstResponse. sla_call r g1 H1. destruct H1 as [-> Hf].
  destruct r as [t|e]; [|done]. destruct (tr_FirstResponseAt t) eqn:Hfa; [done|].
  destruct (Hf t eq_refl) as (tn & Hreq & Ht). sla_call now g1 H1. destruct H1 as [_ ->].
  apply (update_tracking_wp c (cv_ID conv) t); [by apply SlaInv_now|by exists tn| |by destruct t|].
  - split; [done|]. split; [done|]. intros f. unfold recorded, leg_flags. cbn.
    case_bool_decide; [|done]. intros (Hw & [(He & Hb & Hr)|He]); [|by split; [|right]].
    split; [done|]. left. by rewrite Hb.
  - pose proof (in_ok g HI _ _ Ht) as Hok. unfold tracking_ok in *. cbn. destruct (tr_ResolvedAt t); [|done].
    destruct Hok as [[Hst Hb]|(Hst & Hr & Hb)]; [left|by right]. split; [done|].
    apply orb_true_iff in Hb as [->| ->]; [done|by rewrite !orb_true_r].
Qed.

Lemma OnResolved_wp c conv at_ g :
  SlaInv g -> wp sla_contract (OnResolved c conv at_) (fun _ g' => SlaInv g') g.
Proof.
  intros HI. unfold OnResolved. sla_call r g1 H1. destruct H1 as [-> Hf].
  destruct r as [t|e]; [|done]. destruct (tr_ResolvedAt t) eqn:Hra; [done|].
  destruct (Hf t eq_refl) as (tn & Hreq & Ht). cbn zeta. sla_call now g1 H1. destruct H1 as [_ ->].
  apply (update_tracking_wp c (cv_ID conv) t); [by apply SlaInv_now|by exists tn| |by destruct t|].
  - split; [done|]. split; [done|]. intros f. unfold recorded, leg_flags. cbn.
    case_bool_decide; [|case_bool_decide; [|done]];
      (intros (Hw & [(He & Hb & Hr)|He]); [split; [done|]; left; by rewrite Hb|by split; [|right]]).
  - unfold tracking_ok. cbn. unfold finalStatus. cbn. set (fb := _ || _ && _). set (rb := _ || after _ _).
    destruct (fb || rb) eqn:Hfl; [left|right]; [done|]. apply orb_false_iff in Hfl as [-> ->]. done.
Qed.

(** ** Histories *)

(** What the service is asked over time. *)
Inductive SlaOp :=
| SlaCreated (c : Ctx) (conv : Conversation) | SlaResponded (c : Ctx) (conv : Conversation) (at_ : Time)
| SlaResolved (c : Ctx) (conv : Conversation) (at_ : Time) | SlaCheck (c : Ctx).

(** Conversations have a tenant. *)
Definition op_tenanted (op : SlaOp) : Prop :=
  match op with SlaCreated _ conv => cv_TenantID conv <> "" | _ => True end.

Section Histories.
Context {S : Type} (h : handler Ctx SlaPort S) (view : S -> SlaView).
Context (order : list (string * list SLATracking) -> list (string * list SLATracking)).

Definition sla_op (s : S) (op : SlaOp) : S :=
  match op with
  | SlaCreated c conv => (run h (OnConversationCreated c conv) s).2
  | SlaResponded c conv at_ => (run h (OnFirstResponse c conv at_) s).2
  | SlaResolved c conv at_ => (run h (OnResolved c conv at_) s).2
  | SlaCheck c => (run h (RunCheck order c) s).2
  end.

Definition sla_history (ops : list SlaOp) (s : S) : S := fold_left sla_op ops s.

Context `{!SlaWorld h view} (Hord : forall l, order l ≡ₚ l).

Lemma run_inv {A} (m : SlM A) s :
  wp sla_contract m (fun _ g' => SlaInv g') (view s) -> SlaInv (view (run h m s).2).
Proof. intros Hw. pose proof (sla_run h view m _ s Hw) as Hr. by destruct (run h m s). Qed.

Lemma sla_history_inv ops s :
  Forall op_tenanted ops -> SlaInv (view s) -> SlaInv (view (sla_history ops s)).
Proof.
  intros Hops. revert s. unfold sla_history. induction Hops as [|op ops Hop _ IH]; intros s HI; cbn [fold_left]; [done|].
  apply IH. destruct op as [c conv|c conv at_|c conv at_|c]; cbn [sla_op]; apply run_inv.
  - by apply OnConversationCreated_wp.
  - by apply OnFirstResponse_wp.
  - by apply OnResolved_wp.
  - by apply RunCheck_wp.
Qed.
End Histories.

Lemma SlaInv_empty now : SlaInv (mkSlaView ∅ [] [] now).
Proof. split; cbn; [done|done|done|done|]. by intros n k ?%not_elem_of_nil. Qed.

(** A view of nothing yet. *)
Definition nothing_yet (g : SlaView) : Prop := sv_store g = ∅ /\ sv_fired g = [] /\ sv_lost g = [].

Lemma nothing_yet_inv g : nothing_yet g -> SlaInv g.
Proof. destruct g. intros (H1 & H2 & H3). cbn in *. subst. apply SlaInv_empty. Qed.

(** C25. Alerts fire once and on time. From a store without trackings, over any history of hooks (on
    conversations of a tenant) and checks, one after the other, any of whose calls may fail, and
    whatever the order the tenants are checked in: of each leg of a conversation at most one warning and one breach are
    published, never a warning after its breach, unless in between an update of the tracking failed
    without effect (the check drops that error after it fired); and each alert is recorded in the
    tracking, no earlier than the instant the tracking set for it, unless such a failure followed. *)
Theorem alerts_fire_once {S} (h : handler Ctx SlaPort S) (view : S -> SlaView) `{!SlaWorld h view}
    (order : list (string * list SLATracking) -> list (string * list SLATracking)) (ops : list SlaOp) (s0 : S) :
  (forall l, order l ≡ₚ l) -> Forall op_tenanted ops -> nothing_yet (view s0) ->
  let g := view (sla_history h order ops s0) in
  (forall i j x y, (i < j)%nat -> sv_fired g !! i = Some x -> sv_fired g !! j = Some y -> same_leg x y ->
     fi_Event x = RealtimeSLAWarning /\ fi_Event y = RealtimeSLABreached \/ lost_between i j (alert_key x) g) /\
  (forall i f, sv_fired g !! i = Some f ->
     (exists t, sv_store g !! alert_key f = Some t /\ recorded t f) \/ lost_after i (alert_key f) g).
Proof.
  intros Hord Hops Hno. cbv zeta.
  destruct (sla_history_inv h view order Hord ops s0 Hops (nothing_yet_inv _ Hno)) as [_ _ Hr Hs _]. split; [|done].
  intros i j x y Hij Hx Hy Hleg. destruct (Hs i j x y Hij Hx Hy) as [Hf|?]; [left; by apply Hf|by right].
Qed.

(** A tracking says what became of its conversation: after any history it is running
    exactly until the resolution, breached only with a breach recorded, and met without
    one, unless the first response came after the resolution and late (then it stays met). *)
Theorem trackings_stay_consistent {S} (h : handler Ctx SlaPort S) (view : S -> SlaView) `{!SlaWorld h view}
    (order : list (string * list SLATracking) -> list (string * list SLATracking)) (ops : list SlaOp) (s0 : S) :
  (forall l, order l ≡ₚ l) -> Forall op_tenanted ops -> nothing_yet (view s0) ->
  forall k t, sv_store (view (sla_history h order ops s0)) !! k = Some t -> k = key_of t /\ tracking_ok t.
Proof.
  intros Hord Hops Hno k t Ht.
  pose proof (sla_history_inv h view order Hord ops s0 Hops (nothing_yet_inv _ Hno)) as Hinv.
  split; [by apply (in_keys _ Hinv)|by apply (in_ok _ Hinv k)].
Qed.
