(* ===== verification/SlaClock.v ===== *)
(** * Service levels: clocks and races

    What the deadlines rely on, the business clock, and that domain/businesshours provides
    it; a world in memory; and the update a check may undo. *)
From S2P Require Import Prelude GoStrings AppError Authz Shared ConvEntity ConvContracts Prog Ports.
From S2P Require Import Calendar BusinessTime BusinessHours BusinessProps Sla SlaProps.

(** ** The business clock (domain/shared/businesshours.go)

    [add d]: the instant [d] of business time after [from], [limit] the largest addition
    the clock vouches for. *)
Class BusinessClock (from : Time) (limit : Z) (add : Z -> result Time) : Prop := {
  clock_uniform : (forall d, 0 < d -> is_ok (add d) = true) \/ (forall d, 0 < d -> is_ok (add d) = false);
  clock_forward : forall d t, 0 < d -> add d = Ok t -> from < t;
  clock_monotone : forall d1 d2 t1 t2,
    0 < d1 <= d2 -> d2 <= limit -> add d1 = Ok t1 -> add d2 = Ok t2 -> t1 <= t2;
}.

(** [NoopBusinessClock.AddBusinessDuration]. *)
Definition NoopAdd (from : Time) (d : Z) : result Time := Ok (from + d).

#[export] Instance noop_clock from limit : BusinessClock from limit (NoopAdd from).
Proof. split; [by left|..]; unfold NoopAdd; intros; simplify_eq; lia. Qed.

(** The answer of the business-hours service from a state of its world. *)
Definition hours_add {S} (h : handler Ctx HoursPort S) (LoadLocation : string -> option Location)
    (c : Ctx) (channelID : string) (s : S) (from : Time) (d : Z) : result Time :=
  (run h (AddBusinessDuration LoadLocation c channelID from d) s).1.

(** C28. For a caller with a tenant and a channel with configured, validated hours, in a zone whose
    offset does not change from shortly before the start on, the business-hours service is a business
    clock: it answers, additions go forward, and larger ones go at least as far, up to the open time
    of the eleven years ahead. Where clocks skip midnight it is none:
    [midnight_gap_breaks_business_time] adds two hours and lands before the start. *)
Theorem business_hours_are_a_clock {S} (h : handler Ctx HoursPort S)
    (LoadLocation : string -> option Location) (c : Ctx) (channelID tenant : string) (s s' : S)
    (r : resolved) (from : Time) :
  RequireTenant c = Ok tenant -> run h (resolve LoadLocation c channelID) s = (Ok r, s') ->
  sc_Configured (re_sched r) = true -> sched_ok (re_sched r) -> steady_since r from ->
  BusinessClock from (measure (open_at r) from (from + horizon)) (hours_add h LoadLocation c channelID s from).
Proof.
  intros Ht Hr Hc Hok (off & lo & Hst & Hlo).
  destruct (first_day r off lo Hst from Hlo) as [Hin Hlate].
  pose proof (horizon_reached r off lo Hst from Hlo) as Hh.
  assert (0 <= horizon) as Hh0 by done.
  pose proof (fun d => add_walk_spec r off lo Hst Hc Hok (Z.to_nat maxDaysWalk) _ from d Hlate Hin) as Hw.
  set (E := day_start off (local_days (re_loc r) from + Z.of_nat (Z.to_nat maxDaysWalk))) in *.
  assert (forall d, 0 < d -> hours_add h LoadLocation c channelID s from d =
    Ok (default (from + d) (add_walk r (Z.to_nat maxDaysWalk) from d))) as Hadd.
  { intros d Hd. unfold hours_add. by rewrite (run_Add h LoadLocation c channelID s s' r tenant). }
  clearbody E. generalize dependent (Z.to_nat maxDaysWalk). intros fuel Hw Hadd. split.
  - left. intros d Hd. rewrite Hadd by done. reflexivity.
  - intros d t Hd. rewrite Hadd by done. intros [= <-]. specialize (Hw d Hd).
    destruct (add_walk r _ from d) as [t|]; cbn; [lia|lia].
  - intros d1 d2 t1 t2 [Hd1 Hd12] Hlim. rewrite !Hadd by lia. intros [= <-] [= <-].
    pose proof (Hw d1 Hd1) as Hw1. pose proof (Hw d2 ltac:(lia)) as Hw2.
    pose proof (measure_mono (open_at r) from (from + horizon) E ltac:(lia)) as HE.
    destruct (add_walk r _ from d1) as [t1|]; [|rewrite Z.max_r in Hw1 by lia; lia].
    destruct (add_walk r _ from d2) as [t2|]; [|rewrite Z.max_r in Hw2 by lia; lia].
    cbn. destruct Hw1 as (Ht1 & Hm1 & Ho1), Hw2 as (Ht2 & Hm2 & Ho2).
    destruct (Z.le_gt_cases t1 t2) as [|Hgt]; [done|].
    pose proof (measure_next (open_at r) from (t1 - 1) ltac:(lia)) as Hn. rewrite Ho1 in Hn.
    replace (t1 - 1 + 1) with t1 in Hn by lia.
    pose proof (measure_mono (open_at r) from t2 (t1 - 1) ltac:(lia)). lia.
Qed.

Lemma business_hours_are_a_clock_witness :
  BusinessClock (HoursMemory.utc 2025 12 24 20 0)
    (measure (open_at weekdays_resolved) (HoursMemory.utc 2025 12 24 20 0) (HoursMemory.utc 2025 12 24 20 0 + horizon))
    (hours_add HoursMemory.handle HoursMemory.zones HoursMemory.ctx "c" HoursMemory.world
       (HoursMemory.utc 2025 12 24 20 0)).
Proof.
  apply (business_hours_are_a_clock HoursMemory.handle HoursMemory.zones HoursMemory.ctx "c" "acme"
           HoursMemory.world HoursMemory.world weekdays_resolved);
    [reflexivity|by vm_compute|by vm_compute|exact weekdays_ok|apply weekdays_steady].
Defined.

(** ** Deadlines *)

Section Deadlines.
Context (limit : Z) (Hlimit : 0 <= limit < 2 ^ 63) (add : string -> Time -> Z -> result Time).
Context (Hclock : forall ch from, BusinessClock from limit (add ch from)).

(** A threshold between 1 and 99, as the policy service stores; targets the clock vouches for. *)
Definition policy_ok (p : SLAPolicy) : Prop :=
  1 <= sp_WarningThresholdPct p <= 99 /\
  sp_FirstResponseTargetSec p * Second <= limit /\ sp_ResolutionTargetSec p * Second <= limit.

Definition leg_ordered (start : Time) (warn due : option Time) : Prop :=
  match due with
  | None => warn = None
  | Some d => start < d /\ match warn with Some w => start < w <= d | None => True end
  end.

Definition deadlines_ordered (t : SLATracking) : Prop :=
  exists start, leg_ordered start (tr_FirstResponseWarnAt t) (tr_FirstResponseDueAt t) /\
                leg_ordered start (tr_ResolutionWarnAt t) (tr_ResolutionDueAt t).

Definition deadline_pre (R : Type) (c : Ctx) (e : SlaPort R) (g : unit) : Prop :=
  match e with TrackCreate t => deadlines_ordered t | _ => True end.

Definition deadline_post (R : Type) (c : Ctx) (e : SlaPort R) (g : unit) (r : R) (g' : unit) : Prop :=
  match e in SlaPort R return R -> Prop with
  | AddBusiness ch from d => fun r => r = add ch from d
  | PolicyListEnabled => fun r => forall l, r = Ok l -> Forall policy_ok l
  | _ => fun _ => True
  end r.

(** The instant a target gives: that of the clock, or the wall clock's. *)
Definition due_of (ch : string) (from : Time) (target : Z) (biz : bool) : option Time :=
  if target <=? 0 then None
  else if biz then Some (match add ch from (target * Second) with Ok t => t | Err _ => from + target * Second end)
  else Some (from + target * Second).

Lemma computeDue_is c ch from target biz g :
  target * Second <= limit ->
  wp (pre_post deadline_pre deadline_post) (computeDue c ch from target biz)
    (fun r _ => r = due_of ch from target biz) g.
Proof.
  intros Ht. unfold computeDue, due_of. destruct (Z.leb_spec target 0); [done|].
  rewrite wrap64_id by (unfold in_int64, Second in *; lia).
  destruct biz; [|done]. split; [done|]. intros r [] ->. cbn. by destruct (add ch from (target * Second)).
Qed.

Lemma pct_range target percent :
  0 < target -> target * Second <= limit -> 1 <= percent <= 99 -> 0 <= pct target percent <= target.
Proof.
  intros Ht Hl Hp. unfold pct. destruct (Z.leb_spec target 0); [lia|].
  rewrite wrap64_id by (unfold in_int64, Second in *; nia).
  rewrite Z.quot_div_nonneg by nia. split; [apply Z.div_pos; nia|].
  apply Z.div_le_upper_bound; nia.
Qed.

Lemma leg_is_ordered ch from target percent biz :
  target * Second <= limit -> 1 <= percent <= 99 ->
  leg_ordered from (due_of ch from (pct target percent) biz) (due_of ch from target biz).
Proof.
  intros Hl Hp. unfold leg_ordered. destruct (Z.leb_spec target 0) as [Hle|Hgt].
  - unfold due_of. rewrite (proj2 (Z.leb_le target 0)) by done.
    assert (pct target percent = 0) as -> by (unfold pct; by rewrite (proj2 (Z.leb_le target 0))). done.
  - pose proof (pct_range target percent Hgt Hl Hp) as Hpct. unfold due_of.
    destruct (Z.leb_spec target 0); [lia|]. specialize (Hclock ch from).
    set (w := pct target percent) in *. clearbody w.
    assert (0 < target * Second) as Hpos by (unfold Second in *; lia).
    destruct biz; [|split; [lia|]; destruct (Z.leb_spec w 0); [done|]; unfold Second; lia].
    destruct (add ch from (target * Second)) as [td|ed] eqn:Hd.
    + split; [by apply (clock_forward (target * Second))|]. destruct (Z.leb_spec w 0); [done|].
      assert (0 < w * Second <= target * Second) as Hw by (unfold Second in *; lia).
      destruct (add ch from (w * Second)) as [tw|ew] eqn:Hwd.
      * split; [apply (clock_forward (w * Second)); [lia|done]|].
        apply (clock_monotone (w * Second) (target * Second)); done.
      * destruct clock_uniform as [Hu|Hu]; [specialize (Hu (w * Second)); rewrite Hwd in Hu|
          specialize (Hu (target * Second)); rewrite Hd in Hu]; by specialize (Hu ltac:(lia)).
    + split; [lia|]. destruct (Z.leb_spec w 0); [done|].
      assert (0 < w * Second <= target * Second) as Hw by (unfold Second in *; lia).
      destruct (add ch from (w * Second)) as [tw|ew] eqn:Hwd; [|lia].
      destruct clock_uniform as [Hu|Hu]; [specialize (Hu (target * Second)); rewrite Hd in Hu|
        specialize (Hu (w * Second)); rewrite Hwd in Hu]; by specialize (Hu ltac:(lia)).
Qed.

Lemma startTracking_ordered c conv policy :
  policy_ok policy ->
  wp (pre_post deadline_pre deadline_post) (startTracking c conv policy) (fun _ _ => True) tt.
Proof.
  intros (Hpct & Hfr & Hres). unfold startTracking. apply wp_bind; [apply _|].
  assert (forall target, target * Second <= limit ->
    pct target (sp_WarningThresholdPct policy) * Second <= limit) as Hpl.
  { intros target Ht. destruct (Z.le_gt_cases target 0).
    - unfold pct. rewrite (proj2 (Z.leb_le target 0)) by done. lia.
    - pose proof (pct_range target (sp_WarningThresholdPct policy)). unfold Second in *. lia. }
  assert (forall start, wp (pre_post deadline_pre deadline_post)
    (let bizOnly := sp_BusinessHoursOnly policy in
     let warnPct := sp_WarningThresholdPct policy in
     let due target := computeDue c (cv_ChannelID conv) start target bizOnly in
     let! tid := ask c SlNewID in
     let! frDue := due (sp_FirstResponseTargetSec policy) in
     let! frWarn := due (pct (sp_FirstResponseTargetSec policy) warnPct) in
     let! resDue := due (sp_ResolutionTargetSec policy) in
     let! resWarn := due (pct (sp_ResolutionTargetSec policy) warnPct) in
     let! created := ask c SlNow in
     let! updated := ask c SlNow in
     do! ask c (TrackCreate
       (mkTracking tid (cv_TenantID conv) (cv_ID conv) (sp_ID policy) (cv_SectorID conv)
          frDue frWarn resDue resWarn None None false false false false
          (sp_PauseOnWaitingCustomer policy) StatusRunning created updated)) in
     Ret tt) (fun _ _ => True) tt) as Hbody.
  { intros start. cbn zeta. split; [done|]. intros tid [] _. cbn [bind].
    do 4 (apply wp_bind; [apply _|]; eapply wp_mono; [apply _| |by apply computeDue_is, Hpl || by apply computeDue_is];
          intros ? [] ->).
    split; [done|]. intros created [] _. split; [done|]. intros updated [] _. split; [|done].
    exists start. split; by apply leg_is_ordered. }
  case_bool_decide; [|apply Hbody]. split; [done|]. intros r [] _. apply Hbody.
Qed.
End Deadlines.


Lemma selectPolicy_member policies conv p : selectPolicy policies conv = Some p -> p ∈ policies.
Proof.
  unfold selectPolicy. assert (forall best, (forall b, best = Some b -> b ∈ policies) ->
    forall l, l ⊆ policies -> foldl (better conv) best l = Some p -> p ∈ policies) as Hall.
  { intros best Hb l. revert best Hb. induction l as [|x l IH]; intros best Hb Hl; cbn [foldl]; [apply Hb|].
    apply IH; [|set_solver]. intros b. unfold better. case_match; [apply Hb|].
    destruct best as [b0|]; [|intros [= <-]; set_solver]. case_match; [intros [= <-]; set_solver|apply Hb]. }
  by apply (Hall None).
Qed.

(** Warnings precede deadlines: over a business clock, every tracking started has, for
    each leg with a target, its deadline after its start, and its warning, if any, between
    the two; a leg without a target has neither. *)
Theorem warnings_precede_deadlines (limit : Z) (add : string -> Time -> Z -> result Time)
    (Hclock : forall ch from, BusinessClock from limit (add ch from)) (c : Ctx) (conv : Conversation) :
  0 <= limit < 2 ^ 63 ->
  wp (pre_post deadline_pre (deadline_post limit add)) (OnConversationCreated c conv) (fun _ _ => True) tt.
Proof.
  intros Hlimit. unfold OnConversationCreated. split; [done|]. intros [t|e] [] _; [done|].
  split; [done|]. intros [policies|e'] [] Hp; [|done]. specialize (Hp policies eq_refl). cbn [bind].
  pose proof (selectPolicy_member policies conv) as Hsel.
  destruct (selectPolicy policies conv) as [policy|]; [|done].
  rewrite Forall_forall in Hp. destruct (Hp policy (Hsel policy eq_refl)) as (Hpct & Hfr & Hres).
  by apply startTracking_ordered.
Qed.

(** ** A world in memory *)

Module SlaMemory.
(** The view, the conversations and the policies; each reading of the clock takes [st_tick]; the
    next updates fail, without effect, as [st_fails] says. *)
Record State := mkState {
  st_view : SlaView; st_convs : list Conversation; st_policies : list SLAPolicy; st_tick : N;
  st_fails : list bool }.

Definition set_view (v : SlaView) (s : State) : State :=
  mkState v (st_convs s) (st_policies s) (st_tick s) (st_fails s).
Definition served (s : State) : State :=
  mkState (st_view s) (st_convs s) (st_policies s) (st_tick s) (tail (st_fails s)).
Definition not_found : error := NotFound "not found".

Definition running (s : State) : list SLATracking :=
  map snd (filter (fun kt => kt.1 = key_of kt.2 /\ tr_Status kt.2 = StatusRunning)
             (map_to_list (sv_store (st_view s)))).

Definition update (c : Ctx) (t : SLATracking) (s : State) : result unit * State :=
  match RequireTenant c with
  | Err e => (Err e, s)
  | Ok tn =>
      let m := sv_store (st_view s) in
      match m !! (tn, tr_ConversationID t) with
      | Some old =>
          if tr_ID old =! tr_ID t then
            if default false (head (st_fails s)) then
              (Err not_found, served (set_view (without_update (tn, tr_ConversationID t) (st_view s)) s))
            else
              (Ok tt, served (set_view
                 (with_store (<[(tn, tr_ConversationID t) := stored_progress old t]> m) (st_view s)) s))
          else (Err not_found, s)
      | None => (Err not_found, s)
      end
  end.

Definition publish (c : Ctx) (topic event : string) (a : Alert) (s : State) : State :=
  let tn := default "" (ctx_tenant c) in let g := st_view s in
  set_view (if topic =! TopicConversation tn (al_ConversationID a)
            then with_alert (mkFired tn (al_ConversationID a) (al_Leg a) event (sv_now g)) g
            else g) s.

Definition conv_handle {R} (e : ConvRepo R) (s : State) : R :=
  match e in ConvRepo R return R with
  | ConvFindByIDs ids => Ok (filter (fun conv => cv_ID conv ∈ ids) (st_convs s))
  | ConvCreate _ | ConvUpdate _ => Err not_found
  | ConvFindByID _ => Err not_found
  | ConvList _ _ _ | ConvListInactiveOpen _ _ => Err not_found
  | ConvUnreadCounts _ => Err not_found
  end.

Definition handle : handler Ctx SlaPort State := fun R c e s =>
  match e in SlaPort R return R * State with
  | SlNow => let g := st_view s in let now := sv_now g + Z.of_N (st_tick s) in
             (now, set_view (at_time now g) s)
  | SlNewID => ("sla1", s)
  | PolicyCreate _ | PolicyUpdate _ => (Ok tt, s)
  | PolicyDelete _ => (Ok tt, s)
  | PolicyFindByID _ => (Err not_found, s)
  | PolicyList _ => (Ok (st_policies s), s)
  | PolicyListEnabled => (Ok (st_policies s), s)
  | TrackCreate t =>
      let m := sv_store (st_view s) in
      match m !! key_of t with
      | Some _ => (Err not_found, s)
      | None => (Ok tt, set_view (with_store (<[key_of t := t]> m) (st_view s)) s)
      end
  | TrackUpdate t => update c t s
  | TrackFind conv =>
      (match RequireTenant c with
       | Ok tn => match sv_store (st_view s) !! (tn, conv) with Some t => Ok t | None => Err not_found end
       | Err e => Err e end, s)
  | TrackListAtRisk _ => (Ok (filter (fun t => AtRisk_ t = true) (running s)), s)
  | TrackListRunning _ => (Ok (running s), s)
  | SlConvs e => (conv_handle e s, s)
  | AddBusiness _ from d => (Ok (from + d), s)
  | SlPublish topic event a => (Ok tt, publish c topic event a s)
  | SlEmit _ _ _ _ => (tt, s)
  | SlNotify _ => (tt, s)
  end.
End SlaMemory.

Lemma running_spec s :
  NoDup (map key_of (SlaMemory.running s)) /\
  Forall (fun t => sv_store (SlaMemory.st_view s) !! key_of t = Some t /\ tr_Status t = StatusRunning)
    (SlaMemory.running s).
Proof.
  unfold SlaMemory.running. set (m := sv_store _). set (P := fun kt : _ * _ => _ /\ _).
  assert (forall l, Forall (fun kt => kt.1 = key_of kt.2) l -> map key_of (map snd l) = map fst l) as Hmap.
  { intros l Hl. rewrite map_map. induction Hl as [|kt l Hk _ IH]; [done|]. cbn. by rewrite IH, Hk. }
  split.
  - rewrite Hmap by (apply Forall_forall; by intros kt [[? _] _]%list_elem_of_filter).
    pose proof (NoDup_fst_map_to_list m) as Hnd. revert Hnd. generalize (map_to_list m). intros l.
    induction l as [|kt l IH]; intros Hnd; [constructor|]. cbn [fmap list_fmap] in Hnd.
    apply NoDup_cons in Hnd as [Hni Hnd]. rewrite filter_cons. destruct (decide (P kt)); [|by apply IH].
    cbn [map]. constructor; [|by apply IH]. intros Hin. apply Hni.
    apply list_elem_of_fmap in Hin as (x & Hx & Hxin). apply list_elem_of_fmap.
    exists x. split; [done|]. by apply list_elem_of_filter in Hxin as [_ ?].
  - apply Forall_map, Forall_forall. intros [k t] [[Hk Hst] Hin]%list_elem_of_filter. cbn in *.
    apply elem_of_map_to_list in Hin. by rewrite <- Hk.
Qed.

#[export] Instance sla_memory : SlaWorld SlaMemory.handle SlaMemory.st_view.
Proof.
  split. intros R c e s. destruct e; cbn; try done.
  - split; [|done]. lia.
  - destruct (sv_store _ !! key_of t) eqn:Hk; cbn; [by left|by right].
  - unfold SlaMemory.update. destruct (RequireTenant c) as [tn|]; [|done].
    destruct (sv_store (SlaMemory.st_view s) !! (tn, tr_ConversationID t)) as [old|] eqn:Ho; [|done].
    case_bool_decide; [|done]. destruct (default false _); [by right|by left].
  - split; [done|]. intros t. destruct (RequireTenant c) as [tn|]; [|done].
    destruct (sv_store _ !! (tn, conversationID)) eqn:Ho; [|done]. intros [= <-]. by exists tn.
  - split; [done|]. intros l [= <-]. apply running_spec.
Qed.

Section Scenario.
Import SlaMemory.

Definition sla_ctx : Ctx := WithTenant Background "acme".
Definition minutes (n : Z) : Time := n * Minute.

Definition sla_conv : Conversation :=
  mkConversation "c1" "acme" "k1" "whatsapp" "ch1" "s1" "" StatusNew "ana" PriorityNormal ""
    [] [] 0 None None 0 None 0 0 None.

(** A minute to respond, an hour to resolve, a warning at half. *)
Definition sla_policy : SLAPolicy :=
  mkPolicy "p1" "acme" "gold" [] "" "whatsapp" 60 3600 false 50 false true 0 0.

(** Each reading of the clock takes eight minutes. *)
Definition failing_world (fails : list bool) : State :=
  mkState (mkSlaView ∅ [] [] 0) [sla_conv] [sla_policy] (Z.to_N (minutes 8)) fails.
Definition sla_world : State := failing_world [].

Definition same_order (l : list (string * list SLATracking)) := l.

Definition an_hour : list SlaOp :=
  SlaCreated sla_ctx sla_conv :: repeat (SlaCheck Background) 7.

(** The update after the first alert is lost: that alert is published again. *)
Lemma alerts_fire_once_witness :
  let g := st_view (sla_history handle same_order an_hour (failing_world [true])) in
  (map (fun f => (fi_Leg f, fi_Event f, fi_At f)) (sv_fired g)
     = [("first_response", RealtimeSLABreached, minutes 24); ("first_response", RealtimeSLABreached, minutes 32);
        ("resolution", RealtimeSLAWarning, minutes 32); ("resolution", RealtimeSLABreached, minutes 64)] /\
   sv_lost g = [(1%nat, ("acme", "c1"))]) /\
  (forall i j x y, (i < j)%nat -> sv_fired g !! i = Some x -> sv_fired g !! j = Some y -> same_leg x y ->
     fi_Event x = RealtimeSLAWarning /\ fi_Event y = RealtimeSLABreached \/ lost_between i j (alert_key x) g).
Proof.
  cbv zeta. split; [split; by vm_compute|].
  apply (alerts_fire_once handle st_view same_order an_hour (failing_world [true])); [intros l; reflexivity| |done].
  unfold an_hour. repeat constructor. discriminate.
Defined.

(** Resolved in time without an answer, reopened, and answered late: met, yet flagged. *)
Definition late_answer : list SlaOp :=
  [SlaCreated sla_ctx sla_conv; SlaResolved sla_ctx sla_conv 1; SlaResponded sla_ctx sla_conv (minutes 30)].

Lemma trackings_stay_consistent_witness :
  exists t, sv_store (st_view (sla_history handle same_order late_answer sla_world)) !! ("acme", "c1") = Some t /\
    tr_Status t = StatusMet /\ tr_FirstResponseBreached t = true /\ tracking_ok t.
Proof.
  eexists. split; [by vm_compute|]. split; [done|]. split; [done|].
  eapply (trackings_stay_consistent handle st_view same_order late_answer sla_world _ _ _ ("acme", "c1")).
  by vm_compute.
  Unshelve. all: [> intros l; reflexivity|repeat constructor; discriminate|done].
Defined.

Lemma warnings_precede_deadlines_witness :
  wp (pre_post deadline_pre (deadline_post (2 ^ 62) (fun _ from => NoopAdd from)))
    (OnConversationCreated sla_ctx sla_conv) (fun _ _ => True) tt.
Proof.
  apply (warnings_precede_deadlines (2 ^ 62) (fun _ from => NoopAdd from)); [intros; apply noop_clock|lia].
Defined.
End Scenario.

(** ** A lost resolution *)

Definition tracked : SlaMemory.State :=
  (run SlaMemory.handle (OnConversationCreated sla_ctx sla_conv) sla_world).2.

(** The check and the hook of a resolution that happens after half an hour. *)
Definition check_and_resolve : list (SlM (result unit)) :=
  [RunCheck same_order Background; do! OnResolved sla_ctx sla_conv (minutes 30) in Ret (Ok tt)].

(** The check reads, the resolution is recorded, the check goes on. *)
Definition resolved_in_between : list nat := [0; 1; 1; 1]%nat ++ repeat 0%nat 20.

(** A resolution can be lost: the periodic check reads the running trackings, then
    evaluates and stores them whole; a resolution recorded in between is undone although
    both end well, and the tracking of the closed conversation runs on. One after the
    other, in either order, they leave it resolved. *)
Theorem resolution_may_be_lost :
  let '(p, s) := schedule SlaMemory.handle resolved_in_between check_and_resolve tracked in
  let '(p1, s1) := schedule SlaMemory.handle (repeat 0%nat 20 ++ repeat 1%nat 3) check_and_resolve tracked in
  let '(p2, s2) := schedule SlaMemory.handle (repeat 1%nat 3 ++ repeat 0%nat 20) check_and_resolve tracked in
  let status s := (fun t => (tr_Status t, tr_ResolvedAt t))
                    <$> sv_store (SlaMemory.st_view s) !! ("acme", "c1") in
  p = [Ret (Ok tt); Ret (Ok tt)] /\ p1 = p /\ p2 = p /\
  status s = Some (StatusRunning, None) /\
  status s1 = Some (StatusBreached, Some (minutes 30)) /\ status s2 = Some (StatusBreached, Some (minutes 30)).
Proof. vm_compute. by repeat split. Qed.
