(* ===== verification/Contacts.v ===== *)
(** * Contacts (domain/contacts)

    The Contact aggregate, the validation of its documents, phones, emails and channel
    identities, and the service that creates, edits and resolves contacts. *)
From S2P Require Import Prelude GoStrings AppError Authz Shared ConvEntity Prog Ports ConvBase.

(** ** The aggregate (entity/contact.go) *)

Record ChannelIdentity := mkChannelIdentity { ci_Channel : string; ci_ExternalID : string }.

#[export] Instance ChannelIdentity_eq_dec : EqDecision ChannelIdentity.
Proof. solve_decision. Defined.

Definition SupportedIdentityChannels : gset string :=
  {["whatsapp"; "telegram"; "instagram"; "messenger"; "webchat"; "sms"; "email"; "api"; "crm";
    "custom"]}.

Definition IsSupportedIdentityChannel (ch : string) : bool :=
  bool_decide (ch ∈ SupportedIdentityChannels).

Definition KindPerson : string := "person".
Definition KindGroup : string := "group".

Record Contact := mkContact {
  ct_ID : string; ct_TenantID : string; ct_Kind : string; ct_Name : string; ct_Phone : string;
  ct_Phones : list string; ct_Document : string; ct_Email : string;
  ct_Identities : list ChannelIdentity; ct_Tags : list string; ct_Notes : string;
  ct_AvatarAttachmentID : string; ct_CustomAttributes : list (string * value);
  ct_CreatedAt : Time; ct_UpdatedAt : Time }.

(** Assignments to the fields of a contact. *)
Definition set_ct_Kind v c := mkContact (ct_ID c) (ct_TenantID c) v (ct_Name c) (ct_Phone c)
  (ct_Phones c) (ct_Document c) (ct_Email c) (ct_Identities c) (ct_Tags c) (ct_Notes c)
  (ct_AvatarAttachmentID c) (ct_CustomAttributes c) (ct_CreatedAt c) (ct_UpdatedAt c).
Definition set_ct_Name v c := mkContact (ct_ID c) (ct_TenantID c) (ct_Kind c) v (ct_Phone c)
  (ct_Phones c) (ct_Document c) (ct_Email c) (ct_Identities c) (ct_Tags c) (ct_Notes c)
  (ct_AvatarAttachmentID c) (ct_CustomAttributes c) (ct_CreatedAt c) (ct_UpdatedAt c).
Definition set_ct_Document v c := mkContact (ct_ID c) (ct_TenantID c) (ct_Kind c) (ct_Name c)
  (ct_Phone c) (ct_Phones c) v (ct_Email c) (ct_Identities c) (ct_Tags c) (ct_Notes c)
  (ct_AvatarAttachmentID c) (ct_CustomAttributes c) (ct_CreatedAt c) (ct_UpdatedAt c).
Definition set_ct_Email v c := mkContact (ct_ID c) (ct_TenantID c) (ct_Kind c) (ct_Name c)
  (ct_Phone c) (ct_Phones c) (ct_Document c) v (ct_Identities c) (ct_Tags c) (ct_Notes c)
  (ct_AvatarAttachmentID c) (ct_CustomAttributes c) (ct_CreatedAt c) (ct_UpdatedAt c).
Definition set_ct_Identities v c := mkContact (ct_ID c) (ct_TenantID c) (ct_Kind c) (ct_Name c)
  (ct_Phone c) (ct_Phones c) (ct_Document c) (ct_Email c) v (ct_Tags c) (ct_Notes c)
  (ct_AvatarAttachmentID c) (ct_CustomAttributes c) (ct_CreatedAt c) (ct_UpdatedAt c).
Definition set_ct_Tags v c := mkContact (ct_ID c) (ct_TenantID c) (ct_Kind c) (ct_Name c)
  (ct_Phone c) (ct_Phones c) (ct_Document c) (ct_Email c) (ct_Identities c) v (ct_Notes c)
  (ct_AvatarAttachmentID c) (ct_CustomAttributes c) (ct_CreatedAt c) (ct_UpdatedAt c).
Definition set_ct_Notes v c := mkContact (ct_ID c) (ct_TenantID c) (ct_Kind c) (ct_Name c)
  (ct_Phone c) (ct_Phones c) (ct_Document c) (ct_Email c) (ct_Identities c) (ct_Tags c) v
  (ct_AvatarAttachmentID c) (ct_CustomAttributes c) (ct_CreatedAt c) (ct_UpdatedAt c).
Definition set_ct_Avatar v c := mkContact (ct_ID c) (ct_TenantID c) (ct_Kind c) (ct_Name c)
  (ct_Phone c) (ct_Phones c) (ct_Document c) (ct_Email c) (ct_Identities c) (ct_Tags c)
  (ct_Notes c) v (ct_CustomAttributes c) (ct_CreatedAt c) (ct_UpdatedAt c).
Definition set_ct_CustomAttributes v c := mkContact (ct_ID c) (ct_TenantID c) (ct_Kind c)
  (ct_Name c) (ct_Phone c) (ct_Phones c) (ct_Document c) (ct_Email c) (ct_Identities c)
  (ct_Tags c) (ct_Notes c) (ct_AvatarAttachmentID c) v (ct_CreatedAt c) (ct_UpdatedAt c).
Definition set_ct_UpdatedAt v c := mkContact (ct_ID c) (ct_TenantID c) (ct_Kind c) (ct_Name c)
  (ct_Phone c) (ct_Phones c) (ct_Document c) (ct_Email c) (ct_Identities c) (ct_Tags c)
  (ct_Notes c) (ct_AvatarAttachmentID c) (ct_CustomAttributes c) (ct_CreatedAt c) v.

(** [SetPhones]: the primary phone is the first of the list. *)
Definition SetPhones (phones : list string) (c : Contact) : Contact :=
  mkContact (ct_ID c) (ct_TenantID c) (ct_Kind c) (ct_Name c)
    (match phones with p :: _ => p | [] => "" end) phones (ct_Document c) (ct_Email c)
    (ct_Identities c) (ct_Tags c) (ct_Notes c) (ct_AvatarAttachmentID c) (ct_CustomAttributes c)
    (ct_CreatedAt c) (ct_UpdatedAt c).

Definition containsPhone (phones : list string) (phone : string) : bool :=
  existsb (fun p => p =! phone) phones.

Definition AddPhone (phone : string) (c : Contact) : Contact :=
  if phone =! "" then c
  else if containsPhone (ct_Phones c) phone then c
  else SetPhones (ct_Phones c ++ [phone]) c.

Definition IsGroup (c : Contact) : bool := ct_Kind c =! KindGroup.

Definition HasIdentity (channel externalID : string) (c : Contact) : bool :=
  existsb (fun i => (ci_Channel i =! channel) && (ci_ExternalID i =! externalID)) (ct_Identities c).

(** ** Contracts (contracts/commands.go, events.go) *)

Record ContactFilter := mkContactFilter {
  cf_Query : string; cf_Name : string; cf_Phone : string; cf_TagID : string }.

Record UpsertFromInbound := mkUpsert {
  ui_Channel : string; ui_ExternalID : string; ui_Name : string; ui_Phone : string;
  ui_Document : string }.

Record CreateContact := mkCreateContact {
  nc_Name : string; nc_Phones : list string; nc_Document : string; nc_Email : string;
  nc_ExternalIDs : list ChannelIdentity; nc_Tags : list string; nc_Notes : string;
  nc_AvatarAttachmentID : string }.

Record UpdateContact := mkUpdateContact {
  uc_Name : option string; uc_Phones : option (list string); uc_Document : option string;
  uc_Email : option string; uc_Tags : option (list string); uc_Notes : option string;
  uc_ExternalIDs : option (list ChannelIdentity); uc_AvatarAttachmentID : option string;
  uc_CustomAttributes : option (list (string * value)) }.

Definition EventContactCreated : string := "contact.created".
Definition EventContactUpdated : string := "contact.updated".

Record ContactPayload := mkContactPayload {
  ctp_ID : string; ctp_TenantID : string; ctp_Name : string; ctp_Phone : string;
  ctp_Phones : list string; ctp_Document : string; ctp_Email : string;
  ctp_Identities : list ChannelIdentity; ctp_Tags : list string; ctp_CreatedAt : Time;
  ctp_UpdatedAt : Time }.

Definition NewContactPayload (c : Contact) : ContactPayload :=
  mkContactPayload (ct_ID c) (ct_TenantID c) (ct_Name c) (ct_Phone c) (ct_Phones c)
    (ct_Document c) (ct_Email c) (ct_Identities c) (ct_Tags c) (ct_CreatedAt c) (ct_UpdatedAt c).

(** ** Validation (service/validation.go) *)

Definition is_digit (r : Z) : bool := in_range 48 57 r.

Definition digitsOnly (s : string) : string := of_bytes (map byte_of (filter (fun r => is_digit r = true) (runes s))).

Definition byte_len (s : string) : nat := length (bytes_of s).

(** [int(d[i]-'0')], in bytes; the callers keep [i] within [d]. *)
Definition byte_at (d : string) (i : nat) : Z :=
  match bytes_of d !! i with Some a => byte_val a | None => 0 end.
Definition digit_at (d : string) (i : nat) : Z := (byte_at d i - 48) mod 256.

Definition zsum (l : list Z) : Z := foldr Z.add 0 l.

Definition cpfDigit (d : string) (n : nat) (weight : Z) : Z :=
  let sum := zsum (map (fun i => digit_at d i * (weight - Z.of_nat i)) (seq 0 n)) in
  let r := Z.rem (sum * 10) 11 in
  if r =? 10 then 0 else r.

Definition cnpjWeights (n : nat) : list Z :=
  if (n =? 13)%nat then [6; 5; 4; 3; 2; 9; 8; 7; 6; 5; 4; 3; 2]
  else [5; 4; 3; 2; 9; 8; 7; 6; 5; 4; 3; 2].

Definition cnpjDigit (d : string) (n : nat) : Z :=
  let weights := cnpjWeights n in
  let sum := zsum (map (fun i => digit_at d i * nth i weights 0) (seq 0 n)) in
  let r := Z.rem sum 11 in
  if r <? 2 then 0 else 11 - r.

Definition allEqual (s : string) : bool :=
  forallb (fun i => byte_at s i =? byte_at s 0) (seq 1 (byte_len s - 1)) && (0 <? byte_len s)%nat.

Definition isValidCPF (d : string) : bool :=
  if negb (byte_len d =? 11)%nat || allEqual d then false
  else (cpfDigit d 9 10 =? digit_at d 9) && (cpfDigit d 10 11 =? digit_at d 10).

Definition isValidCNPJ (d : string) : bool :=
  if negb (byte_len d =? 14)%nat || allEqual d then false
  else (cnpjDigit d 12 =? digit_at d 12) && (cnpjDigit d 13 =? digit_at d 13).

Definition NormalizeDocument (raw : string) : string * bool :=
  let raw := trim_space raw in
  if raw =! "" then ("", true)
  else
    let d := digitsOnly raw in
    match byte_len d with
    | 11%nat => if isValidCPF d then (d, true) else ("", false)
    | 14%nat => if isValidCNPJ d then (d, true) else ("", false)
    | _ => ("", false)
    end.

(** [GenerateValidCPF]: [rng i] is the answer of the [i]-th [rng.Intn(10)]; the loop from
    draw [pos], with fuel for the rounds. *)
Definition cpf_base (rng : nat -> Z) (pos : nat) : string :=
  of_bytes (map (fun i => byte_of (48 + rng (pos + i)%nat)) (seq 0 9)).
Definition cpf_of_base (base : string) : string :=
  let ten := base +:+ of_bytes [byte_of (48 + cpfDigit base 9 10)] in
  ten +:+ of_bytes [byte_of (48 + cpfDigit ten 10 11)].

Fixpoint GenerateValidCPF (fuel : nat) (rng : nat -> Z) (pos : nat) : option string :=
  match fuel with
  | O => None
  | S fuel =>
      let out := cpf_of_base (cpf_base rng pos) in
      if negb (allEqual out) then Some out else GenerateValidCPF fuel rng (pos + 9)
  end.

(** The phonenumbers package. *)
Record PhoneLib := mkPhoneLib {
  pl_Num : Type;
  pl_Parse : string -> string -> result pl_Num;
  pl_IsValidNumber : pl_Num -> bool;
  pl_FormatE164 : pl_Num -> string }.

Definition defaultPhoneRegion : string := "BR".

Definition NormalizePhoneE164 (lib : PhoneLib) (raw : string) : string * bool :=
  let raw := trim_space raw in
  if raw =! "" then ("", false)
  else
    match pl_Parse lib raw defaultPhoneRegion with
    | Err _ => ("", false)
    | Ok num => if negb (pl_IsValidNumber lib num) then ("", false) else (pl_FormatE164 lib num, true)
    end.

(** [mail.ParseAddress(e)] succeeding with [e] itself as its address. Every other form of
    an address (a name, angle brackets, a quoted local part, a comment, inner spaces) is
    longer than the address it denotes, so what is left is [atom "@" atom] or
    [atom "@" "[" ip "]"]; [parse_ip] is [net.ParseIP(s) != nil]. *)
Definition isAtext (r : Z) : bool :=
  negb (bool_decide (r ∈ [40; 41; 60; 62; 91; 93; 58; 59; 64; 92; 44; 34]))
  && (in_range 33 126 r || (128 <=? r)).

(** [consumeAtom(dot = true, permissive = false)] on the whole of [s]. *)
Definition is_dot_atom (s : string) : bool :=
  (s <>! "")
  && forallb (fun c : Z * list Ascii.ascii =>
       negb ((c.1 =? rune_error) && (length c.2 =? 1)%nat) && isAtext c.1) (chunks s)
  && negb (has_prefix s ".") && negb (str_contains s "..")
  && negb (has_prefix (of_bytes (rev (bytes_of s))) ".").

Definition domain_literal (parse_ip : string -> bool) (s : string) : bool :=
  match bytes_of s, rev (bytes_of s) with
  | open :: rest, close :: _ =>
      Ascii.eqb open (byte_of 91) && Ascii.eqb close (byte_of 93) && (2 <=? byte_len s)%nat
      && parse_ip (of_bytes (take (length rest - 1) rest))
  | _, _ => false
  end.

Definition is_address (parse_ip : string -> bool) (e : string) : bool :=
  match split2_on (byte_of 64) e with
  | [local; domain] =>
      is_dot_atom local && (is_dot_atom domain || domain_literal parse_ip domain)
  | _ => false
  end.

Definition normalizeEmailStrict (lower : Z -> Z) (parse_ip : string -> bool) (raw : string)
  : string * bool :=
  let e := to_lower lower (trim_space raw) in
  if e =! "" then ("", true)
  else if is_address parse_ip e then (e, true) else ("", false).

Definition validIdentityChannel (lower : Z -> Z) (ch : string) : bool :=
  IsSupportedIdentityChannel (to_lower lower (trim_space ch)).

(** The field errors collected in a [map[string]any]. *)
Abbreviation details := (gmap string value).

Definition mergeDetails (dst src : details) : details := src ∪ dst.

Definition indexed (field : string) (i : nat) : string := field +:+ "[" +:+ show_nat i +:+ "]".

(** The loop of [normalizePhonesValidated], at position [i]. *)
Fixpoint phones_loop (lib : PhoneLib) (i : nat) (phones : list string) (out : list string)
    (seen : gset string) (errs : details) : list string * details :=
  match phones with
  | [] => (out, errs)
  | p :: phones =>
      if blank p then phones_loop lib (S i) phones out seen errs
      else
        match NormalizePhoneE164 lib p with
        | (_, false) =>
            phones_loop lib (S i) phones out seen
              (<[indexed "phones" i := VStr "is not a valid phone number"]> errs)
        | (e164, true) =>
            if bool_decide (e164 ∈ seen) then phones_loop lib (S i) phones out seen errs
            else phones_loop lib (S i) phones (out ++ [e164]) ({[e164]} ∪ seen) errs
        end
  end.

Definition normalizePhonesValidated (lib : PhoneLib) (phones : list string) : list string * details :=
  phones_loop lib 0 phones [] ∅ ∅.

(** The key of an identity already seen: a NUL byte between its parts. *)
Definition identity_key (ch ex : string) : string := ch +:+ String (byte_of 0) ex.

Fixpoint identities_loop (lower : Z -> Z) (i : nat) (ids : list ChannelIdentity)
    (out : list ChannelIdentity) (seen : gset string) (errs : details)
  : list ChannelIdentity * details :=
  match ids with
  | [] => (out, errs)
  | x :: ids =>
      let ch := to_lower lower (trim_space (ci_Channel x)) in
      let ex := trim_space (ci_ExternalID x) in
      if (ch <>! "") && negb (validIdentityChannel lower ch) then
        identities_loop lower (S i) ids out seen
          (<[indexed "external_ids" i +:+ ".channel" := VStr "is not a supported channel"]> errs)
      else if (ch =! "") || (ex =! "") then identities_loop lower (S i) ids out seen errs
      else if bool_decide (identity_key ch ex ∈ seen) then identities_loop lower (S i) ids out seen errs
      else identities_loop lower (S i) ids (out ++ [mkChannelIdentity ch ex])
             ({[identity_key ch ex]} ∪ seen) errs
  end.

Definition normalizeIdentitiesValidated (lower : Z -> Z) (ids : list ChannelIdentity)
  : list ChannelIdentity * details :=
  identities_loop lower 0 ids [] ∅ ∅.

(** [normalizePhone]: digits, and a leading plus sign. *)
Definition normalizePhone (phone : string) : string :=
  let phone := trim_space phone in
  if phone =! "" then ""
  else
    let kept (c : nat * Z) := is_digit c.2 || ((c.2 =? 43) && (c.1 =? 0)%nat) in
    of_bytes (map (fun c => byte_of c.2)
                (filter (fun c => kept c = true) (imap (fun i r => (i, r)) (runes phone)))).

Definition cleanList (items : list string) : list string :=
  filter (fun t => t <> "") (map trim_space items).

(** ** The service (service/contact_service.go) *)

(** Its dependencies. [VContactRepo] is [repository.ContactRepository]; the audit entry and
    the webhook event are built by the service. *)
Inductive ContactPort : Type -> Type :=
| CtNow : ContactPort Time
| CtNewID : ContactPort string
| ContactCreate (c : Contact) : ContactPort (result unit)
| ContactUpdate (c : Contact) : ContactPort (result unit)
| ContactFindByID (id : string) : ContactPort (result Contact)
| ContactFindByIDs (ids : list string) : ContactPort (result (list Contact))
| FindByChannelIdentity (channel externalID : string) : ContactPort (result Contact)
| FindByDocument (document : string) : ContactPort (result Contact)
| FindByPhone (phone : string) : ContactPort (result Contact)
| ContactList (f : ContactFilter) (p : PageRequest) : ContactPort (result (list Contact))
| CtAudit (e : AuditEntry) : ContactPort (result unit)
| CtEmit (tenantID event sectorID : string) (p : ContactPayload) : ContactPort unit
| CtResolveTags (refs : list string) (strict : bool) : ContactPort (result (list string))
| ValidateReadyImage (attachmentID : string) : ContactPort (result unit)
| SignedAvatarURLs (ids : list string) : ContactPort (result (gmap string string))
| CtValidateCustomAttributes (appliesTo : string) (attrs : list (string * value))
    : ContactPort (result unit).

#[export] Instance contact_own : Embed ContactPort ContactPort := fun R e => e.

Abbreviation CtM := (prog Ctx ContactPort).

(** Which optional dependencies are wired, and the libraries: the case mapping of
    [unicode], [net.ParseIP] and phonenumbers. *)
Record ContactService := mkContactService {
  cs_tags : bool; cs_avatars : bool; cs_avatarURLs : bool;
  cs_lower : Z -> Z; cs_parse_ip : string -> bool; cs_phones : PhoneLib }.

Section Service.
Context (s : ContactService).

Definition AvatarURLs (c : Ctx) (attachmentIDs : list string) : CtM (result (gmap string string)) :=
  if negb (cs_avatarURLs s) || (length attachmentIDs =? 0)%nat then Ret (Ok ∅)
  else ask c (SignedAvatarURLs attachmentIDs).

Definition ContactCards (c : Ctx) (contactIDs : list string)
  : CtM (result (gmap string DisplayCard)) :=
  if (length contactIDs =? 0)%nat then Ret (Ok ∅)
  else
    try! contacts := ask c (ContactFindByIDs contactIDs) in
    let avatarIDs := filter (fun i => i <> "") (map ct_AvatarAttachmentID contacts) in
    let! urls := (if cs_avatarURLs s
                  then let! r := ask c (SignedAvatarURLs avatarIDs) in
                       Ret (match r with Ok m => m | Err _ => ∅ end)
                  else Ret (∅ : gmap string string)) in
    let card ct := mkCard (ct_Name ct) (default "" (urls !! ct_AvatarAttachmentID ct)) in
    Ret (Ok (foldl (fun out ct => <[ct_ID ct := card ct]> out) ∅ contacts)).

Definition details_of (e : error) : details := default ∅ (err_details (From e)).

Definition validateAvatar (c : Ctx) (attachmentID : string) (v : details) : CtM details :=
  if negb (cs_avatars s) || blank attachmentID then Ret v
  else
    let! r := ask c (ValidateReadyImage attachmentID) in
    Ret (match r with Ok _ => v | Err e => mergeDetails v (details_of e) end).

Definition normalizeTags (c : Ctx) (tags : list string) : CtM (list string) :=
  let out := cleanList tags in
  if negb (cs_tags s) || (length out =? 0)%nat then Ret out
  else
    let! r := ask c (CtResolveTags out false) in
    Ret (match r with Ok resolved => resolved | Err _ => out end).

Definition Get (c : Ctx) (id : string) : CtM (result Contact) :=
  try! _ := Ret (RequireTenant c) in
  ask c (ContactFindByID id).

Definition List_ (c : Ctx) (f : ContactFilter) (p : PageRequest) : CtM (result (list Contact)) :=
  try! _ := Ret (RequireTenant c) in
  ask c (ContactList f (Normalize p)).

(** What a lookup says of a value: taken by another contact, free, or unknown. *)
Definition taken_by_other (selfID : string) (r : result Contact) (taken : error) : option error :=
  match r with
  | Ok other => if ct_ID other <>! selfID then Some taken else None
  | Err e => if is_not_found e then None else Some e
  end.

Fixpoint check_phones (c : Ctx) (selfID : string) (phones : list string) : CtM (option error) :=
  match phones with
  | [] => Ret None
  | phone :: phones =>
      let! r := ask c (FindByPhone phone) in
      match taken_by_other selfID r (Conflict "a contact with this phone already exists") with
      | Some e => Ret (Some e)
      | None => check_phones c selfID phones
      end
  end.

Definition checkDuplicate (c : Ctx) (selfID document : string) (phones : list string)
  : CtM (option error) :=
  let! taken := (if document <>! "" then
      let! r := ask c (FindByDocument document) in
      Ret (taken_by_other selfID r (Conflict "a contact with this document already exists"))
    else Ret None) in
  match taken with
  | Some e => Ret (Some e)
  | None => check_phones c selfID phones
  end.

Fixpoint checkIdentityUnique (c : Ctx) (selfID : string) (ids : list ChannelIdentity)
  : CtM (option error) :=
  match ids with
  | [] => Ret None
  | i :: ids =>
      let! r := ask c (FindByChannelIdentity (ci_Channel i) (ci_ExternalID i)) in
      match taken_by_other selfID r
              (WithDetails {["external_ids" :=
                 VStr (ci_Channel i +:+ ":" +:+ ci_ExternalID i +:+ " already in use")]}
               (Conflict "a contact with this channel identity already exists")) with
      | Some e => Ret (Some e)
      | None => checkIdentityUnique c selfID ids
      end
  end.

(** [if err := m; err != nil { return nil, err }]. *)
Definition unless_err {A} (m : CtM (option error)) (k : CtM (result A)) : CtM (result A) :=
  let! e := m in
  match e with Some e => Ret (Err e) | None => k end.

Definition invalid_contact (v : details) : error := WithDetails v (Validation "invalid contact").

(** [v[field] = msg] when the value is not [ok]. *)
Definition require_ok (ok : bool) (field msg : string) (v : details) : details :=
  if ok then v else <[field := VStr msg]> v.

Definition Create (c : Ctx) (cmd : CreateContact) : CtM (result Contact) :=
  try! tenantID := Ret (RequireTenant c) in
  let name := trim_space (nc_Name cmd) in
  let v := require_ok (name <>! "") "name" "is required" ∅ in
  let '(phones, perr) := normalizePhonesValidated (cs_phones s) (nc_Phones cmd) in
  let v := mergeDetails v perr in
  let '(document, docOK) := NormalizeDocument (nc_Document cmd) in
  let v := require_ok docOK "document" "is not a valid CPF or CNPJ" v in
  let '(email, emailOK) := normalizeEmailStrict (cs_lower s) (cs_parse_ip s) (nc_Email cmd) in
  let v := require_ok emailOK "email" "is not a valid email" v in
  let '(identities, ierr) := normalizeIdentitiesValidated (cs_lower s) (nc_ExternalIDs cmd) in
  let v := mergeDetails v ierr in
  let avatarID := trim_space (nc_AvatarAttachmentID cmd) in
  let! v := validateAvatar c avatarID v in
  if negb (bool_decide (v = ∅)) then Ret (Err (invalid_contact v))
  else
    unless_err (checkDuplicate c "" document phones) (
    unless_err (checkIdentityUnique c "" identities) (
    let! now := ask c CtNow in
    let! id := ask c CtNewID in
    let! tags := normalizeTags c (nc_Tags cmd) in
    let contact := SetPhones phones
      (mkContact id tenantID "" name "" [] document email identities tags
         (trim_space (nc_Notes cmd)) avatarID [] now now) in
    try! _ := ask c (ContactCreate contact) in
    do! ask c (CtAudit (mkAudit "contact.created" "contact" (ct_ID contact)
                          [("name", VStr (ct_Name contact))])) in
    do! ask c (CtEmit (ct_TenantID contact) EventContactCreated "" (NewContactPayload contact)) in
    Ret (Ok contact))).

(** The fields of [cmd] that are set: each is assigned to the contact, or adds to the errors. *)
Definition given {A B} (o : option A) (keep : B) (f : A -> B) : B :=
  match o with Some a => f a | None => keep end.

Definition edit_name (o : option string) (cv : Contact * details) : Contact * details :=
  given o cv (fun n =>
    let name := trim_space n in
    if name =! "" then (cv.1, <["name" := VStr "cannot be empty"]> cv.2)
    else (set_ct_Name name cv.1, cv.2)).

Definition edit_phones (o : option (list string)) (cv : Contact * details)
  : list string * (Contact * details) :=
  given o ([], cv) (fun phones =>
    let '(phones, perr) := normalizePhonesValidated (cs_phones s) phones in
    (phones, (cv.1, mergeDetails cv.2 perr))).

Definition edit_document (o : option string) (cv : Contact * details) : Contact * details :=
  given o cv (fun d =>
    match NormalizeDocument d with
    | (doc, true) => (set_ct_Document doc cv.1, cv.2)
    | (_, false) => (cv.1, <["document" := VStr "is not a valid CPF or CNPJ"]> cv.2)
    end).

Definition edit_email (o : option string) (cv : Contact * details) : Contact * details :=
  given o cv (fun m =>
    match normalizeEmailStrict (cs_lower s) (cs_parse_ip s) m with
    | (email, true) => (set_ct_Email email cv.1, cv.2)
    | (_, false) => (cv.1, <["email" := VStr "is not a valid email"]> cv.2)
    end).

Definition edit_tags (c : Ctx) (o : option (list string)) (cv : Contact * details)
  : CtM (Contact * details) :=
  given o (Ret cv) (fun tags =>
    let! tags := normalizeTags c tags in
    Ret (set_ct_Tags tags cv.1, cv.2)).

Definition edit_notes (o : option string) (cv : Contact * details) : Contact * details :=
  given o cv (fun n => (set_ct_Notes (trim_space n) cv.1, cv.2)).

Definition edit_identities (o : option (list ChannelIdentity)) (cv : Contact * details)
  : Contact * details :=
  given o cv (fun ids =>
    let '(identities, ierr) := normalizeIdentitiesValidated (cs_lower s) ids in
    (set_ct_Identities identities cv.1, mergeDetails cv.2 ierr)).

Definition edit_avatar (c : Ctx) (o : option string) (cv : Contact * details)
  : CtM (Contact * details) :=
  given o (Ret cv) (fun a =>
    let avatarID := trim_space a in
    let! v := validateAvatar c avatarID cv.2 in
    Ret (set_ct_Avatar avatarID cv.1, v)).

(** A validation error is a field error, any other one ends the update. *)
Definition edit_attributes (c : Ctx) (o : option (list (string * value))) (cv : Contact * details)
  : CtM (result (Contact * details)) :=
  given o (Ret (Ok cv)) (fun attrs =>
    let! r := ask c (CtValidateCustomAttributes "contact" attrs) in
    match r with
    | Ok _ => Ret (Ok (set_ct_CustomAttributes attrs cv.1, cv.2))
    | Err e =>
        if CodeOf e =! CodeValidation then Ret (Ok (cv.1, mergeDetails cv.2 (details_of e)))
        else Ret (Err e)
    end).

(** From the checks on to the end of [Update]. *)
Definition store_edited (c : Ctx) (contact : Contact) : CtM (result Contact) :=
  unless_err (checkDuplicate c (ct_ID contact) (ct_Document contact) (ct_Phones contact)) (
  unless_err (checkIdentityUnique c (ct_ID contact) (ct_Identities contact)) (
  let! now := ask c CtNow in
  let contact := set_ct_UpdatedAt now contact in
  try! _ := ask c (ContactUpdate contact) in
  do! ask c (CtAudit (mkAudit "contact.updated" "contact" (ct_ID contact) [])) in
  do! ask c (CtEmit (ct_TenantID contact) EventContactUpdated "" (NewContactPayload contact)) in
  Ret (Ok contact))).

(** [Update] from the contact it read. *)
Definition update_read (c : Ctx) (cmd : UpdateContact) (contact : Contact) : CtM (result Contact) :=
  let cv := edit_name (uc_Name cmd) (contact, ∅) in
  let '(newPhones, cv) := edit_phones (uc_Phones cmd) cv in
  let cv := edit_document (uc_Document cmd) cv in
  let cv := edit_email (uc_Email cmd) cv in
  let! cv := edit_tags c (uc_Tags cmd) cv in
  let cv := edit_notes (uc_Notes cmd) cv in
  let cv := edit_identities (uc_ExternalIDs cmd) cv in
  let! cv := edit_avatar c (uc_AvatarAttachmentID cmd) cv in
  try! cv := edit_attributes c (uc_CustomAttributes cmd) cv in
  if negb (bool_decide (cv.2 = ∅)) then Ret (Err (invalid_contact cv.2))
  else store_edited c (given (uc_Phones cmd) cv.1 (fun _ => SetPhones newPhones cv.1)).

Definition Update (c : Ctx) (id : string) (cmd : UpdateContact) : CtM (result Contact) :=
  try! _ := Ret (RequireTenant c) in
  try! contact := ask c (ContactFindByID id) in
  update_read c cmd contact.

Definition append_identity (ch ex : string) (contact : Contact) : Contact :=
  set_ct_Identities (ct_Identities contact ++ [mkChannelIdentity ch ex]) contact.

(** The write at the end of [AddChannelIdentity]. *)
Definition add_identity (c : Ctx) (ch ex : string) (contact : Contact) : CtM (result bool) :=
  let! now := ask c CtNow in
  let contact := set_ct_UpdatedAt now (append_identity ch ex contact) in
  try! _ := ask c (ContactUpdate contact) in
  do! ask c (CtAudit (mkAudit "contact.identity_updated" "contact" (ct_ID contact)
                        [("channel", VStr ch)])) in
  Ret (Ok true).

Definition AddChannelIdentity (c : Ctx) (contactID channel externalID : string)
  : CtM (result bool) :=
  try! _ := Ret (RequireTenant c) in
  let ch := to_lower (cs_lower s) (trim_space channel) in
  let ex := trim_space externalID in
  if blank contactID then Ret (Err (Validation "contact_id is required"))
  else if ex =! "" then Ret (Err (Validation "external_id is required"))
  else if (ch =! "") || negb (validIdentityChannel (cs_lower s) ch) then
    Ret (Err (WithDetails {["channel" := VStr "is not a supported channel"]}
                (Validation "unsupported channel")))
  else
    try! contact := ask c (ContactFindByID contactID) in
    if HasIdentity ch ex contact then Ret (Ok false)
    else
      let! other := ask c (FindByChannelIdentity ch ex) in
      match other with
      | Ok other =>
          if ct_ID other <>! ct_ID contact then Ret (Ok false) else add_identity c ch ex contact
      | Err ferr =>
          if is_not_found ferr then add_identity c ch ex contact else Ret (Err ferr)
      end.

(** The fields a message brings, each kept only when it is new and not empty, and whether
    one was. *)
Definition set_new (isnew : bool) (f : Contact -> Contact) (x : Contact * bool) : Contact * bool :=
  if isnew then (f x.1, true) else x.

Definition store_changed (c : Ctx) (now : Time) (x : Contact * bool) : CtM (result Contact) :=
  let '(existing, changed) := x in
  if changed : bool then
    let existing := set_ct_UpdatedAt now existing in
    try! _ := ask c (ContactUpdate existing) in
    do! ask c (CtEmit (ct_TenantID existing) EventContactUpdated "" (NewContactPayload existing)) in
    Ret (Ok existing)
  else Ret (Ok existing).

Definition store_new (c : Ctx) (contact : Contact) : CtM (result Contact) :=
  try! _ := ask c (ContactCreate contact) in
  do! ask c (CtEmit (ct_TenantID contact) EventContactCreated "" (NewContactPayload contact)) in
  Ret (Ok contact).

(** The assignments of [UpsertFromInbound] to a contact it found. *)
Definition merge_inbound (name phone document : string) (existing : Contact) : Contact * bool :=
  let x := set_new ((name <>! "") && (name <>! ct_Name existing)) (set_ct_Name name)
             (existing, false) in
  let x := set_new ((phone <>! "") && negb (containsPhone (ct_Phones x.1) phone)) (AddPhone phone) x in
  set_new ((document <>! "") && (document <>! ct_Document x.1)) (set_ct_Document document) x.

Definition UpsertFromInbound_ (c : Ctx) (cmd : UpsertFromInbound) : CtM (result Contact) :=
  try! tenantID := Ret (RequireTenant c) in
  let channel := trim_space (ui_Channel cmd) in
  let externalID := trim_space (ui_ExternalID cmd) in
  if (channel =! "") || (externalID =! "") then
    Ret (Err (Validation "channel and external id are required to identify a contact"))
  else
    let name := trim_space (ui_Name cmd) in
    let phone := normalizePhone (ui_Phone cmd) in
    let document := trim_space (ui_Document cmd) in
    let! now := ask c CtNow in
    let! existing := ask c (FindByChannelIdentity channel externalID) in
    match existing with
    | Ok existing => store_changed c now (merge_inbound name phone document existing)
    | Err err =>
        if negb (is_not_found err) then Ret (Err err)
        else
          let! id := ask c CtNewID in
          let contact := mkContact id tenantID "" name "" [] document ""
            [mkChannelIdentity channel externalID] [] "" "" [] now now in
          store_new c (if phone <>! "" then SetPhones [phone] contact else contact)
    end.

Definition merge_group (channel groupJID name description : string) (existing : Contact)
  : Contact * bool :=
  let x := set_new (ct_Kind existing <>! KindGroup) (set_ct_Kind KindGroup) (existing, false) in
  let x := set_new (negb (HasIdentity channel groupJID x.1)) (append_identity channel groupJID) x in
  let x := set_new ((name <>! "") && (name <>! ct_Name x.1)) (set_ct_Name name) x in
  set_new ((description <>! "") && blank (ct_Notes x.1)) (set_ct_Notes description) x.

Definition UpsertGroupContact (c : Ctx) (channel groupJID name description : string)
  : CtM (result Contact) :=
  try! tenantID := Ret (RequireTenant c) in
  let channel := trim_space channel in
  let groupJID := trim_space groupJID in
  if (channel =! "") || (groupJID =! "") then
    Ret (Err (Validation "channel and group_jid are required to identify a group contact"))
  else
    let name := trim_space name in
    let description := trim_space description in
    let! now := ask c CtNow in
    let! existing := ask c (FindByChannelIdentity channel groupJID) in
    match existing with
    | Ok existing => store_changed c now (merge_group channel groupJID name description existing)
    | Err err =>
        if negb (is_not_found err) then Ret (Err err)
        else
          let! id := ask c CtNewID in
          store_new c (mkContact id tenantID KindGroup name "" [] "" ""
            [mkChannelIdentity channel groupJID] [] description "" [] now now)
    end.
End Service.

(** What the Mongo [Update] stores of [new] over [old]: its [$set] does not name the kind
    (repositories/contacts/contact_repository.go). *)
Definition stored_contact (old new : Contact) : Contact :=
  mkContact (ct_ID old) (ct_TenantID old) (ct_Kind old) (ct_Name new) (ct_Phone new)
    (ct_Phones new) (ct_Document new) (ct_Email new) (ct_Identities new) (ct_Tags new)
    (ct_Notes new) (ct_AvatarAttachmentID new) (ct_CustomAttributes new) (ct_CreatedAt old)
    (ct_UpdatedAt new).
