(* ===== verification/Search.v ===== *)
(** * Search (domain/search)

    Conversations are scoped by the index; contacts and messages are read in larger batches and
    filtered by what the actor may see. The index's queries over Mongo
    (infra/database/mongodb/repositories/search) follow the service. *)
From S2P Require Import Prelude GoStrings AppError Base64 Prog Authz Shared ConvEntity Queries Messages ConvContracts Ports ConvBase Sla.
From S2P Require Import Contacts.

(** ** Contracts (contracts/contracts.go) *)

(** [Visibility] is the record of the conversations' contracts. *)
Definition CanSee (v : Visibility) (conv : option Conversation) : bool :=
  if vis_All v then true
  else match conv with
       | None => false
       | Some conv =>
           ((cv_AssignedTo conv <>! "") && (cv_AssignedTo conv =! vis_UserID v))
           || existsb (fun s => (s <>! "") && (s =! cv_SectorID conv)) (vis_SectorIDs v)
       end.

Record ConversationFilter := mkConversationFilter {
  sf_Status : string; sf_SectorID : string; sf_AssignedTo : string; sf_Channel : string; sf_Tag : string;
  sf_Priority : string; sf_SLAStatus : string; sf_From : option Time; sf_To : option Time }.

Record MessageFilter := mkMessageFilter { mf_Query : string; mf_ConversationID : string }.

Record Result (T : Type) := mkResult { res_Items : list T; res_NextCursor : string }.
Arguments mkResult {T} _ _.
Arguments res_Items {T} _.
Arguments res_NextCursor {T} _.

(** ** The index (repository/) *)

Inductive SearchPort : Type -> Type :=
| SxConversations (f : ConversationFilter) (vis : Visibility) (page : PageRequest) : SearchPort (result (list Conversation))
| SxContactsText (query : string) (cur : Cursor) (scanLimit : Z) : SearchPort (result (list Contact))
| SxMessagesText (query conversationID : string) (cur : Cursor) (scanLimit : Z) : SearchPort (result (list Message))
| SxFindConversation (id : string) : SearchPort (result Conversation)
| SxHasVisible (contactID : string) (vis : Visibility) : SearchPort (result bool).

#[export] Instance search_own : Embed SearchPort SearchPort := fun R e => e.

Abbreviation SxM := (prog Ctx SearchPort).

(** ** The service (service/) *)

Definition maxScan : Z := 200.

(** How many candidates a page reads. *)
Definition scan_size (limit : Z) (allScope : bool) : Z :=
  if allScope then limit + 1
  else
    let scan := limit * 5 in
    let scan := if maxScan <? scan then maxScan else scan in
    if scan <? limit + 1 then limit + 1 else scan.

Section Filtered.
Context {T S : Type} (visible : S -> T -> SxM (bool * S)) (cursorOf : T -> Cursor).
Context (limit : Z) (scannedAll : bool) (raw : list T).

(** The loop over the candidates: [s] is what the predicate remembers. *)
Fixpoint keep (rest : list T) (kept : list T) (s : S) : SxM (list T * string) :=
  match rest with
  | [] =>
      match last raw with
      | Some x => if negb scannedAll then Ret (kept, Encode (cursorOf x)) else Ret (kept, "")
      | None => Ret (kept, "")
      end
  | item :: rest =>
      let! v := visible s item in
      if negb v.1 then keep rest kept v.2
      else
        let kept := kept ++ [item] in
        if Z.of_nat (length kept) =? limit then
          if (0 <? length rest)%nat || negb scannedAll then Ret (kept, Encode (cursorOf item))
          else Ret (kept, "")
        else keep rest kept v.2
  end.
End Filtered.

Definition filteredGeneric {T S} (page : PageRequest) (allScope : bool)
    (fetch : Z -> SxM (result (list T))) (visible : S -> T -> SxM (bool * S)) (s : S)
    (cursorOf : T -> Cursor) : SxM (result (Result T)) :=
  let limit := pr_Limit page in
  let scan := scan_size limit allScope in
  try! raw := fetch scan in
  let scannedAll := Z.of_nat (length raw) <? scan in
  let! r := keep visible cursorOf limit scannedAll raw raw [] s in
  Ret (Ok (mkResult r.1 r.2)).

Section Search.
Context (unmarshal : string -> result Cursor).

Definition visibility (c : Ctx) : result Visibility :=
  match RequireTenant c with
  | Err e => Err e
  | Ok _ =>
      match FromContext c with
      | None => Err (Unauthorized "authentication required")
      | Some ac => Ok (mkVisibility (ac_SectorScope ac =! ScopeAll) (ac_SectorIDs ac) (ac_UserID ac))
      end
  end.

Definition SearchConversations (c : Ctx) (f : ConversationFilter) (page : PageRequest)
  : SxM (result (Result Conversation)) :=
  try! vis := Ret (visibility c) in
  let page := Normalize page in
  try! items := ask c (SxConversations f vis page) in
  if pr_Limit page <? Z.of_nat (length items) then
    let items := take (Z.to_nat (pr_Limit page)) items in
    let next := match last items with
                | Some x => Encode (cursorOf cv_UpdatedAt cv_ID x)
                | None => ""
                end in
    Ret (Ok (mkResult items next))
  else Ret (Ok (mkResult items "")).

Definition contact_visible (c : Ctx) (vis : Visibility) (s : unit) (x : Contact) : SxM (bool * unit) :=
  if vis_All vis then Ret (true, s)
  else
    let! r := ask c (SxHasVisible (ct_ID x) vis) in
    Ret (match r with Ok b => b | Err _ => false end, s).

Definition SearchContacts (c : Ctx) (query : string) (page : PageRequest) : SxM (result (Result Contact)) :=
  try! vis := Ret (visibility c) in
  let page := Normalize page in
  try! cur := Ret (DecodeCursor unmarshal (pr_Cursor page)) in
  filteredGeneric page (vis_All vis) (fun scan => ask c (SxContactsText query cur scan))
    (contact_visible c vis) tt (cursorOf ct_CreatedAt ct_ID).

(** The conversations already looked up; one that cannot be read is not seen. *)
Definition message_visible (c : Ctx) (vis : Visibility) (cache : gmap string (option Conversation)) (m : Message)
  : SxM (bool * gmap string (option Conversation)) :=
  if vis_All vis then Ret (true, cache)
  else
    match cache !! ms_ConversationID m with
    | Some conv => Ret (CanSee vis conv, cache)
    | None =>
        let! r := ask c (SxFindConversation (ms_ConversationID m)) in
        let conv := match r with Ok conv => Some conv | Err _ => None end in
        Ret (CanSee vis conv, <[ms_ConversationID m := conv]> cache)
    end.

Definition SearchMessages (c : Ctx) (f : MessageFilter) (page : PageRequest) : SxM (result (Result Message)) :=
  try! vis := Ret (visibility c) in
  let page := Normalize page in
  try! cur := Ret (DecodeCursor unmarshal (pr_Cursor page)) in
  filteredGeneric page (vis_All vis) (fun scan => ask c (SxMessagesText (mf_Query f) (mf_ConversationID f) cur scan))
    (message_visible c vis) ∅ (cursorOf ms_CreatedAt ms_ID).
End Search.

(** ** The search index over Mongo (infra/database/mongodb/repositories/search)

    Its queries over the documents of the four collections, and the handler that answers the
    service with them. What a text index matches is an argument. *)

(** A stored message: what is read of it, and whether its document has the field [deleted_at].
    Create stores the whole message and leaves an absent time out; Update ($set) writes the field
    always, as null when the message is not deleted (conversations/message_repository.go). *)
Record MessageDoc := mkMessageDoc { md_Message : Message; md_HasDeletedAt : bool }.

Definition md_ID (d : MessageDoc) : string := ms_ID (md_Message d).
Definition md_CreatedAt (d : MessageDoc) : Time := ms_CreatedAt (md_Message d).

Definition created_doc (m : Message) : MessageDoc :=
  mkMessageDoc m match ms_DeletedAt m with Some _ => true | None => false end.

Definition updated_doc (m : Message) (d : MessageDoc) : MessageDoc :=
  let s := md_Message d in
  mkMessageDoc
    (mkMessage (ms_ID s) (ms_TenantID s) (ms_ConversationID s) (ms_SenderType s) (ms_SenderID s) (ms_Direction s)
       (ms_MessageType s) (ms_Text m) (ms_Attachments s) (ms_Template s) (ms_Contacts s) (ms_Location s)
       (ms_Interactive s) (ms_InteractiveReply s) (ms_GroupSender s) (ms_Metadata s) (ms_CreatedAt s)
       (ms_DeliveryStatus m) (ms_DeliveryError m) (ms_ExternalMessageID m) (ms_DeliveredAt m) (ms_ReadAt m)
       (ms_EditedAt m) (ms_DeletedAt m))
    true.

(** The documents after an update: the one it names. *)
Definition update_message (m : Message) (docs : list MessageDoc) : list MessageDoc :=
  map (fun d => if (md_ID d =! ms_ID m) && (ms_TenantID (md_Message d) =! ms_TenantID m) then updated_doc m d else d) docs.

(** The collections, each in the order of its sort: conversations by their last update, contacts
    and messages by their creation. *)
Record Corpus := mkCorpus {
  co_Conversations : list Conversation; co_Contacts : list Contact; co_Messages : list MessageDoc;
  co_Trackings : list SLATracking }.

(** ** What is read of a document (mappers.go) *)

Definition normalize (q : string) : string := trim_space q.

Definition toConversation (m : Conversation) : Conversation :=
  mkConversation (cv_ID m) (cv_TenantID m) (cv_ContactID m) (cv_Channel m) "" (cv_SectorID m) "" (cv_Status m)
    (cv_AssignedTo m) (cv_Priority m) "" (cv_Tags m) [] (cv_LastMessageAt m) None None 0 None
    (cv_CreatedAt m) (cv_UpdatedAt m) (cv_ClosedAt m).

Definition toContact (m : Contact) : Contact :=
  mkContact (ct_ID m) (ct_TenantID m) "" (ct_Name m) (ct_Phone m) [] (ct_Document m) "" (ct_Identities m) [] "" ""
    [] (ct_CreatedAt m) (ct_UpdatedAt m).

Definition toMessage (d : MessageDoc) : Message :=
  let m := md_Message d in
  mkMessage (ms_ID m) (ms_TenantID m) (ms_ConversationID m) (ms_SenderType m) (ms_SenderID m) (ms_Direction m)
    (ms_MessageType m) (ms_Text m) [] None [] None None None None [] (ms_CreatedAt m) "" "" "" None None None
    (ms_DeletedAt m).

(** ** Queries (index.go) *)

(** A list that is never empty: nothing has the identifier put there. *)
Definition never : string := of_bytes [byte_of 0].
Definition nonEmpty (l : list string) : list string :=
  let out := filter (fun s => s <> "") l in
  if (length out =? 0)%nat then [never] else out.

Definition scope_clause (vis : Visibility) (conv : Conversation) : bool :=
  vis_All vis || (cv_AssignedTo conv =! vis_UserID vis) || within (cv_SectorID conv) (nonEmpty (vis_SectorIDs vis)).

(** The trackings in a coarse state. *)
Definition tracking_clause (status : string) : option (SLATracking -> bool) :=
  if status =! "breached" then Some (fun t => tr_FirstResponseBreached t || tr_ResolutionBreached t)
  else if status =! "at_risk" then
    Some (fun t => (tr_FirstResponseWarned t || tr_ResolutionWarned t)
                   && negb (tr_FirstResponseBreached t) && negb (tr_ResolutionBreached t))
  else if status =! "met" then Some (fun t => tr_Status t =! "met")
  else if status =! "running" then Some (fun t => tr_Status t =! "running")
  else None.

Definition conversationIDsBySLA (trackings : list SLATracking) (tenantID status : string) : list string :=
  match tracking_clause status with
  | None => []
  | Some p =>
      filter (fun i => i <> "")
        (map tr_ConversationID (filter (fun t => (tr_TenantID t =! tenantID) && p t = true) trackings))
  end.

Definition time_clause (from to : option Time) (t : Time) : bool :=
  match from with Some f => f <=? t | None => true end && match to with Some u => t <=? u | None => true end.

Definition conversation_matches (co : Corpus) (tenantID : string) (f : ConversationFilter) (conv : Conversation) : bool :=
  (cv_TenantID conv =! tenantID) && clause (sf_Status f) (cv_Status conv) && clause (sf_SectorID f) (cv_SectorID conv)
  && clause (sf_AssignedTo f) (cv_AssignedTo conv) && clause (sf_Channel f) (cv_Channel conv)
  && ((sf_Tag f =! "") || within (sf_Tag f) (cv_Tags conv)) && clause (sf_Priority f) (cv_Priority conv)
  && time_clause (sf_From f) (sf_To f) (cv_CreatedAt conv)
  && ((sf_SLAStatus f =! "") || within (cv_ID conv) (conversationIDsBySLA (co_Trackings co) tenantID (sf_SLAStatus f))).
Definition conversation_clause (co : Corpus) (tenantID : string) (f : ConversationFilter) (vis : Visibility)
    (conv : Conversation) : bool :=
  conversation_matches co tenantID f conv && scope_clause vis conv.

Section Index.
Context (unmarshal : string -> result Cursor).
(** [$text]: the contacts and messages matching the words of a query. *)
Context (contact_matches : string -> Contact -> bool) (message_matches : string -> Message -> bool).
Context (co : Corpus).

Definition of_tenant {A} (c : Ctx) (f : string -> result A) : result A :=
  match RequireTenant c with Ok t => f t | Err e => Err e end.

Definition IndexConversations (c : Ctx) (f : ConversationFilter) (vis : Visibility) (page : PageRequest)
  : result (list Conversation) :=
  of_tenant c (fun t =>
    match DecodeCursor unmarshal (pr_Cursor page) with
    | Ok cur => Ok (map toConversation (find cv_UpdatedAt cv_ID (co_Conversations co)
                                          (conversation_clause co t f vis) cur (pr_Limit page + 1)))
    | Err e => Err e
    end).

Definition contact_clause (tenantID query : string) (x : Contact) : bool :=
  (ct_TenantID x =! tenantID) && ((normalize query =! "") || contact_matches (normalize query) x).

Definition SearchContactsText (c : Ctx) (query : string) (cur : Cursor) (scanLimit : Z) : result (list Contact) :=
  of_tenant c (fun t =>
    Ok (map toContact (find ct_CreatedAt ct_ID (co_Contacts co) (contact_clause t query) cur scanLimit))).

Definition message_clause (tenantID query conversationID : string) (d : MessageDoc) : bool :=
  let m := md_Message d in
  (ms_TenantID m =! tenantID) && negb (md_HasDeletedAt d)
  && clause conversationID (ms_ConversationID m)
  && ((normalize query =! "") || message_matches (normalize query) m).

Definition SearchMessagesText (c : Ctx) (query conversationID : string) (cur : Cursor) (scanLimit : Z)
  : result (list Message) :=
  of_tenant c (fun t =>
    Ok (map toMessage (find md_CreatedAt md_ID (co_Messages co) (message_clause t query conversationID) cur scanLimit))).

Definition FindConversation (c : Ctx) (id : string) : result Conversation :=
  of_tenant c (fun t =>
    match List.find (fun conv => (cv_ID conv =! id) && (cv_TenantID conv =! t)) (co_Conversations co) with
    | Some conv => Ok (toConversation conv)
    | None => not_found
    end).

Definition HasVisibleConversationForContact (c : Ctx) (contactID : string) (vis : Visibility) : result bool :=
  of_tenant c (fun t =>
    Ok (existsb (fun conv => (cv_TenantID conv =! t) && (cv_ContactID conv =! contactID) && scope_clause vis conv)
          (co_Conversations co))).

(** The index answering the service. *)
Definition index {R} (c : Ctx) (e : SearchPort R) : R :=
  match e in SearchPort R return R with
  | SxConversations f vis page => IndexConversations c f vis page
  | SxContactsText q cur n => SearchContactsText c q cur n
  | SxMessagesText q conv cur n => SearchMessagesText c q conv cur n
  | SxFindConversation id => FindConversation c id
  | SxHasVisible id vis => HasVisibleConversationForContact c id vis
  end.

Definition answering : @handler Ctx SearchPort unit := fun R c e s => (index c e, s).

(** What a search answers, and the search as a walk. *)
Definition answer {A} (m : SxM A) : A := (run answering m tt).1.

Definition next_of {T} (search : PageRequest -> SxM (result (Result T))) (limit : Z) (token : string)
  : result (list T * string) :=
  match answer (search (mkPage token limit)) with
  | Ok r => Ok (res_Items r, res_NextCursor r)
  | Err e => Err e
  end.

Lemma answer_bind {A B} (m : SxM A) (f : A -> SxM B) : answer (bind m f) = answer (f (answer m)).
Proof. unfold answer. rewrite run_bind. by destruct (run answering m tt) as [a []]. Qed.

Lemma answer_bind_ok {A B} (m : SxM (result A)) (f : A -> SxM (result B)) :
  answer (bind_ok m f) = match answer m with Ok a => answer (f a) | Err e => Err e end.
Proof. unfold bind_ok. rewrite answer_bind. by destruct (answer m). Qed.

Lemma answer_ask {R} c (e : SearchPort R) : answer (ask c e) = index c e.
Proof. reflexivity. Qed.
End Index.
