(* ===== verification/SearchProps.v ===== *)
(** * Search: what a walk through the results shows

    Whatever the pages asked for, the searches of messages and of contacts end, and together their
    pages are exactly the matches the actor may see, newest first, once each; a page may hold fewer
    than its limit, for candidates are read in bounded batches. *)
From S2P Require Import Prelude GoStrings AppError Base64 Prog Authz Shared ConvEntity Queries Messages ConvContracts Ports ConvBase Sla.
From S2P Require Import Contacts Search.

(** ** Reading through a projection *)

Section Projection.
Context {T U : Type} (stampT : T -> Time) (identT : T -> string) (stamp : U -> Time) (ident : U -> string) (proj : T -> U).
Hypothesis same_stamp : forall x, stamp (proj x) = stampT x.
Hypothesis same_ident : forall x, ident (proj x) = identT x.

Definition candidates (docs : list T) (base : T -> bool) : list U := map proj (filter (fun x => base x = true) docs).

Lemma filter_map_proj (P : U -> bool) l :
  filter (fun y => P y = true) (map proj l) = map proj (filter (fun x => P (proj x) = true) l).
Proof.
  induction l as [|x l IH]; [done|]. cbn [map]. rewrite !filter_cons. rewrite IH.
  by repeat case_decide.
Qed.

Lemma keyset_proj cur x : keyset stamp ident cur (proj x) = keyset stampT identT cur x.
Proof. unfold keyset. by rewrite same_stamp, same_ident. Qed.

(** A query read through the projection is a query of the candidates. *)
Lemma find_proj docs base cur n :
  map proj (find stampT identT docs base cur n) = find stamp ident (candidates docs base) (fun _ => true) cur n.
Proof.
  unfold find, candidates. rewrite <- firstn_map, filter_map_proj, list_filter_filter. f_equal. f_equal.
  apply list_filter_iff. intros x. unfold ApplyKeysetField. destruct (cur_ID cur =! ""); [tauto|].
  rewrite keyset_proj, andb_true_iff. cbn. tauto.
Qed.

Lemma listed_proj docs : listed stampT identT docs -> listed stamp ident (map proj docs).
Proof.
  intros [Hs Ht Hi]. split.
  - induction Hs as [|x l Hs IH Hx]; [constructor|]. inversion Ht; inversion Hi; subst. cbn. constructor; [by apply IH|].
    apply Forall_forall. intros y (z & -> & Hz)%list_elem_of_fmap. rewrite Forall_forall in Hx. specialize (Hx z Hz).
    unfold before in *. by rewrite !same_stamp, !same_ident.
  - apply Forall_forall. intros y (z & -> & Hz)%list_elem_of_fmap. rewrite Forall_forall in Ht. unfold stored_time.
    rewrite same_stamp. by apply Ht.
  - apply Forall_forall. intros y (z & -> & Hz)%list_elem_of_fmap. rewrite Forall_forall in Hi. rewrite same_ident. by apply Hi.
Qed.

Lemma listed_candidates docs base : listed stampT identT docs -> listed stamp ident (candidates docs base).
Proof. intros Hd. apply listed_proj, listed_filter, Hd. Qed.

Lemma readable_candidates unmarshal docs base :
  readable stampT identT unmarshal docs -> readable stamp ident unmarshal (candidates docs base).
Proof.
  intros Hr y (x & -> & [_ Hx]%list_elem_of_filter)%list_elem_of_fmap. unfold cursorOf.
  rewrite same_stamp, same_ident. by apply Hr.
Qed.
End Projection.

(** ** One page of filtered candidates *)

Section Filtered.
Context (unmarshal : string -> result Cursor).
Context (contact_matches : string -> Contact -> bool) (message_matches : string -> Message -> bool) (co : Corpus).
Abbreviation answer := (answer unmarshal contact_matches message_matches co).

Context {T S : Type} (stamp : T -> Time) (ident : T -> string) (cands : list T).
Context (visible : S -> T -> SxM (bool * S)) (I : S -> Prop) (vis : T -> bool).
Hypothesis visible_spec : forall s x, I s -> exists s', answer (visible s x) = (vis x, s') /\ I s'.

Abbreviation cursor_of := (cursorOf stamp ident).
Abbreviation seen := (filter (fun x => vis x = true)).

(** The loop stops at the limit, at the end of the batch, or has read everything. *)
Definition stops (limit : Z) (scannedAll : bool) (raw : list T) (r : list T * string) : Prop :=
  Z.of_nat (length r.1) <= limit /\
  (r.2 = "" /\ r.1 = seen raw /\ (scannedAll = true \/ raw = []) \/
   exists pre x post, raw = pre ++ x :: post /\ r.2 = Encode (cursor_of x) /\ r.1 = seen (pre ++ [x])).

Lemma keep_spec limit scannedAll raw rest done s :
  I s -> raw = done ++ rest -> Z.of_nat (length (seen done)) < limit ->
  stops limit scannedAll raw (answer (keep visible cursor_of limit scannedAll raw rest (seen done) s)).
Proof.
  revert done s. induction rest as [|x rest IH]; intros done s HI Hraw Hlen; cbn [keep].
  - rewrite app_nil_r in Hraw. subst done. destruct (last raw) as [x|] eqn:Hl.
    + apply last_Some in Hl as [pre ->]. destruct scannedAll; cbn.
      * split; [cbn; lia|]. left. auto.
      * split; [cbn; lia|]. right. by exists pre, x, [].
    + apply last_None in Hl as ->. split; [cbn in *; lia|]. left. auto.
  - rewrite answer_bind. destruct (visible_spec s x HI) as (s' & -> & HI'). cbn [fst snd].
    assert (seen (done ++ [x]) = seen done ++ (if vis x then [x] else [])) as Hsn.
    { rewrite filter_app, filter_cons. f_equal. destruct (vis x); [by rewrite decide_True|by rewrite decide_False]. }
    destruct (vis x) eqn:Hv; cbn [negb].
    + rewrite <- Hsn. assert (length (seen (done ++ [x])) = Datatypes.S (length (seen done))) as Hl by (rewrite Hsn, length_app; cbn; lia).
      destruct (Z.eqb_spec (Z.of_nat (length (seen (done ++ [x])))) limit) as [He|He].
      * destruct ((0 <? length rest)%nat || negb scannedAll) eqn:Hmore; cbn.
        -- split; [cbn; lia|]. right. by exists done, x, rest.
        -- apply orb_false_iff in Hmore as [Hr Hs]. destruct rest; [|done]. split; [cbn; lia|]. left.
           rewrite Hraw. destruct scannedAll; cbn in *; [auto|done].
      * apply IH; [done|by rewrite <- app_assoc|lia].
    + rewrite app_nil_r in Hsn. rewrite <- Hsn. apply IH; [done|by rewrite <- app_assoc|by rewrite Hsn].
Qed.

Lemma scan_size_positive limit all : 1 <= limit -> 1 <= scan_size limit all.
Proof. unfold scan_size, maxScan. intros H. destruct all; [lia|]. repeat case_match; lia. Qed.

Abbreviation remaining := (remaining stamp ident unmarshal cands (fun _ => true)).
Abbreviation on_the_way := (on_the_way stamp ident unmarshal cands (fun _ => true)).

(** One page of the search: what is left is shown, or an end of the candidates is left. *)
Lemma filtered_spec tok cur page all fetch s :
  listed stamp ident cands -> readable stamp ident unmarshal cands -> I s -> on_the_way tok ->
  DecodeCursor unmarshal tok = Ok cur -> 1 <= pr_Limit page ->
  (forall n, answer (fetch n) = Ok (find stamp ident cands (fun _ => true) cur n)) ->
  exists items tok', answer (filteredGeneric page all fetch visible s cursor_of) = Ok (mkResult items tok') /\
    Z.of_nat (length items) <= pr_Limit page /\
    (tok' = "" /\ items = seen (remaining tok) \/
     tok' <> "" /\ on_the_way tok' /\ seen (remaining tok) = items ++ seen (remaining tok') /\
     (length (remaining tok') < length (remaining tok))%nat).
Proof.
  intros Hd Hr HI [_ [shown Hshown]] Hcur Hlim Hfetch. unfold filteredGeneric.
  set (scan := scan_size (pr_Limit page) all). pose proof (scan_size_positive _ all Hlim) as Hscan. fold scan in Hscan.
  rewrite answer_bind_ok, Hfetch. unfold find. rewrite answer_bind.
  assert (remaining tok = filter (fun x => ApplyKeysetField stamp ident (fun _ => true) cur x = true) cands) as Hrem
    by (unfold Queries.remaining; by rewrite Hcur).
  rewrite <- Hrem. set (raw := take (Z.to_nat scan) (remaining tok)).
  set (sa := Z.of_nat (length raw) <? scan).
  pose proof (keep_spec (pr_Limit page) sa raw raw [] s HI eq_refl ltac:(cbn; lia)) as Hk.
  change (seen []) with (@nil T) in Hk.
  destruct (answer (keep visible cursor_of (pr_Limit page) sa raw raw [] s)) as [items tok'].
  destruct Hk as [Hl Hk]; cbn [fst snd] in *. exists items, tok'. split; [reflexivity|]. split; [done|].
  destruct Hk as [(-> & -> & Hend)|(pre & x & post & Hraw & -> & ->)]; [left|right].
  - split; [done|]. f_equal. unfold raw. apply take_ge. destruct Hend as [Hend|Hend].
    + unfold sa in Hend. apply Z.ltb_lt in Hend. unfold raw in Hend. rewrite length_take in Hend. lia.
    + unfold raw in Hend. apply (f_equal length) in Hend. rewrite length_take in Hend. cbn in Hend. lia.
  - assert (remaining tok = pre ++ x :: post ++ drop (Z.to_nat scan) (remaining tok)) as Hsplit.
    { rewrite <- (take_drop (Z.to_nat scan) (remaining tok)) at 1. fold raw. rewrite Hraw. by rewrite <- app_assoc. }
    rewrite Hsplit, app_assoc in Hshown.
    destruct (remaining_after _ _ _ _ _ _ _ _ Hd Hr Hshown) as [Hdec Hrest].
    split; [apply Encode_not_empty|]. rewrite Hrest. split; [|split].
    + split; [by rewrite Hdec|]. exists ((shown ++ pre) ++ [x]). rewrite Hrest, <- app_assoc. exact Hshown.
    + rewrite Hsplit at 1. rewrite <- filter_app, <- app_assoc. done.
    + apply (f_equal length) in Hsplit. rewrite length_app in Hsplit. cbn in Hsplit. lia.
Qed.

(** The walk through a search whose pages are such pages. *)
Lemma filtered_walk (next : string -> result (list T * string)) limit s all fetch n :
  listed stamp ident cands -> readable stamp ident unmarshal cands -> I s -> (length cands < n)%nat ->
  (forall tok cur n, DecodeCursor unmarshal tok = Ok cur ->
     answer (fetch cur n) = Ok (find stamp ident cands (fun _ => true) cur n)) ->
  (forall tok cur, DecodeCursor unmarshal tok = Ok cur ->
     next tok = match answer (filteredGeneric (mkPage tok (page_size limit)) all (fetch cur) visible s cursor_of) with
                | Ok r => Ok (res_Items r, res_NextCursor r)
                | Err e => Err e
                end) ->
  shows n limit next (seen cands).
Proof.
  intros Hd Hr HI Hn Hfetch Hnext.
  unfold shows. assert (remaining "" = cands) as Hall by (apply filter_everything, Forall_forall; done).
  replace (seen cands) with (seen (remaining "")) by (by rewrite Hall).
  apply (walk_covers next on_the_way (fun tok => seen (remaining tok)) (fun tok => length (remaining tok))).
  - intros tok Hg. pose proof Hg as [Hdec Hshown]. destruct (DecodeCursor unmarshal tok) as [cur|e] eqn:Hcur; [|done].
    destruct (filtered_spec tok cur (mkPage tok (page_size limit)) all (fetch cur) s Hd Hr HI) as (items & tok' & Ha & Hl & Hres);
      [done|done|apply page_size_positive| |].
    { intros m. by eapply Hfetch. }
    exists items, tok'. rewrite (Hnext _ _ Hcur), Ha. auto.
  - split; [done|]. exists []. rewrite Hall. apply filter_everything, Forall_forall. done.
  - rewrite Hall. lia.
Qed.
End Filtered.

(** ** The three searches *)

(** What the actor may see, as the inbox decides it ([ConvBase.visibleTo]): a message with its
    conversation, a contact with one of its conversations. *)
Definition message_seen (co : Corpus) (c : Ctx) (ac : AuthContext) (m : Message) : bool :=
  match FindConversation co c (ms_ConversationID m) with
  | Ok conv => visibleTo conv ac
  | Err _ => ac_SectorScope ac =! ScopeAll
  end.

Definition contact_seen (co : Corpus) (t : string) (ac : AuthContext) (x : Contact) : bool :=
  (ac_SectorScope ac =! ScopeAll)
  || existsb (fun conv => (cv_TenantID conv =! t) && (cv_ContactID conv =! ct_ID x) && visibleTo conv ac)
       (co_Conversations co).

(** The visibility of an actor. *)
Definition vis_of (ac : AuthContext) : Visibility :=
  mkVisibility (ac_SectorScope ac =! ScopeAll) (ac_SectorIDs ac) (ac_UserID ac).

Lemma CanSee_visibleTo ac conv : CanSee (vis_of ac) (Some conv) = visibleTo conv ac.
Proof.
  unfold CanSee, visibleTo, vis_of; cbn [vis_All vis_UserID vis_SectorIDs].
  destruct (ac_SectorScope ac =! ScopeAll); [done|].
  assert (forall l, existsb (fun s => (s <>! "") && (s =! cv_SectorID conv)) l
                    = existsb (fun sid => (sid =! cv_SectorID conv) && (sid <>! "")) l) as Hl
    by (induction l as [|x l IH]; [done|]; cbn; by rewrite IH, andb_comm).
  rewrite Hl. by destruct (_ && _).
Qed.

Lemma within_spec v l : within v l = true <-> v ∈ l.
Proof.
  unfold within. rewrite existsb_exists. split.
  - intros (x & Hx & He%bool_decide_eq_true). subst. by apply list_elem_of_In.
  - intros Hv. exists v. split; [by apply list_elem_of_In|]. by apply bool_decide_eq_true.
Qed.

Lemma nonEmpty_spec v l : v <> never -> v ∈ nonEmpty l <-> v ∈ l /\ v <> "".
Proof.
  intros Hv. unfold nonEmpty.
  assert (v ∈ filter (fun s => s <> "") l <-> v ∈ l /\ v <> "") as Hf by (rewrite list_elem_of_filter; tauto).
  rewrite <- Hf. destruct (filter (fun s => s <> "") l) as [|x xs] eqn:E; [|done]. cbn.
  rewrite list_elem_of_singleton. split; [done|]. intros H. inversion H.
Qed.

(** The clause of the index is the inbox's decision, of an actor with an identifier. *)
Lemma scope_clause_visibleTo ac conv :
  ac_UserID ac <> "" -> cv_SectorID conv <> never -> scope_clause (vis_of ac) conv = visibleTo conv ac.
Proof.
  intros Hu Hs. apply eq_true_iff_eq. unfold scope_clause, visibleTo, vis_of; cbn [vis_All vis_UserID vis_SectorIDs].
  destruct (ac_SectorScope ac =! ScopeAll); [done|]. cbn [orb].
  rewrite orb_true_iff, within_spec, nonEmpty_spec by done. rewrite bool_decide_eq_true.
  destruct (decide (cv_AssignedTo conv = ac_UserID ac)) as [He|He].
  - rewrite He, (bool_decide_false (ac_UserID ac = "")), (bool_decide_true (ac_UserID ac = ac_UserID ac)) by done.
    cbn. tauto.
  - rewrite (bool_decide_false (cv_AssignedTo conv = ac_UserID ac)), andb_false_r by done.
    rewrite existsb_exists. split.
    + intros [?|[Hin Hne]]; [done|]. exists (cv_SectorID conv). split; [by apply list_elem_of_In|].
      by rewrite bool_decide_true, bool_decide_false.
    + intros (x & Hx & [H1 H2]%andb_true_iff). apply bool_decide_eq_true in H1 as ->. right.
      split; [by apply list_elem_of_In|]. intros He'. by rewrite bool_decide_true in H2.
Qed.

Lemma visible_somewhere ac (p : Conversation -> bool) l :
  ac_UserID ac <> "" -> Forall (fun conv => cv_SectorID conv <> never) l ->
  existsb (fun conv => p conv && scope_clause (vis_of ac) conv) l = existsb (fun conv => p conv && visibleTo conv ac) l.
Proof.
  intros Hu. induction 1 as [|conv l Hs _ IH]; [done|]. cbn [existsb]. by rewrite IH, scope_clause_visibleTo.
Qed.

Lemma visible_filter ac (p : Conversation -> bool) l :
  ac_UserID ac <> "" -> Forall (fun conv => cv_SectorID conv <> never) l ->
  filter (fun conv => p conv && scope_clause (vis_of ac) conv = true) l = filter (fun conv => p conv && visibleTo conv ac = true) l.
Proof.
  intros Hu. induction 1 as [|conv l Hs _ IH]; [done|]. rewrite !filter_cons, IH, scope_clause_visibleTo by done.
  by repeat case_decide.
Qed.

Section Searches.
Context (unmarshal : string -> result Cursor).
Context (contact_matches : string -> Contact -> bool) (message_matches : string -> Message -> bool) (co : Corpus).
Context (c : Ctx) (t : string) (ac : AuthContext).
Hypothesis tenant : RequireTenant c = Ok t.
Hypothesis actor : FromContext c = Some ac.

Abbreviation answer := (answer unmarshal contact_matches message_matches co).

Lemma visibility_ok : Search.visibility c = Ok (vis_of ac).
Proof. unfold Search.visibility. by rewrite tenant, actor. Qed.

(** The cache of a search of messages holds what the index answers. *)
Definition cache_ok (cache : gmap string (option Conversation)) : Prop :=
  forall i conv, cache !! i = Some conv ->
    conv = match FindConversation co c i with Ok conv => Some conv | Err _ => None end.

Lemma message_visible_spec cache m :
  cache_ok cache ->
  exists cache', answer (message_visible c (vis_of ac) cache m) = (message_seen co c ac m, cache') /\ cache_ok cache'.
Proof.
  intros Hc. unfold message_visible, message_seen. cbn [vis_All vis_of].
  destruct (ac_SectorScope ac =! ScopeAll) eqn:Hall.
  - exists cache. split; [|done]. cbn. f_equal. destruct (FindConversation _ _ _); [|done]. unfold visibleTo. by rewrite Hall.
  - assert (forall r, CanSee (vis_of ac) (match r with Ok conv => Some conv | Err _ => None end)
                 = match r with Ok conv => visibleTo conv ac | Err _ => false end) as Hsee.
    { intros [conv|e]; [apply CanSee_visibleTo|]. unfold CanSee. cbn. by rewrite Hall. }
    destruct (cache !! ms_ConversationID m) as [conv|] eqn:Hm.
    + exists cache. split; [|done]. rewrite (Hc _ _ Hm). cbn. by rewrite Hsee.
    + cbn. rewrite Hsee. eexists. split; [reflexivity|]. intros i conv.
      destruct (decide (i = ms_ConversationID m)) as [->|Hne].
      * rewrite lookup_insert_eq. by intros [= <-].
      * rewrite lookup_insert_ne by done. apply Hc.
Qed.

Hypothesis identified : ac_UserID ac <> "".
Hypothesis sectors : Forall (fun conv => cv_SectorID conv <> never) (co_Conversations co).

Lemma contact_visible_spec (s : unit) x :
  exists s', answer (contact_visible c (vis_of ac) s x) = (contact_seen co t ac x, s') /\ True.
Proof.
  exists s. split; [|done]. unfold contact_visible, contact_seen. cbn [vis_All vis_of].
  destruct (ac_SectorScope ac =! ScopeAll) eqn:Hall; [done|]. cbn.
  unfold HasVisibleConversationForContact, of_tenant. rewrite tenant. f_equal.
  by apply visible_somewhere.
Qed.

Abbreviation next_of := (next_of unmarshal contact_matches message_matches co).

Lemma messages_walk f limit :
  listed md_CreatedAt md_ID (co_Messages co) -> readable md_CreatedAt md_ID unmarshal (co_Messages co) ->
  shows (S (length (co_Messages co))) limit (next_of (SearchMessages unmarshal c f) limit)
    (map toMessage (filter (fun m => message_clause message_matches t (mf_Query f) (mf_ConversationID f) m
                                     && message_seen co c ac (md_Message m) = true) (co_Messages co))).
Proof.
  intros Hd Hr. set (base := message_clause message_matches t (mf_Query f) (mf_ConversationID f)).
  replace (map toMessage _) with (filter (fun x => message_seen co c ac x = true) (candidates toMessage (co_Messages co) base)).
  - eapply (filtered_walk unmarshal contact_matches message_matches co ms_CreatedAt ms_ID _
              (message_visible c (vis_of ac)) cache_ok _ message_visible_spec _ limit ∅ _
              (fun cur n => ask c (SxMessagesText (mf_Query f) (mf_ConversationID f) cur n)));
      [by eapply listed_candidates|by eapply readable_candidates|done| | |].
    + unfold candidates. rewrite length_map. pose proof (length_filter (fun x => base x = true) (co_Messages co)). lia.
    + intros tok cur n _. rewrite answer_ask. cbn [index]. unfold SearchMessagesText, of_tenant. rewrite tenant.
      f_equal. by apply find_proj.
    + intros tok cur Hcur. unfold next_of, SearchMessages. rewrite visibility_ok, Normalize_page. cbn [pr_Cursor].
      by rewrite Hcur.
  - unfold candidates. rewrite filter_map_proj, list_filter_filter. f_equal. apply list_filter_iff.
    intros m. rewrite andb_true_iff. cbn. tauto.
Qed.

Lemma contacts_walk q limit :
  listed ct_CreatedAt ct_ID (co_Contacts co) -> readable ct_CreatedAt ct_ID unmarshal (co_Contacts co) ->
  shows (S (length (co_Contacts co))) limit (next_of (fun page => SearchContacts unmarshal c q page) limit)
    (map toContact (filter (fun x => contact_clause contact_matches t q x && contact_seen co t ac x = true) (co_Contacts co))).
Proof.
  intros Hd Hr. set (base := contact_clause contact_matches t q).
  replace (map toContact _) with (filter (fun x => contact_seen co t ac x = true) (candidates toContact (co_Contacts co) base)).
  - eapply (filtered_walk unmarshal contact_matches message_matches co ct_CreatedAt ct_ID _
              (contact_visible c (vis_of ac)) (fun _ => True) _ (fun s x _ => contact_visible_spec s x) _ limit tt _
              (fun cur n => ask c (SxContactsText q cur n)));
      [by eapply listed_candidates|by eapply readable_candidates|done| | |].
    + unfold candidates. rewrite length_map. pose proof (length_filter (fun x => base x = true) (co_Contacts co)). lia.
    + intros tok cur n _. rewrite answer_ask. cbn [index]. unfold SearchContactsText, of_tenant. rewrite tenant.
      f_equal. by apply find_proj.
    + intros tok cur Hcur. unfold next_of, SearchContacts. rewrite visibility_ok, Normalize_page. cbn [pr_Cursor].
      by rewrite Hcur.
  - unfold candidates. rewrite filter_map_proj, list_filter_filter. f_equal. apply list_filter_iff.
    intros x. rewrite andb_true_iff. cbn. tauto.
Qed.

(** The pages of conversations are those of a listing of the candidates. *)
Lemma conversations_page g limit tok :
  next_of (SearchConversations c g) limit tok =
  list_next cv_UpdatedAt cv_ID unmarshal
    (candidates toConversation (co_Conversations co) (conversation_clause co t g (vis_of ac))) (fun _ => true) limit tok.
Proof.
  unfold next_of, SearchConversations, list_next, list_page. rewrite visibility_ok, Normalize_page. cbn [pr_Cursor pr_Limit].
  rewrite answer_bind_ok. change (Search.answer _ _ _ _ (Ret ?r)) with r. cbn [pr_Limit].
  rewrite answer_bind_ok, answer_ask. cbn [index]. unfold IndexConversations, of_tenant. rewrite tenant. cbn [pr_Cursor pr_Limit].
  destruct (DecodeCursor unmarshal tok) as [cur|e]; [|done].
  rewrite (find_proj cv_UpdatedAt cv_ID cv_UpdatedAt cv_ID toConversation) by done.
  set (l := find _ _ _ _ _ _). unfold NewPage. by destruct (page_size limit <? Z.of_nat (length l)).
Qed.

Lemma conversations_walk g limit :
  listed cv_UpdatedAt cv_ID (co_Conversations co) -> readable cv_UpdatedAt cv_ID unmarshal (co_Conversations co) ->
  shows (S (length (co_Conversations co))) limit (next_of (SearchConversations c g) limit)
    (map toConversation (filter (fun x => conversation_matches co t g x && visibleTo x ac = true) (co_Conversations co))).
Proof.
  intros Hd Hr. set (base := conversation_clause co t g (vis_of ac)).
  assert (map toConversation (filter (fun x => conversation_matches co t g x && visibleTo x ac = true) (co_Conversations co))
          = filter (fun _ => true = true) (candidates toConversation (co_Conversations co) base)) as ->.
  { rewrite (filter_everything (fun _ => true = true)) by by apply Forall_forall. unfold candidates, base.
    symmetry. by apply (f_equal (map toConversation)), visible_filter. }
  destruct (listing_walk cv_UpdatedAt cv_ID unmarshal (candidates toConversation (co_Conversations co) base)
              (fun _ => true) limit (S (length (co_Conversations co)))) as (pages & Hw & Hc & Hp).
  - by eapply listed_candidates.
  - by eapply readable_candidates.
  - unfold candidates. rewrite length_map. pose proof (length_filter (fun x => base x = true) (co_Conversations co)). lia.
  - exists pages. split; [|done]. rewrite <- Hw. apply walk_ext. apply conversations_page.
Qed.
End Searches.

(** The collections as the index reads them: in the order of their sort, with cursors that can be
    read back, and no conversation in the sector that stands for none. *)
Record indexed (unmarshal : string -> result Cursor) (co : Corpus) : Prop := {
  ix_conversations : listed cv_UpdatedAt cv_ID (co_Conversations co);
  ix_contacts : listed ct_CreatedAt ct_ID (co_Contacts co);
  ix_messages : listed md_CreatedAt md_ID (co_Messages co);
  ix_read_conversations : readable cv_UpdatedAt cv_ID unmarshal (co_Conversations co);
  ix_read_contacts : readable ct_CreatedAt ct_ID unmarshal (co_Contacts co);
  ix_read_messages : readable md_CreatedAt md_ID unmarshal (co_Messages co);
  ix_sectors : Forall (fun conv => cv_SectorID conv <> never) (co_Conversations co);
}.

(** C13. Search shows what the inbox would open. For a known actor of a tenant, over collections in
    the order of their sort whose cursors can be read back, walking the search of
    messages, of contacts or of conversations from its first page, whatever the size asked for,
    ends, and its pages together are exactly the matches the actor may see: the messages that match,
    whose document has no field deleted_at (that is, that were never updated: see
    [updated_messages_are_lost]) and whose conversation the inbox would open, the contacts that
    match and have such a conversation, the conversations that match and are such; the newest
    first, once each, and never more on a page than its size. *)
Theorem searches_show_what_is_visible (unmarshal : string -> result Cursor)
    (contact_matches : string -> Contact -> bool) (message_matches : string -> Message -> bool) (co : Corpus)
    (c : Ctx) (t : string) (ac : AuthContext) (f : MessageFilter) (q : string) (g : ConversationFilter) (limit : Z) :
  RequireTenant c = Ok t -> FromContext c = Some ac -> ac_UserID ac <> "" -> indexed unmarshal co ->
  let next {T} (search : PageRequest -> SxM (result (Result T))) :=
    next_of unmarshal contact_matches message_matches co search limit in
  shows (S (length (co_Messages co))) limit (next (SearchMessages unmarshal c f))
    (map toMessage (filter (fun m => message_clause message_matches t (mf_Query f) (mf_ConversationID f) m
                                     && message_seen co c ac (md_Message m) = true) (co_Messages co)))
  /\ shows (S (length (co_Contacts co))) limit (next (fun page => SearchContacts unmarshal c q page))
       (map toContact (filter (fun x => contact_clause contact_matches t q x && contact_seen co t ac x = true) (co_Contacts co)))
  /\ shows (S (length (co_Conversations co))) limit (next (SearchConversations c g))
       (map toConversation (filter (fun x => conversation_matches co t g x && visibleTo x ac = true) (co_Conversations co))).
Proof.
  intros Ht Ha Hu [Hlv Hlc Hlm Hrv Hrc Hrm Hs] next. split; [|split].
  - by apply messages_walk.
  - by apply contacts_walk.
  - by apply conversations_walk.
Qed.

(** A message updated once is lost to the search: an edit, a delivery receipt or the result of its
    sending write deleted_at, null included, and the search asks for documents without the field. No
    page ever shows it again, though it is not deleted and the inbox lists it. *)
Theorem updated_messages_are_lost (unmarshal : string -> result Cursor)
    (contact_matches : string -> Contact -> bool) (message_matches : string -> Message -> bool) (co : Corpus)
    (c : Ctx) (t : string) (ac : AuthContext) (f : MessageFilter) (m : Message) (limit : Z) :
  RequireTenant c = Ok t -> FromContext c = Some ac -> ms_TenantID m = t ->
  let co' := mkCorpus (co_Conversations co) (co_Contacts co) (update_message m (co_Messages co)) (co_Trackings co) in
  indexed unmarshal co' ->
  exists pages,
    walk (next_of unmarshal contact_matches message_matches co' (SearchMessages unmarshal c f) limit)
      (S (length (co_Messages co'))) "" = Some pages /\
    ms_ID m ∉ map ms_ID (concat pages).
Proof.
  intros Ht Ha Hm co' [Hlv Hlc Hlm Hrv Hrc Hrm Hs].
  destruct (messages_walk unmarshal contact_matches message_matches co' c t ac Ht Ha f limit Hlm Hrm) as (pages & Hw & Hc & _).
  exists pages. split; [exact Hw|]. rewrite Hc. intros (x & Hx & Hin)%list_elem_of_fmap.
  apply list_elem_of_fmap in Hin as (d & -> & [Hp Hd]%list_elem_of_filter).
  apply list_elem_of_fmap in Hd as (d0 & -> & _). cbn [co_Messages] in *.
  apply andb_true_iff in Hp as [Hp _]. unfold message_clause in Hp. rewrite !andb_true_iff in Hp.
  destruct Hp as [[[Htd Hdel] _] _]. revert Hx Htd Hdel.
  destruct ((md_ID d0 =! ms_ID m) && (ms_TenantID (md_Message d0) =! ms_TenantID m)) eqn:E; [done|].
  cbn. intros Hx Htd _. revert E. unfold md_ID. by rewrite <- Hx, Hm, Htd, bool_decide_true.
Qed.

(** ** Search: a small corpus walked *)

Definition ms (n : Z) : Time := n * Millisecond.

Definition doc_conversation (id contact sector assigned : string) (updated : Time) : Conversation :=
  mkConversation id "t1" contact "whatsapp" "" sector "" StatusNew assigned "" "" [] [] 0 None None 0 None 0 updated None.
Definition doc_contact (id : string) (created : Time) : Contact :=
  mkContact id "t1" KindPerson "Ana" "" [] "" "" [] [] "" "" [] created created.
Definition a_message (id conv text : string) (created : Time) : Message :=
  mkMessage id "t1" conv "" "" "" "" text [] None [] None None None None [] created "" "" "" None None None None.
Definition doc_message (id conv text : string) (created : Time) : MessageDoc := created_doc (a_message id conv text created).

(** Two messages of the same millisecond; one conversation the agent does not see; and a message
    whose text was edited. *)
Definition corpus : Corpus := mkCorpus
  [doc_conversation "c1" "k1" "s1" "" (ms 9); doc_conversation "c2" "k2" "s2" "u1" (ms 8);
   doc_conversation "c3" "k3" "s2" "u2" (ms 7)]
  [doc_contact "k3" (ms 3); doc_contact "k2" (ms 2); doc_contact "k1" (ms 1)]
  [updated_doc (a_message "m6" "c1" "hello" (ms 7)) (doc_message "m6" "c1" "helo" (ms 7));
   doc_message "m5" "c3" "hello" (ms 6); doc_message "m4" "c1" "hello" (ms 5); doc_message "m3" "c2" "hello" (ms 5);
   doc_message "m2" "c1" "bye" (ms 4); doc_message "m1" "c3" "hello" (ms 4)]
  [].

(** The cursors of the corpus, read back by their JSON. *)
Definition known : list Cursor :=
  map (cursorOf cv_UpdatedAt cv_ID) (co_Conversations corpus) ++ map (cursorOf ct_CreatedAt ct_ID) (co_Contacts corpus)
  ++ map (cursorOf md_CreatedAt md_ID) (co_Messages corpus).
Definition read_known (s : string) : result Cursor :=
  match List.find (fun c => marshal c =! s) known with Some c => Ok c | None => Err (PlainErr "json" None) end.

Definition agent : AuthContext := mkAuthContext "t1" "u1" ∅ ["s1"] "".
Definition agent_ctx : Ctx := mkCtx (Some "t1") (Some agent) None None.
Definition equals (q : string) (m : Message) : bool := ms_Text m =! q.

Ltac in_order := repeat first [apply SSorted_cons | apply SSorted_nil | apply Forall_cons; split | apply Forall_nil];
  first [done | by left; vm_compute | by right; split; vm_compute | by vm_compute].
Ltac each_read := intros x Hx; cbn [co_Conversations co_Contacts co_Messages corpus] in Hx;
  repeat (apply elem_of_cons in Hx as [->|Hx]; [vm_compute; reflexivity|]); by apply not_elem_of_nil in Hx.

Lemma corpus_indexed : indexed read_known corpus.
Proof.
  split; [split; in_order..| | | |]; [each_read..|].
  repeat first [apply Forall_cons; split | apply Forall_nil]; by vm_compute.
Qed.

(** A page of one message at a time: the two an agent sees of the four never updated that match. *)
Lemma searches_show_what_is_visible_witness :
  exists pages,
    walk (next_of read_known (fun _ _ => true) equals corpus
            (SearchMessages read_known agent_ctx (mkMessageFilter "hello" "")) 1) 7 "" = Some pages /\
    map ms_ID (concat pages) = ["m4"; "m3"].
Proof.
  destruct (searches_show_what_is_visible read_known (fun _ _ => true) equals corpus agent_ctx "t1" agent
              (mkMessageFilter "hello" "") "" (mkConversationFilter "" "" "" "" "" "" "" None None) 1)
    as [(pages & Hw & Hc & _) _]; [reflexivity|reflexivity|done|exact corpus_indexed|].
  exists pages. split; [exact Hw|]. rewrite Hc. vm_compute. reflexivity.
Defined.
