(* ===== verification/InboxProps.v ===== *)
(** * The inbox, walked

    The list of conversations a client pages through (presenter/controller/conversations), over the
    service and the queries of its repository: it is exactly what [loadVisible] would open. *)
From S2P Require Import Prelude GoStrings AppError Base64 Authz Shared ConvEntity Queries Messages ConvContracts.
From S2P Require Import Prog Ports ConvBase ConvMessaging ConvLifecycle ConvMemory Contacts Sla Search SearchProps.

Section Inbox.
Context (unmarshal : string -> result Cursor) (docs : list Conversation).
Context {S : Type} (h : handler Ctx ConvPort S).

(** The world [h], its conversations listed and counted by the repository's queries over [docs]. *)
Definition listing : handler Ctx ConvPort S := fun R c e s =>
  match e in ConvPort R return R * S with
  | PConvs e =>
      match e in ConvRepo R return R * S with
      | ConvList f vis page => (Queries.List_ unmarshal docs c f vis page, s)
      | ConvUnreadCounts vis => (Queries.UnreadCounts docs c vis, s)
      | e => h _ c (PConvs e) s
      end
  | e => h _ c e s
  end.

(** [Controller.List], with the page of the request. *)
Definition controller_List (c : Ctx) (f : ListFilter) (page : PageRequest) (s : S) : result (Page Conversation) :=
  let page := Normalize page in
  match (run listing (ConvLifecycle.List_ c f page) s).1 with
  | Ok items => Ok (NewPage Encode items (pr_Limit page) (cursorOf cv_UpdatedAt cv_ID))
  | Err e => Err e
  end.

Definition inbox_next (c : Ctx) (f : ListFilter) (limit : Z) (s : S) (token : string)
  : result (list Conversation * string) :=
  match controller_List c f (mkPage token limit) s with
  | Ok p => Ok (pg_Data p, pi_NextCursor (pg_Page p))
  | Err e => Err e
  end.

(** The filters of the request. *)
Definition inbox_matches (t : string) (f : ListFilter) (conv : Conversation) : bool :=
  (cv_TenantID conv =! t) && clause (lf_Status f) (cv_Status conv)
  && clause (lf_SectorID f) (cv_SectorID conv) && clause (lf_QueueID f) (cv_QueueID conv)
  && clause (lf_AssignedTo f) (cv_AssignedTo conv) && clause (lf_ContactID f) (cv_ContactID conv)
  && clause (lf_Protocol f) (cv_Protocol conv) && ((lf_Tag f =! "") || within (lf_Tag f) (cv_Tags conv)).

Context (c : Ctx) (t : string) (ac : AuthContext).
Hypothesis tenant : RequireTenant c = Ok t.
Hypothesis actor : FromContext c = Some ac.

Lemma inbox_base_matches f conv :
  inbox_base c f (vis_of ac) conv = inbox_matches t f conv && visible_clause (vis_of ac) conv.
Proof. unfold inbox_base, inbox_matches, tenant_clause. by rewrite tenant. Qed.

(** The clause of the repository is [visibleTo], of an actor and sectors that have a name. *)
Lemma visible_clause_visibleTo conv :
  ac_UserID ac <> "" -> "" ∉ ac_SectorIDs ac -> visible_clause (vis_of ac) conv = visibleTo conv ac.
Proof.
  intros Hu Hs. apply eq_true_iff_eq. unfold visible_clause, visibleTo, vis_of; cbn [vis_All vis_UserID vis_SectorIDs].
  destruct (ac_SectorScope ac =! ScopeAll); [done|]. cbn [orb].
  assert (existsb (fun sid => (sid =! cv_SectorID conv) && (sid <>! "")) (ac_SectorIDs ac)
          = within (cv_SectorID conv) (ac_SectorIDs ac)) as ->.
  { apply eq_true_iff_eq. rewrite within_spec, existsb_exists. split.
    - intros (x & Hx%list_elem_of_In & [He%bool_decide_eq_true _]%andb_true_iff). by subst.
    - intros Hin. exists (cv_SectorID conv). split; [by apply list_elem_of_In|].
      rewrite bool_decide_true, bool_decide_false by congruence. done. }
  destruct (decide (cv_AssignedTo conv = ac_UserID ac)) as [He|He].
  - by rewrite He, (bool_decide_true (ac_UserID ac = ac_UserID ac)), (bool_decide_false (ac_UserID ac = "")).
  - by rewrite (bool_decide_false (cv_AssignedTo conv = ac_UserID ac)), andb_false_r.
Qed.

Lemma inbox_page f limit s tok :
  inbox_next c f limit s tok = list_next cv_UpdatedAt cv_ID unmarshal docs (inbox_base c f (vis_of ac)) limit tok.
Proof.
  unfold inbox_next, controller_List, list_next, list_page. rewrite Normalize_page. unfold ConvLifecycle.List_, requireTenant.
  rewrite tenant. cbn [bind_ok bind]. unfold ConvBase.visibility. rewrite actor.
  assert (Normalize (mkPage tok (page_size limit)) = mkPage tok (page_size limit)) as ->
    by (rewrite <- (Normalize_page tok limit); apply Normalize_spec).
  cbn [bind_ok bind ask call embed embed_convs run listing fst]. unfold Queries.List_, query_page, scoped. rewrite tenant.
  cbn [pr_Cursor pr_Limit]. by destruct (DecodeCursor unmarshal tok).
Qed.
End Inbox.

(** C12. The inbox shows what the conversation pages would open. For an actor of a tenant, walking the
    list of conversations from its first page, with whatever filters and page size, ends, and its
    pages together are exactly the tenant's conversations that pass the filters and that
    [loadVisible] would let the actor read: the most recently updated first, once each, and never
    more on a page than its size. *)
Theorem inbox_shows_what_is_visible (unmarshal : string -> result Cursor) (docs : list Conversation)
    {S} (h : handler Ctx ConvPort S) (c : Ctx) (t : string) (ac : AuthContext) (f : ListFilter) (limit : Z) (s : S) :
  RequireTenant c = Ok t -> FromContext c = Some ac -> ac_UserID ac <> "" -> "" ∉ ac_SectorIDs ac ->
  listed cv_UpdatedAt cv_ID docs -> readable cv_UpdatedAt cv_ID unmarshal docs ->
  shows (Datatypes.S (length docs)) limit (inbox_next unmarshal docs h c f limit s)
    (filter (fun conv => inbox_matches t f conv && visibleTo conv ac = true) docs).
Proof.
  intros Ht Ha Hu Hs Hd Hr.
  destruct (listing_walk cv_UpdatedAt cv_ID unmarshal docs (inbox_base c f (vis_of ac)) limit (Datatypes.S (length docs)))
    as (pages & Hw & Hc & Hp); [done|done|lia|].
  exists pages. split_and!; [|rewrite Hc|done].
  - rewrite <- Hw. apply walk_ext. intros tok. by eapply inbox_page.
  - apply list_filter_iff. intros conv. by rewrite (inbox_base_matches c t ac Ht), visible_clause_visibleTo.
Qed.

(** The agent of the corpus, a conversation at a time: the one of its sector and its own. *)
Lemma inbox_shows_what_is_visible_witness :
  exists pages,
    walk (inbox_next read_known (co_Conversations corpus) (fun R c e (s : Memory) => memory R c e s) agent_ctx
            (mkListFilter "" "" "" "" "" "" "") 1 (mkMemory ∅ ∅ 0 0 [])) 4 "" = Some pages /\
    map cv_ID (concat pages) = ["c1"; "c2"].
Proof.
  destruct (inbox_shows_what_is_visible read_known (co_Conversations corpus) (fun R c e (s : Memory) => memory R c e s)
              agent_ctx "t1" agent (mkListFilter "" "" "" "" "" "" "") 1 (mkMemory ∅ ∅ 0 0 []))
    as (pages & Hw & Hc & _);
    [reflexivity|reflexivity|done|by intros [[=]|[]%not_elem_of_nil]%elem_of_cons
    |apply corpus_indexed|apply corpus_indexed|].
  exists pages. split; [exact Hw|]. rewrite Hc. vm_compute. reflexivity.
Defined.
