(* ===== verification/ContactDocs.v ===== *)
(** * Contacts: documents

    What a normalized document is, and that the documents generated for the demo data are
    accepted by the same rule. *)
From S2P Require Import Prelude GoStrings AppError Authz Shared ConvEntity Prog Ports ConvBase Contacts.

(** ** ASCII strings, decoded *)

Definition digit_byte (a : Ascii.ascii) : Prop := 48 <= byte_val a <= 57.

Lemma decode_ascii a l : byte_val a < 128 -> decode_rune (a :: l) = (byte_val a, 1%nat).
Proof. intros Ha. unfold decode_rune. cbn [take map]. by destruct (Z.ltb_spec (byte_val a) 128); [|lia]. Qed.

Lemma chunks_fuel_ascii n l : (length l <= n)%nat -> Forall (fun a => byte_val a < 128) l ->
  chunks_fuel n l = map (fun a => (byte_val a, [a])) l.
Proof.
  revert l. induction n as [|n IH]; intros [|a l] Hn Hl; cbn in Hn; [done|lia|done|].
  apply Forall_cons in Hl as [Ha Hl]. cbn [chunks_fuel]. rewrite decode_ascii by done.
  cbn [take drop map]. rewrite take_0, drop_0, IH by (done || lia). done.
Qed.

Lemma chunks_ascii l : Forall (fun a => byte_val a < 128) l ->
  chunks (of_bytes l) = map (fun a => (byte_val a, [a])) l.
Proof. intros Hl. unfold chunks. rewrite bytes_of_of. by apply chunks_fuel_ascii. Qed.

Lemma digits_ascii l : Forall digit_byte l -> Forall (fun a => byte_val a < 128) l.
Proof. intros Hl. eapply Forall_impl; [exact Hl|]. unfold digit_byte. lia. Qed.

Lemma drop_while_none {A} (p : A -> bool) l : Forall (fun x => p x = false) l -> drop_while p l = l.
Proof. intros [|x l' Hx _]; cbn; [done|]. by rewrite Hx. Qed.

Lemma mjoin_singles {A} (l : list A) : mjoin (map (fun a => [a]) l) = l.
Proof. induction l as [|a l IH]; [done|]. cbn. by rewrite <- IH at 2. Qed.

Lemma digit_not_space r : 48 <= r <= 57 -> is_space r = false.
Proof.
  intros Hr. assert (r ∈ seqZ 48 10) as Hin by (apply elem_of_seqZ; lia).
  cbv in Hin. repeat (apply elem_of_cons in Hin as [->|Hin]; [done|]). by apply elem_of_nil in Hin.
Qed.

Lemma trim_digits l : Forall digit_byte l -> trim_space (of_bytes l) = of_bytes l.
Proof.
  intros Hl. unfold trim_space. rewrite chunks_ascii by by apply digits_ascii.
  set (sp := fun c : Z * list Ascii.ascii => is_space c.1).
  assert (Forall (fun c => sp c = false) (map (fun a => (byte_val a, [a])) l)) as Hn.
  { apply Forall_map. eapply Forall_impl; [exact Hl|]. intros a Ha. by apply digit_not_space. }
  rewrite (drop_while_none sp _ Hn), drop_while_none, rev_involutive.
  - rewrite map_map. cbn. by rewrite mjoin_singles.
  - apply Forall_forall. intros c Hc. rewrite Forall_forall in Hn. apply Hn.
    by apply list_elem_of_In, in_rev, list_elem_of_In.
Qed.

Lemma is_digit_spec r : is_digit r = true <-> 48 <= r <= 57.
Proof. unfold is_digit, in_range. lia. Qed.

Lemma digitsOnly_digits s : Forall digit_byte (bytes_of (digitsOnly s)).
Proof.
  unfold digitsOnly. rewrite bytes_of_of. apply Forall_map, Forall_forall.
  intros r [Hr _]%list_elem_of_filter. apply is_digit_spec in Hr. unfold digit_byte.
  rewrite byte_val_of; lia.
Qed.

Lemma digitsOnly_id l : Forall digit_byte l -> digitsOnly (of_bytes l) = of_bytes l.
Proof.
  intros Hl. unfold digitsOnly, runes. rewrite chunks_ascii by by apply digits_ascii.
  rewrite map_map. cbn. f_equal. induction Hl as [|a l Ha Hl IH]; [done|]. cbn [map].
  rewrite filter_cons_True by by apply is_digit_spec. cbn [map]. by rewrite IH, byte_of_val.
Qed.

(** ** Check digits *)

Lemma zsum_ext (f g : nat -> Z) l : (forall i, i ∈ l -> f i = g i) -> zsum (map f l) = zsum (map g l).
Proof.
  induction l as [|x l IH]; intros H; [done|]. unfold zsum in *. cbn. rewrite (H x) by left.
  f_equal. apply IH. intros i Hi. apply H. by right.
Qed.

Lemma zsum_nonneg (f : nat -> Z) l : (forall i, i ∈ l -> 0 <= f i) -> 0 <= zsum (map f l).
Proof.
  induction l as [|x l IH]; intros H; [done|]. unfold zsum in *. cbn.
  assert (0 <= foldr Z.add 0 (map f l)) by (apply IH; intros i Hi; apply H; by right).
  pose proof (H x ltac:(left)). lia.
Qed.

Lemma cpfDigit_range d n w : (forall i, (i < n)%nat -> 0 <= w - Z.of_nat i) -> 0 <= cpfDigit d n w < 10.
Proof.
  intros Hw. unfold cpfDigit.
  set (sum := zsum _). assert (0 <= sum) as Hs.
  { apply zsum_nonneg. intros i Hi%elem_of_seq. apply Z.mul_nonneg_nonneg; [|apply Hw; lia].
    apply Z.mod_pos_bound. lia. }
  pose proof (Z.rem_bound_pos (sum * 10) 11 ltac:(lia) ltac:(lia)). case_match; lia.
Qed.

Lemma cpfDigit_prefix d d' n w : (forall i, (i < n)%nat -> digit_at d i = digit_at d' i) ->
  cpfDigit d n w = cpfDigit d' n w.
Proof.
  intros H. unfold cpfDigit. by rewrite (zsum_ext _ (fun i => digit_at d' i * (w - Z.of_nat i)))
    by (intros i Hi%elem_of_seq; rewrite H by lia; done).
Qed.

Lemma digit_at_app_l a b i : (i < byte_len a)%nat -> digit_at (a +:+ b) i = digit_at a i.
Proof.
  intros Hi. unfold digit_at, byte_at. rewrite bytes_of_app, lookup_app_l by done. done.
Qed.

Lemma digit_at_last a x : 0 <= x < 10 -> digit_at (a +:+ of_bytes [byte_of (48 + x)]) (byte_len a) = x.
Proof.
  intros Hx. unfold digit_at, byte_at. rewrite bytes_of_app, bytes_of_of, lookup_app_r by done.
  unfold byte_len. rewrite Nat.sub_diag. cbn. rewrite byte_val_of by lia. rewrite Z.mod_small; lia.
Qed.

Lemma byte_len_app a b : byte_len (a +:+ b) = (byte_len a + byte_len b)%nat.
Proof. unfold byte_len. by rewrite bytes_of_app, length_app. Qed.

Section Generated.
Context (rng : nat -> Z) (Hrng : forall i, 0 <= rng i < 10).

Lemma cpf_base_len pos : byte_len (cpf_base rng pos) = 9%nat.
Proof. unfold byte_len, cpf_base. by rewrite bytes_of_of. Qed.

Lemma cpf_base_digits pos : Forall digit_byte (bytes_of (cpf_base rng pos)).
Proof.
  unfold cpf_base. rewrite bytes_of_of. apply Forall_map, Forall_true. intros i.
  unfold digit_byte. specialize (Hrng (pos + i)). rewrite byte_val_of; lia.
Qed.

Lemma digits_snoc a x : 0 <= x < 10 -> Forall digit_byte (bytes_of a) ->
  Forall digit_byte (bytes_of (a +:+ of_bytes [byte_of (48 + x)])).
Proof.
  intros Hx Ha. rewrite bytes_of_app, bytes_of_of. apply Forall_app. split; [done|].
  constructor; [|done]. unfold digit_byte. rewrite byte_val_of; lia.
Qed.

Lemma cpf_of_base_digits pos : Forall digit_byte (bytes_of (cpf_of_base (cpf_base rng pos))).
Proof.
  unfold cpf_of_base. cbn zeta. apply digits_snoc, digits_snoc, cpf_base_digits;
    apply cpfDigit_range; lia.
Qed.

Lemma cpf_of_base_valid pos : let d := cpf_of_base (cpf_base rng pos) in
  allEqual d = false -> isValidCPF d = true.
Proof.
  cbn zeta. unfold cpf_of_base. cbn zeta. set (base := cpf_base rng pos).
  set (d1 := cpfDigit base 9 10). set (ten := base +:+ _). set (d2 := cpfDigit ten 10 11).
  assert (0 <= d1 < 10) as H1 by (apply cpfDigit_range; lia).
  assert (0 <= d2 < 10) as H2 by (apply cpfDigit_range; lia).
  assert (byte_len base = 9%nat) as Hb by apply cpf_base_len.
  assert (byte_len ten = 10%nat) as Ht by (unfold ten; rewrite byte_len_app, Hb; done).
  intros Heq. unfold isValidCPF. rewrite Heq, byte_len_app, Ht. cbn [negb orb].
  change (negb _) with false. cbn [orb]. apply andb_true_iff. split; apply Z.eqb_eq.
  - rewrite digit_at_app_l by lia. unfold ten at 2. rewrite <- Hb, digit_at_last, Hb by done.
    apply cpfDigit_prefix. intros i Hi. rewrite digit_at_app_l by lia. apply digit_at_app_l. lia.
  - rewrite <- Ht at 2. rewrite digit_at_last by done.
    apply cpfDigit_prefix. intros i Hi. apply digit_at_app_l. lia.
Qed.

Lemma byte_len_cpf pos : byte_len (cpf_of_base (cpf_base rng pos)) = 11%nat.
Proof. unfold cpf_of_base. cbn zeta. by rewrite !byte_len_app, cpf_base_len. Qed.

Lemma accepted_digits l : Forall digit_byte l -> l <> [] ->
  NormalizeDocument (of_bytes l) =
    match length l with
    | 11%nat => if isValidCPF (of_bytes l) then (of_bytes l, true) else ("", false)
    | 14%nat => if isValidCNPJ (of_bytes l) then (of_bytes l, true) else ("", false)
    | _ => ("", false)
    end.
Proof.
  intros Hl Hne. unfold NormalizeDocument. rewrite trim_digits, digitsOnly_id by done.
  rewrite bool_decide_eq_false_2; [unfold byte_len; by rewrite bytes_of_of|].
  intros He. apply Hne. by rewrite <- (bytes_of_of l), He.
Qed.

(** The nine draws of a round are not all the same. *)
Definition varied (pos : nat) : Prop := exists i j, (i < 9)%nat /\ (j < 9)%nat /\ rng (pos + i) <> rng (pos + j).

Lemma byte_at_base pos i : (i < 9)%nat ->
  byte_at (cpf_of_base (cpf_base rng pos)) i = 48 + rng (pos + i).
Proof.
  intros Hi. unfold cpf_of_base, byte_at. cbn zeta.
  rewrite !bytes_of_app, !lookup_app_l; rewrite ?length_app;
    pose proof (cpf_base_len pos) as Hb; unfold byte_len in Hb; try lia.
  unfold cpf_base. rewrite bytes_of_of, list_lookup_fmap, lookup_seq_lt by done. cbn.
  rewrite byte_val_of; specialize (Hrng (pos + i)); lia.
Qed.

Lemma varied_not_equal pos : varied pos -> allEqual (cpf_of_base (cpf_base rng pos)) = false.
Proof.
  intros (i & j & Hi & Hj & Hne). apply not_true_iff_false. intros [Hall _]%andb_true_iff.
  rewrite forallb_forall, byte_len_cpf in Hall.
  assert (forall k, (k < 9)%nat -> rng (pos + k) = rng (pos + 0)) as Hk.
  { intros [|k] Hk; [done|]. specialize (Hall (S k) ltac:(apply in_seq; lia)).
    apply Z.eqb_eq in Hall. rewrite !byte_at_base in Hall by lia. lia. }
  by rewrite (Hk i), (Hk j) in Hne.
Qed.
End Generated.

(** C31. Documents have one form: what the rule accepts is empty, or the eleven digits of a CPF or
    the fourteen of a CNPJ whose check digits agree; the mask of the input does not matter,
    and a normalized document is accepted unchanged. *)
Theorem normalized_documents_are_canonical (raw d : string) :
  NormalizeDocument raw = (d, true) ->
  (d = "" /\ blank raw = true \/
   d = digitsOnly (trim_space raw) /\ Forall digit_byte (bytes_of d) /\ allEqual d = false /\
   (byte_len d = 11%nat /\ isValidCPF d = true \/ byte_len d = 14%nat /\ isValidCNPJ d = true)) /\
  NormalizeDocument d = (d, true) /\
  (forall raw', blank raw' = blank raw -> digitsOnly (trim_space raw') = digitsOnly (trim_space raw) -> NormalizeDocument raw' = (d, true)).
Proof.
  intros H. pose proof H as H0. unfold NormalizeDocument in H. cbn zeta in H. case_bool_decide as Hb.
  { injection H as <-. split_and!; [left; split; [done|]; by apply bool_decide_eq_true|done|].
    intros raw' Hbl _. unfold NormalizeDocument. unfold blank in Hbl.
    by rewrite Hbl, (bool_decide_eq_true_2 _ Hb). }
  pose proof (digitsOnly_digits (trim_space raw)) as Hd.
  assert (d = digitsOnly (trim_space raw) /\ (byte_len d = 11%nat /\ isValidCPF d = true \/
          byte_len d = 14%nat /\ isValidCNPJ d = true)) as [-> Hv].
  { destruct (byte_len (digitsOnly (trim_space raw))) as [|n] eqn:Hn; [done|].
    do 10 (destruct n as [|n]; [done|]). destruct n as [|n].
    { destruct (isValidCPF _) eqn:Hc; [|done]. injection H as <-. eauto. }
    do 2 (destruct n as [|n]; [done|]). destruct n as [|n]; [|done].
    destruct (isValidCNPJ _) eqn:Hc; [|done]. injection H as <-. eauto. }
  split_and!.
  - right. split_and!; [done|done| |done]. destruct Hv as [[_ Hv]|[_ Hv]]; unfold isValidCPF, isValidCNPJ in Hv;
      destruct (allEqual _); [by rewrite orb_true_r in Hv|done|by rewrite orb_true_r in Hv|done].
  - rewrite <- (of_bytes_of (digitsOnly (trim_space raw))). rewrite accepted_digits; [|done|].
    + rewrite of_bytes_of. unfold byte_len in Hv. by destruct Hv as [[-> ->]|[-> ->]].
    + intros He. unfold byte_len in Hv. rewrite He in Hv. by destruct Hv as [[? _]|[? _]].
  - intros raw' Hbl Hdig. unfold NormalizeDocument, blank in *. rewrite Hbl, Hdig.
    rewrite (bool_decide_eq_false_2 _ Hb). by rewrite (bool_decide_eq_false_2 _ Hb) in H0.
Qed.

(** Generated documents are accepted: as soon as a round of draws is not nine times the same
    digit, the generator returns eleven digits that the rule of the service accepts as they
    are. *)
Theorem generated_documents_are_accepted (rng : nat -> Z) (rounds k : nat) :
  (forall i, 0 <= rng i < 10) -> (k < rounds)%nat -> varied rng (9 * k) ->
  exists d, GenerateValidCPF rounds rng 0 = Some d /\ byte_len d = 11%nat /\ NormalizeDocument d = (d, true).
Proof.
  intros Hrng Hk Hv.
  assert (forall n pos m, (m < n)%nat -> varied rng (pos + 9 * m) ->
    exists d, GenerateValidCPF n rng pos = Some d /\ byte_len d = 11%nat /\ NormalizeDocument d = (d, true)) as Hgen;
    [|by apply (Hgen rounds 0%nat k)].
  induction n as [|n IH]; intros pos m Hm Hvm; [lia|]. cbn [GenerateValidCPF]. cbn zeta.
  destruct (allEqual (cpf_of_base (cpf_base rng pos))) eqn:He; cbn [negb].
  - destruct m as [|m].
    { rewrite Nat.mul_0_r, Nat.add_0_r in Hvm. apply varied_not_equal in Hvm; [congruence|done]. }
    apply (IH _ m); [lia|]. by replace (pos + 9 + 9 * m)%nat with (pos + 9 * S m)%nat by lia.
  - eexists. split; [done|]. pose proof (byte_len_cpf rng pos) as Hl. split; [done|].
    set (d := cpf_of_base _) in *. pose proof (cpf_of_base_digits rng Hrng pos) as Hd. fold d in Hd.
    rewrite <- (of_bytes_of d). rewrite accepted_digits; [|done|].
    + rewrite of_bytes_of. unfold byte_len in Hl. rewrite Hl.
      by rewrite (cpf_of_base_valid rng pos He : isValidCPF d = true).
    + intros Hn. unfold byte_len in Hl. by rewrite Hn in Hl.
Qed.

Lemma normalized_documents_are_canonical_witness :
  NormalizeDocument " 529.982.247-25 " = ("52998224725", true) /\
  NormalizeDocument "52998224725" = ("52998224725", true).
Proof.
  assert (NormalizeDocument " 529.982.247-25 " = ("52998224725", true)) as H by (vm_compute; reflexivity).
  split; [exact H|]. exact (proj1 (proj2 (normalized_documents_are_canonical _ _ H))).
Defined.

(** Two degenerate rounds, then a good one. *)
Definition draws (i : nat) : Z := if (i <? 18)%nat then 7 else Z.of_nat i mod 10.

Lemma generated_documents_are_accepted_witness :
  GenerateValidCPF 3 draws 0 = Some "89012345642" /\
  exists d, GenerateValidCPF 3 draws 0 = Some d /\ byte_len d = 11%nat /\ NormalizeDocument d = (d, true).
Proof.
  split; [vm_compute; reflexivity|].
  apply (generated_documents_are_accepted draws 3 2).
  - intros i. unfold draws. destruct (i <? 18)%nat; [lia|]. apply Z.mod_pos_bound. lia.
  - lia.
  - exists 0%nat, 1%nat. split; [lia|]. split; [lia|]. vm_compute. discriminate.
Defined.
