(* ===== verification/ContactProps.v ===== *)
(** * Contacts: the properties

    What the repository promises, the invariant of the stored contacts, and what an
    inbound message may change. *)
From S2P Require Import Prelude GoStrings AppError Authz Shared ConvEntity Prog Ports ConvBase Contacts.

(** ** The world the service runs in *)

(** The contacts by tenant and id. *)
Abbreviation CtView :=
  (@gmap (string * string) (prod_eq_dec : EqDecision (string * string)) prod_countable Contact).

Definition ct_key (x : Contact) : string * string := (ct_TenantID x, ct_ID x).

(** A contact that a lookup in the tenant of its context finds. *)
Definition found (c : Ctx) (g : CtView) (x : Contact) : Prop :=
  exists tn, RequireTenant c = Ok tn /\ g !! (tn, ct_ID x) = Some x.

Definition holds_identity (i : ChannelIdentity) (x : Contact) : Prop := i ∈ ct_Identities x.

(** A lookup by some feature: what it finds has it, and not_found means nothing has. *)
Definition lookup_post (c : Ctx) (g : CtView) (has : Contact -> Prop) (r : result Contact) : Prop :=
  match r with
  | Ok x => found c g x /\ has x
  | Err e => is_not_found e = true -> forall tn id x, RequireTenant c = Ok tn -> g !! (tn, id) = Some x -> ~ has x
  end.

(** The Mongo repository: an insert of a new key, an update of a stored document; either may
    fail, before or after it took effect. *)
Definition ct_post (R : Type) (c : Ctx) (e : ContactPort R) (g : CtView) (r : R) (g' : CtView) : Prop :=
  match e in ContactPort R return R -> Prop with
  | CtNewID => fun r => r <> "" /\ g' = g
  | ContactCreate x => fun r =>
      g' = g /\ is_ok r = false \/ g !! ct_key x = None /\ g' = <[ct_key x := x]> g
  | ContactUpdate x => fun r =>
      g' = g /\ is_ok r = false \/
      exists tn old, RequireTenant c = Ok tn /\ g !! (tn, ct_ID x) = Some old /\
        g' = <[(tn, ct_ID x) := stored_contact old x]> g
  | ContactFindByID id => fun r => g' = g /\ lookup_post c g (fun x => ct_ID x = id) r
  | FindByChannelIdentity ch ex => fun r =>
      g' = g /\ lookup_post c g (holds_identity (mkChannelIdentity ch ex)) r
  | FindByDocument d => fun r => g' = g /\ lookup_post c g (fun x => ct_Document x = d) r
  | FindByPhone p => fun r => g' = g /\ lookup_post c g (fun x => ct_Phone x = p \/ p ∈ ct_Phones x) r
  | _ => fun _ => g' = g
  end r.

Definition ct_contract : contract Ctx ContactPort CtView := pre_post (fun _ _ _ _ => True) ct_post.

#[export] Instance ct_mono : Monotone ct_contract.
Proof. apply pre_post_mono. Qed.

Class ContactStore {S} (h : handler Ctx ContactPort S) (view : S -> CtView) : Prop := {
  ct_answers : forall R c (e : ContactPort R) s,
    let '(r, s') := h R c e s in ct_post R c e (view s) r (view s');
}.

Lemma ct_run {S} (h : handler Ctx ContactPort S) (view : S -> CtView) `{!ContactStore h view} {A}
    (m : CtM A) Q s :
  wp ct_contract m Q (view s) -> let '(a, s') := run h m s in Q a (view s').
Proof.
  apply wp_run. intros R c e P s' [_ HP]. pose proof (ct_answers R c e s') as Ha.
  destruct (h R c e s'). by apply HP.
Qed.

(** A call and its answer. *)
Ltac ct_unfold H := unfold ct_post, embed, contact_own in H.
Ltac ct_call r g H := apply wp_bind; [apply _|]; split; [done|]; intros r g H; ct_unfold H; cbn [wp].
Ltac ct_call_ok r g H := apply wp_bind_ok; [apply _|]; split; [done|]; intros r g H; ct_unfold H; cbn [wp].

(** ** The invariant *)

(** A contact as the service leaves it: the primary phone is the first one; no phone and no
    identity twice. *)
Record contact_wf (x : Contact) : Prop := {
  wf_phone : ct_Phone x = default "" (head (ct_Phones x));
  wf_phones : NoDup (ct_Phones x);
  wf_identities : NoDup (ct_Identities x);
}.

Record CtInv (g : CtView) : Prop := {
  ci_keys : forall k x, g !! k = Some x -> k = ct_key x /\ ct_ID x <> "";
  ci_wf : forall k x, g !! k = Some x -> contact_wf x;
  ci_unique : forall tn i j x y id, g !! (tn, i) = Some x -> g !! (tn, j) = Some y ->
    holds_identity id x -> holds_identity id y -> i = j;
}.

(** No other contact of the tenant holds an identity of [x]. *)
Definition unclaimed (g : CtView) (tn : string) (x : Contact) : Prop :=
  forall id y j, g !! (tn, j) = Some y -> holds_identity id x -> holds_identity id y -> j = ct_ID x.

Lemma CtInv_put (g : CtView) (x : Contact) :
  CtInv g -> ct_ID x <> "" -> contact_wf x -> unclaimed g (ct_TenantID x) x -> CtInv (<[ct_key x := x]> g).
Proof.
  intros [Hk Hw Hu] Hid Hwf Hun. split.
  - intros k y [[<- <-]|[_ Hy]]%lookup_insert_Some; [done|by apply Hk].
  - intros k y [[_ <-]|[_ Hy]]%lookup_insert_Some; [done|by apply (Hw k)].
  - intros tn i j y z id Hy Hz Hiy Hiz.
    apply lookup_insert_Some in Hy as [[Hy <-]|[Hny Hy]];
      apply lookup_insert_Some in Hz as [[Hz <-]|[Hnz Hz]].
    + congruence.
    + injection Hy as <- <-. symmetry. by apply (Hun id z j).
    + injection Hz as <- <-. by apply (Hun id y i).
    + by apply (Hu tn i j y z id).
Qed.

(** The document stored keeps the tenant and the id. *)
Lemma stored_wf old x : contact_wf x -> contact_wf (stored_contact old x).
Proof. by intros [? ? ?]. Qed.

Lemma CtInv_update (c : Ctx) (g : CtView) (x : Contact) (Q : result unit -> CtView -> Prop) :
  CtInv g -> contact_wf x -> (forall tn, RequireTenant c = Ok tn -> unclaimed g tn x) ->
  (forall r g', CtInv g' -> Q r g') -> wp ct_contract (ask c (ContactUpdate x)) Q g.
Proof.
  intros HI Hwf Hun HQ. split; [done|]. intros r g' Hr. ct_unfold Hr. apply HQ.
  destruct Hr as [[-> _]|(tn & old & Hc & Hold & ->)]; [done|].
  destruct (ci_keys g HI _ _ Hold) as [Hkey Hid]. injection Hkey as -> Hido. rewrite Hido.
  change (ct_TenantID old, ct_ID old) with (ct_key (stored_contact old x)).
  apply CtInv_put; [done|done|by apply stored_wf|]. cbn. intros id y j Hy Hx Hiy. cbn.
  rewrite <- Hido. by apply (Hun _ Hc id y j).
Qed.

Lemma CtInv_create (c : Ctx) (g : CtView) (x : Contact) (Q : result unit -> CtView -> Prop) :
  CtInv g -> ct_ID x <> "" -> contact_wf x -> unclaimed g (ct_TenantID x) x ->
  (forall r g', CtInv g' -> Q r g') -> wp ct_contract (ask c (ContactCreate x)) Q g.
Proof.
  intros HI Hid Hwf Hun HQ. split; [done|]. intros r g' Hr. ct_unfold Hr. apply HQ.
  destruct Hr as [[-> _]|[_ ->]]; [done|]. by apply CtInv_put.
Qed.

(** The calls that neither write nor read the contact an operation is about. *)
Definition quiet (R : Type) (c : Ctx) (e : ContactPort R) : Prop :=
  match e with ContactCreate _ | ContactUpdate _ | ContactFindByID _ => False | _ => True end.

Lemma quiet_inert : inert_in (fun _ _ _ _ => True) ct_post quiet.
Proof.
  split; [done|]. intros R c e g r g' Hq. destruct e; cbn; try done; by (intros [? ?] || intros).
Qed.

Ltac quiet_step := calls_step ltac:(exact I).

Lemma wp_quiet {A} (m : CtM A) (Q : A -> CtView -> Prop) g :
  calls quiet m -> (forall a, Q a g) -> wp ct_contract m Q g.
Proof. apply (wp_inert _ _ quiet), quiet_inert. Qed.

Lemma wp_quiet_bind {A B} (m : CtM A) (f : A -> CtM B) Q g :
  calls quiet m -> (forall a, wp ct_contract (f a) Q g) -> wp ct_contract (bind m f) Q g.
Proof. apply (wp_inert_bind _ _ quiet), quiet_inert. Qed.

Lemma wp_quiet_bind_ok {A B} (m : CtM (result A)) (f : A -> CtM (result B)) Q g :
  calls quiet m -> (forall e, Q (Err e) g) -> (forall a, wp ct_contract (f a) Q g) ->
  wp ct_contract (bind_ok m f) Q g.
Proof. apply (wp_inert_bind_ok _ _ quiet), quiet_inert. Qed.

(** ** Normalized lists *)

Lemma phones_loop_NoDup lib phones : forall i out seen errs,
  NoDup out -> Forall (fun p => p ∈ seen) out -> NoDup (phones_loop lib i phones out seen errs).1.
Proof.
  induction phones as [|p phones IH]; intros i out seen errs Hnd Hs; [done|]. cbn [phones_loop].
  case_match; [by apply IH|]. destruct (NormalizePhoneE164 lib p) as [e []]; [|by apply IH].
  case_bool_decide as Hin; [by apply IH|]. apply IH.
  - apply NoDup_app. split; [done|]. split; [|by apply NoDup_singleton].
    intros x Hx ->%list_elem_of_singleton. rewrite Forall_forall in Hs. by apply Hin, Hs.
  - apply Forall_app. split; [|repeat constructor; set_solver].
    eapply Forall_impl; [exact Hs|]. set_solver.
Qed.

Lemma phones_loop_valid lib (P : string -> Prop) phones : forall i out seen errs,
  (forall raw e, NormalizePhoneE164 lib raw = (e, true) -> P e) -> Forall P out ->
  Forall P (phones_loop lib i phones out seen errs).1.
Proof.
  induction phones as [|p phones IH]; intros i out seen errs HP Ho; [done|]. cbn [phones_loop].
  case_match; [by apply IH|]. destruct (NormalizePhoneE164 lib p) as [e []] eqn:He; [|by apply IH].
  case_match; [by apply IH|]. apply IH; [done|]. apply Forall_app. split; [done|].
  repeat constructor. by apply (HP p).
Qed.

Definition identity_ok (lower : Z -> Z) (i : ChannelIdentity) : Prop :=
  validIdentityChannel lower (ci_Channel i) = true /\ ci_Channel i <> "" /\ ci_ExternalID i <> "".

Lemma identities_loop_ok lower ids : forall i out seen errs,
  NoDup out -> Forall (fun x => identity_key (ci_Channel x) (ci_ExternalID x) ∈ seen) out ->
  Forall (identity_ok lower) out ->
  let r := (identities_loop lower i ids out seen errs).1 in NoDup r /\ Forall (identity_ok lower) r.
Proof.
  induction ids as [|x ids IH]; intros i out seen errs Hnd Hs Hok; [done|]. cbn [identities_loop]. cbn zeta.
  set (ch := to_lower _ _). set (ex := trim_space (ci_ExternalID x)).
  destruct (_ && _) eqn:Hv; [by apply IH|]. destruct (_ || _) eqn:He; [by apply IH|].
  destruct (bool_decide (identity_key ch ex ∈ seen)) eqn:Hin; [by apply IH|].
  apply bool_decide_eq_false in Hin. apply orb_false_iff in He as [Hch Hex].
  apply bool_decide_eq_false in Hch, Hex. rewrite (bool_decide_eq_false_2 _ Hch) in Hv. cbn in Hv.
  apply IH.
  - apply NoDup_app. split; [done|]. split; [|by apply NoDup_singleton].
    intros y Hy ->%list_elem_of_singleton. rewrite Forall_forall in Hs. by apply Hin, (Hs _ Hy).
  - apply Forall_app. split; [|repeat constructor; cbn; set_solver].
    eapply Forall_impl; [exact Hs|]. cbn. set_solver.
  - apply Forall_app. split; [done|]. repeat constructor; cbn; try done.
    by destruct (validIdentityChannel lower ch).
Qed.

Lemma normalized_identities lower ids :
  let r := (normalizeIdentitiesValidated lower ids).1 in NoDup r /\ Forall (identity_ok lower) r.
Proof. apply identities_loop_ok; constructor. Qed.

Lemma normalized_phones lib ids : NoDup (normalizePhonesValidated lib ids).1.
Proof. apply phones_loop_NoDup; constructor. Qed.

(** ** Uniqueness checks *)

Lemma check_phones_quiet c self phones : calls quiet (check_phones c self phones).
Proof. induction phones as [|p l IH]; [done|]. cbn [check_phones]. by repeat quiet_step. Qed.

Lemma checkDuplicate_quiet c self d phones : calls quiet (checkDuplicate c self d phones).
Proof.
  unfold checkDuplicate. apply calls_bind; [by repeat quiet_step|].
  intros [e|]; [done|apply check_phones_quiet].
Qed.

(** What the check on identities establishes: each is held by [self] at most. *)
Definition claimed_by_self (g : CtView) (tn self : string) (id : ChannelIdentity) : Prop :=
  forall j y, g !! (tn, j) = Some y -> holds_identity id y -> j = self.

Lemma lookup_identity_free c g tn self id r e :
  CtInv g -> RequireTenant c = Ok tn -> lookup_post c g (holds_identity id) r ->
  taken_by_other self r e = None -> claimed_by_self g tn self id.
Proof.
  intros HI Hc Hr Ht j y Hy Hh. destruct r as [x|err]; cbn in *.
  - destruct Hr as [(tn' & Hc' & Hx) Hhx]. rewrite Hc in Hc'. injection Hc' as <-.
    case_bool_decide as Heq; [|done]. rewrite <- Heq. by apply (ci_unique g HI tn j (ct_ID x) y x id).
  - destruct (is_not_found err); [|done]. by destruct (Hr eq_refl tn j y Hc Hy).
Qed.

Lemma checkIdentityUnique_wp c self ids tn g :
  CtInv g -> RequireTenant c = Ok tn ->
  wp ct_contract (checkIdentityUnique c self ids)
    (fun r g' => g' = g /\ (r = None -> Forall (claimed_by_self g tn self) ids)) g.
Proof.
  intros HI Hc. induction ids as [|i ids IH]; [by split|]. cbn [checkIdentityUnique].
  ct_call r g1 H1. destruct H1 as [-> Hr]. destruct (taken_by_other self r _) eqn:Ht; [by split|].
  eapply wp_mono; [apply _| |exact IH]. intros r' g' [-> Hall]. split; [done|]. intros ->.
  constructor; [|by apply Hall]. destruct i. by eapply lookup_identity_free.
Qed.

Lemma claimed_unclaimed g tn x :
  Forall (claimed_by_self g tn (ct_ID x)) (ct_Identities x) -> unclaimed g tn x.
Proof.
  intros Hall id y j Hy Hx Hh. rewrite Forall_forall in Hall. by apply (Hall id Hx j y).
Qed.

Lemma claimed_by_none g tn x :
  CtInv g -> Forall (claimed_by_self g tn "") (ct_Identities x) -> unclaimed g tn x.
Proof.
  intros HI Hall id y j Hy Hx Hh. rewrite Forall_forall in Hall.
  pose proof (Hall id Hx j y Hy Hh) as ->. destruct (ci_keys g HI _ _ Hy) as [Hk Hne]. unfold ct_key in Hk. congruence.
Qed.

(** ** The operations keep the invariant *)

Definition keeps_inv {A} (m : CtM A) : Prop := forall g, CtInv g -> wp ct_contract m (fun _ g' => CtInv g') g.

Lemma normalizeTags_quiet s c tags : calls quiet (normalizeTags s c tags).
Proof. unfold normalizeTags. repeat quiet_step. Qed.

Lemma validateAvatar_quiet s c a v : calls quiet (validateAvatar s c a v).
Proof. unfold validateAvatar. repeat quiet_step. Qed.

(** After the write: an audit entry and a webhook. *)
Ltac quiet_end := apply wp_quiet; [solve [repeat quiet_step]|done].

Lemma Create_inv s c cmd : keeps_inv (Create s c cmd).
Proof.
  intros g HI. unfold Create. destruct (RequireTenant c) as [tn|e] eqn:Hc; [|done].
  cbn [bind_ok bind]. cbn zeta. pose proof (normalized_phones (cs_phones s) (nc_Phones cmd)) as Hph.
  destruct (normalizePhonesValidated _ _) as [phones perr]. cbn in Hph.
  destruct (NormalizeDocument _) as [document docOK]. destruct (normalizeEmailStrict _ _ _) as [email emailOK].
  pose proof (normalized_identities (cs_lower s) (nc_ExternalIDs cmd)) as Hids.
  destruct (normalizeIdentitiesValidated _ _) as [identities ierr]. cbn zeta in Hids. cbn in Hids.
  apply wp_quiet_bind; [apply validateAvatar_quiet|]. intros v. case_match; [done|].
  unfold unless_err. apply wp_quiet_bind; [apply checkDuplicate_quiet|]. intros [e|]; [done|].
  apply wp_bind; [apply _|]. eapply wp_mono; [apply _| |by apply checkIdentityUnique_wp].
  intros [e|] g' [-> Hfree]; [done|]. specialize (Hfree eq_refl).
  ct_call now g1 H1. subst g1. ct_call newid g1 H1. destruct H1 as [Hid ->].
  apply wp_quiet_bind; [apply normalizeTags_quiet|]. intros tags. apply wp_bind_ok; [apply _|].
  destruct Hids as [Hnd _]. apply CtInv_create; [done|done| | |].
  - split; [by destruct phones|done|done].
  - apply claimed_by_none; done.
  - intros [?|e] g' HI'; [quiet_end|done].
Qed.

(** A value of a field that an edit may leave: the old one, or one of the accepted. *)
Definition kept_or {A} (old new : A) (P : A -> Prop) : Prop := new = old \/ P new.

Definition document_ok (d : string) : Prop := exists raw, NormalizeDocument raw = (d, true).
Definition email_ok (s : ContactService) (e : string) : Prop := e = "" \/ is_address (cs_parse_ip s) e = true.
Definition identities_ok (s : ContactService) (l : list ChannelIdentity) : Prop :=
  NoDup l /\ Forall (identity_ok (cs_lower s)) l.
Definition phones_ok (s : ContactService) (l : list string) : Prop :=
  NoDup l /\ Forall (fun p => exists raw, NormalizePhoneE164 (cs_phones s) raw = (p, true)) l.

(** What an edit leaves as it was, the key and the phones, and what it may assign. *)
Record edits (s : ContactService) (old new : Contact) : Prop := {
  ed_key : ct_key new = ct_key old;
  ed_phones : ct_Phones new = ct_Phones old;
  ed_phone : ct_Phone new = ct_Phone old;
  ed_name : kept_or (ct_Name old) (ct_Name new) (fun n => n <> "");
  ed_document : kept_or (ct_Document old) (ct_Document new) document_ok;
  ed_email : kept_or (ct_Email old) (ct_Email new) (email_ok s);
  ed_identities : kept_or (ct_Identities old) (ct_Identities new) (identities_ok s);
}.

Lemma edits_refl s x : edits s x x.
Proof. by split; [..|left|left|left|left]. Qed.

Lemma edits_wf s old new : contact_wf old -> edits s old new -> contact_wf new.
Proof.
  intros [Hp Hn Hi] [Hk Hps Hph _ _ _ Hids]. split; [by rewrite Hph, Hps|by rewrite Hps|].
  by destruct Hids as [->|[? _]].
Qed.

Lemma normalizeEmail_ok s raw e :
  normalizeEmailStrict (cs_lower s) (cs_parse_ip s) raw = (e, true) -> email_ok s e.
Proof.
  unfold normalizeEmailStrict. cbn zeta. case_bool_decide; [intros [= <-]; by left|].
  destruct (is_address _ _) eqn:Ha; intros [= <-]. by right.
Qed.

Lemma normalized_phones_ok s phones : phones_ok s (normalizePhonesValidated (cs_phones s) phones).1.
Proof.
  split; [apply normalized_phones|]. apply phones_loop_valid; [|constructor]. intros raw e. by exists raw.
Qed.

(** What an edit step does to the contact. *)
Definition edited (s : ContactService) (old : Contact) (cv : Contact * details) : Prop := edits s old cv.1.

Section Edits.
Context (s : ContactService) (c : Ctx) (old : Contact).

Lemma edit_name_ok o cv : edited s old cv -> edited s old (edit_name o cv).
Proof.
  unfold edited, edit_name. intros []. destruct o as [n|]; cbn; [|by split].
  case_bool_decide; split; try done. by right.
Qed.

Lemma edit_document_ok o cv : edited s old cv -> edited s old (edit_document o cv).
Proof.
  unfold edited, edit_document. intros []. destruct o as [d|]; cbn; [|by split].
  destruct (NormalizeDocument d) as [doc []] eqn:Hd; split; try done. right. by exists d.
Qed.

Lemma edit_email_ok o cv : edited s old cv -> edited s old (edit_email s o cv).
Proof.
  unfold edited, edit_email. intros []. destruct o as [m|]; cbn; [|by split].
  destruct (normalizeEmailStrict _ _ m) as [e []] eqn:He; split; try done. right.
  by apply normalizeEmail_ok in He.
Qed.

Lemma edit_notes_ok o cv : edited s old cv -> edited s old (edit_notes o cv).
Proof. intros []. by destruct o; split. Qed.

Lemma edit_phones_ok o cv : edited s old cv ->
  edited s old (edit_phones s o cv).2 /\ phones_ok s (edit_phones s o cv).1.
Proof.
  intros Hed. unfold edit_phones. destruct o as [phones|]; cbn; [|split; [exact Hed|split; [apply NoDup_nil_2|constructor]]].
  pose proof (normalized_phones_ok s phones) as Hph. by destruct (normalizePhonesValidated _ _).
Qed.

Lemma edit_identities_ok o cv : edited s old cv -> edited s old (edit_identities s o cv).
Proof.
  intros []. unfold edit_identities, edited. destruct o as [ids|]; cbn; [|by split].
  pose proof (normalized_identities (cs_lower s) ids) as Hids.
  destruct (normalizeIdentitiesValidated _ _) as [identities ierr]. split; try done. by right.
Qed.

Lemma edit_tags_ok o cv : edited s old cv ->
  calls quiet (edit_tags s c o cv) /\ returns (edited s old) (edit_tags s c o cv).
Proof.
  intros Hed. unfold edit_tags. destruct o; cbn [given]; [|done].
  split; [apply calls_bind; [apply normalizeTags_quiet|done]|].
  apply returns_bind_any. intros tags. by destruct Hed; split.
Qed.

Lemma edit_avatar_ok o cv : edited s old cv ->
  calls quiet (edit_avatar s c o cv) /\ returns (edited s old) (edit_avatar s c o cv).
Proof.
  intros Hed. unfold edit_avatar. destruct o; cbn [given]; [|done].
  split; [apply calls_bind; [apply validateAvatar_quiet|done]|].
  apply returns_bind_any. intros v. by destruct Hed; split.
Qed.

Lemma edit_attributes_ok o cv : edited s old cv ->
  calls quiet (edit_attributes c o cv) /\
  returns (fun r => match r with Ok cv => edited s old cv | Err _ => True end) (edit_attributes c o cv).
Proof.
  intros Hed. unfold edit_attributes. destruct o; cbn [given]; [|done].
  split; [repeat quiet_step|]. intros [r|e]; cbn; [by destruct Hed; split|].
  case_match; [by destruct Hed; split|done].
Qed.
End Edits.

Lemma store_edited_inv c tn x old g :
  CtInv g -> RequireTenant c = Ok tn -> g !! (tn, ct_ID old) = Some old ->
  ct_key x = ct_key old -> contact_wf x ->
  wp ct_contract (store_edited c x) (fun _ g' => CtInv g') g.
Proof.
  intros HI Hc Hx Hk Hwf. unfold store_edited, unless_err.
  apply wp_quiet_bind; [apply checkDuplicate_quiet|]. intros [e|]; [done|].
  apply wp_bind; [apply _|]. eapply wp_mono; [apply _| |by apply checkIdentityUnique_wp].
  intros [e|] g' [-> Hfree]; [done|]. specialize (Hfree eq_refl).
  ct_call now g1 H1. subst g1. cbn zeta. apply wp_bind_ok; [apply _|]. apply CtInv_update; [done|by destruct Hwf| |].
  - intros tn' Hc'. rewrite Hc in Hc'. injection Hc' as <-. by apply claimed_unclaimed.
  - intros [?|e] g' HI'; [quiet_end|done].
Qed.

(** The contact [Update] stores: an edit of what it read, and its phones or new ones. *)
Definition edited_contact (s : ContactService) (old new : Contact) : Prop :=
  exists x, edits s old x /\
    (new = x \/ exists phones, phones_ok s phones /\ new = SetPhones phones x).

Lemma edited_contact_wf s old new : contact_wf old -> edited_contact s old new ->
  contact_wf new /\ ct_key new = ct_key old.
Proof.
  intros Hwf (x & Hed & Hnew). pose proof (ed_key _ _ _ Hed) as Hk. apply (edits_wf _ _ _ Hwf) in Hed.
  destruct Hnew as [->|(phones & [Hnd _] & ->)]; [done|]. split; [|done].
  destruct Hed as [_ _ ?]. by split; [destruct phones|..].
Qed.

(** The body of [Update] up to its checks, for any contract that lets the validators run. *)
Lemma contact_update_wp {G} pre post (Q : result Contact -> G -> Prop) s c x cmd g :
  inert_in pre post quiet -> (forall e, Q (Err e) g) ->
  (forall new, edited_contact s x new -> wp (pre_post pre post) (store_edited c new) Q g) ->
  wp (pre_post pre post) (update_read s c cmd x) Q g.
Proof.
  intros Hin HErr Hstore. unfold update_read.
  assert (edited s x (x, ∅)) as Hed by apply edits_refl. revert Hed. generalize (x, ∅ : details). intros cv Hed.
  apply (edit_name_ok s x (uc_Name cmd)), (edit_phones_ok s x (uc_Phones cmd)) in Hed as [Hed Hph].
  destruct (edit_phones s (uc_Phones cmd) _) as [newPhones cv1]. cbn in Hed, Hph. cbn zeta.
  apply (edit_document_ok s x (uc_Document cmd)), (edit_email_ok s x (uc_Email cmd)),
    (edit_tags_ok s c x (uc_Tags cmd)) in Hed as [Hq Hed].
  apply wp_bind; [apply _|]. eapply wp_inert_returns; [exact Hin|exact Hq|exact Hed|].
  clear cv cv1 Hed Hq. intros cv Hed.
  apply (edit_notes_ok s x (uc_Notes cmd)), (edit_identities_ok s x (uc_ExternalIDs cmd)),
    (edit_avatar_ok s c x (uc_AvatarAttachmentID cmd)) in Hed as [Hq Hed].
  apply wp_bind; [apply _|]. eapply wp_inert_returns; [exact Hin|exact Hq|exact Hed|].
  clear cv Hed Hq. intros cv Hed.
  apply (edit_attributes_ok s c x (uc_CustomAttributes cmd)) in Hed as [Hq Hed].
  apply wp_bind_ok; [apply _|]. eapply wp_inert_returns; [exact Hin|exact Hq|exact Hed|].
  clear cv Hed Hq. intros [cv|e] Hed; [|apply HErr].
  case_match; [apply HErr|]. apply Hstore. exists cv.1. split; [exact Hed|].
  unfold given. case_match; [right; eauto|by left].
Qed.

Lemma Update_inv s c ctid cmd : keeps_inv (Update s c ctid cmd).
Proof.
  intros g HI. unfold Update. destruct (RequireTenant c) as [tn|e] eqn:Hc; [|done].
  cbn [bind_ok bind]. ct_call_ok r g1 H1. destruct H1 as [-> Hr]. destruct r as [x|e]; [|done].
  destruct Hr as [(tn' & Hc' & Hx) _]. rewrite Hc in Hc'. injection Hc' as <-.
  apply contact_update_wp; [apply quiet_inert|done|]. intros new Hnew.
  apply edited_contact_wf in Hnew as [Hwf Hk]; [|by apply (ci_wf g HI _ _ Hx)].
  by apply (store_edited_inv c tn _ x).
Qed.

Lemma HasIdentity_spec ch ex x : HasIdentity ch ex x = true <-> holds_identity (mkChannelIdentity ch ex) x.
Proof.
  unfold HasIdentity, holds_identity. rewrite existsb_exists. split.
  - intros ([ch' ex'] & Hin & [H1%bool_decide_eq_true H2%bool_decide_eq_true]%andb_true_iff).
    cbn in *. subst. by apply list_elem_of_In.
  - intros Hin. eexists. split; [by apply list_elem_of_In|]. cbn. by rewrite !bool_decide_eq_true_2.
Qed.

Lemma append_identity_wf ch ex x :
  contact_wf x -> HasIdentity ch ex x = false -> contact_wf (append_identity ch ex x).
Proof.
  intros [? ? ?] Hno. split; [done|done|]. cbn. apply NoDup_app. split; [done|].
  split; [|by apply NoDup_singleton]. intros i Hi ->%list_elem_of_singleton.
  apply HasIdentity_spec in Hi. congruence.
Qed.

Lemma found_unclaimed c g tn x y :
  CtInv g -> RequireTenant c = Ok tn -> found c g x -> ct_ID y = ct_ID x ->
  (forall id, holds_identity id y -> holds_identity id x \/ claimed_by_self g tn (ct_ID x) id) ->
  unclaimed g tn y.
Proof.
  intros HI Hc (tn' & Hc' & Hx) Hid Hy id z j Hz Hiy Hiz. rewrite Hc in Hc'. injection Hc' as <-.
  rewrite Hid. destruct (Hy id Hiy) as [Hix|Hcl]; [|by apply (Hcl j z)].
  by apply (ci_unique g HI tn j (ct_ID x) z x id).
Qed.

Lemma AddChannelIdentity_inv s c i ch ex : keeps_inv (AddChannelIdentity s c i ch ex).
Proof.
  intros g HI. unfold AddChannelIdentity. destruct (RequireTenant c) as [tn|e] eqn:Hc; [|done].
  cbn [bind_ok bind]. cbn zeta. set (ch' := to_lower _ _). set (ex' := trim_space ex). do 3 (case_match; [done|]).
  ct_call_ok r g1 H1'. destruct H1' as [-> Hr]. destruct r as [x|e]; [|done].
  destruct Hr as [Hx _]. destruct (HasIdentity ch' ex' x) eqn:Hh; [done|].
  assert (claimed_by_self g tn (ct_ID x) (mkChannelIdentity ch' ex') ->
    wp ct_contract (add_identity c ch' ex' x) (fun _ g' => CtInv g') g) as Hadd.
  { intros Hcl. unfold add_identity. ct_call now g1 H1'. subst g1. cbn zeta. apply wp_bind_ok; [apply _|].
    apply CtInv_update; [done| | |].
    - pose proof Hx as (tn' & _ & Hst). pose proof (append_identity_wf ch' ex' x (ci_wf g HI _ _ Hst) Hh) as [? ? ?].
      by split.
    - intros tn' Hc'. rewrite Hc in Hc'. injection Hc' as <-. eapply found_unclaimed; [done|done|exact Hx|done|].
      intros id [Hid|Hid%list_elem_of_singleton]%elem_of_app; [by left|subst; by right].
    - intros [?|e] g' HI'; [quiet_end|done]. }
  ct_call r g1 H1'. destruct H1' as [-> Hr]. destruct r as [other|e].
  - destruct (bool_decide (ct_ID other = ct_ID x)) eqn:Heq; [|done].
    apply bool_decide_eq_true in Heq. apply Hadd.
    apply (lookup_identity_free c g tn _ _ (Ok other) (Internal "")); [done|done|done|].
    cbn. by rewrite bool_decide_eq_true_2.
  - destruct (is_not_found e) eqn:He; [|done]. apply Hadd.
    apply (lookup_identity_free c g tn _ _ (Err e) (Internal "")); [done|done|done|]. cbn. by rewrite He.
Qed.

(** ** What an inbound message may change *)

Lemma containsPhone_spec l p : containsPhone l p = true <-> p ∈ l.
Proof.
  unfold containsPhone. rewrite existsb_exists. split.
  - intros (x & Hx & ->%bool_decide_eq_true). by apply list_elem_of_In.
  - intros Hp. exists p. split; [by apply list_elem_of_In|by apply bool_decide_eq_true].
Qed.

Lemma AddPhone_wf p x : contact_wf x -> contact_wf (AddPhone p x).
Proof.
  intros [H1 H2 H3]. unfold AddPhone. case_match; [done|]. destruct (containsPhone _ _) eqn:Hp; [done|].
  split; [by destruct (ct_Phones x)| |done]. cbn. apply NoDup_app. split; [done|].
  split; [|by apply NoDup_singleton]. intros q Hq ->%list_elem_of_singleton.
  apply containsPhone_spec in Hq. congruence.
Qed.

(** An inbound merge keeps the key, and adds at most the identity the message came by. *)
Definition merged (id : ChannelIdentity) (x y : Contact) : Prop :=
  ct_key y = ct_key x /\ (contact_wf x -> contact_wf y) /\
  (forall i, holds_identity i y -> holds_identity i x \/ i = id).

Lemma merged_refl id x : merged id x x.
Proof. split_and!; [done|done|]. by left. Qed.

Lemma merged_set_new id b f x p :
  merged id x p.1 -> (b = true -> forall y, merged id x y -> y = p.1 -> merged id x (f y)) ->
  merged id x (set_new b f p).1.
Proof. intros Hp Hf. destruct b; cbn; [|done]. by apply Hf. Qed.

Ltac merged_field := intros _ [? ? ? ? ? ? ? ? ? ? ? ? ? ? ?] (? & Hwf & ?) _; split_and!;
  [done| |done]; intros [? ? ?]%Hwf; by split.

Lemma merge_inbound_merged id n p d x : merged id x (merge_inbound n p d x).1.
Proof.
  unfold merge_inbound. cbn zeta. apply merged_set_new; [|merged_field].
  apply merged_set_new; [|].
  - apply merged_set_new; [apply merged_refl|merged_field].
  - intros _ y (Hk & Hwf & Hi) _.
    assert (ct_key (AddPhone p y) = ct_key y /\ ct_Identities (AddPhone p y) = ct_Identities y) as [Hk' Hi'].
    { unfold AddPhone. by repeat case_match. }
    split_and!; [congruence|intros Hx; by apply AddPhone_wf, Hwf|]. intros i. unfold holds_identity in *.
    rewrite Hi'. apply Hi.
Qed.

Lemma merge_group_merged ch jid n d x : merged (mkChannelIdentity ch jid) x (merge_group ch jid n d x).1.
Proof.
  unfold merge_group. cbn zeta. apply merged_set_new; [|merged_field]. apply merged_set_new; [|merged_field].
  apply merged_set_new.
  - apply merged_set_new; [apply merged_refl|merged_field].
  - intros Hno y (Hk & Hwf & Hi) Hy. split_and!; [done| |].
    + intros Hx. apply append_identity_wf; [by apply Hwf|]. rewrite Hy. by apply negb_true_iff.
    + intros i [Hin|Hin%list_elem_of_singleton]%elem_of_app; [by apply Hi|by right].
Qed.

Lemma store_changed_inv c now x y ch g tn :
  CtInv g -> RequireTenant c = Ok tn -> found c g x -> holds_identity ch x -> merged ch x y.1 ->
  wp ct_contract (store_changed c now y) (fun _ g' => CtInv g') g.
Proof.
  intros HI Hc Hx Hch (Hk & Hwf & Hi). destruct y as [y changed]. cbn [fst] in *. unfold store_changed. destruct changed; [|done].
  cbn zeta. apply wp_bind_ok; [apply _|]. pose proof Hx as (tn' & _ & Hst).
  specialize (Hwf (ci_wf g HI _ _ Hst)). apply CtInv_update; [done| | |].
  - destruct Hwf. by split.
  - intros tn'' Hc'. rewrite Hc in Hc'. injection Hc' as <-.
    eapply found_unclaimed; [done|done|exact Hx|by injection Hk|].
    intros i Hiy. left. by destruct (Hi i Hiy) as [?| ->].
  - intros [?|e] g' HI'; [quiet_end|done].
Qed.

Lemma store_new_inv c x g tn err id :
  CtInv g -> RequireTenant c = Ok tn -> is_not_found err = true ->
  lookup_post c g (holds_identity id) (Err err) ->
  ct_ID x <> "" -> contact_wf x -> ct_TenantID x = tn -> ct_Identities x = [id] ->
  wp ct_contract (store_new c x) (fun _ g' => CtInv g') g.
Proof.
  intros HI Hc Herr Hr Hid Hwf Htn Hids. unfold store_new. apply wp_bind_ok; [apply _|].
  apply CtInv_create; [done|done|done| |].
  - intros i y j Hy Hx Hiy. unfold holds_identity in Hx. rewrite Hids, list_elem_of_singleton in Hx. subst i.
    subst tn. by destruct (Hr Herr _ j y Hc Hy).
  - intros [?|e] g' HI'; [quiet_end|done].
Qed.

Lemma UpsertFromInbound_inv c cmd : keeps_inv (UpsertFromInbound_ c cmd).
Proof.
  intros g HI. unfold UpsertFromInbound_. destruct (RequireTenant c) as [tn|e] eqn:Hc; [|done].
  cbn [bind_ok bind]. cbn zeta. case_match; [done|].
  ct_call now g1 H1. subst g1. ct_call r g1 H1. destruct H1 as [-> Hr]. destruct r as [x|err].
  - destruct Hr as [Hx Hh]. eapply store_changed_inv; [done..|]. apply merge_inbound_merged.
  - destruct (is_not_found err) eqn:He; [|done]. cbn [negb]. ct_call newid g1 H1. destruct H1 as [Hid ->].
    case_match; (eapply store_new_inv; [done..| | |]); try done; split; cbn; try constructor; try done;
      (set_solver || constructor).
Qed.

Lemma UpsertGroupContact_inv c ch jid n d : keeps_inv (UpsertGroupContact c ch jid n d).
Proof.
  intros g HI. unfold UpsertGroupContact. destruct (RequireTenant c) as [tn|e] eqn:Hc; [|done].
  cbn [bind_ok bind]. cbn zeta. case_match; [done|].
  ct_call now g1 H1. subst g1. ct_call r g1 H1. destruct H1 as [-> Hr]. destruct r as [x|err].
  - destruct Hr as [Hx Hh]. eapply store_changed_inv; [done..|]. apply merge_group_merged.
  - destruct (is_not_found err) eqn:He; [|done]. cbn [negb]. ct_call newid g1 H1. destruct H1 as [Hid ->].
    (eapply store_new_inv; [done..| | |]); try done; split; cbn; try constructor; try done;
      (set_solver || constructor).
Qed.
