(* ===== verification/ContactResults.v ===== *)
(** * Contacts: the theorems

    One identity, one contact, whatever the history; what the CRM writes is validated; an
    inbound message settles, except for a group that was not one; two first messages at
    once. *)
From S2P Require Import Prelude GoStrings AppError Authz Shared ConvEntity Prog Ports ConvBase Contacts.
From S2P Require Import ContactProps.

(** ** Histories *)

(** What the service is asked over time. *)
Inductive CtOp :=
| OpCreate (c : Ctx) (cmd : CreateContact)
| OpUpdate (c : Ctx) (id : string) (cmd : UpdateContact)
| OpAddIdentity (c : Ctx) (id channel externalID : string)
| OpInbound (c : Ctx) (cmd : UpsertFromInbound)
| OpGroup (c : Ctx) (channel groupJID name description : string).

Section Histories.
Context (s : ContactService) {S : Type} (h : handler Ctx ContactPort S).

Definition ct_op (st : S) (op : CtOp) : S :=
  match op with
  | OpCreate c cmd => (run h (Create s c cmd) st).2
  | OpUpdate c id cmd => (run h (Update s c id cmd) st).2
  | OpAddIdentity c id ch ex => (run h (AddChannelIdentity s c id ch ex) st).2
  | OpInbound c cmd => (run h (UpsertFromInbound_ c cmd) st).2
  | OpGroup c ch jid n d => (run h (UpsertGroupContact c ch jid n d) st).2
  end.

Definition ct_history (ops : list CtOp) (st : S) : S := fold_left ct_op ops st.

Context (view : S -> CtView) `{!ContactStore h view}.

Lemma run_keeps {A} (m : CtM A) st : keeps_inv m -> CtInv (view st) -> CtInv (view (run h m st).2).
Proof. intros Hm HI. pose proof (ct_run h view m _ st (Hm _ HI)) as Hr. by destruct (run h m st). Qed.

Lemma ct_history_inv ops st : CtInv (view st) -> CtInv (view (ct_history ops st)).
Proof.
  revert st. unfold ct_history. induction ops as [|op ops IH]; intros st HI; cbn [fold_left]; [done|].
  apply IH. destruct op; cbn [ct_op]; apply run_keeps; try done.
  - apply Create_inv.
  - apply Update_inv.
  - apply AddChannelIdentity_inv.
  - apply UpsertFromInbound_inv.
  - apply UpsertGroupContact_inv.
Qed.
End Histories.

Lemma CtInv_empty : CtInv ∅.
Proof. by split. Qed.

(** C6. One identity, one contact: after any history of the operations, one after the other and
    each of them possibly failing on the way, no two contacts of a tenant carry the same
    channel identity; every contact is stored under its own tenant and id, its primary
    phone is the first of its phones, and no phone or identity is on it twice. *)
Theorem identities_route_to_one_contact (s : ContactService) {S} (h : handler Ctx ContactPort S)
    (view : S -> CtView) `{!ContactStore h view} (ops : list CtOp) (s0 : S) :
  view s0 = ∅ ->
  let g := view (ct_history s h ops s0) in
  (forall tn i j x y id, g !! (tn, i) = Some x -> g !! (tn, j) = Some y ->
     id ∈ ct_Identities x -> id ∈ ct_Identities y -> i = j) /\
  (forall k x, g !! k = Some x ->
     k = (ct_TenantID x, ct_ID x) /\ ct_Phone x = default "" (head (ct_Phones x)) /\
     NoDup (ct_Phones x) /\ NoDup (ct_Identities x)).
Proof.
  intros H0. cbn zeta.
  assert (CtInv (view s0)) as HI by (rewrite H0; apply CtInv_empty).
  destruct (ct_history_inv s h view ops s0 HI) as [Hk Hw Hu]. split; [exact Hu|].
  intros k x Hx. destruct (Hk k x Hx) as [-> _]. by destruct (Hw _ x Hx).
Qed.

(** ** What the CRM writes *)

(** A contact as the CRM may create it. *)
Record crm_valid (s : ContactService) (x : Contact) : Prop := {
  cv_name : ct_Name x <> "";
  cv_phones : phones_ok s (ct_Phones x) /\ ct_Phone x = default "" (head (ct_Phones x));
  cv_document : document_ok (ct_Document x);
  cv_email : email_ok s (ct_Email x);
  cv_identities : identities_ok s (ct_Identities x);
}.

(** The contact read, and what may be written after it. *)
Definition crm_pre (s : ContactService) (R : Type) (c : Ctx) (e : ContactPort R) (g : option Contact) : Prop :=
  match e with
  | ContactCreate x => crm_valid s x /\ RequireTenant c = Ok (ct_TenantID x)
  | ContactUpdate x => exists old, g = Some old /\ edited_contact s old x
  | _ => True
  end.

Definition crm_post (R : Type) (c : Ctx) (e : ContactPort R) (g : option Contact) (r : R)
    (g' : option Contact) : Prop :=
  match e in ContactPort R return R -> Prop with
  | ContactFindByID _ => fun r => g' = match r with Ok x => Some x | Err _ => g end
  | _ => fun _ => g' = g
  end r.

Abbreviation crm s := (pre_post (crm_pre s) crm_post).

Lemma crm_quiet s : inert_in (crm_pre s) crm_post quiet.
Proof. split; intros R c e g; destruct e; cbn; try done; by intros. Qed.

Lemma crm_skip {A B} s (m : CtM A) (f : A -> CtM B) Q g :
  calls quiet m -> (forall a, wp (crm s) (f a) Q g) -> wp (crm s) (bind m f) Q g.
Proof. apply (wp_inert_bind _ _ quiet), crm_quiet. Qed.

Lemma checkIdentityUnique_quiet c self ids : calls quiet (checkIdentityUnique c self ids).
Proof. induction ids as [|i ids IH]; [done|]. cbn [checkIdentityUnique]. by repeat quiet_step. Qed.

Lemma require_ok_empty b f m v : require_ok b f m v = ∅ -> b = true /\ v = ∅.
Proof. unfold require_ok. destruct b; [done|]. intros H. by apply insert_non_empty in H. Qed.

Lemma mergeDetails_empty (v e : details) : mergeDetails v e = ∅ -> v = ∅.
Proof. unfold mergeDetails. intros H. pose proof (map_positive_l _ _ H) as ->. by rewrite (left_id_L ∅ (∪)) in H. Qed.

Lemma validateAvatar_grows s c a v :
  returns (fun v' => v' = ∅ -> v = ∅) (validateAvatar s c a v).
Proof.
  unfold validateAvatar. case_match; [exact (fun H => H)|]. intros [r|e]; [exact (fun H => H)|].
  intros He. by apply mergeDetails_empty in He.
Qed.

Lemma Create_valid s c cmd : wp (crm s) (Create s c cmd) (fun _ _ => True) None.
Proof.
  unfold Create. destruct (RequireTenant c) as [tn|e] eqn:Hc; [|done].
  cbn [bind_ok bind]. cbn zeta. pose proof (normalized_phones_ok s (nc_Phones cmd)) as Hph.
  destruct (normalizePhonesValidated _ _) as [phones perr]. cbn in Hph.
  destruct (NormalizeDocument _) as [document docOK] eqn:Hdoc.
  destruct (normalizeEmailStrict _ _ _) as [email emailOK] eqn:Hem.
  pose proof (normalized_identities (cs_lower s) (nc_ExternalIDs cmd)) as Hids.
  destruct (normalizeIdentitiesValidated _ _) as [identities ierr]. cbn zeta in Hids. cbn in Hids.
  apply wp_bind; [apply _|]. eapply wp_inert_returns;
    [apply crm_quiet|apply validateAvatar_quiet|apply validateAvatar_grows|].
  intros v Hv. destruct (bool_decide (v = ∅)) eqn:Hempty; [|done].
  apply bool_decide_eq_true, Hv, mergeDetails_empty, require_ok_empty in Hempty as [-> He].
  apply require_ok_empty in He as [-> He]. apply mergeDetails_empty, require_ok_empty in He as [Hname _].
  apply negb_true_iff, bool_decide_eq_false in Hname. clear Hv. cbn [negb].
  unfold unless_err. apply crm_skip; [apply checkDuplicate_quiet|]. intros [e|]; [done|].
  apply crm_skip; [apply checkIdentityUnique_quiet|]. intros [e|]; [done|].
  do 2 (apply crm_skip; [exact (conj I (fun _ => I))|]; intros ?).
  apply crm_skip; [apply normalizeTags_quiet|]. intros tags.
  apply wp_bind_ok; [apply _|]. split.
  - split; [|done]. split; cbn; try done; [split; [done|by destruct phones]|by exists (nc_Document cmd)|].
    by eapply normalizeEmail_ok.
  - intros [?|e] g _; [|done]. cbn [wp]. eapply wp_inert; [apply crm_quiet|by repeat quiet_step|by intros ?].
Qed.

Lemma edited_touched s old x now : edited_contact s old x -> edited_contact s old (set_ct_UpdatedAt now x).
Proof.
  intros (y & Hed & Hx). exists (set_ct_UpdatedAt now y). split; [by destruct Hed; split|].
  destruct Hx as [->|(phones & Hph & ->)]; [by left|right; by exists phones].
Qed.

Lemma Update_valid s c ctid cmd : wp (crm s) (Update s c ctid cmd) (fun _ _ => True) None.
Proof.
  unfold Update. destruct (RequireTenant c) as [tn|e] eqn:Hc; [|done].
  cbn [bind_ok bind]. apply wp_bind_ok; [apply _|]. split; [done|]. intros [x|e] g Hg; [|done].
  cbn in Hg. subst g. apply contact_update_wp; [apply crm_quiet|done|]. intros new Hnew. unfold store_edited, unless_err.
  apply crm_skip; [apply checkDuplicate_quiet|]. intros [e|]; [done|].
  apply crm_skip; [apply checkIdentityUnique_quiet|]. intros [e|]; [done|].
  apply crm_skip; [exact (conj I (fun _ => I))|]. intros now. cbn zeta.
  apply wp_bind_ok; [apply _|]. split; [exists x; split; [done|by apply edited_touched]|].
  intros [?|e] g _; [|done]. cbn [wp]. eapply wp_inert; [apply crm_quiet|by repeat quiet_step|by intros ?].
Qed.

(** C30. The CRM writes only validated values, whatever its dependencies answer: a contact is
    created under the caller's tenant with a name, phones that the phone library formatted,
    a canonical document, a well-formed email and supported, distinct identities; an update
    writes over what it read, each field unchanged or validated the same way. *)
Theorem crm_writes_are_validated (s : ContactService) (c : Ctx) :
  (forall cmd, wp (crm s) (Create s c cmd) (fun _ _ => True) None) /\
  (forall id cmd, wp (crm s) (Update s c id cmd) (fun _ _ => True) None).
Proof. split; [apply Create_valid|apply Update_valid]. Qed.

(** ** An inbound message settles *)

Lemma set_new_true b f x : x.2 = true -> (set_new b f x).2 = true.
Proof. by destruct b. Qed.

Lemma containsPhone_last l p : containsPhone (l ++ [p]) p = true.
Proof. apply containsPhone_spec, elem_of_app. right. by apply list_elem_of_singleton. Qed.

Lemma eqs_refl (x : string) : (x =! x) = true.
Proof. by apply bool_decide_eq_true. Qed.

(** The value kept of a text, and the phones kept, when a message brings [new]. *)
Definition keep (new old : string) : string := if new =! "" then old else new.
Definition with_phone (p : string) (l : list string) : list string :=
  if (p =! "") || containsPhone l p then l else l ++ [p].

Lemma keep_settles n o : (n <>! "") && (n <>! keep n o) = false.
Proof. unfold keep. case_bool_decide; cbn; [done|]. by rewrite eqs_refl. Qed.

Lemma keep_new n o : keep n o = if (n <>! "") && (n <>! o) then n else o.
Proof. unfold keep. repeat case_bool_decide; cbn; congruence. Qed.

Lemma with_phone_settles p l : (p <>! "") && negb (containsPhone (with_phone p l) p) = false.
Proof.
  unfold with_phone. case_bool_decide; [done|]. cbn [orb negb andb].
  destruct (containsPhone l p) eqn:Hc; [by rewrite Hc|by rewrite containsPhone_last].
Qed.

(** The three assignments, and the phones kept in step with the primary one. *)
Definition inbound_fields (name phone document : string) (x : Contact) : Contact :=
  let x := set_ct_Name (keep name (ct_Name x)) x in
  let x := if (phone <>! "") && negb (containsPhone (ct_Phones x) phone)
           then SetPhones (ct_Phones x ++ [phone]) x else x in
  set_ct_Document (keep document (ct_Document x)) x.

Lemma merge_inbound_fields n p d x : (merge_inbound n p d x).1 = inbound_fields n p d x.
Proof.
  unfold merge_inbound, inbound_fields. cbn zeta. rewrite !keep_new.
  assert (forall b (f : Contact -> Contact) y, (set_new b f y).1 = if b then f y.1 else y.1) as Hset by (by intros []).
  rewrite !Hset. clear Hset.
  destruct x as [i t k n0 ph phs doc em ids tg no av cu cr up]. cbn [fst ct_Name]. unfold AddPhone.
  destruct (bool_decide (p = "")) eqn:Hp, (containsPhone phs p) eqn:Hc, (n <>! ""), (n <>! n0);
    cbn [negb andb ct_Phones set_ct_Name]; rewrite ?Hp, ?Hc;
    cbn [negb andb ct_Phones ct_Document set_ct_Name SetPhones]; try rewrite Hc; by destruct (d <>! ""), (d <>! doc).
Qed.

(** A message seen again changes nothing: once the fields it brings are stored, the same
    message from the same contact finds nothing new; it never empties a field, never drops
    a phone and leaves every other field as it was. *)
Theorem inbound_messages_settle (name phone document : string) (now : Time) (old : Contact) :
  let new := (merge_inbound name phone document old).1 in
  let stored := stored_contact old (set_ct_UpdatedAt now new) in
  merge_inbound name phone document stored = (stored, false) /\
  ct_Name new = keep name (ct_Name old) /\
  ct_Document new = keep document (ct_Document old) /\
  ct_Phones new = with_phone phone (ct_Phones old) /\
  SetPhones (ct_Phones old) (set_ct_Document (ct_Document old) (set_ct_Name (ct_Name old) new))
    = SetPhones (ct_Phones old) old.
Proof.
  cbn zeta. rewrite merge_inbound_fields. set (x := inbound_fields name phone document old).
  assert (ct_Name x = keep name (ct_Name old) /\ ct_Document x = keep document (ct_Document old) /\
          ct_Phones x = with_phone phone (ct_Phones old)) as (Hn & Hd & Hp).
  { unfold x, inbound_fields, with_phone. cbn zeta. cbn [ct_Phones set_ct_Name].
    destruct (bool_decide (phone = "")), (containsPhone _ phone); done. }
  split_and!; [|done|done|done|].
  - unfold merge_inbound. cbn [stored_contact set_ct_UpdatedAt ct_Name]. rewrite Hn, keep_settles. cbn [set_new fst].
    cbn [stored_contact set_ct_UpdatedAt ct_Phones]. rewrite Hp, with_phone_settles. cbn [set_new fst].
    cbn [stored_contact set_ct_UpdatedAt ct_Document]. by rewrite Hd, keep_settles.
  - unfold x, inbound_fields. cbn zeta. by destruct old, (_ && _).
Qed.

(** A group never becomes one: a contact of another kind found under a group's identity is
    given the group kind in memory, but the store keeps the old kind, so every later message
    of the group finds it unhealed, writes it again and announces it updated. A contact
    stored as a group settles like any other. *)
Theorem group_kind_is_never_stored (channel groupJID name description : string) (now : Time) (old : Contact) :
  (blank description = true -> description = "") ->
  let merge := merge_group channel groupJID name description in
  let stored := stored_contact old (set_ct_UpdatedAt now (merge old).1) in
  ct_Kind (merge old).1 = KindGroup /\ ct_Kind stored = ct_Kind old /\
  HasIdentity channel groupJID stored = true /\
  (merge stored).2 = (ct_Kind old <>! KindGroup).
Proof.
  intros Hd. cbn zeta. set (x := (merge_group channel groupJID name description old).1).
  assert (ct_Kind x = KindGroup /\ ct_Name x = keep name (ct_Name old) /\ HasIdentity channel groupJID x = true /\
          (description <>! "") && blank (ct_Notes x) = false) as (Hk & Hn & Hi & Hno).
  { assert (forall b (f : Contact -> Contact) y, (set_new b f y).1 = if b then f y.1 else y.1) as Hset by (by intros []).
    assert (forall k z, HasIdentity channel groupJID (set_ct_Kind k z) = HasIdentity channel groupJID z) as Hki by done.
    assert (HasIdentity channel groupJID (append_identity channel groupJID old) = true) as Happ.
    { apply HasIdentity_spec. unfold holds_identity. cbn. apply elem_of_app. right. by apply list_elem_of_singleton. }
    unfold x, merge_group. cbn zeta. rewrite !Hset, keep_new. clear Hset. cbn [fst].
    destruct (bool_decide (ct_Kind old = KindGroup)) eqn:Hg; cbn [negb]; rewrite ?Hki;
      (destruct (HasIdentity channel groupJID old) eqn:Ho; cbn [negb]);
      cbn [ct_Name set_ct_Kind append_identity set_ct_Identities];
      (destruct ((name <>! "") && (name <>! ct_Name old)); cbn [ct_Notes set_ct_Kind set_ct_Name append_identity set_ct_Identities]);
      (destruct (bool_decide (description = "")) eqn:He; cbn [negb andb]; [|destruct (blank (ct_Notes old)) eqn:Hb]);
      cbn [ct_Notes set_ct_Notes set_ct_Kind set_ct_Name append_identity set_ct_Identities];
      split_and!; try done; try (by apply bool_decide_eq_true in Hg);
      try (destruct (blank description); [|done]; apply bool_decide_eq_false in He; by destruct (He (Hd eq_refl))). }
  split_and!; [done|done|done|].
  set (y := stored_contact old (set_ct_UpdatedAt now x)).
  assert (HasIdentity channel groupJID y = true) as Hy by done.
  unfold merge_group. cbn zeta. change (ct_Kind y) with (ct_Kind old).
  destruct (bool_decide (ct_Kind old = KindGroup)); cbn [negb set_new fst].
  - rewrite Hy. cbn [negb set_new fst]. change (ct_Name y) with (ct_Name x).
    rewrite Hn, keep_settles. cbn [set_new fst]. change (ct_Notes y) with (ct_Notes x). by rewrite Hno.
  - change (HasIdentity channel groupJID (set_ct_Kind KindGroup y)) with (HasIdentity channel groupJID y).
    rewrite Hy. cbn [negb set_new fst]. by do 2 apply set_new_true.
Qed.

(** ** A world in memory *)

Module ContactMemory.
(** The contacts, the number of ids given so far, the webhook events sent. *)
Record State := mkState { st_contacts : CtView; st_ids : nat; st_events : list string }.

Definition set_contacts (m : CtView) (s : State) : State := mkState m (st_ids s) (st_events s).
Definition not_found : error := NotFound "contact not found".

(** The well-keyed contacts. *)
Definition view (s : State) : CtView := filter (fun kx => kx.1 = ct_key kx.2) (st_contacts s).

Definition find_by (c : Ctx) (P : Contact -> bool) (s : State) : result Contact :=
  match RequireTenant c with
  | Err e => Err e
  | Ok tn =>
      match filter (fun kx => kx.1.1 = tn /\ P kx.2 = true) (map_to_list (view s)) with
      | (_, x) :: _ => Ok x
      | [] => Err not_found
      end
  end.

Definition update (c : Ctx) (x : Contact) (s : State) : result unit * State :=
  match RequireTenant c with
  | Err e => (Err e, s)
  | Ok tn =>
      match view s !! (tn, ct_ID x) with
      | Some old => (Ok tt, set_contacts (<[(tn, ct_ID x) := stored_contact old x]> (st_contacts s)) s)
      | None => (Err not_found, s)
      end
  end.

Definition handle : handler Ctx ContactPort State := fun R c e s =>
  match e in ContactPort R return R * State with
  | CtNow => (100, s)
  | CtNewID => ("contact-" +:+ show_nat (st_ids s), mkState (st_contacts s) (S (st_ids s)) (st_events s))
  | ContactCreate x =>
      match st_contacts s !! ct_key x with
      | Some _ => (Err (Conflict "duplicate key"), s)
      | None => (Ok tt, set_contacts (<[ct_key x := x]> (st_contacts s)) s)
      end
  | ContactUpdate x => update c x s
  | ContactFindByID i => (find_by c (fun x => ct_ID x =! i) s, s)
  | ContactFindByIDs _ => (Ok [], s)
  | FindByChannelIdentity ch ex => (find_by c (HasIdentity ch ex) s, s)
  | FindByDocument d => (find_by c (fun x => ct_Document x =! d) s, s)
  | FindByPhone p => (find_by c (fun x => (ct_Phone x =! p) || containsPhone (ct_Phones x) p) s, s)
  | ContactList _ _ => (Ok [], s)
  | CtAudit _ => (Ok tt, s)
  | CtEmit _ event _ _ => (tt, mkState (st_contacts s) (st_ids s) (st_events s ++ [event]))
  | CtResolveTags refs _ => (Ok refs, s)
  | ValidateReadyImage _ => (Ok tt, s)
  | SignedAvatarURLs _ => (Ok ∅, s)
  | CtValidateCustomAttributes _ _ => (Ok tt, s)
  end.

End ContactMemory.

Lemma put_view s x :
  ContactMemory.view (ContactMemory.set_contacts (<[ct_key x := x]> (ContactMemory.st_contacts s)) s)
  = <[ct_key x := x]> (ContactMemory.view s).
Proof. unfold ContactMemory.view. cbn. by rewrite map_filter_insert_True. Qed.

Lemma view_keyed s tn i x :
  ContactMemory.view s !! (tn, i) = Some x -> ct_TenantID x = tn /\ ct_ID x = i.
Proof. intros [_ Hk]%map_lookup_filter_Some. cbn in Hk. unfold ct_key in Hk. by injection Hk. Qed.

Lemma find_by_spec c P s (has : Contact -> Prop) :
  (forall x, P x = true <-> has x) -> lookup_post c (ContactMemory.view s) has (ContactMemory.find_by c P s).
Proof.
  intros HP. unfold ContactMemory.find_by. destruct (RequireTenant c) as [tn|e] eqn:Hc; cbn.
  2: { intros _ tn i x Hc'. congruence. }
  destruct (filter _ _) as [|[k x] l] eqn:Hf; cbn.
  - intros _ tn' i x Hc' Hx Hh. assert (tn' = tn) as -> by congruence.
    assert (((tn, i), x) ∈ filter (fun kx : string * string * Contact => kx.1.1 = tn /\ P kx.2 = true)
              (map_to_list (ContactMemory.view s))) as Hin.
    { apply list_elem_of_filter. split; [split; [done|by apply HP]|by apply elem_of_map_to_list]. }
    rewrite Hf in Hin. by apply elem_of_nil in Hin.
  - assert ((k, x) ∈ filter (fun kx : string * string * Contact => kx.1.1 = tn /\ P kx.2 = true)
              (map_to_list (ContactMemory.view s))) as Hin by (rewrite Hf; left).
    apply list_elem_of_filter in Hin as [[Hk Hx] Hin]. cbn in *. apply elem_of_map_to_list in Hin.
    destruct k as [t i]. cbn in Hk. subst t. destruct (view_keyed _ _ _ _ Hin) as [_ <-].
    split; [by exists tn|by apply HP].
Qed.

#[export] Instance contact_memory : ContactStore ContactMemory.handle ContactMemory.view.
Proof.
  split. intros R c e s. destruct e; cbn; try done.
  - destruct (ContactMemory.st_contacts s !! ct_key c0) eqn:Hk; cbn; [by left|].
    right. rewrite put_view. split; [|done]. apply map_lookup_filter_None. by left.
  - unfold ContactMemory.update. destruct (RequireTenant c) as [tn|] eqn:Hc; cbn; [|by left].
    destruct (ContactMemory.view s !! (tn, ct_ID c0)) as [old|] eqn:Hold; cbn; [|by left].
    right. exists tn, old. split; [done|]. split; [done|]. destruct (view_keyed _ _ _ _ Hold) as [<- <-].
    apply (put_view s (stored_contact old c0)).
  - split; [done|]. apply find_by_spec. intros x. apply bool_decide_eq_true.
  - split; [done|]. apply find_by_spec. intros x. apply HasIdentity_spec.
  - split; [done|]. apply find_by_spec. intros x. apply bool_decide_eq_true.
  - split; [done|]. apply find_by_spec. intros x.
    by rewrite orb_true_iff, bool_decide_eq_true, containsPhone_spec.
Qed.

Section Scenario.
Import ContactMemory.

(** A phone library that accepts eleven or more characters as they are. *)
Definition demo_phones : PhoneLib :=
  mkPhoneLib string (fun raw _ => if (11 <=? byte_len raw)%nat then Ok raw else Err (Internal "too short"))
    (fun _ => true) (fun n => "+55" +:+ n).

Definition demo_service : ContactService :=
  mkContactService true true true (fun r => r) (fun _ => false) demo_phones.

Definition acme : Ctx := WithTenant Background "acme".
Definition no_contacts : State := mkState ∅ 0 [].

Definition whatsapp_message (name : string) : UpsertFromInbound :=
  mkUpsert "whatsapp" "5544999990000@s" name "5544999990000" "".

Definition new_contact (name document : string) (ids : list ChannelIdentity) : CreateContact :=
  mkCreateContact name ["44999990000"; " 44999990000 "] document "ana@example.com" ids [] "" "".

(** A first message; the same identity claimed by a form, then by another contact; a second
    message. *)
Definition a_day : list CtOp :=
  [OpInbound acme (whatsapp_message "Ana");
   OpCreate acme (new_contact "Bia" "529.982.247-25" [mkChannelIdentity "WhatsApp" "5544999990000@s"]);
   OpCreate acme (new_contact "Bia" "529.982.247-25" [mkChannelIdentity "email" "bia@example.com"]);
   OpAddIdentity acme "contact-1" "whatsapp" "5544999990000@s";
   OpInbound acme (whatsapp_message "Ana Maria")].

Lemma identities_route_to_one_contact_witness :
  map (fun kx => (kx.1.2, ct_Name kx.2, ct_Phones kx.2, length (ct_Identities kx.2)))
      (map_to_list (view (ct_history demo_service handle a_day no_contacts)))
    = [("contact-1", "Bia", ["+5544999990000"], 1%nat); ("contact-0", "Ana Maria", ["5544999990000"], 1%nat)] /\
  forall tn i j x y id,
    view (ct_history demo_service handle a_day no_contacts) !! (tn, i) = Some x ->
    view (ct_history demo_service handle a_day no_contacts) !! (tn, j) = Some y ->
    id ∈ ct_Identities x -> id ∈ ct_Identities y -> i = j.
Proof.
  split; [vm_compute; reflexivity|].
  apply (identities_route_to_one_contact demo_service handle view a_day no_contacts).
  reflexivity.
Defined.

(** Two first messages of one customer, one call each in turn. *)
Definition two_first_messages : list (CtM (result Contact)) :=
  [UpsertFromInbound_ acme (whatsapp_message "Ana"); UpsertFromInbound_ acme (whatsapp_message "Ana")].

(** The order that keeps identities apart is the sequential one: when two first messages of
    a customer are handled at once, both look the identity up before either creates the
    contact, and the customer ends up as two contacts that share it. *)
Theorem two_first_messages_split_a_contact :
  let '(p, s) := schedule handle (concat (replicate 6 [0; 1]%nat)) two_first_messages no_contacts in
  let '(p', s') := schedule handle (repeat 0%nat 6 ++ repeat 1%nat 6) two_first_messages no_contacts in
  let owners s := length (filter (fun kx => HasIdentity "whatsapp" "5544999990000@s" kx.2 = true)
                            (map_to_list (view s))) in
  Forall (fun m => match m with Ret (Ok _) => True | _ => False end) (p ++ p') /\
  owners s = 2%nat /\ owners s' = 1%nat.
Proof. vm_compute. by repeat constructor. Qed.

Lemma group_kind_is_never_stored_witness :
  let old := mkContact "k" "acme" "" "Equipe" "" [] "" "" [mkChannelIdentity "whatsapp" "1@g.us"] [] "" "" [] 0 0 in
  let merge := merge_group "whatsapp" "1@g.us" "Equipe" "plantao" in
  ct_Kind (merge old).1 = KindGroup /\ ct_Kind (stored_contact old (set_ct_UpdatedAt 5 (merge old).1)) = "" /\
  (merge (stored_contact old (set_ct_UpdatedAt 5 (merge old).1))).2 = true.
Proof.
  cbv zeta. destruct (group_kind_is_never_stored "whatsapp" "1@g.us" "Equipe" "plantao" 5
    (mkContact "k" "acme" "" "Equipe" "" [] "" "" [mkChannelIdentity "whatsapp" "1@g.us"] [] "" "" [] 0 0)
    ltac:(vm_compute; discriminate)) as (Hk & Hs & _ & Hm).
  split; [exact Hk|]. split; [exact Hs|]. rewrite Hm. reflexivity.
Defined.
End Scenario.
