(* ===== verification/Channels.v ===== *)
(** * Channel connections (domain/channels)

    The connections of a tenant to its messaging channels: their management, the tokens
    they are given, and how an inbound request is authenticated by one. *)
From S2P Require Import Prelude GoStrings AppError Authz Shared ConvEntity Prog Ports.
From S2P Require Import Calendar BusinessHours.

(** ** The entity (entity/channel_connection.go, whatsapp_template.go) *)

Definition ChannelType := string.
Definition TypeAPI : ChannelType := "api".
Definition TypeWhatsApp : ChannelType := "whatsapp".
Definition TypeTelegram : ChannelType := "telegram".
Definition TypeInstagram : ChannelType := "instagram".
Definition TypeMessenger : ChannelType := "messenger".
Definition TypeWebchat : ChannelType := "webchat".
Definition TypeCustom : ChannelType := "custom".

Definition ChannelType_Valid (t : ChannelType) : bool :=
  bool_decide (t ∈ [TypeAPI; TypeWhatsApp; TypeTelegram; TypeInstagram; TypeMessenger;
                    TypeWebchat; TypeCustom]).

Definition StatusConnected : string := "connected".
Definition StatusDisconnected : string := "disconnected".
Definition StatusError : string := "error".
Definition AuthToken : string := "token".

Record TemplateVariable := mkTemplateVariable { tmv_Key : string; tmv_Label : string; tmv_Example : string }.
Record TemplateButton := mkTemplateButton { tmb_Type : string; tmb_Text : string; tmb_URL : string }.
Record Template := mkChannelTemplate {
  tm_ID : string; tm_Name : string; tm_Language : string; tm_Category : string; tm_Text : string;
  tm_Variables : list TemplateVariable; tm_Header : option (string * string);
  tm_Buttons : list TemplateButton; tm_Footer : string }.

Record Connection := mkConnection {
  cx_ID : string; cx_TenantID : string; cx_Type : ChannelType; cx_Name : string; cx_Status : string;
  cx_BaseURL : string; cx_AuthType : string; cx_Secret : string; cx_InboundToken : string;
  cx_InboundTokenHash : string; cx_BusinessHours : list (string * doc);
  cx_OutOfHoursMessage : string; cx_Enabled : bool; cx_UsesProtocol : bool;
  cx_Templates : list Template; cx_CreatedAt : Time; cx_UpdatedAt : Time }.

(** Assignments to the fields of a connection. *)
Definition set_cx_Status v c := mkConnection (cx_ID c) (cx_TenantID c) (cx_Type c) (cx_Name c) v
  (cx_BaseURL c) (cx_AuthType c) (cx_Secret c) (cx_InboundToken c) (cx_InboundTokenHash c)
  (cx_BusinessHours c) (cx_OutOfHoursMessage c) (cx_Enabled c) (cx_UsesProtocol c) (cx_Templates c)
  (cx_CreatedAt c) (cx_UpdatedAt c).
Definition set_cx_Secret v c := mkConnection (cx_ID c) (cx_TenantID c) (cx_Type c) (cx_Name c)
  (cx_Status c) (cx_BaseURL c) (cx_AuthType c) v (cx_InboundToken c) (cx_InboundTokenHash c)
  (cx_BusinessHours c) (cx_OutOfHoursMessage c) (cx_Enabled c) (cx_UsesProtocol c) (cx_Templates c)
  (cx_CreatedAt c) (cx_UpdatedAt c).
Definition set_cx_Token token hash c := mkConnection (cx_ID c) (cx_TenantID c) (cx_Type c)
  (cx_Name c) (cx_Status c) (cx_BaseURL c) (cx_AuthType c) (cx_Secret c) token hash
  (cx_BusinessHours c) (cx_OutOfHoursMessage c) (cx_Enabled c) (cx_UsesProtocol c) (cx_Templates c)
  (cx_CreatedAt c) (cx_UpdatedAt c).
Definition set_cx_BusinessHours v c := mkConnection (cx_ID c) (cx_TenantID c) (cx_Type c)
  (cx_Name c) (cx_Status c) (cx_BaseURL c) (cx_AuthType c) (cx_Secret c) (cx_InboundToken c)
  (cx_InboundTokenHash c) v (cx_OutOfHoursMessage c) (cx_Enabled c) (cx_UsesProtocol c)
  (cx_Templates c) (cx_CreatedAt c) (cx_UpdatedAt c).
Definition set_cx_Templates v c := mkConnection (cx_ID c) (cx_TenantID c) (cx_Type c) (cx_Name c)
  (cx_Status c) (cx_BaseURL c) (cx_AuthType c) (cx_Secret c) (cx_InboundToken c)
  (cx_InboundTokenHash c) (cx_BusinessHours c) (cx_OutOfHoursMessage c) (cx_Enabled c)
  (cx_UsesProtocol c) v (cx_CreatedAt c) (cx_UpdatedAt c).
Definition set_cx_UpdatedAt v c := mkConnection (cx_ID c) (cx_TenantID c) (cx_Type c) (cx_Name c)
  (cx_Status c) (cx_BaseURL c) (cx_AuthType c) (cx_Secret c) (cx_InboundToken c)
  (cx_InboundTokenHash c) (cx_BusinessHours c) (cx_OutOfHoursMessage c) (cx_Enabled c)
  (cx_UsesProtocol c) (cx_Templates c) (cx_CreatedAt c) v.

(** ** Commands (contracts/connection.go) *)

Record CreateConnection := mkCreateConnection {
  nx_Type : ChannelType; nx_Name : string; nx_BaseURL : string; nx_AuthType : string;
  nx_Secret : string; nx_BusinessHours : list (string * doc); nx_OutOfHoursMessage : string;
  nx_UsesProtocol : bool; nx_Templates : list Template }.

Record UpdateConnection := mkUpdateConnection {
  ux_Name : option string; ux_Status : option string; ux_BaseURL : option string;
  ux_AuthType : option string; ux_Secret : option string;
  ux_BusinessHours : option (list (string * doc)); ux_OutOfHoursMessage : option string;
  ux_Enabled : option bool; ux_UsesProtocol : option bool; ux_Templates : option (list Template) }.

Record TestResult := mkTestResult { tr_OK : bool; tr_ExternalMessageID : string; tr_Error : string }.

(** ** Tokens (service/channel_service.go) *)

Definition base62Alphabet : list Ascii.ascii :=
  bytes_of "0123456789ABCDEFGHIJKLMNOPQRSTUVWXYZabcdefghijklmnopqrstuvwxyz".
Definition base62_char (d : Z) : Ascii.ascii := nth (Z.to_nat d) base62Alphabet (byte_of 48).

(** [SetBytes]: big-endian. *)
Definition big_of_bytes (buf : list Ascii.ascii) : Z := foldl (fun n a => n * 256 + byte_val a) 0 buf.

(** The loop of [randomBase62], least digit first; the fuel is what a number of [fuel] digits
    needs. *)
Fixpoint base62_digits (fuel : nat) (num : Z) : list Z :=
  match fuel with
  | O => []
  | S fuel => if 0 <? num then num mod 62 :: base62_digits fuel (num / 62) else []
  end.

(** Padded to [ceil(32 bytes * 8 / log2(62)) = 43] characters. *)
Definition token_length : nat := 43.

Definition base62_of (buf : list Ascii.ascii) : string :=
  let num := big_of_bytes buf in
  let b := map base62_char (base62_digits (S (8 * length buf)) num) in
  of_bytes (b ++ repeat (base62_char 0) (token_length - length b)).

Definition hex_char (n : Z) : Ascii.ascii := nth (Z.to_nat n) (bytes_of "0123456789abcdef") (byte_of 48).

(** [hex.EncodeToString]. *)
Definition hex_of (buf : list Ascii.ascii) : string :=
  of_bytes (mjoin (map (fun a => [hex_char (byte_val a / 16); hex_char (byte_val a mod 16)]) buf)).

(** ** The service *)

(** Its dependencies; an audit entry is given its tenant. *)
Inductive ChPort : Type -> Type :=
| ChNow : ChPort Time
| ChNewID : ChPort string
| RandRead (n : nat) : ChPort (list Ascii.ascii)
| ConnCreate (x : Connection) : ChPort (result unit)
| ConnUpdate (x : Connection) : ChPort (result unit)
| ConnDelete (id : string) : ChPort (result unit)
| ConnFindByID (id : string) : ChPort (result Connection)
| ConnList (p : PageRequest) : ChPort (result (list Connection))
| FindByInboundTokenHash (hash : string) : ChPort (result Connection)
| HealthCheckOf (x : Connection) : ChPort (result unit)
| SyncChannelWebhook (channelID url secret : string) : ChPort (result unit)
| RemoveChannelWebhook (channelID : string) : ChPort (result unit)
| AdapterFor (t : ChannelType) : ChPort bool
| AdapterSend (t : ChannelType) (x : Connection) (contact text : string) : ChPort (result string)
| AdapterVerify (t : ChannelType) (x : Connection) (body : string) (headers : gmap string string)
    : ChPort (result unit)
| EmitToChannel (tenantID channelID event : string) (payload : list (string * value))
    : ChPort (result unit)
| NotifyRecipients : ChPort (result (list string))
| ChNotify (n : NotifyInput) : ChPort unit
| ChAudit (tenantID : string) (e : AuditEntry) : ChPort (result unit).

#[export] Instance channel_own : Embed ChPort ChPort := fun R e => e.

Abbreviation ChM := (prog Ctx ChPort).

(** Which optional dependencies are wired, SHA-256 in hexadecimal, the zone database and
    the [%q] of [fmt]. *)
Record ConnectionService := mkConnectionService {
  xs_emitter : bool; xs_audience : bool; xs_sha256 : string -> string;
  xs_LoadLocation : string -> option Location; xs_quote : string -> string }.

(** The text of an error of the schedule (domain/businesshours/entity/schedule.go). *)
Definition schedule_message (quote : string -> string) (e : ScheduleError) : string :=
  "business_hours: " +:+
  match e with
  | MalformedDocument => "malformed document"
  | UnknownTimezone tz => "unknown timezone " +:+ quote tz
  | DayRange d => "day must be 0..6, got " +:+ pretty d
  | DayRepeated d => "day " +:+ pretty d +:+ " repeated"
  | InvalidStart d s => "day " +:+ pretty d +:+ " invalid start " +:+ quote s
  | InvalidEnd d s => "day " +:+ pretty d +:+ " invalid end " +:+ quote s
  | EndBeforeStart d =>
      "day " +:+ pretty d +:+ " interval end must be after start (no overnight crossing)"
  | IntervalsOverlap d => "day " +:+ pretty d +:+ " intervals overlap"
  end.

Definition at_index (field : string) (i : nat) : string := field +:+ "[" +:+ show_nat i +:+ "]".

(** The loops of [validateTemplates], from positions [i] and [j]. *)
Fixpoint variable_errors (prefix : string) (j : nat) (vars : list TemplateVariable)
    (v : gmap string value) : gmap string value :=
  match vars with
  | [] => v
  | x :: vars =>
      variable_errors prefix (S j) vars
        (if blank (tmv_Key x)
         then <[prefix +:+ at_index ".body.variables" j +:+ ".key" := VStr "is required"]> v else v)
  end.

Fixpoint template_errors (i : nat) (ts : list Template) (seen : gset string) (v : gmap string value)
  : gmap string value :=
  match ts with
  | [] => v
  | t :: ts =>
      let at_i := at_index "whatsapp_templates" i in
      let '(seen, v) :=
        if blank (tm_ID t) then (seen, <[at_i +:+ ".id" := VStr "is required"]> v)
        else if bool_decide (tm_ID t ∈ seen) then (seen, <[at_i +:+ ".id" := VStr "is duplicated"]> v)
        else ({[tm_ID t]} ∪ seen, v) in
      let v := if blank (tm_Name t) then <[at_i +:+ ".name" := VStr "is required"]> v else v in
      template_errors (S i) ts seen (variable_errors at_i 0 (tm_Variables t) v)
  end.

Definition validateTemplates (ts : list Template) : option error :=
  let v := template_errors 0 ts ∅ ∅ in
  if bool_decide (v = ∅) then None
  else Some (WithDetails v (Validation "invalid whatsapp_templates")).

Section Service.
Context (s : ConnectionService).

Definition hashInboundToken (token : string) : string := xs_sha256 s token.

Definition newInboundToken (c : Ctx) : ChM string :=
  let! buf := ask c (RandRead 32) in
  Ret (base62_of buf).

Definition randomToken (c : Ctx) (n : nat) : ChM string :=
  let! buf := ask c (RandRead n) in
  Ret (hex_of buf).

Definition schedule_error (e : ScheduleError) : error :=
  let m := schedule_message (xs_quote s) e in
  WithDetails {["business_hours" := VStr m]} (Validation m).

(** [if err := check; err != nil { return nil, err }]. *)
Definition guard {A} (e : option error) (k : ChM (result A)) : ChM (result A) :=
  match e with Some e => Ret (Err e) | None => k end.

Definition check_schedule (m : list (string * doc)) : option error :=
  schedule_error <$> ValidateSchedule (xs_LoadLocation s) m.

(** One connection of [HealthCheck]. *)
Definition health_step (c : Ctx) (now : Time) (changed : Z) (conn : Connection) : ChM Z :=
  if negb (cx_Enabled conn) then Ret changed
  else
    let! r := ask c (HealthCheckOf conn) in
    let newStatus := if is_ok r then StatusConnected else StatusError in
    if cx_Status conn =! newStatus then Ret changed
    else
      let! r := ask c (ConnUpdate (set_cx_UpdatedAt now (set_cx_Status newStatus conn))) in
      Ret (if is_ok r then changed + 1 else changed).

Definition HealthCheck (c : Ctx) : ChM (result Z) :=
  try! _ := Ret (RequireTenant c) in
  try! conns := ask c (ConnList (mkPage "" MaxPageSize)) in
  let! now := ask c ChNow in
  let! changed := fold_prog conns 0 (health_step c now) in
  Ret (Ok changed).

Definition Create (c : Ctx) (cmd : CreateConnection) : ChM (result Connection) :=
  try! tenantID := Ret (RequireTenant c) in
  if negb (ChannelType_Valid (nx_Type cmd)) then
    Ret (Err (WithDetails
      {["type" := VStr "must be api|whatsapp|telegram|instagram|messenger|webchat|custom"]}
      (Validation "invalid channel type")))
  else
    let authType := if nx_AuthType cmd =! "" then AuthToken else nx_AuthType cmd in
    guard (check_schedule (nx_BusinessHours cmd)) (
    guard (validateTemplates (nx_Templates cmd)) (
    let! secret := (if (nx_Type cmd =! TypeAPI) && (nx_Secret cmd =! "")
                    then randomToken c 32 else Ret (nx_Secret cmd)) in
    let! now := ask c ChNow in
    let! token := newInboundToken c in
    let! id := ask c ChNewID in
    let conn := mkConnection id tenantID (nx_Type cmd) (trim_space (nx_Name cmd)) StatusDisconnected
      (trim_space (nx_BaseURL cmd)) authType secret token (hashInboundToken token)
      (nx_BusinessHours cmd) (trim_space (nx_OutOfHoursMessage cmd)) true (nx_UsesProtocol cmd)
      (nx_Templates cmd) now now in
    try! _ := ask c (ConnCreate conn) in
    try! _ := ask c (SyncChannelWebhook (cx_ID conn) (cx_BaseURL conn) (cx_Secret conn)) in
    Ret (Ok conn))).

Definition RotateInboundToken (c : Ctx) (id : string) : ChM (result Connection) :=
  try! tenantID := Ret (RequireTenant c) in
  try! conn := ask c (ConnFindByID id) in
  let! token := newInboundToken c in
  let! now := ask c ChNow in
  let conn := set_cx_UpdatedAt now (set_cx_Token token (hashInboundToken token) conn) in
  try! _ := ask c (ConnUpdate conn) in
  do! ask c (ChAudit tenantID (mkAudit "channel.token_rotated" "channel" (cx_ID conn)
                        [("type", VStr (cx_Type conn))])) in
  Ret (Ok conn).

Definition RotateOutboundSecret (c : Ctx) (id : string) : ChM (result Connection) :=
  try! tenantID := Ret (RequireTenant c) in
  try! conn := ask c (ConnFindByID id) in
  let! secret := randomToken c 32 in
  let! now := ask c ChNow in
  let conn := set_cx_UpdatedAt now (set_cx_Secret secret conn) in
  try! _ := ask c (ConnUpdate conn) in
  try! _ := ask c (SyncChannelWebhook (cx_ID conn) (cx_BaseURL conn) (cx_Secret conn)) in
  do! ask c (ChAudit tenantID (mkAudit "channel.outbound_secret_rotated" "channel" (cx_ID conn)
                        [("type", VStr (cx_Type conn))])) in
  Ret (Ok conn).

Definition eventTemplatesSyncRequested : string := "templates_sync_requested".

Definition SyncTemplates (c : Ctx) (channelID : string) : ChM (result unit) :=
  try! tenantID := Ret (RequireTenant c) in
  let channelID := trim_space channelID in
  if channelID =! "" then Ret (Err (Validation "channel id is required"))
  else if negb (xs_emitter s) then Ret (Err (Integration "template sync is not configured"))
  else
    try! _ := ask c (EmitToChannel tenantID channelID eventTemplatesSyncRequested
                       [("channel_id", VStr channelID)]) in
    do! ask c (ChAudit tenantID (mkAudit "channel.templates_sync_requested" "channel" channelID [])) in
    Ret (Ok tt).

Definition notifyTemplatesUpdated (c : Ctx) (tenantID : string) (conn : Connection) : ChM unit :=
  if negb (xs_audience s) then Ret tt
  else
    let! r := ask c NotifyRecipients in
    match r with
    | Err _ => Ret tt
    | Ok userIDs =>
        let name := trim_space (cx_Name conn) in
        let name := if name =! "" then cx_Type conn else name in
        for_each userIDs (fun uid =>
          ask c (ChNotify (mkNotify tenantID uid "channel.templates_updated"
            "Modelos de WhatsApp atualizados"
            ("Os modelos do canal " +:+ name +:+ " foram atualizados.") ("/channels/" +:+ cx_ID conn))))
    end.

Definition ReplaceTemplates (c : Ctx) (channelID : string) (templates : list Template)
  : ChM (result Connection) :=
  try! tenantID := Ret (RequireTenant c) in
  guard (validateTemplates templates) (
  try! conn := ask c (ConnFindByID channelID) in
  let! now := ask c ChNow in
  let conn := set_cx_UpdatedAt now (set_cx_Templates templates conn) in
  try! _ := ask c (ConnUpdate conn) in
  do! ask c (ChAudit tenantID (mkAudit "channel.templates_updated" "channel" (cx_ID conn)
                        [("count", VInt (Z.of_nat (length templates)))])) in
  do! notifyTemplatesUpdated c tenantID conn in
  Ret (Ok conn)).

(** The fields of [Update] that need no check, assigned. *)
Definition assign_plain (cmd : UpdateConnection) (x : Connection) : Connection :=
  let trimmed o old := match o with Some v => trim_space v | None => old end in
  mkConnection (cx_ID x) (cx_TenantID x) (cx_Type x) (trimmed (ux_Name cmd) (cx_Name x))
    (default (cx_Status x) (ux_Status cmd)) (trimmed (ux_BaseURL cmd) (cx_BaseURL x))
    (default (cx_AuthType x) (ux_AuthType cmd)) (default (cx_Secret x) (ux_Secret cmd))
    (cx_InboundToken x) (cx_InboundTokenHash x) (cx_BusinessHours x)
    (trimmed (ux_OutOfHoursMessage cmd) (cx_OutOfHoursMessage x))
    (default (cx_Enabled x) (ux_Enabled cmd)) (default (cx_UsesProtocol x) (ux_UsesProtocol cmd))
    (cx_Templates x) (cx_CreatedAt x) (cx_UpdatedAt x).

Definition Update (c : Ctx) (id : string) (cmd : UpdateConnection) : ChM (result Connection) :=
  try! _ := Ret (RequireTenant c) in
  try! conn := ask c (ConnFindByID id) in
  guard (hours ← ux_BusinessHours cmd; check_schedule hours) (
  guard (ts ← ux_Templates cmd; validateTemplates ts) (
  let conn := assign_plain cmd conn in
  let conn := match ux_BusinessHours cmd with Some m => set_cx_BusinessHours m conn | None => conn end in
  let conn := match ux_Templates cmd with Some ts => set_cx_Templates ts conn | None => conn end in
  let! now := ask c ChNow in
  let conn := set_cx_UpdatedAt now conn in
  try! _ := ask c (ConnUpdate conn) in
  try! _ := ask c (SyncChannelWebhook (cx_ID conn) (cx_BaseURL conn) (cx_Secret conn)) in
  Ret (Ok conn))).

Definition Delete (c : Ctx) (id : string) : ChM (result unit) :=
  try! _ := Ret (RequireTenant c) in
  try! _ := ask c (ConnDelete id) in
  ask c (RemoveChannelWebhook id).

Definition Get (c : Ctx) (id : string) : ChM (result Connection) :=
  try! _ := Ret (RequireTenant c) in
  ask c (ConnFindByID id).

Definition List_ (c : Ctx) (p : PageRequest) : ChM (result (list Connection)) :=
  try! _ := Ret (RequireTenant c) in
  ask c (ConnList (Normalize p)).

Definition Test_ (c : Ctx) (id : string) : ChM (result (TestResult * Connection)) :=
  try! conn := Get c id in
  let! adapter := ask c (AdapterFor (cx_Type conn)) in
  if negb adapter then Ret (Ok (mkTestResult false "" "no adapter for channel type", conn))
  else
    let! res := ask c (AdapterSend (cx_Type conn) conn "connection-test" "connection test") in
    let! now := ask c ChNow in
    match res with
    | Err e =>
        let conn := set_cx_UpdatedAt now (set_cx_Status StatusError conn) in
        do! ask c (ConnUpdate conn) in
        Ret (Ok (mkTestResult false "" (Error e), conn))
    | Ok external =>
        let conn := set_cx_UpdatedAt now (set_cx_Status StatusConnected conn) in
        try! _ := ask c (ConnUpdate conn) in
        Ret (Ok (mkTestResult true external "", conn))
    end.

(** [subtle.ConstantTimeCompare] is equality of the bytes. *)
Definition ResolveInbound (c : Ctx) (token : string) (channelType : ChannelType) (rawBody : string)
    (headers : gmap string string) : ChM (result Connection) :=
  if token =! "" then Ret (Err (Unauthorized "missing inbound token"))
  else
    let hash := hashInboundToken token in
    let! r := ask c (FindByInboundTokenHash hash) in
    match r with
    | Err e => Ret (Err (if is_not_found e then Unauthorized "unknown channel" else e))
    | Ok conn =>
        if cx_InboundTokenHash conn <>! hash then Ret (Err (Unauthorized "invalid inbound token"))
        else if negb (cx_Enabled conn) then Ret (Err (Unauthorized "channel is disabled"))
        else if cx_Type conn <>! channelType then Ret (Err (Unauthorized "channel type mismatch"))
        else
          let! adapter := ask c (AdapterFor (cx_Type conn)) in
          if negb adapter then Ret (Err (Unauthorized "no adapter for channel type"))
          else
            let! verified := ask c (AdapterVerify (cx_Type conn) conn rawBody headers) in
            match verified with
            | Err _ => Ret (Err (Unauthorized "inbound verification failed"))
            | Ok _ => Ret (Ok conn)
            end
    end.
End Service.

(** What the Mongo [Update] stores of [new] over [old]: neither the type nor the plaintext
    token (repositories/channels/connection_repository.go); what [Create] stores. *)
Definition stored_connection (old new : Connection) : Connection :=
  mkConnection (cx_ID old) (cx_TenantID old) (cx_Type old) (cx_Name new) (cx_Status new)
    (cx_BaseURL new) (cx_AuthType new) (cx_Secret new) "" (cx_InboundTokenHash new)
    (cx_BusinessHours new) (cx_OutOfHoursMessage new) (cx_Enabled new) (cx_UsesProtocol new)
    (cx_Templates new) (cx_CreatedAt old) (cx_UpdatedAt new).
