(* ===== verification/ChannelProps.v ===== *)
(** * Channel connections: the properties

    Tokens are of full length and distinct; a request is authenticated only by the current
    token of an enabled connection; only checked connections are stored. *)
From S2P Require Import Prelude GoStrings AppError Authz Shared ConvEntity Prog Ports.
From S2P Require Import Calendar BusinessHours Channels.

(** ** Numbers in base 62 *)

Fixpoint val62 (l : list Z) : Z := match l with [] => 0 | d :: l => d + 62 * val62 l end.

Definition digit62 (d : Z) : Prop := 0 <= d < 62.

Lemma base62_digits_ok fuel n : Forall digit62 (base62_digits fuel n).
Proof.
  revert n. induction fuel as [|fuel IH]; intros n; cbn; [constructor|].
  case_match; constructor; [apply Z.mod_pos_bound; lia|apply IH].
Qed.

Lemma base62_digits_val fuel n : 0 <= n < 62 ^ Z.of_nat fuel -> val62 (base62_digits fuel n) = n.
Proof.
  revert n. induction fuel as [|fuel IH]; intros n Hn; cbn; [change (62 ^ 0) with 1 in Hn; lia|].
  destruct (Z.ltb_spec 0 n); cbn; [|lia]. rewrite IH.
  - pose proof (Z.div_mod n 62). lia.
  - rewrite Nat2Z.inj_succ, Z.pow_succ_r in Hn by lia. split; [apply Z.div_pos; lia|].
    apply Z.div_lt_upper_bound; lia.
Qed.

Lemma base62_digits_length fuel k n : 0 <= n < 62 ^ Z.of_nat k -> (length (base62_digits fuel n) <= k)%nat.
Proof.
  revert k n. induction fuel as [|fuel IH]; intros k n Hn; cbn; [lia|].
  destruct (Z.ltb_spec 0 n); cbn; [|lia]. destruct k as [|k]; [change (62 ^ Z.of_nat 0) with 1 in Hn; lia|].
  apply le_n_S, IH. rewrite Nat2Z.inj_succ, Z.pow_succ_r in Hn by lia.
  split; [apply Z.div_pos; lia|]. apply Z.div_lt_upper_bound; lia.
Qed.

Lemma val62_pad l k : val62 (l ++ repeat 0 k) = val62 l.
Proof.
  induction l as [|d l IH]; cbn; [|by rewrite IH]. induction k as [|k IH]; cbn; [done|by rewrite IH].
Qed.

Lemma base62_char_inj : forall a b, digit62 a -> digit62 b -> base62_char a = base62_char b -> a = b.
Proof.
  assert (Forall (fun a => Forall (fun b => base62_char a = base62_char b -> a = b) (seqZ 0 62)) (seqZ 0 62)) as H.
  { apply (bool_decide_unpack _). vm_compute. exact I. }
  rewrite Forall_forall in H. intros a b Ha Hb. unfold digit62 in *. specialize (H a). rewrite Forall_forall in H.
  apply H; apply elem_of_seqZ; lia.
Qed.

Lemma map_base62_inj l l' : Forall digit62 l -> Forall digit62 l' ->
  map base62_char l = map base62_char l' -> l = l'.
Proof.
  intros Hl. revert l'. induction Hl as [|a l Ha _ IH]; intros l' Hl' He.
  - symmetry in He. by apply map_eq_nil in He.
  - destruct Hl' as [|b l' Hb Hl']; [done|]. injection He as Hab He. f_equal; [by apply base62_char_inj|by apply IH].
Qed.

(** ** Tokens *)

Lemma byte_val_bounds a : 0 <= byte_val a < 256.
Proof. unfold byte_val. pose proof (Ascii.N_ascii_bounded a). lia. Qed.

Lemma big_snoc buf a : big_of_bytes (buf ++ [a]) = big_of_bytes buf * 256 + byte_val a.
Proof. unfold big_of_bytes. by rewrite foldl_app. Qed.

Lemma big_of_bytes_range buf : 0 <= big_of_bytes buf < 256 ^ Z.of_nat (length buf).
Proof.
  induction buf as [|a buf IH] using rev_ind; [by vm_compute|].
  rewrite big_snoc, length_app. cbn [length]. rewrite Nat2Z.inj_add, Z.pow_add_r by lia.
  pose proof (byte_val_bounds a). change (256 ^ Z.of_nat 1) with 256. lia.
Qed.

Lemma byte_val_inj a b : byte_val a = byte_val b -> a = b.
Proof.
  unfold byte_val. intros H%N2Z.inj. rewrite <- (Ascii.ascii_N_embedding a), H. apply Ascii.ascii_N_embedding.
Qed.

Lemma big_of_bytes_inj b1 b2 : length b1 = length b2 -> big_of_bytes b1 = big_of_bytes b2 -> b1 = b2.
Proof.
  revert b2. induction b1 as [|x b1 IH] using rev_ind; intros b2 Hl He.
  - symmetry in Hl. by apply length_zero_iff_nil in Hl.
  - destruct b2 as [|y b2 _] using rev_ind; [rewrite length_app in Hl; cbn in Hl; lia|].
    rewrite !length_app in Hl. rewrite !big_snoc in He. cbn in Hl.
    pose proof (byte_val_bounds x). pose proof (byte_val_bounds y).
    assert (byte_val x = byte_val y) as Hxy by lia. f_equal; [apply IH; lia|].
    f_equal. by apply byte_val_inj.
Qed.

Lemma token_bound : 256 ^ Z.of_nat 32 < 62 ^ Z.of_nat token_length.
Proof. by vm_compute. Qed.

(** The characters of a token: its 43 digits, least first. *)
Lemma base62_of_digits buf : length buf = 32%nat ->
  exists l, bytes_of (base62_of buf) = map base62_char l /\ Forall digit62 l /\
    length l = token_length /\ val62 l = big_of_bytes buf.
Proof.
  intros Hl. unfold base62_of. cbn zeta. rewrite bytes_of_of, length_map.
  set (n := big_of_bytes buf). set (ds := base62_digits _ n).
  pose proof (big_of_bytes_range buf) as Hn. fold n in Hn. rewrite Hl in Hn. pose proof token_bound as Hb.
  exists (ds ++ repeat 0 (token_length - length ds)). split; [by rewrite map_app, map_repeat|].
  split; [apply Forall_app; split; [apply base62_digits_ok|]; apply Forall_forall;
    intros x ->%list_elem_of_In%repeat_spec; unfold digit62; lia|].
  assert (length ds <= token_length)%nat as Hlen by (apply base62_digits_length; lia).
  split; [rewrite length_app, repeat_length; lia|]. rewrite val62_pad. apply base62_digits_val.
  split; [lia|]. rewrite Hl. eapply Z.lt_le_trans; [apply Hn|]. by vm_compute.
Qed.

(** C32. Every integration token is 43 base-62 characters long, and no two draws of 32 random bytes
    give the same token: none of their entropy is lost. *)
Theorem tokens_keep_their_entropy (buf buf' : list Ascii.ascii) :
  length buf = 32%nat -> length buf' = 32%nat ->
  length (bytes_of (base62_of buf)) = 43%nat /\
  Forall (fun a => a ∈ base62Alphabet) (bytes_of (base62_of buf)) /\
  (base62_of buf = base62_of buf' -> buf = buf').
Proof.
  intros Hl Hl'. destruct (base62_of_digits buf Hl) as (l & Hb & Hd & Hn & Hv).
  destruct (base62_of_digits buf' Hl') as (l' & Hb' & Hd' & Hn' & Hv').
  split; [by rewrite Hb, length_map|]. split.
  - rewrite Hb. apply Forall_map. eapply Forall_impl; [exact Hd|]. intros d Hdd. unfold digit62 in Hdd.
    unfold base62_char. apply list_elem_of_In, nth_In. change (length base62Alphabet) with 62%nat. lia.
  - intros He. apply big_of_bytes_inj; [congruence|]. rewrite <- Hv, <- Hv'. f_equal.
    apply map_base62_inj; [done|done|]. by rewrite <- Hb, <- Hb', He.
Qed.

Lemma tokens_keep_their_entropy_witness :
  base62_of (repeat (byte_of 0) 31 ++ [byte_of 62]) = "0100000000000000000000000000000000000000000" /\
  length (bytes_of (base62_of (repeat (byte_of 255) 32))) = 43%nat.
Proof.
  split; [vm_compute; reflexivity|].
  exact (proj1 (tokens_keep_their_entropy (repeat (byte_of 255) 32) (repeat (byte_of 0) 32) eq_refl eq_refl)).
Defined.

(** ** The world the service runs in *)

(** The connections by tenant and id. *)
Abbreviation ChView :=
  (@gmap (string * string) (prod_eq_dec : EqDecision (string * string)) prod_countable Connection).

Definition cx_key (x : Connection) : string * string := (cx_TenantID x, cx_ID x).

(** The Mongo repository, and random bytes of the length asked for. *)
Definition ch_post (R : Type) (c : Ctx) (e : ChPort R) (g : ChView) (r : R) (g' : ChView) : Prop :=
  match e in ChPort R return R -> Prop with
  | RandRead n => fun r => length r = n /\ g' = g
  | ConnCreate x => fun r =>
      g' = g /\ is_ok r = false \/ g !! cx_key x = None /\ g' = <[cx_key x := stored_connection x x]> g
  | ConnUpdate x => fun r =>
      g' = g /\ is_ok r = false \/
      exists tn old, RequireTenant c = Ok tn /\ g !! (tn, cx_ID x) = Some old /\
        g' = <[(tn, cx_ID x) := stored_connection old x]> g
  | ConnDelete id => fun r =>
      g' = g /\ is_ok r = false \/ exists tn, RequireTenant c = Ok tn /\ g' = delete (tn, id) g
  | ConnFindByID id => fun r => g' = g /\
      match r with
      | Ok x => exists tn, RequireTenant c = Ok tn /\ g !! (tn, id) = Some x
      | Err _ => True
      end
  | FindByInboundTokenHash hash => fun r => g' = g /\
      match r with Ok x => cx_InboundTokenHash x = hash /\ exists k, g !! k = Some x | Err _ => True end
  | _ => fun _ => g' = g
  end r.

Definition ch_contract : contract Ctx ChPort ChView := pre_post (fun _ _ _ _ => True) ch_post.

#[export] Instance ch_mono : Monotone ch_contract.
Proof. apply pre_post_mono. Qed.

Ltac ch_unfold H := unfold ch_post, embed, channel_own in H.
Ltac ch_call r g H := apply wp_bind; [apply _|]; split; [done|]; intros r g H; ch_unfold H; cbn [wp].
Ltac ch_call_ok r g H := apply wp_bind_ok; [apply _|]; split; [done|]; intros r g H; ch_unfold H; cbn [wp].

(** Connections are stored under their own tenant and id. *)
Definition keyed (g : ChView) : Prop := forall k x, g !! k = Some x -> k = cx_key x.

(** What a request had to bring to be taken for a connection. *)
Definition authenticates (s : ConnectionService) (g : ChView) (token channelType : string) (x : Connection) : Prop :=
  token <> "" /\ cx_InboundTokenHash x = xs_sha256 s token /\ cx_Enabled x = true /\
  cx_Type x = channelType /\ exists k, g !! k = Some x.

Lemma ResolveInbound_ok s c token ct body headers (g : ChView) (Q : result Connection -> ChView -> Prop) :
  (forall e, Q (Err e) g) -> (forall x, authenticates s g token ct x -> Q (Ok x) g) ->
  wp ch_contract (ResolveInbound s c token ct body headers) Q g.
Proof.
  intros HErr HOk. unfold ResolveInbound. case_bool_decide as Ht; [apply HErr|]. cbn zeta.
  ch_call r g1 H1. destruct H1 as [-> Hr]. destruct r as [x|e]; [|apply HErr].
  destruct Hr as [Hh Hk]. unfold hashInboundToken in *. rewrite (bool_decide_eq_true_2 _ Hh). cbn [negb].
  destruct (cx_Enabled x) eqn:Hen; cbn [negb]; [|apply HErr].
  destruct (bool_decide (cx_Type x = ct)) eqn:Hty; cbn [negb]; [|apply HErr].
  apply bool_decide_eq_true in Hty. ch_call a g1 H1. subst g1. destruct a; cbn [negb]; [|apply HErr].
  ch_call v g1 H1. subst g1. destruct v as [u|e]; [|apply HErr]. by apply HOk.
Qed.

Lemma keyed_insert (g : ChView) (x : Connection) : keyed g -> keyed (<[cx_key x := x]> g).
Proof. intros Hg k y [[<- <-]|[_ Hy]]%lookup_insert_Some; [done|by apply Hg]. Qed.

(** A rotated token is the only one left: a request is taken for a connection only with a
    token whose hash is stored on it, on an enabled connection of the channel it names; and
    once a rotation has succeeded no token with another hash than the new one's is taken
    for that connection any more, nor is the new one stored in the clear. *)
Theorem rotation_revokes_the_old_token (s : ConnectionService) (c c' : Ctx) (id token channelType body : string)
    (headers : gmap string string) (g : ChView) :
  keyed g ->
  wp ch_contract
    (let! rotated := RotateInboundToken s c id in
     let! resolved := ResolveInbound s c' token channelType body headers in
     Ret (rotated, resolved))
    (fun r g' =>
       match r with
       | (Ok conn, Ok x) =>
           authenticates s g' token channelType x /\ cx_InboundToken conn <> "" /\
           (cx_key x = cx_key conn -> xs_sha256 s token = xs_sha256 s (cx_InboundToken conn) /\ cx_InboundToken x = "")
       | (_, Ok x) => authenticates s g' token channelType x
       | _ => True
       end) g.
Proof.
  intros Hg. apply wp_bind; [apply _|].
  eapply (wp_mono _ _ (fun r g' => match r with
     | Ok conn => cx_InboundToken conn <> "" /\
         forall x k, g' !! k = Some x -> cx_key x = cx_key conn ->
           cx_InboundTokenHash x = xs_sha256 s (cx_InboundToken conn) /\ cx_InboundToken x = ""
     | Err _ => True end)).
  - intros r g' Hr. apply wp_bind; [apply _|]. apply ResolveInbound_ok.
    + intros e. by destruct r.
    + intros x Hx. cbn [wp]. destruct r as [conn|e]; [|done]. destruct Hr as [Hne Hr].
      split; [done|]. split; [done|]. intros Hk. pose proof Hx as (_ & Hh & _ & _ & k & Hgk).
      destruct (Hr x k Hgk Hk) as [Hhash Hclear]. split; [congruence|done].
  - unfold RotateInboundToken. destruct (RequireTenant c) as [tn|e] eqn:Hc; [|done]. cbn [bind_ok bind].
    ch_call_ok r g1 H1. destruct H1 as [-> Hr]. destruct r as [conn|e]; [|done].
    destruct Hr as (tn' & Htn & Hst). rewrite Hc in Htn. injection Htn as <-.
    unfold newInboundToken. apply wp_bind; [apply _|]. ch_call buf g1 H1. destruct H1 as [Hlen ->].
    ch_call now g1 H1. subst g1. cbn zeta. ch_call_ok r g1 H1.
    destruct r as [u|e]; [|done]. destruct H1 as [[_ H1]|(tn' & old & Hc' & Hold & ->)]; [done|].
    rewrite Hc in Hc'. injection Hc' as <-. ch_call a g1 H1. subst g1. split.
    + change (base62_of buf <> "").
      destruct (base62_of_digits buf Hlen) as (l & Hb & _ & Hl & _). intros He. rewrite He in Hb.
      apply (f_equal length) in Hb. rewrite length_map, Hl in Hb. done.
    + intros x k Hx Hk. apply Hg in Hold as Hko. apply Hg in Hst as Hks.
      cbn [cx_ID set_cx_UpdatedAt set_cx_Token] in Hx, Hold, Hko.
      assert (cx_ID conn = id) as Hcid by (by injection Hks).
      assert (k = cx_key x) as Hkx.
      { apply lookup_insert_Some in Hx as [[<- <-]|[_ Hx]]; [|by apply Hg].
        rewrite Hko. done. }
      rewrite Hkx, Hk in Hx. assert (cx_key conn = (tn, cx_ID conn)) as Hck by congruence.
      change (cx_key (set_cx_UpdatedAt now (set_cx_Token (base62_of buf)
        (hashInboundToken s (base62_of buf)) conn))) with (cx_key conn) in Hx.
      rewrite Hck, lookup_insert_eq in Hx. by injection Hx as <-.
Qed.

Section RotationWitness.
Definition demo_channels : ConnectionService :=
  mkConnectionService true true (fun t => "sha:" +:+ t) (fun tz => if tz =! "UTC" then Some UTC else None) (fun x => x).
Definition demo_connection : Connection :=
  mkConnection "ch1" "acme" TypeWhatsApp "Loja" StatusConnected "https://gw.example" AuthToken "s" ""
    "sha:old" [] "" true false [] 0 0.

Lemma rotation_revokes_the_old_token_witness :
  wp ch_contract
    (let! rotated := RotateInboundToken demo_channels (WithTenant Background "acme") "ch1" in
     let! resolved := ResolveInbound demo_channels Background "old" TypeWhatsApp "" ∅ in
     Ret (rotated, resolved))
    (fun r g' =>
       match r with
       | (Ok conn, Ok x) => cx_key x = cx_key conn -> "sha:old" = "sha:" +:+ cx_InboundToken conn
       | _ => True
       end) {[ ("acme", "ch1") := demo_connection ]}.
Proof.
  eapply wp_mono; [apply _| |apply rotation_revokes_the_old_token].
  - intros [[conn|e] [x|e']] g'; try (intros; exact I). intros (_ & _ & H) Hk. exact (proj1 (H Hk)).
  - intros k x Hx. apply lookup_singleton_Some in Hx as [<- <-]. reflexivity.
Defined.
End RotationWitness.

(** ** Checked connections *)

Definition template_ok (t : Template) : Prop :=
  blank (tm_ID t) = false /\ blank (tm_Name t) = false /\
  Forall (fun v => blank (tmv_Key v) = false) (tm_Variables t).

Lemma insert_not_empty (k : string) (x : value) m : <[k := x]> m = (∅ : gmap string value) <-> False.
Proof. split; [apply insert_non_empty|done]. Qed.

Lemma variable_errors_empty p vars : forall j v,
  variable_errors p j vars v = ∅ <-> v = ∅ /\ Forall (fun v => blank (tmv_Key v) = false) vars.
Proof.
  induction vars as [|x vars IH]; intros j v; cbn [variable_errors].
  - split; [done|by intros [? _]].
  - rewrite IH, Forall_cons. destruct (blank (tmv_Key x)); [|naive_solver]. rewrite insert_not_empty. naive_solver.
Qed.

Lemma template_errors_empty ts : forall i seen v,
  template_errors i ts seen v = ∅ <->
  v = ∅ /\ Forall template_ok ts /\ NoDup (map tm_ID ts) /\ Forall (fun t => tm_ID t ∉ seen) ts.
Proof.
  induction ts as [|t ts IH]; intros i seen v; cbn [template_errors].
  - split; [|by intros [? _]]. intros ->. split_and!; constructor.
  - cbn zeta. rewrite !Forall_cons. cbn [map]. rewrite NoDup_cons. unfold template_ok at 1.
    destruct (blank (tm_ID t)) eqn:Hid; cbn beta iota.
    { rewrite IH, variable_errors_empty. destruct (blank (tm_Name t)); rewrite ?insert_not_empty; naive_solver. }
    destruct (bool_decide (tm_ID t ∈ seen)) eqn:Hin; cbn beta iota.
    { apply bool_decide_eq_true in Hin. rewrite IH, variable_errors_empty.
      destruct (blank (tm_Name t)); rewrite ?insert_not_empty; naive_solver. }
    apply bool_decide_eq_false in Hin. rewrite IH, variable_errors_empty.
    assert (Forall (fun x => tm_ID x ∉ ({[tm_ID t]} ∪ seen : gset string)) ts <->
            tm_ID t ∉ map tm_ID ts /\ Forall (fun x => tm_ID x ∉ seen) ts) as Hseen.
    { rewrite !Forall_forall. split.
      - intros H. split; [|set_solver]. intros (x & Hx & Hxin)%list_elem_of_fmap. specialize (H x Hxin). set_solver.
      - intros [Hni H] x Hx. specialize (H x Hx). assert (tm_ID t <> tm_ID x); [|set_solver].
        intros He. apply Hni, list_elem_of_fmap. by exists x. }
    rewrite Hseen. destruct (blank (tm_Name t)); rewrite ?insert_not_empty; naive_solver.
Qed.

Definition templates_ok (ts : list Template) : Prop := Forall template_ok ts /\ NoDup (map tm_ID ts).

Lemma validateTemplates_none ts : validateTemplates ts = None <-> templates_ok ts.
Proof.
  unfold validateTemplates, templates_ok. cbn zeta.
  assert (template_errors 0 ts ∅ ∅ = ∅ <-> Forall template_ok ts /\ NoDup (map tm_ID ts)) as <-.
  { rewrite template_errors_empty. split; [naive_solver|]. intros [? ?]. split_and!; try done.
    apply Forall_forall. set_solver. }
  case_bool_decide; naive_solver.
Qed.

(** What a stored connection may hold. *)
Definition hours_ok (s : ConnectionService) (m : list (string * doc)) : Prop :=
  ValidateSchedule (xs_LoadLocation s) m = None.

Definition conn_pre (s : ConnectionService) (R : Type) (c : Ctx) (e : ChPort R) (g : option Connection) : Prop :=
  match e with
  | ConnCreate x =>
      RequireTenant c = Ok (cx_TenantID x) /\ ChannelType_Valid (cx_Type x) = true /\
      hours_ok s (cx_BusinessHours x) /\ templates_ok (cx_Templates x) /\
      cx_InboundTokenHash x = xs_sha256 s (cx_InboundToken x) /\
      (cx_Type x = TypeAPI -> length (bytes_of (cx_Secret x)) <> 0%nat)
  | ConnUpdate x => exists old, g = Some old /\ cx_key x = cx_key old /\ cx_Type x = cx_Type old /\
      (cx_BusinessHours x = cx_BusinessHours old \/ hours_ok s (cx_BusinessHours x)) /\
      (cx_Templates x = cx_Templates old \/ templates_ok (cx_Templates x))
  | _ => True
  end.

Definition conn_post (R : Type) (c : Ctx) (e : ChPort R) (g : option Connection) (r : R)
    (g' : option Connection) : Prop :=
  match e in ChPort R return R -> Prop with
  | ConnFindByID _ => fun r => g' = match r with Ok x => Some x | Err _ => g end
  | RandRead n => fun r => length r = n /\ g' = g
  | _ => fun _ => g' = g
  end r.

Abbreviation conn s := (pre_post (conn_pre s) conn_post).

Lemma guard_wp {A G} (T : contract Ctx ChPort G) e (k : ChM (result A)) Q g :
  (forall e, Q (Err e) g) -> (e = None -> wp T k Q g) -> wp T (guard e k) Q g.
Proof. intros HErr Hk. destruct e; cbn; [apply HErr|by apply Hk]. Qed.

Lemma check_schedule_none s m : check_schedule s m = None <-> hours_ok s m.
Proof. unfold check_schedule, hours_ok. by rewrite fmap_None. Qed.

Ltac conn_call r g H := apply wp_bind; [apply _|]; split; [done|]; intros r g H;
  unfold conn_post, embed, channel_own in H; cbn [wp].
Ltac conn_call_ok r g H := apply wp_bind_ok; [apply _|]; split; [done|]; intros r g H;
  unfold conn_post, embed, channel_own in H; cbn [wp].

Lemma hex_of_length buf : length (bytes_of (hex_of buf)) = (2 * length buf)%nat.
Proof.
  unfold hex_of. rewrite bytes_of_of.
  assert (forall l, length (mjoin (map (fun a => [hex_char (byte_val a / 16); hex_char (byte_val a mod 16)]) l))
                    = (2 * length l)%nat) as H; [|apply H].
  clear buf. induction l as [|a l IH]; [done|]. change (mjoin (map ?f (a :: l))) with (f a ++ mjoin (map f l)).
  rewrite length_app, IH. cbn [length]. lia.
Qed.

Lemma Create_checked s c cmd : wp (conn s) (Create s c cmd) (fun _ _ => True) None.
Proof.
  unfold Create. destruct (RequireTenant c) as [tn|e] eqn:Hc; [|done]. cbn [bind_ok bind].
  destruct (ChannelType_Valid (nx_Type cmd)) eqn:Hty; [|done]. cbn [negb]. cbn zeta.
  apply guard_wp; [done|]. intros Hh%check_schedule_none. apply guard_wp; [done|].
  intros Ht%validateTemplates_none. apply wp_bind; [apply _|].
  eapply (wp_mono _ _ (fun secret g => g = None /\ (nx_Type cmd = TypeAPI -> length (bytes_of secret) <> 0%nat))).
  - intros secret g [-> Hs]. conn_call now g H1. subst g. unfold newInboundToken.
    apply wp_bind; [apply _|]. conn_call buf g H1. destruct H1 as [_ ->]. conn_call newid g H1. subst g.
    apply wp_bind_ok; [apply _|]. split; [by split_and!|]. intros [u|e] g Hg; [|done]. cbn [wp].
    apply wp_bind_ok; [apply _|]. split; [done|]. by intros [v|e] g' _.
  - destruct (_ && _) eqn:Hapi.
    + unfold randomToken. conn_call buf g H1. destruct H1 as [Hl ->]. split; [done|]. intros _.
      rewrite hex_of_length, Hl. done.
    + split; [done|]. intros Hty' Hz. cbn in Hz. apply length_zero_iff_nil in Hz.
      rewrite Hty' in Hapi. cbn in Hapi. apply bool_decide_eq_false in Hapi. apply Hapi, bytes_of_inj. exact Hz.
Qed.

Lemma Update_checked s c cid cmd : wp (conn s) (Update s c cid cmd) (fun _ _ => True) None.
Proof.
  unfold Update. destruct (RequireTenant c) as [tn|e] eqn:Hc; [|done]. cbn [bind_ok bind].
  conn_call_ok r g H1. subst g. destruct r as [old|e]; [|done].
  apply guard_wp; [done|]. intros Hh. apply guard_wp; [done|]. intros Ht. cbn zeta.
  conn_call now g H1. subst g. apply wp_bind_ok; [apply _|]. split.
  - exists old. destruct (ux_BusinessHours cmd) as [m|], (ux_Templates cmd) as [ts|]; cbn in Hh, Ht |- *;
      split_and!; try done; try (by left); right; (by apply check_schedule_none || by apply validateTemplates_none).
  - intros [u|e] g Hg; [|done]. cbn [wp]. apply wp_bind_ok; [apply _|]. split; [done|]. by intros [v|e] g' _.
Qed.

Lemma ReplaceTemplates_checked s c cid ts : wp (conn s) (ReplaceTemplates s c cid ts) (fun _ _ => True) None.
Proof.
  unfold ReplaceTemplates. destruct (RequireTenant c) as [tn|e] eqn:Hc; [|done]. cbn [bind_ok bind].
  apply guard_wp; [done|]. intros Ht%validateTemplates_none. conn_call_ok r g H1. subst g.
  destruct r as [old|e]; [|done]. conn_call now g H1. subst g. cbn zeta. apply wp_bind_ok; [apply _|]. split.
  - exists old. split_and!; try done; [by left|by right].
  - intros [u|e] g Hg; [|done]. cbn [wp]. conn_call a g1 H1. clear H1. apply wp_bind; [apply _|].
    unfold notifyTemplatesUpdated. case_match; [done|]. conn_call r g2 H2. destruct r as [l|e]; [|done].
    apply wp_for_each with (I := fun _ => True); [apply _| |done|done]. intros x g3 _ _. split; [done|]. by intros.
Qed.

(** Only checked connections are stored, whatever the command and the answers: created under
    the caller's tenant with a known type, a valid schedule, templates with distinct ids,
    names and variable keys, the hash of the token it hands out, and a signing secret on
    the API channel; an update or a push of templates keeps the key and the type and
    changes the schedule and the templates only for valid ones. *)
Theorem stored_connections_are_checked (s : ConnectionService) (c : Ctx) :
  (forall cmd, wp (conn s) (Create s c cmd) (fun _ _ => True) None) /\
  (forall cid cmd, wp (conn s) (Update s c cid cmd) (fun _ _ => True) None) /\
  (forall cid ts, wp (conn s) (ReplaceTemplates s c cid ts) (fun _ _ => True) None).
Proof. split_and!; intros; [apply Create_checked|apply Update_checked|apply ReplaceTemplates_checked]. Qed.
