(* ===== verification/Inbound.v ===== *)
(** * Inbound messages (domain/channels/service/inbound_service.go)

    One message of a customer, from the idempotency lock to the ledger: its contact, its
    conversation (reused, reopened or created), the message itself, and what is announced. *)
From S2P Require Import Prelude GoStrings AppError Authz Shared ConvEntity Messages ConvContracts.
From S2P Require Import Prog Ports ConvBase Contacts Calendar Channels.

(** ** Contracts (contracts/inbound.go, entity/inbound.go) *)

Record InboundInteractiveReply := mkInboundReply {
  iir_Type : string; iir_ID : string; iir_Title : string; iir_Description : string;
  iir_ContextExternalID : string }.

Record RawFile := mkRawFile { rf_Filename : string; rf_ContentType : string; rf_Data : string }.

Record InboundMessage := mkInbound {
  im_ExternalMessageID : string; im_ExternalContactID : string; im_ContactName : string;
  im_ContactPhone : string; im_ContactDocument : string; im_GroupJID : string;
  im_SenderJID : string; im_SenderName : string; im_SenderPhone : string; im_Text : string;
  im_Attachments : list Attachment; im_RawAttachments : list RawFile;
  im_Contacts : list ContactCard; im_Location : option Messages.Location;
  im_InteractiveReply : option InboundInteractiveReply; im_Metadata : list (string * value);
  im_Timestamp : Z }.

Record InboundResult := mkInboundResult {
  ires_ConversationID : string; ires_MessageID : string; ires_ContactID : string;
  ires_Status : string; ires_Idempotent : bool; ires_Discarded : bool }.

Record InboundRecord := mkInboundRecord {
  rec_ID : string; rec_TenantID : string; rec_Channel : string; rec_ExternalMessageID : string;
  rec_ConversationID : string; rec_MessageID : string; rec_CreatedAt : Time }.

(** The fields of a synced group (domain/groups/entity/group.go) that the gate reads. *)
Record Group := mkGroup { gr_ID : string; gr_Name : string; gr_Description : string; gr_Attend : bool }.

(** ** Dependencies *)

Inductive InPort : Type -> Type :=
| InInfra {R} (e : Infra R) : InPort R
| InConvs {R} (e : ConvRepo R) : InPort R
| InEvents {R} (e : EventRepo R) : InPort R
| InMsgs {R} (e : MsgRepo R) : InPort R
| InContacts {R} (e : ContactPort R) : InPort R
| FindOpenByContactChannelID (contactID channelID : string) : InPort (result Conversation)
| FindLastByContactChannelID (contactID channelID : string) : InPort (result Conversation)
| FindOpenByContact (contactID : string) : InPort (result Conversation)
| FindLastByContact (contactID : string) : InPort (result Conversation)
| FindByExternalMessageID (conversationID externalID : string) : InPort (result Message)
| NextSequence (tenantID : string) (year : Z) : InPort (result Z)
| LedgerFind (channel externalMessageID : string) : InPort (result InboundRecord)
| LedgerCreate (r : InboundRecord) : InPort (result unit)
| StoreInbound (conversationID : string) (f : RawFile) : InPort (result Attachment)
| GroupFindByJID (groupJID : string) : InPort (result Group)
| IsWithinBusinessHours (channelID : string) (at_ : Time) : InPort (result bool)
| SendAutomationNotice (conversationID ruleID text : string) : InPort (result unit)
| InMediaURL (attachmentID : string) : InPort (result string)
| InEnrichContact (contactID : string) : InPort (option WebhookContact).

#[export] Instance in_infra : Embed Infra InPort := @InInfra.
#[export] Instance in_convs : Embed ConvRepo InPort := @InConvs.
#[export] Instance in_events : Embed EventRepo InPort := @InEvents.
#[export] Instance in_msgs : Embed MsgRepo InPort := @InMsgs.
#[export] Instance in_own : Embed InPort InPort := fun R e => e.

Abbreviation InM := (prog Ctx InPort).

(** The contacts service it was built with, and which optional dependencies are wired. *)
Record InboundService := mkInboundService {
  is_contacts : ContactService; is_attachments : bool; is_ruleSink : bool; is_enricher : bool;
  is_media : bool; is_businessHours : bool; is_outOfHours : bool; is_groupGate : bool;
  is_batch : bool }.

Definition inboundLockTTL : Z := 10 * Second.

Definition lock_key (tenantID channel externalMsgID : string) : string :=
  "inbound:lock:" +:+ tenantID +:+ ":" +:+ channel +:+ ":" +:+ externalMsgID.

(** [fmt.Sprintf("%d-%06d", year, seq)], for a sequence that is not negative. *)
Definition pad6 (n : Z) : string :=
  let s := pretty n in
  of_bytes (repeat (byte_of 48) (6 - String.length s)) +:+ s.
Definition protocol_of (year seq : Z) : string := pretty year +:+ "-" +:+ pad6 seq.

Section Service.
Context (s : InboundService).

(** *** Announcements *)

Definition recordEvent (c : Ctx) (conv : Conversation) (eventType : string)
    (data : list (string * value)) : InM unit :=
  let! id := ask c NewID in
  let! now := ask c Now in
  do! ask c (EventCreate
        (mkEvent id (cv_TenantID conv) (cv_ID conv) eventType ActorSystem "" data now)) in
  Ret tt.

Definition conversationPayload (c : Ctx) (conv : Conversation) : InM Payload :=
  let! now := ask c SystemNow in
  Ret (PConversation (NewConversationPayload conv now)).

Definition emitRule (c : Ctx) (conv : Conversation) (event : string) : InM unit :=
  when! is_ruleSink s do (
    let! payload := conversationPayload c conv in
    ask c (EmitRuleEvent (cv_TenantID conv) event (cv_ID conv) payload)).

Definition integrationContact (c : Ctx) (contactID : string) : InM (option WebhookContact) :=
  if negb (is_enricher s) || (contactID =! "") then Ret None
  else ask c (InEnrichContact contactID).

Definition EmitLazy (c : Ctx) (tenantID event sectorID : string) (build : InM Payload) : InM unit :=
  let! matches := ask c (WebhookMatches tenantID event sectorID) in
  if matches : bool then
    let! payload := build in
    ask c (WebhookDeliver tenantID event sectorID payload)
  else Ret tt.

Definition emitConversationWebhook (c : Ctx) (conv : Conversation) (event : string) : InM unit :=
  EmitLazy c (cv_TenantID conv) event (cv_SectorID conv)
    (let! contact := integrationContact c (cv_ContactID conv) in
     let! now := ask c SystemNow in
     Ret (PIntegrationConversation (NewIntegrationConversationPayload conv contact None now))).

Definition integrationMedia (c : Ctx) (msg : Message) : InM (gmap string string) :=
  if negb (is_media s) || (length (ms_Attachments msg) =? 0)%nat then Ret ∅
  else
    fold_prog (ms_Attachments msg) ∅ (fun out a =>
      if att_ID a =! "" then Ret out
      else
        let! r := ask c (InMediaURL (att_ID a)) in
        match r with
        | Ok u => if u <>! "" then Ret (<[att_ID a := u]> out) else Ret out
        | Err _ => Ret out
        end).

Definition publishConversation (c : Ctx) (conv : Conversation) : InM unit :=
  let! payload := conversationPayload c conv in
  do! ask c (Publish (TopicConversation (cv_TenantID conv) (cv_ID conv))
               RealtimeConversationUpdated payload) in
  for_each (InboxTopicsFor (cv_TenantID conv) (cv_SectorID conv) (cv_AssignedTo conv))
    (fun topic => do! ask c (Publish topic RealtimeConversationUpdated payload) in Ret tt).

Definition PublishAll (c : Ctx) (events : list PublishEvent) : InM unit :=
  if (length events =? 0)%nat then Ret tt
  else if is_batch s then do! ask c (PublishBatch events) in Ret tt
  else for_each events (fun e =>
         do! ask c (Publish (pe_Topic e) (pe_Event e) (pe_Data e)) in Ret tt).

(** *** The contact *)

(** [None]: the message is discarded. *)
Definition resolveInboundContact (c : Ctx) (channel groupJID externalContact : string)
    (msg : InboundMessage) : InM (result (option Contact)) :=
  if groupJID =! "" then
    try! contact := lift (@InContacts) (UpsertFromInbound_ c
      (mkUpsert channel externalContact (im_ContactName msg) (im_ContactPhone msg) (im_ContactDocument msg))) in
    Ret (Ok (Some contact))
  else if negb (is_groupGate s) then Ret (Ok None)
  else
    let! grp := ask c (GroupFindByJID groupJID) in
    match grp with
    | Err e => if is_not_found e then Ret (Ok None) else Ret (Err e)
    | Ok grp =>
        if negb (gr_Attend grp) then Ret (Ok None)
        else
          try! contact := lift (@InContacts)
            (UpsertGroupContact c channel groupJID (gr_Name grp) (gr_Description grp)) in
          Ret (Ok (Some contact))
    end.

(** *** The conversation *)

Definition findOpenConversation (c : Ctx) (contactID channelID : string) (isGroup : bool)
  : InM (result Conversation) :=
  if isGroup then ask c (FindOpenByContact contactID)
  else ask c (FindOpenByContactChannelID contactID channelID).

Definition findLastConversation (c : Ctx) (contactID channelID : string) (isGroup : bool)
  : InM (result Conversation) :=
  if isGroup then ask c (FindLastByContact contactID)
  else ask c (FindLastByContactChannelID contactID channelID).

(** The document [reopen] stores. *)
Definition reopened (now : Time) (conv : Conversation) : Conversation :=
  let status := if cv_AssignedTo conv <>! "" then StatusAssigned
                else if cv_QueueID conv <>! "" then StatusQueued else StatusNew in
  set_UpdatedAt now (set_ClosedAt None (set_Status status conv)).

(** [reopen] works on the conversation in place; here it returns it. *)
Definition reopen (c : Ctx) (conv : Conversation) (now : Time) : InM (result Conversation) :=
  if negb (IsClosed (cv_Status conv)) then Ret (Ok conv)
  else
    let conv := reopened now conv in
    try! _ := ask c (ConvUpdate conv) in
    do! recordEvent c conv EventConversationReopened [] in
    do! emitRule c conv EventConversationReopened in
    do! emitConversationWebhook c conv RealtimeConversationUpdated in
    Ret (Ok conv).

Definition year_of_time (t : Time) : Z := (date_of UTC t).1.1.

Definition nextProtocol (c : Ctx) (tenantID : string) (now : Time) : InM (result string) :=
  let year := year_of_time now in
  try! seq := ask c (NextSequence tenantID year) in
  Ret (Ok (protocol_of year seq)).

Definition new_conversation (id tenantID contactID channel channelID protocol : string) (now : Time)
  : Conversation :=
  mkConversation id tenantID contactID channel channelID "" "" StatusNew "" PriorityNormal
    protocol [] [] now None None 0 None now now None.

Definition createConversation (c : Ctx) (tenantID contactID channel channelID : string)
    (withProtocol : bool) (now : Time) : InM (result (Conversation * bool)) :=
  try! protocol := (if withProtocol then nextProtocol c tenantID now else Ret (Ok "")) in
  let! id := ask c NewID in
  let conv := new_conversation id tenantID contactID channel channelID protocol now in
  try! _ := ask c (ConvCreate conv) in
  do! recordEvent c conv EventConversationCreated [] in
  do! emitRule c conv EventConversationCreated in
  Ret (Ok (conv, true)).

Definition findOrCreateConversation (c : Ctx) (tenantID contactID channel channelID : string)
    (usesProtocol isGroup : bool) : InM (result (Conversation * bool)) :=
  let! open_ := findOpenConversation c contactID channelID isGroup in
  match open_ with
  | Ok conv => Ret (Ok (conv, false))
  | Err err =>
      if negb (is_not_found err) then Ret (Err err)
      else
        let! now := ask c Now in
        let create := createConversation c tenantID contactID channel channelID
                        (usesProtocol && negb isGroup) now in
        if negb usesProtocol || isGroup then
          let! last := findLastConversation c contactID channelID isGroup in
          match last with
          | Ok last =>
              try! conv := reopen c last now in
              Ret (Ok (conv, false))
          | Err lerr => if negb (is_not_found lerr) then Ret (Err lerr) else create
          end
        else create
  end.

(** [routeNew], in place there. *)
Definition routeNew (c : Ctx) (conv : Conversation) : InM (result Conversation) :=
  let! now := ask c Now in
  let conv := set_UpdatedAt now (set_Status StatusQueued conv) in
  try! _ := ask c (ConvUpdate conv) in
  do! recordEvent c conv EventConversationEnqueued [] in
  do! publishConversation c conv in
  do! emitConversationWebhook c conv EventConversationCreated in
  Ret (Ok conv).

(** *** The message *)

Definition groupSenderFrom (msg : InboundMessage) : option GroupSender :=
  if blank (im_GroupJID msg) then None
  else
    let jid := trim_space (im_SenderJID msg) in
    let name := trim_space (im_SenderName msg) in
    let phone := trim_space (im_SenderPhone msg) in
    if (jid =! "") && (name =! "") && (phone =! "") then None else Some (mkGroupSender jid name phone).

Definition resolveInteractiveReply (c : Ctx) (conversationID : string) (r : InboundInteractiveReply)
  : InM InteractiveReply :=
  let reply ctx := mkReply (iir_Type r) (iir_ID r) (iir_Title r) (iir_Description r) ctx in
  let ext := trim_space (iir_ContextExternalID r) in
  if ext <>! "" then
    let! menu := ask c (FindByExternalMessageID conversationID ext) in
    Ret (reply (match menu with Ok m => ms_ID m | Err _ => "" end))
  else Ret (reply "").

(** The raw files, stored one after the other until one fails. *)
Fixpoint storeRaw (c : Ctx) (conversationID : string) (files : list RawFile)
    (attachments : list Attachment) : InM (result (list Attachment)) :=
  match files with
  | [] => Ret (Ok attachments)
  | f :: files =>
      try! att := ask c (StoreInbound conversationID f) in
      storeRaw c conversationID files (attachments ++ [att])
  end.

Definition invalid_field {A} (field msg : string) : InM (result A) :=
  Ret (Err (WithDetails {[field := VStr msg]} (Validation msg))).

(** The type, the text and the interactive reply, by the payload. *)
Definition typed (c : Ctx) (conv : Conversation) (msg : InboundMessage) (attachments : list Attachment)
  : InM (result (MessageType * string * option InteractiveReply)) :=
  match im_Contacts msg, im_Location msg, im_InteractiveReply msg, attachments with
  | _ :: _, _, _, _ =>
      let m := ValidateContacts (im_Contacts msg) in
      if m <>! "" then invalid_field "contacts" m else Ret (Ok (MessageContact, im_Text msg, None))
  | [], Some l, _, _ =>
      let m := Location_Validate (Some l) in
      if m <>! "" then invalid_field "location" m else Ret (Ok (MessageLocation, im_Text msg, None))
  | [], None, Some r, _ =>
      let! reply := resolveInteractiveReply c (cv_ID conv) r in
      let text := if blank (im_Text msg) then rp_Title reply else im_Text msg in
      Ret (Ok (MessageInteractiveReply, text, Some reply))
  | [], None, None, a :: _ =>
      Ret (Ok (MessageTypeForContentType (att_ContentType a), im_Text msg, None))
  | [], None, None, [] => Ret (Ok (MessageText, im_Text msg, None))
  end.

Definition inbound_message (id : string) (conv : Conversation) (contactID : string)
    (msg : InboundMessage) (createdAt : Time) (attachments : list Attachment)
    (t : MessageType * string * option InteractiveReply) : Message :=
  {| ms_ID := id; ms_TenantID := cv_TenantID conv; ms_ConversationID := cv_ID conv;
     ms_SenderType := SenderCustomer; ms_SenderID := contactID; ms_Direction := DirectionInbound;
     ms_MessageType := t.1.1; ms_Text := t.1.2; ms_Attachments := attachments; ms_Template := None;
     ms_Contacts := im_Contacts msg; ms_Location := im_Location msg; ms_Interactive := None;
     ms_InteractiveReply := t.2; ms_GroupSender := groupSenderFrom msg;
     ms_Metadata := im_Metadata msg; ms_CreatedAt := createdAt; ms_DeliveryStatus := DeliveryNone;
     ms_DeliveryError := ""; ms_ExternalMessageID := trim_space (im_ExternalMessageID msg);
     ms_DeliveredAt := None; ms_ReadAt := None; ms_EditedAt := None; ms_DeletedAt := None |}.

(** The conversation after an inbound message. *)
Definition received (message : Message) (createdAt : Time) (conv : Conversation) : Conversation :=
  set_UnreadCount (cv_UnreadCount conv + 1)
    (set_UpdatedAt createdAt
       (set_LastMessage (NewLastMessageSnapshot (Some message))
          (set_LastCustomerMessageAt (Some createdAt) (set_LastMessageAt createdAt conv)))).

(** Realtime, rules and webhooks of a message, in this order. *)
Definition announceInbound (c : Ctx) (conv : Conversation) (message : Message) : InM unit :=
  let payload := PMessage (NewMessagePayload message) in
  let! convPayload := conversationPayload c conv in
  let room := TopicConversation (cv_TenantID conv) (cv_ID conv) in
  do! PublishAll c
    ([mkPublishEvent room RealtimeMessageCreated payload;
      mkPublishEvent room RealtimeConversationUpdated convPayload] ++
     map (fun topic => mkPublishEvent topic RealtimeConversationUpdated convPayload)
       (InboxTopicsFor (cv_TenantID conv) (cv_SectorID conv) (cv_AssignedTo conv))) in
  do! (when! is_ruleSink s do
         ask c (EmitRuleEvent (cv_TenantID conv) EventMessageCreated (cv_ID conv) payload)) in
  EmitLazy c (cv_TenantID conv) EventMessageCreated (cv_SectorID conv)
    (let! urls := integrationMedia c message in
     let! contact := integrationContact c (cv_ContactID conv) in
     Ret (PMessage (enrich (NewIntegrationMessagePayload message urls) contact None
                      (Some (mkConversationRef (cv_CustomAttributes conv)))))).

(** [appendInboundMessage]; the conversation it changes in place is returned. *)
Definition appendInboundMessage (c : Ctx) (conv : Conversation) (contactID : string)
    (msg : InboundMessage) : InM (result (Message * Conversation)) :=
  let! now := ask c Now in
  let createdAt := if 0 <? im_Timestamp msg then im_Timestamp msg * 1000000 else now in
  try! attachments := storeRaw c (cv_ID conv) (im_RawAttachments msg) (im_Attachments msg) in
  try! t := typed c conv msg attachments in
  let! id := ask c NewID in
  let message := inbound_message id conv contactID msg createdAt attachments t in
  try! _ := ask c (MsgCreate message) in
  let conv := received message createdAt conv in
  try! _ := ask c (ConvUpdate conv) in
  do! recordEvent c conv EventMessageCreated [("message_id", VStr (ms_ID message))] in
  do! announceInbound c conv message in
  Ret (Ok (message, conv)).

(** [maybeSendOutOfHours]: whatever happens here, the message is received. *)
Definition maybeSendOutOfHours (c : Ctx) (conn : Connection) (conv : Conversation) : InM unit :=
  let text := trim_space (cx_OutOfHoursMessage conn) in
  if (text =! "") || negb (is_businessHours s) || negb (is_outOfHours s) then Ret tt
  else
    let! now := ask c Now in
    let! open_ := ask c (IsWithinBusinessHours (cx_ID conn) now) in
    match open_ with
    | Ok false => do! ask c (SendAutomationNotice (cv_ID conv) "" text) in Ret tt
    | _ => Ret tt
    end.

(** *** [Handle] *)

Definition idempotentResult (c : Ctx) (r : InboundRecord) : InM InboundResult :=
  let! conv := ask c (ConvFindByID (rec_ConversationID r)) in
  Ret (mkInboundResult (rec_ConversationID r) (rec_MessageID r) ""
         (match conv with Ok conv => cv_Status conv | Err _ => "" end) true false).

(** From the conversation to the ledger. *)
Definition file_message (c : Ctx) (tenantID : string) (conn : Connection) (msg : InboundMessage)
    (externalMsgID contactID : string) (conv : Conversation) (isNew : bool)
  : InM (result InboundResult) :=
  let channel := cx_Type conn in
  try! appended := appendInboundMessage c conv contactID msg in
  let '(message, conv) := appended in
  do! (when! isNew do maybeSendOutOfHours c conn conv) in
  let! id := ask c NewID in
  let! now := ask c Now in
  let! r := ask c (LedgerCreate
    (mkInboundRecord id tenantID channel externalMsgID (cv_ID conv) (ms_ID message) now)) in
  let res := mkInboundResult (cv_ID conv) (ms_ID message) contactID (cv_Status conv) false false in
  match r with
  | Err e => if CodeOf e <>! CodeConflict then Ret (Err e) else Ret (Ok res)
  | Ok _ => Ret (Ok res)
  end.

(** From the resolved contact on. *)
Definition receive (c : Ctx) (tenantID : string) (conn : Connection) (msg : InboundMessage)
    (externalMsgID : string) (isGroup : bool) (contact : Contact) : InM (result InboundResult) :=
  let channel := cx_Type conn in
  try! found := findOrCreateConversation c tenantID (ct_ID contact) channel (cx_ID conn)
                  (cx_UsesProtocol conn) isGroup in
  let '(conv, isNew) := found in
  try! conv := (if isNew : bool then routeNew c conv else Ret (Ok conv)) in
  file_message c tenantID conn msg externalMsgID (ct_ID contact) conv isNew.

(** What runs under the lock. *)
Definition locked (c : Ctx) (tenantID : string) (conn : Connection) (msg : InboundMessage)
    (externalMsgID groupJID externalContact : string) : InM (result InboundResult) :=
  let channel := cx_Type conn in
  let! existing := ask c (LedgerFind channel externalMsgID) in
  match existing with
  | Ok r => let! res := idempotentResult c r in Ret (Ok res)
  | Err e =>
      if negb (is_not_found e) then Ret (Err e)
      else
        try! contact := resolveInboundContact c channel groupJID externalContact msg in
        match contact with
        | None => Ret (Ok (mkInboundResult "" "" "" "discarded" false true))
        | Some contact => receive c tenantID conn msg externalMsgID (groupJID <>! "") contact
        end
  end.

Definition no_content (msg : InboundMessage) : bool :=
  blank (im_Text msg) && (length (im_Attachments msg) =? 0)%nat
  && (length (im_RawAttachments msg) =? 0)%nat && (length (im_Contacts msg) =? 0)%nat
  && match im_Location msg with None => true | Some _ => false end
  && match im_InteractiveReply msg with None => true | Some _ => false end.

Definition Handle (c : Ctx) (conn : Connection) (msg : InboundMessage) : InM (result InboundResult) :=
  try! tenantID := Ret (RequireTenant c) in
  let channel := cx_Type conn in
  let externalMsgID := trim_space (im_ExternalMessageID msg) in
  if externalMsgID =! "" then Ret (Err (Validation "external_message_id is required"))
  else
    let groupJID := trim_space (im_GroupJID msg) in
    let isGroup := groupJID <>! "" in
    let externalContact := trim_space (im_ExternalContactID msg) in
    let externalContact := if externalContact =! "" then trim_space (im_ContactPhone msg)
                           else externalContact in
    if negb isGroup && (externalContact =! "") then
      Ret (Err (Validation "external_contact_id or contact_phone is required"))
    else if no_content msg then
      Ret (Err (Validation "text, attachments, contacts, location or interactive_reply are required"))
    else if negb (length (im_RawAttachments msg) =? 0)%nat && negb (is_attachments s) then
      Ret (Err (Internal "attachment storage is not configured"))
    else
      let! lock := ask c (Acquire (lock_key tenantID channel externalMsgID) inboundLockTTL) in
      match lock with
      | Err e => Ret (Err (Wrap e (Internal "could not acquire inbound lock")))
      | Ok (_, false) => Ret (Err (Conflict "inbound message is already being processed"))
      | Ok (l, true) =>
          let! res := locked c tenantID conn msg externalMsgID groupJID externalContact in
          do! ask c (Release l) in
          Ret res
      end.
End Service.
