(* ===== verification/InboundRace.v ===== *)
(** * Inbound messages: a world in memory, and deliveries that race in it

    An executable world of the inbound service: the conversations and messages of
    [ConvMemory.v], the contacts of [ContactResults.v], a ledger with its unique index, an
    exclusive locker and a protocol counter. The first [in_faults] writes of the ledger fail. *)
From S2P Require Import Prelude GoStrings AppError Prog Authz Shared ConvEntity Messages ConvContracts Ports ConvBase ConvMessaging ConvIsolation ConvMemory LockRace Calendar.
From S2P Require Import Contacts ContactResults Channels Inbound.

Record IMemory := mkIMemory {
  in_store : Memory; in_msgs : list Message; in_people : ContactMemory.State; in_ledger : list InboundRecord;
  in_locks : gmap string Lease; in_leases : nat; in_groups : gmap string Group;
  in_open : bool; in_counter : Z; in_faults : nat }.

Definition set_store v s := mkIMemory v (in_msgs s) (in_people s) (in_ledger s) (in_locks s) (in_leases s)
  (in_groups s) (in_open s) (in_counter s) (in_faults s).
Definition set_messages v s := mkIMemory (in_store s) v (in_people s) (in_ledger s) (in_locks s)
  (in_leases s) (in_groups s) (in_open s) (in_counter s) (in_faults s).
Definition set_people v s := mkIMemory (in_store s) (in_msgs s) v (in_ledger s) (in_locks s) (in_leases s)
  (in_groups s) (in_open s) (in_counter s) (in_faults s).
Definition set_ledger v s := mkIMemory (in_store s) (in_msgs s) (in_people s) v (in_locks s) (in_leases s)
  (in_groups s) (in_open s) (in_counter s) (in_faults s).
Definition set_locks v s := mkIMemory (in_store s) (in_msgs s) (in_people s) (in_ledger s) v (S (in_leases s))
  (in_groups s) (in_open s) (in_counter s) (in_faults s).
Definition counted s := mkIMemory (in_store s) (in_msgs s) (in_people s) (in_ledger s) (in_locks s) (in_leases s)
  (in_groups s) (in_open s) (in_counter s + 1) (in_faults s).
Definition recovered s := mkIMemory (in_store s) (in_msgs s) (in_people s) (in_ledger s) (in_locks s) (in_leases s)
  (in_groups s) (in_open s) (in_counter s) (pred (in_faults s)).

Definition is_entry (t ch ext : string) (r : InboundRecord) : bool :=
  (rec_TenantID r =! t) && (rec_Channel r =! ch) && (rec_ExternalMessageID r =! ext).

Definition entry (t ch ext : string) (s : IMemory) : option InboundRecord :=
  List.find (is_entry t ch ext) (in_ledger s).

(** The most recently updated document of a tenant that satisfies [P]. *)
Definition latest (t : string) (P : Conversation -> bool) (v : convs_view) : option Conversation :=
  foldl (fun best kv =>
           if (kv.1.1 =! t) && P kv.2 then
             match best with
             | Some b => if cv_UpdatedAt b <? cv_UpdatedAt kv.2 then Some kv.2 else best
             | None => Some kv.2
             end
           else best)
    None (map_to_list v).

Definition find_conv (c : Ctx) (P : Conversation -> bool) (s : IMemory) : result Conversation :=
  match RequireTenant c with
  | Err e => Err e
  | Ok t => match latest t P (mem_view (in_store s)) with
            | Some conv => Ok conv | None => Err (NotFound "conversation not found")
            end
  end.

Definition with_store {R} (r : R * Memory) (s : IMemory) : R * IMemory := (r.1, set_store r.2 s).

Definition in_infra_memory {R} (e : Infra R) (s : IMemory) : R * IMemory :=
  match e in Infra R return R * IMemory with
  | Acquire key _ =>
      match in_locks s !! key with
      | Some _ => (Ok ("", false), s)
      | None =>
          let token := "token-" +:+ show_nat (in_leases s) in
          (Ok (token, true), set_locks (<[key := token]> (in_locks s)) s)
      end
  | Release l => (tt, set_locks (filter (fun kv : string * Lease => kv.2 <> l) (in_locks s)) s)
  | e => with_store (mem_infra e (in_store s)) s
  end.

(** The conversations service, for the out-of-hours notice: its messages go with the others. *)
Definition service_in_memory : handler Ctx ConvPort IMemory := fun R c e s =>
  match e in ConvPort R return R * IMemory with
  | PMsgs e =>
      match e in MsgRepo R return R * IMemory with
      | MsgCreate m => (Ok tt, set_messages (in_msgs s ++ [m]) s)
      | e => with_store (mem_msg_repo e (in_store s)) s
      end
  | e => with_store (memory _ c e (in_store s)) s
  end.

Definition in_memory : handler Ctx InPort IMemory := fun R c e s =>
  match e in InPort R return R * IMemory with
  | InInfra e => in_infra_memory e s
  | InConvs e => with_store (mem_conv_repo c e (in_store s)) s
  | InEvents e => with_store (mem_events e (in_store s)) s
  | InMsgs e =>
      match e in MsgRepo R return R * IMemory with
      | MsgCreate m => (Ok tt, set_messages (in_msgs s ++ [m]) s)
      | e => with_store (mem_msg_repo e (in_store s)) s
      end
  | InContacts e => let '(r, p) := ContactMemory.handle _ c e (in_people s) in (r, set_people p s)
  | FindOpenByContactChannelID k ch =>
      (find_conv c (fun v => (cv_ContactID v =! k) && (cv_ChannelID v =! ch) && negb (IsClosed (cv_Status v))) s, s)
  | FindLastByContactChannelID k ch =>
      (find_conv c (fun v => (cv_ContactID v =! k) && (cv_ChannelID v =! ch)) s, s)
  | FindOpenByContact k => (find_conv c (fun v => (cv_ContactID v =! k) && negb (IsClosed (cv_Status v))) s, s)
  | FindLastByContact k => (find_conv c (fun v => cv_ContactID v =! k) s, s)
  | FindByExternalMessageID conv ext =>
      (match filter (fun m => ms_ConversationID m = conv /\ ms_ExternalMessageID m = ext) (in_msgs s) with
       | m :: _ => Ok m | [] => Err (NotFound "message not found") end, s)
  | NextSequence _ _ => (Ok (in_counter s + 1), counted s)
  | LedgerFind ch ext =>
      (match RequireTenant c with
       | Err e => Err e
       | Ok t => match entry t ch ext s with
                 | Some r => Ok r | None => Err (NotFound "inbound message not found") end
       end, s)
  | LedgerCreate r =>
      if (0 <? in_faults s)%nat then (Err (Internal "ledger unavailable"), recovered s)
      else
        match entry (rec_TenantID r) (rec_Channel r) (rec_ExternalMessageID r) s with
        | Some _ => (Err (Conflict "duplicate key"), s)
        | None => (Ok tt, set_ledger (r :: in_ledger s) s)
        end
  | StoreInbound _ f => (Ok (mkAttachment "att" (rf_Filename f) (rf_ContentType f) "" 0), s)
  | GroupFindByJID jid =>
      (match in_groups s !! jid with Some g => Ok g | None => Err (NotFound "group not found") end, s)
  | IsWithinBusinessHours _ _ => (Ok (in_open s), s)
  | SendAutomationNotice i rule text => run service_in_memory (SendAutomationMessage Sample.service c i rule text) s
  | InMediaURL _ => (Ok "", s)
  | InEnrichContact _ => (None, s)
  end.

(** ** A tenant that receives WhatsApp messages *)
Module Inbound_Demo.
Definition ctx : Ctx := WithTenant Background "acme".
Definition connection (protocol : bool) (notice : string) : Connection :=
  mkConnection "wa1" "acme" "whatsapp" "WhatsApp" "active" "" "" "" "" "" [] notice true protocol [] 0 0.
Definition service : InboundService :=
  mkInboundService demo_service true true true true true true true false.
Definition message (ext text : string) : InboundMessage :=
  mkInbound ext "5544999990000@s" "Ana" "5544999990000" "" "" "" "" "" text [] [] [] None None [] 0.
Definition group_message (ext jid : string) : InboundMessage :=
  mkInbound ext "" "" "" "" jid "5544999990000@s" "Ana" "" "oi" [] [] [] None None [] 0.
Definition world (open : bool) (faults : nat) : IMemory :=
  mkIMemory (mkMemory ∅ ∅ 1000 0 []) [] no_contacts [] ∅ 0
    {[ "1@g.us" := mkGroup "g1" "Equipe" "" false ]} open 0 faults.

(** Where the stored messages of a provider's id lie. *)
Definition stored (ext : string) (s : IMemory) : list string :=
  map ms_ConversationID (filter (fun m => ms_ExternalMessageID m = ext) (in_msgs s)).
End Inbound_Demo.

(** ** Inbound messages: accepted once

    Any number of deliveries of one message of a provider, their calls interleaved in any
    order, against any world whose locker is exclusive and whose ledger keeps its unique
    index: at most one of them is taken as a new message. *)

(** ** The world: one entry of the ledger and its lock *)

Definition is_guarded {R} (e : InPort R) : bool :=
  match e with
  | InInfra (Acquire _ _ | Release _) | LedgerFind _ _ | LedgerCreate _ => true
  | _ => false
  end.

Definition entry_of (t ch ext : string) (r : InboundRecord) : Prop :=
  rec_TenantID r = t /\ rec_Channel r = ch /\ rec_ExternalMessageID r = ext.

Class InboundWorld {S} (h : handler Ctx InPort S) (t ch ext : string)
    (doc : S -> option InboundRecord) (owner : S -> option Lease) : Prop := {
  iw_acquire : forall c ttl s,
    let '(r, s') := h _ c (InInfra (Acquire (lock_key t ch ext) ttl)) s in
    doc s' = doc s /\
    match r with
    | Ok (l, true) => owner s = None /\ owner s' = Some l
    | _ => owner s' = owner s
    end;
  iw_release : forall c l s,
    let '(_, s') := h _ c (InInfra (Release l)) s in
    doc s' = doc s /\ (owner s = Some l -> owner s' = None);
  iw_find : forall c s, RequireTenant c = Ok t ->
    let '(r, s') := h _ c (LedgerFind ch ext) s in
    doc s' = doc s /\ owner s' = owner s /\
    match r with
    | Ok x => doc s = Some x
    | Err e => is_not_found e = true -> doc s = None
    end;
  iw_create : forall c x s, RequireTenant c = Ok t -> entry_of t ch ext x ->
    let '(r, s') := h _ c (LedgerCreate x) s in
    owner s' = owner s /\
    match r with
    | Ok _ => doc s' = Some x
    | Err e => CodeOf e = CodeConflict -> is_Some (doc s)
    end;
  iw_frame : forall R c (e : InPort R) s, is_guarded e = false ->
    let '(_, s') := h R c e s in doc s' = doc s /\ owner s' = owner s;
}.

Abbreviation InThread := (Thread (option InboundRecord)).

Section Race.
Context (t ch ext : string).

Definition in_pre (R : Type) (c : Ctx) (e : InPort R) (g : InThread) : Prop :=
  match e with
  | InInfra (Acquire key _) => key = lock_key t ch ext /\ th_lease g = None
  | InInfra (Release l) => th_lease g = Some l
  | LedgerFind ch' ext' => RequireTenant c = Ok t /\ ch' = ch /\ ext' = ext /\ is_Some (th_lease g)
  | LedgerCreate x => RequireTenant c = Ok t /\ entry_of t ch ext x /\
      is_Some (th_lease g) /\ th_fresh g = Some None
  | _ => True
  end.

Definition in_post (R : Type) (c : Ctx) (e : InPort R) (g : InThread) (r : R) (g' : InThread) : Prop :=
  match e in InPort R return R -> Prop with
  | InInfra e =>
      match e in Infra R return R -> Prop with
      | Acquire _ _ => fun r =>
          g' = match r with Ok (l, true) => mkThread (Some l) None (th_won g) | _ => g end
      | Release _ => fun _ => g' = mkThread None None (th_won g)
      | _ => fun _ => g' = g
      end
  | LedgerFind _ _ => fun r =>
      g' = match r with
           | Ok x => mkThread (th_lease g) (Some (Some x)) (th_won g)
           | Err e => if is_not_found e then mkThread (th_lease g) (Some None) (th_won g) else g
           end
  | LedgerCreate _ => fun r =>
      g' = mkThread (th_lease g) None (is_ok r) /\
      match r with Ok _ => True | Err e => CodeOf e <> CodeConflict end
  | _ => fun _ => g' = g
  end r.

Definition in_race : contract Ctx InPort InThread := pre_post in_pre in_post.

#[local] Instance in_race_mono : Monotone in_race.
Proof. apply pre_post_mono. Qed.

(** ** The answer of any call a delivery may make keeps the invariant *)

Section Invariant.
Context {S : Type} (h : handler Ctx InPort S).
Context (doc : S -> option InboundRecord) (owner : S -> option Lease).
Context `{!InboundWorld h t ch ext doc owner}.

Abbreviation Inv := (LockRace.Inv doc owner is_Some).

Lemma in_race_step gs s i g R c (e : InPort R) (P : R -> InThread -> Prop) :
  gs !! i = Some g -> Inv gs s -> in_race R c e P g ->
  let '(r, s') := h R c e s in exists g', P r g' /\ Inv (<[i := g']> gs) s'.
Proof.
  intros Hi HI [Hpre HP]. destruct (h R c e s) as [r s'] eqn:Hh.
  assert (is_guarded e = false -> in_post R c e g r g -> exists g', P r g' /\ Inv (<[i := g']> gs) s') as Hframe.
  { intros Hg Hp. exists g. split; [by apply HP|].
    pose proof (iw_frame R c e s Hg) as Hf. rewrite Hh in Hf. destruct Hf. by eapply inv_frame. }
  destruct e as [? e|? e|? e|? e|? e| | | | | | |chn extn|x| | | | | |]; try (by apply Hframe); cbn in Hpre.
  - destruct e; try (by apply Hframe); cbn in Hpre.
    + destruct Hpre as [-> Hl]. pose proof (iw_acquire c ttl s) as Ha. rewrite Hh in Ha.
      destruct Ha as [Hd Ho]. destruct r as [[l [|]]|err].
      * destruct Ho as [Ho Ho']. eexists. split; [by apply HP|]. by eapply inv_acquire.
      * exists g. split; [by apply HP|]. by eapply inv_frame.
      * exists g. split; [by apply HP|]. by eapply inv_frame.
    + pose proof (iw_release c l s) as Ha. rewrite Hh in Ha. destruct Ha as [Hd Ho].
      eexists. split; [by apply HP|]. by eapply inv_release.
  - destruct Hpre as (Hc & -> & -> & [l Hl]). pose proof (iw_find c s Hc) as Hf. rewrite Hh in Hf.
    destruct Hf as (Hd & Ho & Hf). eexists. split; [by apply HP|]. rewrite Hl.
    destruct r as [x|e]; [by eapply inv_find|].
    destruct (is_not_found e); [|by eapply inv_frame]. eapply inv_find; try done. by apply Hf.
  - destruct Hpre as (Hc & Hx & Hl & Hf). pose proof (iw_create c x s Hc Hx) as Hu. rewrite Hh in Hu.
    destruct Hu as [Ho Hd]. exists (mkThread (th_lease g) None (is_ok r)). split.
    + apply HP. cbn. split; [done|]. destruct r as [u|e]; [done|]. intros Hcode.
      destruct (Hd Hcode) as [y Hy]. destruct HI as [_ _ Hfr _ _].
      specialize (Hfr i g None Hi Hl Hf). congruence.
    + eapply inv_update; try done. destruct r; [|done]. intros _. by eexists.
Qed.
End Invariant.

(** ** One delivery *)

Definition unguarded (R : Type) (c : Ctx) (e : InPort R) : Prop := is_guarded e = false.

Lemma unguarded_inert : inert_in in_pre in_post unguarded.
Proof.
  split; intros R c e g; unfold unguarded.
  - destruct e as [? e|? e|? e|? e|? e| | | | | | | | | | | | | |]; try done; by destruct e.
  - intros r g' He.
    destruct e as [? e|? e|? e|? e|? e| | | | | | | | | | | | | |]; try done; by destruct e.
Qed.

Section Delivery.
Context (s : InboundService) (c : Ctx).
Hypothesis (Hc : RequireTenant c = Ok t).

Ltac free := calls_step ltac:(reflexivity).

Lemma lifted_unguarded {A} (m : prog Ctx ContactPort A) : calls unguarded (lift (@InContacts) m).
Proof. apply calls_lift. induction m as [a|R c' e k IH]; cbn; [done|]. by split. Qed.
#[local] Hint Resolve lifted_unguarded : calls.

Ltac skip := eapply (wp_inert_bind _ _ unguarded); [apply unguarded_inert|solve [repeat free]|intros ?].
Ltac skip_ok := eapply (wp_inert_bind_ok _ _ unguarded); [apply unguarded_inert|solve [repeat free]| |intros ?].

Lemma resolveInboundContact_free ch' jid ex msg : calls unguarded (resolveInboundContact s c ch' jid ex msg).
Proof. unfold resolveInboundContact. repeat free. Qed.

Lemma findOrCreateConversation_free k ch' chid p g :
  calls unguarded (findOrCreateConversation s c t k ch' chid p g).
Proof.
  unfold findOrCreateConversation, createConversation, findOpenConversation, findLastConversation,
    nextProtocol, reopen, recordEvent, emitRule, emitConversationWebhook, EmitLazy, conversationPayload,
    integrationContact. repeat free.
Qed.

Lemma routeNew_free conv : calls unguarded (routeNew s c conv).
Proof.
  unfold routeNew, recordEvent, publishConversation, emitConversationWebhook, EmitLazy, conversationPayload,
    integrationContact. repeat free.
Qed.

Lemma storeRaw_free conv files atts : calls unguarded (storeRaw c conv files atts).
Proof. revert atts. induction files as [|f files IH]; intros atts; [done|]. cbn [storeRaw]. repeat free. Qed.

Lemma announceInbound_free conv m : calls unguarded (announceInbound s c conv m).
Proof.
  unfold announceInbound, PublishAll, EmitLazy, conversationPayload, integrationContact, integrationMedia.
  repeat free.
Qed.
#[local] Hint Resolve resolveInboundContact_free findOrCreateConversation_free routeNew_free
  storeRaw_free announceInbound_free : calls.

Lemma appendInboundMessage_free conv k msg : calls unguarded (appendInboundMessage s c conv k msg).
Proof.
  unfold appendInboundMessage, typed, invalid_field, resolveInteractiveReply, recordEvent. repeat free.
Qed.

Lemma maybeSendOutOfHours_free conn conv : calls unguarded (maybeSendOutOfHours s c conn conv).
Proof. unfold maybeSendOutOfHours. repeat free. Qed.
#[local] Hint Resolve appendInboundMessage_free maybeSendOutOfHours_free : calls.

(** Taken as a new message means its entry was stored. *)
Definition taken (r : result InboundResult) : bool :=
  match r with Ok res => negb (ires_Idempotent res) && negb (ires_Discarded res) | Err _ => false end.
Definition won_if_taken (r : result InboundResult) (g : InThread) : Prop := taken r = true -> th_won g = true.
Definition held_won (l : Lease) (r : result InboundResult) (g : InThread) : Prop :=
  th_lease g = Some l /\ won_if_taken r g.

Lemma err_taken l e g : th_lease g = Some l -> held_won l (Err e) g.
Proof. by intros. Qed.

Lemma err_not_taken e g : won_if_taken (Err e) g.
Proof. done. Qed.

Lemma receive_race l conn msg isG k :
  cx_Type conn = ch ->
  wp in_race (receive s c t conn msg ext isG k) (held_won l) (mkThread (Some l) (Some None) false).
Proof.
  intros Hch. unfold receive, file_message. skip_ok; [intros ?; by apply err_taken|]. destruct a as [conv isNew].
  skip_ok; [intros ?; by apply err_taken|]. skip_ok; [intros ?; by apply err_taken|]. destruct a0 as [m conv'].
  do 3 skip. apply wp_bind; [apply _|]. split; [by split_and!|].
  intros [u|e] g; cbn [in_post is_ok]; intros [-> Hnc]; cbn [wp]; [by split|].
  destruct (CodeOf e <>! CodeConflict) eqn:Hcode; [by split|]. by prop_bools.
Qed.

Lemma locked_race l conn msg jid ex :
  cx_Type conn = ch ->
  wp in_race (locked s c t conn msg ext jid ex) (held_won l) (mkThread (Some l) None false).
Proof.
  intros Hch. unfold locked. rewrite Hch. apply wp_bind; [apply _|]. split.
  { by split_and!. }
  intros [x|e] g; cbn [in_post wp th_lease th_won]; intros ->.
  - unfold idempotentResult. apply wp_bind; [apply _|]. skip. by split.
  - destruct (is_not_found e); cbn [negb]; [|by apply (err_taken l)].
    skip_ok; [intros ?; by apply err_taken|]. case_match; [by apply receive_race|by split].
Qed.

Lemma Handle_race conn msg :
  cx_Type conn = ch -> trim_space (im_ExternalMessageID msg) = ext ->
  wp in_race (Handle s c conn msg) won_if_taken idle_thread.
Proof.
  intros Hch Hext. unfold Handle. rewrite Hc. cbn [bind_ok bind]. cbn zeta. rewrite Hch, Hext.
  do 4 match goal with |- wp _ (if ?b then _ else _) _ _ => destruct b; [exact (err_not_taken _ _)|] end.
  apply wp_bind; [apply _|]. split; [done|]. intros r g; cbn [in_post wp]. intros ->.
  destruct r as [[l [|]]|e]; [|exact (err_not_taken _ _)|exact (err_not_taken _ _)].
  apply wp_bind; [apply _|]. eapply wp_mono; [apply _| |by apply locked_race].
  intros r g [Hl Hw]. split; [done|]. by intros [] g' ->.
Qed.
End Delivery.
End Race.

(** ** In memory *)

Lemma is_entry_spec t ch ext r : is_entry t ch ext r = true <-> entry_of t ch ext r.
Proof. unfold is_entry, entry_of. rewrite !andb_true_iff, !bool_decide_eq_true. tauto. Qed.

#[export] Instance in_memory_world t ch ext :
  InboundWorld in_memory t ch ext (entry t ch ext) (fun s => in_locks s !! lock_key t ch ext).
Proof.
  split.
  - intros c ttl s. cbn. destruct (in_locks s !! lock_key t ch ext) eqn:Hl; cbn; [done|].
    split; [done|]. by rewrite lookup_insert_eq.
  - intros c l s. cbn. split; [done|]. intros Hl. apply map_lookup_filter_None. right.
    intros x Hx. cbn. rewrite Hl in Hx. injection Hx as ->. by intros [].
  - intros c s Hc. cbn. rewrite Hc. cbn. by destruct (entry t ch ext s).
  - intros c x s Hc (<- & <- & <-). cbn [in_memory]. destruct (0 <? in_faults s)%nat; [done|].
    destruct (entry _ _ _ s) eqn:He; cbn; [done|]. split; [done|].
    unfold entry. cbn [in_ledger set_ledger List.find].
    by rewrite (proj2 (is_entry_spec _ _ _ x)).
  - intros R c e s Hg. destruct e as [? e|? e|? e|? e|? e| | | | | | | | | | | | | |]; try done.
    + by destruct e.
    + by destruct e.
    + cbn. by destruct (ContactMemory.handle _ c e _).
    + cbn [in_memory]. set (same := fun a b : IMemory => entry t ch ext b = entry t ch ext a /\
        in_locks b !! lock_key t ch ext = in_locks a !! lock_key t ch ext).
      destruct (run _ _ _) as [r s'] eqn:Hr. change (same s s'). replace s' with (run service_in_memory
        (SendAutomationMessage Sample.service c conversationID ruleID text) s).2 by (by rewrite Hr).
      apply run_preserves; unfold same; [by intros x|intros x y z [-> ->] [-> ->]; done|].
      intros R' c' e' x. destruct e' as [? e'|? e'|? e'|? e'|? e'| | | | | | | | | | | |]; try done. by destruct e'.
Qed.

(** ** The theorem *)

(** C2. Accepted once: however the calls of any number of deliveries of one provider message
    interleave (retries and parallel webhooks alike), over any world whose locker is
    exclusive and whose ledger keeps its unique index, at most one of them is taken as a
    new message; every other is refused, discarded or answered with the first one's result. *)
Theorem inbound_message_accepted_once {S} (h : handler Ctx InPort S) (t ch ext : string)
    (doc : S -> option InboundRecord) (owner : S -> option Lease)
    `{!InboundWorld h t ch ext doc owner} (srv : InboundService)
    (deliveries : list (Ctx * Connection * InboundMessage)) (s : S)
    (p' : list (InM (result InboundResult))) (s' : S) :
  Forall (fun d => RequireTenant d.1.1 = Ok t /\ cx_Type d.1.2 = ch /\
                   trim_space (im_ExternalMessageID d.2) = ext) deliveries ->
  steps h (map (fun d => Handle srv d.1.1 d.1.2 d.2) deliveries, s) (p', s') ->
  forall i j a b, p' !! i = Some (Ret a) -> p' !! j = Some (Ret b) ->
    taken a = true -> taken b = true -> i = j.
Proof.
  intros Hds Hsteps i j a b Hi Hj Ha Hb.
  destruct (steps_wp h (in_race t ch ext) won_if_taken (Inv doc owner is_Some) _ _ _ _
              (map (fun _ => idle_thread) deliveries)
              ltac:(intros; by eapply in_race_step) Hsteps) as (gs & Hw & HI).
  - clear Hsteps. induction Hds as [|[[c conn] msg] ds (Hc & Hch & Hext) _ IH]; constructor; [|exact IH].
    by apply Handle_race.
  - apply inv_idle.
  - pose proof (Forall2_lookup_l _ _ _ _ _ Hw Hi) as (gi & Hgi & Hwi).
    pose proof (Forall2_lookup_l _ _ _ _ _ Hw Hj) as (gj & Hgj & Hwj).
    destruct HI as [_ _ _ Hone _]. by apply (Hone i j gi gj); [..|apply Hwi|apply Hwj].
Qed.

(** Two deliveries of one message, their calls in turn: the second is refused the lock. *)
Module Delivery_Demo.
Import Inbound_Demo.
Definition deliveries : list (Ctx * Connection * InboundMessage) :=
  [(ctx, connection false "", message "m1" "oi"); (ctx, connection false "", message " m1 " "oi")].
Definition turns : list nat := concat (replicate 60 [0; 1]%nat).
Definition outcome :=
  schedule in_memory turns (map (fun d => Handle service d.1.1 d.1.2 d.2) deliveries) (world true 0).

Lemma outcome_steps :
  steps in_memory (map (fun d => Handle service d.1.1 d.1.2 d.2) deliveries, world true 0)
    (outcome.1, outcome.2).
Proof. rewrite <- surjective_pairing. apply schedule_steps. Qed.
End Delivery_Demo.

Lemma inbound_message_accepted_once_witness :
  (exists a, Delivery_Demo.outcome.1 !! 0%nat = Some (Ret a) /\ taken a = true) /\
  (exists e, Delivery_Demo.outcome.1 !! 1%nat = Some (Ret (Err e))) /\
  Inbound_Demo.stored "m1" Delivery_Demo.outcome.2 = ["id-0"] /\
  forall i j a b, Delivery_Demo.outcome.1 !! i = Some (Ret a) -> Delivery_Demo.outcome.1 !! j = Some (Ret b) ->
    taken a = true -> taken b = true -> i = j.
Proof.
  split_and!; [vm_compute; by eauto|vm_compute; by eauto|vm_compute; reflexivity|].
  exact (inbound_message_accepted_once in_memory "acme" "whatsapp" "m1" (entry "acme" "whatsapp" "m1")
           (fun s => in_locks s !! lock_key "acme" "whatsapp" "m1") Inbound_Demo.service
           Delivery_Demo.deliveries (Inbound_Demo.world true 0) Delivery_Demo.outcome.1
           Delivery_Demo.outcome.2
           ltac:(repeat constructor; vm_compute; reflexivity)
           Delivery_Demo.outcome_steps).
Defined.
