(* ===== verification/InboundProps.v ===== *)
(** * Inbound messages: where they land

    The inbound service over a store of conversations, messages and ledger entries that
    keeps the repositories' contracts: one accepted message is stored once, in the one
    conversation its thread selects, and besides it only the out-of-hours notice of a new
    conversation may be stored, in that conversation. *)
From S2P Require Import Prelude GoStrings AppError Authz Shared ConvEntity Messages ConvContracts.
From S2P Require Import Prog Ports ConvBase ConvMessaging ConvIsolation ConvState Contacts ContactResults Calendar Channels Inbound.
From S2P Require Import ConvMemory InboundRace.

(** ** The store, as a ghost state *)

Record Filing := mkFiling {
  f_convs : convs_view; f_msgs : list Message; f_ledger : list InboundRecord }.

Definition put_convs v g := mkFiling v (f_msgs g) (f_ledger g).

(** What a search of the conversations answers: a stored document that satisfies [P], or
    that there is none. *)
Definition search_post (t : string) (v : convs_view) (P : Conversation -> Prop) (r : result Conversation) : Prop :=
  match r with
  | Ok x => v !! (t, cv_ID x) = Some x /\ cv_TenantID x = t /\ P x
  | Err e => is_not_found e = true -> forall i x, v !! (t, i) = Some x -> ~ P x
  end.

(** A success is applied, an error may have been. *)
Definition write_post {G} (r : result unit) (done : G) (g g' : G) : Prop :=
  match r with Ok _ => g' = done | Err _ => g' = g \/ g' = done end.

(** The out-of-hours notice, as the conversations service stores it
    ([ConvMessaging.SendAutomationMessage]). *)
Definition notice (t i rule text id : string) (now : Time) : Message :=
  newMessage id t i SenderAutomation rule DirectionOutbound MessageText text [] now DeliveryPending.

(** What sending it leaves: nothing, the message alone, or the message and the activity of its
    conversation; only the last is a success. *)
Definition noticed (t i rule text : string) (r : result unit) (g g' : Filing) : Prop :=
  is_ok r = false /\ g' = g \/
  exists id now, let m := notice t i rule text id now in
    is_ok r = false /\ g' = mkFiling (f_convs g) (f_msgs g ++ [m]) (f_ledger g) \/
    exists x, f_convs g !! (t, i) = Some x /\
      g' = mkFiling (<[(t, i) := bumpActivity m x]> (f_convs g)) (f_msgs g ++ [m]) (f_ledger g).

(** The thread of a contact on a connection; a group's runs across its connections. *)
Definition thread_of (k chid : string) (isGroup : bool) (x : Conversation) : Prop :=
  cv_ContactID x = k /\ (isGroup = false -> cv_ChannelID x = chid).
Definition open_thread_of k chid isGroup (x : Conversation) : Prop :=
  thread_of k chid isGroup x /\ IsClosed (cv_Status x) = false.

Definition filing_post (t : string) (R : Type) (c : Ctx) (e : InPort R) (g : Filing) (r : R) (g' : Filing) : Prop :=
  match e in InPort R return R -> Prop with
  | @InConvs R e => fun r => exists v', g' = put_convs v' g /\ store_post t R c (PConvs e) (f_convs g) r v'
  | FindOpenByContactChannelID k ch => fun r => g' = g /\ search_post t (f_convs g) (open_thread_of k ch false) r
  | FindLastByContactChannelID k ch => fun r => g' = g /\ search_post t (f_convs g) (thread_of k ch false) r
  | FindOpenByContact k => fun r => g' = g /\ search_post t (f_convs g) (open_thread_of k "" true) r
  | FindLastByContact k => fun r => g' = g /\ search_post t (f_convs g) (thread_of k "" true) r
  | InMsgs e =>
      match e in MsgRepo R return R -> Prop with
      | MsgCreate m => fun r =>
          write_post r (mkFiling (f_convs g) (f_msgs g ++ [m]) (f_ledger g)) g g'
      | _ => fun _ => g' = g
      end
  | LedgerCreate x => fun r =>
      write_post r (mkFiling (f_convs g) (f_msgs g) (x :: f_ledger g)) g g'
  | SendAutomationNotice i rule text => fun r => noticed t i rule text r g g'
  | _ => fun _ => g' = g
  end r.

(** Every call is made for the tenant, and what is stored is the tenant's. *)
Definition filing_pre (t : string) (R : Type) (c : Ctx) (e : InPort R) (g : Filing) : Prop :=
  RequireTenant c = Ok t /\
  match e with
  | InConvs (ConvCreate x | ConvUpdate x) => cv_TenantID x = t
  | InMsgs (MsgCreate m) => ms_TenantID m = t
  | InMsgs (MsgUpdate _) => False
  | LedgerCreate x => rec_TenantID x = t
  | _ => True
  end.

Definition filing (t : string) : contract Ctx InPort Filing := pre_post (filing_pre t) (filing_post t).

#[export] Instance filing_mono t : Monotone (filing t).
Proof. apply pre_post_mono. Qed.

(** ** Calls that store nothing *)

Definition filed_nothing (t : string) (R : Type) (c : Ctx) (e : InPort R) : Prop :=
  RequireTenant c = Ok t /\
  match e with
  | InConvs (ConvCreate _ | ConvUpdate _) | InMsgs (MsgCreate _ | MsgUpdate _) | LedgerCreate _
  | SendAutomationNotice _ _ _ => False
  | _ => True
  end.

Lemma filed_nothing_inert t : inert_in (filing_pre t) (filing_post t) (filed_nothing t).
Proof.
  split; intros R c e g.
  - intros [Hc He]. split; [done|].
    destruct e as [? e|? e|? e|? e|? e| | | | | | | | | | | | | |]; try done; by destruct e.
  - intros r g' [Hc He]. destruct g as [v m l].
    destruct e as [? e|? e|? e|? e|? e| | | | | | | | | | | | | |]; try done; cbn; try by intros [-> _].
    + destruct e; try done; cbn; intros (v' & -> & Hp); cbn in Hp; try (by rewrite Hp);
        by destruct Hp as [-> _].
    + by destruct e.
Qed.

Section Filing.
Context (s : InboundService) (t : string) (c : Ctx).
Hypothesis (Hc : RequireTenant c = Ok t).

Abbreviation idle m := (calls (filed_nothing t) m).
Ltac idle_step := calls_step ltac:(split; [exact Hc|exact I]).
Ltac skip := eapply (wp_inert_bind _ _ (filed_nothing t)); [apply filed_nothing_inert|solve [repeat idle_step]|intros ?].
Ltac skip_ok := eapply (wp_inert_bind_ok _ _ (filed_nothing t)); [apply filed_nothing_inert|solve [repeat idle_step]| |intros ?].

(** The contacts service stores nothing here, and works under the context it is given. *)
Lemma contacts_idle {A} (m : prog Ctx ContactPort A) :
  calls (fun R c' e => c' = c) m -> idle (lift (@InContacts) m).
Proof.
  intros Hm. apply calls_lift. eapply calls_impl; [|exact Hm]. intros R c' e ->. by split.
Qed.

Ltac same_step := calls_step ltac:(reflexivity).

Lemma UpsertFromInbound_same cmd : calls (fun R c' (e : ContactPort R) => c' = c) (UpsertFromInbound_ c cmd).
Proof. unfold UpsertFromInbound_, store_new, store_changed. repeat same_step. Qed.

Lemma UpsertGroupContact_same ch jid n d :
  calls (fun R c' (e : ContactPort R) => c' = c) (UpsertGroupContact c ch jid n d).
Proof. unfold UpsertGroupContact, store_new, store_changed. repeat same_step. Qed.
#[local] Hint Resolve contacts_idle UpsertFromInbound_same UpsertGroupContact_same : calls.

Lemma resolveInboundContact_idle ch jid ex msg : idle (resolveInboundContact s c ch jid ex msg).
Proof. unfold resolveInboundContact. repeat idle_step. Qed.

Lemma recordEvent_idle conv ty d : idle (recordEvent c conv ty d).
Proof. unfold recordEvent. repeat idle_step. Qed.

Lemma emitRule_idle conv e : idle (emitRule s c conv e).
Proof. unfold emitRule, conversationPayload. repeat idle_step. Qed.

Lemma emitConversationWebhook_idle conv e : idle (emitConversationWebhook s c conv e).
Proof. unfold emitConversationWebhook, EmitLazy, integrationContact. repeat idle_step. Qed.

Lemma publishConversation_idle conv : idle (publishConversation c conv).
Proof. unfold publishConversation, conversationPayload. repeat idle_step. Qed.

Lemma storeRaw_idle conv files atts : idle (storeRaw c conv files atts).
Proof. revert atts. induction files as [|f files IH]; intros atts; [done|]. cbn [storeRaw]. repeat idle_step. Qed.

Lemma typed_idle conv msg atts : idle (typed c conv msg atts).
Proof. unfold typed, invalid_field, resolveInteractiveReply. repeat idle_step. Qed.

Lemma announceInbound_idle conv m : idle (announceInbound s c conv m).
Proof.
  unfold announceInbound, PublishAll, EmitLazy, conversationPayload, integrationContact, integrationMedia.
  repeat idle_step.
Qed.

#[local] Hint Resolve resolveInboundContact_idle recordEvent_idle emitRule_idle emitConversationWebhook_idle
  publishConversation_idle storeRaw_idle typed_idle announceInbound_idle : calls.

(** ** One conversation at a time *)

(** Nothing but the document [i] changed. *)
Definition only (i : string) (v v' : convs_view) : Prop :=
  forall key, key <> (t, i) -> v' !! key = v !! key.

Lemma only_refl i v : only i v v.
Proof. done. Qed.

Lemma only_trans i a b d : only i a b -> only i b d -> only i a d.
Proof. intros H1 H2 key Hk. by rewrite H2, H1. Qed.

Lemma only_insert i x v : only i v (<[(t, i) := x]> v).
Proof. intros key Hk. by rewrite lookup_insert_ne. Qed.
Hint Resolve only_refl only_trans only_insert : core.

(** A document whose identity is the stored one's is stored as it is. *)
Definition same_identity (a b : Conversation) : Prop :=
  cv_ID a = cv_ID b /\ cv_TenantID a = cv_TenantID b /\ cv_ContactID a = cv_ContactID b /\
  cv_Channel a = cv_Channel b /\ cv_ChannelID a = cv_ChannelID b /\ cv_Protocol a = cv_Protocol b /\
  cv_CreatedAt a = cv_CreatedAt b.

Lemma stored_as_is a b : same_identity a b -> stored_update a b = b.
Proof. destruct a, b. unfold same_identity. cbn. by intros (-> & -> & -> & -> & -> & -> & ->). Qed.

(** Storing [new] over the [old] it was made from. *)
Lemma conv_update_wp old new (Q : result unit -> Filing -> Prop) g :
  f_convs g !! (t, cv_ID old) = Some old -> cv_TenantID old = t -> same_identity old new ->
  (forall v', only (cv_ID old) (f_convs g) v' -> v' !! (t, cv_ID old) = Some new ->
     Q (Ok tt) (put_convs v' g)) ->
  (forall e v', only (cv_ID old) (f_convs g) v' -> Q (Err e) (put_convs v' g)) ->
  wp (filing t) (ask c (ConvUpdate new)) Q g.
Proof.
  intros Hold Ht Hs HQ HE. pose proof Hs as (Hi & Htn & _).
  assert (forall v', updated t new (f_convs g) v' -> v' = <[(t, cv_ID old) := new]> (f_convs g)) as Hup.
  { intros v' (x & Hx & ->). rewrite <- Hi in *. rewrite Hold in Hx. injection Hx as <-.
    by rewrite (stored_as_is old new Hs). }
  split; [split; [done|congruence]|]. intros [[]|e] g' (v' & -> & Hp); cbn [wp].
  - rewrite (Hup v' Hp). apply HQ; [done|]. by rewrite lookup_insert_eq.
  - destruct Hp as [Hp|Hp]; [rewrite Hp|rewrite (Hup v' Hp)]; by apply HE.
Qed.

(** *** The conversation of a message *)

Definition new_thread (k ch chid protocol id : string) (now : Time) : Conversation :=
  new_conversation id t k ch chid protocol now.

(** How the conversation [x] a message goes to was found in the store [v]. *)
Inductive chosen (v : convs_view) (k ch chid : string) (protocol isGroup : bool)
  : Conversation -> bool -> Prop :=
| chosen_open x :
    v !! (t, cv_ID x) = Some x -> open_thread_of k chid isGroup x ->
    chosen v k ch chid protocol isGroup x false
| chosen_reopened old now :
    protocol = false \/ isGroup = true ->
    (forall i x, v !! (t, i) = Some x -> ~ open_thread_of k chid isGroup x) ->
    v !! (t, cv_ID old) = Some old -> thread_of k chid isGroup old ->
    chosen v k ch chid protocol isGroup (reopened now old) false
| chosen_new id n now :
    (forall i x, v !! (t, i) = Some x -> ~ open_thread_of k chid isGroup x) ->
    (protocol = false \/ isGroup = true ->
     forall i x, v !! (t, i) = Some x -> ~ thread_of k chid isGroup x) ->
    v !! (t, id) = None ->
    let number := if protocol && negb isGroup then protocol_of (year_of_time now) n else "" in
    chosen v k ch chid protocol isGroup (new_thread k ch chid number id now) true.

(** The conversation [x] is stored, and it is all that changed. *)
Definition stands (x : Conversation) (g g' : Filing) : Prop :=
  only (cv_ID x) (f_convs g) (f_convs g') /\ f_convs g' !! (t, cv_ID x) = Some x /\
  cv_TenantID x = t /\ f_msgs g' = f_msgs g /\ f_ledger g' = f_ledger g.

(** A step that failed: one conversation may have changed, no message was stored. *)
Definition failed (g g' : Filing) : Prop :=
  (exists i, only i (f_convs g) (f_convs g')) /\ f_msgs g' = f_msgs g /\ f_ledger g' = f_ledger g.

Lemma failed_refl g : failed g g.
Proof. split; [by exists ""|done]. Qed.
Hint Resolve failed_refl : core.

(** A search, whichever the thread's kind asks for. *)
Lemma findOpen_wp k chid (isGroup : bool) Q g :
  (forall r, search_post t (f_convs g) (open_thread_of k chid isGroup) r -> Q r g) ->
  wp (filing t) (findOpenConversation c k chid isGroup) Q g.
Proof.
  intros HQ. unfold findOpenConversation.
  destruct isGroup; (split; [by split|]); intros r g' [-> Hr]; apply HQ; revert Hr;
    unfold search_post, open_thread_of, thread_of; destruct r as [x|e]; naive_solver.
Qed.

Lemma findLast_wp k chid (isGroup : bool) Q g :
  (forall r, search_post t (f_convs g) (thread_of k chid isGroup) r -> Q r g) ->
  wp (filing t) (findLastConversation c k chid isGroup) Q g.
Proof.
  intros HQ. unfold findLastConversation.
  destruct isGroup; (split; [by split|]); intros r g' [-> Hr]; apply HQ; revert Hr;
    unfold search_post, thread_of; destruct r as [x|e]; naive_solver.
Qed.

Lemma stands_refl x g : f_convs g !! (t, cv_ID x) = Some x -> cv_TenantID x = t -> stands x g g.
Proof. by intros. Qed.

Definition found_post k ch chid protocol isGroup g0
    (r : result (Conversation * bool)) (g : Filing) : Prop :=
  match r with
  | Ok (x, isNew) => stands x g0 g /\ chosen (f_convs g0) k ch chid protocol isGroup x isNew
  | Err _ => failed g0 g
  end.

Lemma createConversation_wp k ch chid protocol (isGroup : bool) now g :
  (forall i x, f_convs g !! (t, i) = Some x -> ~ open_thread_of k chid isGroup x) ->
  (protocol = false \/ isGroup = true ->
     forall i x, f_convs g !! (t, i) = Some x -> ~ thread_of k chid isGroup x) ->
  wp (filing t) (createConversation s c t k ch chid (protocol && negb isGroup) now)
    (found_post k ch chid protocol isGroup g) g.
Proof.
  intros Hopen Hlast. unfold createConversation.
  assert (forall n, wp (filing t)
    (let! id := ask c NewID in
     let conv := new_conversation id t k ch chid
       (if protocol && negb isGroup then protocol_of (year_of_time now) n else "") now in
     try! _ := ask c (ConvCreate conv) in
     do! recordEvent c conv EventConversationCreated [] in
     do! emitRule s c conv EventConversationCreated in
     Ret (Ok (conv, true))) (found_post k ch chid protocol isGroup g) g) as Hstore.
  { intros n. skip. cbn zeta. apply wp_bind_ok; [apply _|]. split; [by split|].
    intros [[]|e] g' (v' & -> & Hp); cbn [wp]; cbn in Hp.
    - destruct Hp as [Hnone ->]. do 2 skip. split; [|by apply chosen_new].
      split; [by apply only_insert|]. split; [by apply lookup_insert_eq|done].
    - split; [|done]. destruct Hp as [->|[_ ->]]; [by exists ""|]. eexists. apply only_insert. }
  apply wp_bind_ok; [apply _|]. destruct (protocol && negb isGroup).
  - unfold nextProtocol. skip_ok; [intros ?; exact (failed_refl g)|]. exact (Hstore a).
  - exact (Hstore 0).
Qed.

Lemma findOrCreate_wp k ch chid protocol (isGroup : bool) g :
  wp (filing t) (findOrCreateConversation s c t k ch chid protocol isGroup)
    (found_post k ch chid protocol isGroup g) g.
Proof.
  unfold findOrCreateConversation. apply wp_bind; [apply _|]. apply findOpen_wp.
  intros [x|e] Hopen; cbn in Hopen.
  { destruct Hopen as (Hx & Ht & Ho). split; [by apply stands_refl|by apply chosen_open]. }
  destruct (is_not_found e) eqn:He; cbn [negb]; [|exact (failed_refl g)]. specialize (Hopen eq_refl).
  skip. rename a into now.
  destruct (negb protocol || isGroup) eqn:Hmode.
  - apply orb_true_iff in Hmode. rewrite negb_true_iff in Hmode.
    apply wp_bind; [apply _|]. apply findLast_wp. intros [x|e'] Hlast; cbn in Hlast.
    + destruct Hlast as (Hx & Ht & Hth). apply wp_bind_ok; [apply _|]. unfold reopen.
      destruct (IsClosed (cv_Status x)) eqn:Hcl; cbn [negb]; [|by destruct (Hopen _ _ Hx)].
      apply wp_bind_ok; [apply _|]. apply (conv_update_wp x); [done|done|done| |].
      * intros v' Hv Hn. do 3 skip. split; [|by apply chosen_reopened]. done.
      * intros e' v' Hv. split; [by eexists|done].
    + destruct (is_not_found e') eqn:He'; cbn [negb]; [|exact (failed_refl g)].
      apply createConversation_wp; [done|]. intros _. by apply Hlast.
  - apply orb_false_iff in Hmode as [Hp%negb_false_iff ->]. apply createConversation_wp; [done|].
    intros [?|?]; congruence.
Qed.

(** *** A new conversation is queued *)

Definition queued (now : Time) (x : Conversation) : Conversation :=
  set_UpdatedAt now (set_Status StatusQueued x).

Lemma routeNew_wp x Q g :
  f_convs g !! (t, cv_ID x) = Some x -> cv_TenantID x = t ->
  (forall now g', stands (queued now x) g g' -> Q (Ok (queued now x)) g') ->
  (forall e g', only (cv_ID x) (f_convs g) (f_convs g') -> f_msgs g' = f_msgs g ->
     f_ledger g' = f_ledger g -> Q (Err e) g') ->
  wp (filing t) (routeNew s c x) Q g.
Proof.
  intros Hx Ht HQ HE. unfold routeNew. skip. rename a into now. cbn zeta.
  apply wp_bind_ok; [apply _|]. apply (conv_update_wp x); [done|done|done| |].
  - intros v' Hv Hn. do 3 skip. by apply (HQ now).
  - intros e v' Hv. by apply HE.
Qed.

(** *** The message *)

(** What a failed request may have stored: nothing, a message, or a message and a notice. *)
Definition leftovers (l : list Message) : Prop :=
  match l with
  | [] | [_] => True
  | [_; n] => ms_SenderType n = SenderAutomation
  | _ => False
  end.

(** A step that failed after the message was stored, or before. *)
Definition attempted (g g' : Filing) : Prop :=
  (exists i, only i (f_convs g) (f_convs g')) /\
  (exists l, f_msgs g' = f_msgs g ++ l /\ leftovers l) /\
  (f_ledger g' = f_ledger g \/ exists x, f_ledger g' = x :: f_ledger g).

Lemma failed_attempted g g' : failed g g' -> attempted g g'.
Proof. intros (? & ? & ?). split; [done|]. split; [|by left]. exists []. by rewrite app_nil_r. Qed.

(** The messages [ms] are stored with their conversation, which was [x]. *)
Definition delivered_to (x : Conversation) (ms : list Message) (x' : Conversation) (g g' : Filing) : Prop :=
  only (cv_ID x) (f_convs g) (f_convs g') /\ f_convs g' !! (t, cv_ID x) = Some x' /\
  f_msgs g' = f_msgs g ++ ms /\ f_ledger g' = f_ledger g.

Lemma appendInboundMessage_wp x k msg Q g :
  f_convs g !! (t, cv_ID x) = Some x -> cv_TenantID x = t ->
  (forall mid at_ atts ty g',
     let m := inbound_message mid x k msg at_ atts ty in
     delivered_to x [m] (received m at_ x) g g' -> Q (Ok (m, received m at_ x)) g') ->
  (forall e g', only (cv_ID x) (f_convs g) (f_convs g') -> attempted g g' -> Q (Err e) g') ->
  wp (filing t) (appendInboundMessage s c x k msg) Q g.
Proof.
  intros Hx Ht HQ HE. unfold appendInboundMessage. skip. cbn zeta.
  set (at_ := if 0 <? im_Timestamp msg then im_Timestamp msg * 1000000 else a).
  assert (forall e, Q (Err e) g) as HE0 by (intros e; apply HE; [done|apply failed_attempted, failed_refl]).
  skip_ok; [exact HE0|]. skip_ok; [exact HE0|]. skip. rename a0 into atts, a1 into ty, a2 into mid.
  set (m := inbound_message mid x k msg at_ atts ty).
  apply wp_bind_ok; [apply _|]. split; [by split|]. intros [[]|e] g' Hp; cbn [wp]; cbn in Hp.
  2: { apply HE; destruct Hp as [->| ->]; try done; [apply failed_attempted, failed_refl|].
       split; [by exists ""|]. cbn. split; [by exists [m]|by left]. }
  subst g'. apply wp_bind_ok; [apply _|]. apply (conv_update_wp x); [done|done|done| |].
  - intros v' Hv Hn. do 2 skip. apply HQ. by split_and!.
  - intros e v' Hv. apply HE; [done|]. split; [by eexists|]. cbn. split; [by exists [m]|by left].
Qed.

(** *** The out-of-hours notice *)

(** What may follow a message in its conversation [x], which is left as [x']: nothing; or, when the
    conversation is new and the connection has a notice, that notice. *)
Definition followed (conn : Connection) (isNew : bool) (x : Conversation) (notices : list Message)
    (x' : Conversation) : Prop :=
  notices = [] /\ x' = x \/
  isNew = true /\ is_outOfHours s = true /\ is_businessHours s = true /\
  trim_space (cx_OutOfHoursMessage conn) <> "" /\
  exists id now, let n := notice t (cv_ID x) "" (trim_space (cx_OutOfHoursMessage conn)) id now in
    notices = [n] /\ (x' = x \/ x' = bumpActivity n x).

Lemma followed_keeps conn isNew x notices x' :
  followed conn isNew x notices x' ->
  cv_ID x' = cv_ID x /\ cv_Status x' = cv_Status x /\ cv_ContactID x' = cv_ContactID x /\
  cv_ChannelID x' = cv_ChannelID x /\ forall m, leftovers (m :: notices).
Proof. intros [[-> ->]|(_ & _ & _ & _ & id & now & -> & [-> | ->])]; by split_and!. Qed.

Lemma maybeSend_wp conn (isNew : bool) x (Q : unit -> Filing -> Prop) g :
  f_convs g !! (t, cv_ID x) = Some x ->
  (forall notices x' g', followed conn isNew x notices x' -> delivered_to x notices x' g g' -> Q tt g') ->
  wp (filing t) (when! isNew do maybeSendOutOfHours s c conn x) Q g.
Proof.
  intros Hx HQ. assert (Q tt g) as Hnone.
  { apply (HQ [] x); [by left|]. split_and!; [done|done|by rewrite app_nil_r|done]. }
  destruct isNew; [|exact Hnone]. unfold maybeSendOutOfHours. cbn zeta.
  destruct (_ || _ || _) eqn:Hg; [exact Hnone|].
  apply orb_false_iff in Hg as [[Htext Hb%negb_false_iff]%orb_false_iff Ho%negb_false_iff].
  apply bool_decide_eq_false in Htext. skip. skip. rename a into now, a0 into open_.
  destruct open_ as [[|]|e]; [exact Hnone| |exact Hnone].
  apply wp_bind; [apply _|]. split; [by split|]. intros r g' Hn. cbn [wp]. cbn in Hn.
  assert (forall ns x', followed conn true x ns x' -> f_msgs g' = f_msgs g ++ ns -> f_ledger g' = f_ledger g ->
    f_convs g' = <[(t, cv_ID x) := x']> (f_convs g) -> Q tt g') as Hgo.
  { intros ns x' Hf Hm Hl Hv. apply (HQ ns x'); [done|]. split_and!; [|by rewrite Hv, lookup_insert_eq|done|done].
    rewrite Hv. apply only_insert. }
  destruct Hn as [[_ ->]|(id & at_ & Hn)]; [exact Hnone|]. cbn zeta in Hn.
  destruct Hn as [[_ ->]|(y & Hy & ->)].
  - eapply (Hgo _ x); [right|done..|cbn; by rewrite insert_id]. split_and!; [done..|]. exists id, at_. split; [done|by left].
  - rewrite Hx in Hy. injection Hy as <-.
    eapply (Hgo _ (bumpActivity _ x)); [right|done..]. split_and!; [done..|]. exists id, at_. split; [done|by right].
Qed.

(** *** From the contact to the ledger *)

(** What a message accepted is: the conversation its thread selects, open, holds it, with the
    out-of-hours notice after it if one was due, and nothing else changed but the ledger. *)
Definition accepted (conn : Connection) (msg : InboundMessage) (ext : string) (isGroup : bool)
    (k : string) (res : InboundResult) (g0 g : Filing) : Prop :=
  exists base isNew now mid at_ atts ty notices last,
    let x := if isNew : bool then queued now base else base in
    let m := inbound_message mid x k msg at_ atts ty in
    let x' := received m at_ x in
    chosen (f_convs g0) k (cx_Type conn) (cx_ID conn) (cx_UsesProtocol conn) isGroup base isNew /\
    followed conn isNew x' notices last /\
    thread_of k (cx_ID conn) isGroup last /\ IsClosed (cv_Status last) = false /\
    delivered_to x (m :: notices) last (mkFiling (f_convs g0) (f_msgs g0) (f_ledger g)) g /\
    (f_ledger g = f_ledger g0 \/ exists id at_, f_ledger g =
       mkInboundRecord id t (cx_Type conn) ext (cv_ID x) mid at_ :: f_ledger g0) /\
    res = mkInboundResult (cv_ID x) mid k (cv_Status last) false false.

Lemma chosen_open_thread v k ch chid protocol isGroup x isNew now :
  chosen v k ch chid protocol isGroup x isNew ->
  open_thread_of k chid isGroup (if isNew then queued now x else x).
Proof.
  intros [y Hy Ho|old w _ _ _ Ho|id n w]; [done| |done].
  split; [exact Ho|]. cbn. by repeat case_match.
Qed.

Definition receive_post conn msg ext isGroup k g0 (r : result InboundResult) (g : Filing) : Prop :=
  match r with
  | Ok res => accepted conn msg ext isGroup k res g0 g
  | Err _ => attempted g0 g
  end.

(** The last write: the ledger's entry, which a conflict leaves to another. *)
Lemma ledger_wp x (Q : result unit -> Filing -> Prop) g :
  rec_TenantID x = t ->
  (forall r l, l = f_ledger g \/ l = x :: f_ledger g -> Q r (mkFiling (f_convs g) (f_msgs g) l)) ->
  wp (filing t) (ask c (LedgerCreate x)) Q g.
Proof.
  intros Hx HQ. split; [by split|]. intros r g' Hw. cbn in Hw.
  assert (g = mkFiling (f_convs g) (f_msgs g) (f_ledger g)) as Hg by (by destruct g).
  destruct r; cbn [wp]; cbn in Hw.
  - subst g'. apply HQ. by right.
  - destruct Hw as [->| ->]; [rewrite Hg|]; apply HQ; [by left|by right].
Qed.

Lemma file_message_wp conn msg ext isGroup k base (isNew : bool) now g0 g :
  chosen (f_convs g0) k (cx_Type conn) (cx_ID conn) (cx_UsesProtocol conn) isGroup base isNew ->
  let x := if isNew then queued now base else base in
  stands x g0 g ->
  wp (filing t) (file_message s c t conn msg ext k x isNew) (receive_post conn msg ext isGroup k g0) g.
Proof.
  intros Hch x (Ho & Hx & Ht & Hm & Hl). unfold file_message.
  apply wp_bind_ok; [apply _|]. apply appendInboundMessage_wp; [done|done| |].
  - intros mid at_ atts ty g1 m (Ho1 & Hx1 & Hm1 & Hl1).
    apply wp_bind; [apply _|]. apply maybeSend_wp; [done|].
    intros notices last g' Hf (Ho2 & Hx' & Hm2 & Hl2).
    pose proof (followed_keeps _ _ _ _ _ Hf) as (_ & Hst & Hk & Hchn & Hleft).
    assert (only (cv_ID x) (f_convs g) (f_convs g')) as Ho' by by eapply only_trans.
    assert (f_msgs g' = f_msgs g ++ m :: notices) as Hm' by (by rewrite Hm2, Hm1, <- app_assoc).
    assert (f_ledger g' = f_ledger g) as Hl' by congruence.
    do 2 skip. rename a into rid, a0 into rat.
    apply wp_bind; [apply _|]. apply ledger_wp; [done|]. intros r l Hled. cbn zeta.
    assert (accepted conn msg ext isGroup k (mkInboundResult (cv_ID x) mid k (cv_Status x) false false) g0
              (mkFiling (f_convs g') (f_msgs g') l)) as Hok.
    { pose proof (chosen_open_thread _ _ _ _ _ _ _ _ now Hch) as [Hth Hop].
      exists base, isNew, now, mid, at_, atts, ty, notices, last. cbn zeta. fold x. fold m. split; [done|].
      split; [done|]. split; [by unfold thread_of; rewrite Hk, Hchn|]. split; [by rewrite Hst|]. split.
      { split; [by eapply only_trans|]. cbn. split_and!; [done|congruence|done]. }
      split; [|by rewrite Hst]. rewrite Hl', Hl in Hled. destruct Hled as [?|?]; [by left|right; by exists rid, rat]. }
    assert (attempted g0 (mkFiling (f_convs g') (f_msgs g') l)) as Hbad.
    { split; [exists (cv_ID x); by eapply only_trans|].
      split; [exists (m :: notices); split; [cbn; congruence|exact (Hleft m)]|].
      rewrite Hl', Hl in Hled. destruct Hled as [?|?]; [by left|right; by eexists]. }
    destruct r as [u|e]; [exact Hok|]. by destruct (CodeOf e <>! CodeConflict).
  - intros e g' Ho' (_ & Hm' & Hl'). split; [exists (cv_ID x); by eapply only_trans|].
    rewrite <- Hm, <- Hl. done.
Qed.

Lemma receive_wp conn msg ext isGroup kt g :
  wp (filing t) (receive s c t conn msg ext isGroup kt) (receive_post conn msg ext isGroup (ct_ID kt) g) g.
Proof.
  unfold receive. cbn zeta. apply wp_bind_ok; [apply _|].
  eapply wp_mono; [apply _| |by apply findOrCreate_wp].
  intros [[base isNew]|e] g1 H1; [|by apply failed_attempted].
  destruct H1 as (Hst & Hch). apply wp_bind_ok; [apply _|].
  destruct isNew.
  - pose proof Hst as (Ho1 & Hs1 & Ht1 & Hm1 & Hl1). apply routeNew_wp; [done|done| |].
    + intros now g2 (Ho2 & Hs2 & Ht2 & Hm2 & Hl2).
      apply (file_message_wp conn msg ext isGroup (ct_ID kt) base true now g g2 Hch).
      split; [eapply only_trans; [exact Ho1|exact Ho2]|]. split_and!; [done|done|congruence|congruence].
    + intros e g2 Ho2 Hm2 Hl2. apply failed_attempted.
      split; [exists (cv_ID base); by eapply only_trans|split; congruence].
  - by apply (file_message_wp conn msg ext isGroup (ct_ID kt) base false 0 g g1 Hch).
Qed.

(** ** The whole request *)

Definition handled (conn : Connection) (msg : InboundMessage) (g0 : Filing)
    (r : result InboundResult) (g : Filing) : Prop :=
  match r with
  | Ok res =>
      if ires_Idempotent res || ires_Discarded res then g = g0
      else exists k, accepted conn msg (trim_space (im_ExternalMessageID msg))
                       (negb (blank (im_GroupJID msg))) k res g0 g
  | Err _ => attempted g0 g
  end.

Lemma attempted_refl g : attempted g g.
Proof. apply failed_attempted, failed_refl. Qed.

Lemma locked_wp conn msg ex g :
  wp (filing t) (locked s c t conn msg (trim_space (im_ExternalMessageID msg))
                   (trim_space (im_GroupJID msg)) ex) (handled conn msg g) g.
Proof.
  unfold locked. cbn zeta. skip. destruct a as [r|e].
  - unfold idempotentResult. apply wp_bind; [apply _|]. skip. done.
  - destruct (is_not_found e); cbn [negb]; [|exact (attempted_refl g)].
    skip_ok; [intros ?; exact (attempted_refl g)|]. destruct a as [kt|]; [|done].
    eapply wp_mono; [apply _| |apply receive_wp]. intros [res|err] g' H; [|done].
    cbn. pose proof H as (? & ? & ? & ? & ? & ? & ? & ? & ? & _ & _ & _ & _ & _ & _ & ->). cbn [ires_Idempotent ires_Discarded orb].
    by exists (ct_ID kt).
Qed.

Lemma Handle_wp conn msg g : wp (filing t) (Handle s c conn msg) (handled conn msg g) g.
Proof.
  unfold Handle. rewrite Hc. cbn [bind_ok bind]. cbn zeta.
  do 4 match goal with |- wp _ (if ?b then _ else _) _ _ => destruct b; [exact (attempted_refl g)|] end.
  skip. destruct a as [[l [|]]|e]; [|exact (attempted_refl g)..].
  apply wp_bind; [apply _|]. eapply wp_mono; [apply _| |by apply locked_wp].
  intros r g' H. eapply (wp_inert_bind _ _ (filed_nothing t)); [apply filed_nothing_inert|repeat idle_step|].
  by intros ?.
Qed.
End Filing.

(** ** The notice, as the conversations service stores it

    The contract the inbound service relies on for the notice is kept by
    [ConvMessaging.SendAutomationMessage] over the same store. *)

Definition service_post (t : string) (R : Type) (c : Ctx) (e : ConvPort R) (g : Filing) (r : R) (g' : Filing) : Prop :=
  match e in ConvPort R return R -> Prop with
  | @PConvs R e => fun r => exists v', g' = put_convs v' g /\ store_post t R c (PConvs e) (f_convs g) r v'
  | PMsgs e =>
      match e in MsgRepo R return R -> Prop with
      | MsgCreate m => fun r => write_post r (mkFiling (f_convs g) (f_msgs g ++ [m]) (f_ledger g)) g g'
      | _ => fun _ => g' = g
      end
  | _ => fun _ => g' = g
  end r.

Definition service_filing (t : string) : contract Ctx ConvPort Filing :=
  pre_post (fun _ c _ _ => RequireTenant c = Ok t) (service_post t).

#[export] Instance service_filing_mono t : Monotone (service_filing t).
Proof. apply pre_post_mono. Qed.

Definition sends_nothing (t : string) (R : Type) (c : Ctx) (e : ConvPort R) : Prop :=
  RequireTenant c = Ok t /\
  match e with PConvs (ConvCreate _ | ConvUpdate _) | PMsgs (MsgCreate _ | MsgUpdate _) => False | _ => True end.

Lemma sends_nothing_inert t : inert_in (fun _ c _ _ => RequireTenant c = Ok t) (service_post t) (sends_nothing t).
Proof.
  split; intros R c e g; [by intros [? _]|]. intros r g' [Hc He]. destruct g as [v m l].
  destruct e as [? e|? e|? e|? e|? e| | | | | | | | | | | |]; try done; destruct e; try done; cbn;
    intros (v' & -> & Hp); cbn in Hp; try (by rewrite Hp); by destruct Hp as [-> _].
Qed.

(** A message without attachments is stored as it is. *)
Lemma hydrateMessage_bare srv c m : ms_Attachments m = [] -> hydrateMessage srv c m = Ret m.
Proof.
  intros Hm. unfold hydrateMessage, hydrateMessages. cbn. rewrite Hm. by destruct (negb _ || _).
Qed.

Section Notices.
Context (srv : Service) (t : string) (c : Ctx) (Hc : RequireTenant c = Ok t).

Ltac still := calls_step ltac:(split; [exact Hc|exact I]).

(** What follows the two stores of a message. *)
Lemma recordEvent_still conv ty d : calls (sends_nothing t) (ConvBase.recordEvent c conv ty d).
Proof. unfold ConvBase.recordEvent. repeat still. Qed.
Lemma conversationPayload_still conv : calls (sends_nothing t) (ConvBase.conversationPayload c conv).
Proof. unfold ConvBase.conversationPayload. repeat still. Qed.
Lemma PublishAll_still l : calls (sends_nothing t) (ConvBase.PublishAll srv c l).
Proof. unfold ConvBase.PublishAll. repeat still. Qed.
Lemma emitMessageWebhook_still conv m e : calls (sends_nothing t) (ConvBase.emitMessageWebhook srv c conv m e).
Proof.
  unfold ConvBase.emitMessageWebhook, ConvBase.EmitLazy, ConvBase.resolveIntegrationMedia,
    ConvBase.integrationContact, ConvBase.integrationAgent. repeat still.
Qed.
Lemma emitRuleEvent_still conv e p :
  calls (sends_nothing t) (ConvBase.emitRuleEvent srv (WithRuleOrigin c OriginAutomation) conv e p).
Proof. unfold ConvBase.emitRuleEvent. repeat still. Qed.
#[local] Hint Resolve recordEvent_still conversationPayload_still PublishAll_still emitMessageWebhook_still
  emitRuleEvent_still : calls.

Ltac skip := eapply (wp_inert_bind _ _ (sends_nothing t)); [apply sends_nothing_inert|solve [repeat still]|intros ?].

(** The notice sent: stored once, in that conversation, which shows it last; when it fails, not at
    all, or without the activity. *)
Theorem notice_is_stored (i rule text : string) (g : Filing) :
  wp (service_filing t) (SendAutomationMessage srv c i rule text) (fun r g' => noticed t i rule text r g g') g.
Proof.
  assert (forall e, noticed t i rule text (Err e) g g) as Hnone by by left.
  unfold SendAutomationMessage, requireTenant. rewrite Hc. cbn [bind_ok bind].
  apply wp_bind_ok; [apply _|]. split; [done|]. intros r g1 (v1 & -> & [-> Hr]).
  replace (put_convs (f_convs g) g) with g by (by destruct g).
  destruct r as [x|e]; cbn [wp]; [|apply Hnone]. destruct Hr as (Hx & Hi & Ht). case_match; [apply Hnone|].
  skip. skip. rename a into now, a0 into id. rewrite Ht, Hi. fold (notice t i rule text id now).
  set (m := notice t i rule text id now). apply wp_bind_ok; [apply _|].
  unfold persistMessage. rewrite hydrateMessage_bare by done. cbn [bind].
  change (set_msg_Attachments (attachmentIDsOnly (ms_Attachments m)) m) with m.
  apply wp_bind_ok; [apply _|]. split; [done|]. intros r g1 Hw; cbn in Hw. cbn [wp].
  assert (forall e, noticed t i rule text (Err e) g (mkFiling (f_convs g) (f_msgs g ++ [m]) (f_ledger g))) as Halone.
  { intros e. right. exists id, now. by left. }
  destruct r as [[]|e]; cbn in Hw; [subst g1|by destruct Hw as [-> | ->]].
  apply wp_bind_ok; [apply _|]. split; [done|]. intros r g1 (v1 & -> & Hu). cbn [wp].
  assert (forall v', updated t (bumpActivity m x) (f_convs g) v' -> v' = <[(t, i) := bumpActivity m x]> (f_convs g)) as Hup.
  { intros v' (old & Ho & ->). change (cv_ID (bumpActivity m x)) with (cv_ID x) in *. rewrite Hi in *.
    rewrite Hx in Ho. injection Ho as <-. by rewrite stored_update_same. }
  destruct r as [[]|e]; cbn in Hu.
  - rewrite (Hup _ Hu). do 3 skip.
    eapply (wp_inert_bind _ _ (sends_nothing t)); [apply sends_nothing_inert|repeat still|intros ?].
    right. exists id, now. right. by exists x.
  - destruct Hu as [-> | ->%Hup]; [apply Halone|]. right. exists id, now. right. by exists x.
Qed.
End Notices.

(** ** Worlds *)

(** A world whose repositories keep their contracts, seen as conversations, messages and
    ledger entries. *)
Class FilingWorld {S} (h : handler Ctx InPort S) (view : S -> Filing) : Prop :=
  filing_world : forall t R c (e : InPort R) s, filing_pre t R c e (view s) ->
    let '(r, s') := h R c e s in filing_post t R c e (view s) r (view s').

Definition filing_view (s : IMemory) : Filing :=
  mkFiling (mem_view (in_store s)) (in_msgs s) (in_ledger s).

Lemma latest_spec t P v :
  match latest t P v with
  | Some x => exists i, v !! (t, i) = Some x /\ P x = true
  | None => forall i x, v !! (t, i) = Some x -> P x = false
  end.
Proof.
  unfold latest.
  assert (forall l best,
    let res := foldl (fun best (kv : string * string * Conversation) =>
           if (kv.1.1 =! t) && P kv.2 then
             match best with
             | Some b => if cv_UpdatedAt b <? cv_UpdatedAt kv.2 then Some kv.2 else best
             | None => Some kv.2
             end
           else best) best l in
    match res with
    | Some x => best = Some x \/ exists i, ((t, i), x) ∈ l /\ P x = true
    | None => best = None /\ forall i x, ((t, i), x) ∈ l -> P x = false
    end) as Hfold.
  { induction l as [|[[t' i'] x'] l IH]; intros best; cbn [foldl].
    - destruct best; [by left|]. split; [done|]. by intros i x Hin%elem_of_nil.
    - cbn zeta in IH. specialize (IH (if (t' =! t) && P x' then
        match best with Some b => if cv_UpdatedAt b <? cv_UpdatedAt x' then Some x' else best | None => Some x' end
        else best)). cbn [fst snd]. cbn zeta.
      assert (forall x, (if (t' =! t) && P x' then
        match best with Some b => if cv_UpdatedAt b <? cv_UpdatedAt x' then Some x' else best | None => Some x' end
        else best) = Some x -> best = Some x \/ (t' = t /\ x' = x /\ P x' = true)) as Hhead.
      { intros x. destruct (t' =! t) eqn:Ht, (P x') eqn:HP; cbn; auto. apply bool_decide_eq_true in Ht.
        repeat case_match; naive_solver. }
      destruct (foldl _ _ l) as [x|].
      + destruct IH as [H|(i & Hin & Hp)]; [|right; exists i; split; [by right|done]].
        destruct (Hhead x H) as [?|(-> & -> & Hp)]; [by left|]. right. exists i'. split; [left|done].
      + destruct IH as [Hn Hall]. destruct ((t' =! t) && P x') eqn:Hc; [by repeat case_match|].
        split; [done|]. intros i x [H|H]%elem_of_cons; [|by eapply Hall]. simplify_eq.
        rewrite bool_decide_true in Hc by done. done. }
  specialize (Hfold (map_to_list v) None). cbn zeta in Hfold. destruct (foldl _ None _) as [x|].
  - destruct Hfold as [?|(i & Hin%elem_of_map_to_list & Hp)]; [done|]. by exists i.
  - destruct Hfold as [_ Hall]. intros i x Hx. apply (Hall i). by apply elem_of_map_to_list.
Qed.

Lemma find_conv_post t c P (Q : Conversation -> Prop) s :
  RequireTenant c = Ok t -> (forall x, P x = true <-> Q x) ->
  search_post t (mem_view (in_store s)) Q (find_conv c P s).
Proof.
  intros Hc HPQ. unfold find_conv. rewrite Hc. pose proof (latest_spec t P (mem_view (in_store s))) as Hl.
  destruct (latest t P _) as [x|]; cbn.
  - destruct Hl as (i & Hx & Hp). pose proof (mem_view_keys _ _ _ _ Hx) as [<- ?].
    split_and!; [done|done|by apply HPQ].
  - intros _ i x Hx HQ. apply HPQ in HQ. by rewrite (Hl i x Hx) in HQ.
Qed.

(** The repository in memory keeps its contract. *)
Lemma conv_repo_files t {R} c (e : ConvRepo R) s :
  RequireTenant c = Ok t ->
  let '(r, m) := mem_conv_repo c e (in_store s) in
  exists v', filing_view (set_store m s) = put_convs v' (filing_view s) /\
    store_post t R c (PConvs e) (mem_view (in_store s)) r v'.
Proof.
  intros Hc.
  assert (store_contract t _ c (PConvs e)
            (fun r v' => store_post t _ c (PConvs e) (mem_view (in_store s)) r v') (mem_view (in_store s))) as H
    by (split; [exact Hc|done]).
  apply (world_meets_contract memory mem_view) in H. cbn in H. destruct (mem_conv_repo c e (in_store s)) as [r m].
  by exists (mem_view m).
Qed.

Lemma infra_same_store {R} (e : Infra R) s :
  filing_view (set_store (mem_infra e (in_store s)).2 s) = filing_view s.
Proof.
  destruct e; cbn; try done. unfold filing_view. cbn. f_equal.
  generalize (in_store s). induction events as [|e l IH]; intros m; [done|]. cbn. by rewrite IH.
Qed.

Lemma service_in_memory_files t {R} c (e : ConvPort R) P s :
  service_filing t R c e P (filing_view s) ->
  let '(r, s') := service_in_memory R c e s in P r (filing_view s').
Proof.
  intros [Hc HP]. destruct e as [? e|? e|? e|? e|? e| | | | | | | | | | | |]; try (by apply HP).
  - apply HP. apply infra_same_store.
  - cbn. pose proof (conv_repo_files t c e s Hc) as Hr. destruct (mem_conv_repo c e (in_store s)) as [r m]. by apply HP.
  - apply HP. by destruct e.
  - by destruct e; apply HP.
  - apply HP. by destruct e.
Qed.

#[export] Instance in_memory_files : FilingWorld in_memory filing_view.
Proof.
  intros t R c e s [Hc Hpre].
  destruct e as [? e|? e|? e|? e|? e| | | | | | |ch ext|x| | | | | |]; try done; cbn.
  - destruct e; cbn; try done; [|by destruct (in_locks s !! key)].
    apply (infra_same_store (PublishBatch events)).
  - pose proof (conv_repo_files t c e s Hc) as Hr. by destruct (mem_conv_repo c e (in_store s)).
  - by destruct e.
  - by destruct e.
  - by destruct (ContactMemory.handle _ c e _).
  - split; [done|]. apply find_conv_post; [done|]. intros x. unfold open_thread_of, thread_of.
    rewrite !andb_true_iff, !bool_decide_eq_true, negb_true_iff. naive_solver.
  - split; [done|]. apply find_conv_post; [done|]. intros x. unfold thread_of.
    rewrite !andb_true_iff, !bool_decide_eq_true. naive_solver.
  - split; [done|]. apply find_conv_post; [done|]. intros x. unfold open_thread_of, thread_of.
    rewrite !andb_true_iff, !bool_decide_eq_true, negb_true_iff. naive_solver.
  - split; [done|]. apply find_conv_post; [done|]. intros x. unfold thread_of.
    rewrite !bool_decide_eq_true. naive_solver.
  - destruct (in_faults s) as [|n]; cbn; [|by left]. destruct (entry _ _ _ s); cbn; [by left|done].
  - exact (wp_run (service_filing t) service_in_memory filing_view _ _ s
             (fun R c e P s => service_in_memory_files t c e P s)
             (notice_is_stored Sample.service t c Hc conversationID ruleID text (filing_view s))).
Qed.

(** C4. An accepted message is filed: over a store that keeps the repositories' contracts, and
    making every call and write for the caller's tenant, a message taken as new is stored
    exactly once, in an open conversation of its contact's thread (the open one; else,
    without protocols or for a group, the last one reopened; else a new, queued one, whose
    identifier was free), which counts it and shows it last; after it the connection's
    out-of-hours notice may be stored, once, in the same conversation, if that is new; nothing
    else in the store changes but the ledger. A repeated or discarded message changes nothing;
    a failed one leaves at most one message (with its notice) and one changed conversation
    behind. *)
Theorem inbound_message_is_filed (s : InboundService) {S} (h : handler Ctx InPort S)
    (view : S -> Filing) `{!FilingWorld h view} (t : string) (c : Ctx) (conn : Connection)
    (msg : InboundMessage) (st : S) :
  RequireTenant c = Ok t ->
  wp (filing t) (Handle s c conn msg) (handled s t conn msg (view st)) (view st) /\
  let '(r, st') := run h (Handle s c conn msg) st in handled s t conn msg (view st) r (view st').
Proof.
  intros Hc. pose proof (Handle_wp s t c Hc conn msg (view st)) as Hw. split; [exact Hw|].
  revert Hw. apply wp_run. intros R c' e P s' [Hpre HP].
  pose proof (filing_world t R c' e s' Hpre) as Hr. destruct (h R c' e s') as [r s'']. by apply HP.
Qed.

(** Out of hours: the message, then the notice, both in the conversation created for them. *)
Lemma inbound_message_is_filed_witness :
  RequireTenant Inbound_Demo.ctx = Ok "acme" /\
  let conn := Inbound_Demo.connection true " volto logo " in
  let msg := Inbound_Demo.message "m1" "oi" in
  let start := Inbound_Demo.world false 0 in
  let '(r, st) := run in_memory (Handle Inbound_Demo.service Inbound_Demo.ctx conn msg) start in
  ((exists res, r = Ok res /\ ires_ConversationID res = "id-0" /\ ires_Status res = StatusQueued) /\
   map (fun m => (ms_ConversationID m, ms_SenderType m, ms_Text m)) (in_msgs st) =
     [("id-0", SenderCustomer, "oi"); ("id-0", SenderAutomation, "volto logo")]) /\
  handled Inbound_Demo.service "acme" conn msg (filing_view start) r (filing_view st).
Proof.
  split; [reflexivity|]. cbv zeta.
  destruct (inbound_message_is_filed Inbound_Demo.service in_memory filing_view "acme" Inbound_Demo.ctx
    (Inbound_Demo.connection true " volto logo ") (Inbound_Demo.message "m1" "oi") (Inbound_Demo.world false 0) eq_refl)
    as [_ Hrun].
  set (out := run in_memory (Handle Inbound_Demo.service Inbound_Demo.ctx
    (Inbound_Demo.connection true " volto logo ") (Inbound_Demo.message "m1" "oi")) (Inbound_Demo.world false 0)) in *.
  assert ((exists res, out.1 = Ok res /\ ires_ConversationID res = "id-0" /\ ires_Status res = StatusQueued) /\
    map (fun m => (ms_ConversationID m, ms_SenderType m, ms_Text m)) (in_msgs out.2) =
      [("id-0", SenderCustomer, "oi"); ("id-0", SenderAutomation, "volto logo")]) as Hres
    by (split; [vm_compute; eexists; repeat split|by vm_compute]).
  clearbody out. destruct out as [r st]. split; [exact Hres|exact Hrun].
Defined.
