(* ===== verification/InboundCases.v ===== *)
(** * Inbound messages: groups, the out-of-hours notice, a failure of the ledger *)
From S2P Require Import Prelude GoStrings AppError Authz Shared ConvEntity Messages ConvContracts.
From S2P Require Import Prog Ports ConvBase Contacts Calendar Channels Inbound InboundRace.

(** ** Groups that are not attended *)

(** What a message of such a group may do: the lock, the ledger, the question of the gate,
    and the conversation of a repeated message. *)
Definition gate_pre (R : Type) (c : Ctx) (e : InPort R) (g : unit) : Prop :=
  match e with
  | InInfra (Acquire _ _ | Release _) | LedgerFind _ _ | GroupFindByJID _ | InConvs (ConvFindByID _) => True
  | _ => False
  end.

(** The gate knows no such group, or one the tenant does not attend. *)
Definition gate_post (R : Type) (c : Ctx) (e : InPort R) (g : unit) (r : R) (g' : unit) : Prop :=
  match e in InPort R return R -> Prop with
  | GroupFindByJID _ => fun r => match r with Ok grp => gr_Attend grp = false | Err _ => True end
  | _ => fun _ => True
  end r.

Definition dropped (r : result InboundResult) : Prop :=
  match r with Ok res => ires_Idempotent res || ires_Discarded res = true | Err _ => True end.

(** A message of a group that was not synced, or that the tenant does not attend, leaves no
    trace: whatever else is answered it creates no contact, no conversation, no message and
    no ledger entry, announces nothing, and is answered as discarded (or with the result of
    the message it repeats). Without a gate every group is such. *)
Theorem unattended_groups_leave_no_trace (s : InboundService) (c : Ctx) (conn : Connection)
    (msg : InboundMessage) :
  blank (im_GroupJID msg) = false ->
  wp (pre_post gate_pre gate_post) (Handle s c conn msg) (fun r _ => dropped r) tt.
Proof.
  intros Hg. unfold Handle. destruct (RequireTenant c); [|done]. cbn [bind_ok bind]. cbn zeta.
  do 4 match goal with |- wp _ (if ?b then _ else _) _ _ => destruct b; [done|] end.
  apply wp_bind; [apply _|]. split; [done|]. intros [[l [|]]|e] [] _; cbn [wp]; [|done|done].
  apply wp_bind; [apply _|].
  assert (forall r, dropped r -> wp (pre_post gate_pre gate_post) (do! ask c (Release l) in Ret r)
            (fun r _ => dropped r) tt) as Hrel by (intros r Hr; split; [done|]; by intros).
  apply (wp_mono _ _ (fun r _ => dropped r)); [intros r [] Hr; by apply Hrel|].
  unfold locked. cbn zeta. apply wp_bind; [apply _|]. split; [done|]. intros [x|e] [] _; cbn [wp].
  - unfold idempotentResult. apply wp_bind; [apply _|]. apply wp_bind; [apply _|]. split; [done|]. by intros r [] _.
  - destruct (is_not_found e); cbn [negb]; [|done]. apply wp_bind_ok; [apply _|].
    unfold resolveInboundContact. unfold blank in Hg. rewrite Hg.
    destruct (is_groupGate s); cbn [negb]; [|done]. apply wp_bind; [apply _|]. split; [done|].
    intros [grp|e'] [] Hgrp; cbn [wp].
    + cbn in Hgrp. by rewrite Hgrp.
    + by destruct (is_not_found e').
Qed.

Lemma unattended_groups_leave_no_trace_witness :
  let msg := Inbound_Demo.group_message "m1" "1@g.us" in
  blank (im_GroupJID msg) = false /\
  wp (pre_post gate_pre gate_post)
    (Handle Inbound_Demo.service Inbound_Demo.ctx (Inbound_Demo.connection false "") msg)
    (fun r _ => dropped r) tt /\
  (exists res, (run in_memory (Handle Inbound_Demo.service Inbound_Demo.ctx (Inbound_Demo.connection false "") msg)
     (Inbound_Demo.world true 0)).1 = Ok res /\ ires_Status res = "discarded").
Proof.
  split; [vm_compute; reflexivity|]. split; [|vm_compute; eexists; split; reflexivity].
  apply unattended_groups_leave_no_trace. vm_compute. reflexivity.
Defined.

(** ** The out-of-hours notice *)

(** The conversation created by the request, and what the business hours last said. *)
Record Notice := mkNotice { no_created : option string; no_open : option bool }.

Definition notice_pre (conn : Connection) (R : Type) (c : Ctx) (e : InPort R) (g : Notice) : Prop :=
  match e with
  | IsWithinBusinessHours ch _ => ch = cx_ID conn
  | SendAutomationNotice conv rule text =>
      no_created g = Some conv /\ no_open g = Some false /\ rule = "" /\
      text = trim_space (cx_OutOfHoursMessage conn) /\ text <> ""
  | _ => True
  end.

Definition notice_post (R : Type) (c : Ctx) (e : InPort R) (g : Notice) (r : R) (g' : Notice) : Prop :=
  match e in InPort R return R -> Prop with
  | @InConvs R e =>
      match e in ConvRepo R return R -> Prop with
      | ConvCreate x => fun r => g' = match r with Ok _ => mkNotice (Some (cv_ID x)) None | Err _ => g end
      | _ => fun _ => g' = g
      end
  | IsWithinBusinessHours _ _ => fun r =>
      g' = mkNotice (no_created g) (match r with Ok b => Some b | Err _ => None end)
  | SendAutomationNotice _ _ _ => fun _ => g' = mkNotice (no_created g) None
  | _ => fun _ => g' = g
  end r.

Abbreviation noticing conn := (pre_post (notice_pre conn) notice_post).

Definition unnoticed (R : Type) (c : Ctx) (e : InPort R) : Prop :=
  match e with
  | InConvs (ConvCreate _) | IsWithinBusinessHours _ _ | SendAutomationNotice _ _ _ => False
  | _ => True
  end.

Lemma unnoticed_inert conn : inert_in (notice_pre conn) notice_post unnoticed.
Proof.
  split; intros R c e g.
  - by destruct e.
  - intros r g' He. destruct e as [? e|? e|? e|? e|? e| | | | | | | | | | | | | |]; try done; by destruct e.
Qed.

Section Notices.
Context (s : InboundService) (c : Ctx) (conn : Connection).

Ltac free := calls_step ltac:(exact I).
Ltac skip := eapply (wp_inert_bind _ _ unnoticed); [apply unnoticed_inert|solve [repeat free]|intros ?].
Ltac skip_ok := eapply (wp_inert_bind_ok _ _ unnoticed); [apply unnoticed_inert|solve [repeat free]| |intros ?].

Lemma lifted_unnoticed {A} (m : prog Ctx ContactPort A) : calls unnoticed (lift (@InContacts) m).
Proof. apply calls_lift. induction m as [a|R c' e k IH]; cbn; [done|]. by split. Qed.
#[local] Hint Resolve lifted_unnoticed : calls.

Lemma resolveInboundContact_unnoticed ch jid ex msg : calls unnoticed (resolveInboundContact s c ch jid ex msg).
Proof. unfold resolveInboundContact. repeat free. Qed.

Lemma storeRaw_unnoticed conv files atts : calls unnoticed (storeRaw c conv files atts).
Proof. revert atts. induction files as [|f files IH]; intros atts; [done|]. cbn [storeRaw]. repeat free. Qed.
#[local] Hint Resolve resolveInboundContact_unnoticed storeRaw_unnoticed : calls.

Lemma routeNew_unnoticed conv : calls unnoticed (routeNew s c conv).
Proof.
  unfold routeNew, recordEvent, publishConversation, emitConversationWebhook, EmitLazy, conversationPayload,
    integrationContact. repeat free.
Qed.

Lemma appendInboundMessage_unnoticed conv k msg : calls unnoticed (appendInboundMessage s c conv k msg).
Proof.
  unfold appendInboundMessage, typed, invalid_field, resolveInteractiveReply, recordEvent, announceInbound,
    PublishAll, EmitLazy, conversationPayload, integrationContact, integrationMedia. repeat free.
Qed.
#[local] Hint Resolve routeNew_unnoticed appendInboundMessage_unnoticed : calls.

(** A conversation said to be new was created, and the hours were not asked since. *)
Lemma findOrCreate_notice t k ch chid p isG g :
  wp (noticing conn) (findOrCreateConversation s c t k ch chid p isG)
    (fun r g' => match r with
                 | Ok (x, true) => no_created g' = Some (cv_ID x)
                 | _ => True
                 end) g.
Proof.
  unfold findOrCreateConversation, findOpenConversation, findLastConversation. skip.
  destruct a as [x|e]; [done|]. destruct (negb (is_not_found e)); [done|]. skip. rename a into now.
  assert (forall pr g', wp (noticing conn) (createConversation s c t k ch chid pr now)
    (fun r g' => match r with Ok (x, true) => no_created g' = Some (cv_ID x) | _ => True end) g') as Hcreate.
  { intros pr g'. unfold createConversation, nextProtocol, recordEvent, emitRule, conversationPayload.
    skip_ok; [done|]. skip. cbn zeta. apply wp_bind_ok; [apply _|]. split; [done|].
    intros [[]|e'] g''; cbn [notice_post wp]; [intros ->|done]. by do 2 skip. }
  destruct (negb p || isG); [|apply Hcreate]. skip. destruct a as [x|e'].
  - unfold reopen, recordEvent, emitRule, emitConversationWebhook, EmitLazy, conversationPayload, integrationContact.
    skip_ok; done.
  - destruct (negb (is_not_found e')); [done|apply Hcreate].
Qed.

(** The two updates of a new conversation keep its identifier. *)
Lemma routeNew_id x : returns (fun r => match r with Ok y => cv_ID y = cv_ID x | Err _ => True end) (routeNew s c x).
Proof.
  unfold routeNew. apply returns_bind_any. intros now. apply returns_bind_any. intros [u|e]; [|done].
  do 3 (apply returns_bind_any; intros ?). done.
Qed.

Lemma appendInboundMessage_id x k msg :
  returns (fun r => match r with Ok y => cv_ID y.2 = cv_ID x | Err _ => True end) (appendInboundMessage s c x k msg).
Proof.
  unfold appendInboundMessage. apply returns_bind_any. intros now. cbn zeta.
  do 2 (apply returns_bind_ok; [done|intros ?]). apply returns_bind_any. intros mid.
  do 2 (apply returns_bind_ok; [done|intros ?]). do 2 (apply returns_bind_any; intros ?). done.
Qed.

Lemma maybeSendOutOfHours_notice x g :
  no_created g = Some (cv_ID x) ->
  wp (noticing conn) (maybeSendOutOfHours s c conn x) (fun _ _ => True) g.
Proof.
  intros Hx. unfold maybeSendOutOfHours. cbn zeta.
  destruct (bool_decide (trim_space (cx_OutOfHoursMessage conn) = "")) eqn:Ht; [done|].
  destruct (negb (is_businessHours s) || negb (is_outOfHours s)) eqn:Hw; rewrite orb_false_l, ?Hw; [done|].
  skip. apply wp_bind; [apply _|]. split; [done|]. intros r g'; cbn [notice_post wp]. intros ->.
  destruct r as [[|]|e]; [done| |done]. apply bool_decide_eq_false in Ht.
  apply wp_bind; [apply _|]. split; [by split_and!|]. by intros.
Qed.

Lemma receive_notice t msg ext isG k g :
  wp (noticing conn) (receive s c t conn msg ext isG k) (fun _ _ => True) g.
Proof.
  unfold receive. cbn zeta. apply wp_bind_ok; [apply _|].
  eapply wp_mono; [apply _| |apply findOrCreate_notice]. intros [[x isNew]|e] g1 Hx; [|done].
  apply wp_bind_ok; [apply _|].
  assert (forall y g2, (isNew = true -> no_created g2 = Some (cv_ID y)) ->
    wp (noticing conn) (file_message s c t conn msg ext (ct_ID k) y isNew) (fun _ _ => True) g2) as Hfile.
  { intros y g2 Hy. unfold file_message. cbn zeta. apply wp_bind_ok; [apply _|].
    eapply wp_inert_returns; [apply unnoticed_inert|solve [repeat free]|apply appendInboundMessage_id|].
    intros [[m y']|e] Hid; [|done]. cbn in Hid. apply wp_bind; [apply _|].
    apply (wp_mono _ _ (fun _ _ => True)).
    2: { destruct isNew; [apply maybeSendOutOfHours_notice; by rewrite Hid, Hy|exact I]. }
    intros [] g3 _. do 3 skip. by destruct a1 as [u|e]; [|destruct (CodeOf e <>! CodeConflict)]. }
  destruct isNew; [|by apply Hfile].
  eapply wp_inert_returns; [apply unnoticed_inert|solve [repeat free]|apply routeNew_id|].
  intros [y|e] Hid; [|done]. apply Hfile. intros _. by rewrite Hid.
Qed.

(** The out-of-hours notice is for new conversations: it is sent at most once per message,
    only to a conversation this message created, only after the business hours of its
    connection answered that they are closed, with the connection's text, and under no rule. *)
Theorem out_of_hours_notice_is_for_new_conversations (msg : InboundMessage) :
  wp (noticing conn) (Handle s c conn msg) (fun _ _ => True) (mkNotice None None).
Proof.
  unfold Handle. destruct (RequireTenant c) as [t|]; [|done]. cbn [bind_ok bind]. cbn zeta.
  do 4 match goal with |- wp _ (if ?b then _ else _) _ _ => destruct b; [done|] end.
  skip. destruct a as [[l [|]]|e]; [|done|done]. apply wp_bind; [apply _|].
  apply (wp_mono _ _ (fun _ _ => True)).
  { intros r g _. eapply (wp_inert_bind _ _ unnoticed); [apply unnoticed_inert|repeat free|]. by intros ?. }
  unfold locked, idempotentResult. cbn zeta. skip. destruct a as [r|e].
  - skip. done.
  - destruct (negb (is_not_found e)); [done|]. skip_ok; [done|].
    destruct a as [k|]; [apply receive_notice|done].
Qed.
End Notices.

(** ** A failure of the ledger *)

(** The ledger is written last, and the message is not looked up: when that write fails the
    request fails, and the provider's next delivery of the same message stores it again. *)
Theorem failed_ledger_stores_the_message_twice :
  let handle := Handle Inbound_Demo.service Inbound_Demo.ctx (Inbound_Demo.connection false "")
                  (Inbound_Demo.message "m1" "oi") in
  let '(r1, s1) := run in_memory handle (Inbound_Demo.world true 1) in
  let '(r2, s2) := run in_memory handle s1 in
  let '(r3, s3) := run in_memory handle s2 in
  is_ok r1 = false /\ is_ok r2 = true /\
  Inbound_Demo.stored "m1" s1 = ["id-0"] /\ Inbound_Demo.stored "m1" s2 = ["id-0"; "id-0"] /\
  Inbound_Demo.stored "m1" s3 = ["id-0"; "id-0"] /\
  match r3 with Ok res => ires_Idempotent res = true | Err _ => False end.
Proof. vm_compute. by repeat split. Qed.
