(* ===== verification/Pipelines.v ===== *)
(** * Sales pipelines (domain/pipelines)

    The funnel and its stages: the aggregate, its validation, and the service that
    edits it. *)
From S2P Require Import Prelude GoStrings AppError Authz Shared ConvEntity Prog Ports.

(** ** The aggregate (entity/) *)

Record Stage := mkStage {
  stg_ID : string; stg_Name : string; stg_Order : Z; stg_IsWon : bool; stg_IsLost : bool;
  stg_Color : string }.

Record Pipeline := mkPipeline {
  pp_ID : string; pp_TenantID : string; pp_Name : string; pp_IsDefault : bool;
  pp_Stages : list Stage; pp_CreatedAt : Time; pp_UpdatedAt : Time }.

(** Assignments to the fields of a pipeline and of a stage. *)
Definition set_pp_Name v p := mkPipeline (pp_ID p) (pp_TenantID p) v (pp_IsDefault p) (pp_Stages p)
  (pp_CreatedAt p) (pp_UpdatedAt p).
Definition set_pp_IsDefault v p := mkPipeline (pp_ID p) (pp_TenantID p) (pp_Name p) v (pp_Stages p)
  (pp_CreatedAt p) (pp_UpdatedAt p).
Definition set_pp_Stages v p := mkPipeline (pp_ID p) (pp_TenantID p) (pp_Name p) (pp_IsDefault p) v
  (pp_CreatedAt p) (pp_UpdatedAt p).
Definition set_pp_UpdatedAt v p := mkPipeline (pp_ID p) (pp_TenantID p) (pp_Name p) (pp_IsDefault p)
  (pp_Stages p) (pp_CreatedAt p) v.
Definition set_stg_Order v s := mkStage (stg_ID s) (stg_Name s) v (stg_IsWon s) (stg_IsLost s) (stg_Color s).

Definition stage_before (a b : Stage) : bool := stg_Order a <? stg_Order b.

Definition SortStages (p : Pipeline) : Pipeline := set_pp_Stages (stable_sort stage_before (pp_Stages p)) p.

(** The index of the first stage with the id. *)
Fixpoint stage_index (stages : list Stage) (id : string) : option nat :=
  match stages with
  | [] => None
  | s :: stages => if stg_ID s =! id then Some O else S <$> stage_index stages id
  end.
Definition StageIndex (p : Pipeline) (id : string) : option nat := stage_index (pp_Stages p) id.

(** The loop of [Validate], with its counters. *)
Fixpoint validate_stages (stages : list Stage) (won lost : nat) : string :=
  match stages with
  | [] =>
      if (1 <? won)%nat then "at most one won stage is allowed"
      else if (1 <? lost)%nat then "at most one lost stage is allowed"
      else ""
  | s :: stages =>
      if blank (stg_Name s) then "every stage requires a name"
      else if stg_IsWon s && stg_IsLost s then "a stage cannot be both won and lost"
      else validate_stages stages (if stg_IsWon s then S won else won) (if stg_IsLost s then S lost else lost)
  end.

Definition Validate (p : Pipeline) : string :=
  if blank (pp_Name p) then "name is required" else validate_stages (pp_Stages p) 0 0.

(** ** Contracts (contracts/) *)

Record StageInput := mkStageInput {
  si_Name : string; si_Order : Z; si_IsWon : bool; si_IsLost : bool; si_Color : string }.

Record CreatePipeline := mkCreatePipeline { cp_Name : string; cp_Stages : list StageInput }.
Record UpdatePipeline := mkUpdatePipeline { up_Name : option string; up_IsDefault : option bool }.
Record UpdateStage := mkUpdateStage {
  us_Name : option string; us_Order : option Z; us_IsWon : option bool; us_IsLost : option bool;
  us_Color : option string }.

(** ** The service (service/pipeline_service.go) *)

Inductive PipePort : Type -> Type :=
| PpInfra {R} (e : Infra R) : PipePort R
| PipeCreate (p : Pipeline) : PipePort (result unit)
| PipeUpdate (p : Pipeline) : PipePort (result unit)
| PipeDelete (id : string) : PipePort (result unit)
| PipeFindByID (id : string) : PipePort (result Pipeline)
| PipeList : PipePort (result (list Pipeline))
| CountByTenant : PipePort (result Z)
| ClearDefault (keepID : string) : PipePort (result unit)
| StageHasDeals_ (pipelineID stageID : string) : PipePort (result bool).

#[export] Instance pipe_infra : Embed Infra PipePort := @PpInfra.
#[export] Instance pipe_own : Embed PipePort PipePort := fun R e => e.

Abbreviation PpM := (prog Ctx PipePort).

Section Service.
(** Whether the check of a stage's deals is wired. *)
Context (has_deals : bool).

Definition audit (c : Ctx) (action id : string) : PpM unit :=
  do! ask c (AuditRecord (mkAudit action "pipeline" id [])) in
  Ret tt.

(** [if msg := p.Validate(); msg != "" { return nil, apperror.Validation(msg) }]. *)
Definition validated {A} (p : Pipeline) (k : PpM (result A)) : PpM (result A) :=
  let msg := Validate p in
  if msg <>! "" then Ret (Err (Validation msg)) else k.

Definition new_stage (id : string) (i : StageInput) : Stage :=
  mkStage id (trim_space (si_Name i)) (si_Order i) (si_IsWon i) (si_IsLost i) (trim_space (si_Color i)).

Definition Create (c : Ctx) (cmd : CreatePipeline) : PpM (result Pipeline) :=
  try! tenantID := Ret (RequireTenant c) in
  let! now := ask c Now in
  let! id := ask c NewID in
  let! stages := fold_prog (cp_Stages cmd) [] (fun acc i =>
    let! sid := ask c NewID in
    Ret (acc ++ [new_stage sid i])) in
  let p := mkPipeline id tenantID (trim_space (cp_Name cmd)) false stages now now in
  validated p (
    try! count := ask c CountByTenant in
    let p := SortStages (set_pp_IsDefault (count =? 0) p) in
    try! _ := ask c (PipeCreate p) in
    do! audit c "pipeline.created" (pp_ID p) in
    Ret (Ok p)).

Definition List_ (c : Ctx) : PpM (result (list Pipeline)) :=
  try! _ := Ret (RequireTenant c) in
  try! ps := ask c PipeList in
  Ret (Ok (map SortStages ps)).

Definition Default (c : Ctx) : PpM (result Pipeline) :=
  try! ps := List_ c in
  match List.find pp_IsDefault ps with
  | Some p => Ret (Ok p)
  | None =>
      match ps with
      | p :: _ => Ret (Ok p)
      | [] => Ret (Err (NotFound "no pipeline configured for this tenant"))
      end
  end.

Definition Get (c : Ctx) (id : string) : PpM (result Pipeline) :=
  try! _ := Ret (RequireTenant c) in
  try! p := ask c (PipeFindByID id) in
  Ret (Ok (SortStages p)).

(** An optional field of a command, assigned when it is given. *)
Definition assign {A B} (o : option A) (f : A -> B -> B) (b : B) : B :=
  match o with Some a => f a b | None => b end.

Definition Update (c : Ctx) (id : string) (cmd : UpdatePipeline) : PpM (result Pipeline) :=
  try! _ := Ret (RequireTenant c) in
  try! p := ask c (PipeFindByID id) in
  let p := assign (up_Name cmd) (fun n => set_pp_Name (trim_space n)) p in
  let p := assign (up_IsDefault cmd) set_pp_IsDefault p in
  validated p (
    try! _ := (if default false (up_IsDefault cmd) then ask c (ClearDefault (pp_ID p)) else Ret (Ok tt)) in
    let! now := ask c Now in
    let p := set_pp_UpdatedAt now p in
    try! _ := ask c (PipeUpdate p) in
    let p := SortStages p in
    do! audit c "pipeline.updated" (pp_ID p) in
    Ret (Ok p)).

Definition Delete (c : Ctx) (id : string) : PpM (result unit) :=
  try! _ := Ret (RequireTenant c) in
  try! _ := ask c (PipeFindByID id) in
  try! _ := ask c (PipeDelete id) in
  do! audit c "pipeline.deleted" id in
  Ret (Ok tt).

(** From a changed pipeline on: validate, store, sort, audit. *)
Definition store_stages (c : Ctx) (action : string) (p : Pipeline) : PpM (result Pipeline) :=
  validated p (
    let! now := ask c Now in
    let p := set_pp_UpdatedAt now p in
    try! _ := ask c (PipeUpdate p) in
    let p := SortStages p in
    do! audit c action (pp_ID p) in
    Ret (Ok p)).

Definition mutateStages (c : Ctx) (pipelineID action : string)
    (mutate : Pipeline -> PpM (result Pipeline)) : PpM (result Pipeline) :=
  try! _ := Ret (RequireTenant c) in
  try! p := ask c (PipeFindByID pipelineID) in
  try! p := mutate p in
  store_stages c action p.

Definition AddStage (c : Ctx) (pipelineID : string) (cmd : StageInput) : PpM (result Pipeline) :=
  mutateStages c pipelineID "pipeline.stage_added" (fun p =>
    let! sid := ask c NewID in
    Ret (Ok (set_pp_Stages (pp_Stages p ++ [new_stage sid cmd]) p))).

Definition edit_stage (cmd : UpdateStage) (s : Stage) : Stage :=
  mkStage (stg_ID s) (match us_Name cmd with Some n => trim_space n | None => stg_Name s end)
    (default (stg_Order s) (us_Order cmd)) (default (stg_IsWon s) (us_IsWon cmd))
    (default (stg_IsLost s) (us_IsLost cmd))
    (match us_Color cmd with Some n => trim_space n | None => stg_Color s end).

Definition UpdateStage_ (c : Ctx) (pipelineID stageID : string) (cmd : UpdateStage)
  : PpM (result Pipeline) :=
  mutateStages c pipelineID "pipeline.stage_updated" (fun p =>
    match StageIndex p stageID with
    | None => Ret (Err (NotFound "stage not found"))
    | Some i => Ret (Ok (set_pp_Stages (alter (edit_stage cmd) i (pp_Stages p)) p))
    end).

(** The positions of the listed stages, each known and listed once. *)
Fixpoint reorder_positions (p : Pipeline) (i : Z) (ids : list string) (pos : gmap string Z)
  : result (gmap string Z) :=
  match ids with
  | [] => Ok pos
  | id :: ids =>
      match StageIndex p id with
      | None => Err (WithDetails {["stage_id" := VStr id]} (Validation "unknown stage id in reorder"))
      | Some _ =>
          match pos !! id with
          | Some _ => Err (Validation "duplicate stage id in reorder")
          | None => reorder_positions p (i + 1) ids (<[id := i]> pos)
          end
      end
  end.

(** An id without a position gets the zero of the map. *)
Definition reordered (p : Pipeline) (ids : list string) : result Pipeline :=
  if negb (length ids =? length (pp_Stages p))%nat then
    Err (Validation "reorder must list every stage exactly once")
  else
    match reorder_positions p 0 ids ∅ with
    | Err e => Err e
    | Ok pos => Ok (set_pp_Stages
        (map (fun s => set_stg_Order (default 0 (pos !! stg_ID s)) s) (pp_Stages p)) p)
    end.

Definition ReorderStages (c : Ctx) (pipelineID : string) (ids : list string) : PpM (result Pipeline) :=
  mutateStages c pipelineID "pipeline.stages_reordered" (fun p => Ret (reordered p ids)).

Definition DeleteStage (c : Ctx) (pipelineID stageID : string) : PpM (result Pipeline) :=
  try! _ := Ret (RequireTenant c) in
  try! p := ask c (PipeFindByID pipelineID) in
  match StageIndex p stageID with
  | None => Ret (Err (NotFound "stage not found"))
  | Some i =>
      try! has := (if has_deals then ask c (StageHasDeals_ pipelineID stageID) else Ret (Ok false)) in
      if has : bool then Ret (Err (Conflict "the stage still has deals; move them before deleting"))
      else store_stages c "pipeline.stage_deleted" (set_pp_Stages (delete i (pp_Stages p)) p)
  end.
End Service.
