(* ===== verification/PipelineStore.v ===== *)
(** * Sales pipelines: what is stored, the order of the stages, the default

    First what an operation may store and what a reordering does; then the store over time. *)
From S2P Require Import Prelude GoStrings AppError Prog Authz Shared ConvEntity Ports Pipelines.

(** ** Validation *)

Definition count_stages (f : Stage -> bool) (stages : list Stage) : nat :=
  length (filter (fun s => f s = true) stages).

(** What a funnel must be. *)
Record well_formed (p : Pipeline) : Prop := {
  wf_name : blank (pp_Name p) = false;
  wf_named : Forall (fun s => blank (stg_Name s) = false) (pp_Stages p);
  wf_terminal : Forall (fun s => stg_IsWon s && stg_IsLost s = false) (pp_Stages p);
  wf_won : (count_stages stg_IsWon (pp_Stages p) <= 1)%nat;
  wf_lost : (count_stages stg_IsLost (pp_Stages p) <= 1)%nat;
}.

Lemma count_cons f s stages :
  count_stages f (s :: stages) = ((if f s then 1 else 0) + count_stages f stages)%nat.
Proof. unfold count_stages. rewrite filter_cons. by destruct (f s); case_decide. Qed.

Lemma count_perm f a b : a ≡ₚ b -> count_stages f a = count_stages f b.
Proof. unfold count_stages. by intros ->. Qed.

Lemma validate_stages_spec stages won lost :
  validate_stages stages won lost = "" <->
  Forall (fun s => blank (stg_Name s) = false) stages /\
  Forall (fun s => stg_IsWon s && stg_IsLost s = false) stages /\
  (won + count_stages stg_IsWon stages <= 1)%nat /\ (lost + count_stages stg_IsLost stages <= 1)%nat.
Proof.
  revert won lost. induction stages as [|s stages IH]; intros won lost; cbn [validate_stages].
  - change (count_stages stg_IsWon []) with 0%nat. change (count_stages stg_IsLost []) with 0%nat.
    destruct (1 <? won)%nat eqn:Hw; [apply Nat.ltb_lt in Hw; split; [done|lia]|].
    destruct (1 <? lost)%nat eqn:Hl; [apply Nat.ltb_lt in Hl; split; [done|lia]|].
    apply Nat.ltb_ge in Hw, Hl. split; [|done]. intros _. split_and!; [constructor|constructor|lia|lia].
  - rewrite !Forall_cons, !count_cons.
    destruct (blank (stg_Name s)) eqn:Hb; [split; [done|by intros ([? _] & _)]|].
    destruct (stg_IsWon s && stg_IsLost s) eqn:Ht; [split; [done|by intros (_ & [? _] & _)]|].
    rewrite IH. destruct (stg_IsWon s), (stg_IsLost s); try done; cbn;
      rewrite ?Nat.add_succ_l, ?Nat.add_succ_r; tauto.
Qed.

Lemma Validate_spec p : Validate p = "" <-> well_formed p.
Proof.
  unfold Validate. destruct (blank (pp_Name p)) eqn:Hb.
  - split; [done|]. intros []. congruence.
  - rewrite validate_stages_spec. split; [intros (? & ? & ? & ?); by split|by intros [? ? ? ? ?]].
Qed.

Lemma well_formed_perm p q :
  pp_Name p = pp_Name q -> pp_Stages p ≡ₚ pp_Stages q -> well_formed p -> well_formed q.
Proof.
  intros Hn Hs [? ? ? ? ?]. split; [by rewrite <- Hn|by rewrite <- Hs|by rewrite <- Hs| |];
    by rewrite <- (count_perm _ _ _ Hs).
Qed.

(** ** What is stored *)

Definition stores_valid (R : Type) (c : Ctx) (e : PipePort R) : Prop :=
  match e with
  | PipeCreate p => well_formed p /\ RequireTenant c = Ok (pp_TenantID p)
  | PipeUpdate p => well_formed p
  | _ => True
  end.

Lemma validated_valid {A} p (k : PpM (result A)) :
  (well_formed p -> calls stores_valid k) -> calls stores_valid (validated p k).
Proof.
  intros Hk. unfold validated. destruct (Validate p <>! "") eqn:Hv; [done|].
  prop_bools. by apply Hk, Validate_spec.
Qed.

Ltac step := calls_step ltac:(exact I).

Lemma store_stages_valid c action p : calls stores_valid (store_stages c action p).
Proof.
  unfold store_stages, audit. apply validated_valid. intros Hp. step; [step|].
  apply calls_bind_ok; [split; [|done]|intros; repeat step].
  by eapply well_formed_perm, Hp.
Qed.

(** Only well-formed funnels are stored, whatever the command and the answers: a name, every
    stage named, none both won and lost, and at most one won and one lost stage; a new one
    is stored under the caller's tenant. *)
Theorem stored_pipelines_are_well_formed (has_deals : bool) (c : Ctx) :
  (forall cmd, calls stores_valid (Create c cmd)) /\
  (forall id cmd, calls stores_valid (Update c id cmd)) /\
  (forall id cmd, calls stores_valid (AddStage c id cmd)) /\
  (forall id sid cmd, calls stores_valid (UpdateStage_ c id sid cmd)) /\
  (forall id ids, calls stores_valid (ReorderStages c id ids)) /\
  (forall id sid, calls stores_valid (DeleteStage has_deals c id sid)).
Proof.
  split_and!.
  - intros cmd. unfold Create, audit. destruct (RequireTenant c) as [t|e] eqn:Hc; [|done]. cbn [bind_ok bind].
    do 3 (step; [repeat step|]). apply validated_valid. intros Hp. step; [step|].
    apply calls_bind_ok; [split; [|done]|intros; repeat step]. split; [|done].
    eapply well_formed_perm, Hp; [done|]. symmetry. apply stable_sort_perm.
  - intros id cmd. unfold Update, audit. do 2 (step; [step|]). cbn zeta. apply validated_valid. intros Hp.
    step; [destruct (default false (up_IsDefault cmd)); step|]. step; [step|].
    apply calls_bind_ok; [split; [|done]|intros; repeat step]. by eapply well_formed_perm, Hp.
  - intros id cmd. unfold AddStage, mutateStages. do 3 (step; [repeat step|]). apply store_stages_valid.
  - intros id sid cmd. unfold UpdateStage_, mutateStages. do 3 (step; [repeat step|]). apply store_stages_valid.
  - intros id ids. unfold ReorderStages, mutateStages. do 3 (step; [repeat step|]). apply store_stages_valid.
  - intros id sid. unfold DeleteStage. do 2 (step; [repeat step|]). case_match; [|done].
    step; [destruct has_deals; step|]. case_match; [done|apply store_stages_valid].
Qed.

(** ** The order of the stages *)

Lemma stage_orders_sorted l : StronglySorted Z.le (map stg_Order (stable_sort stage_before l)).
Proof.
  apply (StronglySorted_fmap stg_Order (not_greater stage_before)); [|apply stable_sort_sorted];
    unfold stage_before, not_greater; intros; lia.
Qed.

Definition positions (n : nat) : list Z := map Z.of_nat (seq 0 n).

Lemma positions_lookup n k : (k < n)%nat -> positions n !! k = Some (Z.of_nat k).
Proof. intros Hk. unfold positions. rewrite list_lookup_fmap, lookup_seq_lt by done. done. Qed.

Lemma positions_sorted n : StronglySorted Z.le (positions n).
Proof.
  apply (StronglySorted_fmap Z.of_nat le); [lia|]. generalize 0%nat.
  induction n as [|n IH]; intros k; cbn; constructor; [apply IH|].
  apply Forall_forall. intros x Hx%elem_of_seq. lia.
Qed.

Lemma stage_index_elem stages id i : stage_index stages id = Some i -> id ∈ map stg_ID stages.
Proof.
  revert i. induction stages as [|s stages IH]; intros i; cbn; [done|]. case_bool_decide as He.
  - intros _. rewrite He. left.
  - intros (j & Hj & _)%fmap_Some. right. by eapply IH.
Qed.

(** What the positions are: those of the list, from [i] on. *)
Lemma reorder_positions_spec p i ids pos pos' :
  reorder_positions p i ids pos = Ok pos' ->
  NoDup ids /\ (forall id, id ∈ ids -> pos !! id = None) /\
  (forall id, id ∈ ids -> id ∈ map stg_ID (pp_Stages p)) /\
  (forall id, id ∉ ids -> pos' !! id = pos !! id) /\
  (forall k id, ids !! k = Some id -> pos' !! id = Some (i + Z.of_nat k)).
Proof.
  revert i pos. induction ids as [|id ids IH]; intros i pos; cbn [reorder_positions].
  - intros [= ->]. split_and!; [constructor|set_solver|set_solver|done|done].
  - destruct (StageIndex p id) as [j|] eqn:Hj; [|done]. destruct (pos !! id) eqn:Hid; [done|].
    intros (Hnd & Hnew & Hin & Hout & Hpos)%IH.
    assert (id ∉ ids) as Hni.
    { intros Hx. specialize (Hnew id Hx). by rewrite lookup_insert_eq in Hnew. }
    split_and!.
    + by constructor.
    + intros x [->|Hx]%elem_of_cons; [done|]. specialize (Hnew x Hx).
      rewrite lookup_insert_ne in Hnew; [done|]. by intros <-.
    + intros x [->|Hx]%elem_of_cons; [by eapply stage_index_elem|by apply Hin].
    + intros x Hx. rewrite Hout by set_solver. rewrite lookup_insert_ne; [done|]. set_solver.
    + intros [|k] x; cbn.
      * intros [= <-]. rewrite Hout, lookup_insert_eq by done. f_equal. lia.
      * intros Hx. rewrite (Hpos k x Hx). f_equal. lia.
Qed.

Lemma map_order_ids f stages : map stg_ID (map (fun s => set_stg_Order (f s) s) stages) = map stg_ID stages.
Proof. rewrite map_map. by apply map_ext. Qed.

(** Reordering puts the stages in the order of the list: when it is accepted, the list names
    every stage exactly once and is the order of the columns; nothing but the positions
    changes. *)
Theorem reorder_follows_the_list (p q : Pipeline) (ids : list string) :
  reordered p ids = Ok q ->
  map stg_ID (pp_Stages (SortStages q)) = ids /\
  pp_Stages (SortStages q) ≡ₚ pp_Stages q /\
  map (set_stg_Order 0) (pp_Stages q) = map (set_stg_Order 0) (pp_Stages p).
Proof.
  unfold reordered. destruct (length ids =? length (pp_Stages p))%nat eqn:Hlen; [|done]. cbn [negb].
  apply Nat.eqb_eq in Hlen. destruct (reorder_positions p 0 ids ∅) as [pos|] eqn:Hp; [|done]. intros [= <-].
  apply reorder_positions_spec in Hp as (Hnd & _ & Hin & _ & Hpos). cbn [pp_Stages set_pp_Stages SortStages].
  set (stages := map _ (pp_Stages p)).
  assert (map stg_ID (pp_Stages p) ≡ₚ ids) as Hids.
  { symmetry. apply NoDup_Permutation_bis; [by apply NoDup_ListNoDup|rewrite length_map; lia|].
    intros x Hx. apply list_elem_of_In, Hin, list_elem_of_In, Hx. }
  split; [|split; [apply stable_sort_perm|unfold stages; rewrite map_map; by apply map_ext]].
  set (l := stable_sort stage_before stages).
  assert (l ≡ₚ stages) as Hl by apply stable_sort_perm.
  assert (map stg_ID stages ≡ₚ ids) as Hs by (unfold stages; by rewrite map_order_ids).
  assert (forall s, s ∈ stages -> pos !! stg_ID s = Some (stg_Order s)) as Hord.
  { intros s (s0 & -> & Hs0)%list_elem_of_fmap. cbn.
    assert (stg_ID s0 ∈ ids) as [k Hk]%list_elem_of_lookup_1
      by (rewrite <- Hids; by apply list_elem_of_fmap_2).
    by rewrite (Hpos k _ Hk). }
  assert (map (fun id => default 0 (pos !! id)) ids = positions (length ids)) as Hids_pos.
  { apply list_eq. intros k. rewrite list_lookup_fmap. destruct (ids !! k) as [id|] eqn:Hk.
    - rewrite positions_lookup by by eapply lookup_lt_Some. cbn. by rewrite (Hpos k id Hk).
    - symmetry. apply lookup_ge_None. unfold positions. rewrite length_map, length_seq. by apply lookup_ge_None. }
  assert (map stg_Order l ≡ₚ positions (length ids)) as Hperm.
  { assert (map (fun s => default 0 (pos !! stg_ID s)) stages = map stg_Order stages) as Hmap.
    { apply map_ext_in. intros s Hsin%list_elem_of_In. by rewrite Hord. }
    by rewrite <- Hids_pos, <- Hs, Hl, map_map, Hmap. }
  assert (map stg_Order l = positions (length ids)) as Heq.
  { apply (StronglySorted_unique Z.le); [apply stage_orders_sorted|apply positions_sorted|exact Hperm]. }
  apply list_eq. intros k. rewrite list_lookup_fmap. destruct (l !! k) as [s|] eqn:Hk; cbn.
  - assert (map stg_Order l !! k = Some (stg_Order s)) as Hk' by (by rewrite list_lookup_fmap, Hk).
    rewrite Heq in Hk'. assert (k < length ids)%nat as Hlt.
    { apply lookup_lt_Some in Hk'. unfold positions in Hk'. by rewrite length_map, length_seq in Hk'. }
    rewrite positions_lookup in Hk' by done. injection Hk' as Hk'.
    assert (s ∈ stages) as Hsin by (rewrite <- Hl; by eapply list_elem_of_lookup_2).
    apply lookup_lt_is_Some in Hlt as [id Hid]. pose proof (Hord s Hsin) as Hps.
    rewrite Hid. f_equal. pose proof (Hpos k id Hid) as Hpid. rewrite Z.add_0_l, Hk' in Hpid.
    assert (stg_ID s ∈ ids) as [k2 Hk2]%list_elem_of_lookup_1.
    { rewrite <- Hs. by apply list_elem_of_fmap_2. }
    pose proof (Hpos k2 _ Hk2) as H2. rewrite Hps in H2. injection H2 as H2.
    assert (k2 = k) as -> by lia. congruence.
  - symmetry. apply lookup_ge_None. apply lookup_ge_None in Hk.
    apply Permutation_length in Hs, Hl. rewrite length_map in Hs. lia.
Qed.

Lemma reorder_follows_the_list_witness :
  let stage id order := mkStage id id order false false "" in
  let p := mkPipeline "p" "acme" "Vendas" true [stage "a" 0; stage "b" 1; stage "c" 2] 0 0 in
  exists q, reordered p ["c"; "a"; "b"] = Ok q /\ map stg_ID (pp_Stages (SortStages q)) = ["c"; "a"; "b"].
Proof.
  cbv zeta. eexists. split; [vm_compute; reflexivity|].
  apply (reorder_follows_the_list
    (mkPipeline "p" "acme" "Vendas" true
       [mkStage "a" "a" 0 false false ""; mkStage "b" "b" 1 false false ""; mkStage "c" "c" 2 false false ""] 0 0)).
  vm_compute. reflexivity.
Defined.

(** ** Sales pipelines: the store, and the default of a tenant

    What the repository promises, a world in memory that keeps the promise, and the theorem
    that a tenant never has two default pipelines while requests come one after the other. *)

(** ** The repository (infra/database/mongodb/repositories/pipelines) *)

(** The pipelines by tenant and id. *)
Abbreviation PipeView :=
  (@gmap (string * string) (prod_eq_dec : EqDecision (string * string)) prod_countable Pipeline).

Definition pp_key (p : Pipeline) : string * string := (pp_TenantID p, pp_ID p).

(** What [Update] stores: the [$set] fields over the stored document. *)
Definition stored_pipeline (old new : Pipeline) : Pipeline :=
  mkPipeline (pp_ID old) (pp_TenantID old) (pp_Name new) (pp_IsDefault new) (pp_Stages new)
    (pp_CreatedAt old) (pp_UpdatedAt new).

(** A document after [ClearDefault]: that of another pipeline of the tenant is not default. *)
Definition cleared (tn keepID : string) (k : string * string) (p : Pipeline) : Pipeline :=
  if (k.1 =! tn) && (k.2 <>! keepID) then set_pp_IsDefault false p else p.

Definition tenant_pipes (tn : string) (g : PipeView) : PipeView := filter (fun kp => kp.1.1 = tn) g.

(** An insert, an update or a removal may fail before or after it took effect; a failed
    [ClearDefault] may have reached some of the documents. *)
Definition pipe_post (R : Type) (c : Ctx) (e : PipePort R) (g : PipeView) (r : R) (g' : PipeView) : Prop :=
  match e in PipePort R return R -> Prop with
  | PipeCreate p => fun r => g' = g /\ is_ok r = false \/ g !! pp_key p = None /\ g' = <[pp_key p := p]> g
  | PipeUpdate p => fun r =>
      g' = g /\ is_ok r = false \/
      exists tn old, RequireTenant c = Ok tn /\ g !! (tn, pp_ID p) = Some old /\
        g' = <[(tn, pp_ID p) := stored_pipeline old p]> g
  | PipeDelete id => fun r =>
      g' = g /\ is_ok r = false \/ exists tn, RequireTenant c = Ok tn /\ g' = delete (tn, id) g
  | PipeFindByID id => fun r =>
      g' = g /\ forall p, r = Ok p -> pp_ID p = id /\ exists tn, RequireTenant c = Ok tn /\ g !! (tn, id) = Some p
  | CountByTenant => fun r =>
      g' = g /\ forall n, r = Ok n -> exists tn, RequireTenant c = Ok tn /\ n = Z.of_nat (size (tenant_pipes tn g))
  | ClearDefault keepID => fun r =>
      match r with
      | Ok _ => exists tn, RequireTenant c = Ok tn /\ g' = map_imap (fun k p => Some (cleared tn keepID k p)) g
      | Err _ => exists hit : string * string -> bool,
          g' = map_imap (fun k p => Some (if hit k then set_pp_IsDefault false p else p)) g
      end
  | _ => fun _ => g' = g
  end r.

Definition pipe_contract : contract Ctx PipePort PipeView := pre_post (fun _ _ _ _ => True) pipe_post.

#[export] Instance pipe_mono : Monotone pipe_contract.
Proof. apply pre_post_mono. Qed.

Class PipeStore {S} (h : handler Ctx PipePort S) (view : S -> PipeView) : Prop := {
  pipe_answers : forall R c (e : PipePort R) s,
    let '(r, s') := h R c e s in pipe_post R c e (view s) r (view s');
}.

Lemma pipe_run {S} (h : handler Ctx PipePort S) (view : S -> PipeView) `{!PipeStore h view} {A}
    (m : PpM A) Q s :
  wp pipe_contract m Q (view s) -> let '(a, s') := run h m s in Q a (view s').
Proof.
  apply wp_run. intros R c e P s' [_ HP]. pose proof (pipe_answers R c e s') as Ha.
  destruct (h R c e s'). by apply HP.
Qed.

(** ** At most one default *)

Record PipeInv (g : PipeView) : Prop := {
  pi_keys : forall k p, g !! k = Some p -> k = pp_key p;
  pi_default : forall tn i j p q, g !! (tn, i) = Some p -> g !! (tn, j) = Some q ->
    pp_IsDefault p = true -> pp_IsDefault q = true -> i = j;
}.

(** A pipeline may be put when, default, it is the only one of the tenant. *)
Lemma PipeInv_put (g : PipeView) (p : Pipeline) :
  PipeInv g ->
  (pp_IsDefault p = true -> forall j q, g !! (pp_TenantID p, j) = Some q -> pp_IsDefault q = true -> j = pp_ID p) ->
  PipeInv (<[pp_key p := p]> g).
Proof.
  intros [Hk Hd] Hp. split.
  - intros k q [[<- <-]|[_ Hq]]%lookup_insert_Some; [done|by apply Hk].
  - intros tn i j q r Hq Hr Hdq Hdr.
    apply lookup_insert_Some in Hq as [[Hq <-]|[Hnq Hq]]; apply lookup_insert_Some in Hr as [[Hr <-]|[Hnr Hr]].
    + congruence.
    + injection Hq as <- <-. symmetry. by apply (Hp Hdq j r).
    + injection Hr as <- <-. by apply (Hp Hdr i q).
    + by apply (Hd tn i j q r).
Qed.

Lemma lookup_each (g : PipeView) (f : string * string -> Pipeline -> Pipeline) k p :
  map_imap (fun k p => Some (f k p)) g !! k = Some p <-> exists q, g !! k = Some q /\ f k q = p.
Proof. rewrite map_lookup_imap. destruct (g !! k); cbn; naive_solver. Qed.

(** Flags taken away keep the invariant. *)
Lemma PipeInv_weaken (g : PipeView) (f : string * string -> Pipeline -> Pipeline) :
  (forall k p, pp_key (f k p) = pp_key p /\ (pp_IsDefault (f k p) = true -> pp_IsDefault p = true)) ->
  PipeInv g -> PipeInv (map_imap (fun k p => Some (f k p)) g).
Proof.
  intros Hf [Hk Hd]. split.
  - intros k p (q & Hq & <-)%lookup_each. rewrite (proj1 (Hf k q)). by apply Hk.
  - intros tn i j p q (p' & Hp & <-)%lookup_each (q' & Hq & <-)%lookup_each Hdp Hdq.
    apply (Hd tn i j p' q'); [done|done|by eapply Hf|by eapply Hf].
Qed.

Lemma cleared_spec tn keep k p :
  pp_key (cleared tn keep k p) = pp_key p /\ (pp_IsDefault (cleared tn keep k p) = true -> pp_IsDefault p = true).
Proof. unfold cleared. by destruct (_ && _). Qed.

Definition keeps_inv {A} (m : PpM A) : Prop :=
  forall g, PipeInv g -> wp pipe_contract m (fun _ => PipeInv) g.

(** Calls that write no pipeline. *)
Definition quiet (R : Type) (c : Ctx) (e : PipePort R) : Prop :=
  match e with PipeCreate _ | PipeUpdate _ | PipeDelete _ | ClearDefault _ => False | _ => True end.

Lemma pp_quiet_inert : inert_in (fun _ _ _ _ => True) pipe_post quiet.
Proof. split; [done|]. intros R c e g r g' Hq. destruct e; cbn; try done; by (intros [? ?] || intros). Qed.

Lemma pp_wp_quiet {A} (m : PpM A) (Q : A -> PipeView -> Prop) g :
  calls quiet m -> (forall a, Q a g) -> wp pipe_contract m Q g.
Proof. apply (wp_inert _ _ quiet), pp_quiet_inert. Qed.

Lemma pp_wp_quiet_bind {A B} (m : PpM A) (f : A -> PpM B) Q g :
  calls quiet m -> (forall a, wp pipe_contract (f a) Q g) -> wp pipe_contract (bind m f) Q g.
Proof. apply (wp_inert_bind _ _ quiet), pp_quiet_inert. Qed.

Ltac quiet_step := calls_step ltac:(exact I).

Definition may_put (c : Ctx) (g : PipeView) (p : Pipeline) : Prop :=
  pp_IsDefault p = true -> forall tn j q, RequireTenant c = Ok tn -> g !! (tn, j) = Some q ->
    pp_IsDefault q = true -> j = pp_ID p.

(** The update of a pipeline that carries the flag it was read with, or that was made the
    default after the others were cleared. *)
Lemma update_inv c g p (Q : result unit -> PipeView -> Prop) :
  PipeInv g ->
  may_put c g p ->
  (forall r g', PipeInv g' -> Q r g') -> wp pipe_contract (ask c (PipeUpdate p)) Q g.
Proof.
  intros HI Hp HQ. split; [done|]. intros r g' Hr. apply HQ. unfold embed, pipe_own in Hr. cbn in Hr.
  destruct Hr as [[-> _]|(tn & old & Hc & Hold & ->)]; [done|].
  pose proof (pi_keys g HI _ _ Hold) as [= -> Hid]. rewrite Hid.
  change (pp_TenantID old, pp_ID old) with (pp_key (stored_pipeline old p)).
  apply PipeInv_put; [done|]. cbn. intros Hd j q Hq Hdq. rewrite <- Hid. by apply (Hp Hd _ j q Hc).
Qed.

Section Operations.
Context (has_deals : bool).

Lemma pp_audit_quiet c a i : calls quiet (audit c a i).
Proof. unfold audit. by repeat quiet_step. Qed.
Hint Resolve pp_audit_quiet : calls.

(** From a changed pipeline on. *)
Lemma store_stages_inv c action p g :
  PipeInv g -> may_put c g p -> wp pipe_contract (store_stages c action p) (fun _ => PipeInv) g.
Proof.
  intros HI Hp. unfold store_stages, validated. case_match; [done|].
  apply pp_wp_quiet_bind; [by repeat quiet_step|]. intros now. cbn zeta.
  apply wp_bind_ok; [apply _|]. apply update_inv; [done|exact Hp|].
  intros [[]|e] g' HI'; [|done]. cbn zeta. apply pp_wp_quiet; [|done]. by repeat quiet_step.
Qed.

(** A pipeline that was read may be written with the flag it has. *)
Lemma find_may_put c id {A} (f : Pipeline -> PpM (result A)) g :
  PipeInv g ->
  (forall p, (forall q, pp_ID q = pp_ID p -> pp_IsDefault q = pp_IsDefault p -> may_put c g q) ->
     wp pipe_contract (f p) (fun _ => PipeInv) g) ->
  wp pipe_contract (try! p := ask c (PipeFindByID id) in f p) (fun _ => PipeInv) g.
Proof.
  intros HI Hf. apply wp_bind_ok; [apply _|]. split; [done|]. intros [p|e] g' Hr; unfold embed, pipe_own in Hr;
    cbn in Hr; destruct Hr as [-> Hr]; [|done]. cbn [wp]. apply Hf.
  destruct (Hr p eq_refl) as (Hid & tn & Hc & Hp). intros q Hq Hd Hdq tn' j r Hc' Hr' Hdr.
  assert (tn' = tn) as -> by congruence. rewrite Hq, Hid.
  apply (pi_default g HI tn j id r p); [done|done|done|congruence].
Qed.

Lemma mutateStages_inv c id action (mutate : Pipeline -> PpM (result Pipeline)) :
  (forall p, calls quiet (mutate p)) ->
  (forall p, returns (fun r => match r with Ok q => pp_ID q = pp_ID p /\ pp_IsDefault q = pp_IsDefault p | Err _ => True end)
               (mutate p)) ->
  keeps_inv (mutateStages c id action mutate).
Proof.
  intros Hq Hm g HI. unfold mutateStages. destruct (RequireTenant c); [|done]. cbn [bind_ok bind].
  apply find_may_put; [done|]. intros p Hp. apply wp_bind_ok; [apply _|].
  eapply wp_inert_returns; [apply pp_quiet_inert|apply Hq|apply Hm|].
  intros [q|e]; [|done]. intros [Hid Hd]. apply store_stages_inv; [done|by apply Hp].
Qed.

Lemma pp_Create_inv c cmd : keeps_inv (Create c cmd).
Proof.
  intros g HI. unfold Create. destruct (RequireTenant c) as [tn|] eqn:Hc; [|done]. cbn [bind_ok bind].
  do 3 (apply pp_wp_quiet_bind; [by repeat quiet_step|]; intros ?). cbn zeta. unfold validated. case_match; [done|].
  apply wp_bind_ok; [apply _|]. split; [done|]. intros [n|e] g' Hr; unfold embed, pipe_own in Hr; cbn in Hr;
    destruct Hr as [-> Hn]; [|done]. cbn [wp]. destruct (Hn n eq_refl) as (tn' & Hc' & ->).
  assert (tn' = tn) as -> by congruence. clear Hn.
  apply wp_bind_ok; [apply _|]. split; [done|]. intros r g' Hr. unfold embed, pipe_own in Hr. cbn in Hr.
  assert (PipeInv g') as HI'.
  { destruct Hr as [[-> _]|[_ ->]]; [done|]. apply (PipeInv_put g (SortStages _)); [done|]. cbn.
    intros Hz%Z.eqb_eq j q Hq _. exfalso. assert (size (tenant_pipes tn g) = 0)%nat as H0 by lia.
    apply map_size_empty_inv in H0. assert (tenant_pipes tn g !! (tn, j) = Some q) as Hl
      by (by apply map_lookup_filter_Some). rewrite H0 in Hl. done. }
  destruct r as [[]|e]; [|done]. cbn [wp]. apply pp_wp_quiet; [|done]. by repeat quiet_step.
Qed.

Lemma pp_Update_inv c id cmd : keeps_inv (Update c id cmd).
Proof.
  intros g HI. unfold Update. destruct (RequireTenant c) as [tn|] eqn:Hc; [|done]. cbn [bind_ok bind].
  apply find_may_put; [done|]. intros p Hp. cbn zeta. set (p1 := assign (up_Name cmd) _ p).
  assert (pp_ID p1 = pp_ID p /\ pp_IsDefault p1 = pp_IsDefault p) as [Hid1 Hd1]
    by (unfold p1; by destruct (up_Name cmd)).
  set (p2 := assign _ _ p1). unfold validated. case_match; [done|].
  assert (pp_ID p2 = pp_ID p) as Hid2 by (unfold p2; by destruct (up_IsDefault cmd)).
  assert (forall g', PipeInv g' -> may_put c g' p2 ->
    wp pipe_contract (let! now := ask c Now in
      let p := set_pp_UpdatedAt now p2 in
      try! _ := ask c (PipeUpdate p) in
      let p := SortStages p in
      do! audit c "pipeline.updated" (pp_ID p) in Ret (Ok p)) (fun _ => PipeInv) g') as Hrest.
  { intros g' HI' Hput. apply pp_wp_quiet_bind; [by repeat quiet_step|]. intros now. cbn zeta.
    apply wp_bind_ok; [apply _|]. apply update_inv; [done|exact Hput|].
    intros [[]|e] g'' HI''; [|done]. cbn zeta. apply pp_wp_quiet; [|done]. by repeat quiet_step. }
  destruct (default false (up_IsDefault cmd)) eqn:Hdef.
  - apply wp_bind_ok; [apply _|]. split; [done|]. intros [[]|e] g' Hr; unfold embed, pipe_own in Hr; cbn in Hr.
    + cbn [wp]. destruct Hr as (tn' & Hc' & ->). apply Hrest.
      * apply (PipeInv_weaken g (cleared tn' (pp_ID p2))); [|done]. apply cleared_spec.
      * intros _ tn'' j q Hc'' (q' & Hq & <-)%lookup_each Hdq.
        assert (tn'' = tn') as -> by congruence. unfold cleared in Hdq. cbn in Hdq.
        rewrite bool_decide_true in Hdq by done. destruct (bool_decide (j = pp_ID p2)) eqn:Hj; [|done].
        by apply bool_decide_eq_true in Hj.
    + cbn [wp]. destruct Hr as (hit & ->).
      apply (PipeInv_weaken g (fun k p => if hit k then set_pp_IsDefault false p else p)); [|done].
      intros k q. by destruct (hit k).
  - cbn [bind_ok bind]. apply Hrest; [done|]. unfold p2. destruct (up_IsDefault cmd) as [b|]; cbn in *.
    + subst b. by intros ?.
    + by apply Hp.
Qed.

Lemma Delete_inv c id : keeps_inv (Delete c id).
Proof.
  intros g HI. unfold Delete. destruct (RequireTenant c) as [tn|] eqn:Hc; [|done]. cbn [bind_ok bind].
  apply find_may_put; [done|]. intros p _. apply wp_bind_ok; [apply _|]. split; [done|]. intros r g' Hr.
  unfold embed, pipe_own in Hr. cbn in Hr.
  assert (PipeInv g') as HI'.
  { destruct Hr as [[-> _]|(tn' & _ & ->)]; [done|]. destruct HI as [Hk Hd]. split.
    - intros k q [_ Hq]%lookup_delete_Some. by apply Hk.
    - intros t i j q q' [_ Hq]%lookup_delete_Some [_ Hq']%lookup_delete_Some. by apply (Hd t). }
  destruct r as [[]|e]; [|done]. cbn [wp]. apply pp_wp_quiet; [|done]. by repeat quiet_step.
Qed.

Lemma AddStage_inv c id cmd : keeps_inv (AddStage c id cmd).
Proof.
  apply mutateStages_inv; intros p; [by repeat quiet_step|]. by intros sid.
Qed.

Lemma UpdateStage_inv c id sid cmd : keeps_inv (UpdateStage_ c id sid cmd).
Proof. apply mutateStages_inv; intros p; [by repeat quiet_step|]. by case_match. Qed.

Lemma ReorderStages_inv c id ids : keeps_inv (ReorderStages c id ids).
Proof.
  apply mutateStages_inv; intros p; [done|]. cbn. unfold reordered. repeat case_match; by simplify_eq.
Qed.

Lemma DeleteStage_inv c id sid : keeps_inv (DeleteStage has_deals c id sid).
Proof.
  intros g HI. unfold DeleteStage. destruct (RequireTenant c) as [tn|] eqn:Hc; [|done]. cbn [bind_ok bind].
  apply find_may_put; [done|]. intros p Hp. case_match; [|done].
  apply wp_bind_ok; [apply _|]. apply pp_wp_quiet; [destruct has_deals; by repeat quiet_step|].
  intros [[]|e]; [done| |done]. apply store_stages_inv; [done|by apply Hp].
Qed.
End Operations.

(** ** Histories *)

Inductive PipeOp :=
| OpCreate (c : Ctx) (cmd : CreatePipeline)
| OpUpdate (c : Ctx) (id : string) (cmd : UpdatePipeline)
| OpDelete (c : Ctx) (id : string)
| OpAddStage (c : Ctx) (id : string) (cmd : StageInput)
| OpUpdateStage (c : Ctx) (id stageID : string) (cmd : UpdateStage)
| OpReorder (c : Ctx) (id : string) (ids : list string)
| OpDeleteStage (c : Ctx) (id stageID : string).

Definition op_prog (has_deals : bool) (op : PipeOp) : PpM bool :=
  let told {A} (m : PpM (result A)) : PpM bool := let! r := m in Ret (is_ok r) in
  match op with
  | OpCreate c cmd => told (Create c cmd)
  | OpUpdate c id cmd => told (Update c id cmd)
  | OpDelete c id => told (Delete c id)
  | OpAddStage c id cmd => told (AddStage c id cmd)
  | OpUpdateStage c id sid cmd => told (UpdateStage_ c id sid cmd)
  | OpReorder c id ids => told (ReorderStages c id ids)
  | OpDeleteStage c id sid => told (DeleteStage has_deals c id sid)
  end.

Lemma op_inv has_deals op : keeps_inv (op_prog has_deals op).
Proof.
  assert (forall A (m : PpM (result A)), keeps_inv m -> keeps_inv (let! r := m in Ret (is_ok r))) as Htold.
  { intros A m Hm g HI. apply wp_bind; [apply _|]. eapply wp_mono; [apply _| |by apply Hm]. by intros. }
  destruct op; cbn [op_prog]; apply Htold.
  - apply pp_Create_inv.
  - apply pp_Update_inv.
  - apply Delete_inv.
  - apply AddStage_inv.
  - apply UpdateStage_inv.
  - apply ReorderStages_inv.
  - apply DeleteStage_inv.
Qed.

(** The requests one after the other. *)
Definition pipe_history {S} (h : handler Ctx PipePort S) (has_deals : bool) (ops : list PipeOp) (s : S) : S :=
  fold_left (fun s op => (run h (op_prog has_deals op) s).2) ops s.

Lemma pipe_history_inv {S} (h : handler Ctx PipePort S) (view : S -> PipeView) `{!PipeStore h view}
    has_deals ops s :
  PipeInv (view s) -> PipeInv (view (pipe_history h has_deals ops s)).
Proof.
  revert s. unfold pipe_history. induction ops as [|op ops IH]; intros s HI; cbn [fold_left]; [done|]. apply IH.
  pose proof (pipe_run h view (op_prog has_deals op) _ s (op_inv has_deals op _ HI)) as Hr.
  by destruct (run h (op_prog has_deals op) s).
Qed.

(** C33. One default at most: from no pipelines, and after any requests one after the other, each
    possibly failing on the way, no tenant has two default pipelines, and every pipeline is
    kept under its own tenant and id. *)
Theorem one_default_pipeline {S} (h : handler Ctx PipePort S) (view : S -> PipeView) `{!PipeStore h view}
    (has_deals : bool) (ops : list PipeOp) (s0 : S) :
  view s0 = ∅ ->
  let g := view (pipe_history h has_deals ops s0) in
  (forall tn i j p q, g !! (tn, i) = Some p -> g !! (tn, j) = Some q ->
     pp_IsDefault p = true -> pp_IsDefault q = true -> i = j) /\
  (forall k p, g !! k = Some p -> k = (pp_TenantID p, pp_ID p)).
Proof.
  intros H0. cbn zeta. destruct (pipe_history_inv h view has_deals ops s0) as [Hk Hd]; [by rewrite H0|].
  split; [exact Hd|exact Hk].
Qed.

(** ** A world in memory *)

Module PipeMemory.
(** The pipelines, the number of ids given, the stages that hold deals, the audit trail. *)
Record State := mkState {
  st_pipes : PipeView; st_ids : nat; st_busy : list (string * string); st_audit : list string }.

Definition set_pipes (g : PipeView) (s : State) : State := mkState g (st_ids s) (st_busy s) (st_audit s).
Definition not_found : error := NotFound "pipeline not found".

Definition infra {R} (e : Infra R) (s : State) : R * State :=
  match e in Infra R return R * State with
  | Now => (100, s)
  | SystemNow => (100, s)
  | NewID => ("p" +:+ show_nat (st_ids s), mkState (st_pipes s) (S (st_ids s)) (st_busy s) (st_audit s))
  | Publish _ _ _ => (Ok tt, s)
  | PublishBatch _ => (Ok tt, s)
  | WebhookMatches _ _ _ => (false, s)
  | WebhookDeliver _ _ _ _ => (tt, s)
  | EmitRuleEvent _ _ _ _ => (tt, s)
  | Notify _ => (tt, s)
  | AuditRecord a => (Ok tt, mkState (st_pipes s) (st_ids s) (st_busy s) (st_audit s ++ [au_Action a]))
  | QueueChanged _ _ => (tt, s)
  | Acquire _ _ => (Ok ("", true), s)
  | Release _ => (tt, s)
  end.

(** A call in the tenant of its context. *)
Definition scoped {A} (c : Ctx) (s : State) (f : string -> result A * State) : result A * State :=
  match RequireTenant c with Ok tn => f tn | Err e => (Err e, s) end.

Definition handle : handler Ctx PipePort State := fun R c e s =>
  match e in PipePort R return R * State with
  | PpInfra e => infra e s
  | PipeCreate p =>
      match st_pipes s !! pp_key p with
      | Some _ => (Err (Conflict "duplicate key"), s)
      | None => (Ok tt, set_pipes (<[pp_key p := p]> (st_pipes s)) s)
      end
  | PipeUpdate p => scoped c s (fun tn =>
      match st_pipes s !! (tn, pp_ID p) with
      | Some old => (Ok tt, set_pipes (<[(tn, pp_ID p) := stored_pipeline old p]> (st_pipes s)) s)
      | None => (Err not_found, s)
      end)
  | PipeDelete id => scoped c s (fun tn =>
      match st_pipes s !! (tn, id) with
      | Some _ => (Ok tt, set_pipes (delete (tn, id) (st_pipes s)) s)
      | None => (Err not_found, s)
      end)
  | PipeFindByID id => scoped c s (fun tn =>
      match st_pipes s !! (tn, id) with
      | Some p => if pp_ID p =! id then (Ok p, s) else (Err not_found, s)
      | None => (Err not_found, s)
      end)
  | PipeList => scoped c s (fun tn => (Ok (map snd (map_to_list (tenant_pipes tn (st_pipes s)))), s))
  | CountByTenant => scoped c s (fun tn => (Ok (Z.of_nat (size (tenant_pipes tn (st_pipes s)))), s))
  | ClearDefault keepID => scoped c s (fun tn =>
      (Ok tt, set_pipes (map_imap (fun k p => Some (cleared tn keepID k p)) (st_pipes s)) s))
  | StageHasDeals_ pid sid => (Ok (bool_decide ((pid, sid) ∈ st_busy s)), s)
  end.
End PipeMemory.

#[export] Instance pipe_memory : PipeStore PipeMemory.handle PipeMemory.st_pipes.
Proof.
  split. intros R c e s. destruct e; cbn; unfold PipeMemory.scoped; try done.
  - by destruct e.
  - destruct (PipeMemory.st_pipes s !! pp_key p) eqn:Hk; [by left|by right].
  - destruct (RequireTenant c) as [tn|]; [|by left].
    destruct (PipeMemory.st_pipes s !! (tn, pp_ID p)) as [old|] eqn:Hk; [|by left]. right. by exists tn, old.
  - destruct (RequireTenant c) as [tn|]; [|by left].
    destruct (PipeMemory.st_pipes s !! (tn, id)) as [old|] eqn:Hk; [|by left]. right. by exists tn.
  - destruct (RequireTenant c) as [tn|]; [|done].
    destruct (PipeMemory.st_pipes s !! (tn, id)) as [p|] eqn:Hk; [|done].
    destruct (bool_decide (pp_ID p = id)) eqn:Hid; [|done]. apply bool_decide_eq_true in Hid.
    split; [done|]. intros q [= <-]. split; [done|]. by exists tn.
  - by destruct (RequireTenant c) as [tn|].
  - destruct (RequireTenant c) as [tn|]; [|done]. split; [done|]. intros n [= <-]. by exists tn.
  - destruct (RequireTenant c) as [tn|]; [by exists tn|]. exists (fun _ => false).
    symmetry. apply map_eq. intros k. rewrite map_lookup_imap. by destruct (_ !! k).
Qed.

Section Scenario.
Import PipeMemory.

Definition acme : Ctx := WithTenant Background "acme".
Definition no_pipes : State := mkState ∅ 0 [] [].

Definition funnel (name : string) : CreatePipeline :=
  mkCreatePipeline name [mkStageInput "Novo" 0 false false ""; mkStageInput "Ganho" 1 true false ""].

(** Two funnels, the default moved to the second one. *)
Definition a_morning : list PipeOp :=
  [OpCreate acme (funnel "Vendas"); OpCreate acme (funnel "Parcerias");
   OpUpdate acme "p3" (mkUpdatePipeline None (Some true));
   OpAddStage acme "p0" (mkStageInput "Perdido" 2 false true "")].

Definition defaults (s : State) : list (string * bool) :=
  map (fun kp => (kp.1.2, pp_IsDefault kp.2)) (map_to_list (st_pipes s)).

Lemma one_default_pipeline_witness :
  defaults (pipe_history handle true a_morning no_pipes) = [("p3", true); ("p0", false)] /\
  forall tn i j p q,
    st_pipes (pipe_history handle true a_morning no_pipes) !! (tn, i) = Some p ->
    st_pipes (pipe_history handle true a_morning no_pipes) !! (tn, j) = Some q ->
    pp_IsDefault p = true -> pp_IsDefault q = true -> i = j.
Proof.
  split; [vm_compute; reflexivity|].
  exact (proj1 (one_default_pipeline handle st_pipes true a_morning no_pipes eq_refl)).
Defined.

(** It takes one request at a time: when the first two funnels of a tenant are created at once,
    both count no pipeline before either is stored and both become the default; and a
    rename that read the old default writes its flag back after another became the
    default. *)
Theorem two_requests_leave_two_defaults :
  let pool := [op_prog true (OpCreate acme (funnel "Vendas")); op_prog true (OpCreate acme (funnel "Parcerias"))] in
  let '(p, s) := schedule handle (concat (replicate 8 [0; 1]%nat)) pool no_pipes in
  let s2 := pipe_history handle true [OpCreate acme (funnel "Vendas"); OpCreate acme (funnel "Parcerias")] no_pipes in
  let pool2 := [op_prog true (OpUpdate acme "p0" (mkUpdatePipeline (Some "Comercial") None));
                op_prog true (OpUpdate acme "p3" (mkUpdatePipeline None (Some true)))] in
  let '(q, s3) := schedule handle (0%nat :: repeat 1%nat 6 ++ repeat 0%nat 4) pool2 s2 in
  p = [Ret true; Ret true] /\ map snd (defaults s) = [true; true] /\
  q = [Ret true; Ret true] /\ map snd (defaults s3) = [true; true].
Proof. vm_compute. by repeat split. Qed.
End Scenario.
