(* ===== verification/Money.v ===== *)
(** * Money amounts: float64

    Values and prices are Go's float64: IEEE 754 binary64, rounded to nearest even. The
    operations are the standard library's executable specification of the format. *)
From S2P Require Import Prelude.
From Stdlib Require Import SpecFloat.

(** ** The type and the operations the services use *)

Definition float64 : Type := spec_float.

Definition prec : Z := 53.
Definition emax : Z := 1024.

Definition fzero : float64 := S754_zero false.
Definition fmul : float64 -> float64 -> float64 := SFmul prec emax.
Definition fadd : float64 -> float64 -> float64 := SFadd prec emax.
Definition fdiv : float64 -> float64 -> float64 := SFdiv prec emax.
(** [float64(n)]. *)
Definition of_int (n : Z) : float64 := binary_normalize prec emax n 0 false.
(** [x < y], [x <= y] and [x != y]: a NaN is not below anything and differs from everything. *)
Definition fltb : float64 -> float64 -> bool := SFltb.
Definition fleb : float64 -> float64 -> bool := SFleb.
Definition fne (x y : float64) : bool := negb (SFeqb x y).

#[export] Instance float64_eq_dec : EqDecision float64.
Proof. unfold float64. solve_decision. Defined.

(** ** Amounts

    Not a NaN and not below zero; the negative zero, which the comparison with zero accepts,
    and infinity are amounts. *)
Definition amount (x : float64) : bool :=
  match x with
  | S754_nan => false
  | S754_zero _ => true
  | S754_infinity s | S754_finite s _ _ => negb s
  end.

Definition finite (x : float64) : bool :=
  match x with S754_zero _ | S754_finite _ _ _ => true | _ => false end.

(** [if v < 0 { return error }] lets exactly the amounts and NaN through. *)
Lemma fltb_zero x : fltb x fzero = false <-> amount x = true \/ x = S754_nan.
Proof. destruct x as [s|s| |s m e]; try destruct s; cbn; naive_solver. Qed.

(** ** Rounding keeps the sign *)

Lemma iter_pos_inv {A} (f : A -> A) (P : A -> Prop) n x :
  (forall y, P y -> P (f y)) -> P x -> P (iter_pos f n x).
Proof. intros Hf. revert x. induction n as [n IH|n IH|]; intros x Hx; cbn; auto. Qed.

Lemma shr_1_nonneg mrs : 0 <= shr_m mrs -> 0 <= shr_m (shr_1 mrs).
Proof. destruct mrs as [[|[p|p|]|p] r s]; cbn; lia. Qed.

Lemma shr_fexp_nonneg m e l : 0 <= m -> 0 <= shr_m (shr_fexp prec emax m e l).1.
Proof.
  intros Hm. unfold shr_fexp, shr.
  assert (0 <= shr_m (shr_record_of_loc m l)) as H0 by by destruct l as [|[]].
  destruct (_ - e); [done| |done]. cbn [fst].
  apply (iter_pos_inv _ (fun mrs => 0 <= shr_m mrs)); [|done]. apply shr_1_nonneg.
Qed.

(** What a rounding to the sign [s] may give. *)
Definition signed (s : bool) (x : float64) : Prop :=
  match x with
  | S754_nan => False
  | S754_zero s' | S754_infinity s' | S754_finite s' _ _ => s' = s
  end.

Lemma binary_round_aux_signed s m e l : 0 <= m -> signed s (binary_round_aux prec emax s m e l).
Proof.
  intros Hm. unfold binary_round_aux. pose proof (shr_fexp_nonneg m e l Hm) as H1.
  destruct (shr_fexp prec emax m e l) as [mrs e']. cbn [fst] in H1.
  assert (0 <= round_nearest_even (shr_m mrs) (loc_of_shr_record mrs)) as H2.
  { unfold round_nearest_even. repeat case_match; lia. }
  pose proof (shr_fexp_nonneg _ e' loc_Exact H2) as H3.
  destruct (shr_fexp prec emax _ e' loc_Exact) as [mrs' e'']. cbn [fst] in H3.
  destruct (shr_m mrs'); [done|by case_match|lia].
Qed.

Lemma binary_round_signed s m e : signed s (binary_round prec emax s m e).
Proof. unfold binary_round. destruct (shl_align _ _ _) as [mz ez]. by apply binary_round_aux_signed. Qed.

Lemma binary_normalize_amount m e : 0 <= m -> amount (binary_normalize prec emax m e false) = true.
Proof.
  intros Hm. destruct m as [|p|p]; [done| |lia]. cbn [binary_normalize].
  pose proof (binary_round_signed false p e) as Hs. by destruct (binary_round _ _ _ _ _); cbn in *; subst.
Qed.

Lemma of_int_amount n : 0 <= n -> amount (of_int n) = true.
Proof. apply binary_normalize_amount. Qed.

(** ** Sums and products of amounts *)

Lemma fadd_amount x y : amount x = true -> amount y = true -> amount (fadd x y) = true.
Proof.
  unfold fadd. destruct x as [s|s| |s m e], y as [s'|s'| |s' m' e']; cbn; try done;
    try (by destruct s, s'); try by destruct s; try by destruct s'.
  intros Hs Hs'. destruct s, s'; try done. apply binary_normalize_amount. cbn. lia.
Qed.

(** A finite factor keeps an amount one. *)
Lemma fmul_amount x y :
  finite x = true -> amount x = true -> finite y = true -> amount y = true -> amount (fmul x y) = true.
Proof.
  unfold fmul. destruct x as [s|s| |s m e], y as [s'|s'| |s' m' e']; cbn; try done.
  intros _ Hs _ Hs'. destruct s, s'; try done.
  pose proof (binary_round_aux_signed false (Zpos (m * m')) (e + e') loc_Exact ltac:(lia)) as Hr.
  cbn [xorb]. destruct (binary_round_aux _ _ _ _ _ _); cbn in *; by subst.
Qed.

(** ** Small amounts stay finite *)

Lemma digits_size p : digits2_pos p = Pos.size p.
Proof. induction p as [p IH|p IH|]; cbn; by rewrite ?IH. Qed.

Lemma digits_log2 m : 0 < m -> Zdigits2 m = Z.log2 m + 1.
Proof. destruct m as [|p|]; [lia| |lia]. intros _. cbn [Zdigits2]. rewrite digits_size. by destruct p; cbn; lia. Qed.

Lemma digits_bound m k : 0 <= k -> 0 <= m < 2 ^ k -> Zdigits2 m <= k.
Proof.
  intros Hk [H0 Hm]. destruct (decide (m = 0)) as [->|Hne]; [done|]. rewrite digits_log2 by lia.
  assert (Z.log2 m < k) by (apply Z.log2_lt_pow2; lia). lia.
Qed.

Lemma shr_1_le mrs : 0 <= shr_m mrs -> 0 <= shr_m (shr_1 mrs) <= shr_m mrs.
Proof. destruct mrs as [[|[p|p|]|p] r s]; cbn; lia. Qed.

Lemma shr_fexp_le m e l : 0 <= m ->
  0 <= shr_m (shr_fexp prec emax m e l).1 <= m /\
  (shr_fexp prec emax m e l).2 <= Z.max e (fexp prec emax (Zdigits2 m + e)).
Proof.
  intros Hm. unfold shr_fexp, shr.
  assert (0 <= shr_m (shr_record_of_loc m l) <= m) as H0 by by destruct l as [|[]]; cbn; lia.
  destruct (_ - e) eqn:Hn; cbn [fst snd]; [by split; [|lia]| |by split; [|lia]].
  split; [|lia]. apply (iter_pos_inv _ (fun mrs => 0 <= shr_m mrs <= m)); [|done].
  intros y Hy. pose proof (shr_1_le y ltac:(lia)). lia.
Qed.

Lemma fexp_le x k : -1074 <= k -> x - 53 <= k -> fexp prec emax x <= k.
Proof. unfold fexp, emin, prec, emax. lia. Qed.

Lemma binary_round_aux_finite s m e l :
  0 <= m < 2 ^ 64 -> e <= 100 -> finite (binary_round_aux prec emax s m e l) = true.
Proof.
  intros Hm He. unfold binary_round_aux. pose proof (shr_fexp_le m e l ltac:(lia)) as [H1 H1'].
  destruct (shr_fexp prec emax m e l) as [mrs e']. cbn [fst snd] in H1, H1'.
  set (m2 := round_nearest_even _ _).
  assert (0 <= m2 <= 2 ^ 64) as H2 by (unfold m2, round_nearest_even; repeat case_match; lia).
  pose proof (shr_fexp_le m2 e' loc_Exact ltac:(lia)) as [H3 H3'].
  destruct (shr_fexp prec emax m2 e' loc_Exact) as [mrs' e'']. cbn [fst snd] in H3, H3'.
  pose proof (digits_bound m 64 ltac:(lia) ltac:(lia)) as D1.
  pose proof (digits_bound m2 65 ltac:(lia) ltac:(lia)) as D2.
  pose proof (fexp_le (Zdigits2 m + e) 200 ltac:(lia) ltac:(lia)) as F1.
  pose proof (fexp_le (Zdigits2 m2 + e') 300 ltac:(lia) ltac:(lia)) as F2.
  destruct (shr_m mrs'); [done| |lia].
  rewrite (proj2 (Z.leb_le _ _)); [done|]. unfold emax, prec. lia.
Qed.

(** The mantissa of an integer is first aligned to 53 digits. *)
Lemma of_int_finite n : 0 <= n < 2 ^ 63 -> finite (of_int n) = true.
Proof.
  intros [H0 Hn]. destruct n as [|p|p]; [done| |lia]. unfold of_int. cbn [binary_normalize].
  unfold binary_round. pose proof (digits_bound (Zpos p) 63 ltac:(lia) ltac:(lia)) as Hd. cbn [Zdigits2] in Hd.
  unfold shl_align. destruct (_ - 0) as [|q|q] eqn:Hq.
  1,2: apply binary_round_aux_finite; lia.
  assert (Z.pos (Pos.iter xO p q) = Z.pos p * 2 ^ Z.pos q) as Hp.
  { rewrite <- Z.shiftl_mul_pow2 by lia. cbn. by apply (Pos.iter_swap_gen _ _ Z.pos xO (Z.mul 2)). }
  apply binary_round_aux_finite; [|lia]. rewrite Hp. split; [lia|].
  pose proof (digits_log2 (Z.pos p) ltac:(lia)) as Hl. cbn [Zdigits2] in Hl.
  assert (Z.pos p < 2 ^ Z.pos (digits2_pos p)) as Hlt.
  { rewrite Hl. pose proof (Z.log2_spec (Z.pos p) ltac:(lia)). lia. }
  assert (Z.pos (digits2_pos p) + Z.pos q <= 63) as Hs by (unfold fexp, emin, prec, emax in Hq; lia).
  assert (2 ^ (Z.pos (digits2_pos p) + Z.pos q) <= 2 ^ 63) as Hpw by (apply Z.pow_le_mono_r; lia).
  rewrite Z.pow_add_r in Hpw by lia. nia.
Qed.
