(* ===== verification/Deals.v ===== *)
(** * Sales deals (domain/deals)

    The opportunity card of the Kanban: the aggregate and its line items, the contracts, and
    the service that creates, edits and moves deals and manages their products. The pipelines
    service is called through its own definitions. *)
From S2P Require Import Prelude GoStrings AppError Authz Shared ConvEntity Prog Ports Money Pipelines.

(** ** The aggregate (entity/deal.go) *)

Definition StatusOpen : string := "open".
Definition StatusWon : string := "won".
Definition StatusLost : string := "lost".
Definition DefaultCurrency : string := "BRL".

Record DealItem := mkDealItem {
  dit_ID : string; dit_ProductID : string; dit_Name : string; dit_Quantity : Z;
  dit_UnitPrice : float64; dit_Total : float64 }.

Record Deal := mkDeal { dl_ID : string; dl_TenantID : string; dl_PipelineID : string;
  dl_StageID : string; dl_ContactID : string; dl_Title : string; dl_Value : float64;
  dl_Currency : string; dl_AssignedTo : string; dl_SectorID : string;
  dl_ConversationIDs : list string; dl_Tags : list string; dl_Source : string; dl_Status : string;
  dl_LostReason : string; dl_ExpectedCloseDate : option Time; dl_StageChangedAt : Time;
  dl_ClosedAt : option Time; dl_Items : list DealItem; dl_CreatedAt : Time; dl_UpdatedAt : Time }.

(** Assignments to the fields of a deal. *)
Definition set_dl_StageID v d := mkDeal (dl_ID d) (dl_TenantID d) (dl_PipelineID d) v
  (dl_ContactID d) (dl_Title d) (dl_Value d) (dl_Currency d) (dl_AssignedTo d) (dl_SectorID d)
  (dl_ConversationIDs d) (dl_Tags d) (dl_Source d) (dl_Status d) (dl_LostReason d)
  (dl_ExpectedCloseDate d) (dl_StageChangedAt d) (dl_ClosedAt d) (dl_Items d) (dl_CreatedAt d)
  (dl_UpdatedAt d).
Definition set_dl_ContactID v d := mkDeal (dl_ID d) (dl_TenantID d) (dl_PipelineID d) (dl_StageID d)
  v (dl_Title d) (dl_Value d) (dl_Currency d) (dl_AssignedTo d) (dl_SectorID d)
  (dl_ConversationIDs d) (dl_Tags d) (dl_Source d) (dl_Status d) (dl_LostReason d)
  (dl_ExpectedCloseDate d) (dl_StageChangedAt d) (dl_ClosedAt d) (dl_Items d) (dl_CreatedAt d)
  (dl_UpdatedAt d).
Definition set_dl_Title v d := mkDeal (dl_ID d) (dl_TenantID d) (dl_PipelineID d) (dl_StageID d)
  (dl_ContactID d) v (dl_Value d) (dl_Currency d) (dl_AssignedTo d) (dl_SectorID d)
  (dl_ConversationIDs d) (dl_Tags d) (dl_Source d) (dl_Status d) (dl_LostReason d)
  (dl_ExpectedCloseDate d) (dl_StageChangedAt d) (dl_ClosedAt d) (dl_Items d) (dl_CreatedAt d)
  (dl_UpdatedAt d).
Definition set_dl_Value v d := mkDeal (dl_ID d) (dl_TenantID d) (dl_PipelineID d) (dl_StageID d)
  (dl_ContactID d) (dl_Title d) v (dl_Currency d) (dl_AssignedTo d) (dl_SectorID d)
  (dl_ConversationIDs d) (dl_Tags d) (dl_Source d) (dl_Status d) (dl_LostReason d)
  (dl_ExpectedCloseDate d) (dl_StageChangedAt d) (dl_ClosedAt d) (dl_Items d) (dl_CreatedAt d)
  (dl_UpdatedAt d).
Definition set_dl_Currency v d := mkDeal (dl_ID d) (dl_TenantID d) (dl_PipelineID d) (dl_StageID d)
  (dl_ContactID d) (dl_Title d) (dl_Value d) v (dl_AssignedTo d) (dl_SectorID d)
  (dl_ConversationIDs d) (dl_Tags d) (dl_Source d) (dl_Status d) (dl_LostReason d)
  (dl_ExpectedCloseDate d) (dl_StageChangedAt d) (dl_ClosedAt d) (dl_Items d) (dl_CreatedAt d)
  (dl_UpdatedAt d).
Definition set_dl_AssignedTo v d := mkDeal (dl_ID d) (dl_TenantID d) (dl_PipelineID d)
  (dl_StageID d) (dl_ContactID d) (dl_Title d) (dl_Value d) (dl_Currency d) v (dl_SectorID d)
  (dl_ConversationIDs d) (dl_Tags d) (dl_Source d) (dl_Status d) (dl_LostReason d)
  (dl_ExpectedCloseDate d) (dl_StageChangedAt d) (dl_ClosedAt d) (dl_Items d) (dl_CreatedAt d)
  (dl_UpdatedAt d).
Definition set_dl_SectorID v d := mkDeal (dl_ID d) (dl_TenantID d) (dl_PipelineID d) (dl_StageID d)
  (dl_ContactID d) (dl_Title d) (dl_Value d) (dl_Currency d) (dl_AssignedTo d) v
  (dl_ConversationIDs d) (dl_Tags d) (dl_Source d) (dl_Status d) (dl_LostReason d)
  (dl_ExpectedCloseDate d) (dl_StageChangedAt d) (dl_ClosedAt d) (dl_Items d) (dl_CreatedAt d)
  (dl_UpdatedAt d).
Definition set_dl_ConversationIDs v d := mkDeal (dl_ID d) (dl_TenantID d) (dl_PipelineID d)
  (dl_StageID d) (dl_ContactID d) (dl_Title d) (dl_Value d) (dl_Currency d) (dl_AssignedTo d)
  (dl_SectorID d) v (dl_Tags d) (dl_Source d) (dl_Status d) (dl_LostReason d)
  (dl_ExpectedCloseDate d) (dl_StageChangedAt d) (dl_ClosedAt d) (dl_Items d) (dl_CreatedAt d)
  (dl_UpdatedAt d).
Definition set_dl_Tags v d := mkDeal (dl_ID d) (dl_TenantID d) (dl_PipelineID d) (dl_StageID d)
  (dl_ContactID d) (dl_Title d) (dl_Value d) (dl_Currency d) (dl_AssignedTo d) (dl_SectorID d)
  (dl_ConversationIDs d) v (dl_Source d) (dl_Status d) (dl_LostReason d) (dl_ExpectedCloseDate d)
  (dl_StageChangedAt d) (dl_ClosedAt d) (dl_Items d) (dl_CreatedAt d) (dl_UpdatedAt d).
Definition set_dl_Source v d := mkDeal (dl_ID d) (dl_TenantID d) (dl_PipelineID d) (dl_StageID d)
  (dl_ContactID d) (dl_Title d) (dl_Value d) (dl_Currency d) (dl_AssignedTo d) (dl_SectorID d)
  (dl_ConversationIDs d) (dl_Tags d) v (dl_Status d) (dl_LostReason d) (dl_ExpectedCloseDate d)
  (dl_StageChangedAt d) (dl_ClosedAt d) (dl_Items d) (dl_CreatedAt d) (dl_UpdatedAt d).
Definition set_dl_Status v d := mkDeal (dl_ID d) (dl_TenantID d) (dl_PipelineID d) (dl_StageID d)
  (dl_ContactID d) (dl_Title d) (dl_Value d) (dl_Currency d) (dl_AssignedTo d) (dl_SectorID d)
  (dl_ConversationIDs d) (dl_Tags d) (dl_Source d) v (dl_LostReason d) (dl_ExpectedCloseDate d)
  (dl_StageChangedAt d) (dl_ClosedAt d) (dl_Items d) (dl_CreatedAt d) (dl_UpdatedAt d).
Definition set_dl_LostReason v d := mkDeal (dl_ID d) (dl_TenantID d) (dl_PipelineID d)
  (dl_StageID d) (dl_ContactID d) (dl_Title d) (dl_Value d) (dl_Currency d) (dl_AssignedTo d)
  (dl_SectorID d) (dl_ConversationIDs d) (dl_Tags d) (dl_Source d) (dl_Status d) v
  (dl_ExpectedCloseDate d) (dl_StageChangedAt d) (dl_ClosedAt d) (dl_Items d) (dl_CreatedAt d)
  (dl_UpdatedAt d).
Definition set_dl_ExpectedCloseDate v d := mkDeal (dl_ID d) (dl_TenantID d) (dl_PipelineID d)
  (dl_StageID d) (dl_ContactID d) (dl_Title d) (dl_Value d) (dl_Currency d) (dl_AssignedTo d)
  (dl_SectorID d) (dl_ConversationIDs d) (dl_Tags d) (dl_Source d) (dl_Status d) (dl_LostReason d) v
  (dl_StageChangedAt d) (dl_ClosedAt d) (dl_Items d) (dl_CreatedAt d) (dl_UpdatedAt d).
Definition set_dl_StageChangedAt v d := mkDeal (dl_ID d) (dl_TenantID d) (dl_PipelineID d)
  (dl_StageID d) (dl_ContactID d) (dl_Title d) (dl_Value d) (dl_Currency d) (dl_AssignedTo d)
  (dl_SectorID d) (dl_ConversationIDs d) (dl_Tags d) (dl_Source d) (dl_Status d) (dl_LostReason d)
  (dl_ExpectedCloseDate d) v (dl_ClosedAt d) (dl_Items d) (dl_CreatedAt d) (dl_UpdatedAt d).
Definition set_dl_ClosedAt v d := mkDeal (dl_ID d) (dl_TenantID d) (dl_PipelineID d) (dl_StageID d)
  (dl_ContactID d) (dl_Title d) (dl_Value d) (dl_Currency d) (dl_AssignedTo d) (dl_SectorID d)
  (dl_ConversationIDs d) (dl_Tags d) (dl_Source d) (dl_Status d) (dl_LostReason d)
  (dl_ExpectedCloseDate d) (dl_StageChangedAt d) v (dl_Items d) (dl_CreatedAt d) (dl_UpdatedAt d).
Definition set_dl_Items v d := mkDeal (dl_ID d) (dl_TenantID d) (dl_PipelineID d) (dl_StageID d)
  (dl_ContactID d) (dl_Title d) (dl_Value d) (dl_Currency d) (dl_AssignedTo d) (dl_SectorID d)
  (dl_ConversationIDs d) (dl_Tags d) (dl_Source d) (dl_Status d) (dl_LostReason d)
  (dl_ExpectedCloseDate d) (dl_StageChangedAt d) (dl_ClosedAt d) v (dl_CreatedAt d)
  (dl_UpdatedAt d).
Definition set_dl_UpdatedAt v d := mkDeal (dl_ID d) (dl_TenantID d) (dl_PipelineID d) (dl_StageID d)
  (dl_ContactID d) (dl_Title d) (dl_Value d) (dl_Currency d) (dl_AssignedTo d) (dl_SectorID d)
  (dl_ConversationIDs d) (dl_Tags d) (dl_Source d) (dl_Status d) (dl_LostReason d)
  (dl_ExpectedCloseDate d) (dl_StageChangedAt d) (dl_ClosedAt d) (dl_Items d) (dl_CreatedAt d) v.

Definition set_dit_Quantity v i :=
  mkDealItem (dit_ID i) (dit_ProductID i) (dit_Name i) v (dit_UnitPrice i) (dit_Total i).
Definition set_dit_UnitPrice v i :=
  mkDealItem (dit_ID i) (dit_ProductID i) (dit_Name i) (dit_Quantity i) v (dit_Total i).
Definition set_dit_Total v i :=
  mkDealItem (dit_ID i) (dit_ProductID i) (dit_Name i) (dit_Quantity i) (dit_UnitPrice i) v.

(** The loop of [RecalcValue]: every total, and their running sum. *)
Definition item_total (i : DealItem) : float64 := fmul (of_int (dit_Quantity i)) (dit_UnitPrice i).
Definition totalled (i : DealItem) : DealItem := set_dit_Total (item_total i) i.
Definition items_sum (items : list DealItem) : float64 :=
  fold_left (fun sum i => fadd sum (item_total i)) items fzero.

Definition RecalcValue (d : Deal) : Deal :=
  set_dl_Value (items_sum (dl_Items d)) (set_dl_Items (map totalled (dl_Items d)) d).

Fixpoint item_index (items : list DealItem) (id : string) : option nat :=
  match items with
  | [] => None
  | i :: items => if dit_ID i =! id then Some O else S <$> item_index items id
  end.
Definition FindItem (d : Deal) (itemID : string) : option nat := item_index (dl_Items d) itemID.

Definition HasConversation (d : Deal) (conversationID : string) : bool :=
  existsb (fun id => id =! conversationID) (dl_ConversationIDs d).
Definition HasTag (d : Deal) (tagID : string) : bool := existsb (fun id => id =! tagID) (dl_Tags d).

(** ** Contracts (contracts/dtos.go, events.go) *)

Record CreateDeal := mkCreateDeal {
  cd_Title : string; cd_Value : float64; cd_Currency : string; cd_PipelineID : string;
  cd_StageID : string; cd_ContactID : string; cd_AssignedTo : string; cd_SectorID : string;
  cd_Source : string; cd_ExpectedCloseDate : option Time; cd_Tags : list string }.

Record UpdateDeal := mkUpdateDeal {
  ud_Title : option string; ud_Value : option float64; ud_Currency : option string;
  ud_ContactID : option string; ud_AssignedTo : option string; ud_SectorID : option string;
  ud_Source : option string; ud_ExpectedCloseDate : option Time; ud_ClearExpectedDate : bool;
  ud_Tags : option (list string) }.

Record FromConversation := mkFromConversation {
  fc_ConversationID : string; fc_Title : string; fc_Value : float64; fc_Currency : string }.

Record DealFilter := mkDealFilter {
  df_PipelineID : string; df_StageID : string; df_AssignedTo : string; df_ContactID : string;
  df_Status : string; df_Q : string; df_TagID : string }.

Record DealVisibility := mkDealVisibility { dv_All : bool; dv_SectorIDs : list string; dv_UserID : string }.

Record ConversationRef := mkConversationRef {
  cr_ContactID : string; cr_SectorID : string; cr_AssignedTo : string }.

Record AddItemCmd := mkAddItem { ai_ProductID : string; ai_Quantity : Z }.
Record UpdateItemCmd := mkUpdateItem { upi_Quantity : option Z; upi_UnitPrice : option float64 }.
Record ProductRef := mkProductRef {
  pdr_Name : string; pdr_Price : float64; pdr_Currency : string; pdr_Active : bool }.

(** The data of a timeline event holds texts, counts and amounts. *)
Inductive TlValue := TlStr (s : string) | TlInt (z : Z) | TlFloat (x : float64).

Record TimelineEvent := mkTimelineEvent {
  tl_DealID : string; tl_Kind : string; tl_ActorID : string; tl_Data : list (string * TlValue) }.

Definition TimelineDealCreated : string := "deal_created".
Definition TimelineStageChanged : string := "stage_changed".
Definition TimelineValueChanged : string := "value_changed".
Definition TimelineAssignedChanged : string := "assigned_changed".
Definition TimelineWon : string := "won".
Definition TimelineLost : string := "lost".
Definition TimelineProductAdded : string := "product_added".
Definition TimelineProductRemoved : string := "product_removed".
Definition TimelineTagAdded : string := "tag_added".
Definition TimelineTagRemoved : string := "tag_removed".

Definition RealtimeDealStageChanged : string := "deal.stage_changed".
Definition RealtimeDealCreated : string := "deal.created".
Definition RealtimeDealUpdated : string := "deal.updated".

Record DealEvent := mkDealEvent {
  de_DealID : string; de_PipelineID : string; de_FromStageID : string; de_ToStageID : string;
  de_Status : string; de_MovedBy : string; de_AssignedTo : string }.

(** ** The ports and the wiring (service/deal_service.go) *)

Record DealPublish := mkDealPublish { dpb_Topic : string; dpb_Event : string; dpb_Data : DealEvent }.

Inductive DealPort : Type -> Type :=
| DlInfra {R} (e : Infra R) : DealPort R
| DlPipe {R} (e : PipePort R) : DealPort R
| DealCreate (d : Deal) : DealPort (result unit)
| DealUpdate (d : Deal) : DealPort (result unit)
| DealDelete (id : string) : DealPort (result unit)
| DealFindByID (id : string) : DealPort (result Deal)
| DealList (f : DealFilter) (v : DealVisibility) (p : PageRequest) : DealPort (result (list Deal))
| CountByStage (pipelineID stageID : string) : DealPort (result Z)
| FindByConversation (conversationID : string) : DealPort (result (list Deal))
| DlConversation (conversationID : string) : DealPort (result ConversationRef)
| ContactExists (contactID : string) : DealPort (result bool)
| ValidateTags (tagIDs : list string) : DealPort (result unit)
| SectorAgents (sectorID : string) : DealPort (result (list string))
| Product (productID : string) : DealPort (result ProductRef)
| ProductsEnabled : DealPort (result bool)
| DlPublish (e : DealPublish) : DealPort (result unit)
| DlPublishBatch (es : list DealPublish) : DealPort (result unit)
| Timeline (e : TimelineEvent) : DealPort unit.

#[export] Instance deal_infra : Embed Infra DealPort := @DlInfra.
#[export] Instance deal_own : Embed DealPort DealPort := fun R e => e.

(** Which of the optional dependencies are wired. *)
Record DealService := mkDealService {
  ds_conversations : bool; ds_contacts : bool; ds_tags : bool; ds_audience : bool;
  ds_batch_publisher : bool; ds_timeline : bool; ds_products : bool; ds_gate : bool }.

Abbreviation DlM := (prog Ctx DealPort).

(** A call of the pipelines service. *)
Definition pipe {A} (m : PpM A) : DlM A := lift (@DlPipe) m.

(** ** Helpers *)

Section Service.
Context (s : DealService).

(** [if v < 0], for a value given. *)
Definition negative (v : float64) : bool := fltb v fzero.

Definition currencyOr (c : string) : string :=
  let c := trim_space c in
  if c =! "" then DefaultCurrency else c.

Definition dealActor (c : Ctx) : string :=
  match FromContext c with
  | Some ac => if ac_UserID ac <>! "" then ac_UserID ac else "system"
  | None => "system"
  end.

Definition applyStage (st : Stage) (now : Time) (d : Deal) : Deal :=
  let d := set_dl_StageChangedAt now (set_dl_StageID (stg_ID st) d) in
  if stg_IsWon st then set_dl_ClosedAt (Some now) (set_dl_Status StatusWon d)
  else if stg_IsLost st then set_dl_ClosedAt (Some now) (set_dl_Status StatusLost d)
  else set_dl_ClosedAt None (set_dl_Status StatusOpen d).

Definition findStage (pl : Pipeline) (stageID : string) : option Stage :=
  match StageIndex pl stageID with
  | Some i => pp_Stages pl !! i
  | None => None
  end.

Definition lostStage (pl : Pipeline) : option Stage := List.find stg_IsLost (pp_Stages pl).

Definition dedupeNonEmpty (l : list string) : list string :=
  dedupe_from (fun v => v <>! "") ∅ (map trim_space l).

Definition audit (c : Ctx) (action id : string) : DlM unit :=
  do! ask c (AuditRecord (mkAudit action "deal" id [])) in
  Ret tt.

Definition auditMove (c : Ctx) (id movedBy : string) : DlM unit :=
  do! ask c (AuditRecord (mkAudit "deal.stage_moved" "deal" id [("moved_by", VStr movedBy)])) in
  Ret tt.

(** [shared.PublishAll]. *)
Definition PublishAll (c : Ctx) (events : list DealPublish) : DlM unit :=
  if (length events =? 0)%nat then Ret tt
  else if ds_batch_publisher s then do! ask c (DlPublishBatch events) in Ret tt
  else for_each events (fun e => do! ask c (DlPublish e) in Ret tt).

Definition deal_event (d : Deal) (fromStageID movedBy : string) : DealEvent :=
  mkDealEvent (dl_ID d) (dl_PipelineID d) fromStageID (dl_StageID d) (dl_Status d) movedBy (dl_AssignedTo d).

Definition publishDeal (c : Ctx) (d : Deal) (event fromStageID movedBy : string) : DlM unit :=
  PublishAll c (map (fun topic => mkDealPublish topic event (deal_event d fromStageID movedBy))
    (DealTopicsFor (dl_TenantID d) (dl_SectorID d) (dl_AssignedTo d))).

Definition recordTimeline (c : Ctx) (dealID kind actor : string) (data : list (string * TlValue)) : DlM unit :=
  if ds_timeline s then ask c (Timeline (mkTimelineEvent dealID kind actor data)) else Ret tt.

Definition recordStageMove (c : Ctx) (d : Deal) (fromStageID fromStatus actor : string) : DlM unit :=
  do! (if fromStageID <>! dl_StageID d then
         recordTimeline c (dl_ID d) TimelineStageChanged actor
           [("from_stage_id", TlStr fromStageID); ("to_stage_id", TlStr (dl_StageID d))]
       else Ret tt) in
  if (dl_Status d =! StatusWon) && (fromStatus <>! StatusWon) then
    recordTimeline c (dl_ID d) TimelineWon actor [("stage_id", TlStr (dl_StageID d))]
  else if (dl_Status d =! StatusLost) && (fromStatus <>! StatusLost) then
    recordTimeline c (dl_ID d) TimelineLost actor [("stage_id", TlStr (dl_StageID d))]
  else Ret tt.

Definition recordItem (c : Ctx) (d : Deal) (kind : string) (i : DealItem) : DlM unit :=
  recordTimeline c (dl_ID d) kind (dealActor c)
    [("product_id", TlStr (dit_ProductID i)); ("name", TlStr (dit_Name i));
     ("quantity", TlInt (dit_Quantity i)); ("total", TlFloat (dit_Total i))].

(** The pipeline asked for, or the default one, with its stages in order; then the stage asked
    for, or the first one. *)
Definition resolvePipelineStage (c : Ctx) (pipelineID stageID : string) : DlM (result (Pipeline * Stage)) :=
  try! pl := (if blank pipelineID then pipe (Pipelines.Default c) else pipe (Pipelines.Get c pipelineID)) in
  let pl := SortStages pl in
  match pp_Stages pl with
  | [] => Ret (Err (Validation "the pipeline has no stages"))
  | first :: _ =>
      if blank stageID then Ret (Ok (pl, first))
      else
        match findStage pl stageID with
        | None => Ret (Err (Validation "the stage does not belong to the pipeline"))
        | Some stage => Ret (Ok (pl, stage))
        end
  end.

Definition requireContact (c : Ctx) (contactID : string) : DlM (result unit) :=
  let contactID := trim_space contactID in
  if (contactID =! "") || negb (ds_contacts s) then Ret (Ok tt)
  else
    try! ok := ask c (ContactExists contactID) in
    if ok : bool then Ret (Ok tt) else Ret (Err (Validation "contact not found")).

Definition validateTags (c : Ctx) (tagIDs : list string) : DlM (result (list string)) :=
  let cleaned := dedupeNonEmpty tagIDs in
  if (length cleaned =? 0)%nat then Ret (Ok [])
  else
    try! _ := (if ds_tags s then ask c (ValidateTags cleaned) else Ret (Ok tt)) in
    Ret (Ok cleaned).

Definition visibility (c : Ctx) : result DealVisibility :=
  match FromContext c with
  | None => Err (Unauthorized "authentication required")
  | Some ac => Ok (mkDealVisibility (ac_SectorScope ac =! ScopeAll) (ac_SectorIDs ac) (ac_UserID ac))
  end.

Definition requireProducts (c : Ctx) : DlM (result unit) :=
  try! _ := Ret (RequireTenant c) in
  if negb (ds_gate s) then Ret (Ok tt)
  else
    try! on := ask c ProductsEnabled in
    if on : bool then Ret (Ok tt)
    else Ret (Err (Conflict "the products module is disabled for this tenant")).

Definition moveAudience (c : Ctx) (d : Deal) : DlM (list string) :=
  if dl_AssignedTo d <>! "" then Ret [dl_AssignedTo d]
  else if (dl_SectorID d <>! "") && ds_audience s then
    let! r := ask c (SectorAgents (dl_SectorID d)) in
    Ret (match r with Ok ids => ids | Err _ => [] end)
  else Ret [].

Definition notifyMoved (c : Ctx) (d : Deal) (stageName : string) : DlM unit :=
  let! recipients := moveAudience c d in
  let link := "/crm?deal=" +:+ dl_ID d +:+ "&pipeline=" +:+ dl_PipelineID d +:+ "&stage=" +:+ dl_StageID d in
  let body := dl_Title d +:+ " → " +:+ stageName in
  for_each recipients (fun uid =>
    ask c (Notify (mkNotify (dl_TenantID d) uid "deal.stage_moved_by_automation"
      "Um card do CRM foi movido automaticamente" body link))).

(** ** The operations *)

(** From a changed deal on: the store, then what [k] does of it. *)
Definition stored {A} (c : Ctx) (d : Deal) (k : DlM (result A)) : DlM (result A) :=
  try! _ := ask c (DealUpdate d) in k.

(** [d.UpdatedAt = s.clock.Now()] and the store. *)
Definition touch {A} (c : Ctx) (d : Deal) (k : Deal -> DlM (result A)) : DlM (result A) :=
  let! now := ask c Now in
  let d := set_dl_UpdatedAt now d in
  stored c d (k d).

Definition Create (c : Ctx) (cmd : CreateDeal) : DlM (result Deal) :=
  try! tenantID := Ret (RequireTenant c) in
  if blank (cd_Title cmd) then Ret (Err (Validation "title is required"))
  else if negative (cd_Value cmd) then Ret (Err (Validation "value must be >= 0"))
  else
    try! ps := resolvePipelineStage c (cd_PipelineID cmd) (cd_StageID cmd) in
    try! _ := requireContact c (cd_ContactID cmd) in
    try! tags := validateTags c (cd_Tags cmd) in
    let! now := ask c Now in
    let! id := ask c NewID in
    let d := mkDeal id tenantID (pp_ID ps.1) "" (trim_space (cd_ContactID cmd)) (trim_space (cd_Title cmd))
      (cd_Value cmd) (currencyOr (cd_Currency cmd)) (trim_space (cd_AssignedTo cmd))
      (trim_space (cd_SectorID cmd)) [] tags (trim_space (cd_Source cmd)) "" ""
      (cd_ExpectedCloseDate cmd) 0 None [] now now in
    let d := applyStage ps.2 now d in
    try! _ := ask c (DealCreate d) in
    do! audit c "deal.created" (dl_ID d) in
    do! publishDeal c d RealtimeDealCreated "" "" in
    do! recordTimeline c (dl_ID d) TimelineDealCreated (dealActor c)
      [("title", TlStr (dl_Title d)); ("value", TlFloat (dl_Value d)); ("stage_id", TlStr (dl_StageID d))] in
    Ret (Ok d).

Definition LinkConversation (c : Ctx) (dealID conversationID : string) : DlM (result Deal) :=
  try! _ := Ret (RequireTenant c) in
  let conversationID := trim_space conversationID in
  if conversationID =! "" then Ret (Err (Validation "conversation_id is required"))
  else
    try! d := ask c (DealFindByID dealID) in
    if HasConversation d conversationID then Ret (Ok d)
    else
      touch c (set_dl_ConversationIDs (dl_ConversationIDs d ++ [conversationID]) d) (fun d =>
        do! audit c "deal.conversation_linked" (dl_ID d) in
        Ret (Ok d)).

Definition CreateFromConversation (c : Ctx) (cmd : FromConversation) : DlM (result Deal) :=
  try! _ := Ret (RequireTenant c) in
  if negb (ds_conversations s) then Ret (Err (Integration "conversation lookup is not configured"))
  else
    let convID := trim_space (fc_ConversationID cmd) in
    if convID =! "" then Ret (Err (Validation "conversation_id is required"))
    else
      try! conv := ask c (DlConversation convID) in
      let title := trim_space (fc_Title cmd) in
      let title := if title =! "" then "Oportunidade" else title in
      try! d := Create c (mkCreateDeal title (fc_Value cmd) (fc_Currency cmd) "" "" (cr_ContactID conv)
                            (cr_AssignedTo conv) (cr_SectorID conv) "" None []) in
      LinkConversation c (dl_ID d) convID.

Definition Get (c : Ctx) (id : string) : DlM (result Deal) :=
  try! _ := Ret (RequireTenant c) in
  ask c (DealFindByID id).

Definition List_ (c : Ctx) (f : DealFilter) (page : PageRequest) : DlM (result (list Deal)) :=
  try! _ := Ret (RequireTenant c) in
  try! vis := Ret (visibility c) in
  ask c (DealList f vis (Normalize page)).

(** An edit of [Update]: a field given is validated and assigned, or stops the update. *)
Definition edit {A} (o : option A) (f : A -> DlM (result (Deal -> Deal))) (d : Deal) : DlM (result Deal) :=
  match o with
  | None => Ret (Ok d)
  | Some a => try! g := f a in Ret (Ok (g d))
  end.

Definition edit_title (title : string) : DlM (result (Deal -> Deal)) :=
  if blank title then Ret (Err (Validation "title is required")) else Ret (Ok (set_dl_Title (trim_space title))).

(** With items present the value is theirs: the one given is dropped. *)
Definition edit_value (v : float64) : DlM (result (Deal -> Deal)) :=
  if negative v then Ret (Err (Validation "value must be >= 0"))
  else Ret (Ok (fun d => if (length (dl_Items d) =? 0)%nat then set_dl_Value v d else d)).

Definition edit_contact (c : Ctx) (contactID : string) : DlM (result (Deal -> Deal)) :=
  let contactID := trim_space contactID in
  try! _ := requireContact c contactID in
  Ret (Ok (set_dl_ContactID contactID)).

Definition edit_tags (c : Ctx) (tagIDs : list string) : DlM (result (Deal -> Deal)) :=
  try! tags := validateTags c tagIDs in
  Ret (Ok (set_dl_Tags tags)).

(** The fields assigned as they are given. *)
Definition edit_plain (cmd : UpdateDeal) (d : Deal) : Deal :=
  let d := assign (ud_AssignedTo cmd) (fun v => set_dl_AssignedTo (trim_space v)) d in
  let d := assign (ud_SectorID cmd) (fun v => set_dl_SectorID (trim_space v)) d in
  let d := assign (ud_Source cmd) (fun v => set_dl_Source (trim_space v)) d in
  if ud_ClearExpectedDate cmd then set_dl_ExpectedCloseDate None d
  else assign (ud_ExpectedCloseDate cmd) (fun v => set_dl_ExpectedCloseDate (Some v)) d.

Definition edited (c : Ctx) (cmd : UpdateDeal) (d : Deal) : DlM (result Deal) :=
  try! d := edit (ud_Title cmd) edit_title d in
  try! d := edit (ud_Value cmd) edit_value d in
  let d := assign (ud_Currency cmd) (fun v => set_dl_Currency (currencyOr v)) d in
  try! d := edit (ud_ContactID cmd) (edit_contact c) d in
  let d := edit_plain cmd d in
  edit (ud_Tags cmd) (edit_tags c) d.

Definition given {A} (o : option A) : bool := match o with Some _ => true | None => false end.

Definition Update (c : Ctx) (id : string) (cmd : UpdateDeal) : DlM (result Deal) :=
  try! _ := Ret (RequireTenant c) in
  try! old := ask c (DealFindByID id) in
  try! d := edited c cmd old in
  touch c d (fun d =>
    do! audit c "deal.updated" (dl_ID d) in
    do! publishDeal c d RealtimeDealUpdated "" "" in
    do! (if given (ud_Value cmd) && fne (dl_Value d) (dl_Value old) then
           recordTimeline c (dl_ID d) TimelineValueChanged (dealActor c)
             [("from", TlFloat (dl_Value old)); ("to", TlFloat (dl_Value d))]
         else Ret tt) in
    do! (if given (ud_AssignedTo cmd) && (dl_AssignedTo d <>! dl_AssignedTo old) then
           recordTimeline c (dl_ID d) TimelineAssignedChanged (dealActor c)
             [("from", TlStr (dl_AssignedTo old)); ("to", TlStr (dl_AssignedTo d))]
         else Ret tt) in
    Ret (Ok d)).

Definition AssignTo (c : Ctx) (dealID userID : string) : DlM (result Deal) :=
  Update c dealID (mkUpdateDeal None None None None (Some (trim_space userID)) None None None false None).

Definition MoveStage (c : Ctx) (dealID stageID : string) : DlM (result Deal) :=
  try! _ := Ret (RequireTenant c) in
  try! old := ask c (DealFindByID dealID) in
  try! pl := pipe (Pipelines.Get c (dl_PipelineID old)) in
  match findStage pl stageID with
  | None => Ret (Err (Validation "the stage does not belong to the deal's pipeline"))
  | Some stage =>
      let! now := ask c Now in
      touch c (applyStage stage now old) (fun d =>
        do! auditMove c (dl_ID d) "user" in
        do! publishDeal c d RealtimeDealStageChanged (dl_StageID old) "user" in
        do! recordStageMove c d (dl_StageID old) (dl_Status old) (dealActor c) in
        Ret (Ok d))
  end.

(** A deal the loop of [AutomationMoveDealStage] passes over. *)
Definition left_alone (pipelineID stageID : string) (d : Deal) : bool :=
  (pipelineID <>! "") && (dl_PipelineID d <>! pipelineID) || (dl_StageID d =! stageID).

(** The body of the loop for the other deals. *)
Definition automation_move (c : Ctx) (stageID : string) (old : Deal) : DlM (result unit) :=
  try! pl := pipe (Pipelines.Get c (dl_PipelineID old)) in
  match findStage pl stageID with
  | None => Ret (Err (Validation "the stage does not belong to the deal's pipeline"))
  | Some stage =>
      let! now := ask c Now in
      let d := set_dl_UpdatedAt now (applyStage stage now old) in
      stored c d (
        do! auditMove c (dl_ID d) "automation" in
        do! publishDeal c d RealtimeDealStageChanged (dl_StageID old) "automation" in
        do! recordStageMove c d (dl_StageID old) (dl_Status old) "automation" in
        do! notifyMoved c d (stg_Name stage) in
        Ret (Ok tt))
  end.

Fixpoint automation_moves (c : Ctx) (pipelineID stageID : string) (deals : list Deal) : DlM (result unit) :=
  match deals with
  | [] => Ret (Ok tt)
  | d :: deals =>
      if left_alone pipelineID stageID d then automation_moves c pipelineID stageID deals
      else
        try! _ := automation_move c stageID d in
        automation_moves c pipelineID stageID deals
  end.

Definition AutomationMoveDealStage (c : Ctx) (conversationID pipelineID stageID : string) : DlM (result unit) :=
  try! _ := Ret (RequireTenant c) in
  let conversationID := trim_space conversationID in
  let pipelineID := trim_space pipelineID in
  let stageID := trim_space stageID in
  if conversationID =! "" then Ret (Err (Validation "conversation_id is required"))
  else if stageID =! "" then Ret (Err (Validation "stage_id is required"))
  else
    try! deals := ask c (FindByConversation conversationID) in
    automation_moves c pipelineID stageID deals.

Definition AddTag (c : Ctx) (dealID tagID : string) : DlM (result Deal) :=
  try! _ := Ret (RequireTenant c) in
  let tagID := trim_space tagID in
  if tagID =! "" then Ret (Err (Validation "tag_id is required"))
  else
    try! d := ask c (DealFindByID dealID) in
    if HasTag d tagID then Ret (Ok d)
    else
      try! _ := validateTags c [tagID] in
      touch c (set_dl_Tags (dl_Tags d ++ [tagID]) d) (fun d =>
        do! audit c "deal.tagged" (dl_ID d) in
        do! publishDeal c d RealtimeDealUpdated "" "" in
        do! recordTimeline c (dl_ID d) TimelineTagAdded (dealActor c) [("tag_id", TlStr tagID)] in
        Ret (Ok d)).

Definition RemoveTag (c : Ctx) (dealID tagID : string) : DlM (result Deal) :=
  try! _ := Ret (RequireTenant c) in
  try! d := ask c (DealFindByID dealID) in
  if negb (HasTag d tagID) then Ret (Ok d)
  else
    touch c (set_dl_Tags (filter (fun id => id <> tagID) (dl_Tags d)) d) (fun d =>
      do! audit c "deal.untagged" (dl_ID d) in
      do! publishDeal c d RealtimeDealUpdated "" "" in
      do! recordTimeline c (dl_ID d) TimelineTagRemoved (dealActor c) [("tag_id", TlStr tagID)] in
      Ret (Ok d)).

Definition MarkLost (c : Ctx) (dealID reason : string) : DlM (result Deal) :=
  try! _ := Ret (RequireTenant c) in
  try! old := ask c (DealFindByID dealID) in
  try! pl := pipe (Pipelines.Get c (dl_PipelineID old)) in
  let! now := ask c Now in
  let d := match lostStage pl with
           | Some lost => applyStage lost now old
           | None => set_dl_ClosedAt (Some now) (set_dl_Status StatusLost old)
           end in
  let d := set_dl_UpdatedAt now (set_dl_LostReason (trim_space reason) d) in
  stored c d (
    do! audit c "deal.marked_lost" (dl_ID d) in
    do! publishDeal c d RealtimeDealStageChanged (dl_StageID old) "user" in
    do! recordStageMove c d (dl_StageID old) (dl_Status old) (dealActor c) in
    Ret (Ok d)).

(** ** Products *)

Definition saveItems (c : Ctx) (d : Deal) : DlM (result Deal) :=
  touch c (RecalcValue d) (fun d =>
    do! audit c "deal.updated" (dl_ID d) in
    do! publishDeal c d RealtimeDealUpdated "" "" in
    Ret (Ok d)).

Definition AddItem (c : Ctx) (dealID : string) (cmd : AddItemCmd) : DlM (result Deal) :=
  try! _ := requireProducts c in
  if ai_Quantity cmd <=? 0 then Ret (Err (Validation "quantity must be > 0"))
  else if negb (ds_products s) then Ret (Err (Integration "product catalog is not configured"))
  else
    try! d := ask c (DealFindByID dealID) in
    let productID := trim_space (ai_ProductID cmd) in
    try! p := ask c (Product productID) in
    if negb (pdr_Active p) then Ret (Err (Validation "the product is not active"))
    else
      let! id := ask c NewID in
      let item := mkDealItem id productID (pdr_Name p) (ai_Quantity cmd) (pdr_Price p) fzero in
      try! d := saveItems c (set_dl_Items (dl_Items d ++ [item]) d) in
      do! recordItem c d TimelineProductAdded item in
      Ret (Ok d).

Definition UpdateItem (c : Ctx) (dealID itemID : string) (cmd : UpdateItemCmd) : DlM (result Deal) :=
  try! _ := requireProducts c in
  try! d := ask c (DealFindByID dealID) in
  match FindItem d itemID with
  | None => Ret (Err (NotFound "item not found"))
  | Some i =>
      if from_option (fun q => q <=? 0) false (upi_Quantity cmd) then Ret (Err (Validation "quantity must be > 0"))
      else
        let d := assign (upi_Quantity cmd) (fun q => set_dl_Items (alter (set_dit_Quantity q) i (dl_Items d))) d in
        if from_option negative false (upi_UnitPrice cmd) then Ret (Err (Validation "unit_price must be >= 0"))
        else
          let d := assign (upi_UnitPrice cmd)
                     (fun p d => set_dl_Items (alter (set_dit_UnitPrice p) i (dl_Items d)) d) d in
          saveItems c d
  end.

Definition RemoveItem (c : Ctx) (dealID itemID : string) : DlM (result Deal) :=
  try! _ := requireProducts c in
  try! d := ask c (DealFindByID dealID) in
  match FindItem d itemID with
  | None => Ret (Err (NotFound "item not found"))
  | Some i =>
      match dl_Items d !! i with
      | None => Ret (Err (NotFound "item not found"))
      | Some removed =>
          try! d := saveItems c (set_dl_Items (delete i (dl_Items d)) d) in
          do! recordItem c d TimelineProductRemoved removed in
          Ret (Ok d)
      end
  end.

Definition Delete (c : Ctx) (id : string) : DlM (result unit) :=
  try! _ := Ret (RequireTenant c) in
  try! _ := ask c (DealFindByID id) in
  try! _ := ask c (DealDelete id) in
  do! audit c "deal.deleted" id in
  Ret (Ok tt).

Definition StageHasDeals (c : Ctx) (pipelineID stageID : string) : DlM (result bool) :=
  try! n := ask c (CountByStage pipelineID stageID) in
  Ret (Ok (0 <? n)).
End Service.

(** ** The store (infra/database/mongodb/repositories/deals) *)

(** What [Update] stores: everything but the identity and the creation. *)
Definition stored_deal (old new : Deal) : Deal :=
  mkDeal (dl_ID old) (dl_TenantID old) (dl_PipelineID new) (dl_StageID new) (dl_ContactID new)
    (dl_Title new) (dl_Value new) (dl_Currency new) (dl_AssignedTo new) (dl_SectorID new)
    (dl_ConversationIDs new) (dl_Tags new) (dl_Source new) (dl_Status new) (dl_LostReason new)
    (dl_ExpectedCloseDate new) (dl_StageChangedAt new) (dl_ClosedAt new) (dl_Items new)
    (dl_CreatedAt old) (dl_UpdatedAt new).
