(* ===== verification/DealProps.v ===== *)
(** * Sales deals: what is stored stays coherent, however the requests interleave *)
From S2P Require Import Prelude GoStrings AppError Authz Shared ConvEntity Prog Ports Money Pipelines Deals.

(** ** The store *)

(** The deals by tenant and id. *)
Abbreviation DealView :=
  (@gmap (string * string) (prod_eq_dec : EqDecision (string * string)) prod_countable Deal).

Definition dl_key (d : Deal) : string * string := (dl_TenantID d, dl_ID d).

(** A deal the tenant of a context holds. *)
Definition held (c : Ctx) (g : DealView) (d : Deal) : Prop :=
  exists tn, RequireTenant c = Ok tn /\ g !! (tn, dl_ID d) = Some d.

(** A price of the catalog, which its service and JSON keep a plain amount. *)
Definition price (x : float64) : bool := finite x && amount x.

(** The Mongo repository: an insert of a new key, an update and a removal of a stored document,
    each of which may fail before or after it took effect; reads answer from the tenant. *)
Definition deal_post (R : Type) (c : Ctx) (e : DealPort R) (g : DealView) (r : R) (g' : DealView) : Prop :=
  match e in DealPort R return R -> Prop with
  | DealCreate d => fun r =>
      g' = g /\ is_ok r = false \/ g !! dl_key d = None /\ g' = <[dl_key d := d]> g
  | DealUpdate d => fun r =>
      g' = g /\ is_ok r = false \/
      exists tn old, RequireTenant c = Ok tn /\ g !! (tn, dl_ID d) = Some old /\
        g' = <[(tn, dl_ID d) := stored_deal old d]> g
  | DealDelete id => fun r =>
      g' = g /\ is_ok r = false \/ exists tn, RequireTenant c = Ok tn /\ g' = delete (tn, id) g
  | DealFindByID id => fun r => g' = g /\ (forall d, r = Ok d -> held c g d /\ dl_ID d = id)
  | FindByConversation conv => fun r =>
      g' = g /\ forall l, r = Ok l ->
        NoDup (map dl_ID l) /\
        forall d, d ∈ l <-> held c g d /\ conv ∈ dl_ConversationIDs d
  | Product _ => fun r => g' = g /\ forall p, r = Ok p -> price (pdr_Price p) = true
  | _ => fun _ => g' = g
  end r.

Class DealStore {S} (h : handler Ctx DealPort S) (view : S -> DealView) : Prop := {
  deal_answers : forall R c (e : DealPort R) s,
    let '(r, s') := h R c e s in deal_post R c e (view s) r (view s');
}.

(** ** A coherent deal *)

(** A line: a positive quantity at a plain price, its total their product. *)
Record item_ok (i : DealItem) : Prop := {
  io_quantity : 0 < dit_Quantity i < 2 ^ 63;
  io_price : price (dit_UnitPrice i) = true;
  io_total : dit_Total i = item_total i;
}.

(** A deal: a title; closed exactly when it is won or lost; a value that is an amount, and that
    of its lines when it has any; no tag and no conversation twice. *)
Record deal_ok (d : Deal) : Prop := {
  do_title : dl_Title d <> "";
  do_lifecycle : dl_Status d = StatusOpen /\ dl_ClosedAt d = None \/
                 (dl_Status d = StatusWon \/ dl_Status d = StatusLost) /\ dl_ClosedAt d <> None;
  do_value : amount (dl_Value d) = true;
  do_items : Forall item_ok (dl_Items d);
  do_sum : dl_Items d <> [] -> dl_Value d = items_sum (dl_Items d);
  do_tags : NoDup (dl_Tags d);
  do_conversations : NoDup (dl_ConversationIDs d);
}.

(** [stored_deal] keeps the identity, which coherence does not speak of. *)
Lemma stored_deal_ok old d : deal_ok d -> deal_ok (stored_deal old d).
Proof. by intros []. Qed.

(** *** Values *)

Lemma item_total_amount q p : 0 < q < 2 ^ 63 -> price p = true -> amount (fmul (of_int q) p) = true.
Proof.
  intros Hq [Hf Ha]%andb_true_iff. apply fmul_amount; [|apply of_int_amount; lia|done|done].
  apply of_int_finite. lia.
Qed.

Lemma items_sum_amount items :
  Forall (fun i => amount (item_total i) = true) items -> amount (items_sum items) = true.
Proof.
  intros Hi. unfold items_sum. assert (amount fzero = true) as H0 by done. revert H0.
  generalize fzero. induction Hi as [|i items Ha _ IH]; intros x Hx; cbn; [done|].
  by apply IH, fadd_amount.
Qed.

Lemma totalled_total i : item_total (totalled i) = item_total i.
Proof. done. Qed.

Lemma items_sum_totalled items : items_sum (map totalled items) = items_sum items.
Proof.
  unfold items_sum. generalize fzero. induction items as [|i items IH]; intros x; cbn; [done|].
  by rewrite totalled_total, IH.
Qed.

(** Once its totals are computed again, a deal whose lines are fine is. *)
Definition line_ok (i : DealItem) : Prop := 0 < dit_Quantity i < 2 ^ 63 /\ price (dit_UnitPrice i) = true.

Lemma item_line i : item_ok i -> line_ok i.
Proof. by intros []. Qed.

Lemma recalculated_ok d : deal_ok d -> forall items, Forall line_ok items -> deal_ok (RecalcValue (set_dl_Items items d)).
Proof.
  intros [] items Hi. split; cbn; try done.
  - apply items_sum_amount. eapply Forall_impl; [exact Hi|]. intros i [? ?]. by apply item_total_amount.
  - apply Forall_fmap. eapply Forall_impl; [exact Hi|]. by intros i [? ?].
  - intros _. symmetry. apply items_sum_totalled.
Qed.

(** *** Stages *)

Lemma applyStage_ok st now d :
  dl_Title d <> "" -> amount (dl_Value d) = true -> Forall item_ok (dl_Items d) ->
  (dl_Items d <> [] -> dl_Value d = items_sum (dl_Items d)) -> NoDup (dl_Tags d) ->
  NoDup (dl_ConversationIDs d) -> deal_ok (applyStage st now d).
Proof.
  intros. unfold applyStage. destruct (stg_IsWon st), (stg_IsLost st); split; cbn; try done; naive_solver.
Qed.

Lemma moved_ok st now d : deal_ok d -> deal_ok (applyStage st now d).
Proof. intros []. by apply applyStage_ok. Qed.

(** ** The contract: coherent answers, coherent writes *)

Definition coherent_pre (R : Type) (c : Ctx) (e : DealPort R) (g : unit) : Prop :=
  match e with DealCreate d | DealUpdate d => deal_ok d | _ => True end.

Definition coherent_post (R : Type) (c : Ctx) (e : DealPort R) (g : unit) (r : R) (g' : unit) : Prop :=
  match e in DealPort R return R -> Prop with
  | DealFindByID _ => fun r => forall d, r = Ok d -> deal_ok d
  | FindByConversation _ => fun r => forall l, r = Ok l -> Forall deal_ok l
  | Product _ => fun r => forall p, r = Ok p -> price (pdr_Price p) = true
  | _ => fun _ => True
  end r.

Definition coherent : contract Ctx DealPort unit := pre_post coherent_pre coherent_post.

#[export] Instance coherent_mono : Monotone coherent.
Proof. apply pre_post_mono. Qed.

(** Every write of a program is coherent when what it read was. *)
Definition keeps {A} (m : DlM A) (P : A -> Prop) : Prop := forall g, wp coherent m (fun a _ => P a) g.
Abbreviation tidy m := (keeps m (fun _ => True)).

(** Calls that write no deal. *)
Definition no_write (R : Type) (c : Ctx) (e : DealPort R) : Prop :=
  match e with DealCreate _ | DealUpdate _ => False | _ => True end.

Lemma keeps_quiet {A} (m : DlM A) : calls no_write m -> tidy m.
Proof.
  intros Hm. induction m as [a|R c e k IH]; intros g; [done|]. destruct Hm as [He Hk].
  split; [by destruct e|]. intros r g' _. apply IH, Hk.
Qed.

Lemma tidy_bind {A B} (m : DlM A) (f : A -> DlM B) P Q :
  keeps m P -> (forall a, P a -> keeps (f a) Q) -> keeps (bind m f) Q.
Proof.
  intros Hm Hf g. apply wp_bind; [apply _|]. eapply wp_mono; [apply _| |apply Hm].
  intros a g' Ha. by apply Hf.
Qed.

Definition ok_sat {A} (P : A -> Prop) (r : result A) : Prop := match r with Ok a => P a | Err _ => True end.

Lemma keeps_bind_ok {A B} (m : DlM (result A)) (f : A -> DlM (result B)) P Q :
  keeps m (ok_sat P) -> (forall a, P a -> keeps (f a) (ok_sat Q)) -> keeps (bind_ok m f) (ok_sat Q).
Proof. intros Hm Hf. eapply tidy_bind; [exact Hm|]. intros [a|e] Ha; [by apply Hf|done]. Qed.

Lemma keeps_mono {A} (m : DlM A) (P Q : A -> Prop) : keeps m P -> (forall a, P a -> Q a) -> keeps m Q.
Proof. intros Hm HPQ g. eapply wp_mono; [apply _|intros a g'; apply HPQ|apply Hm]. Qed.

Lemma keeps_ret {A} (a : A) (P : A -> Prop) : P a -> keeps (Ret a) P.
Proof. by intros HP g. Qed.

(** A program that writes nothing, of which nothing is asked. *)
Lemma keeps_skip {A B} (m : DlM A) (f : A -> DlM B) Q :
  calls no_write m -> (forall a, keeps (f a) Q) -> keeps (bind m f) Q.
Proof. intros Hm Hf. eapply tidy_bind; [by apply keeps_quiet|]. intros a _. apply Hf. Qed.

Lemma keeps_skip_ok {A B} (m : DlM (result A)) (f : A -> DlM (result B)) Q :
  calls no_write m -> (forall a, keeps (f a) (ok_sat Q)) -> keeps (bind_ok m f) (ok_sat Q).
Proof. intros Hm Hf. apply keeps_skip; [done|]. intros [a|e]; [apply Hf|by apply keeps_ret]. Qed.

(** The calls that matter. *)
Lemma keeps_find c id : keeps (ask c (DealFindByID id)) (ok_sat deal_ok).
Proof. intros g. split; [done|]. intros [d|e] g' Hr; [by apply Hr|done]. Qed.

Lemma keeps_by_conversation c conv : keeps (ask c (FindByConversation conv)) (ok_sat (Forall deal_ok)).
Proof. intros g. split; [done|]. intros [d|e] g' Hr; [by apply Hr|done]. Qed.

Lemma keeps_product c id : keeps (ask c (Product id)) (ok_sat (fun p => price (pdr_Price p) = true)).
Proof. intros g. split; [done|]. intros [p|e] g' Hr; [by apply Hr|done]. Qed.

Lemma keeps_create c d : deal_ok d -> tidy (ask c (DealCreate d)).
Proof. by intros Hd g. Qed.

Lemma keeps_stored {A} c d (k : DlM (result A)) Q :
  deal_ok d -> keeps k (ok_sat Q) -> keeps (stored c d k) (ok_sat Q).
Proof.
  intros Hd Hk g. apply wp_bind_ok; [apply _|]. split; [done|]. intros [[]|e] g' _; [apply Hk|done].
Qed.

Lemma touched_ok now d : deal_ok d -> deal_ok (set_dl_UpdatedAt now d).
Proof. by intros []. Qed.

Lemma keeps_touch {A} c d (k : Deal -> DlM (result A)) Q :
  deal_ok d -> (forall now, keeps (k (set_dl_UpdatedAt now d)) (ok_sat Q)) -> keeps (touch c d k) (ok_sat Q).
Proof.
  intros Hd Hk. apply keeps_skip; [exact (conj I (fun _ => I))|]. intros now.
  apply keeps_stored; [by apply touched_ok|apply Hk].
Qed.

Ltac quiet_step := calls_step ltac:(exact I).

(** ** The operations keep deals coherent *)

(** What JSON can carry: finite amounts, 64-bit counts. *)
Definition opt_all {A} (P : A -> Prop) (o : option A) : Prop := forall a, o = Some a -> P a.

Section Operations.
Context (s : DealService).

Lemma dl_audit_quiet c a i : calls no_write (audit c a i).
Proof. unfold audit. by repeat quiet_step. Qed.
Lemma auditMove_quiet c i b : calls no_write (auditMove c i b).
Proof. unfold auditMove. by repeat quiet_step. Qed.
Lemma publishDeal_quiet c d e f b : calls no_write (publishDeal s c d e f b).
Proof. unfold publishDeal, PublishAll. by repeat quiet_step. Qed.
Lemma recordTimeline_quiet c d k a l : calls no_write (recordTimeline s c d k a l).
Proof. unfold recordTimeline. by repeat quiet_step. Qed.
Hint Resolve dl_audit_quiet auditMove_quiet publishDeal_quiet recordTimeline_quiet : calls.
Lemma recordStageMove_quiet c d f b a : calls no_write (recordStageMove s c d f b a).
Proof. unfold recordStageMove. by repeat quiet_step. Qed.
Lemma recordItem_quiet c d k i : calls no_write (recordItem s c d k i).
Proof. unfold recordItem. by repeat quiet_step. Qed.
Lemma notifyMoved_quiet c d n : calls no_write (notifyMoved s c d n).
Proof. unfold notifyMoved, moveAudience. by repeat quiet_step. Qed.
Lemma pipe_quiet {A} (m : PpM A) : calls no_write (pipe m).
Proof. apply calls_lift. induction m as [a|R c e k IH]; cbn; auto. Qed.
Hint Resolve recordStageMove_quiet recordItem_quiet notifyMoved_quiet pipe_quiet : calls.
Lemma requireContact_quiet c i : calls no_write (requireContact s c i).
Proof. unfold requireContact. by repeat quiet_step. Qed.
Lemma validateTags_quiet c l : calls no_write (validateTags s c l).
Proof. unfold validateTags. by repeat quiet_step. Qed.
Lemma resolve_quiet c p st : calls no_write (resolvePipelineStage c p st).
Proof. unfold resolvePipelineStage. by repeat quiet_step. Qed.
Lemma requireProducts_quiet c : calls no_write (requireProducts s c).
Proof. unfold requireProducts. by repeat quiet_step. Qed.
Hint Resolve requireContact_quiet validateTags_quiet resolve_quiet requireProducts_quiet : calls.

Lemma keeps_told {A} (m : DlM unit) (a : A) Q : calls no_write m -> Q a -> keeps (do! m in Ret (Ok a)) (ok_sat Q).
Proof. intros Hm HQ. apply keeps_skip; [done|]. intros _. by apply keeps_ret. Qed.

Lemma negative_amount v : finite v = true -> negative v = false -> amount v = true.
Proof. intros Hf [Ha| ->]%fltb_zero; done. Qed.

Lemma validated_tags c l : returns (ok_sat (fun tags => NoDup tags)) (validateTags s c l).
Proof.
  unfold validateTags. case_match; [constructor|]. apply returns_bind_ok; [done|]. intros _. apply dedupe_from_NoDup.
Qed.

Lemma keeps_tags c l : keeps (validateTags s c l) (ok_sat (fun tags => NoDup tags)).
Proof.
  intros g. eapply wp_mono; [apply _| |apply wp_returns; [apply _|apply (keeps_quiet _ (validateTags_quiet c l))|apply validated_tags]].
  by intros a g' [_ ?].
Qed.

Ltac skip := first [apply keeps_skip_ok; [by eauto with calls|] | apply keeps_skip_ok; [by repeat quiet_step|]].

Lemma Create_tidy c cmd : finite (cd_Value cmd) = true -> keeps (Create s c cmd) (ok_sat deal_ok).
Proof.
  intros Hf. unfold Create. destruct (RequireTenant c) as [tn|]; [|by apply keeps_ret]. cbn [bind_ok bind].
  destruct (blank (cd_Title cmd)) eqn:Ht; [by apply keeps_ret|].
  destruct (negative (cd_Value cmd)) eqn:Hn; [by apply keeps_ret|].
  skip; intros [pl st]. skip; intros _. eapply keeps_bind_ok; [apply keeps_tags|]. intros tags Htags.
  do 2 (apply keeps_skip; [exact (conj I (fun _ => I))|]; intros ?). cbn zeta.
  set (d := applyStage _ _ _).
  assert (deal_ok d) as Hd.
  { apply applyStage_ok; cbn; try done; [by apply trim_not_blank|by apply negative_amount|constructor]. }
  clearbody d. intros g. apply wp_bind_ok; [apply _|]. split; [done|]. intros [[]|e] g' _; [|done]. cbn [wp].
  revert g'. change (keeps (do! audit c "deal.created" (dl_ID d) in
    do! publishDeal s c d RealtimeDealCreated "" "" in
    do! recordTimeline s c (dl_ID d) TimelineDealCreated (dealActor c)
          [("title", TlStr (dl_Title d)); ("value", TlFloat (dl_Value d)); ("stage_id", TlStr (dl_StageID d))] in
    Ret (Ok d)) (ok_sat deal_ok)).
  do 2 (apply keeps_skip; [by eauto with calls|]; intros _). apply keeps_told; [by eauto with calls|done].
Qed.

Lemma existsb_elem (l : list string) x : existsb (fun y => y =! x) l = true <-> x ∈ l.
Proof. rewrite existsb_exists. setoid_rewrite bool_decide_eq_true. setoid_rewrite <- list_elem_of_In. naive_solver. Qed.

Lemma NoDup_snoc (l : list string) x : existsb (fun y => y =! x) l = false -> NoDup l -> NoDup (l ++ [x]).
Proof.
  intros Hx Hl. apply NoDup_app. split; [done|]. split; [|apply NoDup_singleton].
  intros y Hy ->%list_elem_of_singleton. apply existsb_elem in Hy. congruence.
Qed.

Lemma LinkConversation_tidy c id conv : keeps (LinkConversation c id conv) (ok_sat deal_ok).
Proof.
  unfold LinkConversation. skip; intros _. cbn zeta. case_match; [by apply keeps_ret|].
  eapply keeps_bind_ok; [apply keeps_find|]. intros d Hd. destruct (HasConversation _ _) eqn:Hc; [by apply keeps_ret|].
  assert (deal_ok (set_dl_ConversationIDs (dl_ConversationIDs d ++ [trim_space conv]) d)) as Hd'.
  { destruct Hd. split; try done. by apply NoDup_snoc. }
  apply keeps_touch; [done|]. intros now. apply keeps_told; [by eauto with calls|by apply touched_ok].
Qed.

Lemma CreateFromConversation_tidy c cmd :
  finite (fc_Value cmd) = true -> keeps (CreateFromConversation s c cmd) (ok_sat deal_ok).
Proof.
  intros Hf. unfold CreateFromConversation. skip; intros _. case_match; [by apply keeps_ret|]. cbn zeta.
  case_match; [by apply keeps_ret|]. skip; intros conv.
  eapply keeps_bind_ok; [by apply Create_tidy|]. intros d _. apply LinkConversation_tidy.
Qed.

(** An edit keeps what it does not assign. *)
Lemma keeps_edit {A} (o : option A) f d (P : Deal -> Prop) :
  P d -> (forall a, o = Some a -> keeps (f a) (ok_sat (fun g => P (g d)))) -> keeps (edit o f d) (ok_sat P).
Proof.
  intros Hd Hf. destruct o as [a|]; [|by apply keeps_ret]. cbn [edit].
  eapply keeps_bind_ok; [by apply Hf|]. intros g Hg. by apply keeps_ret.
Qed.

Lemma edit_plain_ok cmd d : deal_ok d -> deal_ok (edit_plain cmd d).
Proof.
  intros []. unfold edit_plain.
  destruct (ud_AssignedTo cmd), (ud_SectorID cmd), (ud_Source cmd), (ud_ClearExpectedDate cmd),
    (ud_ExpectedCloseDate cmd); by split.
Qed.

Lemma edited_tidy c cmd d :
  opt_all (fun v => finite v = true) (ud_Value cmd) -> deal_ok d -> keeps (edited s c cmd d) (ok_sat deal_ok).
Proof.
  intros Hv Hd. unfold edited. eapply keeps_bind_ok; [eapply keeps_edit; [exact Hd|]|intros d1 Hd1].
  { intros t _. unfold edit_title. destruct (blank t) eqn:Ht; apply keeps_ret; [done|].
    destruct Hd. split; try done. by apply trim_not_blank. }
  eapply keeps_bind_ok; [eapply keeps_edit; [exact Hd1|]|intros d2 Hd2].
  { intros v Hgiven. unfold edit_value. destruct (negative v) eqn:Hn; apply keeps_ret; [done|]. cbn.
    destruct (length (dl_Items d1) =? 0)%nat eqn:Hl; [|done]. destruct Hd1. split; try done.
    - cbn. apply negative_amount; [|done]. by apply Hv.
    - cbn. apply Nat.eqb_eq, nil_length_inv in Hl. by rewrite Hl. }
  cbn zeta. set (d3 := assign _ _ _).
  assert (deal_ok d3) as Hd3 by (unfold d3; destruct (ud_Currency cmd); [destruct Hd2; by split|done]).
  eapply keeps_bind_ok; [eapply keeps_edit; [exact Hd3|]|intros d4 Hd4].
  { intros i _. unfold edit_contact. cbn zeta. skip; intros _. apply keeps_ret. destruct Hd3. by split. }
  apply keeps_edit; [by apply edit_plain_ok|]. intros l _. unfold edit_tags.
  eapply keeps_bind_ok; [apply keeps_tags|]. intros tags Ht. apply keeps_ret.
  apply edit_plain_ok with (cmd := cmd) in Hd4 as []. by split.
Qed.

Lemma Update_tidy c id cmd :
  opt_all (fun v => finite v = true) (ud_Value cmd) -> keeps (Update s c id cmd) (ok_sat deal_ok).
Proof.
  intros Hv. unfold Update. skip; intros _. eapply keeps_bind_ok; [apply keeps_find|]. intros old Hold.
  eapply keeps_bind_ok; [by apply edited_tidy|]. intros d Hd. apply keeps_touch; [done|]. intros now.
  do 3 (apply keeps_skip; [repeat quiet_step; by eauto with calls|]; intros _).
  apply keeps_told; [repeat quiet_step; by eauto with calls|by apply touched_ok].
Qed.

Lemma AssignTo_tidy c id u : keeps (AssignTo s c id u) (ok_sat deal_ok).
Proof. unfold AssignTo. apply Update_tidy. by intros ? [=]. Qed.

Lemma MoveStage_tidy c id st : keeps (MoveStage s c id st) (ok_sat deal_ok).
Proof.
  unfold MoveStage. skip; intros _. eapply keeps_bind_ok; [apply keeps_find|]. intros old Hold.
  skip; intros pl. case_match; [|by apply keeps_ret].
  apply keeps_skip; [exact (conj I (fun _ => I))|]. intros now. apply keeps_touch; [by apply moved_ok|]. intros now'.
  do 2 (apply keeps_skip; [by eauto with calls|]; intros _).
  apply keeps_told; [by eauto with calls|by apply touched_ok, moved_ok].
Qed.

Lemma automation_moves_tidy c pid st deals :
  Forall deal_ok deals -> keeps (automation_moves s c pid st deals) (ok_sat (fun _ => True)).
Proof.
  induction 1 as [|d deals Hd _ IH]; cbn [automation_moves]; [by apply keeps_ret|].
  case_match; [done|]. eapply (keeps_bind_ok _ _ (fun _ => True)); [|intros ? _; exact IH].
  unfold automation_move. skip; intros pl. case_match; [|by apply keeps_ret].
  apply keeps_skip; [exact (conj I (fun _ => I))|]. intros now. cbn zeta.
  apply keeps_stored; [by apply touched_ok, moved_ok|].
  do 3 (apply keeps_skip; [by eauto with calls|]; intros _). apply keeps_told; [by eauto with calls|done].
Qed.

Lemma AutomationMove_tidy c conv pid st : keeps (AutomationMoveDealStage s c conv pid st) (ok_sat (fun _ => True)).
Proof.
  unfold AutomationMoveDealStage. skip; intros _. cbn zeta. do 2 (case_match; [by apply keeps_ret|]).
  eapply keeps_bind_ok; [apply keeps_by_conversation|]. intros deals. apply automation_moves_tidy.
Qed.

Lemma AddTag_tidy c id tag : keeps (AddTag s c id tag) (ok_sat deal_ok).
Proof.
  unfold AddTag. skip; intros _. cbn zeta. case_match; [by apply keeps_ret|].
  eapply keeps_bind_ok; [apply keeps_find|]. intros d Hd. destruct (HasTag _ _) eqn:Ht; [by apply keeps_ret|].
  skip; intros _.
  assert (deal_ok (set_dl_Tags (dl_Tags d ++ [trim_space tag]) d)) as Hd'.
  { destruct Hd. split; try done. by apply NoDup_snoc. }
  apply keeps_touch; [done|]. intros now. do 2 (apply keeps_skip; [by eauto with calls|]; intros _).
  apply keeps_told; [by eauto with calls|by apply touched_ok].
Qed.

Lemma RemoveTag_tidy c id tag : keeps (RemoveTag s c id tag) (ok_sat deal_ok).
Proof.
  unfold RemoveTag. skip; intros _. eapply keeps_bind_ok; [apply keeps_find|]. intros d Hd.
  case_match; [by apply keeps_ret|].
  assert (deal_ok (set_dl_Tags (filter (fun x => x <> tag) (dl_Tags d)) d)) as Hd'.
  { destruct Hd. split; try done. by apply NoDup_filter. }
  apply keeps_touch; [done|]. intros now. do 2 (apply keeps_skip; [by eauto with calls|]; intros _).
  apply keeps_told; [by eauto with calls|by apply touched_ok].
Qed.

Lemma MarkLost_tidy c id reason : keeps (MarkLost s c id reason) (ok_sat deal_ok).
Proof.
  unfold MarkLost. skip; intros _. eapply keeps_bind_ok; [apply keeps_find|]. intros old Hold.
  skip; intros pl. apply keeps_skip; [exact (conj I (fun _ => I))|]. intros now. cbn zeta. set (d := set_dl_UpdatedAt _ _).
  assert (deal_ok d) as Hd.
  { apply touched_ok. assert (forall e, deal_ok e -> deal_ok (set_dl_LostReason (trim_space reason) e)) as Hr by by intros e [].
    apply Hr. case_match; [by apply moved_ok|]. destruct Hold. split; try done. right. by split; [right|]. }
  apply keeps_stored; [done|]. do 2 (apply keeps_skip; [by eauto with calls|]; intros _).
  by apply keeps_told; [eauto with calls|].
Qed.

Lemma saveItems_tidy c d items :
  deal_ok d -> Forall line_ok items -> keeps (saveItems s c (set_dl_Items items d)) (ok_sat deal_ok).
Proof.
  intros Hd Hi. assert (deal_ok (RecalcValue (set_dl_Items items d))) as Hd' by by apply recalculated_ok.
  apply keeps_touch; [done|]. intros now. apply keeps_skip; [by eauto with calls|]. intros _.
  apply keeps_told; [by eauto with calls|by apply touched_ok].
Qed.

Lemma lines_ok d : deal_ok d -> Forall line_ok (dl_Items d).
Proof. intros []. eapply Forall_impl; [done|]. apply item_line. Qed.

Lemma AddItem_tidy c id cmd : ai_Quantity cmd < 2 ^ 63 -> keeps (AddItem s c id cmd) (ok_sat deal_ok).
Proof.
  intros Hq. unfold AddItem. skip; intros _. destruct (Z.leb_spec (ai_Quantity cmd) 0); [by apply keeps_ret|].
  case_match; [by apply keeps_ret|]. eapply keeps_bind_ok; [apply keeps_find|]. intros d Hd. cbn zeta.
  eapply keeps_bind_ok; [apply keeps_product|]. intros p Hp. case_match; [by apply keeps_ret|].
  apply keeps_skip; [exact (conj I (fun _ => I))|]. intros i.
  eapply keeps_bind_ok; [apply saveItems_tidy; [done|]|].
  - apply Forall_app. split; [by apply lines_ok|]. by repeat constructor.
  - intros d' Hd'. apply keeps_told; [by eauto with calls|done].
Qed.

Lemma UpdateItem_tidy c id item cmd :
  opt_all (fun q => q < 2 ^ 63) (upi_Quantity cmd) -> opt_all (fun p => finite p = true) (upi_UnitPrice cmd) ->
  keeps (UpdateItem s c id item cmd) (ok_sat deal_ok).
Proof.
  intros Hq Hp. unfold UpdateItem. skip; intros _. eapply keeps_bind_ok; [apply keeps_find|]. intros d Hd.
  case_match; [|by apply keeps_ret]. destruct (from_option _ false (upi_Quantity cmd)) eqn:Hneg; [by apply keeps_ret|].
  cbn zeta. set (d1 := assign (upi_Quantity cmd) _ _).
  assert (exists items, d1 = set_dl_Items items d /\ Forall line_ok items) as (items & -> & Hi).
  { unfold d1. destruct (upi_Quantity cmd) as [q|]; cbn; [|exists (dl_Items d); split; [by destruct d|by apply lines_ok]].
    eexists. split; [done|]. apply Forall_alter; [by apply lines_ok|]. intros i _ [_ ?]. split; [|done].
    cbn in Hneg. apply Z.leb_gt in Hneg. specialize (Hq q eq_refl). cbn beta in Hq. cbn. lia. }
  destruct (from_option negative false (upi_UnitPrice cmd)) eqn:Hn; [by apply keeps_ret|].
  destruct (upi_UnitPrice cmd) as [p|]; cbn [assign]; [|by apply saveItems_tidy].
  change (keeps (saveItems s c (set_dl_Items (alter (set_dit_UnitPrice p) n items) d)) (ok_sat deal_ok)).
  apply saveItems_tidy; [done|]. apply Forall_alter; [done|]. intros i _ [? _]. split; [done|].
  unfold price. cbn. rewrite (Hp p eq_refl). by apply negative_amount; [apply Hp|].
Qed.

Lemma RemoveItem_tidy c id item : keeps (RemoveItem s c id item) (ok_sat deal_ok).
Proof.
  unfold RemoveItem. skip; intros _. eapply keeps_bind_ok; [apply keeps_find|]. intros d Hd.
  do 2 (case_match; [|by apply keeps_ret]). eapply keeps_bind_ok; [apply saveItems_tidy; [done|]|].
  - by apply Forall_delete, lines_ok.
  - intros d' Hd'. apply keeps_told; [by eauto with calls|done].
Qed.
End Operations.

(** ** Requests, one call at a time *)

(** What the service is asked. *)
Inductive DealOp :=
| OpCreate (c : Ctx) (cmd : CreateDeal)
| OpFromConversation (c : Ctx) (cmd : FromConversation)
| OpUpdate (c : Ctx) (id : string) (cmd : UpdateDeal)
| OpAssign (c : Ctx) (id userID : string)
| OpMove (c : Ctx) (id stageID : string)
| OpAutomationMove (c : Ctx) (conversationID pipelineID stageID : string)
| OpLink (c : Ctx) (id conversationID : string)
| OpAddTag (c : Ctx) (id tagID : string)
| OpRemoveTag (c : Ctx) (id tagID : string)
| OpMarkLost (c : Ctx) (id reason : string)
| OpAddItem (c : Ctx) (id : string) (cmd : AddItemCmd)
| OpUpdateItem (c : Ctx) (id itemID : string) (cmd : UpdateItemCmd)
| OpRemoveItem (c : Ctx) (id itemID : string)
| OpDelete (c : Ctx) (id : string).

(** A request as it is decoded from JSON. *)
Definition decoded (op : DealOp) : Prop :=
  match op with
  | OpCreate _ cmd => finite (cd_Value cmd) = true
  | OpFromConversation _ cmd => finite (fc_Value cmd) = true
  | OpUpdate _ _ cmd => opt_all (fun v => finite v = true) (ud_Value cmd)
  | OpAddItem _ _ cmd => ai_Quantity cmd < 2 ^ 63
  | OpUpdateItem _ _ _ cmd =>
      opt_all (fun q => q < 2 ^ 63) (upi_Quantity cmd) /\
      opt_all (fun p => finite p = true) (upi_UnitPrice cmd)
  | _ => True
  end.

Definition op_prog (s : DealService) (op : DealOp) : DlM bool :=
  let told {A} (m : DlM (result A)) : DlM bool := let! r := m in Ret (is_ok r) in
  match op with
  | OpCreate c cmd => told (Create s c cmd)
  | OpFromConversation c cmd => told (CreateFromConversation s c cmd)
  | OpUpdate c id cmd => told (Update s c id cmd)
  | OpAssign c id u => told (AssignTo s c id u)
  | OpMove c id st => told (MoveStage s c id st)
  | OpAutomationMove c conv p st => told (AutomationMoveDealStage s c conv p st)
  | OpLink c id conv => told (LinkConversation c id conv)
  | OpAddTag c id t => told (AddTag s c id t)
  | OpRemoveTag c id t => told (RemoveTag s c id t)
  | OpMarkLost c id r => told (MarkLost s c id r)
  | OpAddItem c id cmd => told (AddItem s c id cmd)
  | OpUpdateItem c id i cmd => told (UpdateItem s c id i cmd)
  | OpRemoveItem c id i => told (RemoveItem s c id i)
  | OpDelete c id => told (Delete c id)
  end.

Lemma op_tidy s op : decoded op -> tidy (op_prog s op).
Proof.
  assert (forall A (m : DlM (result A)) P, keeps m (ok_sat P) -> tidy (let! r := m in Ret (is_ok r))) as Htold.
  { intros A m P Hm. eapply tidy_bind; [exact Hm|]. intros r _. by apply keeps_ret. }
  destruct op; cbn [decoded op_prog]; intros Hop; cbn zeta.
  - eapply Htold. by apply Create_tidy.
  - eapply Htold. by apply CreateFromConversation_tidy.
  - eapply Htold. by apply Update_tidy.
  - eapply Htold. by apply AssignTo_tidy.
  - eapply Htold. apply MoveStage_tidy.
  - eapply Htold. apply AutomationMove_tidy.
  - eapply Htold. apply LinkConversation_tidy.
  - eapply Htold. apply AddTag_tidy.
  - eapply Htold. apply RemoveTag_tidy.
  - eapply Htold. apply MarkLost_tidy.
  - eapply Htold. by apply AddItem_tidy.
  - eapply Htold. apply UpdateItem_tidy; apply Hop.
  - eapply Htold. apply RemoveItem_tidy.
  - apply keeps_quiet. unfold Delete, Deals.audit. by repeat quiet_step.
Qed.

(** Every stored deal is coherent and kept under its own tenant and id. *)
Definition all_ok (g : DealView) : Prop := map_Forall (fun k d => k = dl_key d /\ deal_ok d) g.

(** A call the coherent contract allows keeps the store coherent, and its answer is one the
    contract gives. *)
Lemma call_coherent (R : Type) (c : Ctx) (e : DealPort R) g r g' :
  all_ok g -> coherent_pre R c e () -> deal_post R c e g r g' -> all_ok g' /\ coherent_post R c e () r ().
Proof.
  intros Hall Hpre Hpost.
  assert (forall d, held c g d -> deal_ok d) as Hheld by (intros d (tn & _ & Hd); by destruct (Hall _ _ Hd)).
  destruct e; cbn in *; try (by subst).
  - split; [|done]. destruct Hpost as [[-> _]|[_ ->]]; [done|]. by apply map_Forall_insert_2.
  - split; [|done]. destruct Hpost as [[-> _]|(tn & old & Hc & Hold & ->)]; [done|].
    apply map_Forall_insert_2; [|done]. destruct (Hall _ _ Hold) as [[= -> Hid] Hok].
    split; [|by apply stored_deal_ok]. unfold dl_key. cbn. by rewrite Hid.
  - split; [|done]. destruct Hpost as [[-> _]|(tn & Hc & ->)]; [done|]. by apply map_Forall_delete.
  - destruct Hpost as [-> Hr]. split; [done|]. intros d Hd. by apply Hheld, Hr.
  - destruct Hpost as [-> Hr]. split; [done|]. intros l Hl. destruct (Hr l Hl) as [_ Hin].
    apply Forall_forall. intros d Hd. by apply Hheld, Hin.
  - by destruct Hpost as [-> Hr].
Qed.

(** C7. Coherent deals, however the requests interleave: from a store whose deals are coherent, any
    requests, their calls to the store interleaved in any order and each of them possibly
    failing, only ever leave coherent deals, each under its own tenant and id. A deal is
    closed exactly when it is won or lost; its value is never below zero nor a NaN; with
    product lines it is the sum of their totals, each the product of a positive quantity and
    a price; no tag and no conversation is on it twice. *)
Theorem deals_stay_coherent (s : DealService) {S} (h : handler Ctx DealPort S) (view : S -> DealView)
    `{!DealStore h view} (ops : list DealOp) (s0 : S) (p : list (DlM bool)) (s1 : S) :
  Forall decoded ops -> map_Forall (fun k d => k = dl_key d /\ deal_ok d) (view s0) ->
  steps h (map (op_prog s) ops, s0) (p, s1) ->
  map_Forall (fun k d => k = dl_key d /\ deal_ok d) (view s1).
Proof.
  intros Hops H0 Hsteps.
  destruct (steps_wp h coherent (fun _ _ => True) (fun _ st => all_ok (view st)) (map (op_prog s) ops) s0 p s1
              (map (fun _ => tt) ops)) as (gs' & _ & HI); [|exact Hsteps| |exact H0|exact HI].
  - intros gs st i g R c e P _ HI [Hpre HP]. pose proof (deal_answers R c e st) as Ha.
    destruct (h R c e st) as [r st']. destruct g. destruct (call_coherent R c e _ r _ HI Hpre Ha) as [Hall Hp].
    exists tt. split; [by apply HP|done].
  - clear -Hops. induction Hops as [|op ops Hop _ IH]; cbn; constructor; [|done]. by apply op_tidy.
Qed.
