(* ===== verification/DealStory.v ===== *)
(** * Sales deals: what is announced, and what the timeline tells

    An edit is announced as it was stored, to the rooms of its own tenant and sector and to
    its seller; a move to a won or lost stage is told once, when the deal enters it. *)
From S2P Require Import Prelude GoStrings AppError Authz Shared ConvEntity Prog Ports Money Pipelines Deals DealProps.

(** ** The story of a request: the deals read, the one stored last, the events told since *)

Record Story := mkStory { st_read : list Deal; st_saved : option Deal; st_told : list string }.

(** An announcement of a deal. *)
Definition announces (d : Deal) (e : DealPublish) : Prop :=
  dpb_Topic e ∈ DealTopicsFor (dl_TenantID d) (dl_SectorID d) (dl_AssignedTo d) /\
  exists from by_, dpb_Data e = deal_event d from by_.

(** A deal is stored in the caller's tenant, or over one that was read; everything said is said
    of the deal stored last. *)
Definition story_pre (R : Type) (c : Ctx) (e : DealPort R) (g : Story) : Prop :=
  match e with
  | DealCreate d => RequireTenant c = Ok (dl_TenantID d)
  | DealUpdate d => exists old, old ∈ st_read g /\ dl_key d = dl_key old
  | DlPublish e => exists d, st_saved g = Some d /\ announces d e
  | DlPublishBatch es => exists d, st_saved g = Some d /\ Forall (announces d) es
  | Timeline e => exists d, st_saved g = Some d /\ tl_DealID e = dl_ID d
  | DlInfra (Notify n) => exists d, st_saved g = Some d /\ nt_TenantID n = dl_TenantID d
  | _ => True
  end.

Definition saved_as {A} (d : Deal) (r : result A) (g : Story) : Story :=
  match r with Ok _ => mkStory (st_read g) (Some d) [] | Err _ => g end.
Definition read_more (l : list Deal) (g : Story) : Story := mkStory (l ++ st_read g) (st_saved g) (st_told g).
Definition told_more (l : list string) (g : Story) : Story := mkStory (st_read g) (st_saved g) (st_told g ++ l).

Definition story_post (R : Type) (c : Ctx) (e : DealPort R) (g : Story) (r : R) (g' : Story) : Prop :=
  match e in DealPort R return R -> Prop with
  | DealCreate d | DealUpdate d => fun r => g' = saved_as d r g
  | DealFindByID _ => fun r => g' = match r with Ok d => read_more [d] g | Err _ => g end
  | FindByConversation _ => fun r => g' = match r with Ok l => read_more l g | Err _ => g end
  | Timeline e => fun _ => g' = told_more [tl_Kind e] g
  | _ => fun _ => g' = g
  end r.

Definition story : contract Ctx DealPort Story := pre_post story_pre story_post.

#[export] Instance story_mono : Monotone story.
Proof. apply pre_post_mono. Qed.

(** The calls the story does not notice. *)
Definition silent (R : Type) (c : Ctx) (e : DealPort R) : Prop :=
  match e with
  | DealCreate _ | DealUpdate _ | DealFindByID _ | FindByConversation _ | DlPublish _ | DlPublishBatch _
  | Timeline _ | DlInfra (Notify _) => False
  | _ => True
  end.

Lemma silent_inert : inert_in story_pre story_post silent.
Proof.
  split; [|by intros R c e g r g'; destruct e].
  intros R c e g. destruct e as [R e| | | | | | | | | | | | | | | | |]; try done. by destruct e.
Qed.

Lemma wp_silent_bind {A B} (m : DlM A) (f : A -> DlM B) Q g :
  calls silent m -> (forall a, wp story (f a) Q g) -> wp story (bind m f) Q g.
Proof. apply (wp_inert_bind _ _ silent), silent_inert. Qed.

Lemma wp_silent_bind_ok {A B} (m : DlM (result A)) (f : A -> DlM (result B)) Q g :
  calls silent m -> (forall e, Q (Err e) g) -> (forall a, wp story (f a) Q g) -> wp story (bind_ok m f) Q g.
Proof. apply (wp_inert_bind_ok _ _ silent), silent_inert. Qed.

Ltac silent_step := calls_step ltac:(exact I).

(** A program with one story. *)
Lemma wp_story_bind {A B} (m : DlM A) (f : A -> DlM B) Q g g1 :
  wp story m (fun _ g' => g' = g1) g -> (forall a, wp story (f a) Q g1) -> wp story (bind m f) Q g.
Proof.
  intros Hm Hf. apply wp_bind; [apply _|]. eapply wp_mono; [apply _| |exact Hm]. by intros a g' ->.
Qed.

Section Story.
Context (s : DealService).

(** What is told when a timeline is wired. *)
Definition told (l : list string) : list string := if ds_timeline s then l else [].

Lemma audit_silent c a i : calls silent (Deals.audit c a i).
Proof. unfold Deals.audit. by repeat silent_step. Qed.
Lemma auditMove_silent c i b : calls silent (auditMove c i b).
Proof. unfold auditMove. by repeat silent_step. Qed.
Lemma pipe_infra_silent {A} (m : PpM A) : calls silent (pipe m).
Proof. apply calls_lift. induction m as [a|R c e k IH]; cbn; auto. Qed.
Hint Resolve audit_silent auditMove_silent pipe_infra_silent : calls.
Lemma contact_silent c i : calls silent (requireContact s c i).
Proof. unfold requireContact. by repeat silent_step. Qed.
Lemma tags_silent c l : calls silent (validateTags s c l).
Proof. unfold validateTags. by repeat silent_step. Qed.
Lemma resolve_silent c p st : calls silent (resolvePipelineStage c p st).
Proof. unfold resolvePipelineStage. by repeat silent_step. Qed.
Lemma products_silent c : calls silent (requireProducts s c).
Proof. unfold requireProducts. by repeat silent_step. Qed.
Hint Resolve contact_silent tags_silent resolve_silent products_silent : calls.

Lemma publishDeal_story c d event from by_ g :
  st_saved g = Some d -> wp story (publishDeal s c d event from by_) (fun _ g' => g' = g) g.
Proof.
  intros Hd. unfold publishDeal, PublishAll. set (es := map _ _).
  assert (Forall (announces d) es) as Hes.
  { apply Forall_fmap, Forall_forall. intros t Ht. split; [done|]. by exists from, by_. }
  case_match; [done|]. case_match.
  - split; [by exists d|]. by intros r g' ->.
  - apply (wp_for_each story es _ (fun g' => g' = g)); [|done|done]. intros e g' He ->.
    rewrite Forall_forall in Hes. split; [exists d; split; [done|by apply Hes]|]. by intros r g' ->.
Qed.

Lemma recordTimeline_story c d kind actor data g :
  st_saved g = Some d ->
  wp story (recordTimeline s c (dl_ID d) kind actor data) (fun _ g' => g' = told_more (told [kind]) g) g.
Proof.
  intros Hd. unfold recordTimeline, told. destruct (ds_timeline s).
  - split; [by exists d|]. by intros r g' ->.
  - cbn. unfold told_more. rewrite app_nil_r. by destruct g.
Qed.

Lemma told_more_nil g : told_more [] g = g.
Proof. unfold told_more. rewrite app_nil_r. by destruct g. Qed.

Lemma told_more_app a b g : told_more b (told_more a g) = told_more (a ++ b) g.
Proof. unfold told_more. cbn. by rewrite app_assoc. Qed.

Lemma told_app a b : told a ++ told b = told (a ++ b).
Proof. unfold told. by destruct (ds_timeline s). Qed.

(** The events of a move: the stage left, and the outcome entered. *)
Definition outcome_kinds (fromStatus : string) (d : Deal) : list string :=
  if (dl_Status d =! StatusWon) && (fromStatus <>! StatusWon) then [TimelineWon]
  else if (dl_Status d =! StatusLost) && (fromStatus <>! StatusLost) then [TimelineLost]
  else [].
Definition move_kinds (old d : Deal) : list string :=
  (if dl_StageID old <>! dl_StageID d then [TimelineStageChanged] else []) ++ outcome_kinds (dl_Status old) d.

Lemma recordStageMove_story c old d actor g :
  st_saved g = Some d ->
  wp story (recordStageMove s c d (dl_StageID old) (dl_Status old) actor)
    (fun _ g' => g' = told_more (told (move_kinds old d)) g) g.
Proof.
  intros Hd. unfold recordStageMove, move_kinds.
  eapply (wp_story_bind _ _ _ g (told_more (told (if dl_StageID old <>! dl_StageID d then [TimelineStageChanged] else [])) g)).
  - destruct (dl_StageID old <>! dl_StageID d); [by apply recordTimeline_story|].
    cbn. unfold told. destruct (ds_timeline s); by rewrite told_more_nil.
  - intros []. rewrite <- told_app, <- told_more_app. set (g1 := told_more _ g).
    assert (st_saved g1 = Some d) as H1 by done. clearbody g1. unfold outcome_kinds.
    destruct ((dl_Status d =! StatusWon) && (dl_Status old <>! StatusWon)); [by apply recordTimeline_story|].
    destruct ((dl_Status d =! StatusLost) && (dl_Status old <>! StatusLost)); [by apply recordTimeline_story|].
    cbn. unfold told. destruct (ds_timeline s); by rewrite told_more_nil.
Qed.

Lemma notifyMoved_story c d name g :
  st_saved g = Some d -> wp story (notifyMoved s c d name) (fun _ g' => g' = g) g.
Proof.
  intros Hd. unfold notifyMoved. apply wp_silent_bind; [unfold moveAudience; by repeat silent_step|].
  intros ids. cbn zeta. apply (wp_for_each story ids _ (fun g' => g' = g)); [|done|done].
  intros u g' _ ->. split; [by exists d|]. by intros r g' ->.
Qed.

(** A deal stored over one that was read, then its story. *)
Lemma stored_story {A} c old d (k : DlM (result A)) Q g :
  old ∈ st_read g -> dl_key d = dl_key old -> (forall e, Q (Err e) g) ->
  wp story k Q (mkStory (st_read g) (Some d) []) -> wp story (stored c d k) Q g.
Proof.
  intros Hin Hk He Hw. apply wp_bind_ok; [apply _|]. split; [by exists old|].
  intros [[]|e] g' Hr; cbn in Hr; subst g'; [exact Hw|apply He].
Qed.

Lemma touch_story {A} c old d (k : Deal -> DlM (result A)) Q g :
  old ∈ st_read g -> dl_key d = dl_key old -> (forall e, Q (Err e) g) ->
  (forall now, wp story (k (set_dl_UpdatedAt now d)) Q (mkStory (st_read g) (Some (set_dl_UpdatedAt now d)) [])) ->
  wp story (touch c d k) Q g.
Proof.
  intros Hin Hk He Hw. apply wp_silent_bind; [exact (conj I (fun _ => I))|]. intros now. cbn zeta.
  by apply (stored_story c old).
Qed.

Lemma find_story {A} c id (f : Deal -> DlM (result A)) Q g :
  (forall e, Q (Err e) g) -> (forall d, wp story (f d) Q (read_more [d] g)) ->
  wp story (try! d := ask c (DealFindByID id) in f d) Q g.
Proof.
  intros He Hf. apply wp_bind_ok; [apply _|]. split; [done|]. intros [d|e] g' Hr; cbn in Hr; subst g'; [apply Hf|apply He].
Qed.

Lemma moved_key st now d : dl_key (applyStage st now d) = dl_key d.
Proof. unfold applyStage. by destruct (stg_IsWon st), (stg_IsLost st). Qed.

Ltac tell := lazymatch goal with
  | |- wp story (bind (publishDeal _ _ _ _ _ _) _) _ _ =>
      eapply wp_story_bind; [by apply publishDeal_story|]; intros []
  | |- wp story (bind (recordTimeline _ _ (dl_ID _) _ _ _) _) _ _ =>
      eapply wp_story_bind; [by apply recordTimeline_story|]; intros []
  | |- wp story (bind (recordStageMove _ _ _ (dl_StageID ?old) _ _) _) _ _ =>
      eapply wp_story_bind; [by apply (recordStageMove_story _ old)|]; intros []
  | |- wp story (bind (notifyMoved _ _ _ _) _) _ _ =>
      eapply wp_story_bind; [by apply notifyMoved_story|]; intros []
  | |- wp story (bind (if ?b then _ else _) _) _ _ => destruct b
  | |- wp story (bind _ _) _ _ => apply wp_silent_bind; [solve [eauto with calls|repeat silent_step]|]; intros ?
  | |- wp story (bind_ok _ _) _ _ => apply wp_silent_bind_ok; [solve [eauto with calls|repeat silent_step]|done|]; intros ?
  end.

(** What a request that moves one deal tells. *)
Definition told_of_move (r : result Deal) (g : Story) : Prop :=
  forall d, r = Ok d -> exists old, st_read g = [old] /\ st_saved g = Some d /\ st_told g = told (move_kinds old d).

Lemma MoveStage_told c id st : wp story (MoveStage s c id st) told_of_move (mkStory [] None []).
Proof.
  unfold MoveStage. tell. apply find_story; [done|]. intros old. tell. case_match; [|done]. tell.
  apply (touch_story c old); [left|apply moved_key|done|]. intros now. repeat tell. intros d [= <-].
  by exists old.
Qed.

Lemma MarkLost_told c id reason : wp story (MarkLost s c id reason) told_of_move (mkStory [] None []).
Proof.
  unfold MarkLost. tell. apply find_story; [done|]. intros old. tell. tell. cbn zeta. set (d := set_dl_UpdatedAt _ _).
  apply (stored_story c old); [left| |done|].
  { unfold d. case_match; [apply moved_key|done]. }
  repeat tell. intros e [= <-]. by exists old.
Qed.

Lemma Create_told c cmd :
  wp story (Create s c cmd)
    (fun r g => forall d, r = Ok d -> st_saved g = Some d /\ st_told g = told [TimelineDealCreated]) (mkStory [] None []).
Proof.
  unfold Create. destruct (RequireTenant c) as [tn|] eqn:Hc; [|done]. cbn [bind_ok bind].
  do 2 (case_match; [done|]). do 3 tell. do 2 tell. cbn zeta. set (d := applyStage _ _ _).
  assert (dl_TenantID d = tn) as Ht.
  { unfold d, applyStage. by repeat case_match. }
  clearbody d. apply wp_bind_ok; [apply _|]. split; [cbn; congruence|]. intros [[]|e] g Hr; cbn in Hr; subst g; [|done].
  cbn [wp]. do 3 tell. by intros e [= <-].
Qed.

(** ** Every request *)

Definition tells {A} (m : DlM A) : Prop := forall g, wp story m (fun _ _ => True) g.

Ltac tells_end := repeat tell; try done.

Lemma Create_tells c cmd : tells (Create s c cmd).
Proof.
  intros g. unfold Create. destruct (RequireTenant c) as [tn|] eqn:Hc; [|done]. cbn [bind_ok bind].
  do 2 (case_match; [done|]). do 3 tell. do 2 tell. cbn zeta. set (d := applyStage _ _ _).
  assert (dl_TenantID d = tn) as Ht.
  { unfold d, applyStage. by repeat case_match. }
  clearbody d. apply wp_bind_ok; [apply _|]. split; [cbn; congruence|]. intros [[]|e] g' Hr; cbn in Hr; subst g'; [|done].
  cbn [wp]. tells_end.
Qed.

Lemma LinkConversation_tells c id conv : tells (LinkConversation c id conv).
Proof.
  intros g. unfold LinkConversation. tell. cbn zeta. case_match; [done|]. apply find_story; [done|]. intros d.
  case_match; [done|]. apply (touch_story c d); [left|done|done|]. intros now. tells_end.
Qed.

Lemma CreateFromConversation_tells c cmd : tells (CreateFromConversation s c cmd).
Proof.
  intros g. unfold CreateFromConversation. tell. case_match; [done|]. cbn zeta. case_match; [done|]. tell.
  apply wp_bind_ok; [apply _|]. eapply wp_mono; [apply _| |apply Create_tells]. intros [d|e] g' _; [|done].
  apply LinkConversation_tells.
Qed.

(** What an edit returns has the identity of what was edited. *)
Definition same_key (d : Deal) : result Deal -> Prop := ok_sat (fun d' => dl_key d' = dl_key d).

Lemma edit_key {A} (o : option A) f d d0 :
  dl_key d = dl_key d0 ->
  (forall a, returns (ok_sat (fun g : Deal -> Deal => forall d, dl_key (g d) = dl_key d)) (f a)) ->
  returns (same_key d0) (edit o f d).
Proof.
  intros Hd Hf. destruct o as [a|]; [|done]. cbn [edit].
  eapply returns_bind; [apply Hf|]. intros [g|e] Hg; [|done]. unfold same_key; cbn. by rewrite Hg.
Qed.

Lemma returns_try {A B} (P : A -> Prop) (Q : result B -> Prop) (m : DlM (result A)) (f : A -> DlM (result B)) :
  returns (ok_sat P) m -> (forall e, Q (Err e)) -> (forall a, P a -> returns Q (f a)) -> returns Q (bind_ok m f).
Proof. intros Hm He Hf. eapply returns_bind; [exact Hm|]. intros [a|e] Ha; [by apply Hf|apply He]. Qed.

Lemma edited_key c cmd d : returns (same_key d) (edited s c cmd d).
Proof.
  unfold edited. eapply returns_try; [apply edit_key; [done|]|done|]; [intros t; unfold edit_title; by case_match|].
  intros d1 H1. eapply returns_try; [apply (edit_key _ _ d1 d); [done|]|done|].
  { intros v. unfold edit_value. case_match; [done|]. intros x. by case_match. }
  intros d2 H2. cbn zeta. eapply returns_try; [apply (edit_key _ _ _ d)|done|].
  { by destruct (ud_Currency cmd). }
  { intros i. unfold edit_contact. cbn zeta. apply returns_bind_ok; [done|]. by intros []. }
  intros d3 H3. apply edit_key; [|intros l; unfold edit_tags; apply returns_bind_ok; [done|by intros tags]].
  rewrite <- H3. unfold edit_plain. by destruct (ud_AssignedTo cmd), (ud_SectorID cmd), (ud_Source cmd), (ud_ClearExpectedDate cmd),
    (ud_ExpectedCloseDate cmd).
Qed.

Lemma edited_silent c cmd d : calls silent (edited s c cmd d).
Proof. unfold edited, edit, edit_title, edit_value, edit_contact, edit_tags. repeat silent_step. Qed.

Lemma Update_tells c id cmd : tells (Update s c id cmd).
Proof.
  intros g. unfold Update. tell. apply find_story; [done|]. intros old.
  apply wp_bind_ok; [apply _|]. eapply wp_inert_returns; [apply silent_inert|apply edited_silent|apply edited_key|].
  intros [d|e] Hk; [|done]. apply (touch_story c old); [left|exact Hk|done|]. intros now. tells_end.
Qed.

Lemma MoveStage_tells c id st : tells (MoveStage s c id st).
Proof.
  intros g. unfold MoveStage. tell. apply find_story; [done|]. intros old. tell. case_match; [|done]. tell.
  apply (touch_story c old); [left|apply moved_key|done|]. intros now. tells_end.
Qed.

Lemma automation_move_story c st old (Q : result unit -> Story -> Prop) g :
  old ∈ st_read g -> (forall e, Q (Err e) g) ->
  (forall d, dl_key d = dl_key old -> Q (Ok tt) (mkStory (st_read g) (Some d) (told (move_kinds old d)))) ->
  wp story (automation_move s c st old) Q g.
Proof.
  intros Hin He HQ. unfold automation_move. apply wp_silent_bind_ok; [eauto with calls|done|]. intros pl.
  case_match; [|apply He]. tell. cbn zeta. apply (stored_story c old); [done|apply moved_key|done|].
  repeat tell. unfold told_more. cbn. by apply HQ, moved_key.
Qed.

Lemma automation_moves_tells c pid st deals g :
  (forall d, d ∈ deals -> d ∈ st_read g) ->
  wp story (automation_moves s c pid st deals) (fun _ _ => True) g.
Proof.
  revert g. induction deals as [|d deals IH]; intros g Hin; cbn [automation_moves]; [done|].
  case_match; [apply IH; set_solver|]. apply wp_bind_ok; [apply _|].
  apply automation_move_story; [apply Hin; left|done|]. intros d' _. apply IH. cbn. set_solver.
Qed.

Lemma AutomationMove_tells c conv pid st : tells (AutomationMoveDealStage s c conv pid st).
Proof.
  intros g. unfold AutomationMoveDealStage. tell. cbn zeta. do 2 (case_match; [done|]).
  apply wp_bind_ok; [apply _|]. split; [done|]. intros [l|e] g' Hr; cbn in Hr; subst g'; [|done].
  apply automation_moves_tells. cbn. set_solver.
Qed.

Lemma AddTag_tells c id tag : tells (AddTag s c id tag).
Proof.
  intros g. unfold AddTag. tell. cbn zeta. case_match; [done|]. apply find_story; [done|]. intros d.
  case_match; [done|]. tell. apply (touch_story c d); [left|done|done|]. intros now. tells_end.
Qed.

Lemma RemoveTag_tells c id tag : tells (RemoveTag s c id tag).
Proof.
  intros g. unfold RemoveTag. tell. apply find_story; [done|]. intros d. case_match; [done|].
  apply (touch_story c d); [left|done|done|]. intros now. tells_end.
Qed.

Lemma MarkLost_tells c id reason : tells (MarkLost s c id reason).
Proof.
  intros g. unfold MarkLost. tell. apply find_story; [done|]. intros old. tell. tell. cbn zeta. set (d := set_dl_UpdatedAt _ _).
  apply (stored_story c old); [left| |done|].
  { unfold d. case_match; [apply moved_key|done]. }
  tells_end.
Qed.

(** The items saved, then what is said of them. *)
Lemma saveItems_story c old d (Q : result Deal -> Story -> Prop) g :
  old ∈ st_read g -> dl_key d = dl_key old -> (forall e, Q (Err e) g) ->
  (forall d', Q (Ok d') (mkStory (st_read g) (Some d') [])) -> wp story (saveItems s c d) Q g.
Proof.
  intros Hin Hk He HQ. apply (touch_story c old); [done|done|done|]. intros now. repeat tell. apply HQ.
Qed.

Lemma AddItem_tells c id cmd : tells (AddItem s c id cmd).
Proof.
  intros g. unfold AddItem. tell. do 2 (case_match; [done|]). apply find_story; [done|]. intros d. cbn zeta. tell.
  case_match; [done|]. tell. apply wp_bind_ok; [apply _|].
  apply (saveItems_story c d); [left|done|done|]. intros d'. unfold recordItem. tells_end.
Qed.

Lemma UpdateItem_tells c id item cmd : tells (UpdateItem s c id item cmd).
Proof.
  intros g. unfold UpdateItem. tell. apply find_story; [done|]. intros d. case_match; [|done].
  case_match; [done|]. cbn zeta. case_match; [done|].
  apply (saveItems_story c d); [left| |done|done]. by destruct (upi_Quantity cmd), (upi_UnitPrice cmd).
Qed.

Lemma RemoveItem_tells c id item : tells (RemoveItem s c id item).
Proof.
  intros g. unfold RemoveItem. tell. apply find_story; [done|]. intros d. do 2 (case_match; [|done]).
  apply wp_bind_ok; [apply _|]. apply (saveItems_story c d); [left|done|done|]. intros d'. unfold recordItem. tells_end.
Qed.

Lemma Delete_tells c id : tells (Delete c id).
Proof. intros g. unfold Delete. tell. apply find_story; [done|]. intros d. tells_end. Qed.
End Story.

(** ** The theorems *)

(** Said as it was stored: whatever the request and the answers, a deal is created in the
    caller's tenant and written only over the deal that was read; and every realtime event,
    timeline entry and notification comes after a successful store and is about the deal as
    it was stored - to the rooms of its tenant, its sector and its seller, carrying its
    stage, status and seller. *)
Theorem deals_are_announced_as_stored (s : DealService) (op : DealOp) :
  wp story (op_prog s op) (fun _ _ => True) (mkStory [] None []).
Proof.
  assert (forall A (m : DlM (result A)), tells m -> wp story (let! r := m in Ret (is_ok r)) (fun _ _ => True) (mkStory [] None [])) as Htold.
  { intros A m Hm. apply wp_bind; [apply _|]. eapply wp_mono; [apply _| |apply Hm]. by intros. }
  destruct op; cbn [op_prog]; apply Htold.
  - apply Create_tells.
  - apply CreateFromConversation_tells.
  - apply Update_tells.
  - unfold AssignTo. apply Update_tells.
  - apply MoveStage_tells.
  - apply AutomationMove_tells.
  - apply LinkConversation_tells.
  - apply AddTag_tells.
  - apply RemoveTag_tells.
  - apply MarkLost_tells.
  - apply AddItem_tells.
  - apply UpdateItem_tells.
  - apply RemoveItem_tells.
  - apply Delete_tells.
Qed.

(** An outcome is told once: a move by hand, by an automation or by marking the deal lost that
    succeeds tells the timeline the change of stage exactly when the stage changed, and won
    or lost exactly when the deal was not so before, after the store and nothing else. A deal
    created in a won stage is told as created only. *)
Theorem outcomes_are_told_once (s : DealService) (c : Ctx) :
  (forall id st, wp story (MoveStage s c id st) (told_of_move s) (mkStory [] None [])) /\
  (forall id reason, wp story (MarkLost s c id reason) (told_of_move s) (mkStory [] None [])) /\
  (forall st old, wp story (automation_move s c st old)
     (fun r g => r = Ok tt -> exists d, st_saved g = Some d /\ st_told g = told s (move_kinds old d))
     (mkStory [old] None [])) /\
  (forall cmd, wp story (Create s c cmd)
     (fun r g => forall d, r = Ok d -> st_saved g = Some d /\ st_told g = told s [TimelineDealCreated])
     (mkStory [] None [])).
Proof.
  split_and!.
  - intros. apply MoveStage_told.
  - intros. apply MarkLost_told.
  - intros st old. apply automation_move_story; [left|done|]. intros d _ _. by exists d.
  - intros. apply Create_told.
Qed.

(** The total of a product added, in the timeline of the deal. *)
Definition added_total (R : Type) (c : Ctx) (e : DealPort R) : Prop :=
  match e with
  | Timeline e => tl_Kind e = TimelineProductAdded -> ("total", TlFloat fzero) ∈ tl_Data e
  | _ => True
  end.

(** The timeline does not know what was added: the line told is the one built before the totals
    were computed, so a product added is always told with the total zero, whatever its
    quantity and price. *)
Theorem added_products_are_told_without_total (s : DealService) (c : Ctx) (id : string) (cmd : AddItemCmd) :
  calls added_total (AddItem s c id cmd).
Proof.
  unfold AddItem, requireProducts, saveItems, touch, stored, Deals.audit, publishDeal, PublishAll, recordItem,
    recordTimeline.
  repeat calls_step ltac:(first [exact I | intros _; cbn; set_solver]).
Qed.
