(* ===== verification/DealCases.v ===== *)
(** * Sales deals: an automation settles, and a world in memory

    What an automated move leaves behind; an executable world of deals and pipelines, in which
    the theorems about interleaved requests are exercised. *)
From S2P Require Import Prelude GoStrings AppError Authz Shared ConvEntity Prog Ports Money Pipelines PipelineStore Deals DealProps DealStory.

(** ** An automated move settles *)

Definition deal_contract : contract Ctx DealPort DealView := pre_post (fun _ _ _ _ => True) deal_post.

#[export] Instance deal_contract_mono : Monotone deal_contract.
Proof. apply pre_post_mono. Qed.

Lemma deal_run {S} (h : handler Ctx DealPort S) (view : S -> DealView) `{!DealStore h view} {A} (m : DlM A) Q s :
  wp deal_contract m Q (view s) -> let '(a, s') := run h m s in Q a (view s').
Proof.
  apply wp_run. intros R c e P s' [_ HP]. pose proof (deal_answers R c e s') as Ha.
  destruct (h R c e s'). by apply HP.
Qed.

(** Calls that leave the deals as they are. *)
Definition no_deal_write (R : Type) (c : Ctx) (e : DealPort R) : Prop :=
  match e with DealCreate _ | DealUpdate _ | DealDelete _ => False | _ => True end.

Lemma no_deal_write_inert : inert_in (fun _ _ _ _ => True) deal_post no_deal_write.
Proof. split; [done|]. intros R c e g r g' Hq. destruct e; cbn; try done; by (intros [? ?] || intros). Qed.

Lemma wp_still {A} (m : DlM A) (Q : A -> DealView -> Prop) g :
  calls no_deal_write m -> (forall a, Q a g) -> wp deal_contract m Q g.
Proof. apply (wp_inert _ _ no_deal_write), no_deal_write_inert. Qed.

Lemma wp_still_bind_ok {A B} (m : DlM (result A)) (f : A -> DlM (result B)) Q g :
  calls no_deal_write m -> (forall e, Q (Err e) g) -> (forall a, wp deal_contract (f a) Q g) ->
  wp deal_contract (bind_ok m f) Q g.
Proof. apply (wp_inert_bind_ok _ _ no_deal_write), no_deal_write_inert. Qed.

Ltac still_step := calls_step ltac:(exact I).

Lemma stage_index_lookup stages id i :
  stage_index stages id = Some i -> exists st, stages !! i = Some st /\ stg_ID st = id.
Proof.
  revert i. induction stages as [|st stages IH]; intros i; cbn; [done|]. case_bool_decide as Hid.
  - intros [= <-]. by exists st.
  - intros (j & Hj & ->)%fmap_Some. by apply IH.
Qed.

Lemma findStage_id pl id st : findStage pl id = Some st -> stg_ID st = id.
Proof.
  unfold findStage. destruct (StageIndex pl id) as [i|] eqn:Hi; [|done].
  apply stage_index_lookup in Hi as (st' & Hst & Hid). intros Hl. congruence.
Qed.

Section Settles.
Context (s : DealService).

Lemma pipe_still {A} (m : PpM A) : calls no_deal_write (pipe m).
Proof. apply calls_lift. induction m as [a|R c e k IH]; cbn; auto. Qed.
Hint Resolve pipe_still : calls.

(** What a moved deal keeps. *)
Definition same_card (d d' : Deal) : Prop :=
  dl_key d' = dl_key d /\ dl_ConversationIDs d' = dl_ConversationIDs d /\ dl_PipelineID d' = dl_PipelineID d.

(** The effect on a list of deals: these, and only these, may have changed, in their stage
    only; all of them are settled when the loop succeeds. *)
Definition moved_all (tn pid st : string) (l : list Deal) (g : DealView) (r : result unit) (g' : DealView) : Prop :=
  (forall k, (forall d, d ∈ l -> k <> (tn, dl_ID d)) -> g' !! k = g !! k) /\
  (forall d, d ∈ l -> exists d', g' !! (tn, dl_ID d) = Some d' /\ same_card d d' /\
     (r = Ok tt -> left_alone pid st d' = true)).

Lemma automation_move_effect c tn st old g (Q : result unit -> DealView -> Prop) :
  RequireTenant c = Ok tn -> g !! (tn, dl_ID old) = Some old ->
  (forall e, Q (Err e) g) ->
  (forall r d', same_card old d' -> dl_StageID d' = st -> Q r (<[(tn, dl_ID old) := d']> g)) ->
  wp deal_contract (automation_move s c st old) Q g.
Proof.
  intros Hc Hold He HQ. unfold automation_move. apply wp_still_bind_ok; [eauto with calls|done|]. intros pl.
  destruct (findStage pl st) as [stage|] eqn:Hst; [|apply He]. apply wp_bind; [apply _|].
  apply wp_still; [exact (conj I (fun _ => I))|]. intros now. cbn zeta.
  assert (forall d, dl_ID d = dl_ID (applyStage stage now d)) as Hid
    by (intros d; unfold applyStage; by repeat case_match).
  set (d := set_dl_UpdatedAt now (applyStage stage now old)).
  assert (same_card old (stored_deal old d) /\ dl_StageID (stored_deal old d) = st) as [Hs1 Hs2].
  { split; [unfold same_card, d, applyStage; by repeat case_match|].
    rewrite <- (findStage_id _ _ _ Hst). unfold d, applyStage. by repeat case_match. }
  assert (forall r, Q r (<[(tn, dl_ID old) := stored_deal old d]> g)) as HQ' by (intros r; by apply HQ).
  assert (dl_ID d = dl_ID old) as Hd by (unfold d; cbn; by rewrite <- Hid).
  clearbody d. apply wp_bind_ok; [apply _|]. split; [done|]. intros r g' Hr. unfold embed, deal_own in Hr. cbn in Hr.
  rewrite Hd in Hr. destruct Hr as [[-> Hf]|(tn' & old' & Hc' & Hold' & ->)].
  { destruct r as [[]|e]; [done|apply He]. }
  assert (tn' = tn) as -> by congruence. assert (old' = old) as -> by congruence.
  destruct r as [[]|e]; [|apply HQ']. cbn [wp]. apply wp_still; [|done].
  unfold Deals.audit, auditMove, publishDeal, PublishAll, recordStageMove, recordTimeline, notifyMoved, moveAudience.
  by repeat still_step.
Qed.

Lemma automation_moves_effect c tn pid st l g :
  RequireTenant c = Ok tn -> NoDup (map dl_ID l) -> (forall d, d ∈ l -> g !! (tn, dl_ID d) = Some d) ->
  wp deal_contract (automation_moves s c pid st l) (moved_all tn pid st l g) g.
Proof.
  intros Hc. revert g. induction l as [|d l IH]; intros g Hnd Hin; cbn [automation_moves].
  { split; [done|]. intros d Hd. by apply elem_of_nil in Hd. }
  cbn [map] in Hnd. apply NoDup_cons in Hnd as [Hd Hnd].
  assert (g !! (tn, dl_ID d) = Some d) as Hgd by (apply Hin; left).
  assert (forall d2, d2 ∈ l -> dl_ID d2 <> dl_ID d) as Hne.
  { intros d2 H2 Heq. apply Hd. rewrite <- Heq. by apply list_elem_of_fmap_2. }
  (* the rest of the list, from a store where [d] became [d'] *)
  assert (forall g1 d', g1 !! (tn, dl_ID d) = Some d' -> (forall k, k <> (tn, dl_ID d) -> g1 !! k = g !! k) ->
      same_card d d' -> left_alone pid st d' = true ->
      wp deal_contract (automation_moves s c pid st l) (moved_all tn pid st (d :: l) g) g1) as Hrest.
  { intros g1 d' Hd' Hframe Hsame Hleft. eapply wp_mono; [apply _| |apply IH; [done|]].
    - intros r g' [Hout Hall]. split.
      + intros k Hk. rewrite Hout; [apply Hframe, Hk; left|]. intros d2 H2. apply Hk. by right.
      + intros d2 [->|H2]%elem_of_cons; [|by apply Hall]. exists d'. split; [|done].
        rewrite Hout; [done|]. intros d2 H2 [= Heq]. by apply (Hne d2 H2).
    - intros d2 H2. rewrite Hframe; [apply Hin; by right|]. intros [= Heq]. by apply (Hne d2 H2). }
  destruct (left_alone pid st d) eqn:Hleft; [by apply (Hrest g d)|].
  apply wp_bind_ok; [apply _|]. apply (automation_move_effect c tn); [done|done| |].
  - intros e. split; [done|]. intros d2 H2. exists d2. by split; [apply Hin|].
  - intros r d' Hs Hst.
    assert (forall k, k <> (tn, dl_ID d) -> <[(tn, dl_ID d) := d']> g !! k = g !! k) as Hframe
      by (intros k Hk; by rewrite lookup_insert_ne).
    destruct r as [[]|e].
    + apply (Hrest _ d'); [by rewrite lookup_insert_eq|done|done|].
      unfold left_alone. rewrite Hst, (bool_decide_true _ eq_refl). apply orb_true_r.
    + split; [intros k Hk; apply Hframe, Hk; left|].
      intros d2 [->|H2]%elem_of_cons; [exists d'; by rewrite lookup_insert_eq|].
      exists d2. rewrite Hframe; [|by intros [= Heq]; apply (Hne d2 H2)]. split; [|done]. apply Hin. by right.
Qed.

Lemma automation_moves_idle c pid st l :
  Forall (fun d => left_alone pid st d = true) l -> automation_moves s c pid st l = Ret (Ok tt).
Proof. induction 1 as [|d l Hd _ IH]; cbn; [done|]. by rewrite Hd. Qed.

(** A deal of the tenant that links the conversation. *)
Definition linking (tn conv : string) (g : DealView) (d : Deal) : Prop :=
  g !! (tn, dl_ID d) = Some d /\ conv ∈ dl_ConversationIDs d.

(** The whole automation, seen from the store. *)
Lemma automation_effect c tn conv pid st g :
  RequireTenant c = Ok tn ->
  wp deal_contract (AutomationMoveDealStage s c conv pid st)
    (fun r g' =>
       (forall k d, g !! k = Some d -> trim_space conv ∉ dl_ConversationIDs d -> g' !! k = Some d) /\
       (r = Ok tt -> forall d, linking tn (trim_space conv) g' d ->
          left_alone (trim_space pid) (trim_space st) d = true) /\
       ((forall d, linking tn (trim_space conv) g d -> left_alone (trim_space pid) (trim_space st) d = true) ->
          g' = g)) g.
Proof.
  intros Hc. unfold AutomationMoveDealStage. rewrite Hc. cbn [bind_ok bind]. cbn zeta.
  do 2 (case_match; [done|]). apply wp_bind_ok; [apply _|]. split; [done|]. intros r g' Hr.
  unfold embed, deal_own in Hr. cbn in Hr. destruct Hr as [-> Hl]. destruct r as [l|e]; [|done].
  destruct (Hl l eq_refl) as [Hnd Hin].
  assert (forall d, d ∈ l <-> linking tn (trim_space conv) g d) as Hlink.
  { intros d. rewrite Hin. unfold held, linking. split; [intros [(tn' & Hc' & Hd) Hcv]|intros [Hd Hcv]].
    - split; [congruence|done].
    - split; [by exists tn|done]. }
  apply (wp_mono _ _ (fun r g' => moved_all tn (trim_space pid) (trim_space st) l g r g' /\
           (Forall (fun d => left_alone (trim_space pid) (trim_space st) d = true) l -> g' = g))).
  2: { assert (forall d, d ∈ l -> g !! (tn, dl_ID d) = Some d) as Hst by (intros d Hd; by apply Hlink).
       destruct (decide (Forall (fun d => left_alone (trim_space pid) (trim_space st) d = true) l)) as [Hidle|Hn].
       - rewrite automation_moves_idle by done. split; [|done]. split; [done|]. intros d Hd. exists d.
         split; [by apply Hst|]. split; [done|]. intros _. rewrite Forall_forall in Hidle. by apply Hidle.
       - eapply wp_mono; [apply _| |by apply automation_moves_effect]. by intros r g' Hm. }
  intros r g' [[Hout Hall] Hsame]. split; [|split].
  - intros k d Hd Hcv. rewrite Hout; [done|]. intros d2 H2 ->. apply Hlink in H2 as [H2 Hc2].
    assert (d2 = d) as -> by congruence. done.
  - intros Hok d [Hd Hcv]. destruct (decide (dl_ID d ∈ map dl_ID l)) as [(d2 & Hid & H2)%list_elem_of_fmap|Hno].
    + destruct (Hall d2 H2) as (d' & Hd' & _ & Hleft). rewrite <- Hid in Hd'. assert (d' = d) as -> by congruence.
      by apply Hleft.
    + exfalso. apply Hno, list_elem_of_fmap_2, Hlink. split; [|done]. rewrite <- Hout; [done|].
      intros d2 H2 [= Heq]. apply Hno. rewrite Heq. by apply list_elem_of_fmap_2.
  - intros Hidle. apply Hsame, Forall_forall. intros d Hd. by apply Hidle, Hlink.
Qed.
End Settles.

(** An automated move settles: when it succeeds, every deal that links the conversation is in
    the stage asked for or belongs to another pipeline, and running it again writes nothing;
    a deal that does not link the conversation is not touched, whether it succeeds or not. *)
Theorem automated_moves_settle (s : DealService) {S} (h : handler Ctx DealPort S) (view : S -> DealView)
    `{!DealStore h view} (c : Ctx) (tn conv pid st : string) (s0 : S) :
  RequireTenant c = Ok tn ->
  let '(r1, s1) := run h (AutomationMoveDealStage s c conv pid st) s0 in
  let '(r2, s2) := run h (AutomationMoveDealStage s c conv pid st) s1 in
  (forall k d, view s0 !! k = Some d -> trim_space conv ∉ dl_ConversationIDs d -> view s1 !! k = Some d) /\
  (r1 = Ok tt ->
     (forall d, view s1 !! (tn, dl_ID d) = Some d -> trim_space conv ∈ dl_ConversationIDs d ->
        (trim_space pid <> "" /\ dl_PipelineID d <> trim_space pid) \/ dl_StageID d = trim_space st) /\
     view s2 = view s1).
Proof.
  intros Hc. pose proof (deal_run h view _ _ s0 (automation_effect s c tn conv pid st (view s0) Hc)) as H1.
  destruct (run h (AutomationMoveDealStage s c conv pid st) s0) as [r1 s1]. destruct H1 as (Hout & Hleft & _).
  pose proof (deal_run h view _ _ s1 (automation_effect s c tn conv pid st (view s1) Hc)) as H2.
  destruct (run h (AutomationMoveDealStage s c conv pid st) s1) as [r2 s2]. destruct H2 as (_ & _ & Hidle).
  split; [exact Hout|]. intros Hok. split; [|by apply Hidle, Hleft].
  intros d Hd Hcv. specialize (Hleft Hok d (conj Hd Hcv)). unfold left_alone in Hleft.
  rewrite orb_true_iff, andb_true_iff, !negb_true_iff, !bool_decide_eq_true, !bool_decide_eq_false in Hleft. done.
Qed.

(** ** A world in memory *)

Module DealMemory.
(** The deals, the pipelines, what the timeline was told. *)
Record State := mkState { st_deals : DealView; st_funnels : PipeMemory.State; st_timeline : list string }.

Definition set_deals (g : DealView) (s : State) : State := mkState g (st_funnels s) (st_timeline s).
Definition set_funnels (p : PipeMemory.State) (s : State) : State := mkState (st_deals s) p (st_timeline s).
Definition not_found : error := NotFound "deal not found".

(** The well-keyed deals. *)
Definition view (s : State) : DealView := filter (fun kd => kd.1 = dl_key kd.2) (st_deals s).

Definition scoped {A} (c : Ctx) (s : State) (f : string -> result A * State) : result A * State :=
  match RequireTenant c with Ok tn => f tn | Err e => (Err e, s) end.

(** The deals of a tenant that satisfy [P]. *)
Definition select (tn : string) (P : Deal -> bool) (s : State) : list Deal :=
  map snd (filter (fun kd => kd.1.1 = tn /\ P kd.2 = true) (map_to_list (view s))).

Definition count_in (tn pid sid : string) (s : State) : Z :=
  Z.of_nat (length (select tn (fun d => (dl_PipelineID d =! pid) && (dl_StageID d =! sid)) s)).

Definition in_funnels {R} (r : R * PipeMemory.State) (s : State) : R * State := (r.1, set_funnels r.2 s).

(** The check of a stage's deals is the one this service answers. *)
Definition pipes {R} (c : Ctx) (e : PipePort R) (s : State) : R * State :=
  match e in PipePort R return R * State with
  | StageHasDeals_ pid sid => scoped c s (fun tn => (Ok (0 <? count_in tn pid sid s), s))
  | e => in_funnels (PipeMemory.handle _ c e (st_funnels s)) s
  end.

Definition catalog (id : string) : result ProductRef :=
  if id =! "router" then Ok (mkProductRef "Roteador" (of_int 250) "BRL" true)
  else Err (NotFound "product not found").

Definition handle : handler Ctx DealPort State := fun R c e s =>
  match e in DealPort R return R * State with
  | DlInfra e => in_funnels (PipeMemory.infra e (st_funnels s)) s
  | DlPipe e => pipes c e s
  | DealCreate d =>
      match st_deals s !! dl_key d with
      | Some _ => (Err (Conflict "duplicate key"), s)
      | None => (Ok tt, set_deals (<[dl_key d := d]> (st_deals s)) s)
      end
  | DealUpdate d => scoped c s (fun tn =>
      match view s !! (tn, dl_ID d) with
      | Some old => (Ok tt, set_deals (<[(tn, dl_ID d) := stored_deal old d]> (st_deals s)) s)
      | None => (Err not_found, s)
      end)
  | DealDelete id => scoped c s (fun tn => (Ok tt, set_deals (delete (tn, id) (st_deals s)) s))
  | DealFindByID id => scoped c s (fun tn =>
      match view s !! (tn, id) with Some d => (Ok d, s) | None => (Err not_found, s) end)
  | DealList _ _ _ => (Ok [], s)
  | CountByStage pid sid => scoped c s (fun tn => (Ok (count_in tn pid sid s), s))
  | FindByConversation conv => scoped c s (fun tn => (Ok (select tn (fun d => HasConversation d conv) s), s))
  | DlConversation _ => (Ok (mkConversationRef "" "" ""), s)
  | ContactExists _ => (Ok true, s)
  | ValidateTags _ => (Ok tt, s)
  | SectorAgents _ => (Ok [], s)
  | Product id => (catalog id, s)
  | ProductsEnabled => (Ok true, s)
  | DlPublish _ => (Ok tt, s)
  | DlPublishBatch _ => (Ok tt, s)
  | Timeline e => (tt, mkState (st_deals s) (st_funnels s) (st_timeline s ++ [tl_Kind e]))
  end.
End DealMemory.

Lemma deal_put s d :
  DealMemory.view (DealMemory.set_deals (<[dl_key d := d]> (DealMemory.st_deals s)) s) = <[dl_key d := d]> (DealMemory.view s).
Proof. unfold DealMemory.view. cbn. by rewrite map_filter_insert_True. Qed.

Lemma deal_keyed s tn i d : DealMemory.view s !! (tn, i) = Some d -> dl_TenantID d = tn /\ dl_ID d = i.
Proof. intros [_ Hk]%map_lookup_filter_Some. cbn in Hk. unfold dl_key in Hk. by injection Hk. Qed.

Lemma select_spec tn P s d : d ∈ DealMemory.select tn P s <-> DealMemory.view s !! (tn, dl_ID d) = Some d /\ P d = true.
Proof.
  unfold DealMemory.select. rewrite list_elem_of_fmap. split.
  - intros ([[t i] d'] & -> & [[Ht HP] Hin]%list_elem_of_filter). apply elem_of_map_to_list in Hin. cbn in *. subst t.
    destruct (deal_keyed _ _ _ _ Hin) as [_ <-]. done.
  - intros [Hd HP]. exists ((tn, dl_ID d), d). split; [done|]. apply list_elem_of_filter. split; [done|].
    by apply elem_of_map_to_list.
Qed.

(** An id appears once. *)
Lemma select_NoDup tn P s : NoDup (map dl_ID (DealMemory.select tn P s)).
Proof.
  unfold DealMemory.select. set (l := filter _ _).
  assert (Forall (fun kd : string * string * Deal => kd.1 = (tn, dl_ID kd.2)) l) as Hl.
  { apply Forall_forall. intros [[t i] d] [[Ht _] Hin]%list_elem_of_filter. apply elem_of_map_to_list in Hin. cbn in *.
    subst t. by destruct (deal_keyed _ _ _ _ Hin) as [_ <-]. }
  assert (NoDup (l.*1)) as Hnd.
  { apply (sublist_NoDup _ (map_to_list (DealMemory.view s)).*1); [apply NoDup_fst_map_to_list|].
    apply fmap_sublist, sublist_filter. }
  clearbody l. induction Hl as [|[k d] l Hk Hl IH]; cbn in *; constructor; apply NoDup_cons in Hnd as [Hkl Hnd]; [|by apply IH].
  intros (d2 & Hid & (kd & -> & Hin)%list_elem_of_fmap)%list_elem_of_fmap. apply Hkl.
  rewrite Forall_forall in Hl. specialize (Hl _ Hin). subst k. apply list_elem_of_fmap. exists kd. split; [|done].
  cbn in Hid. by rewrite Hl, Hid.
Qed.

#[export] Instance deal_memory : DealStore DealMemory.handle DealMemory.view.
Proof.
  split. intros R c e s. destruct e; cbn; unfold DealMemory.scoped; try done.
  - destruct e; try done. cbn. unfold DealMemory.scoped. by destruct (RequireTenant c).
  - destruct (DealMemory.st_deals s !! dl_key d) eqn:Hk; [by left|]. right. rewrite deal_put. split; [|done].
    apply map_lookup_filter_None. by left.
  - destruct (RequireTenant c) as [tn|] eqn:Hc; [|by left].
    destruct (DealMemory.view s !! (tn, dl_ID d)) as [old|] eqn:Hold; [|by left].
    right. exists tn, old. split; [done|]. split; [done|]. destruct (deal_keyed _ _ _ _ Hold) as [<- <-].
    apply (deal_put s (stored_deal old d)).
  - destruct (RequireTenant c) as [tn|] eqn:Hc; [|by left]. right. exists tn. split; [done|]. apply map_filter_delete.
  - destruct (RequireTenant c) as [tn|] eqn:Hc; [|done].
    destruct (DealMemory.view s !! (tn, id)) as [d|] eqn:Hd; [|done]. split; [done|]. intros ? [= <-].
    destruct (deal_keyed _ _ _ _ Hd) as [_ <-]. split; [|done]. by exists tn.
  - by destruct (RequireTenant c).
  - destruct (RequireTenant c) as [tn|] eqn:Hc; [|done]. split; [done|]. intros l [= <-].
    split; [apply select_NoDup|]. intros d. rewrite select_spec. unfold HasConversation. rewrite existsb_elem. unfold held.
    split; [intros [? ?]; split; [by exists tn|done]|].
    intros [(tn' & Hc' & Hd) ?]. split; [congruence|done].
  - split; [done|]. unfold DealMemory.catalog. case_match; [|done]. by intros p [= <-].
Qed.

Section Scenario.
Import DealMemory.

Definition wired : DealService := mkDealService true true true true true true true true.
Definition ana : Ctx := WithTenant Background "acme".

(** A funnel of three stages, and a deal that a conversation opened. *)
Definition sales : Pipeline :=
  mkPipeline "funnel" "acme" "Vendas" true
    [mkStage "new" "Novo" 0 false false ""; mkStage "offer" "Proposta" 1 false false "";
     mkStage "won" "Ganho" 2 true false ""] 0 0.

Definition card : Deal :=
  mkDeal "card" "acme" "funnel" "new" "" "Plano" (of_int 100) "BRL" "" "" ["chat"] [] "" StatusOpen "" None 0 None [] 0 0.

Definition a_world : State :=
  mkState {[("acme", "card") := card]} (PipeMemory.mkState {[("acme", "funnel") := sales]} 0 [] []) [].

(** A product added, the deal moved by an automation, and marked lost, their calls taking
    turns. *)
Definition three_requests : list DealOp :=
  [OpAddItem ana "card" (mkAddItem "router" 3); OpAutomationMove ana "chat" "funnel" "won"; OpMarkLost ana "card" "preço"].

Definition summary (s : State) : list (string * float64 * nat) :=
  map (fun kd => (dl_Status kd.2, dl_Value kd.2, length (dl_Items kd.2))) (map_to_list (view s)).

Lemma deals_stay_coherent_witness :
  let '(p, s1) := schedule handle (concat (replicate 12 [0; 1; 2]%nat)) (map (op_prog wired) three_requests) a_world in
  p = [Ret true; Ret true; Ret true] /\ summary s1 = [(StatusOpen, of_int 750, 1%nat)] /\
  map_Forall (fun k d => k = dl_key d /\ deal_ok d) (view s1).
Proof.
  set (r := schedule handle _ _ _).
  assert (steps handle (map (op_prog wired) three_requests, a_world) (r.1, r.2)) as Hsteps.
  { rewrite <- surjective_pairing. apply schedule_steps. }
  assert (r.1 = [Ret true; Ret true; Ret true] /\ summary r.2 = [(StatusOpen, of_int 750, 1%nat)]) as [Hp Hsum]
    by (vm_compute; by split).
  destruct r as [p s1]. cbn [fst snd] in *. split; [exact Hp|]. split; [exact Hsum|].
  apply (deals_stay_coherent wired handle view three_requests a_world p s1); [| |exact Hsteps].
  - repeat constructor.
  - assert (view a_world = {[("acme", "card") := card]}) as ->.
    { unfold view. cbn [st_deals a_world]. apply map_eq. intros k. vm_compute. reflexivity. }
    apply map_Forall_singleton. split; [reflexivity|]. split; cbn; try done; first [by left|by constructor|apply NoDup_singleton].
Defined.

Lemma automated_moves_settle_witness :
  let '(r1, s1) := run handle (AutomationMoveDealStage wired ana "chat" "funnel" "won") a_world in
  r1 = Ok tt /\ summary s1 = [(StatusWon, of_int 100, 0%nat)] /\ st_timeline s1 = [TimelineStageChanged; TimelineWon] /\
  view (run handle (AutomationMoveDealStage wired ana "chat" "funnel" "won") s1).2 = view s1.
Proof.
  pose proof (automated_moves_settle wired handle view ana "acme" "chat" "funnel" "won" a_world eq_refl) as H.
  destruct (run handle (AutomationMoveDealStage wired ana "chat" "funnel" "won") a_world) as [r1 s1] eqn:H1.
  assert (r1 = Ok tt /\ summary s1 = [(StatusWon, of_int 100, 0%nat)] /\ st_timeline s1 = [TimelineStageChanged; TimelineWon])
    as (Hr & Hs & Ht).
  { replace r1 with (run handle (AutomationMoveDealStage wired ana "chat" "funnel" "won") a_world).1 by (by rewrite H1).
    replace s1 with (run handle (AutomationMoveDealStage wired ana "chat" "funnel" "won") a_world).2 by (by rewrite H1).
    vm_compute. by repeat split. }
  split_and!; [exact Hr|exact Hs|exact Ht|].
  destruct (run handle _ s1) as [r2 s2]. by apply H.
Defined.

(** A stage removed under a deal: the check that no deal is in a stage is made before the
    pipeline is stored, so a deal moved in between stays in a stage its pipeline no longer
    has; one after the other, the removal is refused. *)
Theorem stage_removed_under_a_deal :
  let remove := lift (@DlPipe) (PipelineStore.op_prog true (PipelineStore.OpDeleteStage ana "funnel" "offer")) in
  let move := op_prog wired (OpMove ana "card" "offer") in
  let '(p, s) := schedule handle (repeat 0%nat 2 ++ repeat 1%nat 10 ++ repeat 0%nat 3) [remove; move] a_world in
  let '(q, s') := schedule handle (repeat 1%nat 10 ++ repeat 0%nat 3) [remove; move] a_world in
  let stages s := map (fun kp => map stg_ID (pp_Stages kp.2)) (map_to_list (PipeMemory.st_pipes (st_funnels s))) in
  let at_stage s := map (fun kd => dl_StageID kd.2) (map_to_list (view s)) in
  p = [Ret true; Ret true] /\ stages s = [["new"; "won"]] /\ at_stage s = ["offer"] /\
  q = [Ret false; Ret true] /\ stages s' = [["new"; "offer"; "won"]] /\ at_stage s' = ["offer"].
Proof. vm_compute. by repeat split. Qed.

(** An outcome overwritten: each request writes the whole card it read, so a product added
    while a seller marks the deal lost stores it open again, though both requests succeed
    and the timeline tells the loss; in turn, the deal stays lost and has its product. *)
Theorem outcome_overwritten_by_an_edit :
  let pool := map (op_prog wired) [OpAddItem ana "card" (mkAddItem "router" 3); OpMarkLost ana "card" "preço"] in
  let '(p, s) := schedule handle (repeat 0%nat 4 ++ repeat 1%nat 9 ++ repeat 0%nat 6) pool a_world in
  let '(q, s') := schedule handle (repeat 1%nat 9 ++ repeat 0%nat 10) pool a_world in
  p = [Ret true; Ret true] /\ summary s = [(StatusOpen, of_int 750, 1%nat)] /\ TimelineLost ∈ st_timeline s /\
  q = [Ret true; Ret true] /\ summary s' = [(StatusLost, of_int 750, 1%nat)].
Proof. vm_compute. split_and!; try done. repeat (left || right). Qed.

(** A catalog price and a 64-bit quantity can make a value infinite, which JSON cannot write:
    the largest float64 twice. *)
Theorem values_may_overflow :
  let most := SpecFloat.S754_finite false 9007199254740991 971 in
  price most = true /\ fmul (of_int 2) most = SpecFloat.S754_infinity false /\
  dl_Value (RecalcValue (set_dl_Items [mkDealItem "i" "p" "" 2 most fzero] card)) = SpecFloat.S754_infinity false.
Proof. vm_compute. by repeat split. Qed.
End Scenario.
