(* ===== verification/DealTasks.v ===== *)
(** * Deal tasks (domain/dealtasks)

    A seller's follow-ups on a deal: every operation, what an edit stores and what a filter
    matches (infra/database/mongodb/repositories/dealtasks). *)
From S2P Require Import Prelude GoStrings AppError Authz Shared ConvEntity Prog Ports ConvBase.

(** ** The aggregate (entity/task.go) *)

Definition StatusPending : string := "pending".
Definition StatusDone : string := "done".
Definition ValidStatus (s : string) : bool := (s =! StatusPending) || (s =! StatusDone).

Record DealTask := mkDealTask {
  tk_ID : string; tk_TenantID : string; tk_DealID : string; tk_Title : string; tk_Description : string;
  tk_DueDate : option Time; tk_AssignedTo : string; tk_Status : string; tk_CompletedAt : option Time;
  tk_CreatedBy : string; tk_CreatedAt : Time; tk_UpdatedAt : Time }.

Definition IsDone (t : DealTask) : bool := tk_Status t =! StatusDone.

(** ** Contracts (contracts/contracts.go) *)

Record CreateTask := mkCreateTask {
  nk_DealID : string; nk_Title : string; nk_Description : string; nk_DueDate : option Time; nk_AssignedTo : string }.
Record UpdateTask := mkUpdateTask {
  uk_Title : option string; uk_Description : option string; uk_DueDate : option Time; uk_ClearDueDate : bool;
  uk_AssignedTo : option string }.
Record TaskFilter := mkTaskFilter { tf_AssignedTo : string; tf_Status : string; tf_DueBefore : option Time }.
Record DealRef := mkDealRef { df_TenantID : string; df_SectorID : string; df_AssignedTo : string }.
Record TimelineEvent := mkTimelineEvent {
  te_DealID : string; te_Kind : string; te_ActorID : string; te_Data : list (string * value) }.
Record TaskView := mkTaskView {
  tv_ID : string; tv_DealID : string; tv_Title : string; tv_Description : string; tv_DueDate : option Time;
  tv_AssignedTo : string; tv_AssignedToName : string; tv_AssignedToAvatarURL : string; tv_Status : string;
  tv_CompletedAt : option Time; tv_CreatedBy : string; tv_CreatedByName : string; tv_CreatedAt : Time;
  tv_UpdatedAt : Time }.

Inductive TaskPort : Type -> Type :=
| TkNow : TaskPort Time
| TkNewID : TaskPort string
| TaskCreate (t : DealTask) : TaskPort (result unit)
| TaskUpdate (t : DealTask) : TaskPort (result unit)
| TaskDelete (id : string) : TaskPort (result unit)
| TaskByID (id : string) : TaskPort (result DealTask)
| TasksByDeal (dealID : string) (page : PageRequest) : TaskPort (result (list DealTask))
| TaskList (f : TaskFilter) (page : PageRequest) : TaskPort (result (list DealTask))
| DealOf (dealID : string) : TaskPort (result DealRef)
| TasksEnabled : TaskPort (result bool)
| AgentExists (userID : string) : TaskPort (result bool)
| TaskCards (userIDs : list string) : TaskPort (result (gmap string DisplayCard))
| TaskTimeline (ev : TimelineEvent) : TaskPort unit
| TaskNotify (n : NotifyInput) : TaskPort unit.

#[export] Instance tasks_own : Embed TaskPort TaskPort := fun R e => e.

Abbreviation TkM := (prog Ctx TaskPort).

(** ** The service (service/service.go) *)

Definition actorFromCtx (c : Ctx) : string :=
  match FromContext c with Some ac => if ac_UserID ac <>! "" then ac_UserID ac else "system" | None => "system" end.

(** The deal is in the actor's scope, its own, or of one of its sectors. *)
Definition ref_visible (ac : AuthContext) (ref : DealRef) : bool :=
  (ac_SectorScope ac =! ScopeAll) || (df_AssignedTo ref =! ac_UserID ac) ||
  existsb (fun sid => (sid <>! "") && (sid =! df_SectorID ref)) (ac_SectorIDs ac).

Definition enrich (cards : gmap string DisplayCard) (t : DealTask) : TaskView :=
  let assignee := cards !! tk_AssignedTo t in
  mkTaskView (tk_ID t) (tk_DealID t) (tk_Title t) (tk_Description t) (tk_DueDate t) (tk_AssignedTo t)
    (default "" (dc_Name <$> assignee)) (default "" (dc_AvatarURL <$> assignee)) (tk_Status t) (tk_CompletedAt t)
    (tk_CreatedBy t) (default "" (dc_Name <$> cards !! tk_CreatedBy t)) (tk_CreatedAt t) (tk_UpdatedAt t).

(** Which optional ports are wired; the order in which a set of ids is visited. *)
Record TaskService := mkTaskService {
  ks_gate : bool; ks_agents : bool; ks_cards : bool; ks_timeline : bool; ks_order : gset string -> list string }.

Section Service.
Context (s : TaskService).

Definition enabled (c : Ctx) : TkM (result bool) := if negb (ks_gate s) then Ret (Ok true) else ask c TasksEnabled.

Definition guardWrite (c : Ctx) : TkM (result string) :=
  try! tenantID := Ret (RequireTenant c) in
  try! on := enabled c in
  if negb on then Ret (Err (Conflict "the tasks module is disabled for this tenant")) else Ret (Ok tenantID).

Definition ensureVisible (c : Ctx) (dealID : string) : TkM (result DealRef) :=
  if blank dealID then Ret (Err (Validation "deal id is required"))
  else
    try! ref := ask c (DealOf dealID) in
    match FromContext c with
    | None => Ret (Err (Unauthorized "authentication required"))
    | Some ac => if ref_visible ac ref then Ret (Ok ref) else Ret (Err (NotFound "deal not found"))
    end.

Definition load (c : Ctx) (dealID taskID : string) : TkM (result DealTask) :=
  try! _ := ensureVisible c dealID in
  try! t := ask c (TaskByID taskID) in
  if tk_DealID t <>! dealID then Ret (Err (NotFound "task not found")) else Ret (Ok t).

Definition validateAssignee (c : Ctx) (userID : string) : TkM (result unit) :=
  if (userID =! "") || negb (ks_agents s) then Ret (Ok tt)
  else
    try! found := ask c (AgentExists userID) in
    if negb found then Ret (Err (Validation "assigned_to is not an agent of the tenant")) else Ret (Ok tt).

Definition record (c : Ctx) (t : DealTask) (kind : string) : TkM unit :=
  when! ks_timeline s do
    ask c (TaskTimeline (mkTimelineEvent (tk_DealID t) kind (actorFromCtx c)
             [("task_id", VStr (tk_ID t)); ("title", VStr (tk_Title t))])).

Definition notifyAssignee (c : Ctx) (t : DealTask) : TkM unit :=
  if (tk_AssignedTo t =! "") || (tk_AssignedTo t =! actorFromCtx c) then Ret tt
  else
    ask c (TaskNotify (mkNotify (tk_TenantID t) (tk_AssignedTo t) "deal.task_assigned"
             "Uma tarefa do CRM foi atribuída a você" (tk_Title t)
             ("/crm?deal=" +:+ tk_DealID t +:+ "&task=" +:+ tk_ID t))).

Definition card_ids (tasks : list DealTask) : gset string :=
  foldr (fun t ids => filter (fun i => i <> "") {[ tk_AssignedTo t; tk_CreatedBy t ]} ∪ ids) ∅ tasks.

(** One directory call; a failure leaves the names blank. *)
Definition cardsFor (c : Ctx) (tasks : list DealTask) : TkM (gmap string DisplayCard) :=
  if negb (ks_cards s) || (length tasks =? 0)%nat then Ret ∅
  else if decide (card_ids tasks = ∅) then Ret ∅
  else
    let! cards := ask c (TaskCards (ks_order s (card_ids tasks))) in
    Ret (match cards with Ok m => m | Err _ => ∅ end).

Definition views (c : Ctx) (tasks : list DealTask) : TkM (list TaskView) :=
  let! cards := cardsFor c tasks in Ret (map (enrich cards) tasks).
Definition view_of (c : Ctx) (t : DealTask) : TkM TaskView :=
  let! cards := cardsFor c [t] in Ret (enrich cards t).

Definition Create (c : Ctx) (cmd : CreateTask) : TkM (result TaskView) :=
  try! tenantID := guardWrite c in
  let dealID := trim_space (nk_DealID cmd) in
  try! _ := ensureVisible c dealID in
  let title := trim_space (nk_Title cmd) in
  if title =! "" then Ret (Err (Validation "title is required"))
  else
    let assignee := trim_space (nk_AssignedTo cmd) in
    try! _ := validateAssignee c assignee in
    let! now := ask c TkNow in
    let! id := ask c TkNewID in
    let t := mkDealTask id tenantID dealID title (trim_space (nk_Description cmd)) (nk_DueDate cmd) assignee
               StatusPending None (actorFromCtx c) now now in
    try! _ := ask c (TaskCreate t) in
    do! record c t "task_created" in
    do! notifyAssignee c t in
    let! v := view_of c t in Ret (Ok v).

Definition edit_title (v : option string) (old : string) : result string :=
  match v with
  | Some x => if trim_space x =! "" then Err (Validation "title is required") else Ok (trim_space x)
  | None => Ok old
  end.
Definition edit_due (cmd : UpdateTask) (old : option Time) : option Time :=
  if uk_ClearDueDate cmd then None else match uk_DueDate cmd with Some d => Some d | None => old end.
Definition edit_assignee (c : Ctx) (v : option string) (old : string) : TkM (result string) :=
  match v with
  | Some x => let a := trim_space x in try! _ := validateAssignee c a in Ret (Ok a)
  | None => Ret (Ok old)
  end.

Definition Update (c : Ctx) (dealID taskID : string) (cmd : UpdateTask) : TkM (result TaskView) :=
  try! _ := guardWrite c in
  try! t := load c dealID taskID in
  let prevAssignee := tk_AssignedTo t in
  try! title := Ret (edit_title (uk_Title cmd) (tk_Title t)) in
  let description := default (tk_Description t) (trim_space <$> uk_Description cmd) in
  let due := edit_due cmd (tk_DueDate t) in
  try! assignee := edit_assignee c (uk_AssignedTo cmd) (tk_AssignedTo t) in
  let! now := ask c TkNow in
  let t := mkDealTask (tk_ID t) (tk_TenantID t) (tk_DealID t) title description due assignee (tk_Status t)
             (tk_CompletedAt t) (tk_CreatedBy t) (tk_CreatedAt t) now in
  try! _ := ask c (TaskUpdate t) in
  do! (when! (tk_AssignedTo t <>! "") && (tk_AssignedTo t <>! prevAssignee) do notifyAssignee c t) in
  let! v := view_of c t in Ret (Ok v).

Definition completed (now : Time) (t : DealTask) : DealTask :=
  mkDealTask (tk_ID t) (tk_TenantID t) (tk_DealID t) (tk_Title t) (tk_Description t) (tk_DueDate t) (tk_AssignedTo t)
    StatusDone (Some now) (tk_CreatedBy t) (tk_CreatedAt t) now.

Definition Complete (c : Ctx) (dealID taskID : string) : TkM (result TaskView) :=
  try! _ := guardWrite c in
  try! t := load c dealID taskID in
  if IsDone t then let! v := view_of c t in Ret (Ok v)
  else
    let! now := ask c TkNow in
    let t := completed now t in
    try! _ := ask c (TaskUpdate t) in
    do! record c t "task_completed" in
    let! v := view_of c t in Ret (Ok v).

Definition Delete (c : Ctx) (dealID taskID : string) : TkM (result unit) :=
  try! _ := guardWrite c in
  try! t := load c dealID taskID in
  ask c (TaskDelete (tk_ID t)).

Definition ListByDeal (c : Ctx) (dealID : string) (page : PageRequest) : TkM (result (list TaskView)) :=
  try! _ := Ret (RequireTenant c) in
  try! on := enabled c in
  if negb on then Ret (Ok [])
  else
    try! _ := ensureVisible c dealID in
    try! tasks := ask c (TasksByDeal dealID (Normalize page)) in
    let! vs := views c tasks in Ret (Ok vs).

(** Without the whole tenant in scope, the filter is the actor's own tasks. *)
Definition ListMine (c : Ctx) (f : TaskFilter) (page : PageRequest) : TkM (result (list TaskView)) :=
  try! _ := Ret (RequireTenant c) in
  try! on := enabled c in
  if negb on then Ret (Ok [])
  else
    match FromContext c with
    | None => Ret (Err (Unauthorized "authentication required"))
    | Some ac =>
        let f := if ac_SectorScope ac <>! ScopeAll then mkTaskFilter (ac_UserID ac) (tf_Status f) (tf_DueBefore f) else f in
        try! tasks := ask c (TaskList f (Normalize page)) in
        let! vs := views c tasks in Ret (Ok vs)
    end.
End Service.

(** What [Update] stores: the [$set] fields over the stored document. *)
Definition stored_task (old new : DealTask) : DealTask :=
  mkDealTask (tk_ID old) (tk_TenantID old) (tk_DealID old) (tk_Title new) (tk_Description new) (tk_DueDate new)
    (tk_AssignedTo new) (tk_Status new) (tk_CompletedAt new) (tk_CreatedBy old) (tk_CreatedAt old) (tk_UpdatedAt new).

(** What [List] matches. *)
Definition filter_matches (f : TaskFilter) (t : DealTask) : bool :=
  ((tf_AssignedTo f =! "") || (tk_AssignedTo t =! tf_AssignedTo f)) &&
  ((tf_Status f =! "") || (tk_Status t =! tf_Status f)) &&
  match tf_DueBefore f with
  | None => true
  | Some b => match tk_DueDate t with Some d => d <=? b | None => false end
  end.
