(* ===== verification/DealTaskProps.v ===== *)
(** * Deal tasks: who changes them, who reads them

    However operations interleave, a task changes only by the hand of someone who sees its deal;
    the list of tasks is one's own; an edit that meets a completion undoes it. *)
From S2P Require Import Prelude GoStrings AppError Authz Shared ConvEntity Prog Ports ConvBase DealTasks.

(** ** The store *)

Abbreviation by_tenant := (@gmap (string * string) (prod_eq_dec : EqDecision (string * string)) prod_countable).

(** The tasks of each tenant, the deal of every task ever stored, the deals and the tenants whose
    tasks are switched on. *)
Record Board := mkBoard {
  bd_tasks : by_tenant DealTask; bd_ever : by_tenant string; bd_deals : by_tenant DealRef; bd_open : gset string }.

Definition put_task (tn : string) (t : DealTask) (v : Board) : Board :=
  mkBoard (<[(tn, tk_ID t) := t]> (bd_tasks v)) (<[(tn, tk_ID t) := tk_DealID t]> (bd_ever v)) (bd_deals v) (bd_open v).
Definition drop_task (tn id : string) (v : Board) : Board :=
  mkBoard (delete (tn, id) (bd_tasks v)) (bd_ever v) (bd_deals v) (bd_open v).

(** What a call does to the store and answers; a write that fails may have been applied. The
    identifier of a new task was never another's. *)
Definition task_step {R} (c : Ctx) (e : TaskPort R) (v : Board) (r : R) (v' : Board) : Prop :=
  match e in TaskPort R return R -> Prop with
  | TaskCreate t => fun r =>
      (v' = v /\ is_ok r = false) \/ (bd_ever v !! (tk_TenantID t, tk_ID t) = None /\ v' = put_task (tk_TenantID t) t v)
  | TaskUpdate t => fun r =>
      (v' = v /\ is_ok r = false) \/
      exists tn old, RequireTenant c = Ok tn /\ bd_tasks v !! (tn, tk_ID t) = Some old /\ v' = put_task tn (stored_task old t) v
  | TaskDelete id => fun r => (v' = v /\ is_ok r = false) \/ exists tn, RequireTenant c = Ok tn /\ v' = drop_task tn id v
  | TaskByID id => fun r =>
      v' = v /\ forall t, r = Ok t -> exists tn, RequireTenant c = Ok tn /\ bd_tasks v !! (tn, id) = Some t
  | TasksByDeal dealID _ => fun r =>
      v' = v /\ forall l t, r = Ok l -> t ∈ l ->
        exists tn id, RequireTenant c = Ok tn /\ bd_tasks v !! (tn, id) = Some t /\ tk_DealID t = dealID
  | TaskList f _ => fun r =>
      v' = v /\ forall l t, r = Ok l -> t ∈ l ->
        exists tn id, RequireTenant c = Ok tn /\ bd_tasks v !! (tn, id) = Some t /\ filter_matches f t = true
  | DealOf dealID => fun r =>
      v' = v /\ forall ref, r = Ok ref -> exists tn, RequireTenant c = Ok tn /\ bd_deals v !! (tn, dealID) = Some ref
  | TasksEnabled => fun r =>
      v' = v /\ forall b, r = Ok b -> exists tn, RequireTenant c = Ok tn /\ b = bool_decide (tn ∈ bd_open v)
  | _ => fun _ => v' = v
  end r.

Class TaskStore {S} (h : handler Ctx TaskPort S) (view : S -> Board) : Prop :=
  task_answers : forall R c (e : TaskPort R) st, task_step c e (view st) (h R c e st).1 (view (h R c e st).2).

(** ** What every task is *)

(** Named, and done exactly when it has the time of its completion. *)
Definition coherent_task (t : DealTask) : Prop :=
  tk_Title t <> "" /\
  (tk_Status t = StatusPending /\ tk_CompletedAt t = None \/ tk_Status t = StatusDone /\ is_Some (tk_CompletedAt t)).

Record coherent_board (v : Board) : Prop := {
  cb_keys : forall tn i t, bd_tasks v !! (tn, i) = Some t -> tk_ID t = i /\ tk_TenantID t = tn;
  cb_tasks : forall k t, bd_tasks v !! k = Some t -> coherent_task t;
  cb_ever : forall k t, bd_tasks v !! k = Some t -> bd_ever v !! k = Some (tk_DealID t);
}.

(** ** Operations *)

Inductive TaskOp : Type :=
| DoCreate (c : Ctx) (cmd : CreateTask)
| DoUpdate (c : Ctx) (dealID taskID : string) (cmd : UpdateTask)
| DoComplete (c : Ctx) (dealID taskID : string)
| DoDelete (c : Ctx) (dealID taskID : string)
| DoListByDeal (c : Ctx) (dealID : string) (page : PageRequest)
| DoListMine (c : Ctx) (f : TaskFilter) (page : PageRequest).

Definition op_ctx (op : TaskOp) : Ctx :=
  match op with
  | DoCreate c _ | DoUpdate c _ _ _ | DoComplete c _ _ | DoDelete c _ _ | DoListByDeal c _ _ | DoListMine c _ _ => c
  end.

(** The deal whose tasks an operation may write. *)
Definition op_deal (op : TaskOp) : option string :=
  match op with
  | DoCreate _ cmd => Some (trim_space (nk_DealID cmd))
  | DoUpdate _ d _ _ | DoComplete _ d _ | DoDelete _ d _ => Some d
  | DoListByDeal _ _ _ | DoListMine _ _ _ => None
  end.

Definition quietly {A} (m : TkM (result A)) : TkM (result unit) := try! _ := m in Ret (Ok tt).

Definition op_prog (s : TaskService) (op : TaskOp) : TkM (result unit) :=
  match op with
  | DoCreate c cmd => quietly (Create s c cmd)
  | DoUpdate c d i cmd => quietly (Update s c d i cmd)
  | DoComplete c d i => quietly (Complete s c d i)
  | DoDelete c d i => Delete s c d i
  | DoListByDeal c d p => quietly (ListByDeal s c d p)
  | DoListMine c f p => quietly (ListMine s c f p)
  end.

Definition gate_open (s : TaskService) (open : gset string) (tn : string) : Prop := ks_gate s = true -> tn ∈ open.

(** Some operation of the list acts on the deal, for someone who sees it, in a tenant that has tasks. *)
Definition permitted (s : TaskService) (v : Board) (ops : list TaskOp) (tn dealID : string) : Prop :=
  exists op ac ref, op ∈ ops /\ op_deal op = Some dealID /\ RequireTenant (op_ctx op) = Ok tn /\
    FromContext (op_ctx op) = Some ac /\ bd_deals v !! (tn, dealID) = Some ref /\ ref_visible ac ref = true /\
    gate_open s (bd_open v) tn.

(** ** The contract of an operation

    Its ghost state: the operation, and the tasks, deals and switches it was told. *)
Record Told := mkTold {
  td_op : TaskOp; td_tasks : list (string * string); td_deals : list (string * DealRef); td_open : list bool }.

Definition starting (op : TaskOp) : Told := mkTold op [] [] [].
Definition told_task (t : DealTask) (g : Told) : Told := mkTold (td_op g) ((tk_ID t, tk_DealID t) :: td_tasks g) (td_deals g) (td_open g).
Definition told_deal (d : string) (ref : DealRef) (g : Told) : Told := mkTold (td_op g) (td_tasks g) ((d, ref) :: td_deals g) (td_open g).
Definition told_open (b : bool) (g : Told) : Told := mkTold (td_op g) (td_tasks g) (td_deals g) (b :: td_open g).

(** The operation was told that its actor sees the deal and that tasks are on. *)
Definition entitled (s : TaskService) (g : Told) (dealID : string) : Prop :=
  op_deal (td_op g) = Some dealID /\ (ks_gate s = true -> true ∈ td_open g) /\
  exists ac ref, FromContext (op_ctx (td_op g)) = Some ac /\ (dealID, ref) ∈ td_deals g /\ ref_visible ac ref = true.

Definition task_pre (s : TaskService) (R : Type) (c : Ctx) (e : TaskPort R) (g : Told) : Prop :=
  c = op_ctx (td_op g) /\
  match e with
  | TaskCreate t => coherent_task t /\ RequireTenant c = Ok (tk_TenantID t) /\ entitled s g (tk_DealID t)
  | TaskUpdate t => coherent_task t /\ (tk_ID t, tk_DealID t) ∈ td_tasks g /\ entitled s g (tk_DealID t)
  | TaskDelete id => exists d, (id, d) ∈ td_tasks g /\ entitled s g d
  | _ => True
  end.

Definition task_post (R : Type) (c : Ctx) (e : TaskPort R) (g : Told) (r : R) (g' : Told) : Prop :=
  match e in TaskPort R return R -> Prop with
  | TaskByID _ => fun r => match r with Ok t => coherent_task t /\ g' = told_task t g | Err _ => g' = g end
  | DealOf d => fun r => match r with Ok ref => g' = told_deal d ref g | Err _ => g' = g end
  | TasksEnabled => fun r => match r with Ok b => g' = told_open b g | Err _ => g' = g end
  | _ => fun _ => g' = g
  end r.

Definition task_contract (s : TaskService) : contract Ctx TaskPort Told := pre_post (task_pre s) task_post.

#[export] Instance task_mono s : Monotone (task_contract s).
Proof. apply pre_post_mono. Qed.

Section Careful.
Context (s : TaskService) (op : TaskOp).
Let c : Ctx := op_ctx op.

(** A program that leaves what was told as it is, whatever it is answered. *)
Definition quiet {A} (m : TkM A) : Prop :=
  forall Q g, td_op g = op -> (forall a, Q a g) -> wp (task_contract s) m Q g.

Definition silent {R} (e : TaskPort R) : Prop :=
  match e with
  | TaskCreate _ | TaskUpdate _ | TaskDelete _ | TaskByID _ | DealOf _ | TasksEnabled => False
  | _ => True
  end.

Lemma quiet_ret {A} (a : A) : quiet (Ret a).
Proof. intros Q g _ HQ. apply HQ. Qed.

Lemma quiet_ask {R} (e : TaskPort R) : silent e -> quiet (ask c e).
Proof.
  intros He Q g Hop HQ. split; [split; [by unfold c; rewrite Hop|by destruct e]|].
  intros r g' Hr. destruct e; try done; cbn in Hr; subst; apply HQ.
Qed.

Lemma task_quiet_bind {A B} (m : TkM A) (f : A -> TkM B) : quiet m -> (forall a, quiet (f a)) -> quiet (bind m f).
Proof. intros Hm Hf Q g Hop HQ. apply wp_bind; [apply _|]. apply Hm; [done|]. intros a. by apply Hf. Qed.

Lemma task_quiet_bind_ok {A B} (m : TkM (result A)) (f : A -> TkM (result B)) :
  quiet m -> (forall a, quiet (f a)) -> quiet (bind_ok m f).
Proof. intros Hm Hf. apply task_quiet_bind; [done|]. intros [a|e]; [apply Hf|apply quiet_ret]. Qed.

Ltac quiet_step :=
  first [ apply quiet_ret
        | apply quiet_ask; exact I
        | apply task_quiet_bind_ok; [|intros ?]
        | apply task_quiet_bind; [|intros ?]
        | case_match ].

Lemma quiet_cards l : quiet (cardsFor s c l).
Proof. unfold cardsFor. repeat quiet_step. Qed.

Lemma quiet_view t : quiet (view_of s c t).
Proof. unfold view_of. apply task_quiet_bind; [apply quiet_cards|intros ?; apply quiet_ret]. Qed.

Lemma quiet_views l : quiet (views s c l).
Proof. unfold views. apply task_quiet_bind; [apply quiet_cards|intros ?; apply quiet_ret]. Qed.

Lemma quiet_record t kind : quiet (record s c t kind).
Proof. unfold record. repeat quiet_step. Qed.

Lemma quiet_notify t : quiet (notifyAssignee c t).
Proof. unfold notifyAssignee. repeat quiet_step. Qed.

Lemma quiet_assignee a : quiet (validateAssignee s c a).
Proof. unfold validateAssignee. repeat quiet_step. Qed.

Lemma quiet_edit_assignee v old : quiet (edit_assignee s c v old).
Proof. unfold edit_assignee. destruct v; [apply task_quiet_bind_ok; [apply quiet_assignee|intros ?]|]; apply quiet_ret. Qed.

(** A program each of whose calls the contract allows. *)
Definition careful {A} (m : TkM A) : Prop := forall g, td_op g = op -> wp (task_contract s) m (fun _ _ => True) g.

Lemma careful_quiet {A} (m : TkM A) : quiet m -> careful m.
Proof. intros Hm g Hop. by apply Hm. Qed.

Definition on (g : Told) : Prop := ks_gate s = true -> true ∈ td_open g.

Lemma enabled_tells Q g : td_op g = op ->
  (forall b g', td_op g' = op -> (b = true -> on g') -> Q (Ok b) g') -> (forall e, Q (Err e) g) ->
  wp (task_contract s) (enabled s c) Q g.
Proof.
  intros Hop Hk He. unfold enabled. destruct (ks_gate s) eqn:Hg; cbn [negb].
  - split; [by split; [unfold c; rewrite Hop|]|]. intros [b|e] g'; cbn; [|by intros ->]. intros ->. apply Hk; [done|].
    intros -> _. left.
  - apply Hk; [done|]. intros _ H. congruence.
Qed.

Lemma guard_tells {A} (k : string -> TkM (result A)) g : td_op g = op ->
  (forall tn g', td_op g' = op -> RequireTenant c = Ok tn -> on g' -> wp (task_contract s) (k tn) (fun _ _ => True) g') ->
  wp (task_contract s) (try! tn := guardWrite s c in k tn) (fun _ _ => True) g.
Proof.
  intros Hop Hk. unfold guardWrite. destruct (RequireTenant c) as [tn|e] eqn:Hc; [|done]. cbn [bind_ok bind].
  apply wp_bind_ok; [apply _|]. apply wp_bind_ok; [apply _|]. apply enabled_tells; [done| |done].
  intros [] g' Hop' Hon; cbn; [|done]. apply Hk; auto.
Qed.

(** What the operation was told entitles it to write the tasks of its deal. *)
Lemma visible_tells d Q g : td_op g = op -> on g -> op_deal op = Some d ->
  (forall ref g', td_op g' = op -> td_tasks g' = td_tasks g -> entitled s g' d -> Q (Ok ref) g') ->
  (forall e g', Q (Err e) g') ->
  wp (task_contract s) (ensureVisible c d) Q g.
Proof.
  intros Hop Hon Hd Hk He. unfold ensureVisible. destruct (blank d); [apply He|].
  apply wp_bind_ok; [apply _|]. apply wp_call; [by split; [unfold c; rewrite Hop|]|]. intros [ref|e] g'; cbn -[FromContext]; intros ->; [|apply He].
  destruct (FromContext c) as [ac|] eqn:Hac; [|apply He]. destruct (ref_visible ac ref) eqn:Hv; [|apply He].
  apply Hk; [done|done|]. unfold entitled. cbn. rewrite Hop. split; [done|]. split; [done|]. exists ac, ref.
  split; [done|]. split; [left|done].
Qed.

Lemma load_tells d i Q g : td_op g = op -> on g -> op_deal op = Some d ->
  (forall t g', td_op g' = op -> coherent_task t -> (tk_ID t, tk_DealID t) ∈ td_tasks g' -> entitled s g' (tk_DealID t) ->
     Q (Ok t) g') ->
  (forall e g', Q (Err e) g') ->
  wp (task_contract s) (load c d i) Q g.
Proof.
  intros Hop Hon Hd Hk He. unfold load. apply wp_bind_ok; [apply _|]. apply visible_tells; [done|done|done| |done].
  intros _ g1 Hop1 _ Hent. apply wp_bind_ok; [apply _|]. apply wp_call; [by split; [unfold c; rewrite Hop1|]|].
  intros [t|e] g'; cbn; [|intros _; apply He]. intros [Hcoh ->].
  destruct (tk_DealID t <>! d) eqn:Hne; [apply He|]. apply negb_false_iff, bool_decide_eq_true in Hne. subst d.
  apply Hk; [done|done|left|]. destruct Hent as (H1 & H2 & H3). by repeat split.
Qed.

(** A write the operation is entitled to, and quiet calls after it. *)
Lemma task_written_carefully {R A} (e : TaskPort (result R)) (k : R -> TkM (result A)) g :
  td_op g = op -> task_pre s _ c e g -> (forall r g', task_post _ c e g r g' -> g' = g) -> (forall r, quiet (k r)) ->
  wp (task_contract s) (try! r := ask c e in k r) (fun _ _ => True) g.
Proof.
  intros Hop Hpre Hpost Hk. apply wp_bind_ok; [apply _|]. apply wp_call; [done|].
  intros [r|err] g' Hr; [|done]. rewrite (Hpost _ _ Hr). by apply Hk.
Qed.

Lemma same_op (g : Told) : td_op g = op -> c = op_ctx (td_op g).
Proof. by intros ->. Qed.
End Careful.

Lemma task_created_carefully s c cmd : careful s (DoCreate c cmd) (Create s c cmd).
Proof.
  intros g Hop. unfold Create. apply (guard_tells s (DoCreate c cmd)); [done|]. intros tn g1 Hop1 Htn Hon.
  apply wp_bind_ok; [apply _|]. apply (visible_tells s (DoCreate c cmd)); [done|done|done| |done].
  intros _ g2 Hop2 _ Hent. destruct (trim_space (nk_Title cmd) =! "") eqn:Ht; [done|]. apply bool_decide_eq_false in Ht.
  apply wp_bind_ok; [apply _|]. apply (quiet_assignee s (DoCreate c cmd)); [done|]. intros [[]|e]; [|done].
  apply wp_bind; [apply _|]. apply (quiet_ask s (DoCreate c cmd)); [done|done|]. intros now.
  apply wp_bind; [apply _|]. apply (quiet_ask s (DoCreate c cmd)); [done|done|]. intros id.
  apply (task_written_carefully s (DoCreate c cmd)); [done| |done|].
  - split; [by rewrite Hop2|]. cbn. split; [split; [done|by left]|done].
  - intros []. apply task_quiet_bind; [apply (quiet_record s (DoCreate c cmd))|intros _].
    apply task_quiet_bind; [apply (quiet_notify s (DoCreate c cmd))|intros _].
    apply task_quiet_bind; [apply (quiet_view s (DoCreate c cmd))|intros v; apply quiet_ret].
Qed.

Lemma edit_title_named v old t : old <> "" -> edit_title v old = Ok t -> t <> "".
Proof. unfold edit_title. intros Hold. destruct v; [|by intros [= <-]]. case_bool_decide; [done|]. by intros [= <-]. Qed.

Lemma task_updated_carefully s c d i cmd : careful s (DoUpdate c d i cmd) (Update s c d i cmd).
Proof.
  intros g Hop. unfold Update. apply (guard_tells s (DoUpdate c d i cmd)); [done|]. intros tn g1 Hop1 Htn Hon.
  apply wp_bind_ok; [apply _|]. apply (load_tells s (DoUpdate c d i cmd)); [done|done|done| |done].
  intros t g2 Hop2 [Htitle Hst] Hin Hent.
  destruct (edit_title (uk_Title cmd) (tk_Title t)) as [title|e] eqn:Het; [|done]. cbn [bind_ok bind].
  apply wp_bind_ok; [apply _|]. apply (quiet_edit_assignee s (DoUpdate c d i cmd)); [done|]. intros [a|e]; [|done].
  apply wp_bind; [apply _|]. apply (quiet_ask s (DoUpdate c d i cmd)); [done|done|]. intros now.
  apply (task_written_carefully s (DoUpdate c d i cmd)); [done| |done|].
  - split; [by rewrite Hop2|]. cbn. split; [split; [by eapply edit_title_named|done]|done].
  - intros []. cbn. apply task_quiet_bind; [|intros _; apply task_quiet_bind; [apply (quiet_view s (DoUpdate c d i cmd))|intros v; apply quiet_ret]].
    case_match; [apply (quiet_notify s (DoUpdate c d i cmd))|apply quiet_ret].
Qed.

Lemma completed_carefully s c d i : careful s (DoComplete c d i) (Complete s c d i).
Proof.
  intros g Hop. unfold Complete. apply (guard_tells s (DoComplete c d i)); [done|]. intros tn g1 Hop1 Htn Hon.
  apply wp_bind_ok; [apply _|]. apply (load_tells s (DoComplete c d i)); [done|done|done| |done].
  intros t g2 Hop2 [Htitle Hst] Hin Hent. destruct (IsDone t).
  { apply (careful_quiet s (DoComplete c d i)); [|done]. apply task_quiet_bind; [apply (quiet_view s (DoComplete c d i))|intros v; apply quiet_ret]. }
  apply wp_bind; [apply _|]. apply (quiet_ask s (DoComplete c d i)); [done|done|]. intros now.
  apply (task_written_carefully s (DoComplete c d i)); [done| |done|].
  - split; [by rewrite Hop2|]. cbn. split; [split; [done|by right]|done].
  - intros []. apply task_quiet_bind; [apply (quiet_record s (DoComplete c d i))|intros _].
    apply task_quiet_bind; [apply (quiet_view s (DoComplete c d i))|intros v; apply quiet_ret].
Qed.

Lemma deleted_carefully s c d i : careful s (DoDelete c d i) (Delete s c d i).
Proof.
  intros g Hop. unfold Delete. apply (guard_tells s (DoDelete c d i)); [done|]. intros tn g1 Hop1 Htn Hon.
  apply wp_bind_ok; [apply _|]. apply (load_tells s (DoDelete c d i)); [done|done|done| |done].
  intros t g2 Hop2 _ Hin Hent. apply wp_call; [|done]. split; [by rewrite Hop2|]. by exists (tk_DealID t).
Qed.

Lemma listed_carefully s c d p : careful s (DoListByDeal c d p) (ListByDeal s c d p).
Proof.
  intros g Hop. unfold ListByDeal, ensureVisible. destruct (RequireTenant c); [|done]. cbn [bind_ok bind].
  apply wp_bind_ok; [apply _|]. apply (enabled_tells s (DoListByDeal c d p)); [done| |done].
  intros b g1 Hop1 _. destruct b; cbn [negb]; [|done]. destruct (blank d); [done|].
  apply wp_bind_ok; [apply _|]. apply wp_bind_ok; [apply _|]. apply wp_call; [by split; [rewrite Hop1|]|]. intros [ref|e] g2; [|done].
  intros Hg2. cbn in Hg2. subst g2. destruct (FromContext c); [|done]. destruct (ref_visible _ ref); [|done]. cbn [wp].
  apply (careful_quiet s (DoListByDeal c d p)); [|done].
  apply task_quiet_bind_ok; [by apply (quiet_ask s (DoListByDeal c d p))|intros l].
  apply task_quiet_bind; [apply (quiet_views s (DoListByDeal c d p))|intros v; apply quiet_ret].
Qed.

Lemma mine_carefully s c f p : careful s (DoListMine c f p) (ListMine s c f p).
Proof.
  intros g Hop. unfold ListMine. destruct (RequireTenant c); [|done]. cbn [bind_ok bind].
  apply wp_bind_ok; [apply _|]. apply (enabled_tells s (DoListMine c f p)); [done| |done].
  intros b g1 Hop1 _. destruct b; cbn [negb]; [|done]. destruct (FromContext c); [|done].
  apply (careful_quiet s (DoListMine c f p)); [|done].
  apply task_quiet_bind_ok; [by apply (quiet_ask s (DoListMine c f p))|intros l].
  apply task_quiet_bind; [apply (quiet_views s (DoListMine c f p))|intros v; apply quiet_ret].
Qed.

Lemma task_op_careful s op : careful s op (op_prog s op).
Proof.
  assert (forall A (m : TkM (result A)), careful s op m -> careful s op (quietly m)) as Hq.
  { intros A m Hm g Hop. apply wp_bind_ok; [apply _|]. eapply wp_mono; [apply _| |by apply Hm]. by intros [a|e]. }
  destruct op; cbn [op_prog]; try apply Hq;
    [apply task_created_carefully|apply task_updated_carefully|apply completed_carefully|apply deleted_carefully
    |apply listed_carefully|apply mine_carefully].
Qed.

(** ** Interleavings *)

Section Interleaved.
Context (s : TaskService) (v0 : Board) (ops : list TaskOp).

Definition true_of (v : Board) (g : Told) : Prop :=
  td_op g ∈ ops /\
  (forall i d, (i, d) ∈ td_tasks g -> exists tn, RequireTenant (op_ctx (td_op g)) = Ok tn /\ bd_ever v !! (tn, i) = Some d) /\
  (forall d ref, (d, ref) ∈ td_deals g -> exists tn, RequireTenant (op_ctx (td_op g)) = Ok tn /\ bd_deals v !! (tn, d) = Some ref) /\
  (true ∈ td_open g -> exists tn, RequireTenant (op_ctx (td_op g)) = Ok tn /\ tn ∈ bd_open v).

Record Inv (gs : list Told) (v : Board) : Prop := {
  inv_coherent : coherent_board v;
  inv_told : Forall (true_of v) gs;
  inv_deals : bd_deals v = bd_deals v0;
  inv_open : bd_open v = bd_open v0;
  inv_kept : forall tn i t, bd_tasks v0 !! (tn, i) = Some t ->
    bd_tasks v !! (tn, i) = Some t \/ permitted s v0 ops tn (tk_DealID t);
  inv_made : forall tn i t, bd_tasks v !! (tn, i) = Some t ->
    bd_tasks v0 !! (tn, i) = Some t \/ permitted s v0 ops tn (tk_DealID t);
}.

Lemma task_Inv_tell gs v i g : Inv gs v -> true_of v g -> Inv (<[i := g]> gs) v.
Proof. intros [? ? ? ? ? ?] Hg. split; try done. by apply Forall_insert. Qed.

Lemma task_Inv_told gs v i g : Inv gs v -> gs !! i = Some g -> true_of v g.
Proof. intros HI Hi. by eapply Forall_lookup_1; [apply inv_told|]. Qed.

(** What an operation was told it may do is permitted. *)
Lemma entitled_permitted gs v g d tn :
  Inv gs v -> true_of v g -> entitled s g d -> RequireTenant (op_ctx (td_op g)) = Ok tn -> permitted s v0 ops tn d.
Proof.
  intros HI (Hin & _ & Hd & Ho) (Hod & Hon & ac & ref & Hac & Href & Hv) Htn. destruct (Hd _ _ Href) as (tn' & Htn' & Hr).
  assert (tn' = tn) as -> by congruence. rewrite (inv_deals _ _ HI) in Hr. exists (td_op g), ac, ref. split_and!; try done.
  intros Hg. destruct (Ho (Hon Hg)) as (tn' & ? & Hop). rewrite (inv_open _ _ HI) in Hop. congruence.
Qed.

(** A task of a permitted deal is stored. *)
Lemma Inv_put gs v tn t :
  Inv gs v -> coherent_task t -> tk_TenantID t = tn -> permitted s v0 ops tn (tk_DealID t) ->
  (forall d, bd_ever v !! (tn, tk_ID t) = Some d -> d = tk_DealID t) ->
  Inv gs (put_task tn t v).
Proof.
  intros [[Hk Hc He] Ht Hd Ho Hkept Hmade] Hcoh Htn Hperm Hever. split; cbn; try done.
  - split; cbn; [intros tn' i t'|intros k t'|intros k t']; intros [[[= <- <-] <-]|[Hne H]]%lookup_insert_Some
      || intros [[<- <-]|[Hne H]]%lookup_insert_Some; eauto.
    + by rewrite lookup_insert_eq.
    + rewrite lookup_insert_ne by done. by apply He.
  - eapply Forall_impl; [exact Ht|]. intros g (Hin & H1 & H2 & H3). split_and!; try done.
    intros i d Hi. destruct (H1 _ _ Hi) as (tn' & Htn' & Hl). exists tn'. split; [done|]. cbn.
    destruct (decide ((tn, tk_ID t) = (tn', i))) as [[= <- <-]|Hne]; [|by rewrite lookup_insert_ne].
    rewrite lookup_insert_eq. by rewrite (Hever _ Hl).
  - intros tn' i t' H0. destruct (decide ((tn, tk_ID t) = (tn', i))) as [[= <- <-]|Hne].
    + destruct (Hkept _ _ _ H0) as [H|H]; [|by right]. right. by rewrite (Hever _ (He _ _ H)).
    + rewrite lookup_insert_ne by done. by apply Hkept.
  - intros tn' i t' [[[= <- <-] <-]|[Hne H]]%lookup_insert_Some; [by right|by apply Hmade].
Qed.

Lemma Inv_drop gs v tn i d :
  Inv gs v -> bd_ever v !! (tn, i) = Some d -> permitted s v0 ops tn d -> Inv gs (drop_task tn i v).
Proof.
  intros [[Hk Hc He] Ht Hd Ho Hkept Hmade] Hever Hperm. split; cbn; try done.
  - split; cbn; intros * [_ H]%lookup_delete_Some; eauto.
  - intros tn' j t' H0. destruct (decide ((tn, i) = (tn', j))) as [[= <- <-]|Hne].
    + destruct (Hkept _ _ _ H0) as [H|H]; [|by right]. right. assert (d = tk_DealID t') as <-; [|done].
      rewrite (He _ _ H) in Hever. congruence.
    + rewrite lookup_delete_ne by done. by apply Hkept.
  - intros tn' j t' [_ H]%lookup_delete_Some. by apply Hmade.
Qed.

(** What the store reads is told to the operation that asked. *)
Lemma told_task_true gs v g t tn :
  Inv gs v -> true_of v g -> RequireTenant (op_ctx (td_op g)) = Ok tn -> bd_tasks v !! (tn, tk_ID t) = Some t ->
  true_of v (told_task t g).
Proof.
  intros HI (H1 & H2 & H3 & H4) Htn Hl. split_and!; try done. intros i d [[= -> ->]|Hi]%elem_of_cons; [|by apply H2].
  exists tn. split; [done|]. by apply (cb_ever _ (inv_coherent _ _ HI)).
Qed.

Lemma task_step_keeps gs v i g R c (e : TaskPort R) r v' :
  Inv gs v -> gs !! i = Some g -> task_pre s R c e g -> task_step c e v r v' ->
  exists g', task_post R c e g r g' /\ Inv (<[i := g']> gs) v'.
Proof.
  intros HI Hi [-> Hpre] Hstep. pose proof (task_Inv_told _ _ _ _ HI Hi) as Hg.
  assert (Inv (<[i := g]> gs) v) as Hsame by by apply task_Inv_tell.
  destruct e; cbn in Hpre, Hstep |- *; try (subst v'; by exists g); try (destruct Hstep as [-> _]; by exists g).
  - exists g. split; [done|]. destruct Hstep as [[-> _]|[Hn ->]]; [done|]. destruct Hpre as (Hc & Htn & Hent).
    eapply Inv_put; [done|done|done|by eapply entitled_permitted|]. intros d Hd. congruence.
  - exists g. split; [done|]. destruct Hpre as (Hc & Hin & Hent). destruct Hstep as [[-> _]|(tn & old & Htn & Hold & ->)]; [done|].
    pose proof Hg as (_ & Htold & _). destruct (Htold _ _ Hin) as (tn' & Htn' & Hever). assert (tn' = tn) as -> by congruence.
    pose proof (inv_coherent _ _ HI) as [Hk _ He]. destruct (Hk _ _ _ Hold) as [Hid Hten].
    pose proof (He _ _ Hold) as Hd. rewrite Hd in Hever. injection Hever as Hdeal.
    eapply Inv_put; cbn; [done|done|done|rewrite Hdeal; by eapply entitled_permitted|]. intros d. rewrite Hid. congruence.
  - exists g. split; [done|]. destruct Hpre as (d & Hin & Hent). destruct Hstep as [[-> _]|(tn & Htn & ->)]; [done|].
    pose proof Hg as (_ & Htold & _). destruct (Htold _ _ Hin) as (tn' & Htn' & Hever). assert (tn' = tn) as -> by congruence.
    eapply Inv_drop; [done|done|by eapply entitled_permitted].
  - destruct Hstep as [-> Hx]. destruct r as [t|e]; [|by exists g]. destruct (Hx t eq_refl) as (tn & Htn & Hl).
    pose proof (inv_coherent _ _ HI) as [Hk Hc _]. destruct (Hk _ _ _ Hl) as [Hid _]. exists (told_task t g).
    split; [by split; [eapply Hc|]|]. apply task_Inv_tell; [done|]. eapply told_task_true; [done|done|done|]. by rewrite Hid.
  - destruct Hstep as [-> Hx]. destruct r as [ref|e]; [|by exists g]. exists (told_deal dealID ref g). split; [done|].
    apply task_Inv_tell; [done|]. destruct Hg as (H1 & H2 & H3 & H4). split_and!; try done.
    intros d ref' [[= -> ->]|Hin]%elem_of_cons; [by apply Hx|by apply H3].
  - destruct Hstep as [-> Hx]. destruct r as [b|e]; [|by exists g]. exists (told_open b g). split; [done|].
    apply task_Inv_tell; [done|]. destruct Hg as (H1 & H2 & H3 & H4). split_and!; try done. cbn.
    intros [<-|Hin]%elem_of_cons; [|by apply H4]. destruct (Hx true eq_refl) as (tn & ? & Hb). exists tn. split; [done|].
    by symmetry in Hb; apply bool_decide_eq_true in Hb.
Qed.
End Interleaved.

(** C37. Tasks change by the hand of those who see their deal. However any operations on tasks
    interleave, whichever of their calls fail: every task stored is named and is done exactly when
    it has the time of its completion; a task that is created, edited, completed or deleted is one
    of a deal some operation was asked to write, by an actor who sees that deal, in the deal's
    tenant, with its tasks switched on; every other task is exactly as it was. *)
Theorem tasks_follow_their_deals (s : TaskService) {S} (h : handler Ctx TaskPort S) (view : S -> Board)
    `{!TaskStore h view} (ops : list TaskOp) (s0 : S) (p : list (TkM (result unit))) (s1 : S) :
  coherent_board (view s0) -> steps h (map (op_prog s) ops, s0) (p, s1) ->
  coherent_board (view s1) /\
  (forall tn i t, bd_tasks (view s0) !! (tn, i) = Some t ->
     bd_tasks (view s1) !! (tn, i) = Some t \/ permitted s (view s0) ops tn (tk_DealID t)) /\
  (forall tn i t, bd_tasks (view s1) !! (tn, i) = Some t ->
     bd_tasks (view s0) !! (tn, i) = Some t \/ permitted s (view s0) ops tn (tk_DealID t)).
Proof.
  intros H0 Hsteps.
  destruct (steps_wp h (task_contract s) (fun _ _ => True) (fun gs st => Inv s (view s0) ops gs (view st)) (map (op_prog s) ops) s0 p s1
              (map starting ops)) as (gs' & _ & [Hc _ _ _ Hk Hm]); [|exact Hsteps| | |done].
  - intros gs st i g R c e P Hi HI [Hpre HP]. pose proof (task_answers R c e st) as Ha. destruct (h R c e st) as [r st'].
    destruct (task_step_keeps _ _ _ _ _ _ _ _ _ _ _ _ HI Hi Hpre Ha) as (g' & Hp & HI'). exists g'. split; [by apply HP|done].
  - clear. induction ops as [|op ops IH]; cbn; constructor; [|done]. by apply task_op_careful.
  - split; try done; [|auto..]. apply Forall_forall. intros g (op & -> & Hop)%list_elem_of_fmap.
    split_and!; cbn; [done|by intros ? ? ?%not_elem_of_nil..|by intros ?%not_elem_of_nil].
Qed.

(** ** A board in memory *)

Definition gone {A} : result A := Err (NotFound "resource not found").
Definition one {A} (o : option A) : result A := match o with Some a => Ok a | None => gone end.
Definition in_tenant {A} (c : Ctx) (v : Board) (k : string -> result A) : result A :=
  match RequireTenant c with Ok tn => k tn | Err e => Err e end.
Definition tasks_of (tn : string) (v : Board) : list DealTask :=
  map snd (filter (fun kt => kt.1.1 = tn) (map_to_list (bd_tasks v))).

(** Every call works; the clock stands still and identifiers are fixed. *)
Definition desk : handler Ctx TaskPort Board := fun R c e v =>
  match e in TaskPort R return R * Board with
  | TkNow => (7, v)
  | TkNewID => ("t2", v)
  | TaskCreate t =>
      match bd_ever v !! (tk_TenantID t, tk_ID t) with
      | Some _ => (Err (Conflict "resource already exists"), v)
      | None => (Ok tt, put_task (tk_TenantID t) t v)
      end
  | TaskUpdate t =>
      match RequireTenant c with
      | Err e => (Err e, v)
      | Ok tn =>
          match bd_tasks v !! (tn, tk_ID t) with
          | Some old => (Ok tt, put_task tn (stored_task old t) v)
          | None => (gone, v)
          end
      end
  | TaskDelete id =>
      match RequireTenant c with Ok tn => (Ok tt, drop_task tn id v) | Err e => (Err e, v) end
  | TaskByID id => (in_tenant c v (fun tn => one (bd_tasks v !! (tn, id))), v)
  | TasksByDeal d _ => (in_tenant c v (fun tn => Ok (filter (fun t => tk_DealID t = d) (tasks_of tn v))), v)
  | TaskList f _ => (in_tenant c v (fun tn => Ok (filter (fun t => filter_matches f t = true) (tasks_of tn v))), v)
  | DealOf d => (in_tenant c v (fun tn => one (bd_deals v !! (tn, d))), v)
  | TasksEnabled => (in_tenant c v (fun tn => Ok (bool_decide (tn ∈ bd_open v))), v)
  | AgentExists _ => (Ok true, v)
  | TaskCards _ => (Ok ∅, v)
  | TaskTimeline _ => (tt, v)
  | TaskNotify _ => (tt, v)
  end.

Lemma in_tenant_ok {A} c v (k : string -> result A) a :
  in_tenant c v k = Ok a -> exists tn, RequireTenant c = Ok tn /\ k tn = Ok a.
Proof. unfold in_tenant. destruct (RequireTenant c) as [tn|]; [|done]. by exists tn. Qed.

Lemma one_ok {A} (o : option A) a : one o = Ok a -> o = Some a.
Proof. destruct o; [by intros [= ->]|done]. Qed.

Lemma tasks_of_elem tn v t : t ∈ tasks_of tn v -> exists i, bd_tasks v !! (tn, i) = Some t.
Proof.
  intros ([[tn' i] t'] & -> & [Htn Hin]%list_elem_of_filter)%list_elem_of_fmap. cbn in Htn. subst tn'.
  exists i. by apply elem_of_map_to_list in Hin.
Qed.

#[export] Instance desk_store : TaskStore desk (fun v => v).
Proof.
  intros R c e v. destruct e; cbn; try done.
  - destruct (bd_ever v !! _) eqn:He; cbn; [by left|by right].
  - destruct (RequireTenant c) as [tn|]; cbn; [|by left]. destruct (bd_tasks v !! _) as [old|] eqn:Ho; cbn; [|by left].
    right. by exists tn, old.
  - destruct (RequireTenant c) as [tn|]; cbn; [|by left]. right. by exists tn.
  - split; [done|]. intros t (tn & Htn & Hl%one_ok)%in_tenant_ok. by exists tn.
  - split; [done|]. intros l t (tn & Htn & [= <-])%in_tenant_ok [Hd (i & Hi)%tasks_of_elem]%list_elem_of_filter. by exists tn, i.
  - split; [done|]. intros l t (tn & Htn & [= <-])%in_tenant_ok [Hd (i & Hi)%tasks_of_elem]%list_elem_of_filter. by exists tn, i.
  - split; [done|]. intros t (tn & Htn & Hl%one_ok)%in_tenant_ok. by exists tn.
  - split; [done|]. intros b (tn & Htn & [= <-])%in_tenant_ok. by exists tn.
Qed.

(** ** A task finished while it is edited *)

Definition seller (user : string) (scope : SectorScope) : Ctx :=
  mkCtx (Some "t1") (Some (mkAuthContext "t1" user ∅ ["s1"] scope)) None None.
Definition call_back : DealTask := mkDealTask "k1" "t1" "d1" "call back" "" None "u1" StatusPending None "u1" 1 1.
Definition pipeline_board : Board :=
  mkBoard {[ ("t1", "k1") := call_back ]} {[ ("t1", "k1") := "d1" ]}
    {[ ("t1", "d1") := mkDealRef "t1" "s1" "u2"; ("t1", "d2") := mkDealRef "t1" "s9" "u9" ]} {[ "t1" ]}.
Definition wired : TaskService := mkTaskService true true true true elements.
Definition rename : UpdateTask := mkUpdateTask (Some "call back today") None None false None.
Definition finish_and_rename : list TaskOp :=
  [DoUpdate (seller "u2" ScopeOwn) "d1" "k1" rename; DoComplete (seller "u1" ScopeOwn) "d1" "k1"].

Lemma board_coherent : coherent_board pipeline_board.
Proof.
  split; cbn.
  - intros tn i t [[= <- <-] <-]%lookup_singleton_Some. done.
  - intros k t [<- <-]%lookup_singleton_Some. split; [done|]. by left.
  - intros k t [<- <-]%lookup_singleton_Some. done.
Qed.

(** One after the other, the task is renamed and done; and an actor who does not see the deal
    changes nothing. *)
Lemma tasks_follow_their_deals_witness :
  let out := schedule desk (replicate 12 0 ++ replicate 12 1)%nat (map (op_prog wired) finish_and_rename) pipeline_board in
  let blind := schedule desk (replicate 12 0)%nat (map (op_prog wired) [DoDelete (seller "u3" ScopeOwn) "d2" "k1"]) pipeline_board in
  coherent_board out.2 /\
  (fun t => (tk_Title t, tk_Status t)) <$> bd_tasks out.2 !! ("t1", "k1") = Some ("call back today", StatusDone) /\
  bd_tasks blind.2 !! ("t1", "k1") = Some call_back.
Proof.
  intros out blind. split; [|split; vm_compute; reflexivity].
  apply (tasks_follow_their_deals wired desk (fun v => v) finish_and_rename pipeline_board out.1 out.2 board_coherent).
  apply schedule_reaches.
Defined.

(** An edit stores the status it read: a task completed in between is pending again, though its
    completion succeeded and its deal's timeline says so. *)
Theorem an_edit_reopens_a_task :
  let out := schedule desk (replicate 3 0 ++ replicate 12 1 ++ replicate 12 0)%nat (map (op_prog wired) finish_and_rename) pipeline_board in
  steps desk (map (op_prog wired) finish_and_rename, pipeline_board) (out.1, out.2) /\
  out.1 = [Ret (Ok tt); Ret (Ok tt)] /\
  (fun t => (tk_Title t, tk_Status t, tk_CompletedAt t)) <$> bd_tasks out.2 !! ("t1", "k1") = Some ("call back today", StatusPending, None).
Proof. split; [apply schedule_reaches|]. split; vm_compute; reflexivity. Qed.

(** ** What is listed *)

(** The store's own behaviour, as a contract. *)
Definition on_board : contract Ctx TaskPort Board := pre_post (fun _ _ _ _ => True) (fun R c e v r v' => task_step c e v r v').

Lemma cards_on_board s c l v (Q : gmap string DisplayCard -> Board -> Prop) :
  (forall m, Q m v) -> wp on_board (cardsFor s c l) Q v.
Proof.
  intros HQ. unfold cardsFor. repeat case_match; try apply HQ. split; [done|]. intros [m|e] v' ->; apply HQ.
Qed.

Lemma views_on_board s c l v (Q : list TaskView -> Board -> Prop) :
  (forall cards, Q (map (enrich cards) l) v) -> wp on_board (views s c l) Q v.
Proof. intros HQ. unfold views. apply wp_bind; [apply _|]. apply cards_on_board. intros m. apply HQ. Qed.

Lemma enabled_on_board s c v (Q : result bool -> Board -> Prop) : (forall r, Q r v) -> wp on_board (enabled s c) Q v.
Proof. intros HQ. unfold enabled. destruct (negb (ks_gate s)); [apply HQ|]. split; [done|]. intros r v' [-> _]. apply HQ. Qed.

Lemma filter_assigned u status before t :
  filter_matches (mkTaskFilter u status before) t = true -> u <> "" -> tk_AssignedTo t = u.
Proof.
  unfold filter_matches. cbn. intros [[Ha _]%andb_true_iff _]%andb_true_iff Hu.
  apply orb_true_iff in Ha as [Ha|Ha]; by apply bool_decide_eq_true in Ha.
Qed.

(** The list of tasks across deals shows tasks of the tenant, and to an actor without the whole
    tenant in scope only its own. *)
Theorem mine_are_ones_own (s : TaskService) {S} (h : handler Ctx TaskPort S) (view : S -> Board) `{!TaskStore h view}
    c ac f page st vs st' :
  FromContext c = Some ac -> ac_UserID ac <> "" -> run h (ListMine s c f page) st = (Ok vs, st') ->
  Forall (fun v => (exists tn id t, RequireTenant c = Ok tn /\ bd_tasks (view st) !! (tn, id) = Some t /\
                      tv_ID v = tk_ID t /\ tv_AssignedTo v = tk_AssignedTo t) /\
                   (ac_SectorScope ac <> ScopeAll -> tv_AssignedTo v = ac_UserID ac)) vs.
Proof.
  intros Hac Hid Hrun.
  assert (wp on_board (ListMine s c f page) (fun r _ => match r with
    | Ok vs => Forall (fun v => (exists tn id t, RequireTenant c = Ok tn /\ bd_tasks (view st) !! (tn, id) = Some t /\
                      tv_ID v = tk_ID t /\ tv_AssignedTo v = tk_AssignedTo t) /\
                   (ac_SectorScope ac <> ScopeAll -> tv_AssignedTo v = ac_UserID ac)) vs
    | Err _ => True end) (view st)) as Hwp.
  - unfold ListMine. destruct (RequireTenant c) as [tn|] eqn:Htn; [|done]. cbn [bind_ok bind]. rewrite Hac.
    apply wp_bind_ok; [apply _|]. apply enabled_on_board. intros [[]|e]; cbn [negb]; [|by apply Forall_nil_2|exact I].
    apply wp_bind_ok; [apply _|]. apply wp_call; [done|]. intros [l|e] v' [-> Hl]; [|done].
    apply wp_bind; [apply _|]. apply views_on_board. intros cards. apply Forall_map, Forall_forall. intros t Ht.
    destruct (Hl l t eq_refl Ht) as (tn' & id & Htn' & Ht' & Hm). rewrite Htn in Htn'. split; [by exists tn', id, t|]. intros Hs.
    rewrite (bool_decide_eq_false_2 _ Hs) in Hm. by eapply filter_assigned.
  - pose proof (wp_run on_board h view _ _ st ltac:(intros R c' e P st0 [_ HP]; pose proof (task_answers R c' e st0) as Ha;
      destruct (h R c' e st0); by apply HP) Hwp) as H. by rewrite Hrun in H.
Qed.
