(* ===== verification/Iam.v ===== *)
(** * Users and roles (domain/iam)

    The accounts of a tenant's operators and the roles that give them permissions: the
    aggregates, the users' service, and what the repository stores of them. The roles' service
    is in Roles.v. *)
From S2P Require Import Prelude GoStrings AppError Authz Shared ConvEntity Prog Ports Presence.

(** ** The aggregates (entity/) *)

(** The whole [User]; [Presence.User] is the part other services read. *)
Record Account := mkAccount {
  ua_ID : string; ua_TenantID : string; ua_Name : string; ua_Email : string; ua_PasswordHash : string;
  ua_Status : string; ua_RoleIDs : list string; ua_SectorIDs : list string; ua_MaxConcurrentChats : Z;
  ua_PresenceAvailability : string; ua_AutoOffline : option bool; ua_AvatarAttachmentID : string;
  ua_Preferences : list (string * value); ua_CreatedAt : Time; ua_UpdatedAt : Time }.

(** Assignments to the fields of a user. *)
Definition set_ua_Name v u := mkAccount (ua_ID u) (ua_TenantID u) v (ua_Email u) (ua_PasswordHash u)
  (ua_Status u) (ua_RoleIDs u) (ua_SectorIDs u) (ua_MaxConcurrentChats u) (ua_PresenceAvailability u)
  (ua_AutoOffline u) (ua_AvatarAttachmentID u) (ua_Preferences u) (ua_CreatedAt u) (ua_UpdatedAt u).
Definition set_ua_PasswordHash v u := mkAccount (ua_ID u) (ua_TenantID u) (ua_Name u) (ua_Email u) v
  (ua_Status u) (ua_RoleIDs u) (ua_SectorIDs u) (ua_MaxConcurrentChats u) (ua_PresenceAvailability u)
  (ua_AutoOffline u) (ua_AvatarAttachmentID u) (ua_Preferences u) (ua_CreatedAt u) (ua_UpdatedAt u).
Definition set_ua_Status v u := mkAccount (ua_ID u) (ua_TenantID u) (ua_Name u) (ua_Email u)
  (ua_PasswordHash u) v (ua_RoleIDs u) (ua_SectorIDs u) (ua_MaxConcurrentChats u)
  (ua_PresenceAvailability u) (ua_AutoOffline u) (ua_AvatarAttachmentID u) (ua_Preferences u)
  (ua_CreatedAt u) (ua_UpdatedAt u).
Definition set_ua_RoleIDs v u := mkAccount (ua_ID u) (ua_TenantID u) (ua_Name u) (ua_Email u)
  (ua_PasswordHash u) (ua_Status u) v (ua_SectorIDs u) (ua_MaxConcurrentChats u)
  (ua_PresenceAvailability u) (ua_AutoOffline u) (ua_AvatarAttachmentID u) (ua_Preferences u)
  (ua_CreatedAt u) (ua_UpdatedAt u).
Definition set_ua_SectorIDs v u := mkAccount (ua_ID u) (ua_TenantID u) (ua_Name u) (ua_Email u)
  (ua_PasswordHash u) (ua_Status u) (ua_RoleIDs u) v (ua_MaxConcurrentChats u)
  (ua_PresenceAvailability u) (ua_AutoOffline u) (ua_AvatarAttachmentID u) (ua_Preferences u)
  (ua_CreatedAt u) (ua_UpdatedAt u).
Definition set_ua_MaxConcurrentChats v u := mkAccount (ua_ID u) (ua_TenantID u) (ua_Name u) (ua_Email u)
  (ua_PasswordHash u) (ua_Status u) (ua_RoleIDs u) (ua_SectorIDs u) v (ua_PresenceAvailability u)
  (ua_AutoOffline u) (ua_AvatarAttachmentID u) (ua_Preferences u) (ua_CreatedAt u) (ua_UpdatedAt u).
Definition set_ua_Avatar v u := mkAccount (ua_ID u) (ua_TenantID u) (ua_Name u) (ua_Email u)
  (ua_PasswordHash u) (ua_Status u) (ua_RoleIDs u) (ua_SectorIDs u) (ua_MaxConcurrentChats u)
  (ua_PresenceAvailability u) (ua_AutoOffline u) v (ua_Preferences u) (ua_CreatedAt u) (ua_UpdatedAt u).
Definition set_ua_Preferences v u := mkAccount (ua_ID u) (ua_TenantID u) (ua_Name u) (ua_Email u)
  (ua_PasswordHash u) (ua_Status u) (ua_RoleIDs u) (ua_SectorIDs u) (ua_MaxConcurrentChats u)
  (ua_PresenceAvailability u) (ua_AutoOffline u) (ua_AvatarAttachmentID u) v (ua_CreatedAt u) (ua_UpdatedAt u).
Definition set_ua_UpdatedAt v u := mkAccount (ua_ID u) (ua_TenantID u) (ua_Name u) (ua_Email u)
  (ua_PasswordHash u) (ua_Status u) (ua_RoleIDs u) (ua_SectorIDs u) (ua_MaxConcurrentChats u)
  (ua_PresenceAvailability u) (ua_AutoOffline u) (ua_AvatarAttachmentID u) (ua_Preferences u)
  (ua_CreatedAt u) v.

(** [IsActive] of the whole user. *)
Definition is_active (u : Account) : bool := ua_Status u =! StatusActive.

Record Role := mkIamRole {
  rl_ID : string; rl_TenantID : string; rl_Name : string; rl_Permissions : list Permission;
  rl_SectorScope : SectorScope; rl_CreatedAt : Time; rl_UpdatedAt : Time }.

Definition HasPermission (p : Permission) (r : Role) : bool := existsb (fun rp => rp =! p) (rl_Permissions r).

Definition set_rl_Name v r :=
  mkIamRole (rl_ID r) (rl_TenantID r) v (rl_Permissions r) (rl_SectorScope r) (rl_CreatedAt r) (rl_UpdatedAt r).
Definition set_rl_Permissions v r :=
  mkIamRole (rl_ID r) (rl_TenantID r) (rl_Name r) v (rl_SectorScope r) (rl_CreatedAt r) (rl_UpdatedAt r).
Definition set_rl_SectorScope v r :=
  mkIamRole (rl_ID r) (rl_TenantID r) (rl_Name r) (rl_Permissions r) v (rl_CreatedAt r) (rl_UpdatedAt r).
Definition set_rl_UpdatedAt v r :=
  mkIamRole (rl_ID r) (rl_TenantID r) (rl_Name r) (rl_Permissions r) (rl_SectorScope r) (rl_CreatedAt r) v.

(** ** Contracts (contracts/commands.go) *)

Record CreateUser := mkCreateUser {
  cu_Name : string; cu_Email : string; cu_Password : string; cu_RoleIDs : list string;
  cu_SectorIDs : list string; cu_MaxConcurrentChats : Z }.

Record UpdateUser := mkUpdateUser {
  uu_Name : option string; uu_Password : option string; uu_Status : option string;
  uu_RoleIDs : option (list string); uu_SectorIDs : option (list string);
  uu_MaxConcurrentChats : option Z }.

Record UpdateProfile := mkUpdateProfile {
  upr_Name : option string; upr_AvatarAttachmentID : option string;
  upr_Preferences : option (list (string * value)) }.

Record CreateRole := mkCreateRole {
  crl_Name : string; crl_Permissions : list Permission; crl_SectorScope : SectorScope }.

Record UpdateRole := mkUpdateRole {
  url_Name : option string; url_Permissions : option (list Permission); url_SectorScope : option SectorScope }.

Record DisplayCard := mkDisplayCard { card_Name : string; card_AvatarURL : string }.

(** [shared.AuditEntry] with the fields the account services fill. *)
Definition ActorTypeUser : string := "user".
Record FullAudit := mkFullAudit {
  fa_TenantID : string; fa_ActorID : string; fa_ActorType : string; fa_Action : string;
  fa_ResourceType : string; fa_ResourceID : string; fa_IP : string; fa_UserAgent : string;
  fa_Data : list (string * value) }.

(** ** The ports *)

Inductive IamPort : Type -> Type :=
| IamNow : IamPort Time
| IamNewID : IamPort string
| UserCreate (u : Account) : IamPort (result unit)
| UserUpdate (u : Account) : IamPort (result unit)
| UserDelete (id : string) : IamPort (result unit)
| UserByID (id : string) : IamPort (result Account)
| UsersByIDs (ids : list string) : IamPort (result (list Account))
| UserByEmail (email : string) : IamPort (result Account)
| UserByEmailAnyTenant (email : string) : IamPort (result Account)
| UserList (p : PageRequest) : IamPort (result (list Account))
| UsersBySector (sectorID : string) : IamPort (result (list Account))
| RoleCreate (r : Role) : IamPort (result unit)
| RoleUpdate (r : Role) : IamPort (result unit)
| RoleDelete (id : string) : IamPort (result unit)
| RoleByID (id : string) : IamPort (result Role)
| RolesByIDs (ids : list string) : IamPort (result (list Role))
| RoleByName (name : string) : IamPort (result Role)
| RoleList (p : PageRequest) : IamPort (result (list Role))
| Hash (plain : string) : IamPort (result string)
| Compare (hash plain : string) : IamPort (result unit)
| IamAudit (e : FullAudit) : IamPort (result unit)
| IamSignedAvatarURLs (ids : list string) : IamPort (result (gmap string string)).

#[export] Instance iam_own : Embed IamPort IamPort := fun R e => e.

Abbreviation IamM := (prog Ctx IamPort).

(** [len] of a string: its bytes. *)
Definition str_len (s : string) : Z := Z.of_nat (String.length s).
Definition minPasswordLen : Z := 8.

Definition short (password : string) : bool := str_len password <? minPasswordLen.

(** An audit entry of the iam services, which leave the rest to the recorder. *)
Definition iam_audit {A} (c : Ctx) (action rtype id : string) (data : list (string * value)) (k : IamM A) : IamM A :=
  let! _ := ask c (IamAudit (mkFullAudit "" "" "" action rtype id "" "" data)) in k.

(** [ResolveEffective]: the permissions of the roles in catalog order, and all sectors when some
    role has them. *)
Definition ResolveEffective (roles : list Role) : list Permission * SectorScope :=
  let set : gset Permission := list_to_set (concat (map rl_Permissions roles)) in
  let scope := if existsb (fun r => rl_SectorScope r =! ScopeAll) roles then ScopeAll else ScopeOwn in
  (filter (fun p => p ∈ set) AllPermissions, scope).

(** ** Users (service/user_service.go) *)

Module UserSvc.
Section Users.
(** [unicode.ToLower] on runes, [mail.ParseAddress] succeeding, and whether avatars are wired. *)
Context (lower : Z -> Z) (parse_address : string -> bool) (avatars : bool).

Definition normalizeEmail (email : string) : string := to_lower lower (trim_space email).
Definition validEmail (email : string) : bool := (email <>! "") && parse_address email.

Definition AvatarURLs (c : Ctx) (ids : list string) : IamM (result (gmap string string)) :=
  if negb avatars || (length ids =? 0)%nat then Ret (Ok ∅)
  else ask c (IamSignedAvatarURLs ids).

Definition AgentCards (c : Ctx) (userIDs : list string) : IamM (result (gmap string DisplayCard)) :=
  if (length userIDs =? 0)%nat then Ret (Ok ∅)
  else
    try! users := ask c (UsersByIDs userIDs) in
    let ids := filter (fun i => i <> "") (map ua_AvatarAttachmentID users) in
    let! urls := (if avatars then
                    let! r := ask c (IamSignedAvatarURLs ids) in
                    Ret (match r with Ok m => m | Err _ => ∅ end)
                  else Ret ∅) in
    Ret (Ok (fold_left (fun out u =>
      <[ua_ID u := mkDisplayCard (ua_Name u) (default "" (urls !! ua_AvatarAttachmentID u))]> out) users ∅)).

(** The details of an invalid new account. *)
Definition invalid (b : bool) (field msg : string) (v : gmap string value) : gmap string value :=
  if b then <[field := VStr msg]> v else v.

Definition could_not_hash (e : error) : error := Wrap e (Internal "could not hash password").

(** [s.hasher.Hash(p)], its failure wrapped. *)
Definition hashed {A} (c : Ctx) (password : string) (k : string -> IamM (result A)) : IamM (result A) :=
  let! r := ask c (Hash password) in
  match r with Err e => Ret (Err (could_not_hash e)) | Ok h => k h end.

Definition Create (c : Ctx) (cmd : CreateUser) : IamM (result Account) :=
  try! tenantID := Ret (RequireTenant c) in
  let name := trim_space (cu_Name cmd) in
  let email := normalizeEmail (cu_Email cmd) in
  let v := invalid (short (cu_Password cmd)) "password" "must be at least 8 characters"
             (invalid (negb (validEmail email)) "email" "must be a valid email"
                (invalid (name =! "") "name" "is required" ∅)) in
  if negb (bool_decide (v = ∅)) then Ret (Err (WithDetails v (Validation "validation failed")))
  else
    hashed c (cu_Password cmd) (fun hash =>
      let! now := ask c IamNow in
      let maxChats := if cu_MaxConcurrentChats cmd <=? 0 then 1 else cu_MaxConcurrentChats cmd in
      let! id := ask c IamNewID in
      let user := mkAccount id tenantID name email hash StatusActive (cu_RoleIDs cmd)
        (NormalizeSectorIDs (cu_SectorIDs cmd)) maxChats "" None "" [] now now in
      try! _ := ask c (UserCreate user) in
      iam_audit c "user.created" "user" id
        [("email", VStr email); ("role_ids", VStrs (cu_RoleIDs cmd))] (Ret (Ok user))).

(** A field given is applied, or stops the update. *)
Definition given {A} (o : option A) (f : A -> Account -> IamM (result Account)) (u : Account) : IamM (result Account) :=
  match o with Some a => f a u | None => Ret (Ok u) end.

Definition set_name (n : string) (u : Account) : IamM (result Account) :=
  let name := trim_space n in
  if name =! "" then Ret (Err (Validation "name cannot be empty")) else Ret (Ok (set_ua_Name name u)).

Definition set_password (c : Ctx) (p : string) (u : Account) : IamM (result Account) :=
  if short p then Ret (Err (Validation "password must be at least 8 characters"))
  else hashed c p (fun hash => Ret (Ok (set_ua_PasswordHash hash u))).

Definition set_status (st : string) (u : Account) : IamM (result Account) :=
  if (st <>! StatusActive) && (st <>! StatusDisabled) then Ret (Err (Validation "invalid status"))
  else Ret (Ok (set_ua_Status st u)).

Definition set_max (n : Z) (u : Account) : IamM (result Account) :=
  if n <? 0 then Ret (Err (Validation "max_concurrent_chats cannot be negative"))
  else Ret (Ok (set_ua_MaxConcurrentChats n u)).

(** [user.UpdatedAt = s.clock.Now()] and the store. *)
Definition store {A} (c : Ctx) (u : Account) (k : Account -> IamM (result A)) : IamM (result A) :=
  let! now := ask c IamNow in
  let u := set_ua_UpdatedAt now u in
  try! _ := ask c (UserUpdate u) in
  k u.

Definition Update (c : Ctx) (id : string) (cmd : UpdateUser) : IamM (result Account) :=
  try! _ := Ret (RequireTenant c) in
  try! user := ask c (UserByID id) in
  try! user := given (uu_Name cmd) set_name user in
  try! user := given (uu_Password cmd) (set_password c) user in
  try! user := given (uu_Status cmd) set_status user in
  try! user := given (uu_RoleIDs cmd) (fun r u => Ret (Ok (set_ua_RoleIDs r u))) user in
  try! user := given (uu_SectorIDs cmd) (fun l u => Ret (Ok (set_ua_SectorIDs (NormalizeSectorIDs l) u))) user in
  try! user := given (uu_MaxConcurrentChats cmd) set_max user in
  store c user (fun user =>
    let data := match uu_RoleIDs cmd with
                | Some _ => [("permissions_changed", VBool true); ("role_ids", VStrs (ua_RoleIDs user))]
                | None => []
                end in
    iam_audit c "user.updated" "user" (ua_ID user) data (Ret (Ok user))).

(** The value of a key of a JSON object. *)
Definition json_get (k : string) (m : list (string * value)) : option value :=
  snd <$> List.find (fun kv => kv.1 =! k) m.

Definition one_of (l : list string) (v : value) : bool :=
  match v with VStr s => existsb (fun x => x =! s) l | _ => false end.

Definition validatePreferences (prefs : list (string * value)) : result unit :=
  let v := match json_get "theme" prefs with
           | Some t => invalid (negb (one_of ["light"; "dark"; "system"] t)) "theme"
                         "must be one of: light, dark, system" ∅
           | None => ∅
           end in
  let v := match json_get "audio_alerts" prefs with
           | Some (VMap audio) =>
               match json_get "play_for" audio with
               | Some pf => invalid (negb (one_of ["mine"; "unassigned"; "others"] pf)) "audio_alerts.play_for"
                              "must be one of: mine, unassigned, others" v
               | None => v
               end
           | _ => v
           end in
  if negb (bool_decide (v = ∅)) then Err (WithDetails v (Validation "invalid preferences")) else Ok tt.

Definition set_preferences (p : list (string * value)) (u : Account) : IamM (result Account) :=
  try! _ := Ret (validatePreferences p) in
  Ret (Ok (set_ua_Preferences p u)).

Definition UpdateProfile_ (c : Ctx) (id : string) (cmd : UpdateProfile) : IamM (result Account) :=
  try! _ := Ret (RequireTenant c) in
  try! user := ask c (UserByID id) in
  try! user := given (upr_Name cmd) set_name user in
  try! user := given (upr_AvatarAttachmentID cmd) (fun a u => Ret (Ok (set_ua_Avatar (trim_space a) u))) user in
  try! user := given (upr_Preferences cmd) set_preferences user in
  store c user (fun user => Ret (Ok user)).

Definition ChangePassword (c : Ctx) (id current next : string) : IamM (result unit) :=
  try! _ := Ret (RequireTenant c) in
  if short next then Ret (Err (Validation "new_password must be at least 8 characters"))
  else
    try! user := ask c (UserByID id) in
    let! same := ask c (Compare (ua_PasswordHash user) current) in
    match same with
    | Err _ => Ret (Err (Unauthorized "current password is incorrect"))
    | Ok _ =>
        hashed c next (fun hash =>
          store c (set_ua_PasswordHash hash user) (fun user =>
            iam_audit c "auth.password_changed" "user" (ua_ID user) [] (Ret (Ok tt))))
    end.

Definition Delete (c : Ctx) (id : string) : IamM (result unit) :=
  try! _ := Ret (RequireTenant c) in
  try! _ := ask c (UserDelete id) in
  iam_audit c "user.deleted" "user" id [] (Ret (Ok tt)).

Definition Get (c : Ctx) (id : string) : IamM (result Account) :=
  try! _ := Ret (RequireTenant c) in
  ask c (UserByID id).

Definition List_ (c : Ctx) (page : PageRequest) : IamM (result (list Account)) :=
  try! _ := Ret (RequireTenant c) in
  ask c (UserList (Normalize page)).

Definition ListBySector (c : Ctx) (sectorID : string) : IamM (result (list Account)) :=
  try! _ := Ret (RequireTenant c) in
  ask c (UsersBySector sectorID).
End Users.
End UserSvc.

(** ** The store (infra/database/mongodb/repositories/iam/user_repository.go) *)

(** What [Update] stores: neither the identity, nor the email, nor the presence settings, and
    the sectors normalized. *)
Definition stored_user (old new : Account) : Account :=
  mkAccount (ua_ID old) (ua_TenantID old) (ua_Name new) (ua_Email old) (ua_PasswordHash new) (ua_Status new)
    (ua_RoleIDs new) (NormalizeSectorIDs (ua_SectorIDs new)) (ua_MaxConcurrentChats new)
    (ua_PresenceAvailability old) (ua_AutoOffline old) (ua_AvatarAttachmentID new) (ua_Preferences new)
    (ua_CreatedAt old) (ua_UpdatedAt new).

(** What [Create] stores. *)
Definition inserted_user (u : Account) : Account := set_ua_SectorIDs (NormalizeSectorIDs (ua_SectorIDs u)) u.

Definition stored_role (old new : Role) : Role :=
  mkIamRole (rl_ID old) (rl_TenantID old) (rl_Name new) (rl_Permissions new) (rl_SectorScope new)
    (rl_CreatedAt old) (rl_UpdatedAt new).
