(* ===== verification/Roles.v ===== *)
(** * The roles' service (domain/iam/service/role_service.go)

    Roles are created, edited and seeded for a new tenant; users hold them by id (Iam.v). *)
From S2P Require Import Prelude GoStrings AppError Authz Shared ConvEntity Prog Ports Presence Iam.

Module RoleSvc.
Definition Create (c : Ctx) (cmd : CreateRole) : IamM (result Role) :=
  try! tenantID := Ret (RequireTenant c) in
  let name := trim_space (crl_Name cmd) in
  if name =! "" then Ret (Err (WithDetails (detail "name" "is required") (Validation "role name is required")))
  else
    let scope := if SectorScope_Valid (crl_SectorScope cmd) then crl_SectorScope cmd else ScopeOwn in
    let! now := ask c IamNow in
    let! id := ask c IamNewID in
    let role := mkIamRole id tenantID name (SanitizePermissions (crl_Permissions cmd)) scope now now in
    try! _ := ask c (RoleCreate role) in
    iam_audit c "role.created" "role" id
      [("name", VStr name); ("permissions", VStrs (rl_Permissions role))] (Ret (Ok role)).

(** The owner's role follows the catalog when it is already there; the others stay. *)
Definition reseed (c : Ctx) (def : DefaultRoleDefinition) (e : error) : IamM (result string) :=
  if CodeOf e =! CodeConflict then
    let! found := ask c (RoleByName (role_Name def)) in
    match found with
    | Err _ => Ret (Err e)
    | Ok existing =>
        if role_Name def =! DefaultRoleOwner then
          let! now := ask c IamNow in
          let existing := set_rl_UpdatedAt now (set_rl_SectorScope (role_SectorScope def)
            (set_rl_Permissions (SanitizePermissions (role_Permissions def)) existing)) in
          try! _ := ask c (RoleUpdate existing) in
          Ret (Ok (rl_ID existing))
        else Ret (Ok (rl_ID existing))
    end
  else Ret (Err e).

Fixpoint seed (c : Ctx) (defs : list DefaultRoleDefinition) (out : gmap string string)
  : IamM (result (gmap string string)) :=
  match defs with
  | [] => Ret (Ok out)
  | def :: defs =>
      let! r := Create c (mkCreateRole (role_Name def) (role_Permissions def) (role_SectorScope def)) in
      try! id := (match r with Ok role => Ret (Ok (rl_ID role)) | Err e => reseed c def e end) in
      seed c defs (<[role_Name def := id]> out)
  end.

Definition SeedDefaults (c : Ctx) : IamM (result (gmap string string)) :=
  try! _ := Ret (RequireTenant c) in
  seed c DefaultRoles ∅.

(** The patch of a role, in the order of its checks. *)
Definition patch (cmd : UpdateRole) (role : Role) : result Role :=
  let role' := match url_Name cmd with
               | Some n => if blank n then None else Some (set_rl_Name (trim_space n) role)
               | None => Some role
               end in
  match role' with
  | None => Err (Validation "role name cannot be empty")
  | Some role =>
      let role := match url_Permissions cmd with
                  | Some p => set_rl_Permissions (SanitizePermissions p) role
                  | None => role
                  end in
      match url_SectorScope cmd with
      | Some sc => if SectorScope_Valid sc then Ok (set_rl_SectorScope sc role)
                   else Err (Validation "invalid sector scope")
      | None => Ok role
      end
  end.

Definition Update (c : Ctx) (id : string) (cmd : UpdateRole) : IamM (result Role) :=
  try! _ := Ret (RequireTenant c) in
  try! role := ask c (RoleByID id) in
  try! role := Ret (patch cmd role) in
  let! now := ask c IamNow in
  let role := set_rl_UpdatedAt now role in
  try! _ := ask c (RoleUpdate role) in
  let data := ("name", VStr (rl_Name role)) ::
    match url_Permissions cmd with
    | Some _ => [("permissions_changed", VBool true); ("permissions", VStrs (rl_Permissions role))]
    | None => []
    end in
  iam_audit c "role.updated" "role" (rl_ID role) data (Ret (Ok role)).

Definition Delete (c : Ctx) (id : string) : IamM (result unit) :=
  try! _ := Ret (RequireTenant c) in
  try! _ := ask c (RoleDelete id) in
  iam_audit c "role.deleted" "role" id [] (Ret (Ok tt)).

Definition Get (c : Ctx) (id : string) : IamM (result Role) :=
  try! _ := Ret (RequireTenant c) in
  ask c (RoleByID id).

Definition List_ (c : Ctx) (page : PageRequest) : IamM (result (list Role)) :=
  try! _ := Ret (RequireTenant c) in
  ask c (RoleList (Normalize page)).
End RoleSvc.
