(* ===== verification/Auth.v ===== *)
(** * Authentication and account life cycle (domain/auth)

    Sessions (login, refresh-token rotation, logout) and the account flows: signup, email
    verification, invitations and password resets. The iam services are called through their
    own definitions. *)
From S2P Require Import Prelude GoStrings Base64 AppError Authz Shared ConvEntity Prog Ports Presence Contacts Iam Roles.

(** ** Tokens (entity/, token.go) *)

Record RefreshToken := mkRefreshToken {
  rt_ID : string; rt_TenantID : string; rt_UserID : string; rt_TokenHash : string; rt_ExpiresAt : Time;
  rt_RevokedAt : option Time; rt_UserAgent : string; rt_IP : string; rt_CreatedAt : Time }.

Definition Active (t : RefreshToken) (now : Time) : bool :=
  match rt_RevokedAt t with None => now <? rt_ExpiresAt t | Some _ => false end.

(** An email-verification or a password-reset token: the two records are the same. *)
Record UserToken := mkUserToken {
  ut_ID : string; ut_TenantID : string; ut_UserID : string; ut_TokenHash : string; ut_ExpiresAt : Time;
  ut_UsedAt : option Time; ut_CreatedAt : Time }.

Definition Usable (t : UserToken) (now : Time) : bool :=
  match ut_UsedAt t with None => now <? ut_ExpiresAt t | Some _ => false end.

Record Invitation := mkInvitation {
  iv_ID : string; iv_TenantID : string; iv_Email : string; iv_RoleIDs : list string;
  iv_SectorIDs : list string; iv_TokenHash : string; iv_ExpiresAt : Time; iv_AcceptedAt : option Time;
  iv_InvitedBy : string; iv_CreatedAt : Time }.

Definition Invitation_Usable (t : Invitation) (now : Time) : bool :=
  match iv_AcceptedAt t with None => now <? iv_ExpiresAt t | Some _ => false end.

(** The identity an access token is issued for; its expiry is the manager's. *)
Record AccessClaims := mkClaims {
  cl_TenantID : string; cl_UserID : string; cl_Permissions : list Permission; cl_SectorIDs : list string;
  cl_SectorScope : SectorScope }.

Record Tenant := mkTenant {
  tn_ID : string; tn_Name : string; tn_Status : string; tn_CreatedAt : Time; tn_UpdatedAt : Time }.
Definition TenantActive : string := "active".

(** ** Contracts (contracts/) *)

Record LoginCommand := mkLogin {
  lc_Email : string; lc_Password : string; lc_UserAgent : string; lc_IP : string }.
Record RefreshCommand := mkRefresh { rc_RefreshToken : string; rc_UserAgent : string; rc_IP : string }.

Record TokenPair := mkTokenPair {
  tpr_AccessToken : string; tpr_AccessExpiresAt : Time; tpr_RefreshToken : string;
  tpr_RefreshExpiresAt : Time; tpr_User : Account; tpr_Permissions : list Permission;
  tpr_SectorScope : SectorScope }.

Record SignupCommand := mkSignup {
  sc_CompanyName : string; sc_OwnerName : string; sc_Email : string; sc_Password : string }.
Record SignupResult := mkSignupResult { sr_Created : bool; sr_TenantID : string; sr_UserID : string }.
Record InviteCommand := mkInvite { ic_Email : string; ic_RoleIDs : list string; ic_SectorIDs : list string }.
Record AcceptInviteCommand := mkAcceptInvite { ac_Token : string; ac_Name : string; ac_Password : string }.
Record ResetPasswordCommand := mkReset { rp_Token : string; rp_NewPassword : string }.

Record AccountEmail := mkEmail { em_To : string; em_Name : string; em_Company : string; em_Link : string }.
Inductive mail := MailVerification | MailInvite | MailPasswordReset | MailPasswordResetDone.

(** ** The ports *)

(** The two collections of user tokens. *)
Inductive token_kind := VerifyToken | ResetToken.

Inductive AuthPort : Type -> Type :=
| AuIam {R} (e : IamPort R) : AuthPort R
| RefreshCreate (t : RefreshToken) : AuthPort (result unit)
| RefreshByHash (hash : string) : AuthPort (result RefreshToken)
| RefreshRevoke (id : string) : AuthPort (result unit)
| RefreshRevokeAll (tenantID userID : string) : AuthPort (result unit)
| TokenCreate (k : token_kind) (t : UserToken) : AuthPort (result unit)
| TokenByHash (k : token_kind) (hash : string) : AuthPort (result UserToken)
| TokenMarkUsed (k : token_kind) (id : string) (usedAt : Time) : AuthPort (result unit)
| TokenInvalidate (k : token_kind) (userID : string) (usedAt : Time) : AuthPort (result unit)
| InviteCreate (i : Invitation) : AuthPort (result unit)
| InviteByHash (hash : string) : AuthPort (result Invitation)
| InviteMarkAccepted (id : string) (at_ : Time) : AuthPort (result unit)
| TenantCreate (t : Tenant) : AuthPort (result unit)
| TenantByID (id : string) : AuthPort (result Tenant)
| IssueAccess (claims : AccessClaims) : AuthPort (result (string * Time))
| GenerateRefresh : AuthPort (result (string * Time))
| AuthRandRead : AuthPort (list Ascii.ascii)
| SendMail (m : mail) (e : AccountEmail) : AuthPort (result unit).

#[export] Instance auth_iam : Embed IamPort AuthPort := @AuIam.
#[export] Instance auth_own : Embed AuthPort AuthPort := fun R e => e.

Abbreviation AuM := (prog Ctx AuthPort).

Definition iam {A} (m : IamM A) : AuM A := lift (@AuIam) m.

Section Auth.
(** [unicode.ToLower] on runes, [mail.ParseAddress] succeeding, and the hexadecimal SHA-256. *)
Context (lower : Z -> Z) (parse_address : string -> bool) (sha256 : string -> string).

Definition hashToken (plaintext : string) : string := sha256 plaintext.
Definition HashRefresh (plaintext : string) : string := sha256 plaintext.

Definition genToken (c : Ctx) : AuM (string * string) :=
  let! buf := ask c AuthRandRead in
  let plaintext := of_bytes (base64_url buf) in
  Ret (plaintext, hashToken plaintext).

Abbreviation normalizeEmail := (UserSvc.normalizeEmail lower).
Abbreviation validEmail := (UserSvc.validEmail parse_address).

Definition errInvalidCredentials : error := Unauthorized "invalid credentials".
Definition errInvalidToken : error := Unauthorized "invalid or expired token".

(** [if isNotFound(err) { return generic }; return err]. *)
Definition masked {A} (generic : error) (r : result A) : result A :=
  match r with
  | Ok a => Ok a
  | Err e => if is_not_found e then Err generic else Err e
  end.

Definition user_audit (c : Ctx) (tenantID userID action ip agent : string) (data : list (string * value)) : AuM unit :=
  do! ask c (IamAudit (mkFullAudit tenantID userID ActorTypeUser action "user" userID ip agent data)) in
  Ret tt.

(** ** Sessions (service/auth_service.go) *)

Definition issue (c : Ctx) (user : Account) (userAgent ip : string) : AuM (result TokenPair) :=
  try! roles := ask c (RolesByIDs (ua_RoleIDs user)) in
  let '(perms, scope) := ResolveEffective roles in
  let! access := ask c (IssueAccess (mkClaims (ua_TenantID user) (ua_ID user) perms (ua_SectorIDs user) scope)) in
  match access with
  | Err e => Ret (Err (Wrap e (Internal "could not issue access token")))
  | Ok (access, accessExp) =>
      let! refresh := ask c GenerateRefresh in
      match refresh with
      | Err e => Ret (Err (Wrap e (Internal "could not generate refresh token")))
      | Ok (plain, refreshExp) =>
          let! now := ask c IamNow in
          let! id := ask c IamNewID in
          try! _ := ask c (RefreshCreate (mkRefreshToken id (ua_TenantID user) (ua_ID user) (HashRefresh plain)
                                            refreshExp None userAgent ip now)) in
          Ret (Ok (mkTokenPair access accessExp plain refreshExp user perms scope))
      end
  end.

(** The hash compared against when there is no such user. *)
Definition dummy_hash : string := "$2a$10$invalidinvalidinvalidinvalidinvalidinvalidinv".

Definition Login (c : Ctx) (cmd : LoginCommand) : AuM (result TokenPair) :=
  let email := normalizeEmail (lc_Email cmd) in
  if (email =! "") || (lc_Password cmd =! "") then Ret (Err errInvalidCredentials)
  else
    let! found := ask c (UserByEmailAnyTenant email) in
    match found with
    | Err e =>
        if is_not_found e then
          do! ask c (Compare dummy_hash (lc_Password cmd)) in
          Ret (Err errInvalidCredentials)
        else Ret (Err e)
    | Ok user =>
        if negb (is_active user) then Ret (Err errInvalidCredentials)
        else
          let! same := ask c (Compare (ua_PasswordHash user) (lc_Password cmd)) in
          match same with
          | Err _ => Ret (Err errInvalidCredentials)
          | Ok _ =>
              let c := WithTenant c (ua_TenantID user) in
              try! tokens := issue c user (lc_UserAgent cmd) (lc_IP cmd) in
              do! user_audit c (ua_TenantID user) (ua_ID user) "auth.login" (lc_IP cmd) (lc_UserAgent cmd) [] in
              Ret (Ok tokens)
          end
    end.

Definition Refresh (c : Ctx) (cmd : RefreshCommand) : AuM (result TokenPair) :=
  if blank (rc_RefreshToken cmd) then Ret (Err errInvalidCredentials)
  else
    let! found := ask c (RefreshByHash (HashRefresh (rc_RefreshToken cmd))) in
    try! rt := Ret (masked errInvalidCredentials found) in
    let! now := ask c IamNow in
    if negb (Active rt now) then Ret (Err errInvalidCredentials)
    else
      try! _ := ask c (RefreshRevoke (rt_ID rt)) in
      let c := WithTenant c (rt_TenantID rt) in
      let! found := ask c (UserByID (rt_UserID rt)) in
      try! user := Ret (masked errInvalidCredentials found) in
      if negb (is_active user) then Ret (Err errInvalidCredentials)
      else issue c user (rc_UserAgent cmd) (rc_IP cmd).

Definition Logout (c : Ctx) (refreshToken : string) : AuM (result unit) :=
  if blank refreshToken then Ret (Ok tt)
  else
    let! found := ask c (RefreshByHash (HashRefresh refreshToken)) in
    match found with
    | Err e => if is_not_found e then Ret (Ok tt) else Ret (Err e)
    | Ok rt =>
        try! _ := ask c (RefreshRevoke (rt_ID rt)) in
        do! user_audit (WithTenant c (rt_TenantID rt)) (rt_TenantID rt) (rt_UserID rt) "auth.logout" "" "" [] in
        Ret (Ok tt)
    end.

(** ** The account flows (service/account_service.go) *)

(** [AccountConfig]. *)
Context (AppBaseURL : string) (VerificationTTL ResetTTL InviteTTL : Z).

(** [strings.TrimRight(s, "/")]. *)
Definition trim_right_slash (s : string) : string :=
  of_bytes (rev (drop_while (fun a => Ascii.eqb a (byte_of 47)) (rev (bytes_of s)))).

Definition link (path token : string) : string := trim_right_slash AppBaseURL +:+ path +:+ "?token=" +:+ token.

Definition tenantName (c : Ctx) (tenantID : string) : AuM string :=
  let! r := ask c (TenantByID tenantID) in
  Ret (match r with Ok t => tn_Name t | Err _ => "" end).

Definition issueVerification (c : Ctx) (user : Account) : AuM (result unit) :=
  let! gen := genToken c in
  let! now := ask c IamNow in
  let! id := ask c IamNewID in
  try! _ := ask c (TokenCreate VerifyToken (mkUserToken id (ua_TenantID user) (ua_ID user) gen.2
                                              (now + VerificationTTL) None now)) in
  let! company := tenantName c (ua_TenantID user) in
  ask c (SendMail MailVerification (mkEmail (ua_Email user) (ua_Name user) company (link "/verify-email" gen.1))).

Definition ownerRoleIDs (roleIDs : gmap string string) : list string :=
  match roleIDs !! DefaultRoleOwner with
  | Some id => if id <>! "" then [id] else []
  | None => []
  end.

Definition signup_errors (company name email password : string) : gmap string value :=
  UserSvc.invalid (short password) "password" "must be at least 8 characters"
    (UserSvc.invalid (negb (validEmail email)) "email" "must be a valid email"
       (UserSvc.invalid (name =! "") "owner_name" "is required"
          (UserSvc.invalid (company =! "") "company_name" "is required" ∅))).

(** From the new tenant on. *)
Definition provision (c : Ctx) (company name email password : string) : AuM (result SignupResult) :=
  let! now := ask c IamNow in
  let! tenantID := ask c IamNewID in
  try! _ := ask c (TenantCreate (mkTenant tenantID company TenantActive now now)) in
  let tctx := WithTenant c tenantID in
  try! roleIDs := iam (RoleSvc.SeedDefaults tctx) in
  let! hash := ask tctx (Hash password) in
  match hash with
  | Err e => Ret (Err (UserSvc.could_not_hash e))
  | Ok hash =>
      let! id := ask tctx IamNewID in
      let owner := mkAccount id tenantID name email hash StatusPendingVerification (ownerRoleIDs roleIDs) []
        0 "" None "" [] now now in
      try! _ := ask tctx (UserCreate owner) in
      try! _ := issueVerification tctx owner in
      do! user_audit tctx tenantID id "auth.signup" "" "" [("email", VStr email); ("company", VStr company)] in
      Ret (Ok (mkSignupResult true tenantID id))
  end.

Definition Signup (c : Ctx) (cmd : SignupCommand) : AuM (result SignupResult) :=
  let company := trim_space (sc_CompanyName cmd) in
  let name := trim_space (sc_OwnerName cmd) in
  let email := normalizeEmail (sc_Email cmd) in
  let v := signup_errors company name email (sc_Password cmd) in
  if negb (bool_decide (v = ∅)) then Ret (Err (WithDetails v (Validation "validation failed")))
  else
    let! found := ask c (UserByEmailAnyTenant email) in
    match found with
    | Ok existing =>
        do! (if ua_Status existing =! StatusPendingVerification then
               do! issueVerification (WithTenant c (ua_TenantID existing)) existing in Ret tt
             else Ret tt) in
        Ret (Ok (mkSignupResult false "" ""))
    | Err e =>
        if negb (is_not_found e) then Ret (Err e)
        else provision c company name email (sc_Password cmd)
    end.

(** The redemption of a user token: what it is for, then the token is marked used. *)
Definition VerifyEmail (c : Ctx) (token : string) : AuM (result unit) :=
  let! found := ask c (TokenByHash VerifyToken (hashToken token)) in
  try! rec := Ret (masked errInvalidToken found) in
  let! now := ask c IamNow in
  if negb (Usable rec now) then Ret (Err errInvalidToken)
  else
    let tctx := WithTenant c (ut_TenantID rec) in
    try! user := ask tctx (UserByID (ut_UserID rec)) in
    try! _ := (if ua_Status user =! StatusPendingVerification then
                 let! now := ask tctx IamNow in
                 ask tctx (UserUpdate (set_ua_UpdatedAt now (set_ua_Status StatusActive user)))
               else Ret (Ok tt)) in
    let! now := ask tctx IamNow in
    try! _ := ask tctx (TokenMarkUsed VerifyToken (ut_ID rec) now) in
    do! user_audit tctx (ut_TenantID rec) (ua_ID user) "auth.verify_email" "" "" [] in
    Ret (Ok tt).

Definition ResendVerification (c : Ctx) (email : string) : AuM (result unit) :=
  let email := normalizeEmail email in
  if negb (validEmail email) then Ret (Ok tt)
  else
    let! found := ask c (UserByEmailAnyTenant email) in
    match found with
    | Err _ => Ret (Ok tt)
    | Ok user =>
        if ua_Status user <>! StatusPendingVerification then Ret (Ok tt)
        else
          let tctx := WithTenant c (ua_TenantID user) in
          let! now := ask tctx IamNow in
          do! ask tctx (TokenInvalidate VerifyToken (ua_ID user) now) in
          issueVerification tctx user
    end.

Definition ForgotPassword (c : Ctx) (email : string) : AuM (result unit) :=
  let email := normalizeEmail email in
  if negb (validEmail email) then Ret (Ok tt)
  else
    let! found := ask c (UserByEmailAnyTenant email) in
    match found with
    | Err _ => Ret (Ok tt)
    | Ok user =>
        if ua_Status user =! StatusDisabled then Ret (Ok tt)
        else
          let tctx := WithTenant c (ua_TenantID user) in
          let! now := ask tctx IamNow in
          do! ask tctx (TokenInvalidate ResetToken (ua_ID user) now) in
          let! gen := genToken tctx in
          let! now := ask tctx IamNow in
          let! id := ask tctx IamNewID in
          try! _ := ask tctx (TokenCreate ResetToken (mkUserToken id (ua_TenantID user) (ua_ID user) gen.2
                                                        (now + ResetTTL) None now)) in
          do! user_audit tctx (ua_TenantID user) (ua_ID user) "auth.password_reset_requested" "" "" [] in
          ask tctx (SendMail MailPasswordReset
            (mkEmail (ua_Email user) (ua_Name user) "" (link "/reset-password" gen.1)))
    end.

Definition ResetPassword (c : Ctx) (cmd : ResetPasswordCommand) : AuM (result unit) :=
  if short (rp_NewPassword cmd) then Ret (Err (Validation "password must be at least 8 characters"))
  else
    let! found := ask c (TokenByHash ResetToken (hashToken (rp_Token cmd))) in
    try! rec := Ret (masked errInvalidToken found) in
    let! now := ask c IamNow in
    if negb (Usable rec now) then Ret (Err errInvalidToken)
    else
      let tctx := WithTenant c (ut_TenantID rec) in
      try! user := ask tctx (UserByID (ut_UserID rec)) in
      let! hash := ask tctx (Hash (rp_NewPassword cmd)) in
      match hash with
      | Err e => Ret (Err (UserSvc.could_not_hash e))
      | Ok hash =>
          let user := set_ua_PasswordHash hash user in
          let user := if ua_Status user =! StatusPendingVerification then set_ua_Status StatusActive user else user in
          let! now := ask tctx IamNow in
          let user := set_ua_UpdatedAt now user in
          try! _ := ask tctx (UserUpdate user) in
          let! now := ask tctx IamNow in
          try! _ := ask tctx (TokenMarkUsed ResetToken (ut_ID rec) now) in
          do! ask tctx (RefreshRevokeAll (ua_TenantID user) (ua_ID user)) in
          do! user_audit tctx (ua_TenantID user) (ua_ID user) "auth.password_reset" "" "" [] in
          ask tctx (SendMail MailPasswordResetDone (mkEmail (ua_Email user) (ua_Name user) "" ""))
      end.

Definition Invite (c : Ctx) (cmd : InviteCommand) : AuM (result Invitation) :=
  try! tenantID := Ret (RequireTenant c) in
  let email := normalizeEmail (ic_Email cmd) in
  if negb (validEmail email) then Ret (Err (WithDetails (detail "email" "is invalid") (Validation "must be a valid email")))
  else
    let! found := ask c (UserByEmail email) in
    match found with
    | Ok _ => Ret (Err (Conflict "a user with this email already exists"))
    | Err e =>
        if negb (is_not_found e) then Ret (Err e)
        else
          let! gen := genToken c in
          let! now := ask c IamNow in
          let inviter := match FromContext c with Some ac => ac_UserID ac | None => "" end in
          let! id := ask c IamNewID in
          let inv := mkInvitation id tenantID email (ic_RoleIDs cmd) (ic_SectorIDs cmd) gen.2
            (now + InviteTTL) None inviter now in
          try! _ := ask c (InviteCreate inv) in
          let! company := tenantName c tenantID in
          try! _ := ask c (SendMail MailInvite (mkEmail email "" company (link "/accept-invite" gen.1))) in
          do! ask c (IamAudit (mkFullAudit "" "" "" "user.invited" "invitation" id "" ""
            [("email", VStr email); ("role_ids", VStrs (ic_RoleIDs cmd))])) in
          Ret (Ok inv)
    end.

Definition AcceptInvite (c : Ctx) (cmd : AcceptInviteCommand) : AuM (result unit) :=
  let name := trim_space (ac_Name cmd) in
  if name =! "" then Ret (Err (Validation "name is required"))
  else if short (ac_Password cmd) then Ret (Err (Validation "password must be at least 8 characters"))
  else
    let! found := ask c (InviteByHash (hashToken (ac_Token cmd))) in
    try! rec := Ret (masked errInvalidToken found) in
    let! now := ask c IamNow in
    if negb (Invitation_Usable rec now) then Ret (Err errInvalidToken)
    else
      let tctx := WithTenant c (iv_TenantID rec) in
      let! hash := ask tctx (Hash (ac_Password cmd)) in
      match hash with
      | Err e => Ret (Err (UserSvc.could_not_hash e))
      | Ok hash =>
          let! now := ask tctx IamNow in
          let! id := ask tctx IamNewID in
          let user := mkAccount id (iv_TenantID rec) name (iv_Email rec) hash StatusActive (iv_RoleIDs rec)
            (iv_SectorIDs rec) 1 "" None "" [] now now in
          try! _ := ask tctx (UserCreate user) in
          try! _ := ask tctx (InviteMarkAccepted (iv_ID rec) now) in
          do! user_audit tctx (iv_TenantID rec) id "auth.invite_accepted" "" "" [("email", VStr (iv_Email rec))] in
          Ret (Ok tt)
      end.
End Auth.

(** ** The store (infra/database/mongodb/repositories/auth) *)

(** What a revocation, a redemption and an acceptance store: only once. *)
Definition revoked (now : Time) (t : RefreshToken) : RefreshToken :=
  mkRefreshToken (rt_ID t) (rt_TenantID t) (rt_UserID t) (rt_TokenHash t) (rt_ExpiresAt t)
    (Some (default now (rt_RevokedAt t))) (rt_UserAgent t) (rt_IP t) (rt_CreatedAt t).
Definition used (now : Time) (t : UserToken) : UserToken :=
  mkUserToken (ut_ID t) (ut_TenantID t) (ut_UserID t) (ut_TokenHash t) (ut_ExpiresAt t)
    (Some (default now (ut_UsedAt t))) (ut_CreatedAt t).
Definition accepted (now : Time) (t : Invitation) : Invitation :=
  mkInvitation (iv_ID t) (iv_TenantID t) (iv_Email t) (iv_RoleIDs t) (iv_SectorIDs t) (iv_TokenHash t)
    (iv_ExpiresAt t) (Some (default now (iv_AcceptedAt t))) (iv_InvitedBy t) (iv_CreatedAt t).
