(* ===== verification/AuthProps.v ===== *)
(** * Accounts: credentials are redeemed once, sessions are justified, passwords are hashed *)
From S2P Require Import Prelude GoStrings AppError Authz Shared ConvEntity Prog Ports Presence Contacts Iam Roles Auth.

(** ** The collections of tokens (infra/database/mongodb/repositories/auth) *)

(** By token hash, on which each collection has a unique index. Records removed by their TTL
    index are expired and stay here. *)
Record Vault := mkVault {
  va_refresh : gmap string RefreshToken;
  va_verify : gmap string UserToken;
  va_reset : gmap string UserToken;
  va_invites : gmap string Invitation }.

Definition user_tokens (k : token_kind) (g : Vault) : gmap string UserToken :=
  match k with VerifyToken => va_verify g | ResetToken => va_reset g end.
Definition set_refresh (m : gmap string RefreshToken) (g : Vault) : Vault :=
  mkVault m (va_verify g) (va_reset g) (va_invites g).
Definition set_user_tokens (k : token_kind) (m : gmap string UserToken) (g : Vault) : Vault :=
  match k with
  | VerifyToken => mkVault (va_refresh g) m (va_reset g) (va_invites g)
  | ResetToken => mkVault (va_refresh g) (va_verify g) m (va_invites g)
  end.
Definition set_invites (m : gmap string Invitation) (g : Vault) : Vault :=
  mkVault (va_refresh g) (va_verify g) (va_reset g) m.

(** A write is applied, or fails before or after it was. *)
Definition write {A} (r : result A) (g g' applied : Vault) : Prop := g' = applied \/ (g' = g /\ is_ok r = false).

(** A lookup by hash. *)
Definition lookup_hash {A} (m : gmap string A) (hash : string) (r : result A) : Prop :=
  match r with
  | Ok t => m !! hash = Some t
  | Err e => is_not_found e = true -> m !! hash = None
  end.

Definition in_tenant (c : Ctx) (tenantID : string) : bool :=
  match RequireTenant c with Ok t => t =! tenantID | Err _ => false end.

Definition vault_post (R : Type) (c : Ctx) (e : AuthPort R) (g : Vault) (r : R) (g' : Vault) : Prop :=
  match e in AuthPort R return R -> Prop with
  | RefreshCreate t => fun r =>
      (g' = g /\ is_ok r = false) \/
      (va_refresh g !! rt_TokenHash t = None /\ g' = set_refresh (<[rt_TokenHash t := t]> (va_refresh g)) g)
  | RefreshByHash hash => fun r => g' = g /\ lookup_hash (va_refresh g) hash r
  | RefreshRevoke id => fun r => exists now,
      write r g g' (set_refresh ((fun t => if rt_ID t =! id then revoked now t else t) <$> va_refresh g) g)
  | RefreshRevokeAll tenantID userID => fun r => exists now,
      write r g g' (set_refresh ((fun t => if (rt_TenantID t =! tenantID) && (rt_UserID t =! userID)
                                           then revoked now t else t) <$> va_refresh g) g)
  | TokenCreate k t => fun r =>
      (g' = g /\ is_ok r = false) \/
      (user_tokens k g !! ut_TokenHash t = None /\
       g' = set_user_tokens k (<[ut_TokenHash t := t]> (user_tokens k g)) g)
  | TokenByHash k hash => fun r => g' = g /\ lookup_hash (user_tokens k g) hash r
  | TokenMarkUsed k id at_ => fun r =>
      write r g g' (set_user_tokens k ((fun t => if ut_ID t =! id then used at_ t else t) <$> user_tokens k g) g)
  | TokenInvalidate k userID at_ => fun r =>
      write r g g' (set_user_tokens k ((fun t => if in_tenant c (ut_TenantID t) && (ut_UserID t =! userID)
                                                 then used at_ t else t) <$> user_tokens k g) g)
  | InviteCreate i => fun r =>
      (g' = g /\ is_ok r = false) \/
      (va_invites g !! iv_TokenHash i = None /\ g' = set_invites (<[iv_TokenHash i := i]> (va_invites g)) g)
  | InviteByHash hash => fun r => g' = g /\ lookup_hash (va_invites g) hash r
  | InviteMarkAccepted id at_ => fun r =>
      write r g g' (set_invites ((fun i => if iv_ID i =! id then accepted at_ i else i) <$> va_invites g) g)
  | _ => fun _ => g' = g
  end r.

Definition vault_contract : contract Ctx AuthPort Vault := pre_post (fun _ _ _ _ => True) vault_post.

#[export] Instance vault_mono : Monotone vault_contract.
Proof. apply pre_post_mono. Qed.

Class TokenStore {S} (h : handler Ctx AuthPort S) (view : S -> Vault) : Prop := {
  vault_answers : forall R c (e : AuthPort R) s,
    let '(r, s') := h R c e s in vault_post R c e (view s) r (view s');
}.

Lemma vault_run {S} (h : handler Ctx AuthPort S) (view : S -> Vault) `{!TokenStore h view} {A} (m : AuM A) Q s :
  wp vault_contract m Q (view s) -> let '(a, s') := run h m s in Q a (view s').
Proof.
  apply wp_run. intros R c e P s' [_ HP]. pose proof (vault_answers R c e s') as Ha.
  destruct (h R c e s'). by apply HP.
Qed.

(** ** What is redeemed *)

Inductive slot_kind := SRefresh | SVerify | SReset | SInvite.

Definition record_of_refresh (t : RefreshToken) : string * bool := (rt_ID t, bool_decide (is_Some (rt_RevokedAt t))).
Definition record_of_token (t : UserToken) : string * bool := (ut_ID t, bool_decide (is_Some (ut_UsedAt t))).
Definition record_of_invite (i : Invitation) : string * bool := (iv_ID i, bool_decide (is_Some (iv_AcceptedAt i))).

(** The record under a hash: its id, and whether it is spent. *)
Definition record_at (k : slot_kind) (hash : string) (g : Vault) : option (string * bool) :=
  match k with
  | SRefresh => record_of_refresh <$> va_refresh g !! hash
  | SVerify => record_of_token <$> va_verify g !! hash
  | SReset => record_of_token <$> va_reset g !! hash
  | SInvite => record_of_invite <$> va_invites g !! hash
  end.

(** A call that found the record, and one that spent records of an id. *)
Definition on_ok {A B} (r : result A) (f : A -> option B) : option B :=
  match r with Ok a => f a | Err _ => None end.

Definition found (k : slot_kind) (hash : string) {R} (e : AuthPort R) : R -> option (string * bool) :=
  match e in AuthPort R return R -> option (string * bool) with
  | RefreshByHash h => fun r => match k with
      | SRefresh => if h =! hash then on_ok r (fun t => Some (record_of_refresh t)) else None | _ => None end
  | TokenByHash t h => fun r => match k, t with
      | SVerify, VerifyToken | SReset, ResetToken =>
          if h =! hash then on_ok r (fun t => Some (record_of_token t)) else None
      | _, _ => None end
  | InviteByHash h => fun r => match k with
      | SInvite => if h =! hash then on_ok r (fun t => Some (record_of_invite t)) else None | _ => None end
  | _ => fun _ => None
  end.

Definition spends (k : slot_kind) {R} (e : AuthPort R) : R -> option string :=
  match e in AuthPort R return R -> option string with
  | RefreshRevoke id => fun r => match k with SRefresh => on_ok r (fun _ => Some id) | _ => None end
  | TokenMarkUsed t id _ => fun r => match k, t with
      | SVerify, VerifyToken | SReset, ResetToken => on_ok r (fun _ => Some id)
      | _, _ => None end
  | InviteMarkAccepted id _ => fun r => match k with SInvite => on_ok r (fun _ => Some id) | _ => None end
  | _ => fun _ => None
  end.

(** The record of a collection, generically: what inserting and updating do to it. *)
Definition only_spends {A} (rec : A -> string * bool) (f : A -> A) : Prop :=
  forall a, (rec (f a)).1 = (rec a).1 /\ ((rec a).2 = true -> (rec (f a)).2 = true).

Definition keeps_record (o o' : option (string * bool)) : Prop :=
  forall id b, o = Some (id, b) -> exists b', o' = Some (id, b') /\ (b = true -> b' = true).

Lemma keeps_refl o : keeps_record o o.
Proof. intros id b ->. by exists b. Qed.

Lemma keeps_insert {A} (rec : A -> string * bool) (m : gmap string A) h a hash :
  m !! h = None -> keeps_record (rec <$> m !! hash) (rec <$> <[h := a]> m !! hash).
Proof.
  intros Hn. destruct (decide (h = hash)) as [->|Hne].
  - rewrite Hn. by intros ? ?.
  - rewrite lookup_insert_ne; [apply keeps_refl|done].
Qed.

Lemma keeps_fmap {A} (rec : A -> string * bool) (f : A -> A) (m : gmap string A) hash :
  only_spends rec f -> keeps_record (rec <$> m !! hash) (rec <$> (f <$> m) !! hash).
Proof.
  intros Hf id b. rewrite lookup_fmap. destruct (m !! hash) as [a|]; [|done]. cbn. intros [= Ha].
  destruct (Hf a) as [H1 H2]. rewrite Ha in H1, H2. exists (rec (f a)).2. split; [|done].
  by rewrite (surjective_pairing (rec (f a))), H1.
Qed.

Lemma spent_fmap {A} (rec : A -> string * bool) (f : A -> A) (m : gmap string A) hash id b :
  (forall a, (rec a).1 = id -> rec (f a) = (id, true)) ->
  rec <$> m !! hash = Some (id, b) -> rec <$> (f <$> m) !! hash = Some (id, true).
Proof.
  intros Hf. rewrite lookup_fmap. destruct (m !! hash) as [a|]; [|done]. cbn. intros [= Ha].
  rewrite Hf; [done|]. by rewrite Ha.
Qed.

Lemma refresh_only_spends (p : RefreshToken -> bool) now :
  only_spends record_of_refresh (fun t => if p t then revoked now t else t).
Proof. intros t. destruct (p t); [|done]. split; [done|]. intros _. by apply bool_decide_eq_true. Qed.
Lemma token_only_spends (p : UserToken -> bool) now :
  only_spends record_of_token (fun t => if p t then used now t else t).
Proof. intros t. destruct (p t); [|done]. split; [done|]. intros _. by apply bool_decide_eq_true. Qed.
Lemma invite_only_spends (p : Invitation -> bool) now :
  only_spends record_of_invite (fun t => if p t then accepted now t else t).
Proof. intros t. destruct (p t); [|done]. split; [done|]. intros _. by apply bool_decide_eq_true. Qed.

#[local] Hint Resolve keeps_refl keeps_insert keeps_fmap refresh_only_spends token_only_spends invite_only_spends : vault.

(** A record is never removed, and never becomes redeemable again. *)
Lemma vault_keeps k hash R c (e : AuthPort R) g r g' :
  vault_post R c e g r g' -> keeps_record (record_at k hash g) (record_at k hash g').
Proof.
  destruct e; cbn.
  all: try (intros ->; apply keeps_refl).
  all: try (intros [-> _]; apply keeps_refl).
  - intros [[-> _]|[? ->]]; [apply keeps_refl|]. destruct k; cbn; auto with vault.
  - intros [now [->|[-> _]]]; [|apply keeps_refl]. destruct k; cbn; auto with vault.
  - intros [now [->|[-> _]]]; [|apply keeps_refl]. destruct k; cbn; auto with vault.
  - intros [[-> _]|[? ->]]; [apply keeps_refl|]. destruct k0, k; cbn; auto with vault.
  - intros [->|[-> _]]; [|apply keeps_refl]. destruct k0, k; cbn; auto with vault.
  - intros [->|[-> _]]; [|apply keeps_refl]. destruct k0, k; cbn; auto with vault.
  - intros [[-> _]|[? ->]]; [apply keeps_refl|]. destruct k; cbn; auto with vault.
  - intros [->|[-> _]]; [|apply keeps_refl]. destruct k; cbn; auto with vault.
Qed.

Lemma found_is_there k hash R c (e : AuthPort R) g r g' x :
  vault_post R c e g r g' -> found k hash e r = Some x -> record_at k hash g' = Some x.
Proof.
  destruct e as [| |h| | | |t h| | | |h| | | | | | |]; cbn; try done.
  - intros [-> Hl]. destruct k; try done. case_bool_decide; [subst h|done].
    destruct r; cbn in *; [|done]. intros [= <-]. by rewrite Hl.
  - intros [-> Hl]. destruct k, t; try done; (case_bool_decide; [subst h|done]);
      (destruct r; cbn in *; [|done]); intros [= <-]; by rewrite Hl.
  - intros [-> Hl]. destruct k; try done. case_bool_decide; [subst h|done].
    destruct r; cbn in *; [|done]. intros [= <-]. by rewrite Hl.
Qed.

Lemma spends_it k hash R c (e : AuthPort R) g r g' id b :
  vault_post R c e g r g' -> spends k e r = Some id ->
  record_at k hash g = Some (id, b) -> record_at k hash g' = Some (id, true).
Proof.
  destruct e as [| | |i| | | |t i at_| | | |i at_| | | | | |]; cbn; try done.
  - intros [now [->|[_ Hr]]]; destruct k, r; try done. intros [= ->]. cbn.
    apply spent_fmap. intros rec <-. by rewrite bool_decide_true.
  - intros [->|[_ Hr]]; destruct k, t, r; try done; intros [= ->]; cbn;
      apply spent_fmap; intros rec <-; by rewrite bool_decide_true.
  - intros [->|[_ Hr]]; destruct k, r; try done. intros [= ->]. cbn.
    apply spent_fmap. intros rec <-. by rewrite bool_decide_true.
Qed.

(** ** What a program in a pool has learnt of a record

    Whether it is the one observed, the id its lookup answered, and whether that record is
    known to be spent. *)
Record Know := mkKnow { kn_me : bool; kn_id : option string; kn_spent : bool }.

Definition learn (k : slot_kind) (hash : string) {R} (e : AuthPort R) (r : R) (n : Know) : Know :=
  match found k hash e r with
  | Some (id, _) => mkKnow (kn_me n) (Some id) (kn_spent n)
  | None =>
      match spends k e r with
      | Some id => mkKnow (kn_me n) (kn_id n) (kn_spent n || (kn_id n =! Some id))
      | None => n
      end
  end.

Definition learning (k : slot_kind) (hash : string) : contract Ctx AuthPort Know :=
  pre_post (fun _ _ _ _ => True) (fun _ _ e n r n' => n' = learn k hash e r n).

(** The same of a record that is spent: its lookups say so. *)
Definition after_spent (k : slot_kind) (hash : string) : contract Ctx AuthPort bool :=
  pre_post (fun _ _ _ _ => True)
    (fun _ _ e me r me' => me' = me /\ forall id b, found k hash e r = Some (id, b) -> b = true).

#[export] Instance learning_mono k hash : Monotone (learning k hash).
Proof. apply pre_post_mono. Qed.
#[export] Instance after_spent_mono k hash : Monotone (after_spent k hash).
Proof. apply pre_post_mono. Qed.

Definition known (k : slot_kind) (hash : string) (g : Vault) (n : Know) : Prop :=
  match kn_id n with
  | Some id => exists b, record_at k hash g = Some (id, b) /\ (kn_spent n = true -> b = true)
  | None => kn_spent n = false
  end.

Lemma known_keeps k hash g g' n :
  keeps_record (record_at k hash g) (record_at k hash g') -> known k hash g n -> known k hash g' n.
Proof.
  unfold known. intros Hk. destruct (kn_id n) as [id|]; [|done]. intros (b & Hb & Hs).
  destruct (Hk _ _ Hb) as (b' & Hb' & Hbb). exists b'. split; [done|]. auto.
Qed.

Lemma known_learn k hash R c (e : AuthPort R) g r g' n :
  vault_post R c e g r g' -> known k hash g n -> known k hash g' (learn k hash e r n).
Proof.
  intros Hp Hn. pose proof (known_keeps _ _ _ _ _ (vault_keeps k hash R c e g r g' Hp) Hn) as Hn'.
  unfold learn. destruct (found k hash e r) as [[id b]|] eqn:Hf.
  - pose proof (found_is_there _ _ _ _ _ _ _ _ _ Hp Hf) as Hr. exists b. split; [done|].
    unfold known in Hn'. destruct (kn_id n) as [id'|]; cbn.
    + destruct Hn' as (b' & Hb' & Hs). rewrite Hr in Hb'. by injection Hb' as _ ->.
    + by rewrite Hn'.
  - destruct (spends k e r) as [id|] eqn:Hs; [|done]. revert Hn Hn'. unfold known; cbn.
    destruct (kn_id n) as [id'|]; [|intros _ ->; done]. intros (b & Hb & _) (b' & Hb' & Hss).
    exists b'. split; [done|]. intros Ho. apply orb_true_iff in Ho as [?|Ho]; [auto|].
    apply bool_decide_eq_true_1 in Ho. injection Ho as ->.
    pose proof (spends_it _ _ _ _ _ _ _ _ _ _ Hp Hs Hb) as Hx. rewrite Hx in Hb'. by injection Hb'.
Qed.

Lemma learn_me k hash {R} (e : AuthPort R) r n : kn_me (learn k hash e r n) = kn_me n.
Proof. unfold learn. by destruct (found k hash e r) as [[]|]; [|destruct (spends k e r)]. Qed.
Lemma learn_spent k hash {R} (e : AuthPort R) r n : kn_spent n = true -> kn_spent (learn k hash e r n) = true.
Proof. unfold learn. intros H. by destruct (found k hash e r) as [[]|]; [|destruct (spends k e r); cbn; rewrite ?H]. Qed.

(** A bystander, and a program that knows the record is spent, may do anything. *)
Lemma wp_learning k hash {A} (m : AuM A) (Q : A -> Know -> Prop) (P : Know -> Prop) n :
  (forall R (e : AuthPort R) r n, P n -> P (learn k hash e r n)) -> (forall a n, P n -> Q a n) ->
  P n -> wp (learning k hash) m Q n.
Proof.
  intros HP HQ. revert n. induction m as [a|R c e kk IH]; cbn; intros n Hn; [by apply HQ|].
  split; [done|]. intros r n' ->. by apply IH, HP.
Qed.

Lemma wp_after_spent k hash {A} (m : AuM A) (Q : A -> bool -> Prop) me :
  (forall a, Q a me) -> wp (after_spent k hash) m Q me.
Proof.
  intros HQ. induction m as [a|R c e kk IH]; cbn; [done|]. split; [done|]. intros r me' [-> _]. apply IH.
Qed.

(** ** Redemptions *)

Section Redemptions.
Context (lower : Z -> Z) (parse_address : string -> bool) (sha256 : string -> string).

Inductive credential :=
| Rotation (cmd : RefreshCommand)
| Verification (token : string)
| Reset_ (cmd : ResetPasswordCommand)
| Acceptance (cmd : AcceptInviteCommand).

Definition void {A} (m : AuM (result A)) : AuM (result unit) := try! _ := m in Ret (Ok tt).

Definition redeem (c : Ctx) (x : credential) : AuM (result unit) :=
  match x with
  | Rotation cmd => void (Refresh sha256 c cmd)
  | Verification token => VerifyEmail sha256 c token
  | Reset_ cmd => ResetPassword sha256 c cmd
  | Acceptance cmd => AcceptInvite sha256 c cmd
  end.

(** The kind of a credential and the hash it is stored under. *)
Definition kind_of (x : credential) : slot_kind :=
  match x with Rotation _ => SRefresh | Verification _ => SVerify | Reset_ _ => SReset | Acceptance _ => SInvite end.
Definition hash_of (x : credential) : string :=
  match x with
  | Rotation cmd => HashRefresh sha256 (rc_RefreshToken cmd)
  | Verification token => hashToken sha256 token
  | Reset_ cmd => hashToken sha256 (rp_Token cmd)
  | Acceptance cmd => hashToken sha256 (ac_Token cmd)
  end.

Definition spent_after (r : result unit) (n : Know) : Prop := is_ok r = true -> kn_spent n = true.

(** After a step, what was learnt is computed. *)
Ltac learn_cbn := unfold learn, embed, auth_own, auth_iam; cbn [learn found spends on_ok kn_me kn_id kn_spent orb];
  repeat rewrite bool_decide_true by reflexivity; cbn [orb kn_me kn_id kn_spent record_of_refresh record_of_token record_of_invite].
Ltac lr_as r := apply wp_bind; [apply _|]; split; [done|]; intros r n ->; cbn [wp].
Ltac lr := let r := fresh "r" in lr_as r.
Ltac lr_ok := apply wp_bind_ok; [apply _|]; split; [done|]; intros [?|?] n ->; [|done]; cbn [wp].
Ltac spent_now := apply (wp_learning _ _ _ _ (fun n => kn_spent n = true));
  [intros; by apply learn_spent | intros [?|?] ? ?; [intros _; assumption|done] | learn_cbn; reflexivity].

Lemma redeem_learns c x me :
  wp (learning (kind_of x) (hash_of x)) (redeem c x) spent_after (mkKnow me None false).
Proof.
  destruct x as [cmd|token|cmd|cmd]; cbn [redeem kind_of hash_of].
  - unfold void, Refresh. destruct (blank _); [done|]. apply wp_bind_ok; [apply _|]. lr_as r.
    destruct r as [rt|e]; cbn [masked]; [|destruct (is_not_found e); done].
    learn_cbn. cbn [bind_ok bind]. lr. destruct (negb _); [done|]. lr_ok. spent_now.
  - unfold VerifyEmail. lr_as r. destruct r as [rec|e]; cbn [masked]; [|destruct (is_not_found e); done].
    learn_cbn. cbn [bind_ok bind]. lr. destruct (negb _); [done|]. lr_ok.
    apply wp_bind_ok; [apply _|]. destruct (_ =! _).
    + lr. split; [done|]. intros [?|?] n ->; [|done]. lr. lr_ok. spent_now.
    + cbn [wp]. lr. lr_ok. spent_now.
  - unfold ResetPassword. destruct (short _); [done|]. lr_as r.
    destruct r as [rec|e]; cbn [masked]; [|destruct (is_not_found e); done].
    learn_cbn. cbn [bind_ok bind]. lr. destruct (negb _); [done|]. lr_ok. lr_as h.
    destruct h; [|done]. lr. lr_ok. lr. lr_ok. spent_now.
  - unfold AcceptInvite. destruct (_ =! _); [done|]. destruct (short _); [done|]. lr_as r.
    destruct r as [rec|e]; cbn [masked]; [|destruct (is_not_found e); done].
    learn_cbn. cbn [bind_ok bind]. lr. destruct (negb _); [done|]. lr_as h.
    destruct h; [|done]. lr. lr. lr_ok. lr_ok. spent_now.
Qed.

(** A spent record is not redeemable. *)
Lemma revoked_inactive t now : (record_of_refresh t).2 = true -> Active t now = false.
Proof. unfold record_of_refresh, Active; cbn. destruct (rt_RevokedAt t); [done|]. by rewrite bool_decide_false. Qed.
Lemma used_unusable t now : (record_of_token t).2 = true -> Usable t now = false.
Proof. unfold record_of_token, Usable; cbn. destruct (ut_UsedAt t); [done|]. by rewrite bool_decide_false. Qed.
Lemma accepted_unusable t now : (record_of_invite t).2 = true -> Invitation_Usable t now = false.
Proof. unfold record_of_invite, Invitation_Usable; cbn. destruct (iv_AcceptedAt t); [done|]. by rewrite bool_decide_false. Qed.

Ltac refuse H := let me' := fresh in intros me' [-> H]; cbn [wp]; revert H;
  unfold embed, auth_own, auth_iam; cbn [found]; rewrite bool_decide_true by reflexivity.

Lemma redeem_refused c x me :
  wp (after_spent (kind_of x) (hash_of x)) (redeem c x) (fun r _ => is_ok r = false) me.
Proof.
  destruct x as [cmd|token|cmd|cmd]; cbn [redeem kind_of hash_of].
  - unfold void, Refresh. destruct (blank _); [done|]. apply wp_bind_ok; [apply _|].
    apply wp_bind; [apply _|]. split; [done|]. intros [t|e]; refuse H; intros H;
      cbn [masked bind_ok bind]; [|destruct (is_not_found e); done].
    apply wp_bind; [apply _|]. split; [done|]. intros now ? [-> _]. cbn [wp].
    rewrite revoked_inactive by (eapply H; cbn [on_ok]; f_equal; apply surjective_pairing). done.
  - unfold VerifyEmail. apply wp_bind; [apply _|]. split; [done|]. intros [t|e]; refuse H; intros H;
      cbn [masked bind_ok bind]; [|destruct (is_not_found e); done].
    apply wp_bind; [apply _|]. split; [done|]. intros now ? [-> _]. cbn [wp].
    rewrite used_unusable by (eapply H; cbn [on_ok]; f_equal; apply surjective_pairing). done.
  - unfold ResetPassword. destruct (short _); [done|]. apply wp_bind; [apply _|]. split; [done|].
    intros [t|e]; refuse H; intros H; cbn [masked bind_ok bind]; [|destruct (is_not_found e); done].
    apply wp_bind; [apply _|]. split; [done|]. intros now ? [-> _]. cbn [wp].
    rewrite used_unusable by (eapply H; cbn [on_ok]; f_equal; apply surjective_pairing). done.
  - unfold AcceptInvite. destruct (_ =! _); [done|]. destruct (short _); [done|].
    apply wp_bind; [apply _|]. split; [done|].
    intros [t|e]; refuse H; intros H; cbn [masked bind_ok bind]; [|destruct (is_not_found e); done].
    apply wp_bind; [apply _|]. split; [done|]. intros now ? [-> _]. cbn [wp].
    rewrite accepted_unusable by (eapply H; cbn [on_ok]; f_equal; apply surjective_pairing). done.
Qed.

(** ** Redeemed once, whatever runs at the same time *)

Context {S : Type} (h : handler Ctx AuthPort S) (view : S -> Vault) `{!TokenStore h view}.

(** The record of a credential is there and spent. *)
Definition redeemed (x : credential) (g : Vault) : Prop :=
  exists id, record_at (kind_of x) (hash_of x) g = Some (id, true).

Lemma redemption_is_recorded c x i (p p' : list (AuM (result unit))) s s' :
  p !! i = Some (redeem c x) -> steps h (p, s) (p', s') -> p' !! i = Some (Ret (Ok tt)) ->
  redeemed x (view s').
Proof.
  intros Hi Hsteps Hi'.
  pose (gs := imap (fun j (_ : AuM (result unit)) => mkKnow (bool_decide (j = i)) None false) p).
  destruct (steps_wp h (learning (kind_of x) (hash_of x)) (fun r n => kn_me n = true -> spent_after r n)
    (fun gs st => Forall (known (kind_of x) (hash_of x) (view st)) gs /\ kn_me <$> gs !! i = Some true)
    p s p' s' gs) as (gs' & Hw & HI & Hme); [| exact Hsteps | | |].
  - intros gs0 st j n R c0 e P Hj [HI Hme] [_ HP]. pose proof (vault_answers R c0 e st) as Ha.
    destruct (h R c0 e st) as [r st']. exists (learn (kind_of x) (hash_of x) e r n).
    split; [by apply HP|]. split.
    + apply Forall_insert; [|eapply known_learn; [exact Ha|by eapply Forall_lookup_1]].
      eapply Forall_impl; [exact HI|]. intros n' Hn'. eapply known_keeps; [|exact Hn'].
      by eapply vault_keeps.
    + destruct (decide (i = j)) as [->|Hne]; [|by rewrite list_lookup_insert_ne].
      rewrite list_lookup_insert_eq by (by eapply lookup_lt_Some). cbn. rewrite learn_me.
      rewrite Hj in Hme. done.
  - apply Forall2_same_length_lookup. split; [by unfold gs; rewrite length_imap|].
    intros j m n Hm Hn. unfold gs in Hn. rewrite list_lookup_imap, Hm in Hn. cbn in Hn. injection Hn as <-.
    case_bool_decide as Hji.
    + subst j. rewrite Hi in Hm. injection Hm as <-. eapply wp_mono; [apply _| |apply redeem_learns].
      intros a n' Ha _. exact Ha.
    + apply (wp_learning _ _ _ _ (fun n => kn_me n = false)); [intros; by rewrite learn_me| |done].
      intros a n' -> ?. done.
  - split.
    + apply Forall_lookup. intros j n Hn. unfold gs in Hn. rewrite list_lookup_imap in Hn.
      apply fmap_Some in Hn as (? & _ & ->). reflexivity.
    + unfold gs. rewrite list_lookup_imap, Hi. cbn. by rewrite bool_decide_true.
  - destruct (Forall2_lookup_l _ _ _ _ _ Hw Hi') as (n & Hn & Hq). cbn in Hq.
    rewrite Hn in Hme. injection Hme as Hme. specialize (Hq Hme eq_refl).
    eapply Forall_lookup_1 in HI; [|exact Hn]. unfold known in HI. destruct (kn_id n) as [id|].
    + destruct HI as (b & Hb & Hs). rewrite Hs in Hb by done. by exists id.
    + congruence.
Qed.

Lemma redeemed_is_refused c x y j (p p' : list (AuM (result unit))) s s' r :
  redeemed x (view s) -> kind_of y = kind_of x -> hash_of y = hash_of x ->
  p !! j = Some (redeem c y) -> steps h (p, s) (p', s') -> p' !! j = Some (Ret r) -> is_ok r = false.
Proof.
  intros [id Hx] Hk Hh Hj Hsteps Hj'.
  pose (gs := imap (fun i (_ : AuM (result unit)) => bool_decide (i = j)) p).
  destruct (steps_wp h (after_spent (kind_of x) (hash_of x)) (fun r me => me = true -> is_ok r = false)
    (fun gs st => (exists id, record_at (kind_of x) (hash_of x) (view st) = Some (id, true)) /\ gs !! j = Some true)
    p s p' s' gs) as (gs' & Hw & _ & Hme); [| exact Hsteps | | |].
  - intros gs0 st i me R c0 e P Hi [[id' HI] Hme] [_ HP]. pose proof (vault_answers R c0 e st) as Ha.
    destruct (h R c0 e st) as [a st']. exists me. split.
    + apply HP. split; [done|]. intros id0 b Hf. pose proof (found_is_there _ _ _ _ _ _ _ _ _ Ha Hf) as Hr.
      destruct (vault_keeps (kind_of x) (hash_of x) _ _ _ _ _ _ Ha _ _ HI) as (b' & Hb' & Hbb).
      rewrite Hr in Hb'. injection Hb' as _ ->. auto.
    + split; [|by rewrite list_insert_id].
      destruct (vault_keeps (kind_of x) (hash_of x) _ _ _ _ _ _ Ha _ _ HI) as (b' & Hb' & Hbb).
      exists id'. by rewrite <- (Hbb eq_refl).
  - apply Forall2_same_length_lookup. split; [by unfold gs; rewrite length_imap|].
    intros i m me Hm Hn. unfold gs in Hn. rewrite list_lookup_imap, Hm in Hn. cbn in Hn. injection Hn as <-.
    case_bool_decide as Hij.
    + subst i. rewrite Hj in Hm. injection Hm as <-. rewrite <- Hk, <- Hh.
      eapply wp_mono; [apply _| |apply redeem_refused]. intros a n' Ha _. exact Ha.
    + by apply wp_after_spent.
  - split; [by exists id|]. unfold gs. rewrite list_lookup_imap, Hj. cbn. by rewrite bool_decide_true.
  - destruct (Forall2_lookup_l _ _ _ _ _ Hw Hj') as (me & Hme' & Hq). cbn in Hq.
    rewrite Hme in Hme'. injection Hme' as <-. by apply Hq.
Qed.

(** C8. A refresh token, an email verification, a password reset and an invitation are redeemed once:
    when a redemption has returned without error, no redemption of the same token that starts
    afterwards succeeds, whatever other programs of the services run at the same time. *)
Theorem credentials_are_redeemed_once c c' x y i j (p p' p'' : list (AuM (result unit))) s s' s'' r :
  p !! i = Some (redeem c x) -> steps h (p, s) (p', s') -> p' !! i = Some (Ret (Ok tt)) ->
  p' !! j = Some (redeem c' y) -> kind_of y = kind_of x -> hash_of y = hash_of x ->
  steps h (p', s') (p'', s'') -> p'' !! j = Some (Ret r) -> is_ok r = false.
Proof.
  intros Hi Hst Hi' Hj Hk Hh Hst' Hj'. eapply redeemed_is_refused; [|exact Hk|exact Hh|exact Hj|exact Hst'|exact Hj'].
  by eapply redemption_is_recorded.
Qed.
End Redemptions.
