(* ===== verification/AuthSessions.v ===== *)
(** * Accounts: what a session rests on, what is stored of an account, what failures tell

    Statements over the history of a run: every call made, with its answer, whatever the
    answers are. *)
From S2P Require Import Prelude GoStrings AppError Authz Shared ConvEntity Prog Ports Presence Contacts Iam Roles Auth.

(** ** Histories *)

Inductive event : Type :=
| Ev {R} (c : Ctx) (e : AuthPort R) (answer : R).

(** The calls of a run, the latest first. *)
Definition recorded (pre : forall R, Ctx -> AuthPort R -> list event -> Prop) : contract Ctx AuthPort (list event) :=
  pre_post pre (fun _ c e g r g' => g' = Ev c e r :: g).

#[export] Instance recorded_mono pre : Monotone (recorded pre).
Proof. apply pre_post_mono. Qed.

Definition anything (R : Type) (c : Ctx) (e : AuthPort R) (g : list event) : Prop := True.

(** A call of a user's port. *)
Abbreviation EvIam c e r := (Ev c (AuIam e) r).

Ltac in_history := solve [repeat (first [left; reflexivity | right])].
Ltac rec_call r := apply wp_bind; [apply _|]; split; [try done|]; intros r ? ->; cbn [wp].
Ltac rec_call_ok r := apply wp_bind_ok; [apply _|]; split; [try done|]; intros [r|?] ? ->; cbn [wp].

(** A program whose result does not matter any more. *)
Lemma wp_recorded_any {A} (m : AuM A) (Q : A -> list event -> Prop) g :
  (forall a g', Q a g') -> wp (recorded anything) m Q g.
Proof.
  intros HQ. revert g. induction m as [a|R c e k IH]; cbn; intros g; [apply HQ|].
  split; [done|]. intros r g' _. apply IH.
Qed.

(** What stays true of longer histories, through a program that does not matter. *)
Definition lasting (Q : list event -> Prop) : Prop := forall ev g, Q g -> Q (ev :: g).

Lemma wp_lasting {A} (m : AuM A) (Q : list event -> Prop) g :
  lasting Q -> Q g -> wp (recorded anything) m (fun _ => Q) g.
Proof.
  intros HQ. revert g. induction m as [a|R c e k IH]; cbn; intros g Hg; [done|].
  split; [done|]. intros r g' ->. by apply IH, HQ.
Qed.

(** ** Sessions *)

Section Sessions.
Context (lower : Z -> Z) (parse_address : string -> bool) (sha256 : string -> string).

(** The permissions and scope of roles. *)
Lemma effective_permissions roles p :
  p ∈ (ResolveEffective roles).1 <-> p ∈ AllPermissions /\ exists role, role ∈ roles /\ p ∈ rl_Permissions role.
Proof.
  unfold ResolveEffective; cbn [fst]. rewrite list_elem_of_filter, elem_of_list_to_set, list_elem_of_In, in_concat.
  setoid_rewrite in_map_iff. split.
  - intros [(l & (role & <- & Hr) & Hp) Hall]. split; [done|]. exists role. by rewrite !list_elem_of_In.
  - intros [Hall (role & Hr & Hp)]. split; [|done]. exists (rl_Permissions role).
    rewrite !list_elem_of_In in *. split; [by exists role|done].
Qed.

Lemma effective_scope roles :
  (ResolveEffective roles).2 = ScopeAll <-> exists role, role ∈ roles /\ rl_SectorScope role = ScopeAll.
Proof.
  unfold ResolveEffective; cbn [snd]. destruct (existsb _ roles) eqn:He.
  - split; [|done]. intros _. apply existsb_exists in He as (role & Hr & Hs). exists role.
    apply bool_decide_eq_true_1 in Hs. by rewrite list_elem_of_In.
  - split; [done|]. intros (role & Hr & Hs). exfalso. apply not_true_iff_false in He. apply He, existsb_exists.
    exists role. rewrite <- list_elem_of_In. split; [done|]. by apply bool_decide_eq_true.
Qed.

(** A session of a user, opened under a context: the access token carries the user's tenant, id
    and sectors and exactly what the user's roles allow; the refresh token returned is stored
    under its hash for that user, not revoked. *)
Definition session_of (c : Ctx) (user : Account) (pair : TokenPair) (g : list event) : Prop :=
  tpr_User pair = user /\
  (exists roles, In (EvIam c (RolesByIDs (ua_RoleIDs user)) (Ok roles)) g /\
    (forall p, p ∈ tpr_Permissions pair <->
       p ∈ AllPermissions /\ exists role, role ∈ roles /\ p ∈ rl_Permissions role) /\
    (tpr_SectorScope pair = ScopeAll <-> exists role, role ∈ roles /\ rl_SectorScope role = ScopeAll)) /\
  In (Ev c (IssueAccess (mkClaims (ua_TenantID user) (ua_ID user) (tpr_Permissions pair) (ua_SectorIDs user)
                           (tpr_SectorScope pair)))
       (Ok (tpr_AccessToken pair, tpr_AccessExpiresAt pair))) g /\
  exists t, In (Ev c (RefreshCreate t) (Ok tt)) g /\ rt_TenantID t = ua_TenantID user /\ rt_UserID t = ua_ID user /\
    rt_TokenHash t = sha256 (tpr_RefreshToken pair) /\ rt_ExpiresAt t = tpr_RefreshExpiresAt pair /\
    rt_RevokedAt t = None.

Lemma session_lasts c user pair : lasting (session_of c user pair).
Proof.
  intros ev g (Hu & (roles & Hr & Hp) & Ha & (t & Ht & Hrest)). split_and!; [done| | |].
  - exists roles. split; [by right|done].
  - by right.
  - exists t. split; [by right|done].
Qed.

Lemma issue_opens c user agent ip (P : list event -> Prop) g :
  lasting P -> P g ->
  wp (recorded anything) (issue sha256 c user agent ip)
    (fun r g' => forall pair, r = Ok pair -> P g' /\ session_of c user pair g') g.
Proof.
  intros HP Hg. unfold issue. rec_call_ok roles; [|done].
  pose proof (effective_permissions roles) as Hperms. pose proof (effective_scope roles) as Hscope.
  destruct (ResolveEffective roles) as [perms scope]. cbn [fst snd] in Hperms, Hscope.
  rec_call access. destruct access as [[access accessExp]|e]; [|done].
  rec_call refresh. destruct refresh as [[plain refreshExp]|e]; [|done].
  rec_call now. rec_call newid. rec_call_ok u; [|done]. destruct u. intros pair [= <-].
  split; [by do 6 apply HP|]. split; [done|]. split; [|split].
  - exists roles. split; [in_history|]. done.
  - in_history.
  - eexists. split; [in_history|]. done.
Qed.

(** What a session is asked with, and what justifies opening one for a user. *)
Inductive request := ByPassword (cmd : LoginCommand) | ByToken (cmd : RefreshCommand).

Definition start (c : Ctx) (q : request) : AuM (result TokenPair) :=
  match q with ByPassword cmd => Login lower sha256 c cmd | ByToken cmd => Refresh sha256 c cmd end.

Definition justified (c : Ctx) (q : request) (user : Account) (g : list event) : Prop :=
  match q with
  | ByPassword cmd =>
      In (EvIam c (UserByEmailAnyTenant (UserSvc.normalizeEmail lower (lc_Email cmd))) (Ok user)) g /\
      lc_Password cmd <> "" /\
      In (EvIam c (Compare (ua_PasswordHash user) (lc_Password cmd)) (Ok tt)) g
  | ByToken cmd => exists rt now,
      In (Ev c (RefreshByHash (sha256 (rc_RefreshToken cmd))) (Ok rt)) g /\
      In (EvIam c IamNow now) g /\ Active rt now = true /\ In (Ev c (RefreshRevoke (rt_ID rt)) (Ok tt)) g /\
      In (EvIam (WithTenant c (rt_TenantID rt)) (UserByID (rt_UserID rt)) (Ok user)) g
  end.

Definition session_tenant (c : Ctx) (q : request) (user : Account) (g : list event) (c' : Ctx) : Prop :=
  match q with
  | ByPassword _ => c' = WithTenant c (ua_TenantID user)
  | ByToken cmd => exists rt, In (Ev c (RefreshByHash (sha256 (rc_RefreshToken cmd))) (Ok rt)) g /\
      c' = WithTenant c (rt_TenantID rt)
  end.

Lemma justified_lasts c q user : lasting (justified c q user).
Proof.
  intros ev g. destruct q; cbn [justified].
  - intros (H1 & H2 & H3). split_and!; [by right|done|by right].
  - intros (rt & now & H1 & H2 & H3 & H4 & H5). exists rt, now. split_and!; try done; by right.
Qed.

Lemma tenant_lasts c q user c' : lasting (fun g => session_tenant c q user g c').
Proof.
  intros ev g. destruct q; cbn [session_tenant]; [done|]. intros (rt & H1 & H2). exists rt. split; [by right|done].
Qed.

(** C9. Whatever the stores answer, a pair of tokens is only returned to who gave the password of an
    active user, or an active refresh token, revoked before, of a user of its tenant who is
    active; and it is a session of that user, with exactly the permissions of the user's roles. *)
Theorem sessions_are_justified c q :
  wp (recorded anything) (start c q) (fun r g => forall pair, r = Ok pair -> exists c',
    is_active (tpr_User pair) = true /\ justified c q (tpr_User pair) g /\
    session_tenant c q (tpr_User pair) g c' /\ session_of c' (tpr_User pair) pair g) [].
Proof.
  destruct q as [cmd|cmd]; cbn [start].
  - unfold Login. destruct (_ || _) eqn:Hblank; [done|]. prop_bools.
    rec_call found. destruct found as [user|e]; [|destruct (is_not_found e); [|done]; by rec_call r].
    destruct (is_active user) eqn:Hact; [|done]. cbn [negb]. rec_call same. destruct same as [[]|e]; [|done].
    apply wp_bind_ok; [apply _|]. eapply wp_mono; [apply _| |].
    2: { eapply (issue_opens _ _ _ _ (fun g => justified c (ByPassword cmd) user g)).
         - apply justified_lasts.
         - cbn [justified]. split_and!; [in_history|done|in_history]. }
    intros [pair|e] g' Hp; [|done]. destruct (Hp pair eq_refl) as [Hj Hs].
    rec_call r1. intros ? [= <-]. pose proof Hs as [-> _].
    exists (WithTenant c (ua_TenantID user)). split_and!; [done| |done|].
    + by apply (justified_lasts _ (ByPassword cmd)).
    + by apply session_lasts.
  - unfold Refresh. destruct (blank _); [done|]. rec_call found.
    destruct found as [rt|e]; cbn [masked bind_ok bind]; [|by destruct (is_not_found e)].
    rec_call now. destruct (Active rt now) eqn:Hactive; [|done]. cbn [negb]. rec_call_ok rv; [|done]. destruct rv.
    rec_call found. destruct found as [user|e]; cbn [masked bind_ok bind]; [|by destruct (is_not_found e)].
    destruct (is_active user) eqn:Hact; [|done]. cbn [negb].
    pose (c' := WithTenant c (rt_TenantID rt)).
    eapply wp_mono; [apply _| |].
    2: { eapply (issue_opens c' _ _ _ (fun g => justified c (ByToken cmd) user g /\ session_tenant c (ByToken cmd) user g c')).
         - intros ev g [? ?]. split; [by apply (justified_lasts c (ByToken cmd))|by apply (tenant_lasts c (ByToken cmd))].
         - split; cbn [justified session_tenant].
           + exists rt, now. split_and!; try done; in_history.
           + exists rt. split; [in_history|done]. }
    intros r g' Hp pair ->. destruct (Hp pair eq_refl) as [[Hj Ht] Hs]. pose proof Hs as [-> _].
    by exists c'.
Qed.

(** C34. A failed login says no more than that the credentials are invalid, unless the users' store
    failed, or the password given was right. *)
Theorem failed_logins_say_nothing c cmd :
  wp (recorded anything) (Login lower sha256 c cmd) (fun r g => forall e, r = Err e ->
    e = errInvalidCredentials \/
    (is_not_found e = false /\
     In (EvIam c (UserByEmailAnyTenant (UserSvc.normalizeEmail lower (lc_Email cmd))) (Err e)) g) \/
    exists user, is_active user = true /\ In (EvIam c (Compare (ua_PasswordHash user) (lc_Password cmd)) (Ok tt)) g) [].
Proof.
  unfold Login. destruct (_ || _); [cbn; intros e [= <-]; by left|].
  rec_call found. destruct found as [user|e].
  - destruct (is_active user) eqn:Hact; [|intros e [= <-]; by left]. cbn [negb]. rec_call same.
    destruct same as [[]|e]; [|intros e' [= <-]; by left].
    eapply wp_mono; [apply _| |].
    2: { apply (wp_lasting _ (fun g => In (EvIam c (Compare (ua_PasswordHash user) (lc_Password cmd)) (Ok tt)) g)).
         - by right.
         - in_history. }
    intros r g Hg e _. right. right. by exists user.
  - destruct (is_not_found e) eqn:Hnf.
    + rec_call r. intros e' [= <-]. by left.
    + intros e' [= <-]. right. left. split; [done|in_history].
Qed.

Context (AppBaseURL : string) (VerificationTTL ResetTTL : Z).

(** What asks for a mail without being signed in. *)
Inductive recovery := Forgot (email : string) | Resend (email : string).

Definition recover (c : Ctx) (q : recovery) : AuM (result unit) :=
  match q with
  | Forgot email => ForgotPassword lower parse_address sha256 AppBaseURL ResetTTL c email
  | Resend email => ResendVerification lower parse_address sha256 AppBaseURL VerificationTTL c email
  end.

(** The token could not be stored, or the mail could not be sent. *)
Definition undelivered (e : error) (g : list event) : Prop :=
  (exists c k t, In (Ev c (TokenCreate k t) (Err e)) g) \/ (exists c m mail, In (Ev c (SendMail m mail) (Err e)) g).

Lemma issueVerification_fails c user g :
  wp (recorded anything) (issueVerification sha256 AppBaseURL VerificationTTL c user)
    (fun r g' => forall e, r = Err e -> undelivered e g') g.
Proof.
  unfold issueVerification, genToken. apply wp_bind; [apply _|]. rec_call buf. rec_call now. rec_call newid.
  apply wp_bind_ok; [apply _|]. split; [done|]. intros [?|e] ? ->.
  - apply wp_bind; [apply _|]. unfold tenantName. rec_call company. split; [done|].
    intros r ? -> e ->. right. do 3 eexists. in_history.
  - intros e' [= <-]. left. do 3 eexists. in_history.
Qed.

(** C35. Asking for a password reset or for the verification mail again answers without error whether
    or not there is such an account, unless a token could not be stored or a mail not sent. *)
Theorem recovery_is_neutral c q :
  wp (recorded anything) (recover c q) (fun r g => forall e, r = Err e -> undelivered e g) [].
Proof.
  destruct q as [email|email]; cbn [recover].
  - unfold ForgotPassword. destruct (negb _); [done|]. rec_call found. destruct found as [user|e]; [|done].
    destruct (_ =! _); [done|]. rec_call now. rec_call inv. unfold genToken. apply wp_bind; [apply _|].
    rec_call buf. rec_call now2. rec_call newid. apply wp_bind_ok; [apply _|]. split; [done|].
    intros [?|e] ? ->; [|intros e' [= <-]; left; do 3 eexists; in_history].
    unfold user_audit. apply wp_bind; [apply _|]. rec_call au. split; [done|].
    intros r ? -> e ->. right. do 3 eexists. in_history.
  - unfold ResendVerification. destruct (negb _); [done|]. rec_call found. destruct found as [user|e]; [|done].
    destruct (negb _); [done|]. rec_call now. rec_call inv. apply issueVerification_fails.
Qed.
End Sessions.
