(* ===== verification/AuthAccounts.v ===== *)
(** * Accounts: they change only as the operation allows *)
From S2P Require Import Prelude GoStrings AppError Authz Shared ConvEntity Prog Ports Presence Contacts Iam Roles Auth AuthSessions.

Section Accounts.
Context (lower : Z -> Z) (parse_address : string -> bool) (sha256 : string -> string) (avatars : bool).
Context (AppBaseURL : string) (VerificationTTL ResetTTL InviteTTL : Z).

(** The operations of both components that write. *)
Inductive account_op :=
| OpSignup (cmd : SignupCommand) | OpVerifyEmail (token : string) | OpRecover (q : recovery)
| OpResetPassword (cmd : ResetPasswordCommand) | OpInvite (cmd : InviteCommand)
| OpAcceptInvite (cmd : AcceptInviteCommand) | OpStart (q : request) | OpLogout (token : string)
| OpCreateUser (cmd : CreateUser) | OpUpdateUser (id : string) (cmd : UpdateUser)
| OpUpdateProfile (id : string) (cmd : UpdateProfile) | OpChangePassword (id current next : string)
| OpDeleteUser (id : string) | OpSeedRoles | OpCreateRole (cmd : CreateRole)
| OpUpdateRole (id : string) (cmd : UpdateRole) | OpDeleteRole (id : string).

Definition ignore {A} (m : AuM A) : AuM unit := let! _ := m in Ret tt.

Definition account_prog (c : Ctx) (op : account_op) : AuM unit :=
  match op with
  | OpSignup cmd => ignore (Signup lower parse_address sha256 AppBaseURL VerificationTTL c cmd)
  | OpVerifyEmail token => ignore (VerifyEmail sha256 c token)
  | OpRecover q => ignore (recover lower parse_address sha256 AppBaseURL VerificationTTL ResetTTL c q)
  | OpResetPassword cmd => ignore (ResetPassword sha256 c cmd)
  | OpInvite cmd => ignore (Invite lower parse_address sha256 AppBaseURL InviteTTL c cmd)
  | OpAcceptInvite cmd => ignore (AcceptInvite sha256 c cmd)
  | OpStart q => ignore (start lower sha256 c q)
  | OpLogout token => ignore (Logout sha256 c token)
  | OpCreateUser cmd => ignore (iam (UserSvc.Create lower parse_address c cmd))
  | OpUpdateUser id cmd => ignore (iam (UserSvc.Update c id cmd))
  | OpUpdateProfile id cmd => ignore (iam (UserSvc.UpdateProfile_ c id cmd))
  | OpChangePassword id current next => ignore (iam (UserSvc.ChangePassword c id current next))
  | OpDeleteUser id => ignore (iam (UserSvc.Delete c id))
  | OpSeedRoles => ignore (iam (RoleSvc.SeedDefaults c))
  | OpCreateRole cmd => ignore (iam (RoleSvc.Create c cmd))
  | OpUpdateRole id cmd => ignore (iam (RoleSvc.Update c id cmd))
  | OpDeleteRole id => ignore (iam (RoleSvc.Delete c id))
  end.

(** The hash of a password long enough. *)
Definition hash_of_password (c : Ctx) (p hash : string) (g : list event) : Prop :=
  short p = false /\ In (EvIam c (Hash p) (Ok hash)) g.

(** What an operation may create an account as. *)
Definition may_create (c0 c : Ctx) (op : account_op) (u : Account) (g : list event) : Prop :=
  match op with
  | OpSignup cmd =>
      ua_Status u = StatusPendingVerification /\ ua_Email u = UserSvc.normalizeEmail lower (sc_Email cmd) /\
      hash_of_password c (sc_Password cmd) (ua_PasswordHash u) g /\
      exists t, In (Ev c0 (TenantCreate t) (Ok tt)) g /\ tn_ID t = ua_TenantID u
  | OpAcceptInvite cmd =>
      ua_Status u = StatusActive /\ hash_of_password c (ac_Password cmd) (ua_PasswordHash u) g /\
      exists inv now, In (Ev c0 (InviteByHash (sha256 (ac_Token cmd))) (Ok inv)) g /\
        In (EvIam c0 IamNow now) g /\ Invitation_Usable inv now = true /\
        ua_TenantID u = iv_TenantID inv /\ ua_Email u = iv_Email inv /\ ua_RoleIDs u = iv_RoleIDs inv /\
        ua_SectorIDs u = iv_SectorIDs inv
  | OpCreateUser cmd =>
      c = c0 /\ ua_Status u = StatusActive /\ ua_RoleIDs u = cu_RoleIDs cmd /\
      ua_Email u = UserSvc.normalizeEmail lower (cu_Email cmd) /\
      hash_of_password c (cu_Password cmd) (ua_PasswordHash u) g
  | _ => False
  end.

(** What an operation may change an account it read to. *)
Definition same_rights (u0 u : Account) : Prop := ua_RoleIDs u = ua_RoleIDs u0 /\ ua_SectorIDs u = ua_SectorIDs u0.
Definition confirmed (u0 u : Account) : Prop :=
  ua_Status u = if ua_Status u0 =! StatusPendingVerification then StatusActive else ua_Status u0.

(** A token read by its hash that could be redeemed, of the user and tenant it was issued for. *)
Definition by_token (c0 c : Ctx) (k : token_kind) (token id : string) (g : list event) : Prop :=
  exists t now, In (Ev c0 (TokenByHash k (sha256 token)) (Ok t)) g /\ In (EvIam c0 IamNow now) g /\
      Usable t now = true /\ ut_UserID t = id /\ c = WithTenant c0 (ut_TenantID t).

Definition may_change (c0 c : Ctx) (op : account_op) (id : string) (u0 u : Account) (g : list event) : Prop :=
  match op with
  | OpVerifyEmail token =>
      by_token c0 c VerifyToken token id g /\ same_rights u0 u /\ ua_PasswordHash u = ua_PasswordHash u0 /\
      ua_Status u0 = StatusPendingVerification /\ ua_Status u = StatusActive
  | OpResetPassword cmd =>
      by_token c0 c ResetToken (rp_Token cmd) id g /\ same_rights u0 u /\ confirmed u0 u /\
      hash_of_password c (rp_NewPassword cmd) (ua_PasswordHash u) g
  | OpUpdateUser i cmd =>
      c = c0 /\ id = i /\ ua_RoleIDs u = default (ua_RoleIDs u0) (uu_RoleIDs cmd) /\
      ua_SectorIDs u = from_option NormalizeSectorIDs (ua_SectorIDs u0) (uu_SectorIDs cmd) /\
      match uu_Status cmd with
      | Some st => ua_Status u = st /\ (st = StatusActive \/ st = StatusDisabled)
      | None => ua_Status u = ua_Status u0
      end /\
      match uu_Password cmd with
      | Some p => hash_of_password c p (ua_PasswordHash u) g
      | None => ua_PasswordHash u = ua_PasswordHash u0
      end
  | OpUpdateProfile i cmd =>
      c = c0 /\ id = i /\ same_rights u0 u /\ ua_Status u = ua_Status u0 /\ ua_PasswordHash u = ua_PasswordHash u0
  | OpChangePassword i current next =>
      c = c0 /\ id = i /\ same_rights u0 u /\ ua_Status u = ua_Status u0 /\
      hash_of_password c next (ua_PasswordHash u) g /\
      In (EvIam c (Compare (ua_PasswordHash u0) current) (Ok tt)) g
  | _ => False
  end.

Definition same_identity (u0 u : Account) : Prop :=
  ua_ID u = ua_ID u0 /\ ua_TenantID u = ua_TenantID u0 /\ ua_Email u = ua_Email u0 /\
  ua_CreatedAt u = ua_CreatedAt u0.

Definition sound_store (c0 : Ctx) (op : account_op) (R : Type) (c : Ctx) (e : AuthPort R) (g : list event) : Prop :=
  match e with
  | AuIam e =>
      match e with
      | UserCreate u => (forall t, RequireTenant c = Ok t -> ua_TenantID u = t) /\ may_create c0 c op u g
      | UserUpdate u => exists id u0, In (EvIam c (UserByID id) (Ok u0)) g /\ same_identity u0 u /\
          may_change c0 c op id u0 u g
      | _ => True
      end
  | _ => True
  end.

(** The same contract, of the programs of iam. *)
Definition iam_recorded (c0 : Ctx) (op : account_op) : contract Ctx IamPort (list event) :=
  fun R c e => recorded (sound_store c0 op) R c (AuIam e).

#[local] Instance iam_recorded_mono c0 op : Monotone (iam_recorded c0 op).
Proof. intros R c e P Q g HPQ [H1 H2]. split; [done|]. intros r g' Hr. by apply HPQ, H2. Qed.

(** Programs that write no account. *)
Definition writes_no_account {R} (c : Ctx) (e : AuthPort R) : Prop :=
  match e with AuIam (UserCreate _) | AuIam (UserUpdate _) => False | _ => True end.

Lemma wp_no_account c0 op {A} (m : AuM A) (Q : A -> list event -> Prop) (P : list event -> Prop) g :
  calls (@writes_no_account) m -> lasting P -> (forall a g, P g -> Q a g) -> P g ->
  wp (recorded (sound_store c0 op)) m Q g.
Proof.
  intros Hm HP HQ. revert g. induction m as [a|R c e k IH]; cbn; intros g Hg; [by apply HQ|].
  destruct Hm as [He Hk]. split.
  - destruct e as [R e| | | | | | | | | | | | | | | | |]; try done. by destruct e.
  - intros r g' ->. apply IH; [apply Hk|]. by apply HP.
Qed.

Lemma quiet_program c0 op {A} (m : AuM A) Q g :
  calls (@writes_no_account) m -> (forall a g, Q a g) -> wp (recorded (sound_store c0 op)) m Q g.
Proof. intros Hm HQ. by apply (wp_no_account _ _ _ _ (fun _ => True)). Qed.

Ltac plain_step := calls_step ltac:(exact I).

Lemma create_role_plain c cmd : calls (fun R c e => @writes_no_account R c (AuIam e)) (RoleSvc.Create c cmd).
Proof. unfold RoleSvc.Create, iam_audit. repeat plain_step. Qed.
#[local] Hint Resolve create_role_plain : calls.

Lemma seed_plain c defs out : calls (fun R c e => @writes_no_account R c (AuIam e)) (RoleSvc.seed c defs out).
Proof.
  revert out. induction defs as [|d defs IH]; intros out; cbn [RoleSvc.seed]; [exact I|].
  apply calls_bind; [auto with calls|]. intros r. apply calls_bind_ok; [|intros; apply IH].
  destruct r; [exact I|]. unfold RoleSvc.reseed. repeat plain_step.
Qed.
#[local] Hint Resolve seed_plain : calls.

Lemma issueVerification_plain c u : calls (@writes_no_account) (issueVerification sha256 AppBaseURL VerificationTTL c u).
Proof. unfold issueVerification, genToken, tenantName. repeat plain_step. Qed.
#[local] Hint Resolve issueVerification_plain : calls.

Lemma issue_plain c u agent ip : calls (@writes_no_account) (issue sha256 c u agent ip).
Proof. unfold issue. repeat plain_step. Qed.
#[local] Hint Resolve issue_plain : calls.

Lemma seed_defaults_plain c : calls (@writes_no_account) (iam (RoleSvc.SeedDefaults c)).
Proof. apply calls_lift. unfold RoleSvc.SeedDefaults. repeat plain_step. Qed.
#[local] Hint Resolve seed_defaults_plain : calls.

(** The operations that write no account. *)
Definition writer (op : account_op) : bool :=
  match op with
  | OpSignup _ | OpVerifyEmail _ | OpResetPassword _ | OpAcceptInvite _ | OpCreateUser _ | OpUpdateUser _ _
  | OpUpdateProfile _ _ | OpChangePassword _ _ _ => true
  | _ => false
  end.

Lemma other_operations_plain c op : writer op = false -> calls (@writes_no_account) (account_prog c op).
Proof.
  destruct op; try done; intros _; cbn [account_prog]; unfold ignore; (apply calls_bind; [|intros; exact I]).
  - destruct q; cbn [recover]; unfold ForgotPassword, ResendVerification, genToken, user_audit; repeat plain_step.
  - unfold Invite, genToken, tenantName. repeat plain_step.
  - destruct q; cbn [start]; unfold Login, Refresh, user_audit; repeat plain_step.
  - unfold Logout, user_audit. repeat plain_step.
  - apply calls_lift. unfold UserSvc.Delete, iam_audit. repeat plain_step.
  - auto with calls.
  - apply calls_lift. auto with calls.
  - apply calls_lift. unfold RoleSvc.Update, iam_audit. repeat plain_step.
  - apply calls_lift. unfold RoleSvc.Delete, iam_audit. repeat plain_step.
Qed.

(** Writing an account, the precondition left to prove. *)
Ltac store_call := apply wp_bind_ok; [apply _|]; split; [|intros [?|?] ? ->; cbn [wp]; [|done]].
Ltac no_more := cbn [wp]; apply quiet_program; [unfold user_audit; repeat plain_step|done].

Lemma verify_sound c token :
  wp (recorded (sound_store c (OpVerifyEmail token))) (VerifyEmail sha256 c token) (fun _ _ => True) [].
Proof.
  unfold VerifyEmail. rec_call found. destruct found as [t|e]; cbn [masked bind_ok bind]; [|by destruct (is_not_found e)].
  rec_call now. destruct (Usable t now) eqn:Hus; [|done]. cbn [negb]. rec_call_ok user; [|done].
  apply wp_bind_ok; [apply _|]. case_bool_decide as Hst.
  - rec_call now2. split; [|intros [?|?] ? ->; [no_more|done]].
    exists (ut_UserID t), user. split; [in_history|]. split; [done|]. split; [|done].
    exists t, now. split_and!; try done; in_history.
  - cbn [wp]. no_more.
Qed.

Lemma reset_sound c cmd :
  wp (recorded (sound_store c (OpResetPassword cmd))) (ResetPassword sha256 c cmd) (fun _ _ => True) [].
Proof.
  unfold ResetPassword. destruct (short _) eqn:Hshort; [done|]. rec_call found.
  destruct found as [t|e]; cbn [masked bind_ok bind]; [|by destruct (is_not_found e)].
  rec_call now. destruct (Usable t now) eqn:Hus; [|done]. cbn [negb]. rec_call_ok user; [|done]. rec_call hash.
  destruct hash as [hash|e]; [|done]. rec_call now2. store_call; [|no_more].
  exists (ut_UserID t), user. split; [in_history|]. cbn [ua_Status set_ua_PasswordHash].
  assert (Htok : forall g, by_token c (WithTenant c (ut_TenantID t)) ResetToken (rp_Token cmd) (ut_UserID t)
    (g ++ [EvIam c IamNow now; Ev c (TokenByHash ResetToken (hashToken sha256 (rp_Token cmd))) (Ok t)])).
  { intros g. exists t, now. split_and!; try done; apply in_or_app; right; in_history. }
  split; [by destruct (_ =! _)|]. split; [apply (Htok [_; _; _])|].
  split; [by destruct (_ =! _)|]. split; [|split; [done|]].
  - unfold confirmed. by destruct (ua_Status user =! StatusPendingVerification).
  - destruct (_ =! _); in_history.
Qed.

Lemma accept_sound c cmd :
  wp (recorded (sound_store c (OpAcceptInvite cmd))) (AcceptInvite sha256 c cmd) (fun _ _ => True) [].
Proof.
  unfold AcceptInvite. destruct (_ =! _); [done|]. destruct (short _) eqn:Hshort; [done|]. rec_call found.
  destruct found as [t|e]; cbn [masked bind_ok bind]; [|by destruct (is_not_found e)].
  rec_call now. destruct (Invitation_Usable t now) eqn:Hus; [|done]. cbn [negb]. rec_call hash.
  destruct hash as [hash|e]; [|done]. rec_call now2. rec_call newid. store_call; [|no_more].
  split; [intros tn Htn; by apply RequireTenant_ok in Htn as [[= <-] _]|].
  split; [done|]. split; [split; [done|in_history]|]. exists t, now. split_and!; try done; in_history.
Qed.

Lemma signup_sound c cmd :
  wp (recorded (sound_store c (OpSignup cmd)))
    (Signup lower parse_address sha256 AppBaseURL VerificationTTL c cmd) (fun _ _ => True) [].
Proof.
  unfold Signup. destruct (negb (bool_decide _)) eqn:Hv; [done|].
  assert (Hshort : short (sc_Password cmd) = false).
  { destruct (short (sc_Password cmd)) eqn:Hs; [|done]. exfalso. prop_bools.
    unfold signup_errors, UserSvc.invalid at 1 in Hv. rewrite Hs in Hv. by apply insert_non_empty in Hv. }
  rec_call found. destruct found as [user|e].
  - apply quiet_program; [|done]. repeat plain_step.
  - destruct (is_not_found e); [|done]. cbn [negb]. unfold provision. rec_call now. rec_call tenantID. rec_call_ok tu; [|done].
    destruct tu. apply wp_bind_ok; [apply _|].
    set (t := mkTenant _ _ _ _ _).
    eapply (wp_no_account _ _ _ _ (fun g => In (Ev c (TenantCreate t) (Ok tt)) g)); [auto with calls|by right| |in_history].
    intros [roleIDs|e'] g Hg; [|done]. rec_call hash. destruct hash as [hash|e']; [|done]. rec_call newid.
    store_call; [|no_more]. split.
    + intros tn Htn. by apply RequireTenant_ok in Htn as [[= <-] _].
    + split; [done|]. split; [done|]. split; [split; [done|in_history]|]. exists t. split; [|done].
      by do 2 right.
Qed.

Lemma create_user_sound c cmd :
  wp (iam_recorded c (OpCreateUser cmd)) (UserSvc.Create lower parse_address c cmd) (fun _ _ => True) [].
Proof.
  unfold UserSvc.Create. destruct (RequireTenant c) as [tn|] eqn:Htn; [|done]. cbn [bind_ok bind].
  destruct (negb (bool_decide _)) eqn:Hv; [done|].
  assert (Hshort : short (cu_Password cmd) = false).
  { destruct (short (cu_Password cmd)) eqn:Hs; [|done]. exfalso. prop_bools.
    unfold UserSvc.invalid at 1 in Hv. by apply insert_non_empty in Hv. }
  unfold UserSvc.hashed. rec_call hash. destruct hash as [hash|e]; [|done]. rec_call now. rec_call newid.
  store_call; [|unfold iam_audit; by rec_call au]. split; [cbn; congruence|].
  cbn [may_create]. do 4 (split; [done|]). split; [done|]. in_history.
Qed.

(** A field of an update, given or not. *)
Lemma wp_given c op {A B} (o : option A) f (k : Account -> IamM (result B)) (P : Account -> list event -> Prop) Q u g :
  (forall a, o = Some a -> wp (iam_recorded c op) (f a u) (fun r g' => forall u', r = Ok u' -> P u' g') g) ->
  (o = None -> P u g) ->
  (forall u' g', P u' g' -> wp (iam_recorded c op) (k u') Q g') -> (forall e g', Q (Err e) g') ->
  wp (iam_recorded c op) (try! u' := UserSvc.given o f u in k u') Q g.
Proof.
  intros Hf Hn Hk HQ. apply wp_bind_ok; [apply _|]. destruct o as [a|]; cbn [UserSvc.given wp].
  - eapply wp_mono; [apply _| |by apply Hf]. intros [u'|e] g' H; [by apply Hk, H|apply HQ].
  - by apply Hk, Hn.
Qed.

Lemma set_name_spec c op n u (P : Account -> list event -> Prop) g :
  (forall n, P (set_ua_Name n u) g) ->
  wp (iam_recorded c op) (UserSvc.set_name n u) (fun r g' => forall u', r = Ok u' -> P u' g') g.
Proof. intros H. unfold UserSvc.set_name. destruct (_ =! _); cbn [wp]; [done|]. by intros u' [= <-]. Qed.

(** The account read, its identity kept so far, and the read itself in the history. *)
Definition reading (c : Ctx) (id : string) (u0 u : Account) (g : list event) : Prop :=
  In (EvIam c (UserByID id) (Ok u0)) g /\ same_identity u0 u.

Lemma profile_sound c id cmd :
  wp (iam_recorded c (OpUpdateProfile id cmd)) (UserSvc.UpdateProfile_ c id cmd) (fun _ _ => True) [].
Proof.
  unfold UserSvc.UpdateProfile_. destruct (RequireTenant c); [|done]. cbn [bind_ok bind]. rec_call_ok u0; [|done].
  pose (P := fun u g => reading c id u0 u g /\ same_rights u0 u /\ ua_Status u = ua_Status u0 /\
                        ua_PasswordHash u = ua_PasswordHash u0).
  apply (wp_given _ _ _ _ _ P); [intros; apply set_name_spec; intros| | |done].
  1-2: split; [split; [in_history|done]|done].
  intros u1 g1 H1. apply (wp_given _ _ _ _ _ P); [intros; cbn; intros ? [= <-]; exact H1|done| |done].
  intros u2 g2 H2. apply (wp_given _ _ _ _ _ P); [| done| |done].
  - intros p _. unfold UserSvc.set_preferences. destruct (UserSvc.validatePreferences p); [|done].
    cbn. intros ? [= <-]. exact H2.
  - intros u3 g3 ([Hr Hid] & Hrights & Hst & Hh). unfold UserSvc.store. rec_call now. store_call; [|done].
    exists id, u0. split; [by right|]. done.
Qed.

Lemma change_password_sound c id current next :
  wp (iam_recorded c (OpChangePassword id current next)) (UserSvc.ChangePassword c id current next) (fun _ _ => True) [].
Proof.
  unfold UserSvc.ChangePassword. destruct (RequireTenant c); [|done]. cbn [bind_ok bind].
  destruct (short next) eqn:Hshort; [done|]. rec_call_ok u0; [|done]. rec_call same. destruct same as [[]|e]; [|done].
  unfold UserSvc.hashed. rec_call hash. destruct hash as [hash|e]; [|done]. unfold UserSvc.store. rec_call now.
  store_call; [|unfold iam_audit; by rec_call au]. exists id, u0. split; [in_history|]. split; [done|].
  cbn [may_change]. do 4 (split; [done|]). split; [split; [done|]|]; in_history.
Qed.

Lemma update_user_sound c id cmd :
  wp (iam_recorded c (OpUpdateUser id cmd)) (UserSvc.Update c id cmd) (fun _ _ => True) [].
Proof.
  unfold UserSvc.Update. destruct (RequireTenant c); [|done]. cbn [bind_ok bind]. rec_call_ok u0; [|done].
  pose (P1 := fun u g => reading c id u0 u g /\ same_rights u0 u /\ ua_Status u = ua_Status u0 /\
                         ua_PasswordHash u = ua_PasswordHash u0).
  pose (pass := fun u g => match uu_Password cmd with
      | Some p => hash_of_password c p (ua_PasswordHash u) g
      | None => ua_PasswordHash u = ua_PasswordHash u0
      end).
  pose (stat := fun u => match uu_Status cmd with
      | Some st => ua_Status u = st /\ (st = StatusActive \/ st = StatusDisabled)
      | None => ua_Status u = ua_Status u0
      end).
  pose (P2 := fun u g => reading c id u0 u g /\ same_rights u0 u /\ ua_Status u = ua_Status u0 /\ pass u g).
  pose (P3 := fun u g => reading c id u0 u g /\ same_rights u0 u /\ stat u /\ pass u g).
  pose (P4 := fun u g => reading c id u0 u g /\ ua_RoleIDs u = default (ua_RoleIDs u0) (uu_RoleIDs cmd) /\
    ua_SectorIDs u = ua_SectorIDs u0 /\ stat u /\ pass u g).
  pose (P5 := fun u g => reading c id u0 u g /\ ua_RoleIDs u = default (ua_RoleIDs u0) (uu_RoleIDs cmd) /\
    ua_SectorIDs u = from_option NormalizeSectorIDs (ua_SectorIDs u0) (uu_SectorIDs cmd) /\ stat u /\ pass u g).
  apply (wp_given _ _ _ _ _ P1); [intros; apply set_name_spec; intros| | |done].
  1-2: split; [split; [in_history|done]|done].
  intros u1 g1 (Hr1 & Hs1 & Hst1 & Hh1). apply (wp_given _ _ _ _ _ P2); [| | |done].
  { intros p Hp. unfold UserSvc.set_password. destruct (short p) eqn:Hshort; [done|]. unfold UserSvc.hashed.
    rec_call hash. destruct hash as [hash|e]; [|done]. intros u' [= <-].
    split; [split; [right; apply Hr1|apply Hr1]|]. split; [done|]. split; [done|].
    unfold pass. rewrite Hp. split; [done|]. in_history. }
  { intros Hp. split_and!; try done. unfold pass. by rewrite Hp. }
  intros u2 g2 (Hr2 & Hs2 & Hst2 & Hh2). apply (wp_given _ _ _ _ _ P3); [| | |done].
  { intros st Hst. unfold UserSvc.set_status. destruct (_ && _) eqn:Hv; [done|]. cbn. intros ? [= <-].
    split; [exact Hr2|]. split; [exact Hs2|]. split; [|exact Hh2]. unfold stat. rewrite Hst. split; [done|].
    apply andb_false_iff in Hv as [Hv|Hv]; prop_bools; auto. }
  { intros Hst. split_and!; try done. unfold stat. by rewrite Hst. }
  intros u3 g3 (Hr3 & Hs3 & Hst3 & Hh3). apply (wp_given _ _ _ _ _ P4); [| | |done].
  { intros roles Hroles. cbn. intros ? [= <-]. split; [exact Hr3|]. rewrite Hroles. split; [done|].
    split; [apply Hs3|]. done. }
  { intros Hroles. split; [exact Hr3|]. rewrite Hroles. split; [apply Hs3|]. split; [apply Hs3|done]. }
  intros u4 g4 (Hr4 & Hro4 & Hs4 & Hst4 & Hh4). apply (wp_given _ _ _ _ _ P5); [| | |done].
  { intros l Hl. cbn. intros ? [= <-]. split; [exact Hr4|]. split; [exact Hro4|]. rewrite Hl. done. }
  { intros Hl. split; [exact Hr4|]. split; [exact Hro4|]. by rewrite Hl. }
  intros u5 g5 H5. apply (wp_given _ _ _ _ _ P5); [|done| |done].
  { intros n _. unfold UserSvc.set_max. destruct (_ <? _); [done|]. cbn. intros ? [= <-]. exact H5. }
  intros u6 g6 ([Hr6 Hid6] & Hro6 & Hs6 & Hst6 & Hh6). unfold UserSvc.store. rec_call now.
  store_call; [|unfold iam_audit; by rec_call au]. exists id, u0. split; [by right|]. split; [exact Hid6|].
  cbn. split_and!; try done. unfold pass in Hh6. destruct (uu_Password cmd); [|done].
  destruct Hh6 as [? ?]. split; [done|]. by right.
Qed.

Lemma wp_ignore c op {A} (m : AuM (result A)) g :
  wp (recorded (sound_store c op)) m (fun _ _ => True) g ->
  wp (recorded (sound_store c op)) (ignore m) (fun _ _ => True) g.
Proof. intros H. apply wp_bind; [apply _|]. eapply wp_mono; [apply _| |exact H]. done. Qed.

(** C10. Accounts are created and changed only as their operation allows. An account is created by a
    signup, unconfirmed and in a tenant just created; by the acceptance of a usable invitation,
    with the rights it carries; or by an administrator. A change keeps the identity; it gives
    roles and sectors only as an administrator's update asks; it enables an account that was not
    waiting for its confirmation only as one asks; and every password stored is the hash of the
    one given, of eight bytes or more. *)
Theorem accounts_change_only_as_told c op :
  wp (recorded (sound_store c op)) (account_prog c op) (fun _ _ => True) [].
Proof.
  destruct (writer op) eqn:Hw; [|by apply quiet_program; [apply other_operations_plain|]].
  destruct op; try done; cbn [account_prog]; apply wp_ignore.
  - apply signup_sound.
  - apply verify_sound.
  - apply reset_sound.
  - apply accept_sound.
  - apply wp_lift; [apply _|]. apply create_user_sound.
  - apply wp_lift; [apply _|]. apply update_user_sound.
  - apply wp_lift; [apply _|]. apply profile_sound.
  - apply wp_lift; [apply _|]. apply change_password_sound.
Qed.
End Accounts.
