(* ===== verification/AuthCases.v ===== *)
(** * Accounts: a world in memory, and what happens in it *)
From S2P Require Import Prelude GoStrings AppError Authz Shared ConvEntity Prog Ports Presence Contacts Iam Roles Auth AuthProps AuthSessions AuthAccounts.

(** ** The world *)

(** The tokens, the accounts and roles by id, whether mails leave, and the clock, which every
    call moves and which numbers the identifiers and tokens. *)
Record World := mkWorld {
  wo_vault : Vault; wo_users : gmap string Account; wo_roles : gmap string Role; wo_mail : bool; wo_clock : Z }.

Definition tick (w : World) : World :=
  mkWorld (wo_vault w) (wo_users w) (wo_roles w) (wo_mail w) (wo_clock w + 1).
Definition with_vault (g : Vault) (w : World) : World :=
  mkWorld g (wo_users w) (wo_roles w) (wo_mail w) (wo_clock w).
Definition with_users (m : gmap string Account) (w : World) : World :=
  mkWorld (wo_vault w) m (wo_roles w) (wo_mail w) (wo_clock w).
Definition with_roles (m : gmap string Role) (w : World) : World :=
  mkWorld (wo_vault w) (wo_users w) m (wo_mail w) (wo_clock w).

Definition missing {A} : result A := Err (NotFound "not found").
Definition by_key {A} (m : gmap string A) (k : string) : result A := match m !! k with Some a => Ok a | None => missing end.
Definition in_scope {A} (c : Ctx) (tenant : A -> string) (r : result A) : result A :=
  match r with Ok a => if in_tenant c (tenant a) then Ok a else missing | Err e => Err e end.
Definition first_of {A} (p : A -> bool) (m : gmap string A) : result A :=
  match List.find p (map snd (map_to_list m)) with Some a => Ok a | None => missing end.

(** An insert under a unique key. *)
Definition insert_new {A} (m : gmap string A) (k : string) (a : A) : option (gmap string A) :=
  match m !! k with None => Some (<[k := a]> m) | Some _ => None end.
Definition inserted (w : World) (o : option World) : result unit * World :=
  match o with Some w' => (Ok tt, w') | None => (Err (Conflict "already exists"), w) end.

(** The hasher of the world only marks. *)
Definition mark (plain : string) : string := "h:" +:+ plain.
Definition serial (prefix : string) (w : World) : string := prefix +:+ show_nat (Z.to_nat (wo_clock w)).

Definition world_iam {R} (c : Ctx) (e : IamPort R) (w : World) : R * World :=
  match e in IamPort R return R * World with
  | IamNow => (wo_clock w, w)
  | IamNewID => (serial "id" w, w)
  | UserCreate u => inserted w ((fun m => with_users m w) <$> insert_new (wo_users w) (ua_ID u) (inserted_user u))
  | UserUpdate u =>
      match in_scope c ua_TenantID (by_key (wo_users w) (ua_ID u)) with
      | Ok old => (Ok tt, with_users (<[ua_ID u := stored_user old u]> (wo_users w)) w)
      | Err e => (Err e, w)
      end
  | UserDelete id => (Ok tt, with_users (delete id (wo_users w)) w)
  | UserByID id => (in_scope c ua_TenantID (by_key (wo_users w) id), w)
  | UsersByIDs ids => (Ok (omap (fun i => wo_users w !! i) ids), w)
  | UserByEmail email =>
      (first_of (fun u => (ua_Email u =! email) && in_tenant c (ua_TenantID u)) (wo_users w), w)
  | UserByEmailAnyTenant email => (first_of (fun u => ua_Email u =! email) (wo_users w), w)
  | UserList _ => (Ok (filter (fun u => in_tenant c (ua_TenantID u)) (map snd (map_to_list (wo_users w)))), w)
  | UsersBySector s => (Ok (filter (fun u => s ∈ ua_SectorIDs u) (map snd (map_to_list (wo_users w)))), w)
  | RoleCreate r => inserted w ((fun m => with_roles m w) <$> insert_new (wo_roles w) (rl_ID r) r)
  | RoleUpdate r => (Ok tt, with_roles (<[rl_ID r := r]> (wo_roles w)) w)
  | RoleDelete id => (Ok tt, with_roles (delete id (wo_roles w)) w)
  | RoleByID id => (by_key (wo_roles w) id, w)
  | RolesByIDs ids => (Ok (omap (fun i => wo_roles w !! i) ids), w)
  | RoleByName name => (first_of (fun r => rl_Name r =! name) (wo_roles w), w)
  | RoleList _ => (Ok (map snd (map_to_list (wo_roles w))), w)
  | Hash plain => (Ok (mark plain), w)
  | Compare hash plain => (if hash =! mark plain then Ok tt else Err (Unauthorized "mismatch"), w)
  | IamAudit _ => (Ok tt, w)
  | IamSignedAvatarURLs _ => (Ok ∅, w)
  end.

Definition update_vault (w : World) (g : Vault) : result unit * World := (Ok tt, with_vault g w).

Definition world_auth {R} (c : Ctx) (e : AuthPort R) (w : World) : R * World :=
  match e in AuthPort R return R * World with
  | AuIam e => world_iam c e w
  | RefreshCreate t =>
      inserted w ((fun m => with_vault (set_refresh m (wo_vault w)) w) <$> insert_new (va_refresh (wo_vault w)) (rt_TokenHash t) t)
  | RefreshByHash hash => (by_key (va_refresh (wo_vault w)) hash, w)
  | RefreshRevoke id => update_vault w (set_refresh
      ((fun t => if rt_ID t =! id then revoked (wo_clock w) t else t) <$> va_refresh (wo_vault w)) (wo_vault w))
  | RefreshRevokeAll tenantID userID => update_vault w (set_refresh
      ((fun t => if (rt_TenantID t =! tenantID) && (rt_UserID t =! userID) then revoked (wo_clock w) t else t)
         <$> va_refresh (wo_vault w)) (wo_vault w))
  | TokenCreate k t =>
      inserted w ((fun m => with_vault (set_user_tokens k m (wo_vault w)) w) <$>
                  insert_new (user_tokens k (wo_vault w)) (ut_TokenHash t) t)
  | TokenByHash k hash => (by_key (user_tokens k (wo_vault w)) hash, w)
  | TokenMarkUsed k id at_ => update_vault w (set_user_tokens k
      ((fun t => if ut_ID t =! id then used at_ t else t) <$> user_tokens k (wo_vault w)) (wo_vault w))
  | TokenInvalidate k userID at_ => update_vault w (set_user_tokens k
      ((fun t => if in_tenant c (ut_TenantID t) && (ut_UserID t =! userID) then used at_ t else t)
         <$> user_tokens k (wo_vault w)) (wo_vault w))
  | InviteCreate i =>
      inserted w ((fun m => with_vault (set_invites m (wo_vault w)) w) <$> insert_new (va_invites (wo_vault w)) (iv_TokenHash i) i)
  | InviteByHash hash => (by_key (va_invites (wo_vault w)) hash, w)
  | InviteMarkAccepted id at_ => update_vault w (set_invites
      ((fun i => if iv_ID i =! id then accepted at_ i else i) <$> va_invites (wo_vault w)) (wo_vault w))
  | TenantCreate _ => (Ok tt, w)
  | TenantByID id => (Ok (mkTenant id "Acme" TenantActive 0 0), w)
  | IssueAccess claims => (Ok (serial "access" w, wo_clock w + 900), w)
  | GenerateRefresh => (Ok (serial "refresh" w, wo_clock w + 86400), w)
  | AuthRandRead => (repeat (byte_of (wo_clock w mod 256)) 32, w)
  | SendMail _ _ => (if wo_mail w then Ok tt else Err (Internal "smtp unavailable"), w)
  end.

Definition world : handler Ctx AuthPort World := fun R c e w => world_auth c e (tick w).

Lemma by_key_lookup {A} (m : gmap string A) k : lookup_hash m k (by_key m k).
Proof. unfold lookup_hash, by_key. by destruct (m !! k). Qed.

Lemma world_iam_vault {R} c (e : IamPort R) w : wo_vault (world_iam c e w).2 = wo_vault w.
Proof.
  destruct e; cbn; try done; unfold insert_new; try (by destruct (_ !! _)).
  by destruct (in_scope c ua_TenantID (by_key (wo_users w) (ua_ID u))).
Qed.

#[export] Instance world_store : TokenStore world wo_vault.
Proof.
  constructor. intros R c e w. unfold world. set (w' := tick w). assert (wo_vault w = wo_vault w') as -> by done.
  clearbody w'. destruct e; cbn; try done.
  - pose proof (world_iam_vault c e w') as H. by destruct (world_iam c e w').
  - unfold insert_new. destruct (va_refresh (wo_vault w') !! rt_TokenHash t) eqn:H; cbn; auto.
  - split; [done|apply by_key_lookup].
  - exists (wo_clock w'). by left.
  - exists (wo_clock w'). by left.
  - unfold insert_new. destruct (user_tokens k (wo_vault w') !! ut_TokenHash t) eqn:H; cbn; auto.
  - split; [done|apply by_key_lookup].
  - by left.
  - by left.
  - unfold insert_new. destruct (va_invites (wo_vault w') !! iv_TokenHash i) eqn:H; cbn; auto.
  - split; [done|apply by_key_lookup].
  - by left.
Qed.

(** ** Alice's account *)

Definition hex (s : string) : string := "#" +:+ s.
Definition same_rune (r : Z) : Z := r.
Definition has_at (s : string) : bool := existsb (fun a => Ascii.eqb a (byte_of 64)) (bytes_of s).

Definition nowhere : Ctx := mkCtx None None None None.
Definition at_acme : Ctx := WithTenant nowhere "acme".

Definition alice : Account :=
  mkAccount "u1" "acme" "Alice" "alice@acme.io" (mark "correct horse") StatusActive ["r1"] [] 3 "" None "" [] 0 0.
Definition agent_role : Role := mkIamRole "r1" "acme" "agent" [] ScopeOwn 0 0.
Definition a_token : RefreshToken := mkRefreshToken "t1" "acme" "u1" (hex "secret") 1000000 None "" "" 0.
Definition a_reset : UserToken := mkUserToken "k1" "acme" "u1" (hex "forgot") 1000000 None 0.

Definition morning (mail : bool) : World :=
  mkWorld (mkVault {[hex "secret" := a_token]} ∅ {[hex "forgot" := a_reset]} ∅)
    {["u1" := alice]} {["r1" := agent_role]} mail 0.

Definition rotation : credential := Rotation (mkRefresh "secret" "" "").
Definition rotate : AuM (result unit) := redeem hex nowhere rotation.

(** A login for Alice, as a request sees it. *)
Definition try_login (password : string) : AuM (result unit) :=
  void (Login same_rune hex nowhere (mkLogin "alice@acme.io" password "" "")).

(** The refresh tokens of the world that are still active. *)
Definition open_sessions (w : World) : nat :=
  length (filter (fun t => Active t (wo_clock w) = true) (map snd (map_to_list (va_refresh (wo_vault w))))).

(** The same token presented twice, one request after the other. *)
Definition rotated_once := schedule world (replicate 20 0%nat) [rotate; rotate] (morning true).
Definition rotated_twice := schedule world (replicate 20 1%nat) rotated_once.1 rotated_once.2.

Lemma credentials_are_redeemed_once_witness :
  rotated_once.1 !! 0%nat = Some (Ret (Ok tt)) /\
  rotated_twice.1 !! 1%nat = Some (Ret (Err errInvalidCredentials)) /\
  is_ok (@Err unit errInvalidCredentials) = false.
Proof.
  assert (Hp : rotated_once.1 !! 0%nat = Some (Ret (Ok tt))) by (vm_compute; reflexivity).
  assert (Hr : rotated_twice.1 !! 1%nat = Some (Ret (Err errInvalidCredentials))) by (vm_compute; reflexivity).
  split; [exact Hp|]. split; [exact Hr|].
  apply (credentials_are_redeemed_once hex world wo_vault nowhere nowhere rotation rotation 0 1
           [rotate; rotate] rotated_once.1 rotated_twice.1 (morning true) rotated_once.2 rotated_twice.2
           (Err errInvalidCredentials)); [reflexivity| |exact Hp| |reflexivity|reflexivity| |exact Hr].
  - exact (schedule_reaches world (replicate 20 0%nat) [rotate; rotate] (morning true)).
  - etransitivity; [apply schedule_untouched|reflexivity]. by intros [? ?]%elem_of_replicate.
  - exact (schedule_reaches world (replicate 20 1%nat) rotated_once.1 rotated_once.2).
Defined.

(** ** What goes wrong *)

Definition turns (l : list (nat * nat)) : list nat := concat (map (fun '(n, i) => replicate n i) l).

(** A token presented twice at once is redeemed twice: both requests read it before either revokes
    it, and revoking a revoked token is not an error. One session becomes two. *)
Theorem a_token_rotated_twice_at_once :
  let '(p, w) := schedule world (turns [(2, 0); (2, 1); (20, 0); (20, 1)])%nat [rotate; rotate] (morning true) in
  p = [Ret (Ok tt); Ret (Ok tt)] /\ open_sessions (morning true) = 1%nat /\ open_sessions w = 2%nat.
Proof. vm_compute. by repeat split. Qed.

(** An account disabled while its owner edits the profile is enabled again: the profile's update
    writes back the status it read. *)
Theorem a_disabled_account_comes_back :
  let disable := iam (UserSvc.Update at_acme "u1" (mkUpdateUser None None (Some StatusDisabled) None None None)) in
  let rename := iam (UserSvc.UpdateProfile_ at_acme "u1" (mkUpdateProfile (Some "Alice S.") None None)) in
  let '(p, w) := schedule world (turns [(1, 1); (5, 0); (5, 1)])%nat [void disable; void rename] (morning true) in
  p = [Ret (Ok tt); Ret (Ok tt)] /\ (ua_Status <$> wo_users w !! "u1") = Some StatusActive /\
  (run world (try_login "correct horse") w).1 = Ok tt.
Proof. vm_compute. by repeat split. Qed.

(** A password reset closes the sessions of the account; a password changed by its owner, or by
    an administrator, leaves them open. *)
Theorem sessions_outlive_a_password_change :
  let reset := ResetPassword hex nowhere (mkReset "forgot" "battery staple") in
  let change := iam (UserSvc.ChangePassword at_acme "u1" "correct horse" "battery staple") in
  let admin := iam (UserSvc.Update at_acme "u1" (mkUpdateUser None (Some "battery staple") None None None None)) in
  let after (m : AuM (result unit)) :=
    let w := (run world m (morning true)).2 in
    ((run world (try_login "battery staple") w).1, (run world rotate w).1) in
  after reset = (Ok tt, Err errInvalidCredentials) /\ after change = (Ok tt, Ok tt) /\ after (void admin) = (Ok tt, Ok tt).
Proof. vm_compute. by repeat split. Qed.

(** When the mail server is down, asking for a reset tells which addresses have an account. *)
Theorem a_failed_mail_tells_the_account :
  let forgot email := (run world (ForgotPassword same_rune has_at hex "https://app" 3600 nowhere email) (morning false)).1 in
  forgot "alice@acme.io" = Err (Internal "smtp unavailable") /\ forgot "bob@acme.io" = Ok tt.
Proof. vm_compute. by repeat split. Qed.

(** Two signups of one address at once create two companies with an owner each, of which a login
    can only ever find one. *)
Theorem two_signups_split_an_owner :
  let signup := void (Signup same_rune has_at hex "https://app" 3600 nowhere
                        (mkSignup "Beta" "Bia" "bia@beta.io" "correct horse")) in
  let '(p, w) := schedule world (turns [(1, 0); (1, 1); (60, 0); (60, 1)])%nat [signup; signup] (morning true) in
  p = [Ret (Ok tt); Ret (Ok tt)] /\
  length (filter (fun u => ua_Email u = "bia@beta.io") (map snd (map_to_list (wo_users w)))) = 2%nat.
Proof. vm_compute. by repeat split. Qed.
