(* ===== verification/Privacy.v ===== *)
(** * Privacy: export, erasure and retention

    domain/privacy with its Mongo repository: the bundle of a contact, the erasure of everything
    that carries its data, and the retention of a tenant, which leaves alone what is under a legal
    hold. A repository method is the sequence of its calls to the collections, each of which may
    fail on its own: nothing here is transactional. *)
From S2P Require Import Prelude GoStrings AppError Authz Shared ConvEntity Prog Ports Calendar Sla.

(** ** Entities (domain/privacy/entity) *)

Definition ExportPending : string := "pending".
Definition ExportReady : string := "ready".
Definition ExportFailed : string := "failed".

Record ExportRequest := mkExportRequest {
  xr_ID : string; xr_TenantID : string; xr_ContactID : string; xr_Status : string; xr_RequestedBy : string;
  xr_StorageKey : string; xr_DownloadURL : string; xr_ExpiresAt : Time; xr_Error : string; xr_CreatedAt : Time;
  xr_CompletedAt : option Time }.

Record LegalHold := mkLegalHold {
  lh_ID : string; lh_TenantID : string; lh_ContactID : string; lh_Reason : string; lh_Until : Time; lh_CreatedAt : Time }.

Definition Active (h : LegalHold) (at_ : Time) : bool := (lh_Until h =? ZeroTime) || (at_ <? lh_Until h).

Record RetentionPolicy := mkRetention {
  rp_TenantID : string; rp_MessagesDays : Z; rp_ClosedConversationsDays : Z; rp_TechnicalLogsDays : Z;
  rp_AuditLogsDays : Z; rp_NotificationsDays : Z; rp_UpdatedAt : Time }.

Definition DefaultRetention (tenantID : string) : RetentionPolicy := mkRetention tenantID 0 0 0 0 0 ZeroTime.

Definition clamp (v : Z) : Z := if v <? 0 then 0 else v.
Definition Normalize_ (p : RetentionPolicy) : RetentionPolicy :=
  mkRetention (rp_TenantID p) (clamp (rp_MessagesDays p)) (clamp (rp_ClosedConversationsDays p))
    (clamp (rp_TechnicalLogsDays p)) (clamp (rp_AuditLogsDays p)) (clamp (rp_NotificationsDays p)) (rp_UpdatedAt p).

(** ** Contracts and results (contracts/, repository/) *)

Record UpdateRetentionCmd := mkUpdateRetention {
  ur_MessagesDays : option Z; ur_ClosedConversationsDays : option Z; ur_TechnicalLogsDays : option Z;
  ur_AuditLogsDays : option Z; ur_NotificationsDays : option Z }.

Record ExportTask := mkExportTask { xt_TenantID : string; xt_RequestID : string; xt_ActorID : string }.

Record DealLink := mkDealLink { lk_ID : string; lk_Title : string }.

Record EraseResult := mkEraseResult {
  er_Conversations : Z; er_Messages : Z; er_Events : Z; er_Attachments : Z; er_CSAT : Z; er_SLATrackings : Z;
  er_MCPApprovals : Z; er_MCPCallLogs : Z; er_CopilotLogs : Z; er_RuleEvalLogs : Z; er_InboundMessages : Z;
  er_ProviderQueryLogs : Z; er_Exports : Z; er_DealsUnlinked : Z; er_BlobKeys : list string; er_ExportKeys : list string }.

Definition no_erasure : EraseResult := mkEraseResult 0 0 0 0 0 0 0 0 0 0 0 0 0 0 [] [].

Definition Documents (r : EraseResult) : Z :=
  er_Conversations r + er_Messages r + er_Events r + er_Attachments r + er_CSAT r + er_SLATrackings r
  + er_MCPApprovals r + er_MCPCallLogs r + er_CopilotLogs r + er_RuleEvalLogs r + er_InboundMessages r
  + er_ProviderQueryLogs r + er_Exports r.

Record IdentityData := mkIdentityData { id_Channel : string; id_ExternalID : string }.
Record ContactData := mkContactData {
  cd_ID : string; cd_Name : string; cd_Phone : string; cd_Document : string; cd_Identities : list IdentityData;
  cd_Anonymized : bool; cd_CreatedAt : Time }.
Record MessageData := mkMessageData {
  md_ID : string; md_Direction : string; md_SenderType : string; md_Type : string; md_Text : string; md_CreatedAt : Time }.
Record ConversationData := mkConversationData {
  vd_ID : string; vd_Channel : string; vd_Status : string; vd_CreatedAt : Time; vd_ClosedAt : option Time;
  vd_Messages : list MessageData }.
Record CSATData := mkCSATData {
  sd_ID : string; sd_ConversationID : string; sd_Score : option Z; sd_Comment : string; sd_Status : string; sd_CreatedAt : Time }.
Record ExportBundle := mkBundle {
  bu_GeneratedAt : Time; bu_Contact : ContactData; bu_Conversations : list ConversationData; bu_CSAT : list CSATData }.

Record RetentionResult := mkRetentionResult {
  rr_Messages : Z; rr_ClosedConversations : Z; rr_TechnicalLogs : Z; rr_AuditLogs : Z; rr_Notifications : Z;
  rr_SatelliteDocs : Z; rr_BlobKeys : list string }.
Definition Total (r : RetentionResult) : Z :=
  rr_Messages r + rr_ClosedConversations r + rr_TechnicalLogs r + rr_AuditLogs r + rr_Notifications r + rr_SatelliteDocs r.

(** ** The collections *)

Inductive Coll :=
| Contacts | Conversations | Messages | Events | Attachments | Csat | SlaTrackings | McpApprovals | McpCallLogs
| CopilotLogs | RuleEvalLogs | InboundLedger | ProviderLogs | Deals | Notifications | AuditLogs | Exports | LegalHolds.

#[export] Instance Coll_eq_dec : EqDecision Coll.
Proof. solve_decision. Defined.

(** The fields of a document the filters of the repository mention. *)
Record Doc := mkDoc {
  d_id : string; d_tenant_id : string; d_contact_id : string; d_conversation_id : string;
  d_conversation_ids : list string; d_status : string; d_closed_at : option Time; d_created_at : Time;
  d_updated_at : Time; d_storage_key : string; d_avatar_attachment_id : string; d_until : option Time; d_title : string }.

Definition unlinked_contact (now : Time) (d : Doc) : Doc :=
  mkDoc (d_id d) (d_tenant_id d) "" (d_conversation_id d) (d_conversation_ids d) (d_status d) (d_closed_at d)
    (d_created_at d) now (d_storage_key d) (d_avatar_attachment_id d) (d_until d) (d_title d).
Definition unlinked_conversations (convIDs : list string) (now : Time) (d : Doc) : Doc :=
  mkDoc (d_id d) (d_tenant_id d) (d_contact_id d) (d_conversation_id d)
    (filter (fun i => i ∉ convIDs) (d_conversation_ids d)) (d_status d) (d_closed_at d)
    (d_created_at d) now (d_storage_key d) (d_avatar_attachment_id d) (d_until d) (d_title d).

Record PrivacyAudit := mkPrivacyAudit {
  pa_ActorID : string; pa_Action : string; pa_ResourceType : string; pa_ResourceID : string;
  pa_Data : list (string * value); pa_At : Time }.

(** ** Ports: the collections, the stores of files and the rest *)

Inductive PrivacyPort : Type -> Type :=
| PvNow : PrivacyPort Time
| PvSystemNow : PrivacyPort Time
| PvNewID : PrivacyPort string
| Find (coll : Coll) (p : Doc -> bool) : PrivacyPort (result (list Doc))
| FindOne (coll : Coll) (p : Doc -> bool) : PrivacyPort (result Doc)
| Distinct (coll : Coll) (field : Doc -> string) (p : Doc -> bool) : PrivacyPort (result (list string))
| CountDocuments (coll : Coll) (p : Doc -> bool) : PrivacyPort (result Z)
| DeleteMany (coll : Coll) (p : Doc -> bool) : PrivacyPort (result Z)
| UpdateMany (coll : Coll) (p : Doc -> bool) (f : Doc -> Doc) : PrivacyPort (result unit)
| FindRetention (tenantID : string) : PrivacyPort (result (option RetentionPolicy))
| UpsertRetention (tenantID : string) (p : RetentionPolicy) : PrivacyPort (result unit)
| InsertExport (e : ExportRequest) : PrivacyPort (result unit)
| SetExport (tenantID : string) (e : ExportRequest) : PrivacyPort (result unit)
| ExportByID (tenantID id : string) : PrivacyPort (result ExportRequest)
| BundleContact (tenantID contactID : string) : PrivacyPort (result ContactData)
| BundleConversations (tenantID contactID : string) : PrivacyPort (result (list ConversationData))
| BundleMessages (tenantID conversationID : string) : PrivacyPort (result (list MessageData))
| BundleCSAT (tenantID contactID : string) : PrivacyPort (result (list CSATData))
| FileSave (key data : string) : PrivacyPort (result unit)
| FileSignedURL (key : string) (ttl : Z) : PrivacyPort (result (string * Time))
| FileDelete (key : string) : PrivacyPort (result unit)
| BlobDelete (key : string) : PrivacyPort (result unit)
| EnqueueExport (task : ExportTask) : PrivacyPort (result unit)
| PvAudit (e : PrivacyAudit) : PrivacyPort (result unit).

#[export] Instance privacy_own : Embed PrivacyPort PrivacyPort := fun R e => e.

Abbreviation PvM := (prog Ctx PrivacyPort).

(** ** The repository (infra/database/mongodb/repositories/privacy) *)

Definition closedStatuses : list string := ["closed"; "resolved"; "archived"].
Definition one_of (v : string) (l : list string) : bool := existsb (fun x => x =! v) l.
Definition in_tenant_ (t : string) (d : Doc) : bool := d_tenant_id d =! t.

Definition by_id (t id : string) (d : Doc) : bool := (d_id d =! id) && in_tenant_ t d.
Definition by_contact (t contactID : string) (d : Doc) : bool := in_tenant_ t d && (d_contact_id d =! contactID).
Definition by_conversations (t : string) (convIDs : list string) (d : Doc) : bool :=
  in_tenant_ t d && one_of (d_conversation_id d) convIDs.

Section Repository.
Context (c : Ctx).

Definition GetRetention_ : PvM (result (option RetentionPolicy)) :=
  try! t := Ret (RequireTenant c) in ask c (FindRetention t).
Definition SaveRetention_ (p : RetentionPolicy) : PvM (result unit) :=
  try! t := Ret (RequireTenant c) in ask c (UpsertRetention t p).

Definition CreateExport (e : ExportRequest) : PvM (result unit) :=
  try! t := Ret (RequireTenant c) in
  ask c (InsertExport (mkExportRequest (xr_ID e) t (xr_ContactID e) (xr_Status e) (xr_RequestedBy e) "" "" ZeroTime ""
                         (xr_CreatedAt e) None)).
Definition UpdateExport (e : ExportRequest) : PvM (result unit) :=
  try! t := Ret (RequireTenant c) in ask c (SetExport t e).
Definition FindExport (id : string) : PvM (result ExportRequest) :=
  try! t := Ret (RequireTenant c) in ask c (ExportByID t id).

(** The conversations of a bundle with their messages. *)
Fixpoint with_messages (t : string) (convs : list ConversationData) : PvM (result (list ConversationData)) :=
  match convs with
  | [] => Ret (Ok [])
  | cv :: convs =>
      try! msgs := ask c (BundleMessages t (vd_ID cv)) in
      try! rest := with_messages t convs in
      Ret (Ok (mkConversationData (vd_ID cv) (vd_Channel cv) (vd_Status cv) (vd_CreatedAt cv) (vd_ClosedAt cv) msgs :: rest))
  end.

Definition CollectBundle (contactID : string) : PvM (result ExportBundle) :=
  try! t := Ret (RequireTenant c) in
  try! contact := ask c (BundleContact t contactID) in
  try! convs := ask c (BundleConversations t contactID) in
  try! convs := with_messages t convs in
  try! csat := ask c (BundleCSAT t contactID) in
  Ret (Ok (mkBundle ZeroTime contact convs csat)).

(** *** Erasure *)

Definition contactConversationIDs (t contactID : string) : PvM (result (list string)) :=
  ask c (Distinct Conversations d_id (by_contact t contactID)).

Definition dealLinkFilter (t contactID : string) (convIDs : list string) (d : Doc) : bool :=
  in_tenant_ t d && ((d_contact_id d =! contactID) || existsb (fun i => one_of i convIDs) (d_conversation_ids d)).

Definition LinkedDeals (contactID : string) : PvM (result (list DealLink)) :=
  try! t := Ret (RequireTenant c) in
  try! convIDs := contactConversationIDs t contactID in
  try! deals := ask c (Find Deals (dealLinkFilter t contactID convIDs)) in
  Ret (Ok (map (fun d => mkDealLink (d_id d) (d_title d)) deals)).

Definition keys_of (l : list Doc) : list string := filter (fun k => k <> "") (map d_storage_key l).

Definition attachmentKeysFor (p : Doc -> bool) : PvM (result (list string)) :=
  try! atts := ask c (Find Attachments p) in
  Ret (Ok (keys_of atts)).

Definition attachmentBlobKeys (t : string) (convIDs : list string) (avatarID : string) : PvM (result (list string)) :=
  if (length convIDs =? 0)%nat && (avatarID =! "") then Ret (Ok [])
  else
    try! out := attachmentKeysFor (fun d =>
      in_tenant_ t d && (one_of (d_conversation_id d) convIDs || ((avatarID <>! "") && (d_id d =! avatarID)))) in
    if avatarID <>! "" then
      try! _ := ask c (DeleteMany Attachments (by_id t avatarID)) in
      Ret (Ok out)
    else Ret (Ok out).

Definition exportStorageKeys (t contactID : string) : PvM (result (list string)) :=
  try! vals := ask c (Distinct Exports d_storage_key (by_contact t contactID)) in
  Ret (Ok (filter (fun k => k <> "") vals)).

Definition unlinkDeals (t contactID : string) (convIDs : list string) : PvM (result Z) :=
  try! ids := ask c (Distinct Deals d_id (dealLinkFilter t contactID convIDs)) in
  let! now := ask c PvSystemNow in
  try! _ := ask c (UpdateMany Deals (by_contact t contactID) (unlinked_contact now)) in
  if (0 <? length convIDs)%nat then
    let! now := ask c PvSystemNow in
    try! _ := ask c (UpdateMany Deals (fun d => in_tenant_ t d && existsb (fun i => one_of i convIDs) (d_conversation_ids d))
                       (unlinked_conversations convIDs now)) in
    Ret (Ok (Z.of_nat (size (list_to_set ids : gset string))))
  else Ret (Ok (Z.of_nat (size (list_to_set ids : gset string)))).

Definition cascadeConversationData (t : string) (convIDs : list string) : PvM (result EraseResult) :=
  if (length convIDs =? 0)%nat then Ret (Ok no_erasure)
  else
    try! keys := attachmentBlobKeys t convIDs "" in
    let byConv := by_conversations t convIDs in
    try! messages := ask c (DeleteMany Messages byConv) in
    try! events := ask c (DeleteMany Events byConv) in
    try! attachments := ask c (DeleteMany Attachments byConv) in
    try! sla := ask c (DeleteMany SlaTrackings byConv) in
    try! approvals := ask c (DeleteMany McpApprovals byConv) in
    try! calls := ask c (DeleteMany McpCallLogs byConv) in
    try! copilot := ask c (DeleteMany CopilotLogs byConv) in
    try! rules := ask c (DeleteMany RuleEvalLogs byConv) in
    try! inbound := ask c (DeleteMany InboundLedger byConv) in
    try! provider := ask c (DeleteMany ProviderLogs byConv) in
    Ret (Ok (mkEraseResult 0 messages events attachments 0 sla approvals calls copilot rules inbound provider 0 0 keys [])).

Definition EraseContact_ (contactID : string) (unlink : bool) : PvM (result EraseResult) :=
  try! t := Ret (RequireTenant c) in
  try! contact := ask c (FindOne Contacts (by_id t contactID)) in
  try! convIDs := contactConversationIDs t contactID in
  try! dealsUnlinked := (if unlink then unlinkDeals t contactID convIDs else Ret (Ok 0)) in
  try! res := cascadeConversationData t convIDs in
  try! avatarKeys := (if d_avatar_attachment_id contact <>! ""
                      then attachmentBlobKeys t [] (d_avatar_attachment_id contact) else Ret (Ok [])) in
  try! exportKeys := exportStorageKeys t contactID in
  try! csat := ask c (DeleteMany Csat (by_contact t contactID)) in
  try! provider := ask c (DeleteMany ProviderLogs (by_contact t contactID)) in
  try! exports := ask c (DeleteMany Exports (by_contact t contactID)) in
  try! convs := ask c (DeleteMany Conversations (by_contact t contactID)) in
  try! _ := ask c (DeleteMany Contacts (by_id t contactID)) in
  Ret (Ok (mkEraseResult convs (er_Messages res) (er_Events res) (er_Attachments res) csat (er_SLATrackings res)
             (er_MCPApprovals res) (er_MCPCallLogs res) (er_CopilotLogs res) (er_RuleEvalLogs res)
             (er_InboundMessages res) (er_ProviderQueryLogs res + provider) exports dealsUnlinked
             (er_BlobKeys res ++ avatarKeys) exportKeys)).

(** *** Legal holds *)

Definition activeHoldFilter (t : string) (at_ : Time) (contactID : string) (d : Doc) : bool :=
  in_tenant_ t d
  && match d_until d with None => true | Some u => (u =? ZeroTime) || (at_ <? u) end
  && ((contactID =! "") || (d_contact_id d =! contactID)).

Definition HasActiveLegalHold (contactID : string) (at_ : Time) : PvM (result bool) :=
  try! t := Ret (RequireTenant c) in
  try! n := ask c (CountDocuments LegalHolds (activeHoldFilter t at_ contactID)) in
  Ret (Ok (0 <? n)).

Definition heldConversationIDs (t : string) (now : Time) : PvM (result (list string)) :=
  try! heldContacts := ask c (Distinct LegalHolds d_contact_id (activeHoldFilter t now "")) in
  if (length heldContacts =? 0)%nat then Ret (Ok [])
  else ask c (Distinct Conversations d_id (fun d => in_tenant_ t d && one_of (d_contact_id d) heldContacts)).

(** *** Retention *)

Definition cutoff (now days : Z) : Time := now - days * Day.
Definition aged (t : string) (limit : Time) (d : Doc) : bool := in_tenant_ t d && (d_created_at d <=? limit).
Definition conversation_not_in (held : list string) (d : Doc) : bool := negb (one_of (d_conversation_id d) held).

Definition retire_messages (t : string) (now days : Time) (held : list string) (res : RetentionResult)
  : PvM (result RetentionResult) :=
  if days <=? 0 then Ret (Ok res)
  else
    let p d := aged t (cutoff now days) d && conversation_not_in held d in
    try! keys := attachmentKeysFor p in
    try! na := ask c (DeleteMany Attachments p) in
    try! n := ask c (DeleteMany Messages p) in
    Ret (Ok (mkRetentionResult n (rr_ClosedConversations res) (rr_TechnicalLogs res) (rr_AuditLogs res)
               (rr_Notifications res) (rr_SatelliteDocs res + na) (rr_BlobKeys res ++ keys))).

Definition retired (t : string) (limit : Time) (held : list string) (d : Doc) : bool :=
  in_tenant_ t d && one_of (d_status d) closedStatuses
  && match d_closed_at d with Some at_ => at_ <=? limit | None => false end && negb (one_of (d_id d) held).

Definition retire_conversations (t : string) (now days : Time) (held : list string) (res : RetentionResult)
  : PvM (result RetentionResult) :=
  if days <=? 0 then Ret (Ok res)
  else
    let p := retired t (cutoff now days) held in
    try! convIDs := ask c (Distinct Conversations d_id p) in
    try! casc := cascadeConversationData t convIDs in
    try! n := ask c (DeleteMany Conversations p) in
    Ret (Ok (mkRetentionResult (rr_Messages res) n (rr_TechnicalLogs res) (rr_AuditLogs res) (rr_Notifications res)
               (rr_SatelliteDocs res + Documents casc) (rr_BlobKeys res ++ er_BlobKeys casc))).

Definition retire_events (t : string) (now days : Time) (held : list string) (res : RetentionResult)
  : PvM (result RetentionResult) :=
  if days <=? 0 then Ret (Ok res)
  else
    try! n := ask c (DeleteMany Events (fun d => aged t (cutoff now days) d && conversation_not_in held d)) in
    Ret (Ok (mkRetentionResult (rr_Messages res) (rr_ClosedConversations res) n (rr_AuditLogs res) (rr_Notifications res)
               (rr_SatelliteDocs res) (rr_BlobKeys res))).

Definition retire_audit (t : string) (now days : Time) (res : RetentionResult) : PvM (result RetentionResult) :=
  if days <=? 0 then Ret (Ok res)
  else
    try! n := ask c (DeleteMany AuditLogs (aged t (cutoff now days))) in
    Ret (Ok (mkRetentionResult (rr_Messages res) (rr_ClosedConversations res) (rr_TechnicalLogs res) n
               (rr_Notifications res) (rr_SatelliteDocs res) (rr_BlobKeys res))).

Definition retire_notifications (t : string) (now days : Time) (res : RetentionResult) : PvM (result RetentionResult) :=
  if days <=? 0 then Ret (Ok res)
  else
    try! n := ask c (DeleteMany Notifications (aged t (cutoff now days))) in
    Ret (Ok (mkRetentionResult (rr_Messages res) (rr_ClosedConversations res) (rr_TechnicalLogs res) (rr_AuditLogs res)
               n (rr_SatelliteDocs res) (rr_BlobKeys res))).

Definition ApplyRetention_ (p : RetentionPolicy) (now : Time) : PvM (result RetentionResult) :=
  try! t := Ret (RequireTenant c) in
  try! held := heldConversationIDs t now in
  try! res := retire_messages t now (rp_MessagesDays p) held (mkRetentionResult 0 0 0 0 0 0 []) in
  try! res := retire_conversations t now (rp_ClosedConversationsDays p) held res in
  try! res := retire_events t now (rp_TechnicalLogsDays p) held res in
  try! res := retire_audit t now (rp_AuditLogsDays p) res in
  retire_notifications t now (rp_NotificationsDays p) res.
End Repository.

(** ** The service (domain/privacy/service) *)

Record PrivacyService := mkPrivacyService { pv_has_blobs : bool; pv_urlTTL : Z; pv_MarshalIndent : ExportBundle -> result string }.

Definition actorID (c : Ctx) : string :=
  match FromContext c with
  | Some ac => if ac_UserID ac <>! "" then ac_UserID ac else "system"
  | None => "system"
  end.

Definition audit (c : Ctx) (action rtype id : string) (meta : list (string * value)) : PvM (result unit) :=
  let! now := ask c PvNow in ask c (PvAudit (mkPrivacyAudit (actorID c) action rtype id meta now)).

Definition exportKey (tenantID contactID requestID : string) : string :=
  "exports/" +:+ tenantID +:+ "/" +:+ contactID +:+ "/" +:+ requestID +:+ ".json".

(** Best effort: how many keys were deleted. *)
Fixpoint purge (c : Ctx) (del : string -> PrivacyPort (result unit)) (keys : list string) (n : Z) : PvM Z :=
  match keys with
  | [] => Ret n
  | k :: keys => let! r := ask c (del k) in purge c del keys (match r with Ok _ => n + 1 | Err _ => n end)
  end.

Section Service.
Context (s : PrivacyService) (c : Ctx).

Definition RequestExport (contactID : string) : PvM (result ExportRequest) :=
  try! t := Ret (RequireTenant c) in
  let contactID := trim_space contactID in
  if contactID =! "" then Ret (Err (Validation "contact id is required"))
  else
    let! id := ask c PvNewID in
    let! now := ask c PvNow in
    let req := mkExportRequest id t contactID ExportPending (actorID c) "" "" ZeroTime "" now None in
    try! _ := CreateExport c req in
    try! _ := audit c "privacy.export.requested" "contact" contactID [("request_id", VStr (xr_ID req))] in
    try! _ := ask c (EnqueueExport (mkExportTask t (xr_ID req) (xr_RequestedBy req))) in
    Ret (Ok req).

Definition set_export (status key url : string) (expires : Time) (err : string) (completed : option Time)
    (e : ExportRequest) : ExportRequest :=
  mkExportRequest (xr_ID e) (xr_TenantID e) (xr_ContactID e) status (xr_RequestedBy e) key url expires err
    (xr_CreatedAt e) completed.

Definition failExport (req : ExportRequest) (cause : error) : PvM (result unit) :=
  let req := set_export ExportFailed (xr_StorageKey req) (xr_DownloadURL req) (xr_ExpiresAt req) (Error cause)
               (xr_CompletedAt req) req in
  try! _ := UpdateExport c req in
  let! _ := audit c "privacy.export.failed" "contact" (xr_ContactID req)
              [("request_id", VStr (xr_ID req)); ("error", VStr (Error cause))] in
  Ret (Err cause).

(** A step of [RunExport] whose failure is recorded on the request. *)
Definition or_fail {A} (req : ExportRequest) (m : PvM (result A)) (k : A -> PvM (result unit)) : PvM (result unit) :=
  let! r := m in match r with Ok a => k a | Err e => failExport req e end.

Definition RunExport (requestID : string) : PvM (result unit) :=
  try! _ := Ret (RequireTenant c) in
  try! req := FindExport c requestID in
  if xr_Status req =! ExportReady then Ret (Ok tt)
  else
    or_fail req (CollectBundle c (xr_ContactID req)) (fun bundle =>
    let! generated := ask c PvNow in
    let bundle := mkBundle generated (bu_Contact bundle) (bu_Conversations bundle) (bu_CSAT bundle) in
    or_fail req (Ret (pv_MarshalIndent s bundle)) (fun data =>
    let key := exportKey (xr_TenantID req) (xr_ContactID req) (xr_ID req) in
    or_fail req (ask c (FileSave key data)) (fun _ =>
    or_fail req (ask c (FileSignedURL key (pv_urlTTL s))) (fun signed =>
    let! now := ask c PvNow in
    let req := set_export ExportReady key signed.1 signed.2 "" (Some now) req in
    try! _ := UpdateExport c req in
    audit c "privacy.export.generated" "contact" (xr_ContactID req)
      [("request_id", VStr (xr_ID req)); ("conversations", VInt (Z.of_nat (length (bu_Conversations bundle))));
       ("bytes", VInt (Z.of_nat (String.length data))); ("expires_at", VTime (Some (xr_ExpiresAt req)))])))).

Definition GetExport (id : string) : PvM (result ExportRequest) :=
  try! _ := Ret (RequireTenant c) in FindExport c id.

Definition deal_value (l : DealLink) : value := VMap [("id", VStr (lk_ID l)); ("title", VStr (lk_Title l))].

Definition EraseContact (contactID : string) (force : bool) : PvM (result unit) :=
  try! _ := Ret (RequireTenant c) in
  let contactID := trim_space contactID in
  if contactID =! "" then Ret (Err (Validation "contact id is required"))
  else
    let! now := ask c PvNow in
    try! held := HasActiveLegalHold c contactID now in
    if held : bool then
      let! _ := audit c "privacy.contact.erase_refused" "contact" contactID [("reason", VStr "legal_hold")] in
      Ret (Err (Forbidden "contact is under a legal hold and cannot be erased before the deadline"))
    else
      try! deals := LinkedDeals c contactID in
      if (0 <? length deals)%nat && negb force then
        let! _ := audit c "privacy.contact.erase_blocked" "contact" contactID
                    [("reason", VStr "linked_deals"); ("deals", VInt (Z.of_nat (length deals)))] in
        Ret (Err (WithDetails {[ "linked_deals" := VList (map deal_value deals) ]}
                    (Conflict "contact has linked deals; review the link and retry with force=true to unlink and erase")))
      else
        try! res := EraseContact_ c contactID force in
        let! blobsDeleted := (if pv_has_blobs s then purge c BlobDelete (er_BlobKeys res) 0 else Ret 0) in
        let! exportsDeleted := purge c FileDelete (er_ExportKeys res) 0 in
        audit c "privacy.contact.erased" "contact" contactID
          [("conversations", VInt (er_Conversations res)); ("messages", VInt (er_Messages res));
           ("documents", VInt (Documents res)); ("deals_unlinked", VInt (er_DealsUnlinked res));
           ("blobs_deleted", VInt blobsDeleted); ("exports_deleted", VInt exportsDeleted); ("forced", VBool force)].

Definition GetRetention : PvM (result RetentionPolicy) :=
  try! t := Ret (RequireTenant c) in
  try! p := GetRetention_ c in
  Ret (Ok (default (DefaultRetention t) p)).

Definition updated_retention (cmd : UpdateRetentionCmd) (now : Time) (p : RetentionPolicy) : RetentionPolicy :=
  let p := Normalize_ (mkRetention (rp_TenantID p) (default (rp_MessagesDays p) (ur_MessagesDays cmd))
             (default (rp_ClosedConversationsDays p) (ur_ClosedConversationsDays cmd))
             (default (rp_TechnicalLogsDays p) (ur_TechnicalLogsDays cmd))
             (default (rp_AuditLogsDays p) (ur_AuditLogsDays cmd))
             (default (rp_NotificationsDays p) (ur_NotificationsDays cmd)) (rp_UpdatedAt p)) in
  mkRetention (rp_TenantID p) (rp_MessagesDays p) (rp_ClosedConversationsDays p) (rp_TechnicalLogsDays p)
    (rp_AuditLogsDays p) (rp_NotificationsDays p) now.

Definition UpdateRetention (cmd : UpdateRetentionCmd) : PvM (result RetentionPolicy) :=
  try! _ := Ret (RequireTenant c) in
  try! p := GetRetention in
  let! now := ask c PvNow in
  let p := updated_retention cmd now p in
  try! _ := SaveRetention_ c p in
  try! _ := audit c "privacy.retention.updated" "retention_policy" (rp_TenantID p)
    [("messages_days", VInt (rp_MessagesDays p)); ("closed_conversations_days", VInt (rp_ClosedConversationsDays p));
     ("technical_logs_days", VInt (rp_TechnicalLogsDays p)); ("audit_logs_days", VInt (rp_AuditLogsDays p));
     ("notifications_days", VInt (rp_NotificationsDays p))] in
  Ret (Ok p).

(** The number of documents removed, also when the audit fails. *)
Definition ApplyRetention : PvM (Z * option error) :=
  match RequireTenant c with
  | Err e => Ret (0, Some e)
  | Ok _ =>
      let! r := GetRetention_ c in
      match r with
      | Err e => Ret (0, Some e)
      | Ok None => Ret (0, None)
      | Ok (Some p) =>
          let! now := ask c PvNow in
          let! r := ApplyRetention_ c p now in
          match r with
          | Err e => Ret (0, Some e)
          | Ok res =>
              let! blobsDeleted := (if pv_has_blobs s then purge c BlobDelete (rr_BlobKeys res) 0 else Ret 0) in
              if 0 <? Total res then
                let! r := audit c "privacy.retention.applied" "retention_policy" (rp_TenantID p)
                  [("messages", VInt (rr_Messages res)); ("closed_conversations", VInt (rr_ClosedConversations res));
                   ("satellite_docs", VInt (rr_SatelliteDocs res)); ("technical_logs", VInt (rr_TechnicalLogs res));
                   ("audit_logs", VInt (rr_AuditLogs res)); ("notifications", VInt (rr_Notifications res));
                   ("blobs_deleted", VInt blobsDeleted)] in
                Ret (Total res, match r with Ok _ => None | Err e => Some e end)
              else Ret (Total res, None)
          end
      end
  end.
End Service.
