(* ===== verification/PrivacyProps.v ===== *)
(** * Privacy: what erasure and retention remove

    Over any store whose calls may fail, and fail half done: what is left of each collection, in
    terms of what was there. Both operations are exact when they succeed, and never touch anything
    else when they do not. *)
From S2P Require Import Prelude GoStrings AppError Authz Shared ConvEntity Prog Ports Calendar Sla Privacy.

(** ** The store *)

(** The collections, the policy of the tenant, the files whose deletion was asked for, and the
    time the operation runs in. *)
Record Ground := mkGround {
  gr_db : Coll -> list Doc; gr_policy : option RetentionPolicy; gr_blobs : list string; gr_files : list string;
  gr_from : Time; gr_to : Time }.

Definition set_coll (coll : Coll) (l : list Doc) (g : Ground) : Ground :=
  mkGround (fun k => if decide (k = coll) then l else gr_db g k) (gr_policy g) (gr_blobs g) (gr_files g) (gr_from g) (gr_to g).
Definition set_policy (p : RetentionPolicy) (g : Ground) : Ground :=
  mkGround (gr_db g) (Some p) (gr_blobs g) (gr_files g) (gr_from g) (gr_to g).
(** Between the two moments, in their order. *)
Definition within_time (g : Ground) (now : Time) : Prop := Z.min (gr_from g) (gr_to g) <= now <= Z.max (gr_from g) (gr_to g).

(** A deletion that failed removed some of what it was to remove. *)
Definition partly (p : Doc -> bool) (l l' : list Doc) : Prop :=
  (forall d, d ∈ l' -> d ∈ l) /\ (forall d, d ∈ l -> p d = false -> d ∈ l').
Definition some_updated (p : Doc -> bool) (f : Doc -> Doc) (l l' : list Doc) : Prop :=
  Forall2 (fun d d' => d' = d \/ p d = true /\ d' = f d) l l'.

Definition privacy_post {R} (c : Ctx) (e : PrivacyPort R) (g : Ground) (r : R) (g' : Ground) : Prop :=
  match e in PrivacyPort R return R -> Prop with
  | DeleteMany coll p => fun r =>
      match r with
      | Ok n => g' = set_coll coll (filter (fun d => p d = false) (gr_db g coll)) g /\
                n = Z.of_nat (length (filter (fun d => p d = true) (gr_db g coll)))
      | Err _ => exists l, partly p (gr_db g coll) l /\ g' = set_coll coll l g
      end
  | UpdateMany coll p f => fun r =>
      match r with
      | Ok _ => g' = set_coll coll (map (fun d => if p d then f d else d) (gr_db g coll)) g
      | Err _ => exists l, some_updated p f (gr_db g coll) l /\ g' = set_coll coll l g
      end
  | Find coll p => fun r => g' = g /\ forall l, r = Ok l -> l = filter (fun d => p d = true) (gr_db g coll)
  | FindOne coll p => fun r => g' = g /\ forall d, r = Ok d -> d ∈ gr_db g coll /\ p d = true
  | Distinct coll field p => fun r =>
      g' = g /\ forall vs, r = Ok vs -> forall v, v ∈ vs <-> exists d, d ∈ gr_db g coll /\ p d = true /\ field d = v
  | CountDocuments coll p => fun r =>
      g' = g /\ forall n, r = Ok n -> n = Z.of_nat (length (filter (fun d => p d = true) (gr_db g coll)))
  | FindRetention t => fun r => g' = g /\ forall o, r = Ok o -> o = gr_policy g
  | UpsertRetention t p => fun r => g' = set_policy p g \/ is_ok r = false /\ g' = g
  | BlobDelete k => fun _ => g' = mkGround (gr_db g) (gr_policy g) (k :: gr_blobs g) (gr_files g) (gr_from g) (gr_to g)
  | FileDelete k => fun _ => g' = mkGround (gr_db g) (gr_policy g) (gr_blobs g) (k :: gr_files g) (gr_from g) (gr_to g)
  | PvNow => fun now => g' = g /\ within_time g now
  | _ => fun _ => g' = g
  end r.

Definition privacy_contract : @contract Ctx PrivacyPort Ground :=
  pre_post (fun _ _ _ _ => True) (@privacy_post).

Abbreviation T := privacy_contract.

Ltac in_list := repeat first [apply list_elem_of_here | apply list_elem_of_further].

(** ** What was deleted so far *)

(** [A]: the deletions attempted; [G]: those that succeeded. Deals are never deleted. *)
Definition deletions := list (Coll * (Doc -> bool)).
Definition matched (A : deletions) (coll : Coll) (d : Doc) : Prop := exists p, (coll, p) ∈ A /\ p d = true.

Lemma matched_nil coll d : ~ matched [] coll d.
Proof. intros (p & H & _). by apply not_elem_of_nil in H. Qed.

Lemma matched_cons A coll p k d : matched ((coll, p) :: A) k d <-> (k = coll /\ p d = true) \/ matched A k d.
Proof.
  split.
  - intros (q & [[= -> ->]|H]%elem_of_cons & Hq); [by left|right; by exists q].
  - intros [[-> H]|(q & H & Hq)]; [exists p|exists q]; (split; [|done]); [left|by right].
Qed.

Lemma matched_app A B k d : matched (A ++ B) k d <-> matched A k d \/ matched B k d.
Proof. unfold matched. setoid_rewrite elem_of_app. naive_solver. Qed.

(** The documents of conversations. *)

Definition satellites : list Coll :=
  [Messages; Events; Attachments; SlaTrackings; McpApprovals; McpCallLogs; CopilotLogs; RuleEvalLogs; InboundLedger; ProviderLogs].

Definition cascaded (p : Doc -> bool) (L : deletions) : deletions := fold_left (fun L k => (k, p) :: L) satellites L.

Lemma matched_cascaded p L coll d : matched (cascaded p L) coll d <-> (coll ∈ satellites /\ p d = true) \/ matched L coll d.
Proof.
  unfold cascaded. generalize satellites. intros l. revert L. induction l as [|k l IH]; intros L; cbn.
  - rewrite elem_of_nil. tauto.
  - rewrite IH, matched_cons, elem_of_cons. naive_solver.
Qed.

Lemma one_of_spec v l : one_of v l = true <-> v ∈ l.
Proof.
  unfold one_of. rewrite existsb_exists. split.
  - intros (x & Hx%list_elem_of_In & He%bool_decide_eq_true). by subst.
  - intros Hv. exists v. split; [by apply list_elem_of_In|by apply bool_decide_eq_true].
Qed.

Lemma one_of_ext l l' v : (forall x, x ∈ l <-> x ∈ l') -> one_of v l = one_of v l'.
Proof. intros He. apply eq_true_iff_eq. by rewrite !one_of_spec. Qed.

Lemma keys_of_spec k l : k ∈ keys_of l <-> k <> "" /\ exists d, d ∈ l /\ d_storage_key d = k.
Proof.
  unfold keys_of. rewrite list_elem_of_filter, list_elem_of_fmap. naive_solver.
Qed.

(** The keys of the documents a predicate keeps. *)
Definition has_keys (l : list Doc) (p : Doc -> bool) (keys : list string) : Prop :=
  forall d, d ∈ l -> p d = true -> d_storage_key d <> "" -> d_storage_key d ∈ keys.

Section Deletions.
(** The collections at the start, and the documents an operation may remove. *)
Context (g0 : Ground) (may : Coll -> Doc -> bool).

Record did (A G : deletions) (g : Ground) : Prop := {
  did_within : forall coll d, coll <> Deals -> d ∈ gr_db g coll -> d ∈ gr_db g0 coll;
  did_kept : forall coll d, coll <> Deals -> d ∈ gr_db g0 coll -> ~ matched A coll d -> d ∈ gr_db g coll;
  did_gone : forall coll d, coll <> Deals -> d ∈ gr_db g coll -> ~ matched G coll d;
  did_sound : forall coll d, matched A coll d -> may coll d = true;
}.

(** What may not be removed is still there. *)
Definition spared (g : Ground) : Prop :=
  forall coll d, coll <> Deals -> d ∈ gr_db g0 coll -> may coll d = false -> d ∈ gr_db g coll.

(** What is left is exactly what may not be removed. *)
Definition exactly (g : Ground) : Prop :=
  forall coll d, coll <> Deals -> d ∈ gr_db g coll <-> d ∈ gr_db g0 coll /\ may coll d = false.

Lemma did_start : did [] [] g0.
Proof. split; [done|done|intros coll d _ _; apply matched_nil|intros coll d H; by apply matched_nil in H]. Qed.

Lemma did_spared A G g : did A G g -> spared g.
Proof.
  intros [_ Hk _ Hs] coll d Hc Hd Hm. apply Hk; [done..|]. intros HA%Hs. congruence.
Qed.

Lemma did_exactly A G g :
  did A G g -> (forall coll d, coll <> Deals -> may coll d = true -> matched G coll d) -> exactly g.
Proof.
  intros Hd HG coll d Hc. split.
  - intros Hin. split; [by eapply did_within|]. destruct (may coll d) eqn:Hm; [|done].
    exfalso. eapply did_gone; [done..|]. by apply HG.
  - intros [Hin Hm]. by eapply did_spared.
Qed.

Lemma did_delete A G coll p g l :
  coll <> Deals -> (forall d, p d = true -> may coll d = true) -> did A G g -> partly p (gr_db g coll) l ->
  did ((coll, p) :: A) G (set_coll coll l g).
Proof.
  intros Hc Hp [Hw Hk Hg Hs] [Hl1 Hl2]. split; cbn.
  - intros k d Hd; case_decide as He; subst; intros Hin; [by apply Hw, Hl1|by apply Hw].
  - intros k d Hd Hin Hm. rewrite matched_cons in Hm. case_decide as He; subst.
    + apply Hl2; [apply Hk; [done|done|tauto]|]. destruct (p d); [|done]. tauto.
    + apply Hk; [done|done|tauto].
  - intros k d Hd; case_decide as He; subst; intros Hin; [by apply Hg, Hl1|by apply Hg].
  - intros k d [[-> H]|H]%matched_cons; [by apply Hp|by apply Hs].
Qed.

Lemma did_deleted A G coll p g :
  coll <> Deals -> (forall d, p d = true -> may coll d = true) -> did A G g ->
  did ((coll, p) :: A) ((coll, p) :: G) (set_coll coll (filter (fun d => p d = false) (gr_db g coll)) g).
Proof.
  intros Hc Hp Hd. destruct (did_delete A G coll p g (filter (fun d => p d = false) (gr_db g coll)) Hc Hp Hd) as [Hw Hk Hg Hs].
  - split; intros d; rewrite list_elem_of_filter; tauto.
  - split; [done|done| |done]. intros k d Hk' Hin Hm. rewrite matched_cons in Hm.
    destruct Hm as [[-> Hq]|Hm]; [|by eapply Hg]. cbn in Hin. rewrite decide_True in Hin by done.
    apply list_elem_of_filter in Hin as [? _]. congruence.
Qed.

(** Deleting what nothing matches. *)
Lemma did_vacuous A G coll p g : (forall d, p d = false) -> did A G g -> did ((coll, p) :: A) ((coll, p) :: G) g.
Proof.
  intros Hp [Hw Hk Hg Hs]. assert (forall L k d, matched ((coll, p) :: L) k d <-> matched L k d) as Hm.
  { intros L k d. rewrite matched_cons. rewrite Hp. naive_solver. }
  split; [done| | |]; intros k d; rewrite Hm; auto.
Qed.

(** A deletion in a program. *)
Lemma wp_delete {A} c coll p (k : Z -> PvM (result A)) (Q : result A -> Ground -> Prop) AA G g :
  coll <> Deals -> (forall d, p d = true -> may coll d = true) -> did AA G g ->
  (forall n g', did ((coll, p) :: AA) ((coll, p) :: G) g' -> gr_db g' Deals = gr_db g Deals ->
     gr_blobs g' = gr_blobs g -> gr_files g' = gr_files g -> wp T (k n) Q g') ->
  (forall e g', spared g' -> gr_db g' Deals = gr_db g Deals -> Q (Err e) g') ->
  wp T (try! n := ask c (DeleteMany coll p) in k n) Q g.
Proof.
  intros Hc Hp Hd Hok Herr. apply wp_bind_ok; [apply _|]. apply wp_call; [done|]. intros [n|e] g'; cbn.
  - intros [-> _]. apply Hok; [by apply did_deleted|cbn; by rewrite decide_False|done|done].
  - intros (l & Hl & ->). apply Herr; [by eapply did_spared, did_delete|cbn; by rewrite decide_False].
Qed.

(** A query in a program: it may fail. *)
Lemma wp_read {A R} c (e : PrivacyPort (result R)) (k : R -> PvM (result A)) (Q : result A -> Ground -> Prop) g
    (fact : R -> Prop) :
  (forall r g', privacy_post c e g r g' -> g' = g /\ forall a, r = Ok a -> fact a) ->
  (forall a, fact a -> wp T (k a) Q g) -> (forall e, Q (Err e) g) ->
  wp T (try! a := ask c e in k a) Q g.
Proof.
  intros He Hk HQ. apply wp_bind_ok; [apply _|]. apply wp_call; [done|]. intros r g' Hr.
  destruct (He r g' Hr) as [-> Hf]. destruct r; auto.
Qed.

Lemma did_cascaded_vacuous A G p g : (forall d, p d = false) -> did A G g -> did (cascaded p A) (cascaded p G) g.
Proof.
  intros Hp. unfold cascaded. generalize satellites. intros l. revert A G.
  induction l as [|k l IH]; intros A G Hd; cbn; [done|]. by apply IH, did_vacuous.
Qed.

Lemma attachmentKeysFor_reads c p g :
  wp T (attachmentKeysFor c p)
    (fun r g' => g' = g /\ match r with Ok keys => has_keys (gr_db g Attachments) p keys | Err _ => True end) g.
Proof.
  unfold attachmentKeysFor.
  apply (wp_read c (Find Attachments p) _ _ g (fun l => l = filter (fun d => p d = true) (gr_db g Attachments))); [done| |done].
  intros l ->. split; [done|]. intros d Hd Hp Hne. apply keys_of_spec. split; [done|]. exists d.
  by rewrite list_elem_of_filter.
Qed.

Lemma conversation_keys_read c t vs g :
  wp T (attachmentBlobKeys c t vs "")
    (fun r g' => g' = g /\
       match r with Ok keys => has_keys (gr_db g Attachments) (by_conversations t vs) keys | Err _ => True end) g.
Proof.
  unfold attachmentBlobKeys. rewrite (bool_decide_true ("" = "")), andb_true_r by done. cbn [negb].
  destruct (length vs =? 0)%nat eqn:Hl.
  - destruct vs; [|done]. split; [done|]. intros d _ Hp. unfold by_conversations in Hp. by rewrite andb_false_r in Hp.
  - apply wp_bind_ok; [apply _|]. eapply wp_mono; [apply _| |apply attachmentKeysFor_reads].
    intros [keys|e] g' [-> Hk]; [|done]. split; [done|]. intros d Hd Hp. apply Hk; [done|].
    by rewrite orb_false_r.
Qed.

Lemma wp_cascade {A} c t vs (k : EraseResult -> PvM (result A)) (Q : result A -> Ground -> Prop) AA G g :
  (forall coll d, coll ∈ satellites -> by_conversations t vs d = true -> may coll d = true) -> did AA G g ->
  (forall res g', did (cascaded (by_conversations t vs) AA) (cascaded (by_conversations t vs) G) g' ->
     gr_db g' Deals = gr_db g Deals -> gr_blobs g' = gr_blobs g -> gr_files g' = gr_files g ->
     has_keys (gr_db g Attachments) (by_conversations t vs) (er_BlobKeys res) -> wp T (k res) Q g') ->
  (forall e g', spared g' -> gr_db g' Deals = gr_db g Deals -> Q (Err e) g') ->
  wp T (try! res := cascadeConversationData c t vs in k res) Q g.
Proof.
  intros Hp Hd Hok Herr. apply wp_bind_ok; [apply _|]. unfold cascadeConversationData.
  destruct vs as [|v vs].
  - cbn. assert (forall d, by_conversations t [] d = false) as Hno by (intros d; apply andb_false_r).
    apply Hok; [by apply did_cascaded_vacuous|done|done|done|]. intros d _ Hf. by rewrite Hno in Hf.
  - set (ids := v :: vs) in *. replace (length ids =? 0)%nat with false by done.
    apply wp_bind_ok; [apply _|]. eapply wp_mono; [apply _| |apply conversation_keys_read].
    intros [keys|e] g' [-> Hkeys]; [|apply Herr; [by eapply did_spared|done]].
    set (P := by_conversations t ids) in *.
    do 10 (eapply wp_delete; [done|intros d; apply Hp; in_list|eassumption| |intros; apply Herr; [done|congruence]];
           intros ? ? ? ? ? ?).
    apply Hok; [done|congruence..|done].
Qed.
End Deletions.

(** ** Erasure *)

Section Erasure.
Context (g0 : Ground) (t id : string).

(** The conversations of the contact, and everything that is its own. *)
Definition conversations_of : list string := map d_id (filter (fun d => by_contact t id d = true) (gr_db g0 Conversations)).

Definition avatar_of (d : Doc) : bool :=
  existsb (fun k => by_id t id k && (d_avatar_attachment_id k <>! "") && by_id t (d_avatar_attachment_id k) d)
    (gr_db g0 Contacts).

Definition owned (coll : Coll) (d : Doc) : bool :=
  match coll with
  | Contacts => by_id t id d
  | Conversations | Csat | Exports => by_contact t id d
  | ProviderLogs => by_conversations t conversations_of d || by_contact t id d
  | Attachments => by_conversations t conversations_of d || avatar_of d
  | Messages | Events | SlaTrackings | McpApprovals | McpCallLogs | CopilotLogs | RuleEvalLogs | InboundLedger =>
      by_conversations t conversations_of d
  | Deals | Notifications | AuditLogs | LegalHolds => false
  end.

(** A deal is kept, at most without its links. *)
Definition linked (d : Doc) : bool := dealLinkFilter t id conversations_of d.
Definition severed (d d' : Doc) : Prop :=
  d_id d' = d_id d /\ d_tenant_id d' = d_tenant_id d /\ d_title d' = d_title d /\ (linked d = false -> d' = d).

Lemma severed_refl d : severed d d.
Proof. done. Qed.

Lemma severed_all l : Forall2 severed l l.
Proof. induction l; constructor; auto using severed_refl. Qed.

Definition same_ids (vs : list string) : Prop := forall v, v ∈ vs <-> v ∈ conversations_of.

Lemma conversations_of_spec v :
  v ∈ conversations_of <-> exists d, d ∈ gr_db g0 Conversations /\ by_contact t id d = true /\ d_id d = v.
Proof.
  unfold conversations_of. rewrite list_elem_of_fmap. setoid_rewrite list_elem_of_filter. naive_solver.
Qed.

Lemma by_conversations_same vs d : same_ids vs -> by_conversations t vs d = by_conversations t conversations_of d.
Proof. intros Hs. unfold by_conversations. by rewrite (one_of_ext vs conversations_of). Qed.

Lemma linked_same vs d : same_ids vs -> dealLinkFilter t id vs d = linked d.
Proof.
  intros Hs. unfold linked, dealLinkFilter. do 2 f_equal.
  induction (d_conversation_ids d) as [|i l IH]; [done|]. cbn. by rewrite IH, (one_of_ext vs conversations_of).
Qed.

(** The ids the repository reads. *)
Lemma conversation_ids_read c g :
  gr_db g Conversations = gr_db g0 Conversations ->
  wp T (contactConversationIDs c t id) (fun r g' => g' = g /\ match r with Ok vs => same_ids vs | Err _ => True end) g.
Proof.
  intros Hg. apply wp_call; [done|]. intros r g' [-> Hr]. split; [done|]. destruct r as [vs|e]; [|done].
  intros v. rewrite (Hr vs eq_refl), conversations_of_spec, Hg. done.
Qed.

(** *** Deals *)

(** A state that differs from another in the deals only. *)
Definition but_deals (g g' : Ground) : Prop :=
  (forall coll, coll <> Deals -> gr_db g' coll = gr_db g coll) /\ gr_blobs g' = gr_blobs g /\ gr_files g' = gr_files g.

Lemma severed_update (p : Doc -> bool) f l0 l l' :
  (forall d0 d, severed d0 d -> p d = true -> severed d0 (f d)) ->
  Forall2 severed l0 l -> some_updated p f l l' -> Forall2 severed l0 l'.
Proof.
  intros Hp Hl Hu. revert l' Hu. induction Hl as [|d0 d l0 l Hd Hl IH]; intros l' Hu; inversion_clear Hu; constructor.
  - destruct H as [->|[Hpd ->]]; [done|]. by apply Hp.
  - by apply IH.
Qed.

Lemma some_updated_map p f l : some_updated p f l (map (fun d => if p d then f d else d) l).
Proof. induction l as [|d l IH]; constructor; [|done]. destruct (p d); [by right|by left]. Qed.

(** Updating what is linked severs it. *)
Lemma severed_linked (p : Doc -> bool) (f : Doc -> Doc) d0 d :
  (forall d, p d = true -> linked d = true) ->
  (forall d, d_id (f d) = d_id d /\ d_tenant_id (f d) = d_tenant_id d /\ d_title (f d) = d_title d) ->
  severed d0 d -> p d = true -> severed d0 (f d).
Proof.
  intros Hp Hf (Hi & Ht & Hn & He) Hd%Hp. destruct (Hf d) as (Hi' & Ht' & Hn'). split_and!; [congruence..|].
  intros Hl. rewrite (He Hl) in Hd. congruence.
Qed.

(** A call that updates the deals. *)
Lemma wp_update_deals {A} c p f (k : PvM (result A)) (Q : result A -> Ground -> Prop) g :
  (forall d, p d = true -> linked d = true) ->
  (forall d, d_id (f d) = d_id d /\ d_tenant_id (f d) = d_tenant_id d /\ d_title (f d) = d_title d) ->
  but_deals g0 g -> Forall2 severed (gr_db g0 Deals) (gr_db g Deals) ->
  (forall g', but_deals g0 g' -> Forall2 severed (gr_db g0 Deals) (gr_db g' Deals) ->
     gr_db g' Deals = map (fun d => if p d then f d else d) (gr_db g Deals) -> wp T k Q g') ->
  (forall e g', but_deals g0 g' -> Forall2 severed (gr_db g0 Deals) (gr_db g' Deals) -> Q (Err e) g') ->
  wp T (try! _ := ask c (UpdateMany Deals p f) in k) Q g.
Proof.
  intros Hp Hf Hb Hs Hok Herr.
  assert (forall l, some_updated p f (gr_db g Deals) l ->
            but_deals g0 (set_coll Deals l g) /\ Forall2 severed (gr_db g0 Deals) l) as Hset.
  { intros l Hl. split; [|eapply severed_update; [|exact Hs|exact Hl]; intros; by eapply severed_linked].
    destruct Hb as (Hb & ? & ?). split; [|done]. intros coll Hc. cbn. rewrite decide_False by done. by apply Hb. }
  apply wp_bind_ok; [apply _|]. apply wp_call; [done|]. intros [[]|e] g'; cbn.
  - intros ->. destruct (Hset _ (some_updated_map p f (gr_db g Deals))). apply Hok; [done|cbn; by rewrite decide_True|cbn; by rewrite decide_True].
  - intros (l & Hl & ->). destruct (Hset l Hl). apply Herr; [done|cbn; by rewrite decide_True].
Qed.

Lemma has_conversation_spec d vs : existsb (fun i => one_of i vs) (d_conversation_ids d) = true <-> exists i, i ∈ d_conversation_ids d /\ i ∈ vs.
Proof.
  rewrite existsb_exists. setoid_rewrite one_of_spec. setoid_rewrite <- list_elem_of_In. done.
Qed.

Lemma contact_is_linked d : by_contact t id d = true -> linked d = true.
Proof. unfold by_contact, linked, dealLinkFilter. rewrite !andb_true_iff, orb_true_iff. tauto. Qed.

Lemma conversation_is_linked vs d :
  same_ids vs -> in_tenant_ t d && existsb (fun i => one_of i vs) (d_conversation_ids d) = true -> linked d = true.
Proof.
  intros Hs. rewrite <- (linked_same vs d Hs). unfold dealLinkFilter. rewrite !andb_true_iff, orb_true_iff. tauto.
Qed.

(** A deal is unlinked once it has neither the contact nor one of its conversations. *)
Lemma unlinked vs d :
  same_ids vs -> by_contact t id d = false -> (forall i, i ∈ d_conversation_ids d -> i ∉ vs) -> linked d = false.
Proof.
  intros Hs Hc Hv. rewrite <- (linked_same vs d Hs). unfold dealLinkFilter, by_contact in *.
  destruct (in_tenant_ t d); [|done]. cbn in *. rewrite Hc. cbn. apply not_true_iff_false.
  rewrite has_conversation_spec. intros (i & Hi & Hin). by apply (Hv i).
Qed.

Lemma unlinked_contact_spec now d : id <> "" -> by_contact t id (if by_contact t id d then unlinked_contact now d else d) = false.
Proof.
  intros Hid. destruct (by_contact t id d) eqn:He; [|done]. unfold by_contact. cbn.
  rewrite (bool_decide_false ("" = id)) by done. apply andb_false_r.
Qed.

Lemma unlinked_conversations_spec vs now p d :
  (p = in_tenant_ t d && existsb (fun i => one_of i vs) (d_conversation_ids d)) -> in_tenant_ t d = true ->
  forall i, i ∈ d_conversation_ids (if p then unlinked_conversations vs now d else d) -> i ∉ vs.
Proof.
  intros -> Ht i. rewrite Ht. cbn [andb]. destruct (existsb _ _) eqn:He.
  - cbn. rewrite list_elem_of_filter. by intros [? _].
  - intros Hi Hin. apply not_true_iff_false in He. apply He, has_conversation_spec. by exists i.
Qed.

Lemma unlinkDeals_severs c vs :
  id <> "" -> same_ids vs ->
  wp T (unlinkDeals c t id vs)
    (fun r g' => but_deals g0 g' /\ Forall2 severed (gr_db g0 Deals) (gr_db g' Deals) /\
       (is_ok r = true -> forall d, d ∈ gr_db g' Deals -> linked d = false)) g0.
Proof.
  intros Hid Hvs. unfold unlinkDeals.
  assert (Forall2 severed (gr_db g0 Deals) (gr_db g0 Deals)) as H0 by apply severed_all.
  apply (wp_read c (Distinct Deals d_id (dealLinkFilter t id vs)) _ _ g0 (fun _ => True)); [by intros r g' [-> _]| |done].
  intros ids _. apply wp_bind; [apply _|]. apply wp_call; [done|]. intros now g' ->.
  apply wp_update_deals; [apply contact_is_linked|done|done|done| |done].
  intros g1 Hb1 Hs1 Hd1. destruct (0 <? length vs)%nat eqn:Hl.
  - apply wp_bind; [apply _|]. apply wp_call; [done|]. intros now' g' ->.
    apply wp_update_deals; [intros d; by apply conversation_is_linked|done|done|done| |done].
    intros g2 Hb2 Hs2 Hd2. split_and!; [done|done|]. intros _ d Hd. rewrite Hd2, Hd1 in Hd.
    apply list_elem_of_fmap in Hd as (d1 & -> & (d2 & -> & _)%list_elem_of_fmap).
    set (d1 := if by_contact t id d2 then _ else _).
    assert (by_contact t id d1 = false) as Hc by by apply unlinked_contact_spec.
    destruct (in_tenant_ t d1) eqn:Ht.
    + apply (unlinked vs); [done|by destruct (_ && _)|]. eapply unlinked_conversations_spec; [|done]. by rewrite Ht.
    + cbn. unfold linked, dealLinkFilter. by rewrite Ht.
  - split_and!; [done|done|]. intros _ d Hd. rewrite Hd1 in Hd. apply list_elem_of_fmap in Hd as (d2 & -> & _).
    destruct vs; [|done]. apply (unlinked []); [done|by apply unlinked_contact_spec|]. intros i _ Hi. by apply not_elem_of_nil in Hi.
Qed.

(** *** The erasure of the repository *)

Abbreviation Spared := (spared g0 owned).
Abbreviation Did := (did g0 owned).
Abbreviation Keys coll p keys := (has_keys (gr_db g0 coll) p keys).

(** What holds whether or not it succeeded, and what holds when it did. *)
Definition kept_aside (g : Ground) : Prop := Spared g /\ Forall2 severed (gr_db g0 Deals) (gr_db g Deals).
Definition nothing_linked (g : Ground) : Prop := forall d, d ∈ gr_db g Deals -> linked d = false.

Lemma did_but_deals g : but_deals g0 g -> Did [] [] g.
Proof.
  intros (Hb & _). split.
  - intros coll d Hc. by rewrite Hb.
  - intros coll d Hc Hd _. by rewrite Hb.
  - intros coll d _ _. apply matched_nil.
  - intros coll d H. by apply matched_nil in H.
Qed.

Lemma kept_start g : but_deals g0 g -> Forall2 severed (gr_db g0 Deals) (gr_db g Deals) -> kept_aside g.
Proof. intros Hb Hs. split; [|done]. by eapply did_spared, did_but_deals. Qed.

Lemma satellite_owned vs coll d : same_ids vs -> coll ∈ satellites -> by_conversations t vs d = true -> owned coll d = true.
Proof.
  intros Hs Hc Hd. rewrite (by_conversations_same vs d Hs) in Hd.
  repeat (apply elem_of_cons in Hc as [->|Hc]; [cbn; by rewrite Hd|]). by apply not_elem_of_nil in Hc.
Qed.

(** The avatar of the contact read, when it has one. *)
Hypothesis one_contact : forall d d', d ∈ gr_db g0 Contacts -> d' ∈ gr_db g0 Contacts ->
  by_id t id d = true -> by_id t id d' = true -> d = d'.

Lemma avatar_of_read k d :
  k ∈ gr_db g0 Contacts -> by_id t id k = true ->
  avatar_of d = (d_avatar_attachment_id k <>! "") && by_id t (d_avatar_attachment_id k) d.
Proof.
  intros Hk Hid. apply eq_true_iff_eq. unfold avatar_of. rewrite existsb_exists. split.
  - intros (k' & Hk'%list_elem_of_In & H). rewrite !andb_true_iff in H. destruct H as [[Hid' Ha] Hd].
    rewrite (one_contact k k') by done. by rewrite Ha, Hd.
  - intros [Ha Hd]%andb_true_iff. exists k. split; [by apply list_elem_of_In|]. by rewrite Hid, Ha, Hd.
Qed.

Lemma wp_avatar {A} c k vs (kont : list string -> PvM (result A)) (Q : result A -> Ground -> Prop) (AA : deletions) G g :
  k ∈ gr_db g0 Contacts -> by_id t id k = true ->
  (forall d, matched AA Attachments d -> by_conversations t vs d = true) ->
  Did AA G g ->
  (forall keys g' AA' G', Did (AA' ++ AA) (G' ++ G) g' -> gr_db g' Deals = gr_db g Deals ->
     (forall coll d, coll <> Attachments -> ~ matched AA' coll d) ->
     (forall d, avatar_of d = true -> matched G' Attachments d) ->
     Keys Attachments (fun d => avatar_of d && negb (by_conversations t vs d)) keys -> wp T (kont keys) Q g') ->
  (forall e g', Spared g' -> gr_db g' Deals = gr_db g Deals -> Q (Err e) g') ->
  wp T (try! keys := (if d_avatar_attachment_id k <>! "" then attachmentBlobKeys c t [] (d_avatar_attachment_id k)
                      else Ret (Ok [])) in kont keys) Q g.
Proof.
  intros Hk Hid HA Hd Hok Herr. destruct (d_avatar_attachment_id k <>! "") eqn:Ha.
  - unfold attachmentBlobKeys. rewrite Ha. rewrite negb_true_iff in Ha. rewrite Ha. cbn [length Nat.eqb andb negb].
    apply wp_bind_ok; [apply _|]. apply wp_bind_ok; [apply _|]. eapply wp_mono; [apply _| |apply attachmentKeysFor_reads].
    intros [keys|e] g' [-> Hkeys]; [|apply Herr; [by eapply did_spared|done]].
    assert (forall d, avatar_of d = by_id t (d_avatar_attachment_id k) d) as Hav
      by (intros d; rewrite (avatar_of_read k d Hk Hid); by rewrite Ha).
    eapply (wp_delete g0 owned); [done| |exact Hd| |intros e g' Hs Hde; by apply Herr].
    + intros d Hp. cbn. rewrite Hav, Hp. apply orb_true_r.
    + intros n g' Hd' Hde _ _. apply (Hok keys g' [(Attachments, by_id t (d_avatar_attachment_id k))] [(Attachments, by_id t (d_avatar_attachment_id k))]); [done|done| | |].
      * intros coll d Hc [[-> _]|H]%matched_cons; [done|by apply matched_nil in H].
      * intros d H. rewrite matched_cons. left. by rewrite <- Hav.
      * intros d Hin [Hp Hn]%andb_true_iff Hne. apply Hkeys; [|rewrite Hav in Hp; unfold by_id in Hp; cbn|done].
        -- eapply did_kept; [exact Hd|done|done|]. intros Hm%HA. by rewrite Hm in Hn.
        -- apply andb_true_iff in Hp as [-> ->]. done.
  - cbn. apply (Hok [] g [] []); [done|done|intros coll d _ H; by apply matched_nil in H| |].
    + intros d H. rewrite (avatar_of_read k d Hk Hid), Ha in H. done.
    + intros d _ H. rewrite (avatar_of_read k d Hk Hid), Ha in H. done.
Qed.

Lemma wp_export_keys {A} c (k : list string -> PvM (result A)) (Q : result A -> Ground -> Prop) g :
  (forall keys, has_keys (gr_db g Exports) (by_contact t id) keys -> wp T (k keys) Q g) -> (forall e, Q (Err e) g) ->
  wp T (try! keys := exportStorageKeys c t id in k keys) Q g.
Proof.
  intros Hk HQ. apply wp_bind_ok; [apply _|]. unfold exportStorageKeys.
  apply (wp_read c (Distinct Exports d_storage_key (by_contact t id)) _ _ g
           (fun vs => forall v, v ∈ vs <-> exists d, d ∈ gr_db g Exports /\ by_contact t id d = true /\ d_storage_key d = v));
    [done| |done].
  intros vs Hvs. cbn. apply Hk. intros d Hd Hp Hne. rewrite list_elem_of_filter. split; [done|]. apply Hvs. by exists d.
Qed.

(** What is asked for when everything worked. *)
Definition erased (unlink : bool) (res : EraseResult) (g : Ground) : Prop :=
  exactly g0 owned g /\ (if unlink then nothing_linked g else gr_db g Deals = gr_db g0 Deals) /\
  Keys Attachments (owned Attachments) (er_BlobKeys res) /\ Keys Exports (owned Exports) (er_ExportKeys res).

Lemma severed_unchanged g g' :
  Forall2 severed (gr_db g0 Deals) (gr_db g Deals) -> gr_db g' Deals = gr_db g Deals ->
  Forall2 severed (gr_db g0 Deals) (gr_db g' Deals).
Proof. by intros H ->. Qed.

Lemma after_unlinking c (unlink : bool) vs :
  id <> "" -> same_ids vs ->
  wp T (if unlink then unlinkDeals c t id vs else Ret (Ok 0))
    (fun r g' => but_deals g0 g' /\ Forall2 severed (gr_db g0 Deals) (gr_db g' Deals) /\
       (is_ok r = true -> if unlink then nothing_linked g' else gr_db g' Deals = gr_db g0 Deals)) g0.
Proof.
  intros Hid Hvs. destruct unlink; [by apply unlinkDeals_severs|]. cbn. split_and!; [done|apply severed_all|done].
Qed.

Lemma EraseContact_erases c (unlink : bool) :
  RequireTenant c = Ok t -> id <> "" ->
  wp T (EraseContact_ c id unlink)
    (fun r g' => kept_aside g' /\ match r with Ok res => erased unlink res g' | Err _ => True end) g0.
Proof.
  intros Ht Hid. unfold EraseContact_. rewrite Ht. cbn [bind_ok bind].
  apply (wp_read c (FindOne Contacts (by_id t id)) _ _ g0 (fun k => k ∈ gr_db g0 Contacts /\ by_id t id k = true));
    [done| |intros e; split; [apply kept_start; [done|apply severed_all]|done]].
  intros k [Hk Hkid]. apply wp_bind_ok; [apply _|]. eapply wp_mono; [apply _| |by apply conversation_ids_read].
  intros [vs|e] g' [-> Hvs]; [|split; [apply kept_start; [done|apply severed_all]|done]].
  apply wp_bind_ok; [apply _|]. eapply wp_mono; [apply _| |by apply after_unlinking].
  intros r g1 (Hb & Hsev & Hl). destruct r as [n|e]; [|split; [by apply kept_start|done]]. specialize (Hl eq_refl).
  assert (forall e g', Spared g' -> gr_db g' Deals = gr_db g1 Deals ->
            kept_aside g' /\ match (Err e : result EraseResult) with Ok res => erased unlink res g' | Err _ => True end) as Herr
    by (intros e g' Hs He; split; [split; [done|by eapply severed_unchanged]|done]).
  eapply (wp_cascade g0 owned); [intros; by eapply satellite_owned|by apply did_but_deals| |exact Herr].
  intros res g2 Hd2 He2 _ _ Hkeys. set (P := by_conversations t vs) in *.
  eapply (wp_avatar c k vs); [done|done| |exact Hd2| |intros e g' Hs He; exact (Herr e g' Hs (eq_trans He He2))].
  { intros d Hm. rewrite matched_cascaded in Hm. destruct Hm as [[_ H]|H]; [done|by apply matched_nil in H]. }
  intros akeys g3 AA' G' Hd3 He3 HA' HG' Hakeys.
  pose proof (eq_trans He3 He2) as He. clear He2 He3.
  apply wp_export_keys; [|intros e; exact (Herr e g3 (did_spared _ _ _ _ _ Hd3) He)]. intros xkeys Hxkeys.
  do 5 (eapply (wp_delete g0 owned); [done|cbn; intros d Hd; rewrite ?Hd, ?orb_true_r; done|eassumption| |
          let Hx := fresh in intros ? ? ? Hx; refine (Herr _ _ _ (eq_trans Hx He)); done];
        let Hx := fresh in intros ? ? ? Hx _ _; apply (fun H => eq_trans H He) in Hx; clear He; rename Hx into He).
  split; [split; [by eapply did_spared|by eapply severed_unchanged]|].
  assert (forall d, P d = by_conversations t conversations_of d) as HP by (intros d; by apply by_conversations_same).
  split_and!.
  - eapply did_exactly; [eassumption|]. intros coll d Hc Hm. rewrite !matched_cons, matched_app, matched_cascaded, HP.
    destruct coll; cbn in Hm; try done; try (right; right; right; right; right; right; left; split; [in_list|done]); try tauto.
    + apply orb_true_iff in Hm as [Hm|Hm]; [|do 5 right; left; by apply HG'].
      do 6 right; left. split; [in_list|done].
    + apply orb_true_iff in Hm as [Hm|Hm]; [|tauto]. do 6 right; left. split; [in_list|done].
  - destruct unlink; [intros d; rewrite He; apply Hl|by rewrite He].
  - intros d Hin Hm Hne. cbn in Hm. cbn [er_BlobKeys]. apply elem_of_app.
    destruct (P d) eqn:HPd.
    + left. apply Hkeys; [|done|done]. destruct Hb as (Hb & _). by rewrite Hb.
    + right. rewrite HP in HPd. rewrite HPd in Hm. cbn in Hm. apply Hakeys; [done| |done].
      change (avatar_of d && negb (P d) = true). by rewrite Hm, HP, HPd.
  - intros d Hin Hm Hne. apply Hxkeys; [|done|done]. eapply did_kept; [exact Hd3|done|done|].
    rewrite matched_app, matched_cascaded. intros [H|[[H _]|H]]; [by apply (HA' Exports d)| |by apply matched_nil in H].
    by apply (bool_decide_eq_true_2 _) in H.
Qed.
End Erasure.

(** ** The service *)

Lemma audit_inert c action rtype i meta (Q : result unit -> Ground -> Prop) g :
  (forall r, Q r g) -> wp T (audit c action rtype i meta) Q g.
Proof.
  intros HQ. unfold audit. apply wp_bind; [apply _|]. apply wp_call; [done|]. intros now g' [-> _].
  apply wp_call; [done|]. intros r g' ->. apply HQ.
Qed.

Lemma audited {A} c action rtype i meta (k : PvM A) (Q : A -> Ground -> Prop) g :
  wp T k Q g -> wp T (let! _ := audit c action rtype i meta in k) Q g.
Proof. intros Hk. apply wp_bind; [apply _|]. by apply audit_inert. Qed.

Lemma purge_blobs c keys n g :
  wp T (purge c BlobDelete keys n)
    (fun _ g' => gr_db g' = gr_db g /\ gr_files g' = gr_files g /\ forall k, k ∈ keys \/ k ∈ gr_blobs g -> k ∈ gr_blobs g') g.
Proof.
  revert n g. induction keys as [|k keys IH]; intros n g; cbn [purge].
  - split_and!; [done|done|]. intros k [H|H]; [by apply not_elem_of_nil in H|done].
  - apply wp_bind; [apply _|]. apply wp_call; [done|]. intros r g' ->. eapply wp_mono; [apply _| |apply IH].
    intros m g' (Hd & Hf & Hk). cbn in *. split_and!; [done|done|]. intros x Hx. apply Hk. rewrite elem_of_cons in *. tauto.
Qed.

Lemma purge_files c keys n g :
  wp T (purge c FileDelete keys n)
    (fun _ g' => gr_db g' = gr_db g /\ gr_blobs g' = gr_blobs g /\ forall k, k ∈ keys \/ k ∈ gr_files g -> k ∈ gr_files g') g.
Proof.
  revert n g. induction keys as [|k keys IH]; intros n g; cbn [purge].
  - split_and!; [done|done|]. intros k [H|H]; [by apply not_elem_of_nil in H|done].
  - apply wp_bind; [apply _|]. apply wp_call; [done|]. intros r g' ->. eapply wp_mono; [apply _| |apply IH].
    intros m g' (Hd & Hf & Hk). cbn in *. split_and!; [done|done|]. intros x Hx. apply Hk. rewrite elem_of_cons in *. tauto.
Qed.

Lemma purge_when c (b : bool) keys g :
  wp T (if b then purge c BlobDelete keys 0 else Ret 0)
    (fun _ g' => gr_db g' = gr_db g /\ gr_files g' = gr_files g /\ (b = true -> forall k, k ∈ keys -> k ∈ gr_blobs g')) g.
Proof.
  destruct b; [|done]. eapply wp_mono; [apply _| |apply purge_blobs]. intros m g' (Hd & Hf & Hk).
  split_and!; [done|done|]. intros _ k Hin. apply Hk. by left.
Qed.

(** No hold of the contact is in force. *)
Definition unheld (g : Ground) (t id : string) (now : Time) : Prop :=
  forall d, d ∈ gr_db g LegalHolds -> activeHoldFilter t now id d = false.

Lemma count_none (p : Doc -> bool) l : Z.of_nat (length (filter (fun d => p d = true) l)) <= 0 -> forall d, d ∈ l -> p d = false.
Proof.
  intros Hl d Hd. destruct (p d) eqn:Hp; [|done].
  assert (d ∈ filter (fun d => p d = true) l) as Hin by by apply list_elem_of_filter.
  destruct (filter _ l); [by apply not_elem_of_nil in Hin|cbn in Hl; lia].
Qed.

Lemma HasActiveLegalHold_reads c t id now g :
  RequireTenant c = Ok t ->
  wp T (HasActiveLegalHold c id now) (fun r g' => g' = g /\ (r = Ok false -> unheld g t id now)) g.
Proof.
  intros Ht. unfold HasActiveLegalHold. rewrite Ht. cbn [bind_ok bind].
  apply (wp_read c (CountDocuments LegalHolds (activeHoldFilter t now id)) _ _ g
           (fun n => n = Z.of_nat (length (filter (fun d => activeHoldFilter t now id d = true) (gr_db g LegalHolds)))));
    [done| |done].
  intros n ->. split; [done|]. intros [= Hn]. intros d. apply count_none. lia.
Qed.

Lemma LinkedDeals_reads c t id g :
  RequireTenant c = Ok t ->
  wp T (LinkedDeals c id) (fun r g' => g' = g /\
    match r with Ok deals => length deals = length (filter (fun d => linked g t id d = true) (gr_db g Deals)) | Err _ => True end) g.
Proof.
  intros Ht. unfold LinkedDeals. rewrite Ht. cbn [bind_ok bind]. apply wp_bind_ok; [apply _|].
  eapply wp_mono; [apply _| |by apply (conversation_ids_read g t id c g)]. intros [vs|e] g' [-> Hvs]; [|done].
  apply (wp_read c (Find Deals (dealLinkFilter t id vs)) _ _ g
           (fun l => l = filter (fun d => dealLinkFilter t id vs d = true) (gr_db g Deals))); [done| |done].
  intros l ->. split; [done|]. rewrite length_map. f_equal. apply list_filter_iff. intros d. by rewrite (linked_same g).
Qed.

(** C14. Erasing a contact. Whatever the store answers, failing half way included: nothing is removed
    but what is the contact's own - its conversations, with their messages, events, attachments,
    trackings and logs, its surveys, exports and avatar -, and no deal is lost, or changed unless
    linked to the contact. When it succeeds: no hold was in force, deals were linked to the contact
    only if the caller insisted, exactly the contact's own documents are gone, no deal is linked to
    it any more, and the deletion of every file they named was asked for. Under a hold without end
    nothing changes. The audit entry the operation itself adds is not counted as a change. *)
Theorem erasure_forgets_the_contact (s : PrivacyService) (c : Ctx) (t contactID : string) (force : bool) (g0 : Ground) :
  let id := trim_space contactID in
  RequireTenant c = Ok t ->
  (forall d d', d ∈ gr_db g0 Contacts -> d' ∈ gr_db g0 Contacts -> by_id t id d = true -> by_id t id d' = true -> d = d') ->
  wp T (EraseContact s c contactID force) (fun r g' =>
    kept_aside g0 t id g' /\
    ((forall now, within_time g0 now -> ~ unheld g0 t id now) -> g' = g0) /\
    (r = Ok tt ->
       (exists now, within_time g0 now /\ unheld g0 t id now) /\
       (force = false -> nothing_linked g0 t id g0) /\
       exactly g0 (owned g0 t id) g' /\ nothing_linked g0 t id g' /\
       (pv_has_blobs s = true -> has_keys (gr_db g0 Attachments) (owned g0 t id Attachments) (gr_blobs g')) /\
       has_keys (gr_db g0 Exports) (owned g0 t id Exports) (gr_files g'))) g0.
Proof.
  intros id Ht Hone. unfold EraseContact. rewrite Ht. cbn [bind_ok bind]. fold id.
  assert (kept_aside g0 t id g0) as H0 by (apply kept_start; [done|apply severed_all]).
  destruct (id =! "") eqn:Hid; [done|]. apply bool_decide_eq_false in Hid.
  apply wp_bind; [apply _|]. apply wp_call; [done|]. intros now g' [-> Hnow].
  apply wp_bind_ok; [apply _|]. eapply wp_mono; [apply _| |by apply HasActiveLegalHold_reads].
  intros [held|e] g' [-> Hheld]; [|done]. destruct held; [by apply audited|]. specialize (Hheld eq_refl).
  apply wp_bind_ok; [apply _|]. eapply wp_mono; [apply _| |by apply LinkedDeals_reads].
  intros [deals|e] g' [-> Hdeals]; [|done]. destruct ((0 <? length deals)%nat && negb force) eqn:Hblock; [by apply audited|].
  assert (force = false -> nothing_linked g0 t id g0) as Hnl.
  { intros ->. rewrite andb_true_r in Hblock. apply Nat.ltb_ge in Hblock. intros d. apply count_none. lia. }
  apply wp_bind_ok; [apply _|]. eapply wp_mono; [apply _| |by apply EraseContact_erases].
  intros [res|e] g1 [Hk He]; [|split_and!; [done|intros H; by apply H in Hheld|done]].
  destruct He as (Hex & Hde & Hka & Hkx).
  assert (nothing_linked g0 t id g1) as Hn1 by (destruct force; [done|]; intros d; rewrite Hde; by apply Hnl).
  apply wp_bind; [apply _|]. eapply wp_mono; [apply _| |apply purge_when]. intros bd g2 (Hd2 & Hf2 & Hb2).
  apply wp_bind; [apply _|]. eapply wp_mono; [apply _| |apply purge_files]. intros xd g3 (Hd3 & Hb3 & Hf3).
  apply audit_inert. intros r. unfold kept_aside, spared, exactly, nothing_linked in *. rewrite Hd3, Hd2, Hb3.
  split_and!; [apply Hk|apply Hk|intros H; by apply H in Hheld|]. intros _. split_and!; [by exists now|done|done|done| |].
  - intros Hb d Hd Hp Hne. by apply Hb2, Hka.
  - intros d Hd Hp Hne. apply Hf3. left. by apply Hkx.
Qed.

(** ** Retention *)

(** A deletion of one stage; [when] the days of its category are positive. *)
Definition stage (days : Z) (colls : list Coll) (q : Doc -> bool) (L : deletions) : deletions :=
  if days <=? 0 then L else fold_left (fun L k => (k, q) :: L) colls L.

Lemma matched_stage days colls q L coll d :
  matched (stage days colls q L) coll d <-> (coll ∈ colls /\ (0 <? days) && q d = true) \/ matched L coll d.
Proof.
  unfold stage. destruct (Z.leb_spec days 0), (Z.ltb_spec 0 days); try lia; cbn; [naive_solver|].
  revert L. induction colls as [|k l IH]; intros L; cbn.
  - rewrite elem_of_nil. tauto.
  - rewrite IH, matched_cons, elem_of_cons. naive_solver.
Qed.

Section Retention.
Context (g0 : Ground) (t : string) (now : Time) (p : RetentionPolicy).

(** The conversations of contacts under a hold in force, and those to retire. *)
Definition held_contacts : list string := map d_contact_id (filter (fun d => activeHoldFilter t now "" d = true) (gr_db g0 LegalHolds)).
Definition held_conversations : list string :=
  map d_id (filter (fun d => in_tenant_ t d && one_of (d_contact_id d) held_contacts = true) (gr_db g0 Conversations)).
Definition retiring (d : Doc) : bool :=
  (0 <? rp_ClosedConversationsDays p) && retired t (cutoff now (rp_ClosedConversationsDays p)) held_conversations d.
Definition retired_conversations : list string := map d_id (filter (fun d => retiring d = true) (gr_db g0 Conversations)).

(** Older than its category keeps, and of no conversation on hold. *)
Definition outdated (days : Z) (d : Doc) : bool := (0 <? days) && aged t (cutoff now days) d.
Definition outdated_free (days : Z) (d : Doc) : bool := outdated days d && conversation_not_in held_conversations d.

Definition expired (coll : Coll) (d : Doc) : bool :=
  match coll with
  | Messages | Attachments => outdated_free (rp_MessagesDays p) d || by_conversations t retired_conversations d
  | Events => outdated_free (rp_TechnicalLogsDays p) d || by_conversations t retired_conversations d
  | Conversations => retiring d
  | SlaTrackings | McpApprovals | McpCallLogs | CopilotLogs | RuleEvalLogs | InboundLedger | ProviderLogs =>
      by_conversations t retired_conversations d
  | AuditLogs => outdated (rp_AuditLogsDays p) d
  | Notifications => outdated (rp_NotificationsDays p) d
  | Contacts | Csat | Deals | Exports | LegalHolds => false
  end.

Lemma held_ids_read c :
  wp T (heldConversationIDs c t now)
    (fun r g' => g' = g0 /\ match r with Ok vs => forall v, v ∈ vs <-> v ∈ held_conversations | Err _ => True end) g0.
Proof.
  unfold heldConversationIDs.
  apply (wp_read c (Distinct LegalHolds d_contact_id (activeHoldFilter t now "")) _ _ g0 (fun vs => forall v, v ∈ vs <-> v ∈ held_contacts));
    [|intros vs Hvs|done].
  { intros r g' [-> Hr]. split; [done|]. intros vs Hvs v. rewrite (Hr vs Hvs). unfold held_contacts.
    rewrite list_elem_of_fmap. setoid_rewrite list_elem_of_filter. naive_solver. }
  assert (forall v, v ∈ held_conversations <->
            exists d, d ∈ gr_db g0 Conversations /\ in_tenant_ t d && one_of (d_contact_id d) vs = true /\ d_id d = v) as Hv.
  { intros v. unfold held_conversations. rewrite list_elem_of_fmap. setoid_rewrite list_elem_of_filter.
    assert (forall d, one_of (d_contact_id d) vs = one_of (d_contact_id d) held_contacts) as He by (intros d; by apply one_of_ext).
    setoid_rewrite He. naive_solver. }
  destruct (length vs =? 0)%nat eqn:Hl.
  - destruct vs; [|done]. split; [done|]. intros v. rewrite Hv. split; [by intros ?%not_elem_of_nil|].
    intros (d & _ & H & _). by rewrite andb_false_r in H.
  - apply wp_call; [done|]. intros r g' [-> Hr]. split; [done|]. destruct r as [ids|e]; [|done].
    intros v. by rewrite (Hr ids eq_refl), Hv.
Qed.

Abbreviation Did := (did g0 expired).
Abbreviation Spared := (spared g0 expired).

(** What follows a stage, and what a failure leaves. *)
Definition untouched (g : Ground) : Prop := gr_db g Deals = gr_db g0 Deals.

Context (c : Ctx) (held : list string).
Hypothesis same_held : forall v, v ∈ held <-> v ∈ held_conversations.

Lemma not_in_held d : conversation_not_in held d = conversation_not_in held_conversations d.
Proof. unfold conversation_not_in. by rewrite (one_of_ext held held_conversations). Qed.

Lemma retired_held limit d : retired t limit held d = retired t limit held_conversations d.
Proof. unfold retired. by rewrite (one_of_ext held held_conversations). Qed.

Lemma wp_delete_untouched {A} (Q : result A -> Ground -> Prop) coll q (k : Z -> PvM (result A)) AA G g :
  (forall e g, Spared g -> untouched g -> Q (Err e) g) ->
  coll <> Deals -> (forall d, q d = true -> expired coll d = true) -> Did AA G g -> untouched g ->
  (forall n g', Did ((coll, q) :: AA) ((coll, q) :: G) g' -> untouched g' -> wp T (k n) Q g') ->
  wp T (try! n := ask c (DeleteMany coll q) in k n) Q g.
Proof.
  intros failing Hc Hq Hd Hu Hk. eapply (wp_delete g0 expired); [done|done|exact Hd| |].
  - intros n g' Hd' He _ _. apply Hk; [done|]. unfold untouched. by rewrite He.
  - intros e g' Hs He. apply failing; [done|]. unfold untouched. by rewrite He.
Qed.

Section Stages.
Context {A : Type} (Q : result A -> Ground -> Prop).
Hypothesis failing : forall e g, Spared g -> untouched g -> Q (Err e) g.

Definition message_filter (d : Doc) : bool := aged t (cutoff now (rp_MessagesDays p)) d && conversation_not_in held d.

Lemma wp_retire_messages (k : RetentionResult -> PvM (result A)) res :
  (forall res' g', Did (stage (rp_MessagesDays p) [Attachments; Messages] message_filter [])
                     (stage (rp_MessagesDays p) [Attachments; Messages] message_filter []) g' -> untouched g' ->
     has_keys (gr_db g0 Attachments) (outdated_free (rp_MessagesDays p)) (rr_BlobKeys res') -> wp T (k res') Q g') ->
  wp T (try! r := retire_messages c t now (rp_MessagesDays p) held res in k r) Q g0.
Proof.
  intros Hk. apply wp_bind_ok; [apply _|]. unfold retire_messages, stage, outdated_free, outdated in *.
  destruct (Z.leb_spec (rp_MessagesDays p) 0) as [Hle|Hlt].
  - cbn. apply Hk; [apply did_start|done|]. intros d _ H. destruct (Z.ltb_spec 0 (rp_MessagesDays p)); [lia|done].
  - apply wp_bind_ok; [apply _|]. eapply wp_mono; [apply _| |apply attachmentKeysFor_reads].
    intros [keys|e] g' [-> Hkeys]; [|apply failing; [by eapply did_spared, did_start|done]].
    assert (forall d, message_filter d = true -> (0 <? rp_MessagesDays p) && aged t (cutoff now (rp_MessagesDays p)) d
              && conversation_not_in held_conversations d = true) as Hf.
    { intros d H. unfold message_filter in H. rewrite not_in_held in H. apply andb_true_iff in H as [-> ->].
      destruct (Z.ltb_spec 0 (rp_MessagesDays p)); [done|lia]. }
    eapply wp_delete_untouched; [done|done| |apply did_start|done|].
    { intros d Hd. cbn. unfold outdated_free, outdated. by rewrite Hf. }
    intros n1 g1 Hd1 Hu1. eapply wp_delete_untouched; [done|done| |exact Hd1|done|].
    { intros d Hd. cbn. unfold outdated_free, outdated. by rewrite Hf. }
    intros n2 g2 Hd2 Hu2. apply Hk; [done|done|]. intros d Hd Hp Hne. cbn. apply elem_of_app. right.
    apply Hkeys; [done| |done]. rewrite not_in_held. rewrite !andb_true_iff in *. tauto.
Qed.

Definition conversation_filter (d : Doc) : bool := retired t (cutoff now (rp_ClosedConversationsDays p)) held d.
Abbreviation conv_days := (rp_ClosedConversationsDays p).

(** The deletions once conversations are retired: nothing when they are kept for ever. *)
Definition conversations_stage (vs : list string) (L : deletions) : deletions :=
  if conv_days <=? 0 then L else (Conversations, conversation_filter) :: cascaded (by_conversations t vs) L.

Definition retired_ids (vs : list string) : Prop := 0 < conv_days -> forall v, v ∈ vs <-> v ∈ retired_conversations.

Lemma retired_ids_spec vs d : retired_ids vs -> 0 < conv_days -> by_conversations t vs d = by_conversations t retired_conversations d.
Proof. intros Hv Hc. unfold by_conversations. by rewrite (one_of_ext vs retired_conversations) by (by apply Hv). Qed.

Lemma conversation_filter_spec d : 0 < conv_days -> conversation_filter d = retiring d.
Proof.
  intros Hc. unfold conversation_filter, retiring. rewrite retired_held. destruct (Z.ltb_spec 0 conv_days); [done|lia].
Qed.

Lemma satellite_expired coll d : coll ∈ satellites -> by_conversations t retired_conversations d = true -> expired coll d = true.
Proof.
  intros Hc Hd. repeat (apply elem_of_cons in Hc as [->|Hc]; [cbn; rewrite Hd, ?orb_true_r; done|]). by apply not_elem_of_nil in Hc.
Qed.

Lemma wp_retire_conversations (k : RetentionResult -> PvM (result A)) res L G g :
  Did L G g -> untouched g -> (forall d, ~ matched L Conversations d) ->
  (forall res' vs g', retired_ids vs -> Did (conversations_stage vs L) (conversations_stage vs G) g' -> untouched g' ->
     (forall key, key ∈ rr_BlobKeys res -> key ∈ rr_BlobKeys res') ->
     (0 < conv_days -> has_keys (gr_db g Attachments) (by_conversations t retired_conversations) (rr_BlobKeys res')) ->
     wp T (k res') Q g') ->
  wp T (try! r := retire_conversations c t now conv_days held res in k r) Q g.
Proof.
  intros Hd Hu HL Hk. apply wp_bind_ok; [apply _|]. unfold retire_conversations, conversations_stage in *.
  destruct (Z.leb_spec conv_days 0) as [Hle|Hlt].
  - cbn. apply (Hk res []); [intros ?; lia|done|done|done|intros ?; lia].
  - apply (wp_read c (Distinct Conversations d_id conversation_filter) _ _ g (fun vs => forall v, v ∈ vs <-> v ∈ retired_conversations)).
    + intros r g' [-> Hr]. split; [done|]. intros vs Hvs v. rewrite (Hr vs Hvs). unfold retired_conversations.
      rewrite list_elem_of_fmap. setoid_rewrite list_elem_of_filter.
      assert (forall d, d ∈ gr_db g Conversations <-> d ∈ gr_db g0 Conversations) as He
        by (intros d; split; [by eapply did_within|intros H; eapply did_kept; eauto]).
      setoid_rewrite He. setoid_rewrite conversation_filter_spec; [|done]. naive_solver.
    + intros vs Hvs. assert (retired_ids vs) as Hids by (intros _; exact Hvs).
      eapply (wp_cascade g0 expired); [|exact Hd| |].
      * intros coll d Hc Hp. rewrite (retired_ids_spec vs d) in Hp by done. by apply satellite_expired.
      * intros casc g1 Hd1 He1 _ _ Hkeys.
        eapply wp_delete_untouched; [exact failing|done| |exact Hd1|by unfold untouched; rewrite He1|].
        -- intros d Hp. change (conversation_filter d = true) in Hp. by rewrite conversation_filter_spec in Hp.
        -- intros n g2 Hd2 Hu2. apply (Hk _ vs); [done|done|done| |]; cbn.
           ++ intros key Hkey. apply elem_of_app. by left.
           ++ intros _ d Hin Hp Hne. apply elem_of_app. right. apply Hkeys; [done| |done]. by rewrite (retired_ids_spec vs).
      * intros e g' Hs He. apply failing; [done|]. unfold untouched. by rewrite He.
    + intros e. apply failing; [by eapply did_spared|done].
Qed.

Lemma retiring_days d : retiring d = true -> 0 < conv_days.
Proof. unfold retiring. intros [H _]%andb_true_iff. by apply Z.ltb_lt. Qed.

Lemma retired_conversation_days d : by_conversations t retired_conversations d = true -> 0 < conv_days.
Proof.
  intros [_ H]%andb_true_iff. apply one_of_spec in H. unfold retired_conversations in H.
  apply list_elem_of_fmap in H as (k & _ & [H _]%list_elem_of_filter). by eapply retiring_days.
Qed.

Lemma matched_conversations_stage vs L coll d :
  retired_ids vs ->
  (coll = Conversations /\ retiring d = true) \/ (coll ∈ satellites /\ by_conversations t retired_conversations d = true)
    \/ matched L coll d ->
  matched (conversations_stage vs L) coll d.
Proof.
  intros Hvs Hm. unfold conversations_stage. destruct (Z.leb_spec conv_days 0) as [Hle|Hlt].
  - destruct Hm as [[_ H%retiring_days]|[[_ H%retired_conversation_days]|H]]; [lia|lia|done].
  - rewrite matched_cons, matched_cascaded, conversation_filter_spec, (retired_ids_spec vs) by done. tauto.
Qed.

(** The three stages of one collection. *)
Lemma wp_retire_one (m : RetentionResult -> PvM (result RetentionResult)) coll days q
    (set : Z -> RetentionResult -> RetentionResult) (k : RetentionResult -> PvM (result A)) res L G g :
  (forall res, m res = if days <=? 0 then Ret (Ok res) else try! n := ask c (DeleteMany coll q) in Ret (Ok (set n res))) ->
  (forall n res, rr_BlobKeys (set n res) = rr_BlobKeys res) ->
  coll <> Deals -> (forall d, (0 <? days) && q d = true -> expired coll d = true) -> Did L G g -> untouched g ->
  (forall res' g', Did (stage days [coll] q L) (stage days [coll] q G) g' -> untouched g' ->
     rr_BlobKeys res' = rr_BlobKeys res -> wp T (k res') Q g') ->
  wp T (try! r := m res in k r) Q g.
Proof.
  intros Hm Hset Hc Hq Hd Hu Hk. rewrite Hm. apply wp_bind_ok; [apply _|]. unfold stage in Hk.
  destruct (Z.leb_spec days 0); [by apply Hk|].
  eapply wp_delete_untouched; [exact failing|done| |exact Hd|done|].
  - intros d Hp. apply Hq. rewrite Hp. destruct (Z.ltb_spec 0 days); [done|lia].
  - intros n g' Hd' Hu'. cbn. by apply Hk.
Qed.
End Stages.

Lemma wp_bind_ok_ret {A} (m : PvM (result A)) (Q : result A -> Ground -> Prop) g :
  wp T (bind_ok m (fun a => Ret (Ok a))) Q g -> wp T m Q g.
Proof.
  revert g. induction m as [r|R c' e k IH]; intros g; cbn; [by destruct r|]. intros [Hp Hk]. split; [done|].
  intros r g' Hr. by apply IH, Hk.
Qed.
End Retention.

Lemma ApplyRetention_exact c t now p g0 :
  RequireTenant c = Ok t ->
  wp T (ApplyRetention_ c p now)
    (fun r g' => spared g0 (expired g0 t now p) g' /\ untouched g0 g' /\
       match r with
       | Ok res => exactly g0 (expired g0 t now p) g' /\
                   has_keys (gr_db g0 Attachments) (expired g0 t now p Attachments) (rr_BlobKeys res)
       | Err _ => True
       end) g0.
Proof.
  intros Ht. unfold ApplyRetention_. rewrite Ht. cbn [bind_ok bind].
  assert (spared g0 (expired g0 t now p) g0) as H0 by (eapply did_spared, did_start).
  apply wp_bind_ok; [apply _|]. eapply wp_mono; [apply _| |apply held_ids_read]. intros [held|e] g' [-> Hheld]; [|done].
  match goal with |- wp _ _ ?Q _ => set (Post := Q) end.
  assert (forall e g, spared g0 (expired g0 t now p) g -> untouched g0 g -> Post (Err e) g) as Hfail by done.
  apply (wp_retire_messages g0 t now p c held Hheld Post Hfail). intros r1 g1 Hd1 Hu1 Hk1.
  eapply (wp_retire_conversations g0 t now p c held Hheld Post Hfail); [exact Hd1|done| |].
  { intros d. rewrite matched_stage. intros [[H _]|H]; [by apply (bool_decide_eq_true_2 _) in H|by apply matched_nil in H]. }
  intros r2 vs g2 Hvs Hd2 Hu2 Hk2 Hc2.
  eapply (wp_retire_one g0 t now p c Post Hfail (fun res => retire_events c t now (rp_TechnicalLogsDays p) held res));
    [done|done|done| |exact Hd2|done|].
  { intros d Hq. cbv beta in Hq. cbn. unfold outdated_free, outdated. rewrite (not_in_held g0 t now held Hheld), andb_assoc in Hq. by rewrite Hq. }
  intros r3 g3 Hd3 Hu3 Hk3.
  eapply (wp_retire_one g0 t now p c Post Hfail (fun res => retire_audit c t now (rp_AuditLogsDays p) res));
    [done|done|done|done|exact Hd3|done|].
  intros r4 g4 Hd4 Hu4 Hk4. apply wp_bind_ok_ret.
  eapply (wp_retire_one g0 t now p c Post Hfail (fun res => retire_notifications c t now (rp_NotificationsDays p) res));
    [done|done|done|done|exact Hd4|done|].
  intros r5 g5 Hd5 Hu5 Hk5. split_and!; [by eapply did_spared|done| |].
  - eapply did_exactly; [exact Hd5|]. intros coll d Hc Hm. rewrite !matched_stage.
    assert (forall L, (coll = Conversations /\ retiring g0 t now p d = true) \/
              (coll ∈ satellites /\ by_conversations t (retired_conversations g0 t now p) d = true) \/ matched L coll d ->
              matched (conversations_stage t now p held vs L) coll d) as Hconv
      by (intros L; by apply (matched_conversations_stage g0)).
    destruct coll; cbn in Hm; try done; try (right; right; right; apply Hconv; right; left; split; [in_list|done]).
    + do 3 right. apply Hconv. by left.
    + do 3 right. apply Hconv. apply orb_true_iff in Hm as [Hm|Hm]; [|right; left; split; [in_list|done]].
      do 2 right. rewrite matched_stage. left. split; [in_list|]. unfold message_filter.
      by rewrite (not_in_held g0 t now held Hheld), andb_assoc.
    + apply orb_true_iff in Hm as [Hm|Hm]; [|do 3 right; apply Hconv; right; left; split; [in_list|done]].
      do 2 right. left. split; [in_list|]. by rewrite (not_in_held g0 t now held Hheld), andb_assoc.
    + do 3 right. apply Hconv. apply orb_true_iff in Hm as [Hm|Hm]; [|right; left; split; [in_list|done]].
      do 2 right. rewrite matched_stage. left. split; [in_list|]. unfold message_filter.
      by rewrite (not_in_held g0 t now held Hheld), andb_assoc.
    + left. split; [in_list|done].
    + right. left. split; [in_list|done].
  - intros d Hin Hm Hne. rewrite Hk5, Hk4, Hk3. cbn in Hm.
    destruct (outdated_free g0 t now (rp_MessagesDays p) d) eqn:Ho; [by apply Hk2, Hk1|]. cbn in Hm.
    apply Hc2; [by eapply retired_conversation_days| |done|done].
    eapply did_kept; [exact Hd1|done|done|]. rewrite matched_stage. intros [[_ H]|H]; [|by apply matched_nil in H].
    unfold message_filter in H. rewrite (not_in_held g0 t now held Hheld), andb_assoc in H.
    unfold outdated_free, outdated in Ho. congruence.
Qed.

(** A conversation on hold, and what belongs to it. *)
Definition on_hold (g0 : Ground) (t : string) (now : Time) (coll : Coll) (d : Doc) : bool :=
  match coll with
  | Conversations => one_of (d_id d) (held_conversations g0 t now)
  | Messages | Events | Attachments | SlaTrackings | McpApprovals | McpCallLogs | CopilotLogs | RuleEvalLogs
  | InboundLedger | ProviderLogs => one_of (d_conversation_id d) (held_conversations g0 t now)
  | _ => false
  end.

(** Identifiers tell the conversations of a tenant apart. *)
Lemma retired_not_held g0 t now p v :
  v ∈ retired_conversations g0 t now p -> v ∉ held_conversations g0 t now.
Proof.
  unfold retired_conversations. rewrite list_elem_of_fmap. intros (d & -> & [Hr _]%list_elem_of_filter) Hv.
  unfold retiring, retired in Hr. rewrite !andb_true_iff, negb_true_iff in Hr. destruct Hr as (_ & _ & Hr).
  by apply one_of_spec in Hv; rewrite Hv in Hr.
Qed.

Lemma on_hold_unexpired g0 t now p coll d : on_hold g0 t now coll d = true -> expired g0 t now p coll d = false.
Proof.
  intros Hh. assert (forall v, one_of v (held_conversations g0 t now) = true -> one_of v (retired_conversations g0 t now p) = false) as Hv.
  { intros v H%one_of_spec. apply not_true_iff_false. intros H'%one_of_spec. by apply retired_not_held in H'. }
  assert (forall days, one_of (d_conversation_id d) (held_conversations g0 t now) = true -> outdated_free g0 t now days d = false) as Ho
    by (intros days H; unfold outdated_free, conversation_not_in; by rewrite H, andb_false_r).
  destruct coll; cbn in Hh |- *; try done; unfold by_conversations; rewrite ?Ho, ?(Hv _ Hh), ?andb_false_r by done; try done.
  unfold retiring, retired. by rewrite Hh, !andb_false_r.
Qed.

(** C15. Applying a tenant's retention. Without a policy nothing changes. With one, whatever the store
    answers, failing half way included, nothing goes but what the policy retires at a moment of the
    run: messages and attachments, timeline events, audit logs and notifications older than their
    category is kept, closed conversations with their satellites; no conversation of a contact under
    a hold, and nothing that belongs to one, is touched. When it succeeds exactly what is retired is
    gone, and the deletion of the media of every attachment that went was asked for. The audit entry
    the run itself adds is not counted as a change. *)
Theorem retention_respects_policy_and_holds (s : PrivacyService) (c : Ctx) (t : string) (g0 : Ground) :
  RequireTenant c = Ok t ->
  wp T (ApplyRetention s c) (fun out g' =>
    (gr_db g' = gr_db g0 /\ (out.2 = None -> gr_policy g0 = None)) \/
    exists p now, gr_policy g0 = Some p /\ within_time g0 now /\
      spared g0 (expired g0 t now p) g' /\ untouched g0 g' /\
      (forall coll d, coll <> Deals -> d ∈ gr_db g0 coll -> on_hold g0 t now coll d = true -> d ∈ gr_db g' coll) /\
      (out.2 = None ->
         exactly g0 (expired g0 t now p) g' /\
         (pv_has_blobs s = true -> has_keys (gr_db g0 Attachments) (expired g0 t now p Attachments) (gr_blobs g')))) g0.
Proof.
  intros Ht. unfold ApplyRetention. rewrite Ht. apply wp_bind; [apply _|]. unfold GetRetention_. rewrite Ht. cbn [bind_ok bind].
  apply wp_call; [done|]. intros r g' [-> Hr]. destruct r as [o|e]; [|by left]. specialize (Hr o eq_refl). subst o.
  destruct (gr_policy g0) as [p|]; [|by left].
  apply wp_bind; [apply _|]. apply wp_call; [done|]. intros now g' [-> Hnow].
  apply wp_bind; [apply _|]. eapply wp_mono; [apply _| |by apply ApplyRetention_exact]. intros r g1 (Hs & Hu & Hres).
  assert (forall g', gr_db g' = gr_db g1 -> forall coll d, coll <> Deals -> d ∈ gr_db g0 coll ->
            on_hold g0 t now coll d = true -> d ∈ gr_db g' coll) as Hhold.
  { intros g' He coll d Hc Hin Hh. rewrite He. apply Hs; [done..|]. by apply on_hold_unexpired. }
  destruct r as [res|e]; [|right; exists p, now; split_and!; try done; by apply Hhold].
  apply wp_bind; [apply _|]. eapply wp_mono; [apply _| |apply purge_when]. intros bd g2 (Hd2 & _ & Hb2).
  assert (forall out : Z * option error, exists q now0, Some p = Some q /\ within_time g0 now0 /\
      spared g0 (expired g0 t now0 q) g2 /\ untouched g0 g2 /\
      (forall coll d, coll <> Deals -> d ∈ gr_db g0 coll -> on_hold g0 t now0 coll d = true -> d ∈ gr_db g2 coll) /\
      (out.2 = None -> exactly g0 (expired g0 t now0 q) g2 /\
         (pv_has_blobs s = true -> has_keys (gr_db g0 Attachments) (expired g0 t now0 q Attachments) (gr_blobs g2)))) as Hend.
  { intros out. exists p, now. destruct Hres as [Hex Hk]. unfold spared, untouched, exactly in *. rewrite Hd2.
    split_and!; try done; [intros coll d Hc Hin Hh; rewrite <- Hd2; by apply Hhold|]. intros _. split; [done|].
    intros Hb d Hin Hm Hne. by apply Hb2, Hk. }
  destruct (0 <? Total res); [|right; apply Hend]. apply wp_bind; [apply _|]. apply audit_inert. intros r. right. apply Hend.
Qed.
