(* ===== verification/PrivacyCases.v ===== *)
(** * Privacy: a store in memory, and what happens in it *)
From S2P Require Import Prelude GoStrings AppError Authz Shared ConvEntity Prog Ports Calendar Sla Privacy PrivacyProps.

(** ** The store *)

Definition database_down : error := Internal "database error".

(** A call answered: deletions and updates take effect at once. *)
Definition perform {R} (e : PrivacyPort R) (g : Ground) : R * Ground :=
  match e in PrivacyPort R return R * Ground with
  | PvNow => (gr_to g, g)
  | PvSystemNow => (gr_to g, g)
  | PvNewID => ("id", g)
  | Find coll p => (Ok (filter (fun d => p d = true) (gr_db g coll)), g)
  | FindOne coll p =>
      (match List.find p (gr_db g coll) with Some d => Ok d | None => Err (NotFound "resource not found") end, g)
  | Distinct coll field p => (Ok (remove_dups (map field (filter (fun d => p d = true) (gr_db g coll)))), g)
  | CountDocuments coll p => (Ok (Z.of_nat (length (filter (fun d => p d = true) (gr_db g coll)))), g)
  | DeleteMany coll p =>
      (Ok (Z.of_nat (length (filter (fun d => p d = true) (gr_db g coll)))),
       set_coll coll (filter (fun d => p d = false) (gr_db g coll)) g)
  | UpdateMany coll p f => (Ok tt, set_coll coll (map (fun d => if p d then f d else d) (gr_db g coll)) g)
  | FindRetention _ => (Ok (gr_policy g), g)
  | UpsertRetention _ p => (Ok tt, set_policy p g)
  | InsertExport _ | SetExport _ _ | FileSave _ _ | EnqueueExport _ | PvAudit _ => (Ok tt, g)
  | ExportByID _ _ => (Err (NotFound "resource not found"), g)
  | BundleContact _ _ => (Err (NotFound "resource not found"), g)
  | BundleConversations _ _ => (Ok [], g)
  | BundleMessages _ _ => (Ok [], g)
  | BundleCSAT _ _ => (Ok [], g)
  | FileSignedURL key _ => (Ok (key, gr_to g), g)
  | FileDelete k => (Ok tt, mkGround (gr_db g) (gr_policy g) (gr_blobs g) (k :: gr_files g) (gr_from g) (gr_to g))
  | BlobDelete k => (Ok tt, mkGround (gr_db g) (gr_policy g) (k :: gr_blobs g) (gr_files g) (gr_from g) (gr_to g))
  end.

(** Deletions in the collections listed fail. *)
Definition store (down : list Coll) : @handler Ctx PrivacyPort Ground := fun R c e g =>
  match e in PrivacyPort R return R * Ground with
  | DeleteMany coll p => if decide (coll ∈ down) then (Err database_down, set_coll coll (gr_db g coll) g) else perform (DeleteMany coll p) g
  | e => perform e g
  end.

Lemma distinct_spec (field : Doc -> string) (p : Doc -> bool) l v :
  v ∈ remove_dups (map field (filter (fun d => p d = true) l)) <-> exists d, d ∈ l /\ p d = true /\ field d = v.
Proof.
  rewrite elem_of_remove_dups, list_elem_of_fmap. setoid_rewrite list_elem_of_filter. naive_solver.
Qed.

Lemma store_meets_contract down {R} c (e : PrivacyPort R) g : let '(r, g') := store down R c e g in privacy_post c e g r g'.
Proof.
  destruct e; cbn; try done.
  - split; [done|]. unfold within_time. lia.
  - split; [done|]. by intros l [= <-].
  - destruct (List.find p (gr_db g coll)) as [x|] eqn:Hf; cbn; (split; [done|]); [|done].
    intros d [= <-]. apply List.find_some in Hf as [Hin Hp]. split; [by apply list_elem_of_In|done].
  - split; [done|]. intros vs [= <-] v. apply distinct_spec.
  - split; [done|]. by intros n [= <-].
  - case_decide; cbn; [|done]. by exists (gr_db g coll).
  - split; [done|]. by intros o [= <-].
  - by left.
Qed.

(** What is proved of every store is true of this one. *)
Lemma run_store down {A} (m : PvM A) (Q : A -> Ground -> Prop) g :
  wp privacy_contract m Q g -> Q (run (store down) m g).1 (run (store down) m g).2.
Proof.
  intros Hw. pose proof (wp_run privacy_contract (store down) (fun g => g) m Q g) as H.
  destruct (run (store down) m g) as [a g']. apply H; [|done]. intros R c e P s [_ Hp].
  pose proof (store_meets_contract down c e s) as Hs. destruct (store down R c e s). by apply Hp.
Qed.

(** ** A tenant *)

Definition day (n : Z) : Time := n * Day.

Definition doc (id contact conversation : string) (created : Time) : Doc :=
  mkDoc id "t1" contact conversation [] "" None created 0 "" "" None "".
Definition doc_contact (id avatar : string) : Doc := mkDoc id "t1" "" "" [] "" None 0 0 "" avatar None "".
Definition doc_conversation (id contact status : string) (closed : option Time) : Doc :=
  mkDoc id "t1" contact "" [] status closed 0 0 "" "" None "".
Definition doc_attachment (id conversation key : string) (created : Time) : Doc :=
  mkDoc id "t1" "" conversation [] "" None created 0 key "" None "".
Definition doc_deal (id contact : string) (convs : list string) : Doc :=
  mkDoc id "t1" contact "" convs "" None 0 0 "" "" None "a sale".
Definition doc_hold (contact : string) : Doc := mkDoc "h1" "t1" contact "" [] "" None 0 0 "" "" None "".
Definition doc_export (id contact key : string) : Doc := mkDoc id "t1" contact "" [] "" None 0 0 key "" None "".

(** Two contacts with an avatar and a closed conversation each; [k2] is under a hold. *)
Definition collections (coll : Coll) : list Doc :=
  match coll with
  | Contacts => [doc_contact "k1" "a1"; doc_contact "k2" "a2"]
  | Conversations => [doc_conversation "c1" "k1" "closed" (Some (day 1)); doc_conversation "c2" "k2" "closed" (Some (day 1))]
  | Messages => [doc "m1" "" "c1" (day 1); doc "m2" "" "c2" (day 1)]
  | Attachments =>
      [doc_attachment "a1" "" "avatars/k1" (day 1); doc_attachment "a2" "" "avatars/k2" (day 1);
       doc_attachment "p1" "c1" "media/p1" (day 1); doc_attachment "p2" "c2" "media/p2" (day 1)]
  | Csat => [doc "s1" "k1" "c1" (day 1)]
  | Deals => [doc_deal "d1" "k1" ["c1"; "c9"]]
  | Exports => [doc_export "x1" "k1" "exports/x1"]
  | LegalHolds => [doc_hold "k2"]
  | _ => []
  end.

Definition tenant : Ground := mkGround collections (Some (mkRetention "t1" 30 30 0 0 0 0)) [] [] (day 100) (day 100).
Definition admin : Ctx := mkCtx (Some "t1") None None None.
Definition privacy : PrivacyService := mkPrivacyService true Day (fun _ => Ok "{}").

Definition names (g : Ground) (coll : Coll) : list string := map d_id (gr_db g coll).

(** The contact with a deal is erased on insistence: the deal stays, the rest goes. *)
Lemma erasure_forgets_the_contact_witness :
  let out := run (store []) (EraseContact privacy admin "k1" true) tenant in
  out.1 = Ok tt /\ names out.2 Deals = ["d1"] /\ exactly tenant (owned tenant "t1" "k1") out.2.
Proof.
  intros out. assert (out.1 = Ok tt) as Hok by (vm_compute; reflexivity). split; [exact Hok|]. split; [vm_compute; reflexivity|].
  refine (let H := run_store [] _ _ tenant (erasure_forgets_the_contact privacy admin "t1" "k1" true tenant eq_refl _) in _).
  - apply (proj2 (proj2 H) Hok).
Unshelve.
  intros d d'. cbn [tenant gr_db collections]. intros [->|[->|[]%not_elem_of_nil]%elem_of_cons]%elem_of_cons
    [->|[->|[]%not_elem_of_nil]%elem_of_cons]%elem_of_cons; vm_compute; congruence.
Defined.

Lemma retention_respects_policy_and_holds_witness :
  let out := run (store []) (ApplyRetention privacy admin) tenant in
  names out.2 Conversations = ["c2"] /\ names out.2 Messages = ["m2"] /\
  ((gr_db out.2 = gr_db tenant /\ (out.1.2 = None -> gr_policy tenant = None)) \/
   exists p now, gr_policy tenant = Some p /\ within_time tenant now /\ spared tenant (expired tenant "t1" now p) out.2).
Proof.
  intros out. split; [vm_compute; reflexivity|]. split; [vm_compute; reflexivity|].
  destruct (run_store [] _ _ tenant (retention_respects_policy_and_holds privacy admin "t1" tenant eq_refl)) as [H|H]; [by left|right].
  destruct H as (p & now & Hp & Hw & Hs & _). by exists p, now.
Defined.

(** ** What happens in it *)

(** Retiring messages also retires every avatar of the tenant as old as they are, for an avatar is
    an attachment of no conversation: the contact under a hold loses its own. *)
Theorem retention_takes_the_avatars :
  let out := run (store []) (ApplyRetention privacy admin) tenant in
  names out.2 Contacts = ["k1"; "k2"] /\ map d_avatar_attachment_id (gr_db out.2 Contacts) = ["a1"; "a2"] /\
  names out.2 Attachments = ["p2"] /\ "avatars/k2" ∈ gr_blobs out.2 /\
  activeHoldFilter "t1" (day 100) "k2" (doc_hold "k2") = true.
Proof.
  split_and!; [vm_compute; reflexivity..| |vm_compute; reflexivity].
  apply (bool_decide_unpack _). vm_compute. exact I.
Qed.

(** The survey of a conversation that was retired stays. *)
Theorem surveys_outlive_their_conversation :
  let out := run (store []) (ApplyRetention privacy admin) tenant in
  names out.2 Conversations = ["c2"] /\ names out.2 Csat = ["s1"] /\ map d_conversation_id (gr_db out.2 Csat) = ["c1"].
Proof. split_and!; vm_compute; reflexivity. Qed.

(** An erasure that fails after the attachments went, and is tried again, never asks for the
    deletion of their media. *)
Theorem media_outlives_a_failed_erasure :
  let first := run (store [SlaTrackings]) (EraseContact privacy admin "k1" true) tenant in
  let again := run (store []) (EraseContact privacy admin "k1" true) first.2 in
  first.1 = Err database_down /\ again.1 = Ok tt /\ names again.2 Contacts = ["k2"] /\
  gr_blobs again.2 = ["avatars/k1"] /\ owned tenant "t1" "k1" Attachments (doc_attachment "p1" "c1" "media/p1" (day 1)) = true.
Proof. split_and!; vm_compute; reflexivity. Qed.
