(* ===== verification/Csat.v ===== *)
(** * Satisfaction surveys (domain/csat)

    The surveys a tenant configures, and the life of a response: created when its conversation
    closes, sent, answered by its public token or expired. *)
From S2P Require Import Prelude GoStrings AppError Authz Shared ConvEntity Prog Ports Auth.

(** ** Entities *)

Definition StatusSent : string := "sent".
Definition StatusResponded : string := "responded".
Definition StatusExpired : string := "expired".

Record CSATResponse := mkCSATResponse {
  cr_ID : string; cr_TenantID : string; cr_ConversationID : string; cr_ContactID : string; cr_SurveyID : string;
  cr_AgentID : string; cr_Token : string; cr_Score : option Z; cr_Comment : string; cr_SentAt : option Time;
  cr_RespondedAt : option Time; cr_Status : string; cr_CreatedAt : Time; cr_UpdatedAt : Time }.

Definition Answerable (r : CSATResponse) : bool := cr_Status r =! StatusSent.

Definition ScaleCSAT15 : string := "csat_1_5".
Definition ScaleNPS010 : string := "nps_0_10".
Definition ScaleThumbs : string := "thumbs".

Definition IsValidScale (s : string) : bool := (s =! ScaleCSAT15) || (s =! ScaleNPS010) || (s =! ScaleThumbs).

Definition ValidScore (s : string) (score : Z) : bool :=
  if s =! ScaleCSAT15 then (1 <=? score) && (score <=? 5)
  else if s =! ScaleNPS010 then (0 <=? score) && (score <=? 10)
  else if s =! ScaleThumbs then (score =? 0) || (score =? 1)
  else false.

Definition SendOnConversationClosed : string := "conversation_closed".

Record CSATSurvey := mkCSATSurvey {
  sv_ID : string; sv_TenantID : string; sv_Name : string; sv_Scale : string; sv_QuestionText : string;
  sv_SendOn : string; sv_SectorIDs : list string; sv_DelaySeconds : Z; sv_Enabled : bool; sv_CreatedAt : Time;
  sv_UpdatedAt : Time }.

Definition Matches (s : CSATSurvey) (sectorID : string) : bool :=
  (length (sv_SectorIDs s) =? 0)%nat || existsb (fun i => i =! sectorID) (sv_SectorIDs s).

(** ** Contracts *)

Record CreateSurvey := mkCreateSurvey {
  cs_Name : string; cs_Scale : string; cs_QuestionText : string; cs_SectorIDs : list string; cs_DelaySeconds : Z;
  cs_Enabled : option bool }.
Record UpdateSurvey := mkUpdateSurvey {
  us_Name : option string; us_Scale : option string; us_QuestionText : option string;
  us_SectorIDs : option (list string); us_DelaySeconds : option Z; us_Enabled : option bool }.
Record SubmitResponse := mkSubmit { sb_Score : Z; sb_Comment : string }.
Record SendTask := mkSendTask { st_TenantID : string; st_ResponseID : string }.
Record ExpireTask := mkExpireTask { et_TenantID : string; et_ResponseID : string }.

Inductive CsatPort : Type -> Type :=
| CsNow : CsatPort Time
| CsNewID : CsatPort string
| CsRandomToken : CsatPort string
| SurveyCreate (s : CSATSurvey) : CsatPort (result unit)
| SurveyUpdate (s : CSATSurvey) : CsatPort (result unit)
| SurveyDelete (id : string) : CsatPort (result unit)
| SurveyByID (id : string) : CsatPort (result CSATSurvey)
| SurveysByIDs (ids : list string) : CsatPort (result (list CSATSurvey))
| SurveyList (page : PageRequest) : CsatPort (result (list CSATSurvey))
| SurveysEnabled : CsatPort (result (list CSATSurvey))
| ResponseCreate (r : CSATResponse) : CsatPort (result unit)
| ResponseUpdate (r : CSATResponse) : CsatPort (result unit)
| ResponseByID (id : string) : CsatPort (result CSATResponse)
| ResponseByToken (token : string) : CsatPort (result CSATResponse)
| ResponseByConversation (conversationID : string) : CsatPort (result CSATResponse)
| ResponseList (page : PageRequest) : CsatPort (result (list CSATResponse))
| SendToConversation (conversationID text : string) : CsatPort (result unit)
| EnqueueSend (task : SendTask) (delaySeconds : Z) : CsatPort (result unit)
| EnqueueExpire (task : ExpireTask) (delaySeconds : Z) : CsatPort (result unit).

#[export] Instance csat_own : Embed CsatPort CsatPort := fun R e => e.

Abbreviation CsM := (prog Ctx CsatPort).

(** ** The life of a response (service/service.go) *)

Record CsatService := mkCsatService { cx_has_enqueuer : bool; cx_expireAfter : Z; cx_publicBase : string }.

(** [NewService]: the window and the address of the answers. *)
Definition NewService (has_enqueuer : bool) (expireAfterSeconds : Z) (publicBaseURL : string) : CsatService :=
  mkCsatService has_enqueuer (if expireAfterSeconds <=? 0 then 72 * 3600 else expireAfterSeconds)
    (trim_right_slash publicBaseURL).

(** The first survey of the sector, or the first of all sectors. *)
Fixpoint selectSurvey (surveys : list CSATSurvey) (sectorID : string) (best : option CSATSurvey) : option CSATSurvey :=
  match surveys with
  | [] => best
  | sv :: surveys =>
      if negb (sv_Enabled sv) || (sv_SendOn sv <>! SendOnConversationClosed) || negb (Matches sv sectorID)
      then selectSurvey surveys sectorID best
      else
        let better := match best with
                      | None => true
                      | Some b => (0 <? length (sv_SectorIDs sv))%nat && (length (sv_SectorIDs b) =? 0)%nat
                      end in
        selectSurvey surveys sectorID (if better then Some sv else best)
  end.

Definition set_answer (score : option Z) (comment : string) (sent responded : option Time) (status : string)
    (updated : Time) (r : CSATResponse) : CSATResponse :=
  mkCSATResponse (cr_ID r) (cr_TenantID r) (cr_ConversationID r) (cr_ContactID r) (cr_SurveyID r) (cr_AgentID r)
    (cr_Token r) score comment sent responded status (cr_CreatedAt r) updated.

(** What [Update] stores: the [$set] fields over the stored document. *)
Definition stored_response (old new : CSATResponse) : CSATResponse :=
  set_answer (cr_Score new) (cr_Comment new) (cr_SentAt new) (cr_RespondedAt new) (cr_Status new) (cr_UpdatedAt new) old.

Section Service.
Context (s : CsatService).

Definition answerLink (token : string) : string := cx_publicBase s +:+ "/csat/" +:+ token.

Definition OnConversationClosed (c : Ctx) (conv : option Conversation) : CsM unit :=
  match conv with
  | None => Ret tt
  | Some conv =>
      let! existing := ask c (ResponseByConversation (cv_ID conv)) in
      if is_ok existing then Ret tt
      else
        let! surveys := ask c SurveysEnabled in
        match surveys with
        | Err _ => Ret tt
        | Ok surveys =>
            match selectSurvey surveys (cv_SectorID conv) None with
            | None => Ret tt
            | Some survey =>
                let! now := ask c CsNow in
                let! id := ask c CsNewID in
                let! token := ask c CsRandomToken in
                let resp := mkCSATResponse id (cv_TenantID conv) (cv_ID conv) (cv_ContactID conv) (sv_ID survey)
                              (cv_AssignedTo conv) token None "" None None StatusSent now now in
                let! r := ask c (ResponseCreate resp) in
                match r with
                | Err _ => Ret tt
                | Ok _ =>
                    if cx_has_enqueuer s then
                      do! ask c (EnqueueSend (mkSendTask (cv_TenantID conv) (cr_ID resp)) (sv_DelaySeconds survey)) in
                      Ret tt
                    else Ret tt
                end
            end
        end
  end.

(** A task whose response is gone has nothing to do. *)
Definition or_orphan {A} (m : CsM (result A)) (k : A -> CsM (result unit)) : CsM (result unit) :=
  let! r := m in
  match r with
  | Err e => if CodeOf e =! CodeNotFound then Ret (Ok tt) else Ret (Err e)
  | Ok a => k a
  end.

Definition newline : string := of_bytes [byte_of 10].

Definition Send (c : Ctx) (task : SendTask) : CsM (result unit) :=
  or_orphan (ask c (ResponseByID (st_ResponseID task))) (fun resp =>
  if (cr_Status resp <>! StatusSent) || (match cr_SentAt resp with Some _ => true | None => false end) then Ret (Ok tt)
  else
    try! survey := ask c (SurveyByID (cr_SurveyID resp)) in
    let text := sv_QuestionText survey +:+ newline +:+ answerLink (cr_Token resp) in
    try! _ := ask c (SendToConversation (cr_ConversationID resp) text) in
    let! now := ask c CsNow in
    let resp := set_answer (cr_Score resp) (cr_Comment resp) (Some now) (cr_RespondedAt resp) (cr_Status resp) now resp in
    try! _ := ask c (ResponseUpdate resp) in
    if cx_has_enqueuer s then
      do! ask c (EnqueueExpire (mkExpireTask (cr_TenantID resp) (cr_ID resp)) (cx_expireAfter s)) in Ret (Ok tt)
    else Ret (Ok tt)).

Definition Expire (c : Ctx) (task : ExpireTask) : CsM (result unit) :=
  or_orphan (ask c (ResponseByID (et_ResponseID task))) (fun resp =>
  if cr_Status resp <>! StatusSent then Ret (Ok tt)
  else
    let! now := ask c CsNow in
    ask c (ResponseUpdate (set_answer (cr_Score resp) (cr_Comment resp) (cr_SentAt resp) (cr_RespondedAt resp)
                             StatusExpired now resp))).

Definition SubmitByToken (c : Ctx) (token : string) (input : SubmitResponse) : CsM (result unit) :=
  let! found := ask c (ResponseByToken (trim_space token)) in
  match found with
  | Err e => if CodeOf e =! CodeNotFound then Ret (Err (NotFound "survey not found")) else Ret (Err e)
  | Ok resp =>
      if negb (Answerable resp) then Ret (Err (Conflict "this survey can no longer be answered"))
      else
        let tctx := WithTenant c (cr_TenantID resp) in
        try! survey := ask tctx (SurveyByID (cr_SurveyID resp)) in
        if negb (ValidScore (sv_Scale survey) (sb_Score input)) then
          Ret (Err (WithDetails {[ "score" := VStr ("out of range for scale " +:+ sv_Scale survey) ]}
                      (Validation "invalid score for this survey")))
        else
          let! now := ask c CsNow in
          ask tctx (ResponseUpdate (set_answer (Some (sb_Score input)) (trim_space (sb_Comment input)) (cr_SentAt resp)
                                      (Some now) StatusResponded now resp))
  end.

Definition ListResponses (c : Ctx) (page : PageRequest) : CsM (result (list CSATResponse)) :=
  try! _ := Ret (RequireTenant c) in ask c (ResponseList (Normalize page)).
End Service.

(** ** Surveys (service/survey_service.go) *)

Module Surveys.

Definition invalid {A} (msg field detail : string) : CsM (result A) :=
  Ret (Err (WithDetails {[ field := VStr detail ]} (Validation msg))).

Definition Create (c : Ctx) (cmd : CreateSurvey) : CsM (result CSATSurvey) :=
  try! t := Ret (RequireTenant c) in
  if blank (cs_Name cmd) then invalid "name is required" "name" "is required"
  else
    let scale := trim_space (cs_Scale cmd) in
    if negb (IsValidScale scale) then invalid "invalid scale" "scale" "must be csat_1_5|nps_0_10|thumbs"
    else if blank (cs_QuestionText cmd) then invalid "question_text is required" "question_text" "is required"
    else if cs_DelaySeconds cmd <? 0 then Ret (Err (Validation "delay_seconds cannot be negative"))
    else
      let! now := ask c CsNow in
      let! id := ask c CsNewID in
      let survey := mkCSATSurvey id t (trim_space (cs_Name cmd)) scale (trim_space (cs_QuestionText cmd))
                      SendOnConversationClosed (cs_SectorIDs cmd) (cs_DelaySeconds cmd)
                      (default true (cs_Enabled cmd)) now now in
      try! _ := ask c (SurveyCreate survey) in
      Ret (Ok survey).

Definition edit_text (v : option string) (old msg : string) : result string :=
  match v with
  | Some x => if blank x then Err (Validation msg) else Ok (trim_space x)
  | None => Ok old
  end.
Definition edit_scale (v : option string) (old : string) : result string :=
  match v with
  | Some x => if IsValidScale (trim_space x) then Ok (trim_space x) else Err (Validation "invalid scale")
  | None => Ok old
  end.
Definition edit_delay (v : option Z) (old : Z) : result Z :=
  match v with
  | Some d => if d <? 0 then Err (Validation "delay_seconds cannot be negative") else Ok d
  | None => Ok old
  end.

(** The fields of the patch, in their order; the first that is wrong refuses it. *)
Definition Update (c : Ctx) (id : string) (cmd : UpdateSurvey) : CsM (result CSATSurvey) :=
  try! _ := Ret (RequireTenant c) in
  try! sv := ask c (SurveyByID id) in
  try! name := Ret (edit_text (us_Name cmd) (sv_Name sv) "name cannot be empty") in
  try! scale := Ret (edit_scale (us_Scale cmd) (sv_Scale sv)) in
  try! question := Ret (edit_text (us_QuestionText cmd) (sv_QuestionText sv) "question_text cannot be empty") in
  try! delay := Ret (edit_delay (us_DelaySeconds cmd) (sv_DelaySeconds sv)) in
  let! now := ask c CsNow in
  let survey := mkCSATSurvey (sv_ID sv) (sv_TenantID sv) name scale question (sv_SendOn sv)
                  (default (sv_SectorIDs sv) (us_SectorIDs cmd)) delay (default (sv_Enabled sv) (us_Enabled cmd))
                  (sv_CreatedAt sv) now in
  try! _ := ask c (SurveyUpdate survey) in
  Ret (Ok survey).

Definition Delete (c : Ctx) (id : string) : CsM (result unit) :=
  try! _ := Ret (RequireTenant c) in
  try! _ := ask c (SurveyByID id) in
  ask c (SurveyDelete id).

Definition Get (c : Ctx) (id : string) : CsM (result CSATSurvey) :=
  try! _ := Ret (RequireTenant c) in ask c (SurveyByID id).

Definition List_ (c : Ctx) (page : PageRequest) : CsM (result (list CSATSurvey)) :=
  try! _ := Ret (RequireTenant c) in ask c (SurveyList (Normalize page)).

Definition SurveyNames (c : Ctx) (ids : list string) : CsM (result (gmap string string)) :=
  try! _ := Ret (RequireTenant c) in
  try! surveys := ask c (SurveysByIDs ids) in
  Ret (Ok (fold_left (fun m sv => <[sv_ID sv := sv_Name sv]> m) surveys ∅)).
End Surveys.
