(* ===== verification/CsatProps.v ===== *)
(** * Satisfaction surveys: what is stored of them, and an answer that is lost

    Over any interleaving of the operations: a response stays what it was created for, and an answer
    is only ever stored whole, with a score of a scale its survey had. What an interleaving may lose
    is the answer itself. *)
From S2P Require Import Prelude GoStrings AppError Prog Authz Shared ConvEntity Ports Auth Csat.

(** ** The store *)

(** The responses and surveys by id, and every scale a survey was stored with. *)
Record CsatView := mkCsatView {
  vw_responses : gmap string CSATResponse; vw_surveys : gmap string CSATSurvey; vw_scales : list (string * string) }.

Definition put_response (r : CSATResponse) (v : CsatView) : CsatView :=
  mkCsatView (<[cr_ID r := r]> (vw_responses v)) (vw_surveys v) (vw_scales v).
Definition put_survey (s : CSATSurvey) (v : CsatView) : CsatView :=
  mkCsatView (vw_responses v) (<[sv_ID s := s]> (vw_surveys v)) ((sv_ID s, sv_Scale s) :: vw_scales v).

(** What [Update] stores of a survey. *)
Definition stored_survey (old new : CSATSurvey) : CSATSurvey :=
  mkCSATSurvey (sv_ID old) (sv_TenantID old) (sv_Name new) (sv_Scale new) (sv_QuestionText new) (sv_SendOn new)
    (sv_SectorIDs new) (sv_DelaySeconds new) (sv_Enabled new) (sv_CreatedAt old) (sv_UpdatedAt new).

(** A write may fail before or after it took effect. *)
Definition csat_step (R : Type) (e : CsatPort R) (v : CsatView) (r : R) (v' : CsatView) : Prop :=
  match e in CsatPort R return R -> Prop with
  | ResponseCreate x => fun r => v' = v /\ is_ok r = false \/ vw_responses v !! cr_ID x = None /\ v' = put_response x v
  | ResponseUpdate x => fun r =>
      v' = v /\ is_ok r = false \/
      exists old, vw_responses v !! cr_ID x = Some old /\ v' = put_response (stored_response old x) v
  | ResponseByID id => fun r => v' = v /\ forall x, r = Ok x -> vw_responses v !! id = Some x
  | ResponseByToken _ | ResponseByConversation _ => fun r =>
      v' = v /\ forall x, r = Ok x -> exists id, vw_responses v !! id = Some x
  | SurveyCreate x => fun r => v' = v /\ is_ok r = false \/ vw_surveys v !! sv_ID x = None /\ v' = put_survey x v
  | SurveyUpdate x => fun r =>
      v' = v /\ is_ok r = false \/
      exists old, vw_surveys v !! sv_ID x = Some old /\ v' = put_survey (stored_survey old x) v
  | SurveyDelete id => fun r =>
      v' = v \/ v' = mkCsatView (vw_responses v) (delete id (vw_surveys v)) (vw_scales v)
  | SurveyByID id => fun r => v' = v /\ forall x, r = Ok x -> vw_surveys v !! id = Some x
  | _ => fun _ => v' = v
  end r.

Class CsatStore {S} (h : handler Ctx CsatPort S) (view : S -> CsatView) : Prop :=
  csat_answers : forall R c (e : CsatPort R) s, let '(r, s') := h R c e s in csat_step R e (view s) r (view s').

(** ** Coherence *)

Definition unanswered (r : CSATResponse) : Prop :=
  (cr_Status r = StatusSent \/ cr_Status r = StatusExpired) /\ cr_Score r = None /\ cr_RespondedAt r = None /\ cr_Comment r = "".

(** An answer is whole: a score of a scale the survey had, and when it was given. *)
Definition answered (scales : list (string * string)) (r : CSATResponse) : Prop :=
  cr_Status r = StatusResponded /\ is_Some (cr_RespondedAt r) /\
  exists score scale, cr_Score r = Some score /\ (cr_SurveyID r, scale) ∈ scales /\ ValidScore scale score = true.

Definition coherent (scales : list (string * string)) (r : CSATResponse) : Prop := unanswered r \/ answered scales r.

Definition usable_survey (s : CSATSurvey) : Prop := IsValidScale (sv_Scale s) = true /\ 0 <= sv_DelaySeconds s.

(** What the fields an update does not write say. *)
Definition same_origin (r r' : CSATResponse) : Prop :=
  cr_ID r' = cr_ID r /\ cr_TenantID r' = cr_TenantID r /\ cr_ConversationID r' = cr_ConversationID r /\
  cr_SurveyID r' = cr_SurveyID r /\ cr_AgentID r' = cr_AgentID r /\ cr_Token r' = cr_Token r.

Record coherent_view (v : CsatView) : Prop := {
  cw_keys : forall i r, vw_responses v !! i = Some r -> cr_ID r = i;
  cw_responses : forall i r, vw_responses v !! i = Some r -> coherent (vw_scales v) r;
  cw_survey_keys : forall i s, vw_surveys v !! i = Some s -> sv_ID s = i;
  cw_surveys : forall i s, vw_surveys v !! i = Some s -> usable_survey s /\ (i, sv_Scale s) ∈ vw_scales v;
}.

(** ** The contract of a program

    Its ghost state: the survey of each response it was told, and the scales of surveys. *)
Record Told := mkTold { td_surveys : list (string * string); td_scales : list (string * string) }.

Definition told_response (x : CSATResponse) (g : Told) : Told := mkTold ((cr_ID x, cr_SurveyID x) :: td_surveys g) (td_scales g).
Definition told_scale (i sc : string) (g : Told) : Told := mkTold (td_surveys g) ((i, sc) :: td_scales g).

Definition csat_pre (R : Type) (c : Ctx) (e : CsatPort R) (g : Told) : Prop :=
  match e with
  | ResponseCreate x => unanswered x
  | ResponseUpdate x => coherent (td_scales g) x /\ (cr_ID x, cr_SurveyID x) ∈ td_surveys g
  | SurveyCreate x | SurveyUpdate x => usable_survey x
  | _ => True
  end.

Definition csat_post (R : Type) (c : Ctx) (e : CsatPort R) (g : Told) (r : R) (g' : Told) : Prop :=
  match e in CsatPort R return R -> Prop with
  | ResponseByID _ | ResponseByToken _ | ResponseByConversation _ => fun r =>
      match r with
      | Ok x => (cr_Status x = StatusSent -> unanswered x) /\ g' = told_response x g
      | Err _ => g' = g
      end
  | SurveyByID i => fun r =>
      match r with Ok x => sv_ID x = i /\ usable_survey x /\ g' = told_scale i (sv_Scale x) g | Err _ => g' = g end
  | _ => fun _ => g' = g
  end r.

Definition csat_contract : contract Ctx CsatPort Told := pre_post csat_pre csat_post.

(** Every operation meets it. *)
Inductive CsatOp : Type :=
| DoClosed (c : Ctx) (conv : option Conversation)
| DoSend (c : Ctx) (task : SendTask)
| DoExpire (c : Ctx) (task : ExpireTask)
| DoSubmit (c : Ctx) (token : string) (input : SubmitResponse)
| DoListResponses (c : Ctx) (page : PageRequest)
| DoCreate (c : Ctx) (cmd : CreateSurvey)
| DoUpdate (c : Ctx) (id : string) (cmd : UpdateSurvey)
| DoDelete (c : Ctx) (id : string)
| DoGet (c : Ctx) (id : string)
| DoList (c : Ctx) (page : PageRequest)
| DoNames (c : Ctx) (ids : list string).

Definition quietly {A} (m : CsM A) : CsM (result unit) := let! _ := m in Ret (Ok tt).

Definition op_prog (s : CsatService) (op : CsatOp) : CsM (result unit) :=
  match op with
  | DoClosed c conv => quietly (OnConversationClosed s c conv)
  | DoSend c task => Send s c task
  | DoExpire c task => Expire c task
  | DoSubmit c token input => SubmitByToken c token input
  | DoListResponses c page => quietly (ListResponses c page)
  | DoCreate c cmd => quietly (Surveys.Create c cmd)
  | DoUpdate c id cmd => quietly (Surveys.Update c id cmd)
  | DoDelete c id => Surveys.Delete c id
  | DoGet c id => quietly (Surveys.Get c id)
  | DoList c page => quietly (Surveys.List_ c page)
  | DoNames c ids => quietly (Surveys.SurveyNames c ids)
  end.

Definition careful {A} (m : CsM A) : Prop := forall g, wp csat_contract m (fun _ _ => True) g.

#[export] Instance csat_mono : Monotone csat_contract.
Proof. apply pre_post_mono. Qed.

(** Calls that write nothing the contract speaks of. *)
Definition plain (R : Type) (c : Ctx) (e : CsatPort R) : Prop :=
  match e with ResponseCreate _ | ResponseUpdate _ | SurveyCreate _ | SurveyUpdate _ => False | _ => True end.

Lemma careful_bind {A B} (m : CsM A) (f : A -> CsM B) : careful m -> (forall a, careful (f a)) -> careful (bind m f).
Proof. intros Hm Hf g. apply wp_bind; [apply _|]. eapply wp_mono; [apply _| |apply Hm]. intros a g' _. apply Hf. Qed.

Lemma careful_bind_ok {A B} (m : CsM (result A)) (f : A -> CsM (result B)) :
  careful m -> (forall a, careful (f a)) -> careful (bind_ok m f).
Proof. intros Hm Hf. apply careful_bind; [done|]. intros [a|e]; [apply Hf|by intros g]. Qed.

Lemma careful_ask {R} c (e : CsatPort R) : plain R c e -> careful (ask c e).
Proof. intros He g. split; [by destruct e|done]. Qed.

Ltac careful_step :=
  first [ intros ?; exact I
        | apply careful_ask; exact I
        | apply careful_bind_ok; [|intros ?]
        | apply careful_bind; [|intros ?]
        | case_match ].

Lemma created_carefully s c conv : careful (OnConversationClosed s c conv).
Proof.
  unfold OnConversationClosed. destruct conv as [conv|]; [|by intros g]. repeat careful_step.
  intros g. split; [|done]. unfold csat_pre. cbn. unfold unanswered. cbn. auto.
Qed.

(** A response read as sent has no answer, and is written with or without one. *)
Lemma written_carefully {A} c x score comment sent responded status now (k : CsM (result A)) g :
  (cr_ID x, cr_SurveyID x) ∈ td_surveys g ->
  coherent (td_scales g) (set_answer score comment sent responded status now x) -> careful k ->
  wp csat_contract (try! _ := ask c (ResponseUpdate (set_answer score comment sent responded status now x)) in k) (fun _ _ => True) g.
Proof.
  intros Hx Hc Hk. apply wp_bind_ok; [apply _|]. apply wp_call; [by split|]. intros [[]|e] g' _; [apply Hk|done].
Qed.

Lemma updated_carefully c x score comment sent responded status now g :
  (cr_ID x, cr_SurveyID x) ∈ td_surveys g ->
  coherent (td_scales g) (set_answer score comment sent responded status now x) ->
  wp csat_contract (ask c (ResponseUpdate (set_answer score comment sent responded status now x))) (fun _ _ => True) g.
Proof. intros Hx Hc. apply wp_call; [by split|done]. Qed.

(** A response that was found, and is told to the program. *)
Lemma orphan_carefully c id (k : CSATResponse -> CsM (result unit)) :
  (forall x g, (cr_Status x = StatusSent -> unanswered x) -> (cr_ID x, cr_SurveyID x) ∈ td_surveys g ->
     wp csat_contract (k x) (fun _ _ => True) g) ->
  careful (or_orphan (ask c (ResponseByID id)) k).
Proof.
  intros Hk g. unfold or_orphan. apply wp_bind; [apply _|]. apply wp_call; [done|]. intros [x|e] g'; cbn.
  - intros [Hu ->]. apply Hk; [done|]. left.
  - intros _. by destruct (CodeOf e =! CodeNotFound).
Qed.

Lemma sent_unanswered status x now sent :
  status = StatusSent \/ status = StatusExpired -> unanswered x ->
  unanswered (set_answer (cr_Score x) (cr_Comment x) sent (cr_RespondedAt x) status now x).
Proof. intros Hs (_ & H1 & H2 & H3). done. Qed.

Lemma sent_carefully s c task : careful (Send s c task).
Proof.
  apply orphan_carefully. intros x g Hu Hx. destruct (cr_Status x <>! StatusSent) eqn:Hs; [done|].
  apply negb_false_iff, bool_decide_eq_true in Hs. destruct (match cr_SentAt x with Some _ => true | None => false end); [done|].
  cbn [orb]. apply wp_bind_ok; [apply _|]. apply wp_call; [done|]. intros [sv|e] g'; [|done]. intros (_ & _ & ->).
  apply wp_bind_ok; [apply _|]. apply wp_call; [done|]. intros [[]|e] g' ->; [|done].
  apply wp_bind; [apply _|]. apply wp_call; [done|]. intros now g' ->.
  apply written_carefully; [done| |repeat careful_step]. left. apply sent_unanswered; auto.
Qed.

Lemma expired_carefully c task : careful (Expire c task).
Proof.
  apply orphan_carefully. intros x g Hu Hx. destruct (cr_Status x <>! StatusSent) eqn:Hs; [done|].
  apply negb_false_iff, bool_decide_eq_true in Hs. apply wp_bind; [apply _|]. apply wp_call; [done|]. intros now g' ->.
  apply updated_carefully; [done|]. left. apply sent_unanswered; auto.
Qed.

Lemma submitted_carefully c token input : careful (SubmitByToken c token input).
Proof.
  intros g. unfold SubmitByToken. apply wp_bind; [apply _|]. apply wp_call; [done|]. intros [x|e] g'.
  - intros [Hu ->]. unfold Answerable. destruct (cr_Status x =! StatusSent) eqn:Hs; [|done]. cbn [negb].
    apply wp_bind_ok; [apply _|]. apply wp_call; [done|]. intros [sv|e] g'; [|done]. intros (Hi & _ & ->).
    destruct (ValidScore (sv_Scale sv) (sb_Score input)) eqn:Hv; [|done]. cbn [negb].
    apply wp_bind; [apply _|]. apply wp_call; [done|]. intros now g' ->.
    apply updated_carefully; [left|]. right. split; [done|]. split; [by eexists|].
    exists (sb_Score input), (sv_Scale sv). split; [done|]. split; [left|done].
  - intros _. by destruct (CodeOf e =! CodeNotFound).
Qed.

Lemma edit_scale_valid v old scale : Surveys.edit_scale v old = Ok scale -> IsValidScale old = true -> IsValidScale scale = true.
Proof. unfold Surveys.edit_scale. destruct v; [|by intros [= ->]]. destruct (IsValidScale (trim_space s)) eqn:H; [by intros [= <-]|done]. Qed.

Lemma edit_delay_valid v old d : Surveys.edit_delay v old = Ok d -> 0 <= old -> 0 <= d.
Proof. unfold Surveys.edit_delay. destruct v as [z|]; [|by intros [= ->]]. destruct (Z.ltb_spec z 0); [done|]. by intros [= <-]. Qed.

Lemma survey_created_carefully c cmd : careful (Surveys.Create c cmd).
Proof.
  unfold Surveys.Create, Surveys.invalid. apply careful_bind_ok; [by intros g|]. intros t.
  destruct (blank _); [by intros g|]. destruct (IsValidScale _) eqn:Hs; [|by intros g]. cbn [negb].
  destruct (blank _); [by intros g|]. destruct (Z.ltb_spec (cs_DelaySeconds cmd) 0); [by intros g|].
  apply careful_bind; [by apply careful_ask|]. intros now. apply careful_bind; [by apply careful_ask|]. intros id.
  apply careful_bind_ok; [|by intros a g]. intros g. split; [|done]. by split.
Qed.

Lemma survey_updated_carefully c id cmd : careful (Surveys.Update c id cmd).
Proof.
  unfold Surveys.Update. apply careful_bind_ok; [by intros g|]. intros _ g.
  apply wp_bind_ok; [apply _|]. apply wp_call; [done|]. intros [sv|e] g'; [|done]. intros (_ & [Hs Hd] & _).
  destruct (Surveys.edit_text (us_Name cmd) _ _); [|done]. cbn [bind_ok bind].
  destruct (Surveys.edit_scale (us_Scale cmd) _) as [scale|e] eqn:Hscale; [|done]. cbn [bind_ok bind].
  destruct (Surveys.edit_text (us_QuestionText cmd) _ _); [|done]. cbn [bind_ok bind].
  destruct (Surveys.edit_delay (us_DelaySeconds cmd) _) as [delay|e] eqn:Hdelay; [|done]. cbn [bind_ok bind].
  apply careful_bind; [by apply careful_ask|]. intros now. apply careful_bind_ok; [|by intros ? ?]. intros ?.
  split; [|done]. split; cbn; [by eapply edit_scale_valid|by eapply edit_delay_valid].
Qed.

Lemma op_careful s op : careful (op_prog s op).
Proof.
  destruct op; cbn [op_prog]; unfold quietly; repeat (apply careful_bind; [|by intros a g]).
  - apply created_carefully.
  - apply sent_carefully.
  - apply expired_carefully.
  - apply submitted_carefully.
  - unfold ListResponses. repeat careful_step.
  - apply survey_created_carefully.
  - apply survey_updated_carefully.
  - unfold Surveys.Delete. repeat careful_step.
  - unfold Surveys.Get. repeat careful_step.
  - unfold Surveys.List_. repeat careful_step.
  - unfold Surveys.SurveyNames. repeat careful_step.
Qed.

(** ** Interleavings *)

(** What was told is true, and nothing that was stored at the start changed what it is about. *)
Definition true_of (v : CsatView) (g : Told) : Prop :=
  (forall i sv, (i, sv) ∈ td_surveys g -> exists r, vw_responses v !! i = Some r /\ cr_SurveyID r = sv) /\
  (forall f, f ∈ td_scales g -> f ∈ vw_scales v).

Record Inv (v0 : CsatView) (gs : list Told) (v : CsatView) : Prop := {
  inv_coherent : coherent_view v;
  inv_told : Forall (true_of v) gs;
  inv_origins : forall i r, vw_responses v0 !! i = Some r -> exists r', vw_responses v !! i = Some r' /\ same_origin r r';
}.

Lemma same_origin_refl r : same_origin r r.
Proof. by split_and!. Qed.

Lemma same_origin_trans r r' r'' : same_origin r r' -> same_origin r' r'' -> same_origin r r''.
Proof. intros (?&?&?&?&?&?) (?&?&?&?&?&?). split_and!; congruence. Qed.

Lemma coherent_mono l l' r : (forall f, f ∈ l -> f ∈ l') -> coherent l r -> coherent l' r.
Proof. intros Hl [H|(Hs & Hr & z & sc & Hz & Hin & Hv)]; [by left|right]. split; [done|]. split; [done|]. exists z, sc. auto. Qed.

Lemma Inv_tell v0 gs v i g : Inv v0 gs v -> true_of v g -> Inv v0 (<[i := g]> gs) v.
Proof. intros [Hc Ht Ho] Hg. split; [done| |done]. by apply Forall_insert. Qed.

Lemma Inv_told v0 gs v i g : Inv v0 gs v -> gs !! i = Some g -> true_of v g.
Proof. intros [_ Ht _] Hi. by eapply Forall_lookup_1. Qed.

Lemma Inv_put_response v0 gs v x :
  Inv v0 gs v -> coherent (vw_scales v) x ->
  (forall old, vw_responses v !! cr_ID x = Some old -> same_origin old x) ->
  Inv v0 gs (put_response x v).
Proof.
  intros [[Hk Hr Hsk Hs] Ht Ho] Hx Hold. split.
  - split; cbn; [| |done|done]; intros i r [[<- <-]|[_ H]]%lookup_insert_Some; eauto.
  - eapply Forall_impl; [exact Ht|]. intros g [H1 H2]. split; [|done]. intros i sv Hin. destruct (H1 i sv Hin) as (r & Hl & <-). cbn.
    destruct (decide (cr_ID x = i)) as [<-|Hne].
    + rewrite lookup_insert_eq. exists x. split; [done|]. by apply Hold.
    + rewrite lookup_insert_ne by done. by exists r.
  - intros i r Hi. destruct (Ho i r Hi) as (r' & Hl & Hsame). cbn. destruct (decide (cr_ID x = i)) as [<-|Hne].
    + rewrite lookup_insert_eq. exists x. split; [done|]. eapply same_origin_trans; [exact Hsame|by apply Hold].
    + rewrite lookup_insert_ne by done. by exists r'.
Qed.

Lemma Inv_put_survey v0 gs v x : Inv v0 gs v -> usable_survey x -> Inv v0 gs (put_survey x v).
Proof.
  intros [[Hk Hr Hsk Hs] Ht Ho] Hx. split; [|eapply Forall_impl; [exact Ht|]|exact Ho].
  - split; cbn; [done| | |].
    + intros i r Hi. eapply coherent_mono; [|by eapply Hr]. intros f Hf. by right.
    + intros i r [[<- <-]|[_ H]]%lookup_insert_Some; eauto.
    + intros i r [[<- <-]|[_ H]]%lookup_insert_Some; [split; [done|left]|]. destruct (Hs i r H). split; [done|by right].
  - intros g [H1 H2]. split; [done|]. intros f Hf. right. by apply H2.
Qed.

Lemma Inv_delete_survey v0 gs v i :
  Inv v0 gs v -> Inv v0 gs (mkCsatView (vw_responses v) (delete i (vw_surveys v)) (vw_scales v)).
Proof. intros [[Hk Hr Hsk Hs] Ht Ho]. split; [|done|done]. split; cbn; [done|done| |]; intros j r [_ H]%lookup_delete_Some; eauto. Qed.

(** A response a program may write, over the stored one. *)
Lemma written_coherent v g x old :
  coherent_view v -> true_of v g -> coherent (td_scales g) x -> (cr_ID x, cr_SurveyID x) ∈ td_surveys g ->
  vw_responses v !! cr_ID x = Some old ->
  coherent (vw_scales v) (stored_response old x) /\ same_origin old (stored_response old x).
Proof.
  intros Hc [H1 H2] Hx Hs Hold. split; [|by split_and!]. destruct (H1 _ _ Hs) as (r & Hr & Hsv).
  rewrite Hold in Hr. injection Hr as <-.
  destruct Hx as [(? & ? & ? & ?)|(Hst & Ht & z & sc & Hz & Hin & Hv)]; [left; by split_and!|right].
  split; [done|]. split; [done|]. exists z, sc. split; [done|]. split; [|done]. cbn. rewrite Hsv. by apply H2.
Qed.

(** A response the store returns, told to the program that asked. *)
Lemma Inv_read v0 gs v i g x :
  Inv v0 gs v -> gs !! i = Some g -> (exists id, vw_responses v !! id = Some x) ->
  (cr_Status x = StatusSent -> unanswered x) /\ Inv v0 (<[i := told_response x g]> gs) v.
Proof.
  intros HI Hi (id & Hx). pose proof (inv_coherent _ _ _ HI) as [Hk Hr _ _]. split.
  - intros Hs. destruct (Hr _ _ Hx) as [H|(H & _)]; [done|]. rewrite Hs in H. done.
  - destruct (Inv_told _ _ _ _ _ HI Hi) as [H1 H2]. apply Inv_tell; [done|]. split; [|done].
    intros j sv [[= -> ->]|Hin]%elem_of_cons; [|by apply H1]. exists x. by rewrite (Hk _ _ Hx).
Qed.

Lemma csat_step_keeps v0 gs v i g R c (e : CsatPort R) r v' :
  Inv v0 gs v -> gs !! i = Some g -> csat_pre R c e g -> csat_step R e v r v' ->
  exists g', csat_post R c e g r g' /\ Inv v0 (<[i := g']> gs) v'.
Proof.
  intros HI Hi Hpre Hstep. pose proof (Inv_told _ _ _ _ _ HI Hi) as Hg.
  assert (Inv v0 (<[i := g]> gs) v) as Hsame by by apply Inv_tell.
  destruct e; cbn in Hpre, Hstep |- *; try (subst v'; by exists g).
  - exists g. split; [done|]. destruct Hstep as [[-> _]|[_ ->]]; [done|]. by apply Inv_put_survey.
  - exists g. split; [done|]. destruct Hstep as [[-> _]|(old & Hold & ->)]; [done|].
    apply Inv_put_survey; [done|]. destruct Hpre. by split.
  - exists g. split; [done|]. destruct Hstep as [-> | ->]; [done|by apply Inv_delete_survey].
  - destruct Hstep as [-> Hx]. destruct r as [x|e]; [|by exists g]. specialize (Hx x eq_refl).
    pose proof (inv_coherent _ _ _ HI) as [_ _ Hsk Hs]. destruct (Hs _ _ Hx) as [Hu Hin]. pose proof (Hsk _ _ Hx) as Hid.
    exists (told_scale id (sv_Scale x) g). split; [done|]. apply Inv_tell; [done|]. destruct Hg as [H1 H2]. split; [done|].
    intros f [->|Hf]%elem_of_cons; [done|by apply H2].
  - exists g. split; [done|]. destruct Hstep as [[-> _]|[Hn ->]]; [done|]. apply Inv_put_response; [done|by left|].
    intros old Hold. congruence.
  - exists g. split; [done|]. destruct Hpre as [Hx Hs]. destruct Hstep as [[-> _]|(old & Hold & ->)]; [done|].
    destruct (written_coherent v g r0 old (inv_coherent _ _ _ HI) Hg Hx Hs Hold) as [Hc Ho].
    apply Inv_put_response; [done|done|]. intros old' Hold'.
    pose proof (inv_coherent _ _ _ HI) as [Hk _ _ _]. pose proof (Hk _ _ Hold) as Hid. cbn in Hold'. congruence.
  - destruct Hstep as [-> Hx]. destruct r as [x|e]; [|by exists g].
    destruct (Inv_read v0 gs v i g x HI Hi) as [Hu HI']; [by eexists; apply Hx|]. by exists (told_response x g).
  - destruct Hstep as [-> Hx]. destruct r as [x|e]; [|by exists g].
    destruct (Inv_read v0 gs v i g x HI Hi) as [Hu HI']; [by apply Hx|]. by exists (told_response x g).
  - destruct Hstep as [-> Hx]. destruct r as [x|e]; [|by exists g].
    destruct (Inv_read v0 gs v i g x HI Hi) as [Hu HI']; [by apply Hx|]. by exists (told_response x g).
Qed.

(** C36. Answers are stored whole. From a coherent store, any operations on surveys and responses, their
    calls interleaved in any order and each possibly failing, only ever leave responses that are
    either unanswered - no score, no comment, no time of answer - or answered, with the time and a
    score of a scale their survey had; and every response stored at the start is still there, for
    the same conversation, survey, agent and token. *)
Theorem answers_are_stored_whole (s : CsatService) {S} (h : handler Ctx CsatPort S) (view : S -> CsatView)
    `{!CsatStore h view} (ops : list CsatOp) (s0 : S) (p : list (CsM (result unit))) (s1 : S) :
  coherent_view (view s0) -> steps h (map (op_prog s) ops, s0) (p, s1) ->
  coherent_view (view s1) /\
  forall i r, vw_responses (view s0) !! i = Some r -> exists r', vw_responses (view s1) !! i = Some r' /\ same_origin r r'.
Proof.
  intros H0 Hsteps.
  destruct (steps_wp h csat_contract (fun _ _ => True) (fun gs st => Inv (view s0) gs (view st)) (map (op_prog s) ops) s0 p s1
              (map (fun _ => mkTold [] []) ops)) as (gs' & _ & [Hc _ Ho]); [|exact Hsteps| | |done].
  - intros gs st i g R c e P Hi HI [Hpre HP]. pose proof (csat_answers R c e st) as Ha. destruct (h R c e st) as [r st'].
    destruct (csat_step_keeps _ _ _ _ _ _ _ _ _ _ HI Hi Hpre Ha) as (g' & Hp & HI'). exists g'. split; [by apply HP|done].
  - clear. induction ops as [|op ops IH]; cbn; constructor; [|done]. by apply op_careful.
  - split; [done| |intros i r Hr; exists r; split; [done|apply same_origin_refl]].
    apply Forall_forall. intros g (op & -> & _)%list_elem_of_fmap. split; cbn; [by intros ? ? ?%not_elem_of_nil|by intros ? ?%not_elem_of_nil].
Qed.

(** ** Satisfaction surveys: a world in memory, and an answer that is lost in it *)

Definition gone {A} : result A := Err (NotFound "resource not found").
Definition one {A} (o : option A) : result A := match o with Some a => Ok a | None => gone end.
Definition first_response (p : CSATResponse -> bool) (v : CsatView) : result CSATResponse :=
  one (snd <$> List.find (fun kr => p kr.2) (map_to_list (vw_responses v))).
Definition conflict {A} : result A := Err (Conflict "resource already exists").

(** Every call works; the clock stands still and identifiers are fixed. *)
Definition desk : handler Ctx CsatPort CsatView := fun R c e v =>
  match e in CsatPort R return R * CsatView with
  | CsNow => (7, v)
  | CsNewID => ("r2", v)
  | CsRandomToken => ("token2", v)
  | SurveyCreate x => match vw_surveys v !! sv_ID x with Some _ => (conflict, v) | None => (Ok tt, put_survey x v) end
  | SurveyUpdate x =>
      match vw_surveys v !! sv_ID x with Some old => (Ok tt, put_survey (stored_survey old x) v) | None => (gone, v) end
  | SurveyDelete id => (Ok tt, mkCsatView (vw_responses v) (delete id (vw_surveys v)) (vw_scales v))
  | SurveyByID id => (one (vw_surveys v !! id), v)
  | SurveysByIDs ids => (Ok (omap (fun i => vw_surveys v !! i) ids), v)
  | SurveyList _ => (Ok (map snd (map_to_list (vw_surveys v))), v)
  | SurveysEnabled => (Ok (filter (fun s => sv_Enabled s = true) (map snd (map_to_list (vw_surveys v)))), v)
  | ResponseCreate x => match vw_responses v !! cr_ID x with Some _ => (conflict, v) | None => (Ok tt, put_response x v) end
  | ResponseUpdate x =>
      match vw_responses v !! cr_ID x with
      | Some old => (Ok tt, put_response (stored_response old x) v)
      | None => (gone, v)
      end
  | ResponseByID id => (one (vw_responses v !! id), v)
  | ResponseByToken token => (first_response (fun r => cr_Token r =! token) v, v)
  | ResponseByConversation conv => (first_response (fun r => cr_ConversationID r =! conv) v, v)
  | ResponseList _ => (Ok (map snd (map_to_list (vw_responses v))), v)
  | SendToConversation _ _ => (Ok tt, v)
  | EnqueueSend _ _ => (Ok tt, v)
  | EnqueueExpire _ _ => (Ok tt, v)
  end.

Lemma first_response_found p v x : first_response p v = Ok x -> exists id, vw_responses v !! id = Some x.
Proof.
  unfold first_response. destruct (List.find _ _) as [[id r]|] eqn:Hf; [|done]. cbn. intros [= <-].
  apply List.find_some in Hf as [Hin _]. exists id. by apply elem_of_map_to_list, list_elem_of_In.
Qed.

#[export] Instance desk_store : CsatStore desk (fun v => v).
Proof.
  intros R c e v. destruct e; cbn; try done.
  - destruct (vw_surveys v !! sv_ID s) eqn:Hs; cbn; [by left|by right].
  - destruct (vw_surveys v !! sv_ID s) as [old|] eqn:Hs; cbn; [right; by exists old|by left].
  - by right.
  - split; [done|]. destruct (vw_surveys v !! id); cbn; [by intros ? [= <-]|done].
  - destruct (vw_responses v !! cr_ID r) eqn:Hs; cbn; [by left|by right].
  - destruct (vw_responses v !! cr_ID r) as [old|] eqn:Hs; cbn; [right; by exists old|by left].
  - split; [done|]. destruct (vw_responses v !! id); cbn; [by intros ? [= <-]|done].
  - split; [done|]. intros x. apply first_response_found.
  - split; [done|]. intros x. apply first_response_found.
Qed.

(** ** A survey on its way *)

Definition thumbs : CSATSurvey := mkCSATSurvey "s1" "t1" "closing" ScaleThumbs "How was it?" SendOnConversationClosed [] 0 true 0 0.
Definition waiting : CSATResponse :=
  mkCSATResponse "r1" "t1" "c1" "k1" "s1" "u1" "token" None "" None None StatusSent 1 1.
Definition started : CsatView := mkCsatView {[ "r1" := waiting ]} {[ "s1" := thumbs ]} [("s1", ScaleThumbs)].
Definition surveys_on : CsatService := NewService true 0 "https://chat".
Definition worker : Ctx := mkCtx (Some "t1") None None None.
Definition visitor : Ctx := mkCtx None None None None.

Definition ops : list CsatOp := [DoSend worker (mkSendTask "t1" "r1"); DoSubmit visitor "token" (mkSubmit 1 "fine")].

Lemma started_coherent : coherent_view started.
Proof.
  split; cbn.
  - intros i r [<- <-]%lookup_singleton_Some. done.
  - intros i r [<- <-]%lookup_singleton_Some. left. unfold unanswered. cbn. auto.
  - intros i r [<- <-]%lookup_singleton_Some. done.
  - intros i r [<- <-]%lookup_singleton_Some. split; [split; cbn; [done|lia]|left].
Qed.

(** Sent, then answered: the answer is stored. *)
Lemma answers_are_stored_whole_witness :
  let out := schedule desk [0; 0; 0; 0; 0; 0; 1; 1; 1; 1]%nat (map (op_prog surveys_on) ops) started in
  coherent_view out.2 /\ cr_Score <$> vw_responses out.2 !! "r1" = Some (Some 1).
Proof.
  intros out. split; [|vm_compute; reflexivity].
  apply (answers_are_stored_whole surveys_on desk (fun v => v) ops started out.1 out.2 started_coherent).
  apply schedule_reaches.
Defined.

(** The customer answers while the delivery that sent the link is being recorded: the answer is
    accepted, and the record of the delivery puts back the response it had read. The survey may be
    answered again. *)
Theorem an_answer_is_lost :
  let out := schedule desk [0; 0; 0; 1; 1; 1; 1; 0; 0; 0]%nat (map (op_prog surveys_on) ops) started in
  steps desk (map (op_prog surveys_on) ops, started) (out.1, out.2) /\
  out.1 !! 1%nat = Some (Ret (Ok tt)) /\ out.1 !! 0%nat = Some (Ret (Ok tt)) /\
  (fun r => (cr_Status r, cr_Score r, cr_SentAt r)) <$> vw_responses out.2 !! "r1" = Some (StatusSent, None, Some 7).
Proof. split; [apply schedule_reaches|]. split_and!; vm_compute; reflexivity. Qed.
