(* ===== verification/Notifications.v ===== *)
(** * Notifications (domain/notifications)

    The in-app notifications and their e-mails, the inbox of each user and its preferences, and
    the queue between who notifies and the workers. *)
From S2P Require Import Prelude GoStrings AppError Authz Shared ConvEntity Prog Ports Presence Iam.

(** ** Types and entities (entity/) *)

Definition TypeAssignedToYou : string := "conversation.assigned_to_you".
Definition TypeTransferredToYou : string := "conversation.transferred_to_you".
Definition TypeMention : string := "mention.internal_note".
Definition TypeSLAAtRisk : string := "sla.at_risk".
Definition TypeSLABreached : string := "sla.breached".
Definition TypeChannelError : string := "channel.connection_error".
Definition TypeChannelTemplatesUpdated : string := "channel.templates_updated".
Definition TypeDealStageMovedByAutomation : string := "deal.stage_moved_by_automation".
Definition TypeDealTaskAssigned : string := "deal.task_assigned".

Definition AllTypes : list string :=
  [TypeAssignedToYou; TypeTransferredToYou; TypeMention; TypeSLAAtRisk; TypeSLABreached; TypeChannelError;
   TypeChannelTemplatesUpdated; TypeDealStageMovedByAutomation; TypeDealTaskAssigned].

Definition IsValidType (t : string) : bool := existsb (fun x => x =! t) AllTypes.

Definition DefaultEmail (t : string) : bool := (t =! TypeSLAAtRisk) || (t =! TypeSLABreached) || (t =! TypeChannelError).

Record Notification := mkNotification {
  no_ID : string; no_TenantID : string; no_UserID : string; no_Type : string; no_Title : string; no_Body : string;
  no_Link : string; no_Read : bool; no_CreatedAt : Time; no_ReadAt : option Time }.

(** [None] is the nil map. *)
Record Preferences := mkPreferences {
  pf_TenantID : string; pf_UserID : string; pf_EmailByType : option (gmap string bool); pf_UpdatedAt : Time }.

(** The user's choice for the type, when there is one. *)
Definition choice (p : option Preferences) (t : string) : option bool :=
  match p with
  | Some p => match pf_EmailByType p with Some m => m !! t | None => None end
  | None => None
  end.

Definition EmailEnabled (p : option Preferences) (t : string) : bool :=
  match choice p t with Some v => v | None => DefaultEmail t end.

Definition Effective (p : option Preferences) : gmap string bool :=
  foldl (fun out t => <[t := EmailEnabled p t]> out) ∅ AllTypes.

(** ** Contracts (contracts/contracts.go, service/payload.go) *)

Definition RealtimeNotificationCreated : string := "notification.created".

Record SendTask := mkSendTask {
  sk_TenantID : string; sk_UserID : string; sk_Type : string; sk_Title : string; sk_Body : string; sk_Link : string }.
Record EmailTask := mkEmailTask { ek_TenantID : string; ek_NotificationID : string }.
Record EmailMessage := mkEmailMessage { em_To : string; em_Subject : string; em_Link : string; em_Preview : string }.
Record UpdatePreferences := mkUpdatePreferences { up_EmailByType : gmap string bool }.

Record realtimePayload := mkRealtimePayload {
  rp_ID : string; rp_Type : string; rp_Title : string; rp_Body : string; rp_Link : string; rp_Read : bool;
  rp_CreatedAt : Time }.

Definition newPayload (n : Notification) : realtimePayload :=
  mkRealtimePayload (no_ID n) (no_Type n) (no_Title n) (no_Body n) (no_Link n) (no_Read n) (no_CreatedAt n).

Inductive NotePort : Type -> Type :=
| NoNow : NotePort Time
| NoNewID : NotePort string
| NoteCreate (n : Notification) : NotePort (result unit)
| NoteByID (id : string) : NotePort (result Notification)
| NotesByUser (userID : string) (unreadOnly : bool) (page : PageRequest) : NotePort (result (list Notification))
| NoteMarkRead (id userID : string) (at_ : Time) : NotePort (result unit)
| NoteMarkAllRead (userID : string) (at_ : Time) : NotePort (result Z)
| NoteDeleteReadBefore (before : Time) : NotePort (result Z)
| PrefsByUser (userID : string) : NotePort (result Preferences)
| PrefsUpsert (p : Preferences) : NotePort (result unit)
| NoteUser (id : string) : NotePort (result Account)
| NotePublish (topic event : string) (data : realtimePayload) : NotePort (result unit)
| EnqueueEmail (task : EmailTask) : NotePort (result unit)
| SendMail (m : EmailMessage) : NotePort (result unit).

#[export] Instance notes_own : Embed NotePort NotePort := fun R e => e.

Abbreviation NoM := (prog Ctx NotePort).

(** ** The service (service/service.go) *)

Record NoteService := mkNoteService { nx_has_enqueuer : bool; nx_has_sender : bool }.

Definition got {A} (r : result A) : option A := match r with Ok a => Some a | Err _ => None end.

Definition actorUser (c : Ctx) : result string :=
  match RequireTenant c with
  | Err e => Err e
  | Ok _ =>
      match FromContext c with
      | Some ac => if ac_UserID ac =! "" then Err (Unauthorized "authentication required") else Ok (ac_UserID ac)
      | None => Err (Unauthorized "authentication required")
      end
  end.

(** The notification a task asks for. *)
Definition note_of (task : SendTask) (id : string) (now : Time) : Notification :=
  mkNotification id (sk_TenantID task) (sk_UserID task) (sk_Type task) (sk_Title task) (sk_Body task) (sk_Link task)
    false now None.

(** The e-mail of a notification: its title, link and type, never its body. *)
Definition mail_of (n : Notification) (u : Account) : EmailMessage :=
  mkEmailMessage (ua_Email u) (no_Title n) (no_Link n) (no_Type n).

Section Service.
Context (s : NoteService).

Definition Send (c : Ctx) (task : SendTask) : NoM (result unit) :=
  if sk_UserID task =! "" then Ret (Ok tt)
  else if negb (IsValidType (sk_Type task)) then Ret (Ok tt)
  else
    let! now := ask c NoNow in
    let! id := ask c NoNewID in
    let n := note_of task id now in
    try! _ := ask c (NoteCreate n) in
    do! ask c (NotePublish (TopicUser (sk_TenantID task) (sk_UserID task)) RealtimeNotificationCreated (newPayload n)) in
    let! prefs := ask c (PrefsByUser (sk_UserID task)) in
    do! (if EmailEnabled (got prefs) (no_Type n) && nx_has_enqueuer s
         then let! _ := ask c (EnqueueEmail (mkEmailTask (sk_TenantID task) (no_ID n))) in Ret tt
         else Ret tt) in
    Ret (Ok tt).

Definition SendEmail (c : Ctx) (task : EmailTask) : NoM (result unit) :=
  if negb (nx_has_sender s) then Ret (Ok tt)
  else
    try! n := ask c (NoteByID (ek_NotificationID task)) in
    try! user := ask c (NoteUser (no_UserID n)) in
    if ua_Email user =! "" then Ret (Ok tt) else ask c (SendMail (mail_of n user)).

Definition Cleanup (c : Ctx) (before : Time) : NoM (result Z) :=
  try! _ := Ret (RequireTenant c) in ask c (NoteDeleteReadBefore before).

Definition List_ (c : Ctx) (unreadOnly : bool) (page : PageRequest) : NoM (result (list Notification)) :=
  try! userID := Ret (actorUser c) in ask c (NotesByUser userID unreadOnly (Normalize page)).

Definition MarkRead (c : Ctx) (id : string) : NoM (result unit) :=
  try! userID := Ret (actorUser c) in
  let! now := ask c NoNow in
  ask c (NoteMarkRead id userID now).

Definition MarkAllRead (c : Ctx) : NoM (result Z) :=
  try! userID := Ret (actorUser c) in
  let! now := ask c NoNow in
  ask c (NoteMarkAllRead userID now).

(** The preferences stored, or none yet; another failure is the caller's. *)
Definition stored_preferences (c : Ctx) (userID : string) : NoM (result (option Preferences)) :=
  let! r := ask c (PrefsByUser userID) in
  match r with
  | Ok p => Ret (Ok (Some p))
  | Err e => if CodeOf e <>! CodeNotFound then Ret (Err e) else Ret (Ok None)
  end.

Definition Preferences_ (c : Ctx) : NoM (result Preferences) :=
  try! userID := Ret (actorUser c) in
  let tenantID := default "" (got (RequireTenant c)) in
  try! prefs := stored_preferences c userID in
  Ret (Ok (default (mkPreferences tenantID userID None 0) prefs)).

(** The types given, the known ones only, over the choices made before. *)
Definition patched (cmd : UpdatePreferences) (old : option (gmap string bool)) : gmap string bool :=
  filter (fun tv => IsValidType tv.1 = true) (up_EmailByType cmd) ∪ default ∅ old.

Definition UpdatePreferences_ (c : Ctx) (cmd : UpdatePreferences) : NoM (result Preferences) :=
  try! userID := Ret (actorUser c) in
  try! tenantID := Ret (RequireTenant c) in
  try! prefs := stored_preferences c userID in
  let prefs := default (mkPreferences tenantID userID (Some ∅) 0) prefs in
  let choices := patched cmd (pf_EmailByType prefs) in
  let! now := ask c NoNow in
  let prefs := mkPreferences (pf_TenantID prefs) (pf_UserID prefs) (Some choices) now in
  try! _ := ask c (PrefsUpsert prefs) in
  Ret (Ok prefs).

(** ** The queue (infra/notifications/enqueuer.go, app/start_routines/bootstrap_workers.go) *)

(** The task a request to notify becomes; without a recipient or a tenant there is none. *)
Definition enqueued (n : NotifyInput) : option SendTask :=
  if (nt_UserID n =! "") || (nt_TenantID n =! "") then None
  else Some (mkSendTask (nt_TenantID n) (nt_UserID n) (nt_Type n) (nt_Title n) (nt_Body n) (nt_Link n)).

(** The workers take the tenant from the task. *)
Definition send_ctx (c : Ctx) (task : SendTask) : Ctx := WithTenant c (sk_TenantID task).
Definition email_ctx (c : Ctx) (task : EmailTask) : Ctx :=
  WithAuthContext (WithTenant c (ek_TenantID task)) (SystemActor (ek_TenantID task)).
End Service.
