(* ===== verification/NotificationProps.v ===== *)
(** * Notifications: they reach their recipient and nobody else

    The store over time, what may leave the system, and a choice that is not heard. *)
From S2P Require Import Prelude GoStrings AppError Authz Shared ConvEntity Prog Ports Presence Iam Notifications.

(** ** The store *)

Abbreviation by_tenant := (@gmap (string * string) (prod_eq_dec : EqDecision (string * string)) prod_countable).

(** What leaves the system, with the tenant it leaves for. *)
Inductive Output : Type :=
| Mailed (tn : string) (m : EmailMessage)
| Queued (task : EmailTask)
| Shown (topic : string) (data : realtimePayload).

(** The notifications and every one ever stored, the preferences and all those ever stored, the
    users, and what was sent. *)
Record Post := mkPost {
  po_notes : by_tenant Notification; po_ever : by_tenant Notification; po_prefs : by_tenant Preferences;
  po_asked : list (string * Preferences); po_users : by_tenant Account; po_out : list Output }.

Definition put_note (n : Notification) (v : Post) : Post :=
  mkPost (<[(no_TenantID n, no_ID n) := n]> (po_notes v)) (<[(no_TenantID n, no_ID n) := n]> (po_ever v)) (po_prefs v)
    (po_asked v) (po_users v) (po_out v).
Definition set_notes (m : by_tenant Notification) (v : Post) : Post :=
  mkPost m (po_ever v) (po_prefs v) (po_asked v) (po_users v) (po_out v).
Definition put_prefs (tn : string) (p : Preferences) (v : Post) : Post :=
  let p := mkPreferences tn (pf_UserID p) (pf_EmailByType p) (pf_UpdatedAt p) in
  mkPost (po_notes v) (po_ever v) (<[(tn, pf_UserID p) := p]> (po_prefs v)) ((tn, p) :: po_asked v) (po_users v) (po_out v).
Definition sent (o : Output) (v : Post) : Post :=
  mkPost (po_notes v) (po_ever v) (po_prefs v) (po_asked v) (po_users v) (o :: po_out v).

Definition read_at (at_ : Time) (n : Notification) : Notification :=
  mkNotification (no_ID n) (no_TenantID n) (no_UserID n) (no_Type n) (no_Title n) (no_Body n) (no_Link n) true
    (no_CreatedAt n) (Some at_).

(** Some notifications of the user are marked read; some of those read and old are removed. *)
Definition marks (tn user : string) (m m' : by_tenant Notification) : Prop :=
  forall k, m' !! k = m !! k \/
    exists n at_, m !! k = Some n /\ k.1 = tn /\ no_UserID n = user /\ m' !! k = Some (read_at at_ n).
Definition drops (tn : string) (before : Time) (m m' : by_tenant Notification) : Prop :=
  forall k, m' !! k = m !! k \/
    exists n, m !! k = Some n /\ k.1 = tn /\ no_Read n = true /\ no_CreatedAt n <= before /\ m' !! k = None.

(** What a call does to the store and answers; a write that fails may have been applied. *)
Definition note_step {R} (c : Ctx) (e : NotePort R) (v : Post) (r : R) (v' : Post) : Prop :=
  match e in NotePort R return R -> Prop with
  | NoteCreate n => fun r =>
      (v' = v /\ is_ok r = false) \/
      ((exists tn, RequireTenant c = Ok tn) /\ po_ever v !! (no_TenantID n, no_ID n) = None /\ v' = put_note n v)
  | NoteByID id => fun r =>
      v' = v /\ forall n, r = Ok n -> exists tn, RequireTenant c = Ok tn /\ po_notes v !! (tn, id) = Some n
  | NotesByUser user unread _ => fun r =>
      v' = v /\ forall l n, r = Ok l -> n ∈ l ->
        exists tn id, RequireTenant c = Ok tn /\ po_notes v !! (tn, id) = Some n /\ no_UserID n = user /\
          (unread = true -> no_Read n = false)
  | NoteMarkRead _ user _ => fun _ =>
      v' = v \/ exists tn m, RequireTenant c = Ok tn /\ marks tn user (po_notes v) m /\ v' = set_notes m v
  | NoteMarkAllRead user _ => fun _ =>
      v' = v \/ exists tn m, RequireTenant c = Ok tn /\ marks tn user (po_notes v) m /\ v' = set_notes m v
  | NoteDeleteReadBefore before => fun _ =>
      v' = v \/ exists tn m, RequireTenant c = Ok tn /\ drops tn before (po_notes v) m /\ v' = set_notes m v
  | PrefsByUser user => fun r =>
      v' = v /\ forall p, r = Ok p -> exists tn, RequireTenant c = Ok tn /\ po_prefs v !! (tn, user) = Some p
  | PrefsUpsert p => fun r =>
      (v' = v /\ is_ok r = false) \/ exists tn, RequireTenant c = Ok tn /\ v' = put_prefs tn p v
  | NoteUser id => fun r =>
      v' = v /\ forall u, r = Ok u -> exists tn, RequireTenant c = Ok tn /\ po_users v !! (tn, id) = Some u
  | NotePublish topic _ data => fun _ => v' = v \/ v' = sent (Shown topic data) v
  | EnqueueEmail task => fun _ => v' = v \/ v' = sent (Queued task) v
  | SendMail m => fun _ => v' = v \/ v' = sent (Mailed (default "" (ctx_tenant c)) m) v
  | _ => fun _ => v' = v
  end r.

Class NoteStore {S} (h : handler Ctx NotePort S) (view : S -> Post) : Prop :=
  note_answers : forall R c (e : NotePort R) st, note_step c e (view st) (h R c e st).1 (view (h R c e st).2).

(** Keys are what is stored under them; what is stored was stored once, with the same content. *)
Definition same_content (n n' : Notification) : Prop :=
  no_ID n' = no_ID n /\ no_TenantID n' = no_TenantID n /\ no_UserID n' = no_UserID n /\ no_Type n' = no_Type n /\
  no_Title n' = no_Title n /\ no_Body n' = no_Body n /\ no_Link n' = no_Link n /\ no_CreatedAt n' = no_CreatedAt n.

Record coherent_post (v : Post) : Prop := {
  cp_keys : forall tn i n, po_notes v !! (tn, i) = Some n -> no_ID n = i /\ no_TenantID n = tn;
  cp_ever : forall k n, po_notes v !! k = Some n -> exists n0, po_ever v !! k = Some n0 /\ same_content n0 n;
  cp_prefs : forall tn u p, po_prefs v !! (tn, u) = Some p -> pf_UserID p = u /\ (tn, p) ∈ po_asked v;
}.

(** ** Operations, as the workers and the handlers call them *)

Inductive NoteOp : Type :=
| DoSend (c : Ctx) (task : SendTask)
| DoSendEmail (c : Ctx) (task : EmailTask)
| DoCleanup (c : Ctx) (before : Time)
| DoList (c : Ctx) (unreadOnly : bool) (page : PageRequest)
| DoMarkRead (c : Ctx) (id : string)
| DoMarkAllRead (c : Ctx)
| DoPreferences (c : Ctx)
| DoUpdatePreferences (c : Ctx) (cmd : UpdatePreferences).

Definition op_ctx (op : NoteOp) : Ctx :=
  match op with
  | DoSend c task => send_ctx c task
  | DoSendEmail c task => email_ctx c task
  | DoCleanup c _ | DoList c _ _ | DoMarkRead c _ | DoMarkAllRead c | DoPreferences c | DoUpdatePreferences c _ => c
  end.

Definition silently {A} (m : NoM (result A)) : NoM (result unit) := try! _ := m in Ret (Ok tt).

Definition op_prog (s : NoteService) (op : NoteOp) : NoM (result unit) :=
  let c := op_ctx op in
  match op with
  | DoSend _ task => Send s c task
  | DoSendEmail _ task => SendEmail s c task
  | DoCleanup _ before => silently (Cleanup c before)
  | DoList _ unread page => silently (List_ c unread page)
  | DoMarkRead _ id => MarkRead c id
  | DoMarkAllRead _ => silently (MarkAllRead c)
  | DoPreferences _ => silently (Preferences_ c)
  | DoUpdatePreferences _ cmd => silently (UpdatePreferences_ c cmd)
  end.

(** Some operation is the user's own marking, the tenant's cleaning, the task of the notification,
    the user's change of preferences. *)
Definition marker (op : NoteOp) (tn user : string) : Prop :=
  match op with
  | DoMarkRead c _ | DoMarkAllRead c => RequireTenant c = Ok tn /\ actorUser c = Ok user
  | _ => False
  end.
Definition cleaner (op : NoteOp) (tn : string) (created : Time) : Prop :=
  match op with DoCleanup c before => RequireTenant c = Ok tn /\ created <= before | _ => False end.
Definition task_of (op : NoteOp) (n : Notification) : Prop :=
  match op with
  | DoSend c task => IsValidType (sk_Type task) = true /\ sk_UserID task <> "" /\
      no_TenantID n = sk_TenantID task /\ no_UserID n = sk_UserID task /\ no_Type n = sk_Type task /\
      no_Title n = sk_Title task /\ no_Body n = sk_Body task /\ no_Link n = sk_Link task
  | _ => False
  end.
Definition chooser (op : NoteOp) (tn user : string) : Prop :=
  match op with DoUpdatePreferences c _ => RequireTenant c = Ok tn /\ actorUser c = Ok user | _ => False end.
Definition some_op (ops : list NoteOp) (P : NoteOp -> Prop) : Prop := exists op, op ∈ ops /\ P op.

(** What may leave the system: the e-mail of a notification that was stored, to its recipient,
    whatever its body; the task of an e-mail of a type that is mailed by default or that the recipient once
    asked for; a notification, on its recipient's own topic. *)
Definition justified (v : Post) (o : Output) : Prop :=
  match o with
  | Mailed tn m => exists i n u, po_ever v !! (tn, i) = Some n /\ po_users v !! (tn, no_UserID n) = Some u /\
      m = mkEmailMessage (ua_Email u) (no_Title n) (no_Link n) (no_Type n) /\ ua_Email u <> ""
  | Queued task => exists n, po_ever v !! (ek_TenantID task, ek_NotificationID task) = Some n /\
      (DefaultEmail (no_Type n) = true \/
       exists p, (no_TenantID n, p) ∈ po_asked v /\ pf_UserID p = no_UserID n /\ choice (Some p) (no_Type n) = Some true)
  | Shown topic data => exists k n0 n, po_ever v !! k = Some n0 /\ same_content n0 n /\
      topic = TopicUser (no_TenantID n) (no_UserID n) /\ data = newPayload n
  end.

(** ** The contract of an operation *)

Record Told := mkTold {
  td_op : NoteOp; td_notes : list Notification; td_users : list (string * Account); td_prefs : list Preferences }.

Definition starting (op : NoteOp) : Told := mkTold op [] [] [].
Definition told_note (n : Notification) (g : Told) : Told := mkTold (td_op g) (n :: td_notes g) (td_users g) (td_prefs g).
Definition told_user (i : string) (u : Account) (g : Told) : Told := mkTold (td_op g) (td_notes g) ((i, u) :: td_users g) (td_prefs g).
Definition told_prefs (p : Preferences) (g : Told) : Told := mkTold (td_op g) (td_notes g) (td_users g) (p :: td_prefs g).

Definition note_pre (R : Type) (c : Ctx) (e : NotePort R) (g : Told) : Prop :=
  c = op_ctx (td_op g) /\
  match e with
  | NoteCreate n => task_of (td_op g) n /\ ctx_tenant c = Some (no_TenantID n) /\ no_Read n = false
  | NoteMarkRead _ user _ | NoteMarkAllRead user _ => forall tn, RequireTenant c = Ok tn -> marker (td_op g) tn user
  | NoteDeleteReadBefore before => forall tn, RequireTenant c = Ok tn -> forall t, t <= before -> cleaner (td_op g) tn t
  | PrefsUpsert p => forall tn, RequireTenant c = Ok tn -> chooser (td_op g) tn (pf_UserID p)
  | NotePublish topic _ data => exists n, n ∈ td_notes g /\ no_Read n = false /\
      topic = TopicUser (no_TenantID n) (no_UserID n) /\ data = newPayload n
  | EnqueueEmail task => exists n, n ∈ td_notes g /\ task = mkEmailTask (no_TenantID n) (no_ID n) /\
      (DefaultEmail (no_Type n) = true \/
       exists p, p ∈ td_prefs g /\ pf_UserID p = no_UserID n /\ choice (Some p) (no_Type n) = Some true)
  | SendMail m => exists n u, n ∈ td_notes g /\ (no_UserID n, u) ∈ td_users g /\ m = mail_of n u /\ ua_Email u <> ""
  | _ => True
  end.

Definition note_post (R : Type) (c : Ctx) (e : NotePort R) (g : Told) (r : R) (g' : Told) : Prop :=
  match e in NotePort R return R -> Prop with
  | NoteCreate n => fun r => g' = match r with Ok _ => told_note n g | Err _ => g end
  | NoteByID _ => fun r => g' = match r with Ok n => told_note n g | Err _ => g end
  | NoteUser i => fun r => g' = match r with Ok u => told_user i u g | Err _ => g end
  | PrefsByUser u => fun r => match r with Ok p => pf_UserID p = u /\ g' = told_prefs p g | Err _ => g' = g end
  | _ => fun _ => g' = g
  end r.

Definition note_contract : contract Ctx NotePort Told := pre_post note_pre note_post.

#[export] Instance note_mono : Monotone note_contract.
Proof. apply pre_post_mono. Qed.

Definition allowed (op : NoteOp) {A} (m : NoM A) : Prop := forall g, g = starting op -> wp note_contract m (fun _ _ => True) g.

Lemma actorUser_tenant c u : actorUser c = Ok u -> exists tn, RequireTenant c = Ok tn.
Proof. unfold actorUser. destruct (RequireTenant c) as [tn|]; [|done]. by exists tn. Qed.

Lemma send_allowed s c task : allowed (DoSend c task) (Send s (send_ctx c task) task).
Proof.
  intros g ->. unfold Send. destruct (sk_UserID task =! "") eqn:Hu; [done|]. apply bool_decide_eq_false in Hu.
  destruct (IsValidType (sk_Type task)) eqn:Hty; [|done]. cbn [negb].
  apply wp_bind; [apply _|]. apply wp_call; [done|]. intros now g1 Hg1. cbn in Hg1. subst g1.
  apply wp_bind; [apply _|]. apply wp_call; [done|]. intros id g1 Hg1. cbn in Hg1. subst g1.
  apply wp_bind_ok; [apply _|]. apply wp_call; [split; [done|]; by split_and!|].
  intros [[]|e] g1 ->; [|done]. set (n := note_of task id now).
  apply wp_bind; [apply _|]. apply wp_call; [split; [done|]; exists n; split; [left|done]|]. intros r g1 Hg1. cbn in Hg1. subst g1.
  apply wp_bind; [apply _|]. apply wp_call; [done|]. intros prefs g2 Hg2.
  destruct (EmailEnabled (got prefs) (no_Type n)) eqn:He; [|done]. destruct (nx_has_enqueuer s); [|done]. cbn [andb].
  apply wp_bind; [apply _|]. apply wp_bind; [apply _|]. apply wp_call; [|done].
  unfold EmailEnabled in He. destruct prefs as [p|e]; cbn in Hg2.
  - destruct Hg2 as [Hp ->]. split; [done|]. exists n. split; [left|]. split; [done|].
    destruct (choice (got (Ok p)) (no_Type n)) as [b|] eqn:Hb; [right; subst b|by left].
    exists p. split; [left|done].
  - subst g2. split; [done|]. exists n. split; [left|]. split; [done|]. by left.
Qed.

Lemma send_email_allowed s c task : allowed (DoSendEmail c task) (SendEmail s (email_ctx c task) task).
Proof.
  intros g ->. unfold SendEmail. destruct (negb (nx_has_sender s)); [done|].
  apply wp_bind_ok; [apply _|]. apply wp_call; [done|]. intros [n|e] g1 ->; [|done].
  apply wp_bind_ok; [apply _|]. apply wp_call; [done|]. intros [u|e] g1 ->; [|done].
  destruct (ua_Email u =! "") eqn:He; [done|]. apply bool_decide_eq_false in He.
  apply wp_call; [|done]. split; [done|]. exists n, u. split; [left|]. split; [left|done].
Qed.

Lemma update_preferences_allowed c cmd : allowed (DoUpdatePreferences c cmd) (UpdatePreferences_ c cmd).
Proof.
  intros g ->. unfold UpdatePreferences_, stored_preferences. destruct (actorUser c) as [u|] eqn:Hu; [|done].
  destruct (RequireTenant c) as [tn|] eqn:Htn; [|done]. cbn [bind_ok bind].
  apply wp_bind_ok; [apply _|]. apply wp_bind; [apply _|]. apply wp_call; [done|].
  assert (forall p g, td_op g = DoUpdatePreferences c cmd -> pf_UserID p = u ->
    wp note_contract (try! _ := ask c (PrefsUpsert p) in Ret (Ok p)) (fun _ _ => True) g) as Hput.
  { intros p g Hop Hp. apply wp_bind_ok; [apply _|]. apply wp_call; [|by intros [[]|e] g' _].
    split; [by rewrite Hop|]. rewrite Hop. intros tn' Htn'. split; [done|by rewrite Hp]. }
  intros [p|e] g1 Hg1; cbn in Hg1.
  - destruct Hg1 as [Hp ->]. cbn [wp]. apply wp_bind; [apply _|]. apply wp_call; [done|]. intros now g1 Hg1. cbn in Hg1. subst g1.
    by apply Hput.
  - subst g1. destruct (CodeOf e <>! CodeNotFound); [done|]. cbn [wp].
    apply wp_bind; [apply _|]. apply wp_call; [done|]. intros now g1 Hg1. cbn in Hg1. subst g1. by apply Hput.
Qed.

Lemma op_allowed s op : allowed op (op_prog s op).
Proof.
  assert (forall A (m : NoM (result A)), allowed op m -> allowed op (silently m)) as Hq.
  { intros A m Hm g Hg. apply wp_bind_ok; [apply _|]. eapply wp_mono; [apply _| |by apply Hm]. by intros [a|e]. }
  destruct op; cbn [op_prog op_ctx]; try apply Hq.
  - apply send_allowed.
  - apply send_email_allowed.
  - intros g ->. unfold Cleanup. destruct (RequireTenant c); [|done]. apply wp_call; [by split|done].
  - intros g ->. unfold List_. destruct (actorUser c); [|done]. by apply wp_call.
  - intros g ->. unfold MarkRead. destruct (actorUser c) eqn:Hu; [|done]. cbn [bind_ok bind].
    apply wp_bind; [apply _|]. apply wp_call; [done|]. intros now g1 Hg1. cbn in Hg1. subst g1. apply wp_call; [by split|done].
  - intros g ->. unfold MarkAllRead. destruct (actorUser c) eqn:Hu; [|done]. cbn [bind_ok bind].
    apply wp_bind; [apply _|]. apply wp_call; [done|]. intros now g1 Hg1. cbn in Hg1. subst g1. apply wp_call; [by split|done].
  - intros g ->. unfold Preferences_, stored_preferences. destruct (actorUser c); [|done]. cbn [bind_ok bind].
    apply wp_bind_ok; [apply _|]. apply wp_bind; [apply _|]. apply wp_call; [done|]. intros [p|e] g1 _; [done|].
    by destruct (CodeOf e <>! CodeNotFound).
  - apply update_preferences_allowed.
Qed.

(** ** Interleavings *)

Lemma same_content_refl n : same_content n n.
Proof. by split_and!. Qed.

Lemma same_content_trans a b c : same_content a b -> same_content b c -> same_content a c.
Proof. unfold same_content. intros. destruct_and!. split_and!; congruence. Qed.

Lemma same_content_read at_ n : same_content n (read_at at_ n).
Proof. by split_and!. Qed.

Lemma same_content_task op n n' : same_content n n' -> task_of op n -> task_of op n'.
Proof.
  destruct op as [c task| | | | | | |]; try done. intros Hs (Hv & Hu & Ht). split; [done|]. split; [done|].
  unfold same_content in *. cbn in *. destruct_and!. split_and!; congruence.
Qed.

(** Nothing that was ever stored is forgotten, nor are the users. *)
Record later (v v' : Post) : Prop := {
  la_ever : forall k n, po_ever v !! k = Some n -> po_ever v' !! k = Some n;
  la_asked : forall x, x ∈ po_asked v -> x ∈ po_asked v';
  la_users : po_users v' = po_users v;
}.

Lemma later_refl v : later v v.
Proof. by split. Qed.

Lemma justified_later v v' o : later v v' -> justified v o -> justified v' o.
Proof.
  intros [He Ha Hu]. destruct o; cbn.
  - intros (i & n & u & Hn & Hl & H). exists i, n, u. rewrite Hu. auto.
  - intros (n & Hn & [H|(p & Hp & H)]); exists n; split; auto. right. exists p. auto.
  - intros (k & n0 & n & Hn & H). exists k, n0, n. auto.
Qed.

Section Interleaved.
Context (v0 : Post) (ops : list NoteOp).

Definition marked (tn : string) (n : Notification) : Prop := some_op ops (fun op => marker op tn (no_UserID n)).

(** What a stored notification comes from, and what became of one that was stored. *)
Definition from (tn i : string) (n : Notification) : Prop :=
  (exists n0, po_notes v0 !! (tn, i) = Some n0 /\ same_content n0 n /\ (n = n0 \/ marked tn n)) \/
  (some_op ops (fun op => task_of op n) /\ (no_Read n = false \/ marked tn n)).
Definition kept (m : by_tenant Notification) (tn i : string) (n : Notification) : Prop :=
  (exists n', m !! (tn, i) = Some n' /\ same_content n n' /\ (n' = n \/ marked tn n)) \/
  (some_op ops (fun op => cleaner op tn (no_CreatedAt n)) /\ (no_Read n = true \/ marked tn n)).

Definition true_of (v : Post) (g : Told) : Prop :=
  let c := op_ctx (td_op g) in
  td_op g ∈ ops /\
  (forall n, n ∈ td_notes g -> RequireTenant c = Ok (no_TenantID n) /\
     exists n0, po_ever v !! (no_TenantID n, no_ID n) = Some n0 /\ same_content n0 n) /\
  (forall i u, (i, u) ∈ td_users g -> exists tn, RequireTenant c = Ok tn /\ po_users v !! (tn, i) = Some u) /\
  (forall p, p ∈ td_prefs g -> exists tn, RequireTenant c = Ok tn /\ (tn, p) ∈ po_asked v).

Record Inv (gs : list Told) (v : Post) : Prop := {
  inv_coherent : coherent_post v;
  inv_told : Forall (true_of v) gs;
  inv_later : later v0 v;
  inv_from : forall tn i n, po_notes v !! (tn, i) = Some n -> from tn i n;
  inv_kept : forall tn i n, po_notes v0 !! (tn, i) = Some n -> kept (po_notes v) tn i n;
  inv_out : forall o, o ∈ po_out v -> o ∈ po_out v0 \/ justified v o;
  inv_prefs : forall tn u p, po_prefs v !! (tn, u) = Some p ->
    po_prefs v0 !! (tn, u) = Some p \/ some_op ops (fun op => chooser op tn u);
}.

Lemma true_of_later v v' g : later v v' -> true_of v g -> true_of v' g.
Proof.
  intros [He Ha Hu] (H1 & H2 & H3 & H4). split_and!; [done| | |].
  - intros n Hn. destruct (H2 n Hn) as (Ht & n0 & Hl & Hs). split; [done|]. exists n0. auto.
  - intros i u Hi. destruct (H3 i u Hi) as (tn & Ht & Hl). exists tn. by rewrite Hu.
  - intros p Hp. destruct (H4 p Hp) as (tn & Ht & Hl). exists tn. auto.
Qed.

Lemma later_trans v v' v'' : later v v' -> later v' v'' -> later v v''.
Proof. intros [? ? Hu] [? ? Hu']. split; [auto..|]. by rewrite Hu'. Qed.

Lemma note_tell gs v i g : Inv gs v -> true_of v g -> Inv (<[i := g]> gs) v.
Proof. intros [? ? ? ? ? ? ?] Hg. split; try done. by apply Forall_insert. Qed.

(** The notifications change, nothing else. *)
Lemma Inv_notes gs v m :
  Inv gs v ->
  (forall tn i n', m !! (tn, i) = Some n' -> exists n, po_notes v !! (tn, i) = Some n /\ same_content n n' /\ (n' = n \/ marked tn n)) ->
  (forall tn i n, po_notes v !! (tn, i) = Some n -> kept m tn i n) ->
  Inv gs (set_notes m v).
Proof.
  intros [[Hk He Hp] Ht Hl Hf Hkept Ho Hpr] Hm Hn. split; cbn; try done.
  - split; cbn; [| |done].
    + intros tn i n' H. destruct (Hm _ _ _ H) as (n & Hi & Hs & _). destruct (Hk _ _ _ Hi). unfold same_content in Hs. destruct_and!. split; congruence.
    + intros [tn i] n' H. destruct (Hm _ _ _ H) as (n & Hi & Hs & _). destruct (He _ _ Hi) as (n0 & H0 & Hs0). exists n0.
      split; [done|]. by eapply same_content_trans.
  - by destruct Hl.
  - intros tn i n' H. destruct (Hm _ _ _ H) as (n & Hi & Hs & Hr). assert (no_UserID n' = no_UserID n) as Hu by by unfold same_content in Hs; destruct_and!.
    assert (marked tn n -> marked tn n') as Hmk by by unfold marked; rewrite Hu.
    destruct (Hf _ _ _ Hi) as [(n0 & H0 & Hs0 & Hr0)|[Htask Hr0]].
    + left. exists n0. split; [done|]. split; [by eapply same_content_trans|]. destruct Hr as [->|Hr]; [|auto]. destruct Hr0; auto.
    + right. split; [|destruct Hr as [->|Hr]; [destruct Hr0|]; auto].
      destruct Htask as (op & Hop & Htask). exists op. split; [done|]. by eapply same_content_task.
  - intros tn i n H. destruct (Hkept _ _ _ H) as [(n1 & H1 & Hs1 & Hr1)|Hc]; [|by right].
    assert (no_UserID n1 = no_UserID n /\ no_CreatedAt n1 = no_CreatedAt n) as [Hu Hc] by by unfold same_content in Hs1; destruct_and!.
    assert (marked tn n1 -> marked tn n) as Hmk by by unfold marked; rewrite Hu.
    destruct (Hn _ _ _ H1) as [(n2 & H2 & Hs2 & Hr2)|[Hcl Hr2]].
    + left. exists n2. split; [done|]. split; [by eapply same_content_trans|]. destruct Hr2 as [->|Hr2]; [|auto]. destruct Hr1 as [->|]; auto.
    + right. rewrite Hc in Hcl. split; [done|]. destruct Hr2 as [Hr2|Hr2]; [|auto]. destruct Hr1 as [->|]; auto.
Qed.

Lemma Inv_marks gs v tn user m op :
  Inv gs v -> op ∈ ops -> marker op tn user -> marks tn user (po_notes v) m -> Inv gs (set_notes m v).
Proof.
  intros HI Hop Hmk Hm.
  assert (forall k n, po_notes v !! k = Some n -> exists n', m !! k = Some n' /\ same_content n n' /\ (n' = n \/ marked k.1 n)) as Hstep.
  { intros k n Hi. destruct (Hm k) as [H|(n1 & at_ & Hn1 & Hk & Hu & Hr)]; [exists n; rewrite H; split; [done|]; split; [apply same_content_refl|by left]|].
    assert (n1 = n) as -> by congruence. exists (read_at at_ n). split; [done|]. split; [apply same_content_read|right]. exists op. by rewrite Hk, Hu. }
  apply Inv_notes; [done| |intros tn' i n Hi; left; by apply Hstep].
  intros tn' i n' Hi. destruct (po_notes v !! (tn', i)) as [n|] eqn:Hn.
  - destruct (Hstep _ _ Hn) as (n1 & Hn1 & Hs & Hr). assert (n1 = n') as -> by congruence. exists n. auto.
  - destruct (Hm (tn', i)) as [H|(n1 & at_ & Hn1 & _)]; congruence.
Qed.

Lemma Inv_drops gs v tn before m op :
  Inv gs v -> op ∈ ops -> (forall t, t <= before -> cleaner op tn t) -> drops tn before (po_notes v) m -> Inv gs (set_notes m v).
Proof.
  intros HI Hop Hcl Hm. apply Inv_notes; [done| |].
  - intros tn' i n' Hi. destruct (Hm (tn', i)) as [H|(n1 & Hn1 & _ & _ & _ & Hnone)]; [|congruence].
    exists n'. split; [congruence|]. split; [apply same_content_refl|by left].
  - intros tn' i n Hi. destruct (Hm (tn', i)) as [H|(n1 & Hn1 & Hk & Hr & Hb & Hnone)].
    + left. exists n. split; [congruence|]. split; [apply same_content_refl|by left].
    + right. assert (n1 = n) as -> by congruence. cbn in Hk. subst tn'. split; [|by left]. exists op. split; [done|by apply Hcl].
Qed.

Lemma later_put_note n v : po_ever v !! (no_TenantID n, no_ID n) = None -> later v (put_note n v).
Proof. intros Hn. split; try done. intros k n' Hk. cbn. rewrite lookup_insert_ne; [done|]. congruence. Qed.

Lemma Inv_put_note gs v n op :
  Inv gs v -> op ∈ ops -> task_of op n -> no_Read n = false -> po_ever v !! (no_TenantID n, no_ID n) = None -> Inv gs (put_note n v).
Proof.
  intros [[Hk He Hp] Ht Hl Hf Hkept Ho Hpr] Hop Htask Hread Hn. pose proof (later_put_note n v Hn) as Hlater.
  split; cbn; [| |by eapply later_trans| | | |done].
  - split; cbn; [| |done].
    + intros tn i n' [[[= <- <-] <-]|[_ H]]%lookup_insert_Some; eauto.
    + intros k n' [[<- <-]|[Hne H]]%lookup_insert_Some.
      * exists n. rewrite lookup_insert_eq. split; [done|apply same_content_refl].
      * rewrite lookup_insert_ne by done. by apply He.
  - eapply Forall_impl; [exact Ht|]. intros g. by apply true_of_later.
  - intros tn i n' [[[= <- <-] <-]|[_ H]]%lookup_insert_Some; [|by apply Hf]. right. split; [by exists op|by left].
  - intros tn i n' H. destruct (Hkept _ _ _ H) as [(n1 & H1 & Hs)|Hc]; [left|by right]. exists n1. split; [|done].
    rewrite lookup_insert_ne; [done|]. intros Heq. rewrite <- Heq in H1. destruct (He _ _ H1) as (? & ? & _). congruence.
  - intros o Hin. destruct (Ho o Hin); [by left|right]. by eapply justified_later.
Qed.

Lemma Inv_put_prefs gs v tn p op : Inv gs v -> op ∈ ops -> chooser op tn (pf_UserID p) -> Inv gs (put_prefs tn p v).
Proof.
  intros [[Hk He Hp] Ht Hl Hf Hkept Ho Hpr] Hop Hch.
  assert (later v (put_prefs tn p v)) as Hlater by (split; try done; intros x Hx; by right).
  split; cbn; [| |by eapply later_trans|done|done| |].
  - split; cbn; [done|done|]. intros tn' u p' [[[= <- <-] <-]|[_ H]]%lookup_insert_Some; [split; [done|left]|].
    destruct (Hp _ _ _ H). split; [done|by right].
  - eapply Forall_impl; [exact Ht|]. intros g. by apply true_of_later.
  - intros o Hin. destruct (Ho o Hin); [by left|right]. by eapply justified_later.
  - intros tn' u p' [[[= <- <-] <-]|[_ H]]%lookup_insert_Some; [right; by exists op|by apply Hpr].
Qed.

Lemma Inv_sent gs v o : Inv gs v -> justified v o -> Inv gs (sent o v).
Proof.
  intros [[Hk He Hp] Ht Hl Hf Hkept Ho Hpr] Hj.
  assert (later v (sent o v)) as Hlater by by split.
  split; cbn; try done; [by eapply later_trans|]. intros o' [->|Hin]%elem_of_cons; [by right|].
  destruct (Ho o' Hin); [by left|by right].
Qed.

Lemma mail_of_content n n' u : same_content n n' -> mail_of n' u = mail_of n u.
Proof. unfold same_content, mail_of. intros. destruct_and!. congruence. Qed.

(** What an operation was told justifies what it sends. *)
Lemma sends_justified v g R c (e : NotePort R) r v' :
  true_of v g -> note_pre R c e g -> note_step c e v r v' ->
  match e with
  | NotePublish topic _ data => justified v (Shown topic data)
  | EnqueueEmail task => justified v (Queued task)
  | SendMail m => justified v (Mailed (default "" (ctx_tenant c)) m)
  | _ => True
  end.
Proof.
  intros (_ & Hnotes & Husers & Hprefs) [-> Hpre] _. destruct e; try done; cbn in Hpre |- *.
  - destruct Hpre as (n & Hn & _ & Ht & Hd). destruct (Hnotes n Hn) as (_ & n0 & Hl & Hs). by exists (no_TenantID n, no_ID n), n0, n.
  - destruct Hpre as (n & Hn & -> & Hw). destruct (Hnotes n Hn) as (Htn & n0 & Hl & Hs). exists n0. split; [done|].
    assert (no_Type n = no_Type n0 /\ no_TenantID n = no_TenantID n0 /\ no_UserID n = no_UserID n0) as (<- & <- & <-)
      by by unfold same_content in Hs; destruct_and!.
    destruct Hw as [Hw|(p & Hp & Hu & Hc)]; [by left|right]. exists p. destruct (Hprefs p Hp) as (tn & Htn' & Hin).
    split; [|done]. congruence.
  - destruct Hpre as (n & u & Hn & Hu & -> & He). destruct (Hnotes n Hn) as (Htn & n0 & Hl & Hs).
    destruct (Husers _ _ Hu) as (tn & Htn' & Hl'). assert (tn = no_TenantID n) as -> by congruence.
    apply RequireTenant_ok in Htn as [-> _]. cbn. exists (no_ID n), n0, u.
    assert (no_UserID n = no_UserID n0) as <- by by unfold same_content in Hs; destruct_and!.
    split_and!; [done|done|by apply mail_of_content|done].
Qed.

Lemma note_step_keeps gs v i g R c (e : NotePort R) r v' :
  Inv gs v -> gs !! i = Some g -> note_pre R c e g -> note_step c e v r v' ->
  exists g', note_post R c e g r g' /\ Inv (<[i := g']> gs) v'.
Proof.
  intros HI Hi Hpre Hstep.
  assert (true_of v g) as Hg by (eapply Forall_lookup_1; [apply inv_told|]; done).
  assert (Inv (<[i := g]> gs) v) as Hsame by by apply note_tell.
  pose proof (sends_justified _ _ _ _ _ _ _ Hg Hpre Hstep) as Hj. destruct Hpre as [-> Hpre].
  pose proof Hg as (Hop & Hnotes & Husers & Hprefs). pose proof (inv_coherent _ _ HI) as [Hk He Hp].
  destruct e; cbn in Hpre, Hstep, Hj |- *; try (subst v'; by exists g); try (destruct Hstep as [-> _]; by exists g);
    try (exists g; split; [done|]; destruct Hstep as [-> | ->]; [done|by apply Inv_sent]).
  - destruct Hpre as (Htask & Hten & Hread). destruct Hstep as [[-> Hr]|((tn & Htn) & Hn & ->)].
    + exists g. by destruct r.
    + pose proof (Inv_put_note _ _ _ _ HI Hop Htask Hread Hn) as HI'. pose proof (later_put_note _ _ Hn) as Hlater.
      exists (match r with Ok _ => told_note n g | Err _ => g end). split; [done|]. apply note_tell; [done|].
      apply (true_of_later _ _ _ Hlater) in Hg. destruct r; [|done]. destruct Hg as (H1 & H2 & H3 & H4). split_and!; try done.
      intros n' [->|Hin]%elem_of_cons; [|by apply H2]. split.
      * apply RequireTenant_ok in Htn as [Htn Hne]. rewrite Hten in Htn. injection Htn as Htn.
        unfold RequireTenant. cbn [td_op told_note] in *. rewrite Hten. by rewrite Htn, (bool_decide_eq_false_2 _ Hne).
      * exists n. split; [cbn; by rewrite lookup_insert_eq|apply same_content_refl].
  - destruct Hstep as [-> Hx]. eexists. split; [done|]. destruct r as [n|err]; [|done]. apply note_tell; [done|].
    destruct (Hx n eq_refl) as (tn & Htn & Hl). destruct (Hk _ _ _ Hl) as [Hid Hten]. destruct (He _ _ Hl) as (n0 & H0 & Hs).
    split_and!; try done. intros n' [->|Hin]%elem_of_cons; [|by apply Hnotes]. rewrite Hten, Hid. split; [done|by exists n0].
  - exists g. split; [done|]. destruct Hstep as [->|(tn & m & Htn & Hm & ->)]; [done|]. eapply Inv_marks; eauto.
  - exists g. split; [done|]. destruct Hstep as [->|(tn & m & Htn & Hm & ->)]; [done|]. eapply Inv_marks; eauto.
  - exists g. split; [done|]. destruct Hstep as [->|(tn & m & Htn & Hm & ->)]; [done|]. eapply Inv_drops; eauto.
  - destruct Hstep as [-> Hx]. destruct r as [p|err]; [|by exists g]. destruct (Hx p eq_refl) as (tn & Htn & Hl).
    destruct (Hp _ _ _ Hl) as [Hu Hin]. exists (told_prefs p g). split; [done|]. apply note_tell; [done|].
    split_and!; try done. intros p' [->|Hin']%elem_of_cons; [by exists tn|by apply Hprefs].
  - exists g. split; [done|]. destruct Hstep as [[-> _]|(tn & Htn & ->)]; [done|]. eapply Inv_put_prefs; eauto.
  - destruct Hstep as [-> Hx]. eexists. split; [done|]. destruct r as [u|err]; [|done]. apply note_tell; [done|].
    split_and!; try done. intros j u' [[= -> ->]|Hin]%elem_of_cons; [by apply Hx|by apply Husers].
Qed.
End Interleaved.

(** C38. Notifications reach their recipient and nobody else. However any operations interleave,
    whichever of their calls fail: a notification stored comes from a task, for the task's user
    with the task's text, and is marked read only by that user; none disappears but one that was
    read and that a cleanup of its tenant retires; preferences are changed only by their user; and
    all that leaves the system is a notification on its recipient's own topic, the task of an
    e-mail of a type that is mailed by default or that the recipient once chose, and e-mails that carry the title,
    the link and the type of a stored notification - never its body - to the address of its
    recipient. *)
Theorem notifications_reach_their_recipient (s : NoteService) {S} (h : handler Ctx NotePort S) (view : S -> Post)
    `{!NoteStore h view} (ops : list NoteOp) (s0 : S) (p : list (NoM (result unit))) (s1 : S) :
  coherent_post (view s0) -> steps h (map (op_prog s) ops, s0) (p, s1) ->
  let v0 := view s0 in let v1 := view s1 in
  (forall tn i n, po_notes v1 !! (tn, i) = Some n -> from v0 ops tn i n) /\
  (forall tn i n, po_notes v0 !! (tn, i) = Some n -> kept ops (po_notes v1) tn i n) /\
  (forall tn u q, po_prefs v1 !! (tn, u) = Some q ->
     po_prefs v0 !! (tn, u) = Some q \/ some_op ops (fun op => chooser op tn u)) /\
  (forall o, o ∈ po_out v1 -> o ∈ po_out v0 \/ justified v1 o).
Proof.
  intros H0 Hsteps.
  destruct (steps_wp h note_contract (fun _ _ => True) (fun gs st => Inv (view s0) ops gs (view st)) (map (op_prog s) ops) s0 p s1
              (map starting ops)) as (gs' & _ & [_ _ _ Hf Hk Ho Hp]); [|exact Hsteps| | |done].
  - intros gs st i g R c e P Hi HI [Hpre HP]. pose proof (note_answers R c e st) as Ha. destruct (h R c e st) as [r st'].
    destruct (note_step_keeps _ _ _ _ _ _ _ _ _ _ _ HI Hi Hpre Ha) as (g' & Hp & HI'). exists g'. split; [by apply HP|done].
  - clear. induction ops as [|op ops IH]; cbn; constructor; [|done]. by apply op_allowed.
  - split; [done| |apply later_refl|..].
    + apply Forall_forall. intros g (op & -> & Hop)%list_elem_of_fmap.
      split_and!; cbn; [done|by intros ? ?%not_elem_of_nil|by intros ? ? ?%not_elem_of_nil|by intros ? ?%not_elem_of_nil].
    + intros tn i n H. left. exists n. split; [done|]. split; [apply same_content_refl|by left].
    + intros tn i n H. left. exists n. split; [done|]. split; [apply same_content_refl|by left].
    + auto.
    + auto.
Qed.

(** ** A post office in memory *)

Definition gone {A} : result A := Err (NotFound "resource not found").
Definition one {A} (o : option A) : result A := match o with Some a => Ok a | None => gone end.
Definition within_tenant {A} (c : Ctx) (v : Post) (k : string -> result A * Post) : result A * Post :=
  match RequireTenant c with Ok tn => k tn | Err e => (Err e, v) end.

Definition mark_where (P : string * string -> Notification -> bool) (at_ : Time) (m : by_tenant Notification) : by_tenant Notification :=
  map_imap (fun k n => Some (if P k n then read_at at_ n else n)) m.
Definition drop_where (P : string * string -> Notification -> bool) (m : by_tenant Notification) : by_tenant Notification :=
  map_imap (fun k n => if P k n then None else Some n) m.

Definition own (tn user : string) (k : string * string) (n : Notification) : bool := (k.1 =! tn) && (no_UserID n =! user).
Definition stale (tn : string) (before : Time) (k : string * string) (n : Notification) : bool :=
  (k.1 =! tn) && no_Read n && (no_CreatedAt n <=? before).

(** [prefs_down]: the preferences cannot be read. *)
Definition office (prefs_down : bool) : handler Ctx NotePort Post := fun R c e v =>
  match e in NotePort R return R * Post with
  | NoNow => (7, v)
  | NoNewID => ("n2", v)
  | NoteCreate n =>
      within_tenant c v (fun tn =>
        match po_ever v !! (no_TenantID n, no_ID n) with
        | Some _ => (Err (Conflict "resource already exists"), v)
        | None => (Ok tt, put_note n v)
        end)
  | NoteByID id => within_tenant c v (fun tn => (one (po_notes v !! (tn, id)), v))
  | NotesByUser user unread _ =>
      within_tenant c v (fun tn => (Ok (filter (fun n => no_UserID n = user /\ (unread = true -> no_Read n = false))
        (map snd (filter (fun kn => kn.1.1 = tn) (map_to_list (po_notes v))))), v))
  | NoteMarkRead id user at_ =>
      within_tenant c v (fun tn =>
        match po_notes v !! (tn, id) with
        | Some n => if no_UserID n =! user
                    then (Ok tt, set_notes (mark_where (fun k n => own tn user k n && (k.2 =! id)) at_ (po_notes v)) v)
                    else (gone, v)
        | None => (gone, v)
        end)
  | NoteMarkAllRead user at_ =>
      within_tenant c v (fun tn =>
        (Ok (Z.of_nat (size (filter (fun kn => own tn user kn.1 kn.2 && negb (no_Read kn.2) = true) (po_notes v)))),
         set_notes (mark_where (fun k n => own tn user k n && negb (no_Read n)) at_ (po_notes v)) v))
  | NoteDeleteReadBefore before =>
      within_tenant c v (fun tn =>
        (Ok (Z.of_nat (size (filter (fun kn => stale tn before kn.1 kn.2 = true) (po_notes v)))),
         set_notes (drop_where (stale tn before) (po_notes v)) v))
  | PrefsByUser user =>
      if prefs_down then (Err (Internal "an internal error occurred"), v)
      else within_tenant c v (fun tn => (one (po_prefs v !! (tn, user)), v))
  | PrefsUpsert p => within_tenant c v (fun tn => (Ok tt, put_prefs tn p v))
  | NoteUser id => within_tenant c v (fun tn => (one (po_users v !! (tn, id)), v))
  | NotePublish topic _ data => (Ok tt, sent (Shown topic data) v)
  | EnqueueEmail task => (Ok tt, sent (Queued task) v)
  | SendMail m => (Ok tt, sent (Mailed (default "" (ctx_tenant c)) m) v)
  end.

Lemma one_is_ok {A} (o : option A) a : one o = Ok a -> o = Some a.
Proof. destruct o; [by intros [= ->]|done]. Qed.

Lemma mark_where_marks P at_ tn user m :
  (forall k n, P k n = true -> own tn user k n = true) -> marks tn user m (mark_where P at_ m).
Proof.
  intros HP k. unfold mark_where. rewrite map_lookup_imap. destruct (m !! k) as [n|] eqn:Hn; cbn; [|by left].
  destruct (P k n) eqn:Hp; [right|by left]. apply HP in Hp. apply andb_true_iff in Hp as [Hk Hu].
  apply bool_decide_eq_true in Hk, Hu. by exists n, at_.
Qed.

Lemma drop_where_drops tn before m : drops tn before m (drop_where (stale tn before) m).
Proof.
  intros k. unfold drop_where. rewrite map_lookup_imap. destruct (m !! k) as [n|] eqn:Hn; cbn; [|by left].
  destruct (stale tn before k n) eqn:Hp; [right|by left]. unfold stale in Hp. apply andb_true_iff in Hp as [[Hk Hr]%andb_true_iff Hb].
  apply bool_decide_eq_true in Hk. apply Z.leb_le in Hb. by exists n.
Qed.

#[export] Instance office_store down : NoteStore (office down) (fun v => v).
Proof.
  intros R c e v. destruct e; cbn [office note_step fst snd]; unfold within_tenant; try done;
    try (by right); try (destruct (RequireTenant c) as [tn|] eqn:Htn; cbn [fst snd]; [|by (left || split)]).
  - destruct (po_ever v !! _) eqn:He; cbn; [by left|right]. split; [by exists tn|done].
  - split; [done|]. intros n Hn%one_is_ok. by exists tn.
  - split; [done|]. intros l n [= <-] [[Hu Hr] ([[tn' i] n'] & -> & [Hk Hin]%list_elem_of_filter)%list_elem_of_fmap]%list_elem_of_filter.
    cbn in Hk. subst tn'. apply elem_of_map_to_list in Hin. by exists tn, i.
  - destruct (po_notes v !! (tn, id)) as [n|] eqn:Hn; [|by left]. destruct (no_UserID n =! userID); [|by left]. right.
    eexists tn, _. split; [done|]. split; [|done]. apply mark_where_marks. by intros k n' [H _]%andb_true_iff.
  - right. eexists tn, _. split; [done|]. split; [|done]. apply mark_where_marks. by intros k n' [H _]%andb_true_iff.
  - right. eexists tn, _. split; [done|]. split; [|done]. apply drop_where_drops.
  - destruct down; [done|]. destruct (RequireTenant c) as [tn|]; [|done]. split; [done|]. intros p Hp%one_is_ok. by exists tn.
  - right. by exists tn.
  - split; [done|]. intros u Hu%one_is_ok. by exists tn.
Qed.

(** ** An alert, its e-mail, and a choice that is not heard *)

Definition agent : Account :=
  mkAccount "u1" "t1" "Ana" "ana@example.com" "" StatusActive [] [] 1 "" None "" [] 0 0.
Definition anas : Ctx := mkCtx (Some "t1") (Some (mkAuthContext "t1" "u1" ∅ [] ScopeOwn)) None None.
Definition worker : Ctx := mkCtx None None None None.
Definition mentioned : Notification :=
  mkNotification "n1" "t1" "u1" TypeMention "You were mentioned" "" "/conversations/c0" true 1 (Some 2).
Definition no_alerts : Preferences := mkPreferences "t1" "u1" (Some {[ TypeSLABreached := false ]}) 1.
Definition alert : SendTask := mkSendTask "t1" "u1" TypeSLABreached "SLA breached" "SECRET" "/conversations/c1".
Definition inbox (chosen : bool) : Post :=
  mkPost {[ ("t1", "n1") := mentioned ]} {[ ("t1", "n1") := mentioned ]}
    (if chosen then {[ ("t1", "u1") := no_alerts ]} else ∅) (if chosen then [("t1", no_alerts)] else []) {[ ("t1", "u1") := agent ]} [].
Definition both : NoteService := mkNoteService true true.
Definition alert_ops : list NoteOp := [DoSend worker alert; DoSendEmail worker (mkEmailTask "t1" "n2"); DoMarkAllRead anas; DoCleanup anas 5].

Lemma inbox_coherent b : coherent_post (inbox b).
Proof.
  split; cbn.
  - intros tn i n [[= <- <-] <-]%lookup_singleton_Some. done.
  - intros k n [<- <-]%lookup_singleton_Some. by exists mentioned.
  - destruct b; [|done]. intros tn u p [[= <- <-] <-]%lookup_singleton_Some. split; [done|left].
Qed.

(** The alert is shown and mailed without its body, then read; the older notification is retired. *)
Lemma notifications_reach_their_recipient_witness :
  let out := schedule (office false) (replicate 8 0 ++ replicate 4 1 ++ replicate 3 2 ++ replicate 2 3)%nat (map (op_prog both) alert_ops) (inbox false) in
  (forall o, o ∈ po_out out.2 -> o ∈ po_out (inbox false) \/ justified out.2 o) /\
  po_out out.2 = [Mailed "t1" (mkEmailMessage "ana@example.com" "SLA breached" "/conversations/c1" TypeSLABreached);
                  Queued (mkEmailTask "t1" "n2");
                  Shown (TopicUser "t1" "u1") (mkRealtimePayload "n2" TypeSLABreached "SLA breached" "SECRET" "/conversations/c1" false 7)] /\
  no_Read <$> po_notes out.2 !! ("t1", "n2") = Some true /\ po_notes out.2 !! ("t1", "n1") = None.
Proof.
  intros out. split; [|split_and!; vm_compute; reflexivity].
  apply (notifications_reach_their_recipient both (office false) (fun v => v) alert_ops (inbox false) out.1 out.2 (inbox_coherent false)).
  apply schedule_reaches.
Defined.

(** Who chose not to be mailed is not; but when the choice cannot be read the default of the type
    stands in for it, and the e-mail is queued all the same. *)
Theorem an_unread_choice_is_overridden :
  let ops := map (op_prog both) [DoSend worker alert] in
  let heard := schedule (office false) (replicate 8 0)%nat ops (inbox true) in
  let unheard := schedule (office true) (replicate 8 0)%nat ops (inbox true) in
  heard.1 = [Ret (Ok tt)] /\ Queued (mkEmailTask "t1" "n2") ∉ po_out heard.2 /\
  unheard.1 = [Ret (Ok tt)] /\ Queued (mkEmailTask "t1" "n2") ∈ po_out unheard.2.
Proof.
  intros ops heard unheard. split_and!; try (vm_compute; reflexivity).
  - change (po_out heard.2) with [Shown (TopicUser "t1" "u1") (newPayload (note_of alert "n2" 7))]. by intros [=]%list_elem_of_singleton.
  - change (po_out unheard.2) with [Queued (mkEmailTask "t1" "n2"); Shown (TopicUser "t1" "u1") (newPayload (note_of alert "n2" 7))]. left.
Qed.
