(* ===== verification/Attachments.v ===== *)
(** * Attachments (domain/attachments)

    Uploads and their confirmation, the access to a file through its conversation, the signed
    links that open one without a session, and the keys and upload tokens of the local store
    (infra/storage/attachments_local.go). *)
From S2P Require Import Prelude GoStrings AppError Base64 Prog Authz Shared ConvEntity Messages ConvContracts Ports Auth.

(** ** Entity and contracts (entity/, contracts/) *)

Definition StatusPending : string := "pending".
Definition StatusReady : string := "ready".

(** The aggregate; [Messages.Attachment] is what a message shows of it. *)
Record AttachmentRecord := mkAttachmentRecord {
  ar_ID : string; ar_TenantID : string; ar_ConversationID : string; ar_MessageID : string; ar_Filename : string;
  ar_ContentType : string; ar_Size : Z; ar_StorageProvider : string; ar_StorageKey : string; ar_SignedURL : string;
  ar_Status : string; ar_CreatedBy : string; ar_CreatedAt : Time }.

Record AvatarTarget := mkAvatarTarget { av_OwnerType : string; av_OwnerID : string }.
Record CreateUploadURL := mkCreateUploadURL {
  cu_ConversationID : string; cu_Filename : string; cu_ContentType : string; cu_Size : Z; cu_Avatar : option AvatarTarget }.
Record ConfirmUpload := mkConfirmUpload { cf_AttachmentID : string; cf_MessageID : string }.
Record UploadTarget := mkUploadTarget {
  ut_URL : string; ut_Method : string; ut_Headers : list (string * string); ut_ExpiresAt : Time }.
Record DownloadResult := mkDownloadResult {
  dr_RedirectURL : string; dr_Data : string; dr_ContentType : string; dr_Filename : string }.

Inductive AttPort : Type -> Type :=
| AtNow : AttPort Time
| AtNewID : AttPort string
| AttCreate (a : AttachmentRecord) : AttPort (result unit)
| AttUpdate (a : AttachmentRecord) : AttPort (result unit)
| AttByID (id : string) : AttPort (result AttachmentRecord)
| AttsByIDs (ids : list string) : AttPort (result (list AttachmentRecord))
| AtConv (id : string) : AttPort (result Conversation)
| AtMessage (id : string) : AttPort (result Message)
| StProvider : AttPort string
| StSignUpload (key contentType : string) (size ttl : Z) : AttPort (result UploadTarget)
| StDownload (key filename : string) (ttl : Z) : AttPort (result DownloadResult)
| StPut (key contentType data : string) : AttPort (result unit)
| StExists (key : string) : AttPort (result bool)
| StGet (key : string) : AttPort (result string)
| StDelete (key : string) : AttPort (result unit)
| ToOgg (data : string) : AttPort (result (string * bool)).

#[export] Instance attachments_own : Embed AttPort AttPort := fun R e => e.

Abbreviation AtM := (prog Ctx AttPort).

(** ** Names and types *)

Definition slash : Ascii.ascii := byte_of 47.
Definition dot : Ascii.ascii := byte_of 46.

(** [path.Base]: the last element, without the slashes that end it. *)
Definition path_base (s : string) : string :=
  if s =! "" then "."
  else
    match rev (drop_while (fun a => Ascii.eqb a slash) (rev (bytes_of s))) with
    | [] => "/"
    | l => default "" (last (split_on slash (of_bytes l)))
    end.

Definition sanitizeFilename (name : string) : string :=
  let base := path_base (replace_all (trim_space name) (of_bytes [byte_of 92]) "/") in
  if (base =! ".") || (base =! "/") then "" else base.

Definition has_suffix (s p : string) : bool := has_prefix_bytes (rev (bytes_of p)) (rev (bytes_of s)).
Definition trim_suffix (s p : string) : string :=
  if has_suffix s p then of_bytes (take (length (bytes_of s) - length (bytes_of p)) (bytes_of s)) else s.

(** What comes before the parameters of a content type. *)
Definition before_semicolon (ct : string) : string := default ct (head (split2_on (byte_of 59) ct)).

(** The last extension of a name replaced, or one appended. *)
Definition swapToOgg (name : string) : string :=
  match split2_bytes dot (rev (bytes_of name)) [] with
  | Some (_, stem) => of_bytes (rev stem) +:+ ".ogg"
  | None => name +:+ ".ogg"
  end.

Definition media_extensions : list (string * string) :=
  [("audio/ogg", ".ogg"); ("audio/mpeg", ".mp3"); ("audio/mp4", ".m4a"); ("audio/m4a", ".m4a"); ("audio/x-m4a", ".m4a");
   ("audio/aac", ".aac"); ("audio/amr", ".amr"); ("audio/wav", ".wav"); ("audio/x-wav", ".wav"); ("image/jpeg", ".jpg");
   ("image/png", ".png"); ("image/webp", ".webp"); ("video/mp4", ".mp4"); ("application/pdf", ".pdf")].

Definition knownMediaExtensions : list string :=
  [".ogg"; ".mp3"; ".m4a"; ".aac"; ".amr"; ".wav"; ".jpg"; ".png"; ".webp"; ".mp4"; ".pdf"].

Definition stripMediaExtension (token : string) : string :=
  match List.find (has_suffix token) knownMediaExtensions with
  | Some ext => trim_suffix token ext
  | None => token
  end.

(** Trimmed, not empty, once each. *)
Definition dedupeNonEmpty (ids : list string) : list string := dedupe_from (fun i => i <>! "") ∅ (map trim_space ids).

(** ** Signed tokens

    A payload in base64, a point, and its authentication code in hexadecimal. *)

Definition encode (s : string) : string := of_bytes (base64_url (bytes_of s)).
Definition decode (s : string) : option string := of_bytes <$> base64_decode (bytes_of s).
Definition bar : Ascii.ascii := byte_of 124.

(** [strings.SplitN(s, sep, n + 1)]. *)
Fixpoint split_n (n : nat) (sep : Ascii.ascii) (s : string) : list string :=
  match n with
  | O => [s]
  | S n =>
      match split2_bytes sep (bytes_of s) [] with
      | None => [s]
      | Some (a, b) => of_bytes a :: split_n n sep (of_bytes b)
      end
  end.

Section Tokens.
Context (hmacHex : string -> string).

Definition seal (payload : string) : string := let b64 := encode payload in b64 +:+ "." +:+ hmacHex b64.

(** The payload of a token whose code is right. *)
Definition unseal (token : string) : option string :=
  match split2_on dot token with
  | [b64; code] => if code =! hmacHex b64 then decode b64 else None
  | _ => None
  end.

Definition signMediaToken (key contentType filename : string) (expMillis : Z) : string :=
  seal (pretty expMillis +:+ "|" +:+ encode contentType +:+ "|" +:+ encode filename +:+ "|" +:+ encode key).

Definition bad_token {A} : result A := Err (Forbidden "invalid or expired media token").

(** The key, the content type and the name, until the token expires. A type or a name that does not
    decode, which no signed payload has, is read as blank. *)
Definition verifyMediaToken (now : Time) (token : string) : result (string * string * string) :=
  match unseal token with
  | None => bad_token
  | Some raw =>
      match split_n 3 bar raw with
      | [exp; ct; fn; k] =>
          match atoi exp with
          | None => bad_token
          | Some expMillis =>
              if expMillis * Millisecond <? now then bad_token
              else
                match decode k with
                | None => bad_token
                | Some key => Ok (key, default "" (decode ct), default "" (decode fn))
                end
          end
      | _ => bad_token
      end
  end.

(** The upload token of the local store: its payload carries the content type as it is, and a size
    in the range of an int64. *)
Definition signUpload (key contentType : string) (size expMillis : Z) : string :=
  seal (pretty expMillis +:+ "|" +:+ pretty size +:+ "|" +:+ contentType +:+ "|" +:+ key).

Definition invalid_upload {A} : result A := Err (Forbidden "invalid upload token").

Definition ResolveUpload (now : Time) (token : string) : result (string * string * Z) :=
  match unseal token with
  | None => invalid_upload
  | Some raw =>
      match split_n 3 bar raw with
      | [exp; sz; ct; key] =>
          match atoi exp with
          | None => invalid_upload
          | Some expMillis =>
              if expMillis * Millisecond <? now then Err (Forbidden "upload link has expired")
              else Ok (key, ct, default 0 (atoi sz))
          end
      | _ => invalid_upload
      end
  end.
End Tokens.

(** [pathFor] of the local store: the elements below its directory that a key names, [filepath.Clean]
    of the key under a root; the directory itself is refused. *)
Definition clean_step (path : list string) (element : string) : list string :=
  if (element =! "") || (element =! ".") then path
  else if element =! ".." then removelast path else path ++ [element].

Definition pathFor (key : string) : result (list string) :=
  match foldl clean_step [] (split_on slash key) with
  | [] => Err (Validation "invalid storage key")
  | path => Ok path
  end.

(** ** The service (service/service.go) *)

Record Config := mkConfig {
  cg_MaxSizeBytes : Z; cg_AvatarMaxSizeBytes : Z; cg_AllowedContentTypes : list string; cg_UploadTTL : Z;
  cg_DownloadTTL : Z; cg_DownloadBaseURL : string; cg_SigningSecret : string; cg_MediaURLTTL : Z; cg_AvatarURLTTL : Z }.

(** The configuration, whether audio is converted, the authentication code of a payload under a
    secret, the case mapping. *)
Record AttService := mkAttService {
  at_cfg : Config; at_audio : bool; at_hmac : string -> string -> string; at_lower : Z -> Z }.

Definition Minute : Z := 60 * Second.

Definition positive_or (d z : Z) : Z := if z <=? 0 then d else z.

(** [NewService]: the defaults of the configuration. *)
Definition NewService (cfg : Config) : Config :=
  mkConfig (positive_or (25 * 2 ^ 20) (cg_MaxSizeBytes cfg)) (positive_or (5 * 2 ^ 20) (cg_AvatarMaxSizeBytes cfg))
    (cg_AllowedContentTypes cfg) (positive_or (15 * Minute) (cg_UploadTTL cfg)) (positive_or (5 * Minute) (cg_DownloadTTL cfg))
    (cg_DownloadBaseURL cfg) (cg_SigningSecret cfg) (positive_or (24 * 60 * Minute) (cg_MediaURLTTL cfg))
    (positive_or (15 * Minute) (cg_AvatarURLTTL cfg)).

Definition actorID (c : Ctx) : string :=
  match FromContext c with Some ac => ac_UserID ac | None => "" end.

Section Service.
Context (s : AttService).
Let cfg : Config := at_cfg s.

Definition hmacHex (payload : string) : string := at_hmac s (cg_SigningSecret cfg) payload.

(** The type without its parameters, trimmed and in lower case. *)
Definition bare_type (ct : string) : string := to_lower (at_lower s) (trim_space (before_semicolon ct)).

Definition mediaExtension (contentType : string) : string :=
  default "" (snd <$> List.find (fun ce => ce.1 =! bare_type contentType) media_extensions).

Definition needsOggConversion (contentType : string) : bool := has_prefix (bare_type contentType) "audio/webm".

Definition isImageContentType (ct : string) : bool := has_prefix (to_lower (at_lower s) (trim_space ct)) "image/".

Definition contentTypeAllowed (ct : string) : bool :=
  if (length (cg_AllowedContentTypes cfg) =? 0)%nat then true
  else
    let ct := to_lower (at_lower s) (trim_space ct) in
    existsb (fun allowed =>
      let allowed := to_lower (at_lower s) (trim_space allowed) in
      (allowed =! ct) || (has_suffix allowed "/*" && has_prefix ct (trim_suffix allowed "*")))
      (cg_AllowedContentTypes cfg).

Definition channelMediaURL (token contentType : string) : string :=
  trim_right_slash (cg_DownloadBaseURL cfg) +:+ "/v1/channel-media/" +:+ token +:+ mediaExtension contentType.

Definition mediaURL (c : Ctx) (storageKey contentType filename : string) : AtM string :=
  let! now := ask c AtNow in
  let exp := UnixMilli (now + cg_MediaURLTTL cfg) in
  Ret (channelMediaURL (signMediaToken hmacHex storageKey contentType filename exp) contentType).

(** ** Access *)

(** The conversation is in the actor's scope, its own, or of one of its sectors. *)
Definition conv_visible (ac : AuthContext) (conv : Conversation) : bool :=
  (ac_SectorScope ac =! ScopeAll) || ((cv_AssignedTo conv <>! "") && (cv_AssignedTo conv =! ac_UserID ac)) ||
  existsb (fun sid => (sid <>! "") && (sid =! cv_SectorID conv)) (ac_SectorIDs ac).

Definition loadVisible (c : Ctx) (conversationID : string) : AtM (result Conversation) :=
  if conversationID =! "" then Ret (Err (Validation "conversation_id is required"))
  else
    match FromContext c with
    | None => Ret (Err (Unauthorized "authentication required"))
    | Some ac =>
        try! conv := ask c (AtConv conversationID) in
        if conv_visible ac conv then Ret (Ok conv) else Ret (Err (NotFound "conversation not found"))
    end.

(** An attachment without a conversation is an avatar, open to its tenant. *)
Definition authorizeAttachment (c : Ctx) (a : AttachmentRecord) : AtM (result unit) :=
  if ar_ConversationID a =! "" then Ret (Ok tt)
  else try! _ := loadVisible c (ar_ConversationID a) in Ret (Ok tt).

(** ** Uploads *)

Definition size_details (size limit : Z) (what : string) : gmap string value :=
  if size <=? 0 then {[ "size" := VStr "must be greater than zero" ]}
  else if limit <? size then {[ "size" := VStr ("exceeds the " +:+ pretty limit +:+ " byte " +:+ what) ]}
  else ∅.

Definition upload_details (filename contentType : string) (size limit : Z) (what : string) (type_ok : bool)
    (type_detail : string) : gmap string value :=
  (if filename =! "" then {[ "filename" := VStr "is required" ]} else ∅) ∪
  ((if contentType =! "" then {[ "content_type" := VStr "is required" ]}
    else if negb type_ok then {[ "content_type" := VStr type_detail ]} else ∅) ∪
   size_details size limit what).

Definition refuse_if (v : gmap string value) (msg : string) : result unit :=
  if decide (v = ∅) then Ok tt else Err (WithDetails v (Validation msg)).

Definition validate (filename contentType : string) (size : Z) : result unit :=
  refuse_if (upload_details filename contentType size (cg_MaxSizeBytes cfg) "limit" (contentTypeAllowed contentType) "is not allowed")
    "invalid attachment".

Definition validateAvatar (filename contentType : string) (size : Z) : result unit :=
  refuse_if (upload_details filename contentType size (cg_AvatarMaxSizeBytes cfg) "avatar limit" (isImageContentType contentType) "must be an image")
    "invalid avatar".

Definition reserveUpload (c : Ctx) (id tenantID conversationID key filename contentType : string) (size : Z)
    : AtM (result (AttachmentRecord * UploadTarget)) :=
  let! signed := ask c (StSignUpload key contentType size (cg_UploadTTL cfg)) in
  match signed with
  | Err e => Ret (Err (Wrap e (Internal "could not sign upload url")))
  | Ok target =>
      let! provider := ask c StProvider in
      let! now := ask c AtNow in
      let a := mkAttachmentRecord id tenantID conversationID "" filename contentType size provider key "" StatusPending
                 (actorID c) now in
      try! _ := ask c (AttCreate a) in
      Ret (Ok (a, target))
  end.

Definition attachment_key (tenantID conversationID id filename : string) : string :=
  "attachments/" +:+ tenantID +:+ "/" +:+ conversationID +:+ "/" +:+ id +:+ "/" +:+ filename.
Definition avatar_key (tenantID ownerType ownerID filename : string) : string :=
  "avatars/" +:+ tenantID +:+ "/" +:+ ownerType +:+ "/" +:+ ownerID +:+ "/" +:+ filename.

Definition invalid_owner {A} (field detail : string) : AtM (result A) :=
  Ret (Err (WithDetails {[ field := VStr detail ]} (Validation "invalid avatar owner"))).

Definition requestAvatarUploadURL (c : Ctx) (cmd : CreateUploadURL) (avatar : AvatarTarget)
    : AtM (result (AttachmentRecord * UploadTarget)) :=
  try! tenantID := Ret (RequireTenant c) in
  let ownerType := to_lower (at_lower s) (trim_space (av_OwnerType avatar)) in
  let ownerID := trim_space (av_OwnerID avatar) in
  if (ownerType <>! "contacts") && (ownerType <>! "users") then
    invalid_owner "avatar.owner_type" "must be contacts or users"
  else if ownerID =! "" then invalid_owner "avatar.owner_id" "is required"
  else
    let filename := sanitizeFilename (cu_Filename cmd) in
    let contentType := trim_space (cu_ContentType cmd) in
    try! _ := Ret (validateAvatar filename contentType (cu_Size cmd)) in
    let! id := ask c AtNewID in
    reserveUpload c id tenantID "" (avatar_key tenantID ownerType ownerID filename) filename contentType (cu_Size cmd).

Definition RequestUploadURL (c : Ctx) (cmd : CreateUploadURL) : AtM (result (AttachmentRecord * UploadTarget)) :=
  match cu_Avatar cmd with
  | Some avatar => requestAvatarUploadURL c cmd avatar
  | None =>
      try! tenantID := Ret (RequireTenant c) in
      try! conv := loadVisible c (trim_space (cu_ConversationID cmd)) in
      let filename := sanitizeFilename (cu_Filename cmd) in
      let contentType := trim_space (cu_ContentType cmd) in
      try! _ := Ret (validate filename contentType (cu_Size cmd)) in
      let! id := ask c AtNewID in
      reserveUpload c id tenantID (cv_ID conv) (attachment_key tenantID (cv_ID conv) id filename) filename contentType
        (cu_Size cmd)
  end.

(** ** Confirmation *)

Definition set_media (key filename contentType : string) (size : Z) (a : AttachmentRecord) : AttachmentRecord :=
  mkAttachmentRecord (ar_ID a) (ar_TenantID a) (ar_ConversationID a) (ar_MessageID a) filename contentType size
    (ar_StorageProvider a) key (ar_SignedURL a) (ar_Status a) (ar_CreatedBy a) (ar_CreatedAt a).
Definition set_link (messageID url status : string) (a : AttachmentRecord) : AttachmentRecord :=
  mkAttachmentRecord (ar_ID a) (ar_TenantID a) (ar_ConversationID a) messageID (ar_Filename a) (ar_ContentType a)
    (ar_Size a) (ar_StorageProvider a) (ar_StorageKey a) url status (ar_CreatedBy a) (ar_CreatedAt a).

(** Every failure leaves the attachment as it was uploaded. *)
Definition maybeConvertAudio (c : Ctx) (a : AttachmentRecord) : AtM AttachmentRecord :=
  if negb (at_audio s) || negb (needsOggConversion (ar_ContentType a)) then Ret a
  else
    let! data := ask c (StGet (ar_StorageKey a)) in
    match data with
    | Err _ => Ret a
    | Ok data =>
        let! ogg := ask c (ToOgg data) in
        match ogg with
        | Err _ => Ret a
        | Ok (ogg, _) =>
            let newKey := swapToOgg (ar_StorageKey a) in
            let! r := ask c (StPut newKey "audio/ogg" ogg) in
            match r with
            | Err _ => Ret a
            | Ok _ =>
                do! (if newKey <>! ar_StorageKey a then let! _ := ask c (StDelete (ar_StorageKey a)) in Ret tt else Ret tt) in
                Ret (set_media newKey (swapToOgg (ar_Filename a)) "audio/ogg" (Z.of_nat (String.length ogg)) a)
            end
        end
    end.

(** The message an attachment is linked to is one of its conversation. *)
Definition linked (c : Ctx) (messageID : string) (a : AttachmentRecord) : AtM (result string) :=
  let mid := trim_space messageID in
  if mid =! "" then Ret (Ok (ar_MessageID a))
  else
    let! found := ask c (AtMessage mid) in
    match found with
    | Err _ => Ret (Err (Validation "message not found"))
    | Ok msg =>
        if ms_ConversationID msg <>! ar_ConversationID a
        then Ret (Err (Validation "message does not belong to the attachment's conversation"))
        else Ret (Ok mid)
    end.

Definition Confirm (c : Ctx) (cmd : ConfirmUpload) : AtM (result AttachmentRecord) :=
  try! _ := Ret (RequireTenant c) in
  try! a := ask c (AttByID (trim_space (cf_AttachmentID cmd))) in
  try! _ := authorizeAttachment c a in
  try! mid := linked c (cf_MessageID cmd) a in
  let a := set_link mid (ar_SignedURL a) (ar_Status a) a in
  let! exists_ := ask c (StExists (ar_StorageKey a)) in
  match exists_ with
  | Err e => Ret (Err (Wrap e (Internal "could not verify the upload")))
  | Ok false => Ret (Err (Validation "the file was not uploaded to storage"))
  | Ok true =>
      let ct := if blank (ar_ContentType a) then "application/octet-stream" else ar_ContentType a in
      let! a := maybeConvertAudio c (set_media (ar_StorageKey a) (ar_Filename a) ct (ar_Size a) a) in
      let! url := mediaURL c (ar_StorageKey a) (ar_ContentType a) (ar_Filename a) in
      let a := set_link (ar_MessageID a) url StatusReady a in
      try! _ := ask c (AttUpdate a) in
      Ret (Ok a)
  end.

(** A file a customer sent, stored as it came. *)
Definition StoreInbound (c : Ctx) (conversationID filename contentType data : string) : AtM (result Attachment) :=
  try! tenantID := Ret (RequireTenant c) in
  let conversationID := trim_space conversationID in
  if conversationID =! "" then Ret (Err (Validation "conversation_id is required"))
  else
    let filename := sanitizeFilename filename in
    let contentType := trim_space contentType in
    let size := Z.of_nat (String.length data) in
    try! _ := Ret (validate filename contentType size) in
    let! id := ask c AtNewID in
    let key := attachment_key tenantID conversationID id filename in
    let! put := ask c (StPut key contentType data) in
    match put with
    | Err e => Ret (Err (Wrap e (Internal "could not store inbound attachment")))
    | Ok _ =>
        let! provider := ask c StProvider in
        let! url := mediaURL c key contentType filename in
        let! now := ask c AtNow in
        let a := mkAttachmentRecord id tenantID conversationID "" filename contentType size provider key url StatusReady "" now in
        try! _ := ask c (AttCreate a) in
        Ret (Ok (mkAttachment (ar_ID a) (ar_SignedURL a) contentType filename size))
    end.

(** ** Reading *)

Definition filled (contentType filename : string) (r : DownloadResult) : DownloadResult :=
  mkDownloadResult (dr_RedirectURL r) (dr_Data r) (if dr_ContentType r =! "" then contentType else dr_ContentType r)
    (if dr_Filename r =! "" then filename else dr_Filename r).

Definition not_confirmed {A} : result A := Err (Conflict "attachment upload not confirmed").

Definition Download (c : Ctx) (id : string) : AtM (result DownloadResult) :=
  try! _ := Ret (RequireTenant c) in
  try! a := ask c (AttByID (trim_space id)) in
  try! _ := authorizeAttachment c a in
  if ar_Status a <>! StatusReady then Ret not_confirmed
  else
    try! r := ask c (StDownload (ar_StorageKey a) (ar_Filename a) (cg_DownloadTTL cfg)) in
    Ret (Ok (filled (ar_ContentType a) (ar_Filename a) r)).

Definition Get (c : Ctx) (id : string) : AtM (result AttachmentRecord) :=
  try! _ := Ret (RequireTenant c) in
  try! a := ask c (AttByID (trim_space id)) in
  try! _ := authorizeAttachment c a in
  if ar_Status a =! StatusReady then
    let! url := mediaURL c (ar_StorageKey a) (ar_ContentType a) (ar_Filename a) in
    Ret (Ok (set_link (ar_MessageID a) url (ar_Status a) a))
  else Ret (Ok a).

(** Neither a session nor a tenant: the token is the access. *)
Definition DownloadSigned (c : Ctx) (token : string) : AtM (result DownloadResult) :=
  let! now := ask c AtNow in
  match verifyMediaToken hmacHex now (stripMediaExtension token) with
  | Err e => Ret (Err e)
  | Ok (key, contentType, filename) =>
      try! r := ask c (StDownload key filename (cg_DownloadTTL cfg)) in
      Ret (Ok (filled contentType filename r))
  end.

Definition AttachmentReady (c : Ctx) (attachmentID : string) : AtM (result bool) :=
  try! _ := Ret (RequireTenant c) in
  let! found := ask c (AttByID (trim_space attachmentID)) in
  match found with
  | Err e => Ret (if CodeOf e =! CodeNotFound then Ok false else Err e)
  | Ok a => Ret (Ok (ar_Status a =! StatusReady))
  end.

Definition IntegrationMediaURL (c : Ctx) (attachmentID : string) : AtM (result string) :=
  try! _ := Ret (RequireTenant c) in
  try! a := ask c (AttByID (trim_space attachmentID)) in
  if ar_Status a <>! StatusReady then Ret not_confirmed
  else let! url := mediaURL c (ar_StorageKey a) (ar_ContentType a) (ar_Filename a) in Ret (Ok url).

Definition SignedAvatarURLs (c : Ctx) (ids : list string) : AtM (result (gmap string string)) :=
  try! _ := Ret (RequireTenant c) in
  let cleaned := dedupeNonEmpty ids in
  if (length cleaned =? 0)%nat then Ret (Ok ∅)
  else
    try! found := ask c (AttsByIDs cleaned) in
    let! now := ask c AtNow in
    let exp := UnixMilli (now + cg_AvatarURLTTL cfg) in
    let url a := channelMediaURL (signMediaToken hmacHex (ar_StorageKey a) (ar_ContentType a) (ar_Filename a) exp) (ar_ContentType a) in
    let step out a :=
      if (ar_Status a <>! StatusReady) || negb (isImageContentType (ar_ContentType a)) then out else <[ar_ID a := url a]> out in
    Ret (Ok (foldl step ∅ found)).

Definition HydrateAttachments (c : Ctx) (ids : list string) : AtM (result (gmap string Attachment)) :=
  try! _ := Ret (RequireTenant c) in
  let cleaned := dedupeNonEmpty ids in
  if (length cleaned =? 0)%nat then Ret (Ok ∅)
  else
    try! found := ask c (AttsByIDs cleaned) in
    let! out := fold_prog found ∅ (fun out a =>
      let! url := mediaURL c (ar_StorageKey a) (ar_ContentType a) (ar_Filename a) in
      Ret (<[ar_ID a := mkAttachment (ar_ID a) url (ar_ContentType a) (ar_Filename a) (ar_Size a)]> out)) in
    Ret (Ok out).

(** The first id that is unknown or not ready. *)
Fixpoint check_ready (byID : gmap string AttachmentRecord) (ids : list string) : result unit :=
  match ids with
  | [] => Ok tt
  | id :: ids =>
      match byID !! id with
      | None => Err (WithDetails {[ "attachments" := VStr ("unknown attachment " +:+ id) ]} (Validation "attachment not found"))
      | Some a =>
          if ar_Status a <>! StatusReady
          then Err (WithDetails {[ "attachments" := VStr ("attachment " +:+ id +:+ " is not confirmed") ]} (Validation "attachment not ready"))
          else check_ready byID ids
      end
  end.

Definition ValidateMessageAttachments (c : Ctx) (ids : list string) : AtM (result unit) :=
  try! _ := Ret (RequireTenant c) in
  let cleaned := dedupeNonEmpty ids in
  if (length cleaned =? 0)%nat then Ret (Ok tt)
  else
    try! found := ask c (AttsByIDs cleaned) in
    Ret (check_ready (foldl (fun m a => <[ar_ID a := a]> m) ∅ found) cleaned).

Definition avatar_error (msg detail : string) : result unit :=
  Err (WithDetails {[ "avatar_attachment_id" := VStr detail ]} (Validation msg)).

Definition ValidateReadyImage (c : Ctx) (attachmentID : string) : AtM (result unit) :=
  try! _ := Ret (RequireTenant c) in
  let id := trim_space attachmentID in
  if id =! "" then Ret (Ok tt)
  else
    let! found := ask c (AttByID id) in
    match found with
    | Err e => Ret (if CodeOf e =! CodeNotFound then avatar_error "avatar attachment not found" "not found" else Err e)
    | Ok a =>
        Ret (if ar_Status a <>! StatusReady then avatar_error "avatar attachment is not ready" "is not ready"
             else if negb (isImageContentType (ar_ContentType a)) then avatar_error "avatar attachment must be an image" "must be an image"
             else Ok tt)
    end.
End Service.

(** What [Update] stores: the [$set] fields over the stored document. *)
Definition stored_attachment (old new : AttachmentRecord) : AttachmentRecord :=
  mkAttachmentRecord (ar_ID old) (ar_TenantID old) (ar_ConversationID old) (ar_MessageID new) (ar_Filename new)
    (ar_ContentType new) (ar_Size new) (ar_StorageProvider old) (ar_StorageKey new) (ar_SignedURL new) (ar_Status new)
    (ar_CreatedBy old) (ar_CreatedAt old).
