(* ===== verification/AttachmentProps.v ===== *)
(** * Attachments: what a link opens, who reaches a file, and files that are lost

    Signed links and upload tokens are opened to what they were sealed with; files are served,
    confirmed and stored through a conversation the actor sees; a recording may be lost on its
    confirmation, and an avatar's key may leave its tenant. *)
From S2P Require Import Prelude GoStrings AppError Base64 Prog Authz Shared ConvEntity Messages ConvContracts Ports Auth Attachments.

(** ** Fields between separators *)

Lemma split2_bytes_found sep l r acc : sep ∉ l -> split2_bytes sep (l ++ sep :: r) acc = Some (rev acc ++ l, r).
Proof.
  revert acc. induction l as [|a l IH]; intros acc Hl; cbn.
  - rewrite Ascii.eqb_refl. by rewrite app_nil_r.
  - apply not_elem_of_cons in Hl as [Hne Hl]. destruct (Ascii.eqb_spec a sep); [congruence|].
    rewrite IH by done. cbn. by rewrite <- app_assoc.
Qed.

Lemma split2_bytes_sound sep l acc a b : split2_bytes sep l acc = Some (a, b) -> rev acc ++ l = a ++ sep :: b.
Proof.
  revert acc. induction l as [|x l IH]; intros acc; cbn; [done|]. destruct (Ascii.eqb_spec x sep) as [->|Hne].
  - by intros [= <- <-].
  - intros H%IH. cbn in H. by rewrite <- app_assoc in H.
Qed.

Lemma split_n_cons n sep a b : sep ∉ bytes_of a -> split_n (S n) sep (a +:+ of_bytes [sep] +:+ b) = a :: split_n n sep b.
Proof.
  intros Ha. cbn [split_n]. rewrite !bytes_of_app, bytes_of_of. cbn [app]. rewrite split2_bytes_found by done. cbn.
  by rewrite !of_bytes_of.
Qed.

(** The alphabet of the encoding holds neither a point nor a bar. *)
Lemma base64_char_not n : 0 <= n < 64 -> base64_char n <> dot /\ base64_char n <> bar.
Proof.
  intros Hn.
  assert (Hall : forallb (fun n => negb (Ascii.eqb (base64_char n) dot) && negb (Ascii.eqb (base64_char n) bar))
            (map Z.of_nat (seq 0 64)) = true) by (vm_compute; reflexivity).
  rewrite forallb_forall in Hall. specialize (Hall n). rewrite andb_true_iff, !negb_true_iff, !Ascii.eqb_neq in Hall.
  apply Hall, in_map_iff. exists (Z.to_nat n). split; [lia|]. apply in_seq. lia.
Qed.

Lemma encode_free s : dot ∉ bytes_of (encode s) /\ bar ∉ bytes_of (encode s).
Proof.
  unfold encode. rewrite bytes_of_of. destruct (base64_url_digits (bytes_of s)) as [-> Hd].
  split; intros (n & Heq & Hin)%list_elem_of_fmap; rewrite Forall_forall in Hd; destruct (base64_char_not n (Hd n Hin)); congruence.
Qed.

Lemma decode_encode s : decode (encode s) = Some s.
Proof. unfold decode, encode. rewrite bytes_of_of, base64_roundtrip. cbn. by rewrite of_bytes_of. Qed.

Lemma digits_free (x : N) : bar ∉ bytes_of (pretty x).
Proof. intros Hin. pose proof (pretty_N_digits x) as Hd. rewrite Forall_forall in Hd. by apply Hd in Hin. Qed.

Lemma pretty_free (z : Z) : bar ∉ bytes_of (pretty z).
Proof.
  destruct z as [|p|p]; [by intros ?%list_elem_of_singleton|apply (digits_free (N.pos p))|].
  change (pretty (Z.neg p)) with ("-" +:+ pretty (N.pos p)). rewrite bytes_of_app.
  intros [Hin|Hin]%elem_of_app; [by apply list_elem_of_singleton in Hin|by apply digits_free in Hin].
Qed.

(** ** Tokens *)

Section Tokens.
Context (hmacHex : string -> string).

Lemma unseal_seal payload : unseal hmacHex (seal hmacHex payload) = Some payload.
Proof.
  unfold unseal, seal, split2_on. rewrite !bytes_of_app. change (bytes_of ".") with [dot]. cbn [app].
  rewrite split2_bytes_found by apply encode_free. cbn [rev app]. rewrite !of_bytes_of, bool_decide_eq_true_2 by done.
  apply decode_encode.
Qed.

(** A token that opens bears the code of its payload. *)
Lemma unseal_sound token payload :
  unseal hmacHex token = Some payload ->
  exists b64, token = b64 +:+ "." +:+ hmacHex b64 /\ decode b64 = Some payload.
Proof.
  unfold unseal, split2_on. destruct (split2_bytes dot (bytes_of token) []) as [[a b]|] eqn:Hs; [|done].
  apply split2_bytes_sound in Hs. cbn in Hs. case_bool_decide as Hc; [|done]. intros Hd. exists (of_bytes a). split; [|done].
  rewrite <- Hc. apply bytes_of_inj. rewrite !bytes_of_app, !bytes_of_of. by rewrite Hs.
Qed.

Lemma verify_signed key ct fn exp now : in_int64 exp ->
  verifyMediaToken hmacHex now (signMediaToken hmacHex key ct fn exp) =
    if exp * Millisecond <? now then bad_token else Ok (key, ct, fn).
Proof.
  intros He. unfold verifyMediaToken, signMediaToken. rewrite unseal_seal. change "|" with (of_bytes [bar]).
  rewrite split_n_cons by apply pretty_free. rewrite !split_n_cons by apply encode_free. cbn [split_n].
  rewrite atoi_pretty by done. rewrite !decode_encode. cbn. by destruct (exp * Millisecond <? now).
Qed.

(** An upload token binds what it was signed for, when the content type holds no bar. *)
Lemma upload_token_roundtrip key ct size exp now : in_int64 exp -> in_int64 size -> bar ∉ bytes_of ct ->
  ResolveUpload hmacHex now (signUpload hmacHex key ct size exp) =
    if exp * Millisecond <? now then Err (Forbidden "upload link has expired") else Ok (key, ct, size).
Proof.
  intros He Hs Hct. unfold ResolveUpload, signUpload. rewrite unseal_seal. change "|" with (of_bytes [bar]).
  rewrite !split_n_cons by (done || apply pretty_free). cbn [split_n]. by rewrite !atoi_pretty.
Qed.
End Tokens.

(** ** The extension of a link *)

Definition hexadecimal (code : string) : Prop := (5 <= length (bytes_of code))%nat /\ dot ∉ bytes_of code.

Lemma strip_known token ext : ext ∈ knownMediaExtensions -> stripMediaExtension (token +:+ ext) = token.
Proof.
  intros Hext. unfold stripMediaExtension.
  assert (List.find (has_suffix (token +:+ ext)) knownMediaExtensions = Some ext) as ->.
  { unfold has_suffix. rewrite bytes_of_app, rev_app_distr.
    repeat (apply elem_of_cons in Hext as [->|Hext]; [reflexivity|]). by apply not_elem_of_nil in Hext. }
  unfold trim_suffix. assert (has_suffix (token +:+ ext) ext = true) as ->.
  { unfold has_suffix. rewrite bytes_of_app, rev_app_distr. apply has_prefix_bytes_spec. eauto. }
  rewrite bytes_of_app, length_app, Nat.add_sub, take_app_length. apply of_bytes_of.
Qed.

Lemma has_suffix_code a code ext : hexadecimal code -> ext ∈ knownMediaExtensions -> has_suffix (a +:+ "." +:+ code) ext = false.
Proof.
  intros [Hlen Hdot] Hext. apply not_true_iff_false. unfold has_suffix. rewrite !bytes_of_app, !rev_app_distr.
  intros (rest & Hrest)%has_prefix_bytes_spec. rewrite <- app_assoc in Hrest.
  assert (length (rev (bytes_of ext)) <= length (rev (bytes_of code)) /\ dot ∈ rev (bytes_of ext))%nat as [Hl Hin].
  { rewrite !length_rev. repeat (apply elem_of_cons in Hext as [->|Hext]; [cbn; split; [lia|set_solver]|]). by apply not_elem_of_nil in Hext. }
  apply (f_equal (take (length (rev (bytes_of ext))))) in Hrest. rewrite take_app_length in Hrest.
  rewrite take_app_le in Hrest by done. rewrite <- Hrest in Hin. apply Hdot. apply elem_of_take in Hin as (i & Hi & _).
  apply list_elem_of_lookup_2 in Hi. by apply list_elem_of_In, in_rev, list_elem_of_In in Hi.
Qed.

Lemma strip_none a code : hexadecimal code -> stripMediaExtension (a +:+ "." +:+ code) = a +:+ "." +:+ code.
Proof.
  intros Hc. unfold stripMediaExtension. destruct (List.find _ _) as [ext|] eqn:Hf; [|done].
  apply List.find_some in Hf as [Hin Hs]. apply list_elem_of_In in Hin. by rewrite has_suffix_code in Hs.
Qed.

Lemma extension_known s ct : mediaExtension s ct = "" \/ mediaExtension s ct ∈ knownMediaExtensions.
Proof.
  unfold mediaExtension. destruct (List.find _ _) as [[t e]|] eqn:Hf; [right|by left].
  apply List.find_some in Hf as [Hin _]. cbn.
  assert (forallb (fun te => bool_decide (te.2 ∈ knownMediaExtensions)) media_extensions = true) as Hall by (vm_compute; reflexivity).
  rewrite forallb_forall in Hall. by apply Hall, bool_decide_eq_true in Hin.
Qed.

(** C40. A media link opens its object, and only it. Given an authentication code written in five or more
    hexadecimal digits, the link built for an object, whatever its key, name and content type -
    and so whatever the extension the link ends in - is opened to that key, type and name until it
    expires and is refused afterwards; and a token that is opened bears the code of a payload that
    names the object it opens. *)
Theorem media_links_open_their_object (s : AttService) (key ct fn : string) (issued now : Time) :
  (forall p, hexadecimal (hmacHex s p)) -> in_int64 (UnixMilli (issued + cg_MediaURLTTL (at_cfg s))) ->
  let exp := UnixMilli (issued + cg_MediaURLTTL (at_cfg s)) in
  exists path,
    channelMediaURL s (signMediaToken (hmacHex s) key ct fn exp) ct = trim_right_slash (cg_DownloadBaseURL (at_cfg s)) +:+ "/v1/channel-media/" +:+ path /\
    (now <= exp * Millisecond -> verifyMediaToken (hmacHex s) now (stripMediaExtension path) = Ok (key, ct, fn)) /\
    (exp * Millisecond < now -> verifyMediaToken (hmacHex s) now (stripMediaExtension path) = bad_token) /\
    forall token k c f, verifyMediaToken (hmacHex s) now token = Ok (k, c, f) ->
      exists b64 payload field, token = b64 +:+ "." +:+ hmacHex s b64 /\ decode b64 = Some payload /\
        split_n 3 bar payload !! 3%nat = Some field /\ decode field = Some k.
Proof.
  intros Hmac He exp. exists (signMediaToken (hmacHex s) key ct fn exp +:+ mediaExtension s ct). split; [done|].
  assert (stripMediaExtension (signMediaToken (hmacHex s) key ct fn exp +:+ mediaExtension s ct) = signMediaToken (hmacHex s) key ct fn exp) as ->.
  { destruct (extension_known s ct) as [->|Hin]; [|by apply strip_known].
    unfold signMediaToken, seal. rewrite <- (of_bytes_of (_ +:+ "")), bytes_of_app, app_nil_r, of_bytes_of. apply strip_none, Hmac. }
  rewrite verify_signed by done. split_and!.
  - intros Hn. by rewrite (proj2 (Z.ltb_ge _ _)).
  - intros Hn. by rewrite (proj2 (Z.ltb_lt _ _)).
  - intros token k c f. unfold verifyMediaToken. destruct (unseal _ token) as [payload|] eqn:Hu; [|done].
    apply unseal_sound in Hu as (b64 & -> & Hd). destruct (split_n 3 bar payload) as [|e [|c1 [|f1 [|k1 [|]]]]] eqn:Hs; try done.
    destruct (atoi e) as [z|]; [|done]. destruct (z * Millisecond <? now); [done|]. destruct (decode k1) as [k'|] eqn:Hk; [|done].
    intros [= -> _ _]. exists b64, payload, k1. by rewrite Hs.
Qed.

(** ** A configuration to try them in *)

Definition zeros (_ : string) : string := "0123456789abcdef".
Definition lower_none (r : Z) : Z := r.
Definition open_house : AttService :=
  mkAttService (NewService (mkConfig 0 0 ["image/*"; "audio/*"] 0 0 "https://chat/" "secret" 0 0)) true (fun _ => zeros) lower_none.

Lemma media_links_open_their_object_witness :
  hexadecimal (zeros "") /\
  exists path, channelMediaURL open_house (signMediaToken zeros "k/1.ogg" "audio/ogg; codecs=opus" "a|b.ogg" 86400000) "audio/ogg; codecs=opus" =
      "https://chat" +:+ "/v1/channel-media/" +:+ path /\
    verifyMediaToken zeros 5 (stripMediaExtension path) = Ok ("k/1.ogg", "audio/ogg; codecs=opus", "a|b.ogg").
Proof.
  assert (hexadecimal (zeros "")) as Hz.
  { split; [vm_compute; lia|]. intros Hin. apply (bool_decide_eq_true_2 (dot ∈ bytes_of (zeros ""))) in Hin. vm_compute in Hin. done. }
  split; [exact Hz|].
  destruct (media_links_open_their_object open_house "k/1.ogg" "audio/ogg; codecs=opus" "a|b.ogg" 0 5 (fun _ => Hz)) as (path & Hu & Hv & _).
  - vm_compute. split; [discriminate|reflexivity].
  - exists path. split; [exact Hu|]. apply Hv. vm_compute. discriminate.
Defined.

(** ** File names and limits *)

Lemma drop_while_suffix {A} (p : A -> bool) l : exists k, l = k ++ drop_while p l.
Proof. induction l as [|a l [k IH]]; cbn; [by exists []|]. destruct (p a); [exists (a :: k); cbn; by f_equal|by exists []]. Qed.

Lemma split_bytes_free sep l acc x : sep ∉ acc -> x ∈ split_bytes sep l acc -> sep ∉ x.
Proof.
  revert acc. induction l as [|a l IH]; intros acc Hacc; cbn.
  - intros ->%list_elem_of_singleton Hin. apply Hacc. by apply list_elem_of_In, in_rev, list_elem_of_In in Hin.
  - destruct (Ascii.eqb_spec a sep) as [->|Hne].
    + intros [->|Hin]%elem_of_cons; [|by eapply IH; [apply not_elem_of_nil|]].
      intros Hin. apply Hacc. by apply list_elem_of_In, in_rev, list_elem_of_In in Hin.
    + apply IH. apply not_elem_of_cons. split; congruence || done.
Qed.

Lemma split_on_free sep s x : x ∈ split_on sep s -> sep ∉ bytes_of x.
Proof.
  unfold split_on. intros (b & -> & Hin)%list_elem_of_fmap. rewrite bytes_of_of. eapply split_bytes_free; [apply not_elem_of_nil|exact Hin].
Qed.

Lemma path_base_free s : path_base s <> "/" -> slash ∉ bytes_of (path_base s).
Proof.
  unfold path_base. case_bool_decide; [by intros _ ?%list_elem_of_singleton|]. destruct (rev _) as [|a l]; [done|]. intros _.
  destruct (last _) as [x|] eqn:Hl; cbn [default]; [|by intros ?%not_elem_of_nil]. apply last_Some_elem_of in Hl. by eapply split_on_free.
Qed.

(** A sanitized name is one element of a path. *)
Lemma sanitize_no_slash name : slash ∉ bytes_of (sanitizeFilename name).
Proof.
  unfold sanitizeFilename. destruct (_ || _) eqn:Hb; [by intros ?%not_elem_of_nil|].
  apply orb_false_iff in Hb as [_ Hsl]. apply bool_decide_eq_false in Hsl. by apply path_base_free.
Qed.

Lemma refuse_if_ok v msg u : refuse_if v msg = Ok u -> v = ∅.
Proof. unfold refuse_if. by case_decide. Qed.

Lemma union_nothing (m1 m2 : gmap string value) : m1 ∪ m2 = ∅ -> m1 = ∅ /\ m2 = ∅.
Proof. intros H. pose proof (map_positive_l _ _ H) as ->. by rewrite (left_id_L ∅ (∪)) in H. Qed.

Lemma one_detail (k : string) (v : value) : ({[ k := v ]} : gmap string value) <> ∅.
Proof. apply map_non_empty_singleton. Qed.

(** What passes the checks has a name and a type that is allowed, and is within the limit. *)
Lemma upload_details_ok filename ct size limit what allowed detail :
  upload_details filename ct size limit what allowed detail = ∅ -> filename <> "" /\ allowed = true /\ 0 < size <= limit.
Proof.
  unfold upload_details, size_details. intros [Hf [Hc Hs]%union_nothing]%union_nothing.
  split; [|split].
  - by destruct (bool_decide_reflect (filename = "")); [apply one_detail in Hf|].
  - destruct (ct =! ""); [by apply one_detail in Hc|]. destruct allowed; [done|by apply one_detail in Hc].
  - destruct (Z.leb_spec size 0); [by apply one_detail in Hs|]. destruct (Z.ltb_spec limit size); [by apply one_detail in Hs|lia].
Qed.

(** ** What an operation may do

    Whatever the stores answer; the ghost state is what they answered. *)

Inductive fact : Type :=
| Found (a : AttachmentRecord)
| Seen (id : string) (conv : Conversation)
| Of (id : string) (m : Message)
| Uploaded (key : string)
| Signed (key : string) (size : Z)
| Stored (key : string).

Inductive AttOp : Type :=
| DoRequest (cmd : CreateUploadURL)
| DoConfirm (cmd : ConfirmUpload)
| DoStoreInbound (conversationID filename contentType data : string)
| DoDownload (id : string)
| DoGet (id : string)
| DoDownloadSigned (token : string)
| DoReady (id : string)
| DoIntegrationURL (id : string)
| DoAvatarURLs (ids : list string)
| DoHydrate (ids : list string)
| DoValidate (ids : list string)
| DoValidateImage (id : string).

Definition discard {A} (m : AtM (result A)) : AtM (result unit) := try! _ := m in Ret (Ok tt).

Definition op_prog (s : AttService) (c : Ctx) (op : AttOp) : AtM (result unit) :=
  match op with
  | DoRequest cmd => discard (RequestUploadURL s c cmd)
  | DoConfirm cmd => discard (Confirm s c cmd)
  | DoStoreInbound conv fn ct data => discard (StoreInbound s c conv fn ct data)
  | DoDownload id => discard (Download s c id)
  | DoGet id => discard (Get s c id)
  | DoDownloadSigned token => discard (DownloadSigned s c token)
  | DoReady id => discard (AttachmentReady c id)
  | DoIntegrationURL id => discard (IntegrationMediaURL s c id)
  | DoAvatarURLs ids => discard (SignedAvatarURLs s c ids)
  | DoHydrate ids => discard (HydrateAttachments s c ids)
  | DoValidate ids => ValidateMessageAttachments c ids
  | DoValidateImage id => ValidateReadyImage s c id
  end.

(** A call that is always allowed. *)
Ltac asked := apply wp_bind; [apply _|]; apply wp_call; [by split|].
Ltac tried := apply wp_bind_ok; [apply _|]; apply wp_call; [by split|].

Section Access.
Context (s : AttService) (c : Ctx) (op : AttOp).

(** The file was read, and its conversation with it, which the actor sees; or it has none. *)
Definition reached (g : list fact) (a : AttachmentRecord) : Prop :=
  Found a ∈ g /\
  (ar_ConversationID a = "" \/
   exists ac conv, FromContext c = Some ac /\ Seen (ar_ConversationID a) conv ∈ g /\ conv_visible ac conv = true).

(** A new record: of the tenant, named by one element, within the limits, under the key that was
    signed or stored; of a conversation the actor sees, or one that sent it, or an avatar. *)
Definition proper (g : list fact) (a : AttachmentRecord) : Prop :=
  RequireTenant c = Ok (ar_TenantID a) /\ ar_Filename a <> "" /\ slash ∉ bytes_of (ar_Filename a) /\
  match op with
  | DoRequest cmd =>
      ar_Status a = StatusPending /\ Signed (ar_StorageKey a) (ar_Size a) ∈ g /\
      match cu_Avatar cmd with
      | None =>
          0 < ar_Size a <= cg_MaxSizeBytes (at_cfg s) /\ contentTypeAllowed s (ar_ContentType a) = true /\
          ar_StorageKey a = attachment_key (ar_TenantID a) (ar_ConversationID a) (ar_ID a) (ar_Filename a) /\
          exists ac id conv, FromContext c = Some ac /\ Seen id conv ∈ g /\ cv_ID conv = ar_ConversationID a /\ conv_visible ac conv = true
      | Some avatar =>
          0 < ar_Size a <= cg_AvatarMaxSizeBytes (at_cfg s) /\ isImageContentType s (ar_ContentType a) = true /\
          ar_ConversationID a = "" /\ exists owner, (owner = "contacts" \/ owner = "users") /\ trim_space (av_OwnerID avatar) <> "" /\
          ar_StorageKey a = avatar_key (ar_TenantID a) owner (trim_space (av_OwnerID avatar)) (ar_Filename a)
      end
  | DoStoreInbound conv _ _ data =>
      ar_Status a = StatusReady /\ Stored (ar_StorageKey a) ∈ g /\ ar_Size a = Z.of_nat (String.length data) /\
      0 < ar_Size a <= cg_MaxSizeBytes (at_cfg s) /\ contentTypeAllowed s (ar_ContentType a) = true /\
      ar_ConversationID a = trim_space conv /\ ar_ConversationID a <> "" /\
      ar_StorageKey a = attachment_key (ar_TenantID a) (ar_ConversationID a) (ar_ID a) (ar_Filename a)
  | _ => False
  end.

(** A record made ready: it was reached and its file was there; it is linked to the message it
    had or to one of its conversation; its file is the one uploaded or its conversion. *)
Definition confirmed (g : list fact) (a : AttachmentRecord) : Prop :=
  exists old, reached g old /\ Uploaded (ar_StorageKey old) ∈ g /\ ar_Status a = StatusReady /\
    ar_ID a = ar_ID old /\ ar_TenantID a = ar_TenantID old /\ ar_ConversationID a = ar_ConversationID old /\
    blank (ar_ContentType a) = false /\
    (ar_MessageID a = ar_MessageID old \/
     exists m, Of (ar_MessageID a) m ∈ g /\ ms_ConversationID m = ar_ConversationID old) /\
    (ar_StorageKey a = ar_StorageKey old \/
     ar_StorageKey a = swapToOgg (ar_StorageKey old) /\ Stored (ar_StorageKey a) ∈ g).

Definition att_pre (R : Type) (c' : Ctx) (e : AttPort R) (g : list fact) : Prop :=
  c' = c /\
  match e with
  | AttCreate a => proper g a
  | AttUpdate a => (exists cmd, op = DoConfirm cmd) /\ confirmed g a
  | StDownload key filename _ =>
      match op with
      | DoDownload _ => exists a, reached g a /\ ar_Status a = StatusReady /\ ar_StorageKey a = key /\ ar_Filename a = filename
      | DoDownloadSigned token => exists now ct, verifyMediaToken (hmacHex s) now (stripMediaExtension token) = Ok (key, ct, filename)
      | _ => False
      end
  | StPut key _ data =>
      match op with
      | DoConfirm _ => exists a, reached g a /\ Uploaded (ar_StorageKey a) ∈ g /\ key = swapToOgg (ar_StorageKey a)
      | DoStoreInbound _ _ _ data' => data = data'
      | _ => False
      end
  | StDelete key => (exists cmd, op = DoConfirm cmd) /\
      exists a, reached g a /\ key = ar_StorageKey a /\ Stored (swapToOgg key) ∈ g /\ swapToOgg key <> key
  | _ => True
  end.

Definition att_post (R : Type) (c' : Ctx) (e : AttPort R) (g : list fact) (r : R) (g' : list fact) : Prop :=
  match e in AttPort R return R -> Prop with
  | AttByID _ => fun r => g' = match r with Ok a => Found a :: g | Err _ => g end
  | AtConv id => fun r => g' = match r with Ok conv => Seen id conv :: g | Err _ => g end
  | AtMessage id => fun r => g' = match r with Ok m => Of id m :: g | Err _ => g end
  | StExists key => fun r => g' = match r with Ok true => Uploaded key :: g | _ => g end
  | StSignUpload key _ size _ => fun r => g' = match r with Ok _ => Signed key size :: g | Err _ => g end
  | StPut key _ _ => fun r => g' = match r with Ok _ => Stored key :: g | Err _ => g end
  | _ => fun _ => g' = g
  end r.

Definition att_contract : contract Ctx AttPort (list fact) := pre_post att_pre att_post.

#[export] Instance att_mono : Monotone att_contract.
Proof. apply pre_post_mono. Qed.

Definition allowed {A} (m : AtM A) : Prop := forall g, wp att_contract m (fun _ _ => True) g.

Lemma reached_more g f a : reached g a -> reached (f :: g) a.
Proof.
  intros [Hf H]. split; [by right|]. destruct H as [H|(ac & conv & Hac & Hs & Hv)]; [by left|right].
  exists ac, conv. split; [done|]. split; [by right|done].
Qed.

Lemma load_sees id (Q : result Conversation -> list fact -> Prop) g :
  (forall conv ac, FromContext c = Some ac -> conv_visible ac conv = true -> Q (Ok conv) (Seen id conv :: g)) ->
  (forall e g', Q (Err e) g') -> wp att_contract (loadVisible c id) Q g.
Proof.
  intros Hk He. unfold loadVisible. destruct (id =! ""); [apply He|]. destruct (FromContext c) as [ac|] eqn:Hac; [|apply He].
  tried. intros [conv|e] g' Hg'; [|apply He]. cbn in Hg'. subst g'. destruct (conv_visible ac conv) eqn:Hv; [|apply He]. by eapply Hk.
Qed.

Lemma authorize_reaches a (Q : result unit -> list fact -> Prop) g :
  Found a ∈ g -> (forall g', (forall f, f ∈ g -> f ∈ g') -> reached g' a -> Q (Ok tt) g') -> (forall e g', Q (Err e) g') ->
  wp att_contract (authorizeAttachment c a) Q g.
Proof.
  intros Ha Hk He. unfold authorizeAttachment. case_bool_decide as Hc.
  - apply Hk; [done|]. split; [done|by left].
  - apply wp_bind_ok; [apply _|]. apply load_sees; [|done]. intros conv ac Hac Hv. apply Hk; [intros f Hf; by right|].
    split; [by right|]. right. exists ac, conv. split; [done|]. split; [left|done].
Qed.

Lemma media_url_quiet key ct fn (Q : string -> list fact -> Prop) g :
  (forall url, Q url g) -> wp att_contract (mediaURL s c key ct fn) Q g.
Proof. intros HQ. unfold mediaURL. asked. intros now g' Hg'. cbn in Hg'. subst g'. apply HQ. Qed.

Lemma reserve_allowed id tn conv key fn ct size g :
  (forall provider now, proper (Signed key size :: g) (mkAttachmentRecord id tn conv "" fn ct size provider key "" StatusPending (actorID c) now)) ->
  wp att_contract (reserveUpload s c id tn conv key fn ct size) (fun _ _ => True) g.
Proof.
  intros Hp. unfold reserveUpload. asked. intros [t|e] g' Hg'; [|done]. cbn in Hg'. subst g'.
  asked. intros provider g' Hg'. cbn in Hg'. subst g'. asked. intros now g' Hg'. cbn in Hg'. subst g'.
  apply wp_bind_ok; [apply _|]. apply wp_call; [|by intros [[]|e]]. split; [done|apply Hp].
Qed.
End Access.

Lemma discard_allowed s c op {A} (m : AtM (result A)) : allowed s c op m -> allowed s c op (discard m).
Proof. intros Hm g. apply wp_bind_ok; [apply pre_post_mono|]. eapply wp_mono; [apply pre_post_mono| |apply Hm]. by intros [a|e]. Qed.

Lemma request_allowed s c cmd : allowed s c (DoRequest cmd) (RequestUploadURL s c cmd).
Proof.
  intros g. unfold RequestUploadURL, requestAvatarUploadURL. destruct (RequireTenant c) as [tn|] eqn:Htn; [|by destruct (cu_Avatar cmd)].
  destruct (cu_Avatar cmd) as [avatar|] eqn:Hav; cbn [bind_ok bind].
  - destruct (_ && _) eqn:Ho; [exact I|]. destruct (trim_space (av_OwnerID avatar) =! "") eqn:Hid; [exact I|]. apply bool_decide_eq_false in Hid.
    unfold validateAvatar. destruct (refuse_if _ _) as [[]|e] eqn:Hv; [|exact I]. cbn [bind_ok bind].
    apply refuse_if_ok, upload_details_ok in Hv as (Hf & Himg & Hsz). asked. intros id g' Hg'. cbn in Hg'. subst g'.
    apply reserve_allowed. intros provider now. split; [done|]. split; [done|]. split; [apply sanitize_no_slash|]. cbn. rewrite Hav.
    split; [done|]. split; [left|]. split; [done|]. split; [done|]. split; [done|]. eexists. split; [|done].
    apply andb_false_iff in Ho as [Ho|Ho]; apply negb_false_iff, bool_decide_eq_true in Ho; auto.
  - apply wp_bind_ok; [apply _|]. apply load_sees; [|done]. intros conv ac Hac Hvis.
    unfold validate. destruct (refuse_if _ _) as [[]|e] eqn:Hv; [|exact I]. cbn [bind_ok bind].
    apply refuse_if_ok, upload_details_ok in Hv as (Hf & Hct & Hsz). asked. intros id g' Hg'. cbn in Hg'. subst g'.
    apply reserve_allowed. intros provider now. split; [done|]. split; [done|]. split; [apply sanitize_no_slash|]. cbn. rewrite Hav.
    split; [done|]. split; [left|]. split; [done|]. split; [done|]. split; [done|]. exists ac, (trim_space (cu_ConversationID cmd)), conv.
    split; [done|]. split; [right; left|done].
Qed.

Lemma store_inbound_allowed s c conv fn ct data : allowed s c (DoStoreInbound conv fn ct data) (StoreInbound s c conv fn ct data).
Proof.
  intros g. unfold StoreInbound. destruct (RequireTenant c) as [tn|] eqn:Htn; [|done]. cbn [bind_ok bind].
  destruct (trim_space conv =! "") eqn:Hc; [exact I|]. apply bool_decide_eq_false in Hc.
  unfold validate. destruct (refuse_if _ _) as [[]|e] eqn:Hv; [|exact I]. cbn [bind_ok bind].
  apply refuse_if_ok, upload_details_ok in Hv as (Hf & Hct & Hsz). asked. intros id g' Hg'. cbn in Hg'. subst g'.
  asked. intros [[]|e] g' Hg'; [|done]. cbn in Hg'. subst g'. asked. intros provider g' Hg'. cbn in Hg'. subst g'.
  apply wp_bind; [apply _|]. apply media_url_quiet. intros url. asked. intros now g' Hg'. cbn in Hg'. subst g'.
  apply wp_bind_ok; [apply _|]. apply wp_call; [|by intros [[]|e]]. split; [done|]. split; [done|]. split; [done|].
  split; [apply sanitize_no_slash|]. cbn. split; [done|]. split; [left|done].
Qed.

(** A conversion replaces the file by one that was stored. *)
Lemma convert_keeps s c cmd old a (Q : AttachmentRecord -> list fact -> Prop) g :
  reached c g old -> Uploaded (ar_StorageKey old) ∈ g -> ar_StorageKey a = ar_StorageKey old ->
  (forall a' g', (forall f, f ∈ g -> f ∈ g') ->
     (a' = a \/ exists fn size, a' = set_media (swapToOgg (ar_StorageKey a)) fn "audio/ogg" size a /\ Stored (swapToOgg (ar_StorageKey a)) ∈ g') -> Q a' g') ->
  wp (att_contract s c (DoConfirm cmd)) (maybeConvertAudio s c a) Q g.
Proof.
  intros Hr Hup Hk HQ. unfold maybeConvertAudio. destruct (_ || _); [apply HQ; auto|].
  asked. intros [data|e] g' Hg'; cbn in Hg'; subst g'; [|apply HQ; auto].
  asked. intros [[ogg re]|e] g' Hg'; cbn in Hg'; subst g'; [|apply HQ; auto].
  apply wp_bind; [apply _|]. apply wp_call; [split; [done|]; exists old; by rewrite Hk|]. intros [[]|e] g' Hg'; cbn in Hg'; subst g'; [|apply HQ; auto].
  assert (forall a' g', a' = set_media (swapToOgg (ar_StorageKey a)) (swapToOgg (ar_Filename a)) "audio/ogg" (Z.of_nat (String.length ogg)) a ->
    g' = Stored (swapToOgg (ar_StorageKey a)) :: g -> Q a' g') as Hdone.
  { intros a' g' -> ->. apply HQ; [intros f Hf; by right|]. right. eexists _, _. split; [done|left]. }
  apply wp_bind; [apply _|]. case_bool_decide as Hne; cbn [negb].
  - by apply Hdone.
  - apply wp_bind; [apply _|]. apply wp_call; [|by intros r g' Hg'; cbn in Hg'; subst g'; apply Hdone].
    split; [done|]. split; [by exists cmd|]. exists old. split; [by apply reached_more|]. split; [done|]. split; [left|done].
Qed.

Lemma reached_mono c g g' a : (forall f, f ∈ g -> f ∈ g') -> reached c g a -> reached c g' a.
Proof. intros Hg [Hf [H|(ac & conv & Hac & Hs & Hv)]]; split; auto. right. exists ac, conv. auto. Qed.

(** A message is the one the file is linked to, or one of its conversation. *)
Lemma linked_tells s c op mid a (Q : result string -> list fact -> Prop) g :
  (forall m g', (forall f, f ∈ g -> f ∈ g') ->
     (m = ar_MessageID a \/ exists x, Of m x ∈ g' /\ ms_ConversationID x = ar_ConversationID a) -> Q (Ok m) g') ->
  (forall e g', Q (Err e) g') -> wp (att_contract s c op) (linked c mid a) Q g.
Proof.
  intros Hk He. unfold linked. destruct (trim_space mid =! ""); [apply Hk; auto|]. asked. intros [m|e] g' Hg'; [|apply He].
  cbn in Hg'. subst g'. destruct (ms_ConversationID m <>! ar_ConversationID a) eqn:Hc; [apply He|].
  apply negb_false_iff, bool_decide_eq_true in Hc. apply Hk; [intros f Hf; by right|]. right. exists m. split; [left|done].
Qed.

Lemma confirm_allowed s c cmd : allowed s c (DoConfirm cmd) (Confirm s c cmd).
Proof.
  intros g. unfold Confirm. destruct (RequireTenant c) as [tn|] eqn:Htn; [|exact I]. cbn [bind_ok bind].
  tried. intros [old|e] g1 Hg1; [|exact I]. cbn in Hg1. subst g1.
  apply wp_bind_ok; [apply _|]. apply authorize_reaches; [left| |done]. intros g1 _ Hr.
  apply wp_bind_ok; [apply _|]. apply linked_tells; [|done]. intros mid g2 Hg2 Hmid. cbn zeta.
  set (a0 := set_link mid (ar_SignedURL old) (ar_Status old) old).
  asked. intros [[]|e] g3 Hg3; [|exact I|exact I]. cbn in Hg3. subst g3.
  set (ct := if blank (ar_ContentType a0) then _ else _).
  assert (blank ct = false) as Hct by (unfold ct; by destruct (blank (ar_ContentType a0)) eqn:Hb).
  assert (reached c (Uploaded (ar_StorageKey old) :: g2) old) as Hr3 by (eapply reached_mono; [|exact Hr]; intros f Hf; right; auto).
  apply wp_bind; [apply _|]. apply (convert_keeps s c cmd old); [exact Hr3|left|done|]. intros a1 g4 Hg4 Ha1.
  apply wp_bind; [apply _|]. apply media_url_quiet. intros url.
  apply wp_bind_ok; [apply _|]. apply wp_call; [|by intros [[]|e]]. split; [done|]. split; [by exists cmd|].
  exists old. split; [by eapply reached_mono|]. split; [apply Hg4; left|].
  assert (mid = ar_MessageID old \/ exists m, Of mid m ∈ g4 /\ ms_ConversationID m = ar_ConversationID old) as Hlink.
  { destruct Hmid as [Hmid|(m & Hin & Hm)]; [by left|right]. exists m. split; [|done]. apply Hg4. by right. }
  destruct Ha1 as [-> |(fn & size & -> & Hst)]; split_and!; try done; [by left|by right].
Qed.

Lemma download_allowed s c id : allowed s c (DoDownload id) (Download s c id).
Proof.
  intros g. unfold Download. destruct (RequireTenant c) as [tn|] eqn:Htn; [|exact I]. cbn [bind_ok bind].
  tried. intros [a|e] g1 Hg1; [|exact I]. cbn in Hg1. subst g1.
  apply wp_bind_ok; [apply _|]. apply authorize_reaches; [left| |done]. intros g1 _ Hr.
  destruct (ar_Status a <>! StatusReady) eqn:Hs; [exact I|]. apply negb_false_iff, bool_decide_eq_true in Hs.
  apply wp_bind_ok; [apply _|]. apply wp_call; [|by intros [r|e]]. split; [done|]. by exists a.
Qed.

Lemma signed_allowed s c token : allowed s c (DoDownloadSigned token) (DownloadSigned s c token).
Proof.
  intros g. unfold DownloadSigned. asked. intros now g1 _.
  destruct (verifyMediaToken _ now _) as [[[key ct] fn]|e] eqn:Hv; [|exact I].
  apply wp_bind_ok; [apply _|]. apply wp_call; [|by intros [r|e]]. split; [done|]. by exists now, ct.
Qed.

(** What is read of a file without its bytes: only by who reaches it. *)
Lemma get_reaches s c id :
  forall g, wp (att_contract s c (DoGet id)) (Get s c id) (fun r g' => forall a, r = Ok a ->
    exists old, reached c g' old /\ ar_ID a = ar_ID old /\ ar_StorageKey a = ar_StorageKey old) g.
Proof.
  intros g. unfold Get. destruct (RequireTenant c) as [tn|] eqn:Htn; [|by intros a]. cbn [bind_ok bind].
  tried. intros [old|e] g1 Hg1; [|by intros a]. cbn in Hg1. subst g1.
  apply wp_bind_ok; [apply _|]. apply authorize_reaches; [left| |by intros e g' a]. intros g1 _ Hr.
  destruct (ar_Status old =! StatusReady).
  - apply wp_bind; [apply _|]. apply media_url_quiet. intros url a [= <-]. by exists old.
  - intros a [= <-]. by exists old.
Qed.

(** The operations that only read records. *)
Lemma reading_allowed s c op {A} (m : AtM A) :
  calls (fun R c' e => c' = c /\ match e with AttCreate _ | AttUpdate _ | StDownload _ _ _ | StPut _ _ _ | StDelete _ => False | _ => True end) m ->
  allowed s c op m.
Proof.
  intros Hm g. revert g. induction m as [a|R c' e k IH]; intros g; [exact I|]. destruct Hm as [[-> He] Hk].
  split; [split; [done|by destruct e]|]. intros r g' _. apply IH, Hk.
Qed.

Ltac reads := repeat calls_step ltac:(by split).

(** C39. Files follow their conversation. Whatever the stores answer, with every call made under the
    caller's context: a file is only downloaded with a token that opens it, or when its record was
    read, is ready and is an avatar or of a conversation that was read and that the actor sees,
    which is also what it takes to be given the record; a record is only made ready so, once its
    file was found in the store, linked to a message of its conversation, its file the one uploaded or the
    conversion that was stored; the original is only deleted after that; and a new record is
    the tenant's, named by a single element, within the limits and the types allowed, under the
    key that was signed or stored, of a conversation the actor sees, of one that sent the file, or
    an avatar. *)
Theorem files_follow_their_conversation (s : AttService) (c : Ctx) :
  (forall op, wp (att_contract s c op) (op_prog s c op) (fun _ _ => True) []) /\
  forall id, wp (att_contract s c (DoGet id)) (Get s c id) (fun r g => forall a, r = Ok a ->
    exists old, reached c g old /\ ar_ID a = ar_ID old /\ ar_StorageKey a = ar_StorageKey old) [].
Proof.
  split; [|intros id; apply get_reaches]. intros op. destruct op; cbn [op_prog]; try apply discard_allowed.
  - apply request_allowed.
  - apply confirm_allowed.
  - apply store_inbound_allowed.
  - apply download_allowed.
  - intros g. eapply wp_mono; [apply _| |apply get_reaches]. done.
  - apply signed_allowed.
  - apply reading_allowed. unfold AttachmentReady. reads.
  - apply reading_allowed. unfold IntegrationMediaURL, mediaURL. reads.
  - apply reading_allowed. unfold SignedAvatarURLs. reads.
  - apply reading_allowed. unfold HydrateAttachments, mediaURL. reads.
  - apply reading_allowed. unfold ValidateMessageAttachments. reads.
  - apply reading_allowed. unfold ValidateReadyImage. reads.
Qed.

(** ** A house of files in memory *)

Record House := mkHouse { ho_records : gmap string AttachmentRecord; ho_files : gmap string string; ho_update_fails : bool }.

Definition missing {A} : result A := Err (NotFound "resource not found").
Definition one {A} (o : option A) : result A := match o with Some a => Ok a | None => missing end.
Definition put_file (k d : string) (h : House) : House := mkHouse (ho_records h) (<[k := d]> (ho_files h)) (ho_update_fails h).

Definition talk : Conversation :=
  mkConversation "c1" "t1" "k1" "whatsapp" "ch1" "s1" "" "assigned" "u1" "" "" [] [] 0 None None 0 None 0 0 None.

(** Every call works, but an update while [ho_update_fails], once. *)
Definition house : handler Ctx AttPort House := fun R c e h =>
  match e in AttPort R return R * House with
  | AtNow => (7, h)
  | AtNewID => ("a2", h)
  | AttCreate a => (Ok tt, mkHouse (<[ar_ID a := a]> (ho_records h)) (ho_files h) (ho_update_fails h))
  | AttUpdate a =>
      if ho_update_fails h then (Err (Internal "an internal error occurred"), mkHouse (ho_records h) (ho_files h) false)
      else match ho_records h !! ar_ID a with
           | Some old => (Ok tt, mkHouse (<[ar_ID a := stored_attachment old a]> (ho_records h)) (ho_files h) false)
           | None => (missing, h)
           end
  | AttByID id => (one (ho_records h !! id), h)
  | AttsByIDs ids => (Ok (omap (fun i => ho_records h !! i) ids), h)
  | AtConv id => ((if id =! "c1" then Ok talk else missing), h)
  | AtMessage id => (missing, h)
  | StProvider => ("local", h)
  | StSignUpload key ct size ttl => (Ok (mkUploadTarget key "PUT" [] 0), h)
  | StDownload key fn _ => (match ho_files h !! key with Some d => Ok (mkDownloadResult "" d "" fn) | None => missing end, h)
  | StPut key _ d => (Ok tt, put_file key d h)
  | StExists key => (Ok (bool_decide (is_Some (ho_files h !! key))), h)
  | StGet key => (one (ho_files h !! key), h)
  | StDelete key => (Ok tt, mkHouse (ho_records h) (delete key (ho_files h)) (ho_update_fails h))
  | ToOgg d => (Ok ("ogg of " +:+ d, false), h)
  end.

Definition agent : Ctx := mkCtx (Some "t1") (Some (mkAuthContext "t1" "u1" ∅ [] ScopeOwn)) None None.
Definition voice_key : string := "attachments/t1/c1/a1/voice.webm".
Definition voice : AttachmentRecord :=
  mkAttachmentRecord "a1" "t1" "c1" "" "voice.webm" "audio/webm;codecs=opus" 4 "local" voice_key "" StatusPending "u1" 1.
Definition recorded (fails : bool) : House := mkHouse {[ "a1" := voice ]} {[ voice_key := "opus" ]} fails.
Definition confirm_voice : AtM (result AttachmentRecord) := Confirm open_house agent (mkConfirmUpload "a1" "").

(** Where the record says its file is, and whether the file is there. *)
Definition whereabouts (h : House) : option (string * string * bool) :=
  (fun a => (ar_Status a, ar_StorageKey a, bool_decide (is_Some (ho_files h !! ar_StorageKey a)))) <$> ho_records h !! "a1".

(** Confirmed once, a recording is ready in its converted form. Confirmed twice at the same time, the
    second request may find the original gone after it saw it there: it keeps the key of the
    original, which is what the record says in the end, and the recording cannot be played. *)
Theorem confirmed_twice_a_recording_is_lost :
  whereabouts (run house confirm_voice (recorded false)).2 = Some (StatusReady, "attachments/t1/c1/a1/voice.ogg", true) /\
  let out := schedule house (replicate 3 0 ++ replicate 12 1 ++ replicate 12 0)%nat [confirm_voice; confirm_voice] (recorded false) in
  steps house ([confirm_voice; confirm_voice], recorded false) (out.1, out.2) /\
  whereabouts out.2 = Some (StatusReady, voice_key, false).
Proof. split; [vm_compute; reflexivity|]. split; [apply schedule_reaches|]. vm_compute. reflexivity. Qed.

(** When the update after a conversion fails the record still has the key of the original, which
    was deleted: confirming again answers that nothing was uploaded. *)
Theorem a_failed_confirmation_cannot_be_repeated :
  let first := run house confirm_voice (recorded true) in
  let again := run house confirm_voice first.2 in
  is_ok first.1 = false /\ whereabouts first.2 = Some (StatusPending, voice_key, false) /\
  again.1 = Err (Validation "the file was not uploaded to storage").
Proof. split_and!; vm_compute; reflexivity. Qed.

(** The owner of an avatar is not checked to be one name: on the local store a user of one tenant
    may upload over the avatar of a user of another. *)
Theorem an_avatar_leaves_its_tenant :
  let cmd := mkCreateUploadURL "" "me.png" "image/png" 10 (Some (mkAvatarTarget "users" "../../t2/users/u9")) in
  exists a target, (run house (RequestUploadURL open_house agent cmd) (recorded false)).1 = Ok (a, target) /\
    ar_TenantID a = "t1" /\ pathFor (ar_StorageKey a) = pathFor (avatar_key "t2" "users" "u9" "me.png").
Proof. eexists _, _. split; [vm_compute; reflexivity|]. split; vm_compute; reflexivity. Qed.

(** A bar in the content type moves what the upload token binds: the key it resolves to is not the
    one of the record. *)
Theorem a_bar_moves_the_upload :
  ResolveUpload zeros 5 (signUpload zeros "attachments/t1/c1/a1/x.png" "image/png|avatars/t2" 10 1000) =
    Ok ("avatars/t2|attachments/t1/c1/a1/x.png", "image/png", 10) /\
  contentTypeAllowed open_house "image/png|avatars/t2" = true.
Proof. split; vm_compute; reflexivity. Qed.
